(* ===== verification/_CoqProject ===== *)
-Q . S2P
Prelude.v
CryptoCommon.v
Serialize.v
SerializeFacts.v
ArithUint256.v
ArithFacts.v
CompactFacts.v
ChainParams.v
BlockIndex.v
BlockIndexFacts.v
Pow.v
PowFacts.v
Script.v
ScriptFacts.v
Scalar.v
ScalarFacts.v
PubKey.v
Interpreter.v
InterpreterFacts.v
Standard.v
StandardFacts.v
InterpreterProps.v
HashEngine.v
Sha256.v
Sha256Facts.v
Sha1.v
Sha1Facts.v
Sha512.v
Sha512Facts.v
Ripemd160.v
Ripemd160Facts.v
Hmac.v
HmacFacts.v
Transaction.v
TransactionFacts.v
StakeModifier.v
StakeModifierFacts.v
ChainState.v
ChainStateFacts.v
ChainSelectionFacts.v
ChainReachFacts.v
ChainProps.v
SigHash.v
SigHashFacts.v
Compressor.v
CompressorFacts.v
Coins.v
CoinsFacts.v
CoinsView.v
CoinsViewFacts.v
Bignum.v
BignumFacts.v
ZerocoinDB.v
Validation.v
ValidationFacts.v
ConnectFacts.v
Merkle.v
MerkleFacts.v
BlockCheck.v
ConnectZerocoinFacts.v
BlockCheckFacts.v
Zerocoin.v
ZerocoinFacts.v
ZerocoinProps.v
ZerocoinChain.v
Accumulators.v
AccumulatorFacts.v
AccumulatorChainFacts.v
AccumulatorWitnessFacts.v
AccumulatorProps.v
ZerocoinValidation.v
MemPool.v
MemPoolFacts.v
MemPoolAccept.v
MemPoolCheck.v
MemPoolProps.v
Kernel.v
KernelProps.v
Orphans.v
