(* ===== verification/Prelude.v ===== *)
(** * Verification of the Tessa node

    Tessa is a full node of a crypto-currency: it receives headers, blocks and
    transactions, keeps the tree of all blocks and the database of unspent outputs,
    selects the best valid chain and moves the database along it.  The sources are
    under src/src; this library models the consensus part of them and the libraries
    that part calls.

    ** Conventions

    A [w]-bit integer is a [Z] with the wrap-around written out ([wrap], [swrap] and
    their abbreviations below); bytes and words are lists of [Z] within [bytes] and
    [words].  [None] is what C++ leaves without a result: an exception, a failed
    assertion, a null or out-of-range access.  Rejections of the validation code are
    values of the type [outcome] (Validation.v).  Loops are structural or carry fuel;
    the fuel is computed from the input, and the theorems named below show that it
    is enough (the functions return [Some]).  The bytes of the
    system's random generator are arguments.

    ** Files

    - Prelude.v: machine integers, lists of bytes, the tactics and hints.
    - CryptoCommon.v, Serialize.v, SerializeFacts.v: crypto/common.h, serialize.h and
      streams.h; a [codec] is a serializer with a parser that accepts exactly its
      output.
    - ArithUint256.v, ArithFacts.v, CompactFacts.v: arith_uint256.h/.cpp.
    - ChainParams.v: chainparams.cpp, the values of the three networks.
    - BlockIndex.v, BlockIndexFacts.v: chain.h, chain.cpp; the nodes of the block tree
      in a store of pointers, skip lists, [CChain].
    - Pow.v, PowFacts.v: pow.cpp, the work and the trust of a block.
    - StakeModifier.v: the stake modifiers of kernel.cpp and the proof-of-stake part of
      [AddToBlockIndex]; StakeModifierFacts.v has their invariant ([kernel_inv]) and
      the value of a modifier.
    - ChainState.v: the chain selection of main.cpp ([FindMostWorkChain] to
      [ReceivedBlockTransactions], with [AddToBlockIndex] in full) over the interface
      [ChainBackend] for connecting and disconnecting a block.  ChainStateFacts.v
      states the invariant [chain_inv],
      ChainSelectionFacts.v follows [ActivateBestChain] through its loops,
      ChainReachFacts.v shows that every event keeps the invariant, and ChainProps.v
      has the properties and an example tree.
    - Script.v, ScriptFacts.v, Interpreter.v, InterpreterFacts.v, InterpreterProps.v,
      Standard.v, StandardFacts.v: script/; signatures are the class
      [BaseSignatureChecker], hash functions the class [HashFunctions].
    - Scalar.v, ScalarFacts.v: the scalar type of secp256k1.  PubKey.v: ecdsa/pubkey
      over the class [Secp256k1].
    - HashEngine.v, Sha256.v, Sha1.v, Sha512.v, Ripemd160.v, Hmac.v with their Facts:
      crypto/; the streaming classes against the standards.
    - Transaction.v, TransactionFacts.v, SigHash.v, SigHashFacts.v: primitives/ and
      the signature hash of script/interpreter.cpp.
    - Compressor.v, Coins.v, CoinsView.v with their Facts: compressor, coins, undo
      records and the stack of coin caches.
    - Validation.v, BlockCheck.v: [CheckTransaction], [CheckInputs], [UpdateCoins],
      [ConnectBlock], [DisconnectBlock], [CheckBlock] and the contextual checks of
      main.cpp, over the class [ZerocoinChecks]; ValidationFacts.v, ConnectFacts.v,
      ConnectZerocoinFacts.v, BlockCheckFacts.v their properties.
    - Merkle.v, MerkleFacts.v: primitives/block.cpp and merkleblock.cpp.
    - Bignum.v, BignumFacts.v: bignum.h over the class [Gmp], and rand_bignum.cpp;
      ZerocoinDB.v: zerocoin/zerocoindb.cpp; Zerocoin.v, ZerocoinFacts.v, ZerocoinProps.v:
      libzerocoin.
    - ZerocoinChain.v: zerocoin/mainzero.cpp, zerocoin/zerochain.cpp, the serialization
      of spends and [UpdateZKPSupply]; ZerocoinValidation.v makes them an instance of
      [ZerocoinChecks], the class that Validation.v is proved against.
    - Accumulators.v: zerocoin/accumulators.cpp, accumulatormap.cpp and
      accumulatorcheckpoints.cpp on the active chain as a list of blocks with their
      checkpoints.  AccumulatorFacts.v defines the chains that [ConnectBlock] builds
      ([acc_reach]) and what a checkpoint should hold, AccumulatorChainFacts.v shows
      the invariant, AccumulatorWitnessFacts.v follows the loop over the blocks that
      makes a witness, AccumulatorProps.v has the properties and a small chain.
    - MemPool.v: txmempool.h/.cpp; MemPoolAccept.v: the policy of main.cpp up to
      [AcceptToMemoryPool]; MemPoolCheck.v: [CTxMemPool::check]; MemPoolFacts.v,
      MemPoolProps.v: the invariant [pool_ok] and the properties.  Orphans.v: the
      orphan transactions of main.cpp.
    - Kernel.v: the rest of kernel.cpp, stake.h/.cpp, [GetTransaction] and
      [ReadBlockFromDisk]; the files and indices they read are the record
      [tx_sources].  KernelProps.v has the properties.

    ** What the theorems show

    - Chain selection: on a network with modifier intervals and with a backend that
      connects exactly the valid blocks, the invariant holds in every state that
      headers, blocks, activations and invalidations lead to, every assertion on the
      way holds, and [ActivateBestChain] ends with the best of the valid blocks as the
      tip ([chain_state_safe], [ActivateBestChain_best], [FindMostWorkChain_correct]);
      with a corrupt copy of a block it does not end
      ([ActivateBestChain_corrupt_loops]).
    - Moving the coin database: disconnecting a block undoes connecting it
      ([ConnectBlock_DisconnectBlock]), up to a flag the undo record does not hold
      ([restore_loses_coinstake]); the caches refine one map ([coins_view_refinement]).
    - Validation: what a transaction or a block that passes the checks satisfies
      ([CheckInputs_sound], [CheckTransaction_sound], [CheckBlock_sound]), and where
      the checks leave a gap ([CheckInputs_first_script_suffices],
      [UpdateCoins_defined]).
    - Scripts: evaluation returns, later flags only restrict, the standard templates
      and multisignature do what they promise, the signature hash is that of the
      modified transaction and commits to it.
    - Arithmetic, hashing and encoding: refinement of integers and of the published
      standards, round trips and canonical encodings.
    - Zerocoin: an honest spend verifies if its random numbers are drawn into the data
      of their buffers, and is undefined with [randBignum] as it is written
      ([CoinSpend_complete]); exactly which proofs make the verifier leave its buffers
      ([SerialSoK_Verify_defined]).  On a
      chain the node connected, the checkpoints hold exactly the accumulators of the
      coins minted before ([accumulator_checkpoints_exact]), so that a witness is
      made for a coin that is old enough ([GenerateAccumulatorWitness_complete])
      and for none of the first twenty blocks ([GenerateAccumulatorWitness_early]).
      The check of a spend is characterised ([CheckZerocoinSpend_exact]), and so is the
      tracked supply ([UpdateZKPSupply_exact]).
    - Memory pool: the pool and its index of spent outputs agree after any operations
      ([mempool_consistent]), removal takes out exactly the descendants
      ([mempool_remove_exact]), a connected block leaves no conflict
      ([removeForBlock_exact]); zerocoin spends break the index and the self check
      ([spend_removal_unmarks], [check_aborts_on_spend]).  [orphans_consistent] is
      the same for the orphan transactions.
    - Proof of stake: modifiers are always defined, with the value stated, where there is
      a modifier interval ([stake_modifiers_defined]), and undefined on the main
      network ([mainnet_index_undefined]); which modifier a kernel uses
      ([GetKernelStakeModifier_exact]); what makes a proof of stake valid
      ([CheckProofOfStake_exact]); the staker finds a valid one if there is one
      ([Stake_passes_check]).

    ** Fuel

    [GetAncestor] and the loops over heights use the height of the node; the pair
    loops of merkle trees the size of the level; [FindMostWorkChain] the number of
    candidates, each round removing one; [ActivateBestChain] the square of the number
    of blocks, as a round that does not end marks a block as failed or raises the work
    of the tip; the script loop the length of the script; the removal from the memory
    pool the number of entries and outputs, as an entry is removed once; the loops along
    the active chain and to the last stake modifier its length; the limit of the
    orphans their number.  The loop that draws seeds for a spend ends with probability
    one only, and its bound is an argument.  Bounds that appear as
    hypotheses (script size, 32-bit counts, the number of transactions of a chain)
    are those of the types in the source.

    ** Not modelled

    The network, the RPC and HTTP servers, the graphical interface, the wallet, the
    miner and the wallet side of staking act on the outside world or only call the code
    above.  The fee estimator, the priorities and the rate limiter of the memory pool
    are floating-point policy: [Doubles] and the record [policy] stand for them.
    Files, LMDB and the block files are input and output; the state they hold is
    modelled as maps or given by a function, and writes to it succeed.  The stake modifier of the first block is
    the address of a string literal and a parameter of the model.  The field and group
    arithmetic of secp256k1, the pairings of relic and bls, GMP, LMDB, univalue and
    JSON are libraries behind the interfaces [Secp256k1] and [Gmp], or not used by the
    parts above.  Threads appear only through the order of the operations under
    cs_main. *)

From stdpp Require Export prelude list list_numbers gmap.
From Stdlib Require Export Lia ZArith ZifyBool ZifyNat.

Open Scope Z_scope.

(** * Machine integers

    A [w]-bit C integer is a [Z]; [wrap w] is the conversion to the unsigned
    type of that width and [swrap w] the (two's complement) conversion to the
    signed one. *)

Definition wrap (w z : Z) : Z := z `mod` 2 ^ w.
Definition swrap (w z : Z) : Z :=
  let m := wrap w z in if m <? 2 ^ (w - 1) then m else m - 2 ^ w.

Abbreviation u8 := (wrap 8).
Abbreviation u16 := (wrap 16).
Abbreviation u32 := (wrap 32).
Abbreviation u64 := (wrap 64).
Abbreviation s32 := (swrap 32).
Abbreviation s64 := (swrap 64).

(** [fits w z]: [z] is representable in the unsigned [w]-bit type. *)
Definition fits (w z : Z) : Prop := 0 ≤ z < 2 ^ w.
(** [sfits w z]: [z] is representable in the signed [w]-bit type. *)
Definition sfits (w z : Z) : Prop := - 2 ^ (w - 1) ≤ z < 2 ^ (w - 1).
(** [words w l]: every element of the array [l] is a [w]-bit word. *)
Abbreviation words w := (Forall (fits w)).
Abbreviation bytes := (words 8).

Create HintDb words.

Lemma wrap_fits w z : 0 ≤ w → fits w (wrap w z).
Proof. intros. apply Z.mod_pos_bound, Z.pow_pos_nonneg; lia. Qed.

Lemma wrap_small w z : fits w z → wrap w z = z.
Proof. apply Z.mod_small. Qed.

Lemma wrap_nonneg w z : 0 ≤ w → 0 ≤ wrap w z.
Proof. intros. apply (wrap_fits w z); lia. Qed.

Lemma land_wrap w z : 0 ≤ w → Z.land z (Z.ones w) = wrap w z.
Proof. apply Z.land_ones. Qed.

Lemma swrap_small w z : 0 < w → sfits w z → swrap w z = z.
Proof.
  intros Hw [Hl Hh]. unfold swrap, wrap.
  assert (2 ^ w = 2 * 2 ^ (w - 1)) as Hp.
  { rewrite <-Z.pow_succ_r by lia. f_equal. lia. }
  destruct (decide (0 ≤ z)).
  - rewrite Z.mod_small by lia. destruct (Z.ltb_spec z (2 ^ (w - 1))); lia.
  - assert (z `mod` 2 ^ w = z + 2 ^ w) as ->.
    { symmetry. apply Z.mod_unique with (-1); lia. }
    destruct (Z.ltb_spec (z + 2 ^ w) (2 ^ (w - 1))); lia.
Qed.

Lemma fits_mono w w' z : 0 ≤ w ≤ w' → fits w z → fits w' z.
Proof.
  intros ? [? ?]. split; [done|].
  apply Z.lt_le_trans with (2 ^ w); [done|]. apply Z.pow_le_mono_r; lia.
Qed.

#[export] Hint Resolve wrap_fits wrap_nonneg : words.
#[export] Hint Extern 2 (_ ≤ _) => lia : words.
#[export] Hint Extern 2 (_ < _) => lia : words.

(** * Bits *)

Lemma fits_testbit w z i : 0 ≤ w ≤ i → fits w z → Z.testbit z i = false.
Proof. intros ? [? ?]. apply (Z.bounded_iff_bits_nonneg w); lia. Qed.

Lemma fits_bits w z :
  0 ≤ w → 0 ≤ z → (∀ i, w ≤ i → Z.testbit z i = false) → fits w z.
Proof. intros. split; [done|]. apply (Z.bounded_iff_bits_nonneg w); [lia..|done]. Qed.

Lemma fits_lor w a b : 0 ≤ w → fits w a → fits w b → fits w (Z.lor a b).
Proof.
  intros ? Ha Hb. apply fits_bits; [done| |].
  - destruct Ha, Hb. apply Z.lor_nonneg; lia.
  - intros i ?. rewrite Z.lor_spec.
    rewrite !(fits_testbit w) by (done || lia). done.
Qed.

Lemma fits_land w a b : 0 ≤ w → fits w a → 0 ≤ b → fits w (Z.land a b).
Proof.
  intros ? Ha Hb. apply fits_bits; [done| |].
  - destruct Ha. apply Z.land_nonneg; lia.
  - intros i ?. rewrite Z.land_spec.
    rewrite !(fits_testbit w) by (done || lia). done.
Qed.

Lemma fits_lxor w a b : 0 ≤ w → fits w a → fits w b → fits w (Z.lxor a b).
Proof.
  intros ? Ha Hb. apply fits_bits; [done| |].
  - destruct Ha, Hb. apply Z.lxor_nonneg; lia.
  - intros i ?. rewrite Z.lxor_spec.
    rewrite !(fits_testbit w) by (done || lia). done.
Qed.

Lemma fits_shiftr w a n : 0 ≤ w → 0 ≤ n → fits w a → fits w (a ≫ n).
Proof.
  intros ?? Ha. apply fits_bits; [done| |].
  - apply Z.shiftr_nonneg. destruct Ha; lia.
  - intros i ?. rewrite Z.shiftr_spec by lia.
    by rewrite (fits_testbit w) by (done || lia).
Qed.

#[export] Hint Resolve fits_lor fits_land fits_lxor fits_shiftr : words.

(** A disjoint [|] is a sum: the high part is shifted past the low part. *)
(** Testing one bit with a mask. *)
Lemma land_pow2 c k : 0 ≤ k → Z.land c (2 ^ k) = if Z.testbit c k then 2 ^ k else 0.
Proof.
  intros Hk. apply Z.bits_inj'. intros n Hn. rewrite Z.land_spec, Z.pow2_bits_eqb by lia.
  destruct (Z.eqb_spec k n) as [<-|Hne].
  - rewrite andb_true_r. destruct (Z.testbit c k); [by rewrite Z.pow2_bits_true|by rewrite Z.bits_0].
  - rewrite andb_false_r. destruct (Z.testbit c k); [|by rewrite Z.bits_0].
    by rewrite Z.pow2_bits_false by lia.
Qed.

Lemma land_pow2_test c k : 0 ≤ k → negb (Z.land c (2 ^ k) =? 0) = Z.testbit c k.
Proof.
  intros Hk. rewrite land_pow2 by done. assert (0 < 2 ^ k) by (apply Z.pow_pos_nonneg; lia).
  destruct (Z.testbit c k); [|done]. destruct (Z.eqb_spec (2 ^ k) 0); [lia|done].
Qed.

Lemma testbit_top m k : 0 ≤ k → 0 ≤ m < 2 * 2 ^ k → Z.testbit m k = (2 ^ k <=? m).
Proof.
  intros Hk Hm. assert (0 < 2 ^ k) by (apply Z.pow_pos_nonneg; lia). rewrite Z.testbit_eqb by done.
  destruct (Z.leb_spec (2 ^ k) m).
  - replace (m / 2 ^ k) with 1; [done|]. apply Z.div_unique with (m - 2 ^ k); lia.
  - rewrite Z.div_small by lia. done.
Qed.

Lemma lor_shiftl_add w a b : 0 ≤ w → fits w a → Z.lor a (b ≪ w) = a + b * 2 ^ w.
Proof.
  intros ? Ha. rewrite <-Z.shiftl_mul_pow2 by lia.
  symmetry. apply Z.add_nocarry_lor. apply Z.bits_inj'. intros i ?.
  rewrite Z.land_spec, Z.bits_0. destruct (decide (i < w)).
  - rewrite Z.shiftl_spec_low by lia. apply andb_false_r.
  - rewrite (fits_testbit w) by (done || lia). done.
Qed.

(** Number of significant bits of a natural number. *)
Definition bitlen (z : Z) : Z := if z =? 0 then 0 else Z.log2 z + 1.

Lemma bitlen_spec z : 0 < z → 2 ^ (bitlen z - 1) ≤ z < 2 ^ bitlen z.
Proof.
  intros. unfold bitlen. destruct (Z.eqb_spec z 0); [lia|].
  replace (Z.log2 z + 1 - 1) with (Z.log2 z) by lia.
  rewrite Z.add_1_r. by apply Z.log2_spec.
Qed.

Lemma bitlen_nonneg z : 0 ≤ bitlen z.
Proof. unfold bitlen. pose proof (Z.log2_nonneg z). destruct (z =? 0); lia. Qed.

Lemma bitlen_pos z : 0 < z → 0 < bitlen z.
Proof. unfold bitlen. pose proof (Z.log2_nonneg z). destruct (Z.eqb_spec z 0); lia. Qed.

Lemma bitlen_le z w : 0 ≤ w → 0 ≤ z < 2 ^ w → bitlen z ≤ w.
Proof.
  intros. unfold bitlen. destruct (Z.eqb_spec z 0); [lia|].
  assert (Z.log2 z < w) by (apply Z.log2_lt_pow2; lia). lia.
Qed.

(** Rewrites every [Z.testbit] of a bitwise expression to its arguments. *)
Ltac bit_specs :=
  repeat first
    [ rewrite Z.lor_spec | rewrite Z.land_spec | rewrite Z.lxor_spec
    | rewrite Z.shiftl_spec by lia | rewrite Z.shiftr_spec by lia
    | rewrite Z.testbit_ones_nonneg by lia
    | rewrite Z.bits_0 ].

(** * Little-endian arrays of words *)

Abbreviation le_val := little_endian_to_Z.

Lemma le_val_cons w b bs :
  0 ≤ w → fits w b → le_val w (b :: bs) = b + le_val w bs * 2 ^ w.
Proof. intros. simpl. by apply lor_shiftl_add. Qed.

Lemma le_val_bound w bs :
  0 ≤ w → words w bs → fits (Z.of_nat (length bs) * w) (le_val w bs).
Proof. intros. by apply little_endian_to_Z_bound. Qed.

Lemma le_val_app w bs cs :
  0 ≤ w →
  le_val w (bs ++ cs) = Z.lor (le_val w bs) (le_val w cs ≪ (Z.of_nat (length bs) * w)).
Proof.
  intros. induction bs as [|b bs IH]; simpl.
  { by rewrite Z.mul_0_l, Z.shiftl_0_r. }
  rewrite IH, Z.shiftl_lor, Z.shiftl_shiftl, Z.lor_assoc by lia.
  do 2 f_equal. lia.
Qed.

Lemma le_val_app_add w bs cs :
  0 ≤ w → words w bs →
  le_val w (bs ++ cs) = le_val w bs + le_val w cs * 2 ^ (Z.of_nat (length bs) * w).
Proof.
  intros. rewrite le_val_app by done.
  rewrite lor_shiftl_add; [done|lia|by apply le_val_bound].
Qed.

Lemma le_val_replicate0 w n : le_val w (replicate n 0) = 0.
Proof. induction n as [|n IH]; simpl; [done|]. by rewrite IH, Z.shiftl_0_l. Qed.

Lemma le_val_inj w a b :
  0 < w → length a = length b → words w a → words w b →
  le_val w a = le_val w b → a = b.
Proof.
  intros ? Hlen Ha Hb E.
  rewrite <-(Z_to_little_endian_to_Z (Z.of_nat (length a)) w a), E, Hlen by (done || lia).
  by apply Z_to_little_endian_to_Z; [|lia|].
Qed.

(** Setting bits of the [j]-th word sets them in the number. *)
Definition or_at (l : list Z) (j : nat) (x : Z) : list Z :=
  <[j := Z.lor (nth j l 0) x]> l.

Lemma le_val_or_at w l j x :
  0 ≤ w → (j < length l)%nat →
  le_val w (or_at l j x) = Z.lor (le_val w l) (x ≪ (Z.of_nat j * w)).
Proof.
  intros Hw. unfold or_at. revert j.
  induction l as [|y l IH]; intros [|j] Hj; simpl in *; try lia.
  - rewrite Z.shiftl_0_r, <-!Z.lor_assoc. f_equal. apply Z.lor_comm.
  - rewrite IH by lia. rewrite Z.shiftl_lor, Z.shiftl_shiftl, Z.lor_assoc by lia.
    do 2 f_equal. lia.
Qed.

Lemma nth_snoc_lt {A} i (l : list A) x d : (i < length l)%nat → nth i (l ++ [x]) d = nth i l d.
Proof. intros. by rewrite app_nth1. Qed.

Lemma words_nth w l j : 0 ≤ w → words w l → fits w (nth j l 0).
Proof.
  intros ? Hl. revert j. induction Hl as [|x l Hx Hl IH]; intros [|j]; simpl; auto.
  all: split; [lia|apply Z.pow_pos_nonneg; lia].
Qed.

Lemma words_insert w l j x : words w l → fits w x → words w (<[j:=x]> l).
Proof. intros. by apply Forall_insert. Qed.

Lemma words_or_at w l j x : 0 ≤ w → words w l → fits w x → words w (or_at l j x).
Proof. intros. apply words_insert; [done|]. apply fits_lor; auto using words_nth. Qed.

Lemma length_or_at l j x : length (or_at l j x) = length l.
Proof. apply length_insert. Qed.

Lemma words_replicate0 w n : 0 ≤ w → words w (replicate n 0).
Proof.
  intros. apply Forall_replicate. split; [lia|apply Z.pow_pos_nonneg; lia].
Qed.

Lemma words_app w a b : words w a → words w b → words w (a ++ b).
Proof. intros. by apply Forall_app. Qed.

#[export] Hint Resolve words_nth words_insert words_or_at words_replicate0
  words_app Forall_take Forall_drop : words.

(** * Counted loops

    [for (i = 0; i < n; i++) s = f(s, i)] is [foldl f s (seq 0 n)]; a loop
    invariant [P] indexed by the iterations done is established as usual. *)

Definition for_up {A} (n : nat) (f : A → nat → A) (s : A) : A := foldl f s (seq 0 n).

Lemma for_up_inv {A} (P : nat → A → Prop) (n : nat) (f : A → nat → A) (s : A) :
  P 0%nat s → (∀ i t, (i < n)%nat → P i t → P (S i) (f t i)) → P n (for_up n f s).
Proof.
  intros H0 Hstep. unfold for_up.
  assert (∀ m, (m ≤ n)%nat → P m (foldl f s (seq 0 m))) as H; [|by apply H].
  induction m as [|m IH]; intros Hm; [done|].
  rewrite seq_S, foldl_app. apply Hstep; [lia|]. apply IH. lia.
Qed.

(** * Eight flags in a byte *)

Definition pack8 (f : nat → bool) : Z :=
  foldl (λ c i, if f i then Z.lor c (1 ≪ Z.of_nat i) else c) 0 (seq 0 8).

Lemma testbit_fold (f : nat → bool) c l k :
  Z.testbit (foldl (λ c i, if f i then Z.lor c (1 ≪ Z.of_nat i) else c) c l) (Z.of_nat k) =
  Z.testbit c (Z.of_nat k) || existsb (λ i, f i && (i =? k)%nat) l.
Proof.
  revert c. induction l as [|i l IH]; intros c; cbn [foldl existsb]; [by rewrite orb_false_r|].
  rewrite IH, orb_assoc. f_equal. destruct (f i); cbn [andb]; [|by rewrite orb_false_r].
  rewrite Z.lor_spec, Z.shiftl_spec by lia. f_equal. destruct (Nat.eqb_spec i k) as [->|Hne].
  - by rewrite Z.sub_diag.
  - destruct (Z.lt_ge_cases (Z.of_nat k - Z.of_nat i) 0); [by rewrite Z.testbit_neg_r by lia|].
    change 1 with (2 ^ 0). by rewrite Z.pow2_bits_false by lia.
Qed.

Lemma testbit_pack8 f k : (k < 8)%nat → Z.testbit (pack8 f) (Z.of_nat k) = f k.
Proof.
  intros Hk. unfold pack8. rewrite testbit_fold, Z.bits_0. cbn [orb]. destruct (f k) eqn:E.
  - apply existsb_exists. exists k. rewrite E, Nat.eqb_refl. split; [|done]. apply in_seq. lia.
  - apply not_true_is_false. intros [i [_ H]]%existsb_exists. apply andb_true_iff in H as [H ->%Nat.eqb_eq]. congruence.
Qed.

Lemma pack8_fits f : fits 8 (pack8 f).
Proof.
  unfold pack8. assert (Forall (λ i, (i < 8)%nat) (seq 0 8)) as Hl by (apply Forall_forall; intros i [_ Hi]%elem_of_seq; lia).
  assert (fits 8 0) as Hc by (unfold fits; lia). revert Hc Hl. generalize 0 as c.
  induction (seq 0 8) as [|i l IH]; intros c Hc Hl; [done|]. inversion_clear Hl as [|? ? Hi Hl']. cbn [foldl].
  apply IH; [|done]. destruct (f i); [|done]. apply fits_lor; [lia|done|]. rewrite Z.shiftl_1_l.
  split; [apply Z.pow_nonneg; lia|apply Z.pow_lt_mono_r; lia].
Qed.
