(* ===== verification/CryptoCommon.v ===== *)
(** crypto/common.h: reading and writing integers in byte arrays. *)

From S2P Require Import Prelude.

Definition ReadLE32 (p : list Z) : Z := le_val 8 (take 4 p).
Definition WriteLE32 (x : Z) : list Z := Z_to_little_endian 4 8 x.
Definition WriteLE64 (x : Z) : list Z := Z_to_little_endian 8 8 x.
Definition ReadBE32 (p : list Z) : Z := le_val 8 (rev (take 4 p)).
Definition ReadBE64 (p : list Z) : Z := le_val 8 (rev (take 8 p)).
Definition WriteBE32 (x : Z) : list Z := rev (Z_to_little_endian 4 8 x).
Definition WriteBE64 (x : Z) : list Z := rev (Z_to_little_endian 8 8 x).

Lemma length_WriteBE64 x : length (WriteBE64 x) = 8%nat.
Proof. unfold WriteBE64. rewrite length_rev. apply Nat2Z.inj. by rewrite length_Z_to_little_endian. Qed.

Lemma WriteBE64_bytes x : bytes (WriteBE64 x).
Proof. unfold WriteBE64. apply Forall_rev. by apply Z_to_little_endian_bound. Qed.

Lemma ReadBE32_fits p : bytes p → fits 32 (ReadBE32 p).
Proof.
  intros Hp. unfold ReadBE32.
  assert (bytes (rev (take 4 p))) as Hb by (apply Forall_rev, Forall_take, Hp).
  pose proof (le_val_bound 8 (rev (take 4 p)) ltac:(lia) Hb) as Hv. unfold fits in *.
  rewrite length_rev, length_take in Hv. split; [lia|]. eapply Z.lt_le_trans; [apply Hv|].
  apply Z.pow_le_mono_r; lia.
Qed.

Lemma length_WriteLE64 x : length (WriteLE64 x) = 8%nat.
Proof. unfold WriteLE64. apply Nat2Z.inj. by rewrite length_Z_to_little_endian. Qed.

Lemma WriteLE64_bytes x : bytes (WriteLE64 x).
Proof. by apply Z_to_little_endian_bound. Qed.

Lemma ReadLE32_fits p : bytes p → fits 32 (ReadLE32 p).
Proof.
  intros Hp. unfold ReadLE32. assert (bytes (take 4 p)) as Hb by (by apply Forall_take).
  pose proof (le_val_bound 8 (take 4 p) ltac:(lia) Hb) as Hv. unfold fits in *.
  rewrite length_take in Hv. split; [lia|]. eapply Z.lt_le_trans; [apply Hv|].
  apply Z.pow_le_mono_r; lia.
Qed.

Lemma ReadBE64_fits p : bytes p → fits 64 (ReadBE64 p).
Proof.
  intros Hp. unfold ReadBE64.
  assert (bytes (rev (take 8 p))) as Hb by (apply Forall_rev, Forall_take, Hp).
  pose proof (le_val_bound 8 (rev (take 8 p)) ltac:(lia) Hb) as Hv. unfold fits in *.
  rewrite length_rev, length_take in Hv. split; [lia|]. eapply Z.lt_le_trans; [apply Hv|].
  apply Z.pow_le_mono_r; lia.
Qed.

(** * Constants from roots of primes

    The constants of the SHA functions are the leading fractional bits of square
    and cube roots of the first primes. *)

(** The primes up to 409, the 80th. *)
Definition is_prime (n : Z) : bool :=
  (2 <=? n) && forallb (λ d, negb (n `mod` Z.of_nat d =? 0)) (seq 2 (Z.to_nat n - 2)).
Definition primes : list Z := List.filter is_prime (Z.of_nat <$> seq 0 410).

(** The integer cube root of a number below [2 ^ (3 * bits)]. *)
Fixpoint icbrt (bits : nat) (r n : Z) : Z :=
  match bits with
  | O => r
  | S bits => let r' := r + 2 ^ Z.of_nat bits in icbrt bits (if r' * r' * r' <=? n then r' else r) n
  end.

(** * Assignments

    [dlet x := v in b] is the assignment of an unrolled routine.  It is a constant,
    not a [let], so that proofs step through a routine without duplicating [v]. *)
Definition Let_In {A B} (x : A) (f : A → B) : B := f x.
Notation "'dlet' x := v 'in' b" := (Let_In v (λ x, b))
  (at level 10, x binder, b at level 200, format "'[v' 'dlet'  x  :=  v  'in' '/' b ']'").

Lemma Let_In_step {A B} (x e : A) (f : A → B) (r : B) : x = e → f x = r → Let_In e f = r.
Proof. by intros ->. Qed.

(** [take_word] names the word a line of an unrolled routine computes, when a
    hypothesis does; [words_of H i n] instantiates [H] at [i .. i + n - 1]. *)
Ltac take_word := lazymatch goal with
  | |- Let_In ?e _ = _ => match goal with E : ?x = e |- _ => apply (Let_In_step x e _ _ E) end
  end; cbv beta.
Ltac words_of H i n :=
  lazymatch n with
  | O => idtac
  | S ?n =>
      let E := fresh "E" in pose proof (H i ltac:(lia)) as E; cbn [nth Nat.sub Nat.mul Nat.add] in E;
      words_of H constr:(S i) n
  end.

(** * Rotations and Boolean functions of [w]-bit words *)

(** [(x >> n | x << (w - n))] is the rotation to the right. *)
Lemma rotr_spec w n x :
  0 < n < w → fits w x →
  Z.lor (x ≫ n) (wrap w (x ≪ (w - n))) = x `div` 2 ^ n + (x `mod` 2 ^ n) * 2 ^ (w - n).
Proof.
  intros Hn Hx. rewrite Z.shiftr_div_pow2, Z.shiftl_mul_pow2 by lia. unfold wrap.
  assert (2 ^ w = 2 ^ n * 2 ^ (w - n)) as Hw by (rewrite <-Z.pow_add_r by lia; f_equal; lia).
  assert (0 < 2 ^ n) by (apply Z.pow_pos_nonneg; lia).
  assert (0 < 2 ^ (w - n)) by (apply Z.pow_pos_nonneg; lia).
  rewrite Hw, Zmult_mod_distr_r, <-Z.shiftl_mul_pow2 by lia.
  rewrite lor_shiftl_add; [by rewrite Z.shiftl_mul_pow2 by lia|lia|]. unfold fits in *. rewrite Hw in Hx.
  split; [apply Z.div_pos; lia|apply Z.div_lt_upper_bound; lia].
Qed.

Lemma fits_rotr w n x : 0 < n < w → fits w x → fits w (Z.lor (x ≫ n) (wrap w (x ≪ (w - n)))).
Proof. intros Hn Hx. apply fits_lor; [lia| |apply wrap_fits; lia]. apply fits_shiftr; [lia|lia|done]. Qed.

Lemma not_testbit w x i :
  0 ≤ i < w → fits w x → Z.testbit (2 ^ w - 1 - x) i = negb (Z.testbit x i).
Proof.
  intros Hi Hx. replace (2 ^ w - 1 - x) with (Z.ldiff (Z.ones w) x).
  - rewrite Z.ldiff_spec, Z.ones_spec_low by lia. done.
  - rewrite <-Z.sub_nocarry_ldiff; [rewrite Z.ones_equiv; lia|].
    apply Z.bits_inj'. intros j Hj. rewrite Z.ldiff_spec, Z.bits_0.
    destruct (decide (j < w)); [by rewrite Z.ones_spec_low, andb_false_r by lia|].
    by rewrite (fits_testbit w x) by (done || lia).
Qed.

Lemma choose_spec w x y z :
  0 ≤ w → fits w x → fits w z →
  Z.lxor z (Z.land x (Z.lxor y z)) = Z.lxor (Z.land x y) (Z.land (2 ^ w - 1 - x) z).
Proof.
  intros Hw Hx Hz. apply Z.bits_inj'. intros i Hi. bit_specs.
  destruct (decide (i < w)).
  - rewrite not_testbit by (done || lia). by destruct (Z.testbit x i), (Z.testbit y i), (Z.testbit z i).
  - rewrite (fits_testbit w x), (fits_testbit w z) by (done || lia). by rewrite !andb_false_r.
Qed.

Lemma majority_spec x y z :
  Z.lor (Z.land x y) (Z.land z (Z.lor x y)) = Z.lxor (Z.lxor (Z.land x y) (Z.land x z)) (Z.land y z).
Proof.
  apply Z.bits_inj'. intros i Hi. bit_specs.
  by destruct (Z.testbit x i), (Z.testbit y i), (Z.testbit z i).
Qed.

Lemma wrap_add_l w a b : wrap w (wrap w a + b) = wrap w (a + b).
Proof. apply Zplus_mod_idemp_l. Qed.
Lemma wrap_add_r w a b : wrap w (a + wrap w b) = wrap w (a + b).
Proof. apply Zplus_mod_idemp_r. Qed.

(** [(x << n) | (x >> (w - n))] is the rotation to the left. *)
Lemma rotl_spec w n x :
  0 < n < w → fits w x →
  Z.lor (wrap w (x ≪ n)) (x ≫ (w - n)) = (x `mod` 2 ^ (w - n)) * 2 ^ n + x `div` 2 ^ (w - n).
Proof.
  intros Hn Hx. rewrite Z.lor_comm. pose proof (rotr_spec w (w - n) x ltac:(lia) Hx) as H.
  replace (w - (w - n)) with n in H by lia. rewrite H. lia.
Qed.

Lemma fits_rotl w n x : 0 < n < w → fits w x → fits w (Z.lor (wrap w (x ≪ n)) (x ≫ (w - n))).
Proof. intros Hn Hx. apply fits_lor; [lia|apply wrap_fits; lia|]. apply fits_shiftr; [lia|lia|done]. Qed.
