(* ===== verification/Serialize.v ===== *)
(** serialize.h: the encodings of integers, sizes, byte vectors and vectors, and
    the [CDataStream] of streams.h they are written to and read from.

    Writing to a stream is the list of the bytes written; reading is a [decoder]
    from the unread bytes, where [None] is the exception a read past the end or a
    malformed size throws.  [WRITEDATA] copies the object representation, which is
    little-endian on the supported hosts. *)

From S2P Require Import Prelude.

Definition MAX_SIZE : Z := 0x02000000.

(** ** Decoders *)

Definition decoder (A : Type) : Type := list Z → option (A * list Z).

#[export] Instance decoder_ret : MRet decoder := λ A a s, Some (a, s).
#[export] Instance decoder_bind : MBind decoder := λ A B f m s,
  match m s with Some (a, s) => f a s | None => None end.
Definition throw {A} : decoder A := λ _, None.

(** [is.read(p, n)] *)
Definition read_bytes (n : nat) : decoder (list Z) := λ s,
  if (length s <? n)%nat then None else Some (take n s, drop n s).

(** ** Integers *)

Definition Serialize_uint (n : nat) (a : Z) : list Z := Z_to_little_endian (Z.of_nat n) 8 a.
Definition Unserialize_uint (n : nat) : decoder Z := b ← read_bytes n; mret (le_val 8 b).
Definition Serialize_int (n : nat) (a : Z) : list Z := Z_to_little_endian (Z.of_nat n) 8 a.
Definition Unserialize_int (n : nat) : decoder Z :=
  b ← read_bytes n; mret (swrap (8 * Z.of_nat n) (le_val 8 b)).

(** [bool]: one [char], any nonzero value reads as true. *)
Definition Serialize_bool (a : bool) : list Z := [if a then 1 else 0].
Definition Unserialize_bool : decoder bool := b ← read_bytes 1; mret (negb (nth 0 b 0 =? 0)).

(** ** Compact sizes *)

Definition GetSizeOfCompactSize (nSize : Z) : Z :=
  if nSize <? 253 then 1 else if nSize <=? 0xFFFF then 1 + 2
  else if nSize <=? 0xFFFFFFFF then 1 + 4 else 1 + 8.

Definition WriteCompactSize (nSize : Z) : list Z :=
  if nSize <? 253 then Serialize_uint 1 nSize
  else if nSize <=? 0xFFFF then Serialize_uint 1 253 ++ Serialize_uint 2 (u16 nSize)
  else if nSize <=? 0xFFFFFFFF then Serialize_uint 1 254 ++ Serialize_uint 4 (u32 nSize)
  else Serialize_uint 1 255 ++ Serialize_uint 8 nSize.

Definition ReadCompactSize : decoder Z :=
  chSize ← Unserialize_uint 1;
  nSizeRet ←
    (if chSize <? 253 then mret chSize
     else if chSize =? 253 then
       xSize ← Unserialize_uint 2; if xSize <? 253 then throw else mret xSize
     else if chSize =? 254 then
       xSize ← Unserialize_uint 4; if xSize <? 0x10000 then throw else mret xSize
     else
       xSize ← Unserialize_uint 8; if xSize <? 0x100000000 then throw else mret xSize);
  if MAX_SIZE <? nSizeRet then throw else mret nSizeRet.

(** ** Variable-length integers, at an integer type [I] *)

(** An integer type: its width and the conversion of a result to it. *)
Record int_type := IntType { bits_of : Z; conv : Z → Z }.
Definition uint (w : Z) : int_type := IntType w (wrap w).
Definition sint (w : Z) : int_type := IntType w (swrap w).

(** [tmp[0 .. len]]: the digits, least significant first; at most [fuel] of them. *)
Fixpoint varint_digits (fuel : nat) (I : int_type) (first : bool) (n : Z) : list Z :=
  match fuel with
  | O => []
  | S fuel =>
      Z.lor (Z.land n 0x7F) (if first then 0x00 else 0x80) ::
      (if n <=? 0x7F then [] else varint_digits fuel I false (conv I ((n ≫ 7) - 1)))
  end.
(** The array [tmp] has [(sizeof(n) * 8 + 6) / 7] elements. *)
Definition varint_len (I : int_type) : nat := Z.to_nat ((bits_of I + 6) `div` 7).
Definition WriteVarInt (I : int_type) (n : Z) : list Z := rev (varint_digits (varint_len I) I true n).

Fixpoint varint_size (fuel : nat) (I : int_type) (n nRet : Z) : Z :=
  match fuel with
  | O => nRet
  | S fuel => if n <=? 0x7F then nRet + 1 else varint_size fuel I (conv I ((n ≫ 7) - 1)) (nRet + 1)
  end.
Definition GetSizeOfVarInt (I : int_type) (n : Z) : Z := varint_size (varint_len I) I n 0.

(** [while (true)]: every round consumes a byte. *)
Fixpoint read_varint (I : int_type) (n : Z) (s : list Z) : option (Z * list Z) :=
  match s with
  | [] => None
  | chData :: s =>
      let n := Z.lor (conv I (n ≪ 7)) (Z.land chData 0x7F) in
      if negb (Z.land chData 0x80 =? 0) then read_varint I (conv I (n + 1)) s else Some (n, s)
  end.
Definition ReadVarInt (I : int_type) : decoder Z := read_varint I 0.

(** ** Byte vectors, vectors, pairs *)

Definition Serialize_bytes (v : list Z) : list Z := WriteCompactSize (Z.of_nat (length v)) ++ v.
Definition GetSerializeSize_bytes (v : list Z) : Z :=
  u32 (GetSizeOfCompactSize (Z.of_nat (length v)) + Z.of_nat (length v)).

(** Blocks of at most [1 + 4999999 / sizeof(T)] bytes are read at a time. *)
Fixpoint read_blocks (fuel : nat) (nSize : nat) : decoder (list Z) :=
  match fuel with
  | O => mret []
  | S fuel =>
      if (nSize =? 0)%nat then mret []
      else
        let blk := Z.to_nat (Z.min (Z.of_nat nSize) 5000000) in
        b ← read_bytes blk; rest ← read_blocks fuel (nSize - blk); mret (b ++ rest)
  end.
Definition Unserialize_bytes : decoder (list Z) :=
  nSize ← ReadCompactSize; read_blocks (Z.to_nat nSize) (Z.to_nat nSize).

Section vectors.
Context {A : Type} (ser : A → list Z) (unser : decoder A).

Definition Serialize_vector (v : list A) : list Z :=
  WriteCompactSize (Z.of_nat (length v)) ++ flat_map ser v.

(** The elements are read in order; [nMid] only bounds the allocation. *)
Fixpoint read_elements (n : nat) : decoder (list A) :=
  match n with
  | O => mret []
  | S n => a ← unser; l ← read_elements n; mret (a :: l)
  end.
Definition Unserialize_vector : decoder (list A) :=
  nSize ← ReadCompactSize; read_elements (Z.to_nat nSize).

End vectors.

(** [base_blob::Serialize] *)
Definition Serialize_blob (data : list Z) : list Z := data.
Definition Unserialize_blob (WIDTH : nat) : decoder (list Z) := read_bytes WIDTH.

(** ** [CDataStream::read], [::write] *)

Record CDataStream := DataStream { vch : list Z; nReadPos : Z }.

Definition stream_read (st : CDataStream) (nSize : Z) : option (list Z * CDataStream) :=
  let nReadPosNext := u32 (nReadPos st + nSize) in
  let data := take (Z.to_nat nSize) (drop (Z.to_nat (nReadPos st)) (vch st)) in
  if Z.of_nat (length (vch st)) <=? nReadPosNext then
    if Z.of_nat (length (vch st)) <? nReadPosNext then None
    else Some (data, DataStream [] 0)
  else Some (data, DataStream (vch st) nReadPosNext).
Definition stream_write (st : CDataStream) (data : list Z) : CDataStream :=
  DataStream (vch st ++ data) (nReadPos st).
