(* ===== verification/SerializeFacts.v ===== *)
(** Encoders and decoders are inverse to each other, in both directions: what is
    written is read back, and what is accepted is what the encoder writes. *)

From S2P Require Import Prelude Serialize.

(** [codec valid ser unser]: [unser] undoes [ser] on valid values, and accepts only
    encodings of valid values. *)
Definition codec {A} (valid : A → Prop) (ser : A → list Z) (unser : decoder A) : Prop :=
  (∀ a rest, valid a → unser (ser a ++ rest) = Some (a, rest)) ∧
  (∀ s a rest, bytes s → unser s = Some (a, rest) → s = ser a ++ rest ∧ valid a) ∧
  (∀ a, valid a → bytes (ser a)).

Section codecs.
Context {A B : Type}.
Implicit Types (valid : A → Prop) (ser : A → list Z) (unser : decoder A) (f : A → decoder B).

Lemma codec_step valid ser unser f a rest :
  codec valid ser unser → valid a → (x ← unser; f x) (ser a ++ rest) = f a rest.
Proof. intros [Hc _] Ha. unfold mbind, decoder_bind. by rewrite Hc. Qed.

Lemma codec_inv valid ser unser f s r :
  codec valid ser unser → bytes s → (x ← unser; f x) s = Some r →
  ∃ a s', s = ser a ++ s' ∧ valid a ∧ bytes s' ∧ f a s' = Some r.
Proof.
  intros (_ & Hc & _) Hs. unfold mbind, decoder_bind. destruct (unser s) as [[a s']|] eqn:E; [|done].
  intros Hf. destruct (Hc s a s' Hs E) as [-> Ha]. apply Forall_app in Hs as [_ Hs']. by exists a, s'.
Qed.

Lemma codec_enc valid ser unser a : codec valid ser unser → valid a → bytes (ser a).
Proof. intros (_ & _ & H). apply H. Qed.

Lemma codec_inj valid ser unser a b r r' :
  codec valid ser unser → valid a → valid b → ser a ++ r = ser b ++ r' → a = b ∧ r = r'.
Proof. intros (Hc & _) Ha Hb E. pose proof (Hc a r Ha) as H. rewrite E, Hc in H by done. by simplify_eq. Qed.

End codecs.

Lemma read_bytes_app b rest : read_bytes (length b) (b ++ rest) = Some (b, rest).
Proof.
  unfold read_bytes. rewrite length_app. replace (_ <? _)%nat with false by lia.
  by rewrite take_app_length, drop_app_length.
Qed.

Lemma read_bytes_inv n s b rest : read_bytes n s = Some (b, rest) → s = b ++ rest ∧ length b = n.
Proof.
  unfold read_bytes. destruct (Nat.ltb_spec (length s) n) as [|Hn]; [done|]. intros [= <- <-].
  rewrite take_drop, length_take. split; [done|lia].
Qed.

Lemma codec_blob n : codec (λ d, bytes d ∧ length d = n) Serialize_blob (Unserialize_blob n).
Proof.
  split_and!; [|unfold Serialize_blob|by intros a []].
  - intros a rest [_ <-]. apply read_bytes_app.
  - intros s a rest Hs H. destruct (read_bytes_inv _ _ _ _ H) as [-> <-].
    apply Forall_app in Hs as [Ha _]. done.
Qed.

Lemma length_uint n a : length (Serialize_uint n a) = n.
Proof. unfold Serialize_uint. apply Nat2Z.inj. by rewrite length_Z_to_little_endian by lia. Qed.

Lemma uint_bytes n a : bytes (Serialize_uint n a).
Proof. apply Z_to_little_endian_bound; lia. Qed.

Lemma le_val_uint n a : le_val 8 (Serialize_uint n a) = wrap (8 * Z.of_nat n) a.
Proof.
  unfold Serialize_uint. rewrite little_endian_to_Z_to_little_endian by lia. unfold wrap.
  by rewrite Z.mul_comm.
Qed.

Lemma uint_le_val b : bytes b → Serialize_uint (length b) (le_val 8 b) = b.
Proof. intros Hb. unfold Serialize_uint. by apply Z_to_little_endian_to_Z. Qed.

Lemma codec_uint n : codec (fits (8 * Z.of_nat n)) (Serialize_uint n) (Unserialize_uint n).
Proof.
  split_and!; [| |intros; apply uint_bytes]; unfold Unserialize_uint, mbind, decoder_bind, mret, decoder_ret.
  - intros a rest Ha. rewrite <-(length_uint n a) at 1. rewrite read_bytes_app, le_val_uint.
    by rewrite wrap_small.
  - intros s a rest Hs. destruct (read_bytes n s) as [[b r]|] eqn:E; [|done]. intros [= <- <-].
    destruct (read_bytes_inv _ _ _ _ E) as [-> <-]. apply Forall_app in Hs as [Hb _].
    rewrite uint_le_val by done. split; [done|]. rewrite Z.mul_comm. by apply le_val_bound.
Qed.

Lemma wrap_swrap w z : 0 < w → wrap w (swrap w z) = wrap w z.
Proof.
  intros Hw. unfold swrap, wrap. cbv zeta. case_match; [by rewrite Zmod_mod|].
  replace (z `mod` 2 ^ w - 2 ^ w) with (z `mod` 2 ^ w + (-1) * 2 ^ w) by lia.
  by rewrite Z_mod_plus_full, Zmod_mod.
Qed.

Lemma swrap_wrap w z : 0 < w → swrap w (wrap w z) = swrap w z.
Proof. intros Hw. unfold swrap, wrap. by rewrite Zmod_mod. Qed.

Lemma swrap_sfits w z : 0 < w → sfits w (swrap w z).
Proof.
  intros Hw. unfold swrap, sfits. cbv zeta. pose proof (wrap_fits w z ltac:(lia)) as Hf. unfold fits in Hf.
  assert (2 ^ w = 2 * 2 ^ (w - 1)) by (rewrite <-Z.pow_succ_r by lia; f_equal; lia).
  destruct (Z.ltb_spec (wrap w z) (2 ^ (w - 1))); lia.
Qed.

Lemma uint_wrap n a : Serialize_uint n (wrap (8 * Z.of_nat n) a) = Serialize_uint n a.
Proof.
  rewrite <-(uint_le_val (Serialize_uint n a)) by apply uint_bytes. by rewrite length_uint, le_val_uint.
Qed.

Lemma codec_int n : (0 < n)%nat → codec (sfits (8 * Z.of_nat n)) (Serialize_int n) (Unserialize_int n).
Proof.
  intros Hn. change (Serialize_int n) with (Serialize_uint n).
  split_and!; [| |intros; apply uint_bytes]; unfold Unserialize_int, mbind, decoder_bind, mret, decoder_ret.
  - intros a rest Ha. rewrite <-(length_uint n a) at 1. rewrite read_bytes_app, le_val_uint.
    rewrite swrap_wrap, swrap_small by (done || lia). done.
  - intros s a rest Hs. destruct (read_bytes n s) as [[b r]|] eqn:E; [|done]. intros [= <- <-].
    destruct (read_bytes_inv _ _ _ _ E) as [-> <-]. apply Forall_app in Hs as [Hb _].
    split; [|apply swrap_sfits; lia]. rewrite <-(uint_wrap _ (swrap _ _)), wrap_swrap, uint_wrap by lia.
    by rewrite uint_le_val.
Qed.

(** * Compact sizes *)

Lemma fits_uint w n : 0 ≤ n < 2 ^ w → fits w n.
Proof. done. Qed.

(** A sized form: a marker byte, then an integer that must not be below [lo]. *)
Lemma read_sized k lo n s rest :
  bytes s → (x ← Unserialize_uint k; if x <? lo then throw else mret x) s = Some (n, rest) →
  s = Serialize_uint k n ++ rest ∧ lo ≤ n ∧ fits (8 * Z.of_nat k) n.
Proof.
  intros Ht E. apply (codec_inv _ _ _ _ _ _ (codec_uint k) Ht) in E as (x & t' & -> & Hx & _ & E).
  destruct (Z.ltb_spec x lo); [done|]. by injection E as -> ->.
Qed.

Lemma write_sized k lo n rest :
  lo ≤ n → fits (8 * Z.of_nat k) n →
  (x ← Unserialize_uint k; if x <? lo then throw else mret x) (Serialize_uint k n ++ rest) = Some (n, rest).
Proof.
  intros Hlo Hn. rewrite (codec_step _ _ _ _ _ _ (codec_uint k)) by done. by replace (n <? lo) with false by lia.
Qed.

Lemma bounded_size (m : decoder Z) s n rest :
  (x ← m; if MAX_SIZE <? x then throw else mret x) s = Some (n, rest) ↔ m s = Some (n, rest) ∧ n ≤ MAX_SIZE.
Proof.
  unfold mbind, decoder_bind. split.
  - destruct (m s) as [[x r]|]; [|done]. destruct (Z.ltb_spec MAX_SIZE x); [done|]. by intros [= -> ->].
  - intros [-> Hn]. by replace (MAX_SIZE <? n) with false by lia.
Qed.

Lemma CompactSize_read n rest :
  0 ≤ n ≤ MAX_SIZE → ReadCompactSize (WriteCompactSize n ++ rest) = Some (n, rest).
Proof.
  intros Hn. unfold ReadCompactSize, WriteCompactSize. pose proof (λ k, codec_uint k) as Hc. unfold MAX_SIZE in Hn.
  destruct (Z.ltb_spec n 253); [|destruct (Z.leb_spec n 0xFFFF); [|replace (n <=? 0xFFFFFFFF) with true by lia]];
    rewrite <-?app_assoc, (codec_step _ _ _ _ _ _ (Hc 1%nat)) by (apply fits_uint; lia);
    apply bounded_size; (split; [|unfold MAX_SIZE; lia]).
  - by replace (n <? 253) with true by lia.
  - rewrite wrap_small by (apply fits_uint; lia). apply write_sized; [lia|apply fits_uint; simpl; lia].
  - rewrite wrap_small by (apply fits_uint; lia). apply write_sized; [lia|apply fits_uint; simpl; lia].
Qed.

Lemma CompactSize_canonical s n rest :
  bytes s → ReadCompactSize s = Some (n, rest) → s = WriteCompactSize n ++ rest ∧ 0 ≤ n ≤ MAX_SIZE.
Proof.
  intros Hs H. unfold ReadCompactSize in H.
  apply (codec_inv _ _ _ _ _ _ (codec_uint 1) Hs) in H as (ch & s1 & -> & Hch & Hs1 & H).
  unfold fits in Hch. simpl in Hch. apply bounded_size in H as [H Hmax]. unfold MAX_SIZE in *.
  unfold WriteCompactSize. destruct (Z.ltb_spec ch 253) as [Hlt|Hge].
  { injection H as -> ->. replace (n <? 253) with true by lia. split; [done|lia]. }
  destruct (Z.eqb_spec ch 253) as [->|]; [|destruct (Z.eqb_spec ch 254) as [->|]];
    apply read_sized in H as (-> & Hlo & Hf); [|done| |done| |done]; unfold fits in Hf; simpl in Hf; [| |lia];
    replace (n <? 253) with false by lia; [replace (n <=? 0xFFFF) with true by lia|];
    [|replace (n <=? 0xFFFF) with false by lia; replace (n <=? 0xFFFFFFFF) with true by lia];
    rewrite wrap_small by (apply fits_uint; lia); rewrite <-app_assoc; (split; [done|lia]).
Qed.

Lemma CompactSize_bytes n : bytes (WriteCompactSize n).
Proof. unfold WriteCompactSize. repeat case_match; auto using words_app, uint_bytes. Qed.

Lemma CompactSize_length n : Z.of_nat (length (WriteCompactSize n)) = GetSizeOfCompactSize n.
Proof.
  unfold WriteCompactSize, GetSizeOfCompactSize. repeat case_match; rewrite ?length_app, ?length_uint; done.
Qed.

Lemma codec_CompactSize : codec (λ n, 0 ≤ n ≤ MAX_SIZE) WriteCompactSize ReadCompactSize.
Proof.
  split_and!; [intros; by apply CompactSize_read|intros s a rest; apply CompactSize_canonical|].
  intros n _. apply CompactSize_bytes.
Qed.

(** * Byte vectors and vectors *)

Lemma read_blocks_read fuel n s : (n ≤ fuel)%nat → read_blocks fuel n s = read_bytes n s.
Proof.
  revert n s. induction fuel as [|fuel IH]; intros n s Hn; cbn [read_blocks].
  { assert (n = 0%nat) as -> by lia. unfold read_bytes. simpl. by rewrite drop_0. }
  destruct (Nat.eqb_spec n 0) as [->|Hpos]; [unfold read_bytes; simpl; by rewrite drop_0|].
  set (blk := Z.to_nat (Z.min (Z.of_nat n) 5000000)). assert (0 < blk ≤ n)%nat as Hb by lia.
  unfold mbind, decoder_bind, mret, decoder_ret. unfold read_bytes at 1.
  destruct (Nat.ltb_spec (length s) blk).
  { unfold read_bytes. by replace (length s <? n)%nat with true by lia. }
  rewrite IH by lia. unfold read_bytes. rewrite length_drop.
  destruct (Nat.ltb_spec (length s - blk) (n - blk)), (Nat.ltb_spec (length s) n); try lia; [done|].
  rewrite drop_drop. replace n with (blk + (n - blk))%nat at 3 4 by lia. by rewrite take_take_drop.
Qed.

Lemma codec_bytes :
  codec (λ v, bytes v ∧ Z.of_nat (length v) ≤ MAX_SIZE) Serialize_bytes Unserialize_bytes.
Proof.
  unfold Serialize_bytes, Unserialize_bytes. split_and!.
  - intros v rest [Hv Hl]. rewrite <-app_assoc, (codec_step _ _ _ _ _ _ codec_CompactSize) by lia.
    rewrite read_blocks_read, Nat2Z.id by lia. apply read_bytes_app.
  - intros s v rest Hs H. apply (codec_inv _ _ _ _ _ _ codec_CompactSize Hs) in H as (n & s' & -> & Hn & Hs' & H).
    rewrite read_blocks_read in H by lia. apply read_bytes_inv in H as [-> Hl].
    apply Forall_app in Hs' as [Hv _]. rewrite <-app_assoc. replace (Z.of_nat (length v)) with n by lia.
    split_and!; [done|done|lia].
  - intros v [Hv _]. auto using words_app, CompactSize_bytes.
Qed.

Lemma codec_vector {A} (valid : A → Prop) ser unser :
  codec valid ser unser →
  codec (λ v, Forall valid v ∧ Z.of_nat (length v) ≤ MAX_SIZE) (Serialize_vector ser) (Unserialize_vector unser).
Proof.
  intros Hc. unfold Serialize_vector, Unserialize_vector. split_and!.
  - intros v rest [Hv Hl]. rewrite <-app_assoc, (codec_step _ _ _ _ _ _ codec_CompactSize) by lia.
    rewrite Nat2Z.id. clear Hl. induction Hv as [|a v Ha _ IH]; [done|]. cbn [length read_elements flat_map].
    rewrite <-app_assoc, (codec_step _ _ _ _ _ _ Hc) by done. unfold mbind, decoder_bind. by rewrite IH.
  - intros s v rest Hs H. apply (codec_inv _ _ _ _ _ _ codec_CompactSize Hs) in H as (n & s' & -> & Hn & Hs' & H).
    assert (s' = flat_map ser v ++ rest ∧ Forall valid v ∧ Z.of_nat (length v) = n) as (-> & Hv & <-).
    { assert (∀ k s' v, bytes s' → read_elements unser k s' = Some (v, rest) →
        s' = flat_map ser v ++ rest ∧ Forall valid v ∧ length v = k) as Hk.
      { clear -Hc. induction k as [|k IH]; intros s' v Hs' H; cbn [read_elements] in H.
        { by injection H as <- <-. }
        apply (codec_inv _ _ _ _ _ _ Hc Hs') in H as (a & t & -> & Ha & Ht & H).
        unfold mbind, decoder_bind in H. destruct (read_elements unser k t) as [[l r]|] eqn:E; [|done].
        injection H as <- <-. destruct (IH _ _ Ht E) as (-> & Hl & <-). cbn [flat_map]. rewrite <-app_assoc. auto. }
      destruct (Hk _ _ _ Hs' H) as (-> & Hv & Hl). split_and!; [done|done|lia]. }
    rewrite <-app_assoc. split_and!; [done|done|lia].
  - intros v [Hv _]. apply words_app; [apply CompactSize_bytes|]. clear -Hv Hc. destruct Hc as (_ & _ & Hb).
    induction Hv; [constructor|]. cbn [flat_map]. auto using words_app.
Qed.

(** * Variable-length integers *)

Lemma land_7f n : Z.land n 0x7F = n `mod` 128.
Proof. change 0x7F with (Z.ones 7). by rewrite Z.land_ones. Qed.

Lemma varint_digit n (first : bool) :
  let d := Z.lor (Z.land n 0x7F) (if first then 0x00 else 0x80) in
  Z.land d 0x7F = n `mod` 128 ∧ negb (Z.land d 0x80 =? 0) = negb first ∧ fits 8 d.
Proof.
  cbv zeta. rewrite (land_7f n). set (m := n `mod` 128). assert (0 ≤ m < 128) as Hm by (apply Z.mod_pos_bound; lia).
  assert (fits 7 m) as Hf by (unfold fits; lia).
  replace (Z.lor m (if first then 0x00 else 0x80)) with (m + (if first then 0 else 1) * 2 ^ 7); cycle 1.
  { rewrite <-lor_shiftl_add by (done || lia). by destruct first. }
  change 0x80 with (2 ^ 7). rewrite land_pow2_test, land_7f by lia.
  split_and!; [| |unfold fits; destruct first; cbv iota; lia].
  - change 128 with (2 ^ 7). rewrite Z_mod_plus_full. by apply Z.mod_small.
  - change (2 ^ 7) with 128. rewrite testbit_top by (change (2 ^ 7) with 128; destruct first; lia).
    change (2 ^ 7) with 128. destruct first; simpl; lia.
Qed.

(** The numbers that a type represents, up to a bound, as themselves. *)
Definition covers (I : int_type) (B : Z) : Prop := 128 ≤ B ∧ ∀ z, 0 ≤ z < B → conv I z = z.

Lemma covers_uint w : 7 ≤ w → covers (uint w) (2 ^ w).
Proof.
  intros Hw. split; [apply (Z.pow_le_mono_r 2 7 w); lia|]. intros z Hz. by apply wrap_small.
Qed.

Lemma covers_sint w : 8 ≤ w → covers (sint w) (2 ^ (w - 1)).
Proof.
  intros Hw. split; [apply (Z.pow_le_mono_r 2 7 (w - 1)); lia|]. intros z Hz.
  apply swrap_small; [lia|]. unfold sfits. lia.
Qed.

Section varint.
Context (I : int_type) (B : Z).
Hypothesis Hcov : covers I B.

(** One step of the reader on the digit of [n] when the accumulator is [n / 128]. *)
Lemma read_varint_digit (first : bool) n s :
  0 ≤ n < B →
  read_varint I (n `div` 128) (Z.lor (Z.land n 0x7F) (if first then 0x00 else 0x80) :: s) =
  if first then Some (n, s) else read_varint I (conv I (n + 1)) s.
Proof.
  intros Hn. destruct Hcov as [_ Hc]. destruct (varint_digit n first) as (Hlow & Hhigh & _).
  cbn [read_varint]. cbv zeta.
  rewrite Hhigh, Hlow. assert (Z.lor (conv I ((n `div` 128) ≪ 7)) (n `mod` 128) = n) as ->; [|by destruct first].
  pose proof (Z.div_mod n 128 ltac:(lia)). pose proof (Z.mod_pos_bound n 128 ltac:(lia)).
  rewrite Hc by (rewrite Z.shiftl_mul_pow2 by lia; lia).
  rewrite Z.lor_comm, lor_shiftl_add by (unfold fits; lia). lia.
Qed.

(** Reading the digits of [n] back: a continued number leaves [n + 1] in the
    accumulator, a final one returns [n]. *)
Lemma read_varint_digits fuel (first : bool) n s :
  0 ≤ n < B → n < 2 ^ (7 * Z.of_nat fuel) → (1 ≤ fuel)%nat →
  read_varint I 0 (rev (varint_digits fuel I first n) ++ s) =
  if first then Some (n, s) else read_varint I (conv I (n + 1)) s.
Proof.
  revert first n s. induction fuel as [|fuel IH]; intros first n s Hn Hf Hpos; [lia|].
  cbn [varint_digits rev]. rewrite <-app_assoc. cbn [app]. destruct (Z.leb_spec n 0x7F) as [Hle|Hgt].
  - cbn [rev app]. pose proof (read_varint_digit first n s Hn) as H. by rewrite (Z.div_small n 128) in H by lia.
  - assert (128 ≤ n) by lia. assert (n ≫ 7 = n `div` 128) as Hsh by (by rewrite Z.shiftr_div_pow2).
    assert (1 ≤ n `div` 128) by (apply Z.div_le_lower_bound; lia).
    assert (n `div` 128 < 2 ^ (7 * Z.of_nat fuel)).
    { apply Z.div_lt_upper_bound; [lia|]. change 128 with (2 ^ 7). rewrite <-Z.pow_add_r by lia.
      replace (7 + 7 * Z.of_nat fuel) with (7 * Z.of_nat (S fuel)) by lia. done. }
    assert (n `div` 128 ≤ n) by (apply Z.div_le_upper_bound; lia). destruct Hcov as [_ Hc].
    rewrite (Hc (n ≫ 7 - 1)) by lia.
    rewrite IH; [|lia|lia|destruct fuel; simpl in *; lia].
    replace (n ≫ 7 - 1 + 1) with (n `div` 128) by lia.
    rewrite (Hc (n `div` 128)) by lia. by apply read_varint_digit.
Qed.

Lemma varint_read n s :
  B ≤ 2 ^ bits_of I → 0 ≤ n < B → ReadVarInt I (WriteVarInt I n ++ s) = Some (n, s).
Proof.
  intros HB Hn. unfold ReadVarInt, WriteVarInt, varint_len. destruct Hcov as [HB' _].
  assert (7 ≤ bits_of I) by (apply (Z.pow_le_mono_r_iff 2); [lia| |change (2 ^ 7) with 128; lia];
    destruct (Z.lt_ge_cases (bits_of I) 0) as [Hneg|]; [rewrite Z.pow_neg_r in HB by done; lia|done]).
  assert (bits_of I ≤ 7 * ((bits_of I + 6) `div` 7)) by lia.
  apply (read_varint_digits _ true n s); [done| |lia].
  eapply Z.lt_le_trans; [apply Hn|]. etrans; [apply HB|]. apply Z.pow_le_mono_r; lia.
Qed.

End varint.

Lemma varint_uint_read w n s : 7 ≤ w → fits w n → ReadVarInt (uint w) (WriteVarInt (uint w) n ++ s) = Some (n, s).
Proof. intros Hw Hn. apply (varint_read _ (2 ^ w)); [by apply covers_uint|simpl; lia|done]. Qed.

Lemma varint_sint_read w n s :
  8 ≤ w → 0 ≤ n < 2 ^ (w - 1) → ReadVarInt (sint w) (WriteVarInt (sint w) n ++ s) = Some (n, s).
Proof.
  intros Hw Hn. apply (varint_read _ (2 ^ (w - 1))); [by apply covers_sint| |done].
  simpl. apply Z.pow_le_mono_r; lia.
Qed.

Lemma varint_digits_bytes fuel I first n : bytes (varint_digits fuel I first n).
Proof.
  revert first n. induction fuel as [|fuel IH]; intros first n; cbn [varint_digits]; constructor.
  - apply (varint_digit n first).
  - case_match; [constructor|apply IH].
Qed.

Lemma varint_bytes I n : bytes (WriteVarInt I n).
Proof. apply Forall_rev, varint_digits_bytes. Qed.

Lemma varint_size_length fuel I (first : bool) n k :
  varint_size fuel I n k = k + Z.of_nat (length (varint_digits fuel I first n)).
Proof.
  revert first n k. induction fuel as [|fuel IH]; intros first n k; cbn [varint_size varint_digits length]; [lia|].
  case_match; [simpl; lia|]. rewrite (IH false). lia.
Qed.

(** * [CDataStream] *)

(** The bytes not read yet. *)
Definition unread (st : CDataStream) : list Z := drop (Z.to_nat (nReadPos st)) (vch st).

(** As long as the 32-bit read position does not wrap, [read] is [read_bytes] on
    the unread bytes; clearing the buffer at its end does not show. *)
Lemma stream_read_unread st n :
  0 ≤ nReadPos st ≤ Z.of_nat (length (vch st)) → nReadPos st + Z.of_nat n < 2 ^ 32 →
  match stream_read st (Z.of_nat n) with
  | None => read_bytes n (unread st) = None
  | Some (b, st') => read_bytes n (unread st) = Some (b, unread st')
  end.
Proof.
  intros Hp Hw. unfold stream_read, unread, read_bytes. cbv zeta.
  rewrite wrap_small by (unfold fits; lia). rewrite length_drop, Nat2Z.id.
  destruct (Z.leb_spec (Z.of_nat (length (vch st))) (nReadPos st + Z.of_nat n)); cycle 1.
  - replace (_ <? n)%nat with false by lia. cbn [nReadPos vch]. rewrite drop_drop.
    by replace (Z.to_nat (nReadPos st + Z.of_nat n)) with (Z.to_nat (nReadPos st) + n)%nat by lia.
  - destruct (Z.ltb_spec (Z.of_nat (length (vch st))) (nReadPos st + Z.of_nat n)).
    + by replace (_ <? n)%nat with true by lia.
    + replace (_ <? n)%nat with false by lia. cbn [nReadPos vch]. rewrite drop_drop.
      by rewrite (drop_ge _ (Z.to_nat (nReadPos st) + n)) by lia.
Qed.

(** ** Properties *)

(** Compact sizes, byte vectors and vectors of any element type are decoded to
    what was encoded; the decoder accepts no other encoding of a value (sizes that
    are not minimal or above MAX_SIZE are rejected), so the encoding of what it
    returns is the input it consumed. *)
Theorem serialize_canonical {A} (valid : A → Prop) (ser : A → list Z) (unser : decoder A) :
  codec valid ser unser →
  codec (λ n, 0 ≤ n ≤ MAX_SIZE) WriteCompactSize ReadCompactSize ∧
  codec (λ v, bytes v ∧ Z.of_nat (length v) ≤ MAX_SIZE) Serialize_bytes Unserialize_bytes ∧
  codec (λ v, Forall valid v ∧ Z.of_nat (length v) ≤ MAX_SIZE) (Serialize_vector ser) (Unserialize_vector unser).
Proof. intros Hc. split_and!; [apply codec_CompactSize|apply codec_bytes|by apply codec_vector]. Qed.

Lemma serialize_canonical_witness :
  ReadCompactSize (WriteCompactSize 300 ++ [7]) = Some (300, [7]).
Proof.
  destruct (serialize_canonical _ _ _ (codec_uint 4)) as ((H & _) & _). apply H. unfold MAX_SIZE. lia.
Defined.

(** At every unsigned type of at least 7 bits, and for the numbers a signed type
    of at least 8 bits represents that are not negative, a variable-length integer
    is read back exactly; [GetSizeOfVarInt] is the number of bytes written.  A
    negative number of a signed type is written as its lowest seven bits. *)
Theorem varint_roundtrip w n rest :
  8 ≤ w → fits w n →
  ReadVarInt (uint w) (WriteVarInt (uint w) n ++ rest) = Some (n, rest) ∧
  (n < 2 ^ (w - 1) → ReadVarInt (sint w) (WriteVarInt (sint w) n ++ rest) = Some (n, rest)) ∧
  Z.of_nat (length (WriteVarInt (uint w) n)) = GetSizeOfVarInt (uint w) n ∧
  (∀ m, m < 0 → WriteVarInt (sint w) m = [m `mod` 128]).
Proof.
  intros Hw Hn. split_and!; [apply varint_uint_read; [lia|done]|intros; apply varint_sint_read; [done|destruct Hn; lia]| |].
  - unfold WriteVarInt, GetSizeOfVarInt. rewrite (varint_size_length _ _ true), length_rev. lia.
  - intros m Hm. unfold WriteVarInt. assert (∃ k, varint_len (sint w) = S k) as [k ->].
    { exists (Nat.pred (varint_len (sint w))). unfold varint_len. simpl. lia. }
    cbn [varint_digits]. replace (m <=? 0x7F) with true by lia. cbn [rev app]. f_equal.
    by rewrite Z.lor_0_r, land_7f.
Qed.

Lemma varint_roundtrip_witness : ReadVarInt (uint 32) (WriteVarInt (uint 32) 65535 ++ [1]) = Some (65535, [1]).
Proof. refine (proj1 (varint_roundtrip 32 65535 [1] _ _)); [lia|unfold fits; lia]. Defined.
