(* ===== verification/ArithUint256.v ===== *)
(** arith_uint256.h / arith_uint256.cpp: fixed-width unsigned integers.

    [base_uint<BITS>] is an array [pn] of [WIDTH = BITS / 32] 32-bit limbs,
    least significant first.  Here it is the list of its limbs; every operator
    of the class is the function of the same loop, and [val] is the number the
    limbs stand for. *)

From S2P Require Import Prelude CryptoCommon.

Module BaseUint.
Section base_uint.
Context (WIDTH : nat).

(** Type invariant of the class: [WIDTH] limbs of 32 bits. *)
Definition wf (a : list Z) : Prop := length a = WIDTH ∧ words 32 a.

Definition BITS : Z := Z.of_nat WIDTH * 32.

(** [base_uint()] *)
Definition zero : list Z := replicate WIDTH 0.

(** [base_uint(uint64_t b)] and [operator=(uint64_t b)] *)
Definition of_u64 (b : Z) : list Z := u32 b :: u32 (b ≫ 32) :: replicate (WIDTH - 2) 0.

(** [bool operator!() const] *)
Definition is_zero (a : list Z) : bool := forallb (λ x, x =? 0) a.

(** [operator~] *)
Definition op_not (a : list Z) : list Z := (λ x, u32 (Z.lnot x)) <$> a.

(** prefix [operator++]: [while (++pn[i] == 0 && i < WIDTH - 1) i++;] *)
Fixpoint incr (a : list Z) : list Z :=
  match a with
  | [] => []
  | x :: r => let x' := u32 (x + 1) in if x' =? 0 then x' :: incr r else x' :: r
  end.

(** prefix [operator--]: [while (--pn[i] == (uint32_t)-1 && i < WIDTH - 1) i++;] *)
Fixpoint decr (a : list Z) : list Z :=
  match a with
  | [] => []
  | x :: r => let x' := u32 (x - 1) in if x' =? u32 (-1) then x' :: decr r else x' :: r
  end.

(** unary [operator-]: complement, then [ret++]. *)
Definition op_neg (a : list Z) : list Z := incr (op_not a).

(** [operator^=], [operator&=], [operator|=] *)
Definition op_xor (a b : list Z) : list Z := zip_with Z.lxor a b.
Definition op_and (a b : list Z) : list Z := zip_with Z.land a b.
Definition op_or (a b : list Z) : list Z := zip_with Z.lor a b.

(** [operator+=]: [n = carry + pn[i] + b.pn[i]] in 64 bits. *)
Fixpoint add_loop (carry : Z) (a b : list Z) : list Z :=
  match a, b with
  | x :: a', y :: b' =>
      let n := u64 (carry + x + y) in Z.land n 0xffffffff :: add_loop (n ≫ 32) a' b'
  | _, _ => []
  end.
Definition op_add (a b : list Z) : list Z := add_loop 0 a b.

(** [operator-=]: [*this += -b]. *)
Definition op_sub (a b : list Z) : list Z := op_add a (op_neg b).

(** [operator<<=]: body of the loop, with [k = shift / 32], [sh = shift % 32]. *)
Definition shl_step (a : list Z) (k : nat) (sh : Z) (pn : list Z) (i : nat) : list Z :=
  let pn :=
    if (i + k + 1 <? WIDTH)%nat && negb (sh =? 0)
    then or_at pn (i + k + 1) (nth i a 0 ≫ (32 - sh)) else pn in
  if (i + k <? WIDTH)%nat then or_at pn (i + k) (u32 (nth i a 0 ≪ sh)) else pn.

Definition op_shl (a : list Z) (shift : Z) : list Z :=
  for_up WIDTH (shl_step a (Z.to_nat (shift / 32)) (shift `mod` 32)) zero.

(** [operator>>=]: [i - k - 1 >= 0] and [i - k >= 0] are tests on [int]. *)
Definition shr_step (a : list Z) (k : nat) (sh : Z) (pn : list Z) (i : nat) : list Z :=
  let pn :=
    if (k + 1 <=? i)%nat && negb (sh =? 0)
    then or_at pn (i - k - 1) (u32 (nth i a 0 ≪ (32 - sh))) else pn in
  if (k <=? i)%nat then or_at pn (i - k) (nth i a 0 ≫ sh) else pn.

Definition op_shr (a : list Z) (shift : Z) : list Z :=
  for_up WIDTH (shr_step a (Z.to_nat (shift / 32)) (shift `mod` 32)) zero.

(** [operator*=(uint32_t b32)] *)
Fixpoint mul32_loop (carry b32 : Z) (a : list Z) : list Z :=
  match a with
  | [] => []
  | x :: a' =>
      let n := u64 (carry + b32 * x) in
      Z.land n 0xffffffff :: mul32_loop (n ≫ 32) b32 a'
  end.
Definition op_mul32 (a : list Z) (b32 : Z) : list Z := mul32_loop 0 b32 a.

(** [operator*=(const base_uint&)]: the inner loop runs over [pn[j..WIDTH)]. *)
Fixpoint mul_inner (carry aj : Z) (pn b : list Z) : list Z :=
  match pn, b with
  | p :: pn', y :: b' =>
      let n := u64 (carry + p + aj * y) in
      Z.land n 0xffffffff :: mul_inner (n ≫ 32) aj pn' b'
  | _, _ => pn
  end.
Definition mul_step (a b : list Z) (pn : list Z) (j : nat) : list Z :=
  take j pn ++ mul_inner 0 (nth j a 0) (drop j pn) b.
Definition op_mul (a b : list Z) : list Z := for_up WIDTH (mul_step a b) zero.

(** [CompareTo]: from the most significant limb down. *)
Fixpoint compare_rev (a b : list Z) : Z :=
  match a, b with
  | x :: a', y :: b' => if x <? y then -1 else if y <? x then 1 else compare_rev a' b'
  | _, _ => 0
  end.
Definition CompareTo (a b : list Z) : Z := compare_rev (rev a) (rev b).

(** [EqualTo(uint64_t b)] *)
Definition EqualTo (a : list Z) (b : Z) : bool :=
  forallb (λ x, x =? 0) (drop 2 a) &&
  (nth 1 a 0 =? b ≫ 32) && (nth 0 a 0 =? Z.land b 0xffffffff).

(** The comparison operators are [CompareTo] tests. *)
Definition op_gt a b : bool := 0 <? CompareTo a b.
Definition op_lt a b : bool := CompareTo a b <? 0.
Definition op_ge a b : bool := 0 <=? CompareTo a b.
Definition op_le a b : bool := CompareTo a b <=? 0.

(** [bits()]: the inner loop over the bits 31 .. 1 of the top non-zero limb,
    the outer loop over the limbs from the top. *)
Fixpoint top_bit (x : Z) (bits : nat) : Z :=
  match bits with
  | O => 0
  | S b => if Z.testbit x (Z.of_nat (S b)) then Z.of_nat (S b) else top_bit x b
  end.
Fixpoint bits_from (a : list Z) (pos : nat) : Z :=
  match pos with
  | O => 0
  | S p =>
      let x := nth p a 0 in
      if x =? 0 then bits_from a p else 32 * Z.of_nat p + top_bit x 31 + 1
  end.
Definition bits (a : list Z) : Z := bits_from a WIDTH.

(** [operator/=]: shift-and-subtract; [None] is the thrown "Division by zero".
    One iteration of the [while (shift >= 0)] loop per value of [shift]. *)
Fixpoint div_loop (shift : nat) (num div pn : list Z) : list Z :=
  let '(num', pn') :=
    if op_ge num div
    then (op_sub num div, or_at pn (shift / 32) (u32 (1 ≪ Z.of_nat (shift mod 32))))
    else (num, pn) in
  match shift with
  | O => pn'
  | S s => div_loop s num' (op_shr div 1) pn'
  end.
Definition op_div (a b : list Z) : option (list Z) :=
  let num_bits := bits a in
  let div_bits := bits b in
  if div_bits =? 0 then None
  else if num_bits <? div_bits then Some zero
  else
    let shift := num_bits - div_bits in
    Some (div_loop (Z.to_nat shift) a (op_shl b shift) zero).

(** [GetLow64] *)
Definition GetLow64 (a : list Z) : Z := Z.lor (nth 0 a 0) (u64 (nth 1 a 0 ≪ 32)).

End base_uint.
End BaseUint.

(** [arith_uint256] is [base_uint<256>]. *)
Module Arith256.
Import BaseUint.

Abbreviation W256 := 8%nat (only parsing).

(** Result of [SetCompact]: the number, [*pfNegative] and [*pfOverflow]. *)
Record compact_result := CompactResult {
  cr_value : list Z;
  cr_negative : bool;
  cr_overflow : bool;
}.

Definition SetCompact (nCompact : Z) : compact_result :=
  let nSize := nCompact ≫ 24 in
  let nWord := Z.land nCompact 0x007fffff in
  let '(nWord, this) :=
    if nSize <=? 3
    then let nWord := nWord ≫ (8 * (3 - nSize)) in (nWord, of_u64 W256 nWord)
    else (nWord, op_shl W256 (of_u64 W256 nWord) (8 * (nSize - 3))) in
  CompactResult this
    (negb (nWord =? 0) && negb (Z.land nCompact 0x00800000 =? 0))
    (negb (nWord =? 0) &&
     ((34 <? nSize) || (0xff <? nWord) && (33 <? nSize) || (0xffff <? nWord) && (32 <? nSize))).

(** [GetCompact]; [None] is a failed [assert]. *)
Definition GetCompact (this : list Z) (fNegative : bool) : option Z :=
  let nSize := (bits W256 this + 7) / 8 in
  let nCompact :=
    if nSize <=? 3 then u32 (u64 (GetLow64 this ≪ (8 * (3 - nSize))))
    else u32 (GetLow64 (op_shr W256 this (8 * (nSize - 3)))) in
  let '(nCompact, nSize) :=
    if negb (Z.land nCompact 0x00800000 =? 0) then (nCompact ≫ 8, nSize + 1)
    else (nCompact, nSize) in
  if negb (Z.land nCompact (u32 (Z.lnot 0x007fffff)) =? 0) then None
  else if negb (nSize <? 256) then None
  else
    let nCompact := Z.lor nCompact (u32 (nSize ≪ 24)) in
    Some (Z.lor nCompact
            (if fNegative && negb (Z.land nCompact 0x007fffff =? 0) then 0x00800000 else 0)).

(** [ArithToUint256] and [UintToArith256]: a [uint256] is its 32 bytes. *)
Definition ArithToUint256 (a : list Z) : list Z := flat_map WriteLE32 a.
Definition UintToArith256 (u : list Z) : list Z :=
  (λ x, ReadLE32 (drop (x * 4) u)) <$> seq 0 W256.

End Arith256.
