(* ===== verification/ArithFacts.v ===== *)
(** Correctness of the limb arithmetic of [ArithUint256] against [Z]: every
    operator computes the integer operation modulo [2^BITS], keeps the type
    invariant, and the comparison and bit-length queries agree with the numbers. *)

From S2P Require Import Prelude ArithUint256.
Import BaseUint.

Section base_uint_facts.
Context (WIDTH : nat).

Abbreviation val := (le_val 32).
Abbreviation modulus := (2 ^ BITS WIDTH).
Abbreviation wf := (wf WIDTH).

Lemma modulus_pos : 0 < modulus.
Proof. apply Z.pow_pos_nonneg; unfold BITS; lia. Qed.

Lemma wf_val_bound a : wf a → 0 ≤ val a < modulus.
Proof. intros [<- Ha]. by apply le_val_bound. Qed.

Lemma val_wrap_inj a b : wf a → wf b → val a = val b → a = b.
Proof. intros [La Ha] [Lb Hb]. apply le_val_inj; [lia|congruence|done..]. Qed.

Lemma land_ffffffff n : Z.land n 0xffffffff = u32 n.
Proof. change 0xffffffff with (Z.ones 32). by rewrite land_wrap. Qed.

Lemma zero_wf : wf (zero WIDTH).
Proof. split; [apply length_replicate|]. by apply words_replicate0. Qed.

Lemma val_zero : val (zero WIDTH) = 0.
Proof. apply le_val_replicate0. Qed.

Lemma of_u64_wf b : (2 ≤ WIDTH)%nat → wf (of_u64 WIDTH b).
Proof.
  intros HW.
  split; [unfold of_u64; simpl; rewrite length_replicate; lia|].
  repeat constructor; try apply (wrap_fits 32); try lia. by apply words_replicate0.
Qed.

Lemma val_of_u64 b : fits 64 b → val (of_u64 WIDTH b) = b.
Proof.
  intros [Hl Hh]. unfold of_u64.
  rewrite !le_val_cons by (lia || (apply wrap_fits; lia)).
  rewrite le_val_replicate0, Z.mul_0_l, Z.add_0_r.
  unfold wrap. rewrite (Z.mod_small (b ≫ 32)).
  - rewrite Z.shiftr_div_pow2 by lia. rewrite (Z.div_mod b (2 ^ 32)) at 3 by lia. lia.
  - rewrite Z.shiftr_div_pow2 by lia. split; [apply Z.div_pos; lia|].
    apply Z.div_lt_upper_bound; lia.
Qed.

(** One limb of a schoolbook operation: the low word stays, the rest carries. *)
Lemma limb_carry n t B M :
  0 < B → 0 < M → (n + t * B) `mod` (B * M) = n `mod` B + ((n / B + t) `mod` M) * B.
Proof.
  intros. rewrite Z.rem_mul_r by lia. rewrite Z.mod_add, Z.div_add by lia. lia.
Qed.

Lemma pow32_S n : 2 ^ (Z.of_nat (S n) * 32) = 2 ^ 32 * 2 ^ (Z.of_nat n * 32).
Proof. rewrite <-Z.pow_add_r by lia. f_equal. lia. Qed.

Lemma pow32_pos n : 0 < 2 ^ (Z.of_nat n * 32).
Proof. apply Z.pow_pos_nonneg; lia. Qed.

(** ** Addition, complement, negation, subtraction *)

Lemma add_loop_wf carry a b :
  words 32 (add_loop carry a b) ∧
  (length a = length b → length (add_loop carry a b) = length a).
Proof.
  revert carry b. induction a as [|x a IH]; intros carry [|y b]; simpl; [by split..|].
  destruct (IH (u64 (carry + x + y) ≫ 32) b) as [H1 H2]. split.
  - constructor; [|done]. rewrite land_ffffffff. by apply wrap_fits.
  - intros Hlen. f_equal. auto.
Qed.

Lemma add_loop_val carry a b :
  0 ≤ carry ≤ 1 → words 32 a → words 32 b → length a = length b →
  val (add_loop carry a b) = (carry + val a + val b) `mod` 2 ^ (Z.of_nat (length a) * 32).
Proof.
  intros Hc Ha. revert carry b Hc. induction Ha as [|x a Hx Ha IH]; intros carry b Hc Hb Hlen.
  { destruct b; [|done]. simpl. by rewrite Z.mod_1_r. }
  destruct Hb as [|y b Hy Hb]; [done|]. simpl in Hlen.
  cbn [add_loop]. rewrite land_ffffffff.
  assert (u64 (carry + x + y) = carry + x + y) as ->.
  { apply wrap_small. unfold fits in *. lia. }
  rewrite !le_val_cons by (done || lia || by apply wrap_fits).
  rewrite IH; [|rewrite Z.shiftr_div_pow2 by lia|done|lia].
  2:{ unfold fits in *. split; [apply Z.div_pos; lia|].
      apply Z.lt_succ_r, Z.div_lt_upper_bound; lia. }
  rewrite Z.shiftr_div_pow2 by lia. cbn [length]. rewrite pow32_S.
  replace (carry + (x + val a * 2 ^ 32) + (y + val b * 2 ^ 32))
    with (carry + x + y + (val a + val b) * 2 ^ 32) by lia.
  rewrite limb_carry by (lia || apply pow32_pos).
  unfold wrap. by rewrite Z.add_assoc.
Qed.

Lemma op_add_wf a b : wf a → wf b → wf (op_add a b).
Proof.
  intros [La _] [Lb _]. destruct (add_loop_wf 0 a b) as [H1 H2].
  split; [|done]. unfold op_add. rewrite H2; congruence.
Qed.

Lemma op_add_val a b : wf a → wf b → val (op_add a b) = (val a + val b) `mod` modulus.
Proof.
  intros [La Ha] [Lb Hb]. unfold op_add. rewrite add_loop_val; [|lia|done..|congruence].
  by rewrite Z.add_0_l, La.
Qed.

Lemma not32 x : fits 32 x → u32 (Z.lnot x) = 2 ^ 32 - 1 - x.
Proof.
  intros [? ?]. unfold wrap, Z.lnot. symmetry.
  apply Z.mod_unique with (-1); lia.
Qed.

Lemma op_not_wf a : wf a → wf (op_not a).
Proof.
  intros [La Ha]. split; [by unfold op_not; rewrite length_fmap|].
  unfold op_not. apply Forall_fmap, Forall_true. intros x. by apply wrap_fits.
Qed.

Lemma op_not_val' a : words 32 a → val (op_not a) = 2 ^ (Z.of_nat (length a) * 32) - 1 - val a.
Proof.
  induction 1 as [|x a Hx Ha IH]; [done|].
  change (op_not (x :: a)) with (u32 (Z.lnot x) :: op_not a).
  rewrite !le_val_cons by (done || lia || by apply wrap_fits).
  rewrite IH, not32 by done. cbn [length].
  replace (Z.of_nat (S (length a)) * 32) with (32 + Z.of_nat (length a) * 32) by lia.
  rewrite Z.pow_add_r by lia. lia.
Qed.

Lemma op_not_val a : wf a → val (op_not a) = modulus - 1 - val a.
Proof. intros [La Ha]. rewrite op_not_val' by done. by rewrite La. Qed.

Lemma incr_wf' a : words 32 a → words 32 (incr a) ∧ length (incr a) = length a.
Proof.
  induction 1 as [|x a Hx Ha [IH1 IH2]]; [done|]. cbn [incr].
  destruct (u32 (x + 1) =? 0); split; simpl; try congruence;
    (constructor; [by apply wrap_fits|done]).
Qed.

Lemma incr_val' a :
  words 32 a → val (incr a) = (val a + 1) `mod` 2 ^ (Z.of_nat (length a) * 32).
Proof.
  induction 1 as [|x a Hx Ha IH]; [done|]. cbn [incr length].
  pose proof (le_val_bound 32 a ltac:(lia) Ha) as [Hb1 Hb2].
  replace (Z.of_nat (S (length a)) * 32) with (32 + Z.of_nat (length a) * 32) by lia.
  rewrite Z.pow_add_r by lia. set (M := 2 ^ (Z.of_nat (length a) * 32)) in *.
  assert (0 < M) by (subst M; apply Z.pow_pos_nonneg; lia).
  rewrite le_val_cons by (done || lia). unfold fits in Hx.
  destruct (Z.eqb_spec (u32 (x + 1)) 0) as [E|E].
  - assert (x = 2 ^ 32 - 1) as ->.
    { destruct (decide (x = 2 ^ 32 - 1)) as [|n]; [done|].
      unfold wrap in E. rewrite Z.mod_small in E; lia. }
    rewrite le_val_cons by (lia || by apply wrap_fits). rewrite IH, E. fold M.
    rewrite Z.rem_mul_r by lia.
    replace (2 ^ 32 - 1 + val a * 2 ^ 32 + 1) with ((val a + 1) * 2 ^ 32) by lia.
    rewrite Z.mod_mul, Z.div_mul by lia. lia.
  - assert (x + 1 < 2 ^ 32).
    { destruct (decide (x + 1 = 2 ^ 32)) as [e|]; [|lia].
      unfold wrap in E. rewrite e, Z.mod_same in E; lia. }
    rewrite le_val_cons by (lia || by apply wrap_fits).
    unfold wrap. rewrite (Z.mod_small (x + 1)), Z.mod_small by nia. lia.
Qed.

Lemma incr_wf a : wf a → wf (incr a).
Proof. intros [La Ha]. destruct (incr_wf' a Ha). split; congruence. Qed.

Lemma incr_val a : wf a → val (incr a) = (val a + 1) `mod` modulus.
Proof. intros [La Ha]. rewrite incr_val' by done. by rewrite La. Qed.

Lemma op_neg_wf a : wf a → wf (op_neg a).
Proof. intros. by apply incr_wf, op_not_wf. Qed.

Lemma op_neg_val a : wf a → val (op_neg a) = (- val a) `mod` modulus.
Proof.
  intros. unfold op_neg. rewrite incr_val, op_not_val by auto using op_not_wf.
  replace (modulus - 1 - val a + 1) with (- val a + 1 * modulus) by lia.
  apply Z.mod_add. pose proof modulus_pos. lia.
Qed.

Lemma op_sub_wf a b : wf a → wf b → wf (op_sub a b).
Proof. intros. apply op_add_wf; [done|]. by apply op_neg_wf. Qed.

Lemma op_sub_val a b : wf a → wf b → val (op_sub a b) = (val a - val b) `mod` modulus.
Proof.
  intros. pose proof modulus_pos. unfold op_sub.
  rewrite op_add_val, op_neg_val by auto using op_neg_wf.
  by rewrite Z.add_mod_idemp_r by lia.
Qed.

(** ** Shifts *)

Lemma val_take_S a i :
  (i < length a)%nat →
  val (take (S i) a) = Z.lor (val (take i a)) (nth i a 0 ≪ (Z.of_nat i * 32)).
Proof.
  intros Hi. rewrite (take_S_r a i (nth i a 0)).
  - rewrite le_val_app by lia. rewrite length_take, Nat.min_l by lia.
    simpl. by rewrite Z.shiftl_0_l, Z.lor_0_r.
  - rewrite nth_lookup. destruct (lookup_lt_is_Some_2 a i Hi) as [x ->]. done.
Qed.

(** The two writes of one iteration put the shifted limb in place. *)
Lemma shl_limb_bits (x p W sh : Z) :
  fits 32 x → 0 ≤ p → 0 ≤ W → 0 ≤ sh < 32 →
  Z.land (x ≪ (p * 32 + sh)) (Z.ones (W * 32)) =
  Z.lor (if (p + 1 <? W) && negb (sh =? 0)
         then (x ≫ (32 - sh)) ≪ ((p + 1) * 32) else 0)
        (if p <? W then u32 (x ≪ sh) ≪ (p * 32) else 0).
Proof.
  intros Hx Hp HW0 Hsh. apply Z.bits_inj'. intros n Hn.
  rewrite Z.land_spec, Z.lor_spec, Z.testbit_ones_nonneg by lia.
  rewrite (Z.shiftl_spec x) by lia.
  transitivity (Z.testbit x (n - p * 32 - sh) && (n <? W * 32)); [do 2 f_equal; lia|].
  set (m := n - p * 32).
  assert (Z.testbit (if p <? W then u32 (x ≪ sh) ≪ (p * 32) else 0) n =
          ((p <? W) && (0 <=? m) && (m <? 32)) && Z.testbit x (m - sh)) as ->.
  { destruct (p <? W); [|by rewrite Z.bits_0].
    rewrite Z.shiftl_spec by lia. fold m. destruct (Z.leb_spec 0 m); simpl.
    - unfold wrap. by rewrite Z.testbit_mod_pow2, Z.shiftl_spec by lia.
    - by rewrite Z.testbit_neg_r by lia. }
  assert (Z.testbit (if (p + 1 <? W) && negb (sh =? 0)
         then (x ≫ (32 - sh)) ≪ ((p + 1) * 32) else 0) n =
          ((p + 1 <? W) && negb (sh =? 0) && (32 <=? m)) && Z.testbit x (m - sh)) as ->.
  { destruct (_ && _); [|by rewrite Z.bits_0].
    rewrite Z.shiftl_spec by lia. destruct (Z.leb_spec 32 m); simpl.
    - rewrite Z.shiftr_spec by lia. f_equal. lia.
    - by rewrite Z.testbit_neg_r by lia. }
  destruct (decide (m - sh < 0)); [rewrite Z.testbit_neg_r by lia; by rewrite !andb_false_r|].
  destruct (decide (32 ≤ m - sh)).
  { rewrite (fits_testbit 32) by (done || lia). by rewrite !andb_false_r. }
  destruct (Z.testbit x (m - sh)); [|by rewrite !andb_false_r]. lia.
Qed.

Lemma shl_step_spec a k sh pn i :
  wf a → wf pn → 0 ≤ sh < 32 → (i < WIDTH)%nat →
  val pn = Z.land (val (take i a) ≪ (Z.of_nat k * 32 + sh)) (Z.ones (BITS WIDTH)) →
  wf (shl_step WIDTH a k sh pn i) ∧
  val (shl_step WIDTH a k sh pn i) =
    Z.land (val (take (S i) a) ≪ (Z.of_nat k * 32 + sh)) (Z.ones (BITS WIDTH)).
Proof.
  intros [La Ha] [Lp Hp] Hsh Hi E.
  assert (fits 32 (nth i a 0)) as Hx by (apply words_nth; [lia|done]).
  rewrite val_take_S by lia. rewrite Z.shiftl_lor, Z.shiftl_shiftl, Z.land_lor_distr_l by lia.
  rewrite <-E. replace (Z.of_nat i * 32 + (Z.of_nat k * 32 + sh))
    with (Z.of_nat (i + k) * 32 + sh) by lia.
  unfold BITS. rewrite shl_limb_bits by (done || lia).
  unfold shl_step. set (x := nth i a 0) in *.
  set (pn1 := if (i + k + 1 <? WIDTH)%nat && _ then _ else pn).
  assert (wf pn1 ∧ val pn1 = Z.lor (val pn)
    (if (Z.of_nat (i + k) + 1 <? Z.of_nat WIDTH) && negb (sh =? 0)
     then (x ≫ (32 - sh)) ≪ ((Z.of_nat (i + k) + 1) * 32) else 0)) as [[L1 H1] E1].
  { subst pn1. replace (Z.of_nat (i + k) + 1 <? Z.of_nat WIDTH)
      with (i + k + 1 <? WIDTH)%nat by lia.
    destruct ((i + k + 1 <? WIDTH)%nat && negb (sh =? 0)) eqn:B.
    - split; [split; [by rewrite length_or_at|]|].
      + apply words_or_at; [lia|done|]. apply fits_shiftr; [lia..|done].
      + rewrite le_val_or_at by lia. do 2 f_equal. lia.
    - by rewrite Z.lor_0_r. }
  rewrite Z.lor_assoc, <-E1.
  replace (Z.of_nat (i + k) <? Z.of_nat WIDTH) with (i + k <? WIDTH)%nat by lia.
  destruct (i + k <? WIDTH)%nat eqn:B.
  - split; [split; [by rewrite length_or_at|]|].
    + apply words_or_at; [lia|done|]. by apply wrap_fits.
    + rewrite le_val_or_at by lia. done.
  - rewrite Z.lor_0_r. done.
Qed.

Lemma op_shl_spec a s :
  wf a → 0 ≤ s →
  wf (op_shl WIDTH a s) ∧ val (op_shl WIDTH a s) = (val a * 2 ^ s) `mod` modulus.
Proof.
  intros Ha Hs. unfold op_shl.
  set (k := Z.to_nat (s / 32)). set (sh := s `mod` 32).
  assert (Hk : Z.of_nat k * 32 + sh = s).
  { subst k sh. rewrite Z2Nat.id by (apply Z.div_pos; lia).
    rewrite (Z.div_mod s 32) at 3 by lia. lia. }
  pose proof (Z.mod_pos_bound s 32 ltac:(lia)) as Hsh. fold sh in Hsh.
  assert (wf (for_up WIDTH (shl_step WIDTH a k sh) (zero WIDTH)) ∧
    val (for_up WIDTH (shl_step WIDTH a k sh) (zero WIDTH)) =
      Z.land (val (take WIDTH a) ≪ (Z.of_nat k * 32 + sh)) (Z.ones (BITS WIDTH))) as [H1 H2].
  { apply (for_up_inv (λ i pn, wf pn ∧ val pn =
      Z.land (val (take i a) ≪ (Z.of_nat k * 32 + sh)) (Z.ones (BITS WIDTH)))).
    - split; [apply zero_wf|]. by rewrite val_zero, take_0, Z.shiftl_0_l, Z.land_0_l.
    - intros i pn Hi [Hpn E]. by apply shl_step_spec. }
  split; [done|]. rewrite H2, Hk. destruct Ha as [La _]. rewrite <-La, firstn_all, La.
  unfold BITS. rewrite Z.land_ones, Z.shiftl_mul_pow2 by lia. done.
Qed.

Lemma shr_limb_bits (x i k sh : Z) :
  fits 32 x → 0 ≤ i → 0 ≤ k → 0 ≤ sh < 32 →
  (x ≪ (i * 32)) ≫ (k * 32 + sh) =
  Z.lor (if (k + 1 <=? i) && negb (sh =? 0)
         then u32 (x ≪ (32 - sh)) ≪ ((i - k - 1) * 32) else 0)
        (if k <=? i then (x ≫ sh) ≪ ((i - k) * 32) else 0).
Proof.
  intros Hx Hi Hk Hsh. apply Z.bits_inj'. intros n Hn.
  rewrite Z.lor_spec, Z.shiftr_spec, Z.shiftl_spec by lia.
  set (m := n - (i - k) * 32).
  transitivity (Z.testbit x (m + sh)); [f_equal; lia|].
  assert (Z.testbit (if k <=? i then (x ≫ sh) ≪ ((i - k) * 32) else 0) n =
          ((k <=? i) && (0 <=? m)) && Z.testbit x (m + sh)) as ->.
  { destruct (k <=? i); [|by rewrite Z.bits_0].
    rewrite Z.shiftl_spec by lia. fold m. destruct (Z.leb_spec 0 m); simpl.
    - by rewrite Z.shiftr_spec by lia.
    - by rewrite Z.testbit_neg_r by lia. }
  assert (Z.testbit (if (k + 1 <=? i) && negb (sh =? 0)
         then u32 (x ≪ (32 - sh)) ≪ ((i - k - 1) * 32) else 0) n =
          ((k + 1 <=? i) && negb (sh =? 0) && (-32 <=? m) && (m <? 0))
          && Z.testbit x (m + sh)) as ->.
  { destruct (_ && _); [|by rewrite Z.bits_0].
    rewrite Z.shiftl_spec by lia. replace (n - (i - k - 1) * 32) with (m + 32) by lia.
    destruct (Z.leb_spec (-32) m); simpl.
    - unfold wrap. rewrite Z.testbit_mod_pow2, Z.shiftl_spec by lia.
      f_equal; [lia|f_equal; lia].
    - by rewrite Z.testbit_neg_r by lia. }
  destruct (decide (m + sh < 0)); [rewrite Z.testbit_neg_r by lia; by rewrite !andb_false_r|].
  destruct (decide (32 ≤ m + sh)).
  { rewrite (fits_testbit 32) by (done || lia). by rewrite !andb_false_r. }
  destruct (Z.testbit x (m + sh)); [|by rewrite !andb_false_r]. lia.
Qed.

Lemma shr_step_spec a k sh pn i :
  wf a → wf pn → 0 ≤ sh < 32 → (i < WIDTH)%nat →
  val pn = val (take i a) ≫ (Z.of_nat k * 32 + sh) →
  wf (shr_step a k sh pn i) ∧
  val (shr_step a k sh pn i) = val (take (S i) a) ≫ (Z.of_nat k * 32 + sh).
Proof.
  intros [La Ha] [Lp Hp] Hsh Hi E.
  assert (fits 32 (nth i a 0)) as Hx by (apply words_nth; [lia|done]).
  rewrite val_take_S by lia. rewrite Z.shiftr_lor, <-E.
  rewrite shr_limb_bits by (done || lia).
  unfold shr_step. set (x := nth i a 0) in *.
  set (pn1 := if (k + 1 <=? i)%nat && _ then _ else pn).
  assert (wf pn1 ∧ val pn1 = Z.lor (val pn)
    (if (Z.of_nat k + 1 <=? Z.of_nat i) && negb (sh =? 0)
     then u32 (x ≪ (32 - sh)) ≪ ((Z.of_nat i - Z.of_nat k - 1) * 32) else 0))
    as [[L1 H1] E1].
  { subst pn1. replace (Z.of_nat k + 1 <=? Z.of_nat i) with (k + 1 <=? i)%nat by lia.
    destruct ((k + 1 <=? i)%nat && negb (sh =? 0)) eqn:B.
    - split; [split; [by rewrite length_or_at|]|].
      + apply words_or_at; [lia|done|]. by apply wrap_fits.
      + rewrite le_val_or_at by lia. do 2 f_equal. lia.
    - by rewrite Z.lor_0_r. }
  rewrite Z.lor_assoc, <-E1.
  replace (Z.of_nat k <=? Z.of_nat i) with (k <=? i)%nat by lia.
  destruct (k <=? i)%nat eqn:B.
  - split; [split; [by rewrite length_or_at|]|].
    + apply words_or_at; [lia|done|]. apply fits_shiftr; [lia..|done].
    + rewrite le_val_or_at by lia. do 2 f_equal. lia.
  - rewrite Z.lor_0_r. done.
Qed.

Lemma op_shr_spec a s :
  wf a → 0 ≤ s → wf (op_shr WIDTH a s) ∧ val (op_shr WIDTH a s) = val a / 2 ^ s.
Proof.
  intros Ha Hs. unfold op_shr.
  set (k := Z.to_nat (s / 32)). set (sh := s `mod` 32).
  assert (Hk : Z.of_nat k * 32 + sh = s).
  { subst k sh. rewrite Z2Nat.id by (apply Z.div_pos; lia).
    rewrite (Z.div_mod s 32) at 3 by lia. lia. }
  pose proof (Z.mod_pos_bound s 32 ltac:(lia)) as Hsh. fold sh in Hsh.
  assert (wf (for_up WIDTH (shr_step a k sh) (zero WIDTH)) ∧
    val (for_up WIDTH (shr_step a k sh) (zero WIDTH)) =
      val (take WIDTH a) ≫ (Z.of_nat k * 32 + sh)) as [H1 H2].
  { apply (for_up_inv (λ i pn, wf pn ∧ val pn = val (take i a) ≫ (Z.of_nat k * 32 + sh))).
    - split; [apply zero_wf|]. by rewrite val_zero, take_0, Z.shiftr_0_l.
    - intros i pn Hi [Hpn E]. by apply shr_step_spec. }
  split; [done|]. rewrite H2, Hk. destruct Ha as [La _]. rewrite <-La, firstn_all.
  by rewrite Z.shiftr_div_pow2 by lia.
Qed.

(** ** Multiplication *)

Lemma shiftr32_fits n : fits 64 n → fits 32 (n ≫ 32).
Proof.
  unfold fits. intros. rewrite Z.shiftr_div_pow2 by lia.
  split; [apply Z.div_pos; lia|]. apply Z.div_lt_upper_bound; lia.
Qed.

Lemma mul32_loop_wf carry b32 a :
  words 32 (mul32_loop carry b32 a) ∧ length (mul32_loop carry b32 a) = length a.
Proof.
  revert carry. induction a as [|x a IH]; intros carry; simpl; [by split|].
  destruct (IH (u64 (carry + b32 * x) ≫ 32)) as [H1 H2]. split; [|by f_equal].
  constructor; [|done]. rewrite land_ffffffff. by apply wrap_fits.
Qed.

Lemma mul32_loop_val carry b32 a :
  fits 32 carry → fits 32 b32 → words 32 a →
  val (mul32_loop carry b32 a) = (carry + b32 * val a) `mod` 2 ^ (Z.of_nat (length a) * 32).
Proof.
  intros Hc Hb Ha. revert carry Hc. induction Ha as [|x a Hx Ha IH]; intros carry Hc.
  { simpl. by rewrite Z.mod_1_r. }
  cbn [mul32_loop]. rewrite land_ffffffff.
  assert (fits 64 (carry + b32 * x)) as Hn by (unfold fits in *; nia).
  rewrite (wrap_small 64) by done.
  rewrite !le_val_cons by (done || lia || by apply wrap_fits).
  rewrite IH by (by apply shiftr32_fits).
  rewrite Z.shiftr_div_pow2 by lia. cbn [length]. rewrite pow32_S.
  replace (carry + b32 * (x + val a * 2 ^ 32))
    with (carry + b32 * x + (b32 * val a) * 2 ^ 32) by lia.
  by rewrite limb_carry by (lia || apply pow32_pos).
Qed.

Lemma op_mul32_spec a b32 :
  wf a → fits 32 b32 →
  wf (op_mul32 a b32) ∧ val (op_mul32 a b32) = (val a * b32) `mod` modulus.
Proof.
  intros [La Ha] Hb. unfold op_mul32.
  destruct (mul32_loop_wf 0 b32 a) as [H1 H2]. split; [split; congruence|].
  rewrite mul32_loop_val by (done || unfold fits; lia). rewrite La. f_equal. lia.
Qed.

Lemma mul_inner_wf carry aj pn b :
  words 32 pn →
  words 32 (mul_inner carry aj pn b) ∧ length (mul_inner carry aj pn b) = length pn.
Proof.
  intros Hp. revert carry b. induction Hp as [|p pn Hp Hpn IH]; intros carry [|y b];
    simpl; [done..|by split; [constructor|]|].
  destruct (IH (u64 (carry + p + aj * y) ≫ 32) b) as [H1 H2]. split; [|by f_equal].
  constructor; [|done]. rewrite land_ffffffff. by apply wrap_fits.
Qed.

Lemma mul_inner_val carry aj pn b :
  fits 32 carry → fits 32 aj → words 32 pn → words 32 b → (length pn ≤ length b)%nat →
  val (mul_inner carry aj pn b) =
    (carry + val pn + aj * val b) `mod` 2 ^ (Z.of_nat (length pn) * 32).
Proof.
  intros Hc Haj Hp. revert carry b Hc.
  induction Hp as [|p pn Hp Hpn IH]; intros carry b Hc Hb Hlen.
  { simpl. by rewrite Z.mod_1_r. }
  destruct Hb as [|y b Hy Hb]; simpl in Hlen; [lia|].
  cbn [mul_inner]. rewrite land_ffffffff.
  assert (fits 64 (carry + p + aj * y)) as Hn by (unfold fits in *; nia).
  rewrite (wrap_small 64) by done.
  rewrite !le_val_cons by (done || lia || by apply wrap_fits).
  rewrite IH by (done || lia || by apply shiftr32_fits).
  rewrite Z.shiftr_div_pow2 by lia. cbn [length]. rewrite pow32_S.
  replace (carry + (p + val pn * 2 ^ 32) + aj * (y + val b * 2 ^ 32))
    with (carry + p + aj * y + (val pn + aj * val b) * 2 ^ 32) by lia.
  rewrite limb_carry by (lia || apply pow32_pos). by rewrite Z.add_assoc.
Qed.

Lemma val_take_S_add a i :
  words 32 a → (i < length a)%nat →
  val (take (S i) a) = val (take i a) + nth i a 0 * 2 ^ (Z.of_nat i * 32).
Proof.
  intros Ha Hi. rewrite (take_S_r a i (nth i a 0)).
  - rewrite le_val_app_add by (lia || by apply Forall_take).
    rewrite length_take, Nat.min_l by lia. simpl. by rewrite Z.shiftl_0_l, Z.lor_0_r.
  - rewrite nth_lookup. destruct (lookup_lt_is_Some_2 a i Hi) as [x ->]. done.
Qed.

Lemma mul_step_spec a b pn j :
  wf a → wf b → wf pn → (j < WIDTH)%nat →
  wf (mul_step a b pn j) ∧
  val (mul_step a b pn j) =
    (val pn + nth j a 0 * 2 ^ (Z.of_nat j * 32) * val b) `mod` modulus.
Proof.
  intros [La Ha] [Lb Hb] [Lp Hp] Hj. unfold mul_step.
  assert (Ht : length (take j pn) = j) by (rewrite length_take; lia).
  destruct (mul_inner_wf 0 (nth j a 0) (drop j pn) b) as [H1 H2]; [by apply Forall_drop|].
  split.
  { split; [|by apply Forall_app; split; [apply Forall_take|]].
    rewrite length_app, H2, Ht, length_drop. lia. }
  pose proof (le_val_bound 32 (take j pn) ltac:(lia) ltac:(by apply Forall_take)) as Hb1.
  rewrite Ht in Hb1. unfold fits in Hb1.
  rewrite le_val_app_add by (lia || by apply Forall_take).
  rewrite mul_inner_val; [|by unfold fits| |by apply Forall_drop|done|rewrite length_drop; lia].
  2:{ apply words_nth; [lia|done]. }
  rewrite Ht, length_drop, Lp, Z.add_0_l.
  rewrite <-(take_drop j pn) at 3. rewrite le_val_app_add by (lia || by apply Forall_take).
  rewrite Ht. unfold BITS.
  replace (Z.of_nat WIDTH * 32) with (Z.of_nat j * 32 + Z.of_nat (WIDTH - j) * 32) by lia.
  rewrite Z.pow_add_r by lia. set (B := 2 ^ (Z.of_nat j * 32)) in *.
  replace (val (take j pn) + val (drop j pn) * B + nth j a 0 * B * val b)
    with (val (take j pn) + (val (drop j pn) + nth j a 0 * val b) * B) by lia.
  rewrite limb_carry by (lia || apply pow32_pos).
  by rewrite (Z.mod_small (val (take j pn))), (Z.div_small (val (take j pn))), Z.add_0_l by lia.
Qed.

Lemma op_mul_spec a b :
  wf a → wf b → wf (op_mul WIDTH a b) ∧ val (op_mul WIDTH a b) = (val a * val b) `mod` modulus.
Proof.
  intros Ha Hb. pose proof modulus_pos.
  assert (wf (op_mul WIDTH a b) ∧
    val (op_mul WIDTH a b) = (val (take WIDTH a) * val b) `mod` modulus) as [H1 H2].
  { apply (for_up_inv (λ j pn, wf pn ∧ val pn = (val (take j a) * val b) `mod` modulus)).
    - split; [apply zero_wf|]. by rewrite val_zero, take_0, Z.mul_0_l, Z.mod_0_l by lia.
    - intros j pn Hj [Hpn E]. destruct (mul_step_spec a b pn j) as [Hw Hv]; [done..|].
      split; [done|]. destruct Ha as [La Ha].
      rewrite Hv, E, val_take_S_add, Z.add_mod_idemp_l by (done || lia). f_equal. lia. }
  split; [done|]. rewrite H2. destruct Ha as [La _]. by rewrite <-La, firstn_all.
Qed.

(** ** Comparison *)

Lemma compare_rev_spec a b :
  length a = length b → words 32 a → words 32 b →
  compare_rev (rev a) (rev b) =
    match val a ?= val b with Lt => -1 | Eq => 0 | Gt => 1 end.
Proof.
  revert b. induction a as [|x a IH] using rev_ind; intros b Hlen Ha Hb.
  { destruct b; [|done]. done. }
  induction b as [|y b _] using rev_ind; [rewrite length_app in Hlen; simpl in Hlen; lia|].
  rewrite !length_app in Hlen. simpl in Hlen.
  apply Forall_app in Ha as [Ha Hx], Hb as [Hb Hy].
  apply Forall_singleton in Hx, Hy.
  rewrite !rev_app_distr. cbn [rev app compare_rev].
  rewrite IH by (done || lia). rewrite !le_val_app_add by (done || lia).
  pose proof (le_val_bound 32 a ltac:(lia) Ha) as Ba.
  pose proof (le_val_bound 32 b ltac:(lia) Hb) as Bb.
  replace (length b) with (length a) in * by lia. simpl (val [x]). simpl (val [y]).
  rewrite !Z.shiftl_0_l, !Z.lor_0_r.
  set (B := 2 ^ (Z.of_nat (length a) * 32)) in *. unfold fits in *.
  destruct (Z.ltb_spec x y); [|destruct (Z.ltb_spec y x)].
  - destruct (Z.compare_spec (val a + x * B) (val b + y * B)); nia.
  - destruct (Z.compare_spec (val a + x * B) (val b + y * B)); nia.
  - assert (x = y) as -> by lia. destruct (Z.compare_spec (val a) (val b)),
      (Z.compare_spec (val a + y * B) (val b + y * B)); lia.
Qed.

Lemma CompareTo_spec a b :
  wf a → wf b → CompareTo a b = match val a ?= val b with Lt => -1 | Eq => 0 | Gt => 1 end.
Proof. intros [La Ha] [Lb Hb]. apply compare_rev_spec; [congruence|done..]. Qed.

Lemma op_ge_spec a b : wf a → wf b → op_ge a b = (val b <=? val a).
Proof.
  intros. unfold op_ge. rewrite CompareTo_spec by done.
  destruct (Z.compare_spec (val a) (val b)); lia.
Qed.

Lemma op_gt_spec a b : wf a → wf b → op_gt a b = (val b <? val a).
Proof.
  intros. unfold op_gt. rewrite CompareTo_spec by done.
  destruct (Z.compare_spec (val a) (val b)); lia.
Qed.

Lemma op_lt_spec a b : wf a → wf b → op_lt a b = (val a <? val b).
Proof.
  intros. unfold op_lt. rewrite CompareTo_spec by done.
  destruct (Z.compare_spec (val a) (val b)); lia.
Qed.

Lemma op_le_spec a b : wf a → wf b → op_le a b = (val a <=? val b).
Proof.
  intros. unfold op_le. rewrite CompareTo_spec by done.
  destruct (Z.compare_spec (val a) (val b)); lia.
Qed.

(** ** Bit length *)

Lemma top_bit_spec x b :
  0 < x < 2 ^ (Z.of_nat b + 1) → top_bit x b = Z.log2 x.
Proof.
  induction b as [|b IH]; intros [H1 H2].
  { assert (x = 1) as -> by (simpl in H2; lia). done. }
  cbn [top_bit]. destruct (Z.testbit x (Z.of_nat (S b))) eqn:E.
  - symmetry. apply Z.log2_unique; [lia|]. split; [|by rewrite <-Z.add_1_r].
    destruct (decide (2 ^ Z.of_nat (S b) ≤ x)) as [|Hx]; [done|].
    rewrite (fits_testbit (Z.of_nat (S b))) in E; [done|lia|unfold fits; lia].
  - apply IH. split; [done|]. replace (Z.of_nat b + 1) with (Z.of_nat (S b)) by lia.
    apply (Z.bounded_iff_bits_nonneg (Z.of_nat (S b))); [lia..|]. intros i Hi.
    destruct (decide (i = Z.of_nat (S b))) as [->|]; [done|].
    apply (fits_testbit (Z.of_nat (S b) + 1)); [lia|unfold fits; lia].
Qed.

Lemma bits_from_spec a pos :
  words 32 a → (pos ≤ length a)%nat → bits_from a pos = bitlen (val (take pos a)).
Proof.
  intros Ha. induction pos as [|p IH]; intros Hp; [done|]. cbn [bits_from].
  rewrite val_take_S_add by (done || lia).
  pose proof (le_val_bound 32 (take p a) ltac:(lia) ltac:(by apply Forall_take)) as Hb.
  rewrite length_take, Nat.min_l in Hb by lia.
  pose proof (words_nth 32 a p ltac:(lia) Ha) as Hx. unfold fits in *.
  pose proof (pow32_pos p). destruct (Z.eqb_spec (nth p a 0) 0) as [E|E].
  - rewrite E, Z.mul_0_l, Z.add_0_r. apply IH. lia.
  - set (x := nth p a 0) in *. set (B := 2 ^ (Z.of_nat p * 32)) in *.
    unfold bitlen. rewrite top_bit_spec by (change (Z.of_nat 31 + 1) with 32; lia).
    destruct (Z.eqb_spec (val (take p a) + x * B) 0); [nia|].
    assert (0 ≤ Z.log2 x) by apply Z.log2_nonneg.
    destruct (Z.log2_spec x ltac:(lia)) as [L1 L2].
    rewrite (Z.log2_unique (val (take p a) + x * B) (32 * Z.of_nat p + Z.log2 x)); [lia|lia|].
    rewrite <-Z.add_succ_r, !Z.pow_add_r by lia.
    replace (2 ^ (32 * Z.of_nat p)) with B by (subst B; f_equal; lia). nia.
Qed.

Lemma bits_spec a : wf a → bits WIDTH a = bitlen (val a).
Proof.
  intros [La Ha]. unfold bits. rewrite bits_from_spec by (done || lia).
  by rewrite <-La, firstn_all.
Qed.

(** ** Division *)

Lemma set_quotient_bit pn q s :
  wf pn → (s < WIDTH * 32)%nat → val pn = q * 2 ^ (Z.of_nat s + 1) →
  wf (or_at pn (s / 32) (u32 (1 ≪ Z.of_nat (s mod 32)))) ∧
  val (or_at pn (s / 32) (u32 (1 ≪ Z.of_nat (s mod 32)))) =
    q * 2 ^ (Z.of_nat s + 1) + 2 ^ Z.of_nat s.
Proof.
  intros [Lp Hp] Hs E. pose proof (Nat.mod_upper_bound s 32 ltac:(lia)) as Hm.
  pose proof (Nat.div_mod_eq s 32) as Hd.
  assert (s / 32 < WIDTH)%nat as Hj by (apply Nat.Div0.div_lt_upper_bound; lia).
  assert (u32 (1 ≪ Z.of_nat (s mod 32)) = 2 ^ Z.of_nat (s mod 32)) as ->.
  { rewrite Z.shiftl_1_l. apply wrap_small. split; [apply Z.pow_nonneg; lia|].
    apply Z.pow_lt_mono_r; lia. }
  split; [split; [by rewrite length_or_at|]|].
  { apply words_or_at; [lia|done|]. split; [apply Z.pow_nonneg; lia|].
    apply Z.pow_lt_mono_r; lia. }
  rewrite le_val_or_at by (done || lia). rewrite E, <-(Z.shiftl_mul_pow2 q) by lia.
  rewrite (Z.shiftl_mul_pow2 (2 ^ _)), <-Z.pow_add_r by lia.
  replace (Z.of_nat (s mod 32) + Z.of_nat (s / 32) * 32) with (Z.of_nat s) by lia.
  rewrite Z.lor_comm, lor_shiftl_add; [|lia|].
  { rewrite Z.shiftl_mul_pow2 by lia. lia. }
  split; [apply Z.pow_nonneg; lia|]. apply Z.pow_lt_mono_r; lia.
Qed.

Lemma div_loop_spec D s num div pn :
  wf num → wf div → wf pn → (s < WIDTH * 32)%nat →
  val div = D * 2 ^ Z.of_nat s → 0 < D → val num < D * 2 ^ (Z.of_nat s + 1) →
  (∃ q, val pn = q * 2 ^ (Z.of_nat s + 1)) →
  wf (div_loop WIDTH s num div pn) ∧
  val (div_loop WIDTH s num div pn) = val pn + val num / D.
Proof.
  revert num div pn. induction s as [|s IH]; intros num div pn Hn Hd Hp Hs Ediv HD Hnum [q Eq];
    cbn [div_loop]; rewrite op_ge_spec by done;
    pose proof (wf_val_bound _ Hn) as Bn; pose proof (wf_val_bound _ Hd) as Bd;
    destruct (set_quotient_bit pn q _ Hp Hs Eq) as [Hp' Ep'].
  - destruct (Z.leb_spec (val div) (val num)).
    + split; [done|]. rewrite Ep', Eq. f_equal.
      change (2 ^ Z.of_nat 0) with 1 in *. change (2 ^ (Z.of_nat 0 + 1)) with 2 in *.
      apply Z.div_unique with (val num - D); lia.
    + split; [done|]. change (2 ^ Z.of_nat 0) with 1 in *. rewrite Z.div_small; lia.
  - assert (H2 : 2 ^ Z.of_nat (S s) = 2 * 2 ^ Z.of_nat s).
    { rewrite <-Z.pow_succ_r by lia. f_equal. lia. }
    assert (H3 : 2 ^ (Z.of_nat (S s) + 1) = 2 * 2 ^ (Z.of_nat s + 1)).
    { rewrite <-Z.pow_succ_r by lia. f_equal. lia. }
    assert (H4 : 2 ^ (Z.of_nat s + 1) = 2 * 2 ^ Z.of_nat s).
    { rewrite <-Z.pow_succ_r by lia. f_equal. }
    destruct (op_shr_spec div 1 Hd ltac:(lia)) as [Hdw Hdv].
    rewrite Ediv, H2, Z.pow_1_r in Hdv.
    replace (D * (2 * 2 ^ Z.of_nat s)) with (D * 2 ^ Z.of_nat s * 2) in Hdv by lia.
    rewrite Z.div_mul in Hdv by lia.
    destruct (Z.leb_spec (val div) (val num)).
    + assert (val (op_sub num div) = val num - val div) as Es.
      { rewrite op_sub_val, Z.mod_small by (done || lia). done. }
      destruct (IH (op_sub num div) (op_shr WIDTH div 1)
        (or_at pn (S s / 32) (u32 (1 ≪ Z.of_nat (S s mod 32))))) as [Hw ->];
        auto using op_sub_wf; [lia|rewrite Es; lia| |].
      { exists (2 * q + 1). rewrite Ep'. lia. }
      split; [done|]. rewrite Ep', Es, Eq, Ediv.
      replace (val num - D * 2 ^ Z.of_nat (S s))
        with (val num + (- 2 ^ Z.of_nat (S s)) * D) by lia.
      rewrite Z.div_add by lia. lia.
    + destruct (IH num (op_shr WIDTH div 1) pn) as [Hw ->]; auto; [lia|lia|].
      exists (2 * q). lia.
Qed.

Lemma op_div_spec a b :
  wf a → wf b →
  (val b = 0 ∧ op_div WIDTH a b = None) ∨
  (0 < val b ∧ ∃ q, op_div WIDTH a b = Some q ∧ wf q ∧ val q = val a / val b).
Proof.
  intros Ha Hb. unfold op_div. rewrite !bits_spec by done.
  pose proof (wf_val_bound _ Ha) as Ba. pose proof (wf_val_bound _ Hb) as Bb.
  destruct (decide (val b = 0)) as [E|E]; [left; by rewrite E|right].
  split; [lia|]. pose proof (bitlen_pos (val b) ltac:(lia)) as Pb.
  pose proof (bitlen_spec (val b) ltac:(lia)) as [Lb Ub].
  destruct (Z.eqb_spec (bitlen (val b)) 0); [lia|].
  destruct (Z.ltb_spec (bitlen (val a)) (bitlen (val b))) as [Hlt|Hge].
  { exists (zero WIDTH). split; [done|]. split; [apply zero_wf|]. rewrite val_zero, Z.div_small; [done|].
    split; [lia|]. destruct (decide (val a = 0)); [lia|].
    pose proof (bitlen_spec (val a) ltac:(lia)) as [_ Ua].
    apply Z.lt_le_trans with (2 ^ (bitlen (val b) - 1)); [|done].
    apply Z.lt_le_trans with (2 ^ bitlen (val a)); [done|]. apply Z.pow_le_mono_r; lia. }
  assert (0 < val a) as Pa.
  { destruct (decide (val a = 0)) as [Ea|]; [|lia]. rewrite Ea in Hge. unfold bitlen at 2 in Hge. simpl in Hge. lia. }
  pose proof (bitlen_spec (val a) Pa) as [La' Ua].
  assert (bitlen (val a) ≤ BITS WIDTH) as HB by (apply bitlen_le; unfold BITS in *; lia).
  set (s := bitlen (val a) - bitlen (val b)) in *.
  destruct (op_shl_spec b s Hb ltac:(lia)) as [Hsw Hsv].
  assert (val b * 2 ^ s < modulus) as Hlt.
  { apply Z.lt_le_trans with (2 ^ bitlen (val b) * 2 ^ s).
    - apply Z.mul_lt_mono_pos_r; [apply Z.pow_pos_nonneg; lia|done].
    - rewrite <-Z.pow_add_r by lia. apply Z.pow_le_mono_r; lia. }
  rewrite Z.mod_small in Hsv by (split; [apply Z.mul_nonneg_nonneg; [lia|apply Z.pow_nonneg; lia]|done]).
  destruct (div_loop_spec (val b) (Z.to_nat s) a (op_shl WIDTH b s) (zero WIDTH)) as [Hw Hv];
    auto using zero_wf.
  - unfold BITS in HB. lia.
  - rewrite Hsv. by rewrite Z2Nat.id by lia.
  - lia.
  - rewrite Z2Nat.id by lia. apply Z.lt_le_trans with (2 ^ bitlen (val a)); [done|].
    replace (bitlen (val a)) with (bitlen (val b) - 1 + (s + 1)) by lia.
    rewrite Z.pow_add_r by lia. apply Z.mul_le_mono_nonneg_r; [apply Z.pow_nonneg; lia|done].
  - exists 0. by rewrite val_zero.
  - eexists. split; [done|]. split; [done|]. rewrite Hv, val_zero. lia.
Qed.

(** ** Tests against a 64-bit constant *)

Lemma forallb_zero_val a : words 32 a → forallb (λ x, x =? 0) a = (val a =? 0).
Proof.
  induction 1 as [|x a Hx Ha IH]; [done|]. rewrite le_val_cons by (done || lia).
  cbn [forallb]. rewrite IH. pose proof (le_val_bound 32 a ltac:(lia) Ha) as [? ?].
  unfold fits in Hx. destruct (Z.eqb_spec x 0), (Z.eqb_spec (val a) 0); simpl; symmetry; lia.
Qed.

Lemma EqualTo_spec a b : (2 ≤ WIDTH)%nat → wf a → fits 64 b → EqualTo a b = (val a =? b).
Proof.
  intros HW [La Ha] Hb. destruct a as [|x [|y r]]; simpl in La; try lia.
  unfold EqualTo. rewrite land_ffffffff. cbn [drop nth]. rewrite drop_0.
  apply Forall_cons in Ha as [Hx Ha]. apply Forall_cons in Ha as [Hy Hr].
  rewrite forallb_zero_val by done. rewrite !le_val_cons by (done || lia).
  pose proof (le_val_bound 32 r ltac:(lia) Hr) as [Hr1 _].
  pose proof (Z.div_mod b (2 ^ 32) ltac:(lia)) as E.
  pose proof (Z.mod_pos_bound b (2 ^ 32) ltac:(lia)).
  pose proof (shiftr32_fits b Hb) as Hq.
  rewrite Z.shiftr_div_pow2 in * by lia. unfold fits, wrap in *. lia.
Qed.

Lemma is_zero_spec a : wf a → is_zero a = (val a =? 0).
Proof. intros [_ Ha]. by apply forallb_zero_val. Qed.

Lemma GetLow64_spec a : (2 ≤ WIDTH)%nat → wf a → GetLow64 a = val a `mod` 2 ^ 64.
Proof.
  intros HW [La Ha]. destruct a as [|x [|y r]]; simpl in La; try lia.
  apply Forall_cons in Ha as [Hx Ha]. apply Forall_cons in Ha as [Hy Hr].
  unfold GetLow64. cbn [nth]. rewrite wrap_small.
  2:{ unfold fits in *. rewrite Z.shiftl_mul_pow2 by lia. lia. }
  rewrite lor_shiftl_add by (done || lia). rewrite !le_val_cons by (done || lia).
  apply Z.mod_unique with (val r); unfold fits in *; lia.
Qed.

(** ** Decrement and the bitwise operators *)

Lemma decr_wf' a : words 32 a → words 32 (decr a) ∧ length (decr a) = length a.
Proof.
  induction 1 as [|x a Hx Ha [IH1 IH2]]; [done|]. cbn [decr].
  destruct (u32 (x - 1) =? u32 (-1)); split; simpl; try congruence;
    (constructor; [by apply wrap_fits|done]).
Qed.

Lemma decr_val' a :
  words 32 a → val (decr a) = (val a - 1) `mod` 2 ^ (Z.of_nat (length a) * 32).
Proof.
  induction 1 as [|x a Hx Ha IH]; [done|]. cbn [decr length].
  pose proof (le_val_bound 32 a ltac:(lia) Ha) as [Hb1 Hb2].
  rewrite pow32_S. pose proof (pow32_pos (length a)).
  set (M := 2 ^ (Z.of_nat (length a) * 32)) in *.
  change (u32 (-1)) with (2 ^ 32 - 1).
  rewrite le_val_cons by (done || lia). unfold fits in Hx.
  destruct (decide (x = 0)) as [->|Hx0].
  - change (u32 (0 - 1)) with (2 ^ 32 - 1). rewrite Z.eqb_refl.
    rewrite le_val_cons by (lia || unfold fits; lia). rewrite IH. fold M.
    replace (0 + val a * 2 ^ 32 - 1) with (-1 + val a * 2 ^ 32) by lia.
    rewrite limb_carry by lia. change (-1 `mod` 2 ^ 32) with (2 ^ 32 - 1).
    change (-1 / 2 ^ 32) with (-1). do 3 f_equal. lia.
  - assert (u32 (x - 1) = x - 1) as -> by (apply wrap_small; unfold fits; lia).
    destruct (Z.eqb_spec (x - 1) (2 ^ 32 - 1)); [lia|].
    rewrite le_val_cons by (lia || unfold fits; lia). rewrite Z.mod_small by nia. lia.
Qed.

Lemma decr_spec a : wf a → wf (decr a) ∧ val (decr a) = (val a - 1) `mod` modulus.
Proof.
  intros [La Ha]. destruct (decr_wf' a Ha). rewrite decr_val' by done.
  by split; [split; congruence|rewrite La].
Qed.

Lemma zip_bitwise (f : Z → Z → Z) (g : bool → bool → bool) a b :
  (∀ x y i, Z.testbit (f x y) i = g (Z.testbit x i) (Z.testbit y i)) →
  g false false = false → length a = length b → words 32 a → words 32 b →
  val (zip_with f a b) = f (val a) (val b).
Proof.
  intros Hf Hg Hlen Ha. revert b Hlen. induction Ha as [|x a Hx Ha IH]; intros [|y b] Hlen Hb;
    try done; simpl.
  { apply Z.bits_inj'. intros i _. by rewrite Hf, !Z.bits_0, Hg. }
  apply Forall_cons in Hb as [Hy Hb]. rewrite IH by (simpl in Hlen; done || lia).
  apply Z.bits_inj'. intros i Hi. rewrite Hf, !Z.lor_spec, !Z.shiftl_spec, !Hf by done.
  destruct (decide (i < 32)).
  - rewrite !(Z.testbit_neg_r _ (i - 32)) by lia. by rewrite Hg, !orb_false_r.
  - rewrite !(fits_testbit 32) by (done || lia). by rewrite Hg.
Qed.

Lemma op_xor_val a b : wf a → wf b → val (op_xor a b) = Z.lxor (val a) (val b).
Proof.
  intros [La Ha] [Lb Hb]. apply (zip_bitwise _ xorb); [|done|congruence|done..].
  intros. apply Z.lxor_spec.
Qed.

Lemma op_and_val a b : wf a → wf b → val (op_and a b) = Z.land (val a) (val b).
Proof.
  intros [La Ha] [Lb Hb]. apply (zip_bitwise _ andb); [|done|congruence|done..].
  intros. apply Z.land_spec.
Qed.

Lemma op_or_val a b : wf a → wf b → val (op_or a b) = Z.lor (val a) (val b).
Proof.
  intros [La Ha] [Lb Hb]. apply (zip_bitwise _ orb); [|done|congruence|done..].
  intros. apply Z.lor_spec.
Qed.


(** ** Properties *)

(** C22: the limb-by-limb operators of [base_uint] keep the limb invariant and
    compute addition, subtraction, negation, multiplication (by a number and by
    a 32-bit word) and both shifts modulo 2^BITS, for every width. *)
Theorem base_uint_arithmetic a b b32 s :
  wf a → wf b → fits 32 b32 → 0 ≤ s →
  (wf (op_add a b) ∧ val (op_add a b) = (val a + val b) `mod` modulus) ∧
  (wf (op_sub a b) ∧ val (op_sub a b) = (val a - val b) `mod` modulus) ∧
  (wf (op_neg a) ∧ val (op_neg a) = (- val a) `mod` modulus) ∧
  (wf (op_mul WIDTH a b) ∧ val (op_mul WIDTH a b) = (val a * val b) `mod` modulus) ∧
  (wf (op_mul32 a b32) ∧ val (op_mul32 a b32) = (val a * b32) `mod` modulus) ∧
  (wf (op_shl WIDTH a s) ∧ val (op_shl WIDTH a s) = (val a * 2 ^ s) `mod` modulus) ∧
  (wf (op_shr WIDTH a s) ∧ val (op_shr WIDTH a s) = val a / 2 ^ s) ∧
  (wf (incr a) ∧ val (incr a) = (val a + 1) `mod` modulus) ∧
  (wf (decr a) ∧ val (decr a) = (val a - 1) `mod` modulus).
Proof.
  intros. split_and!; auto using op_add_wf, op_add_val, op_sub_wf, op_sub_val, op_neg_wf,
    op_neg_val, incr_wf, incr_val;
    first [by apply op_mul_spec|by apply op_mul32_spec|by apply op_shl_spec
          |by apply op_shr_spec|by apply decr_spec].
Qed.

(** C21: the shift-and-subtract long division throws exactly when the divisor is
    zero, and otherwise returns the floor of the quotient. *)
Theorem base_uint_division a b :
  wf a → wf b →
  (op_div WIDTH a b = None ↔ val b = 0) ∧
  (val b ≠ 0 → ∃ q, op_div WIDTH a b = Some q ∧ wf q ∧ val q = val a / val b).
Proof.
  intros Ha Hb. destruct (op_div_spec a b Ha Hb) as [[E1 E2]|(H & q & E & Hq)]; split.
  - by rewrite E1, E2.
  - done.
  - rewrite E. split; [done|lia].
  - intros _. by exists q.
Qed.

(** the comparison operators and [bits] decide the order and the bit length
    of the numbers, the limbs being compared from the top down; [operator!] and
    [EqualTo] decide equality with zero and with a 64-bit constant. *)
Theorem base_uint_comparison a b n :
  (2 ≤ WIDTH)%nat → wf a → wf b → fits 64 n →
  op_lt a b = (val a <? val b) ∧ op_le a b = (val a <=? val b) ∧
  op_gt a b = (val b <? val a) ∧ op_ge a b = (val b <=? val a) ∧
  EqualTo a n = (val a =? n) ∧ is_zero a = (val a =? 0) ∧
  bits WIDTH a = (if val a =? 0 then 0 else Z.log2 (val a) + 1).
Proof.
  intros. split_and!; auto using op_lt_spec, op_le_spec, op_gt_spec, op_ge_spec,
    EqualTo_spec, is_zero_spec. by apply bits_spec.
Qed.
End base_uint_facts.

Definition demo_a : list Z := [0xffffffff; 5; 0; 0; 0; 0; 0; 0x80000000].
Definition demo_b : list Z := [7; 0xffffffff; 1; 0; 0; 0; 0; 0].

Lemma demo_a_wf : wf 8 demo_a.
Proof. split; [done|]. repeat constructor; unfold fits; lia. Qed.

Lemma demo_b_wf : wf 8 demo_b.
Proof. split; [done|]. repeat constructor; unfold fits; lia. Qed.

Lemma base_uint_arithmetic_witness :
  op_mul 8 demo_a demo_b ≠ zero 8 ∧
  le_val 32 (op_mul 8 demo_a demo_b) = (le_val 32 demo_a * le_val 32 demo_b) `mod` 2 ^ BITS 8.
Proof.
  split; [by vm_compute|].
  apply (base_uint_arithmetic 8 demo_a demo_b 3 40);
    [exact demo_a_wf|exact demo_b_wf|unfold fits; lia|lia].
Defined.

Lemma base_uint_division_witness :
  ∃ q, op_div 8 demo_a demo_b = Some q ∧ wf 8 q ∧
    le_val 32 q = le_val 32 demo_a / le_val 32 demo_b.
Proof.
  apply (base_uint_division 8 demo_a demo_b); [exact demo_a_wf|exact demo_b_wf|by vm_compute].
Defined.

Lemma base_uint_comparison_witness :
  op_lt demo_b demo_a = true ∧ op_lt demo_b demo_a = (le_val 32 demo_b <? le_val 32 demo_a).
Proof.
  split; [reflexivity|].
  apply (base_uint_comparison 8 demo_b demo_a 12);
    [lia|exact demo_b_wf|exact demo_a_wf|unfold fits; lia].
Defined.
