(* ===== verification/CompactFacts.v ===== *)
(** The "compact" floating point encoding of difficulty targets
    ([arith_uint256::SetCompact] / [GetCompact]) and the byte conversions
    [ArithToUint256] / [UintToArith256]. *)

From S2P Require Import Prelude CryptoCommon ArithUint256 ArithFacts.
Import BaseUint Arith256.

Abbreviation val := (le_val 32).
Abbreviation wf256 := (wf 8).

(** The number a compact word stands for, before the 256-bit truncation:
    mantissa * 256^(exponent - 3), rounded down. *)
Definition compact_magnitude (c : Z) : Z :=
  (c `mod` 2 ^ 23) * 256 ^ (c / 2 ^ 24) / 256 ^ 3.

Lemma compact_magnitude_small c :
  fits 32 c → c / 2 ^ 24 ≤ 3 →
  compact_magnitude c = (c `mod` 2 ^ 23) / 2 ^ (8 * (3 - c / 2 ^ 24)).
Proof.
  intros Hc He. unfold compact_magnitude, fits in *.
  assert (0 ≤ c / 2 ^ 24) by (apply Z.div_pos; lia).
  set (e := c / 2 ^ 24) in *. set (m := c `mod` 2 ^ 23).
  rewrite <-(Z.div_mul_cancel_r m _ (256 ^ e)) by (apply Z.pow_nonzero; lia).
  f_equal. change 256 with (2 ^ 8). rewrite <-!Z.pow_mul_r, <-Z.pow_add_r by lia.
  f_equal. lia.
Qed.

Lemma compact_magnitude_large c :
  fits 32 c → 3 ≤ c / 2 ^ 24 →
  compact_magnitude c = (c `mod` 2 ^ 23) * 2 ^ (8 * (c / 2 ^ 24 - 3)).
Proof.
  intros Hc He. unfold compact_magnitude, fits in *. set (e := c / 2 ^ 24) in *.
  replace (256 ^ e) with (2 ^ (8 * (e - 3)) * 256 ^ 3).
  - rewrite Z.mul_assoc, Z.div_mul by lia. done.
  - change 256 with (2 ^ 8). rewrite <-!Z.pow_mul_r, <-Z.pow_add_r by lia. f_equal. lia.
Qed.

Lemma land_7fffff c : Z.land c 0x007fffff = c `mod` 2 ^ 23.
Proof. change 0x007fffff with (Z.ones 23). by apply Z.land_ones. Qed.

Lemma land_800000 c : negb (Z.land c 0x00800000 =? 0) = Z.testbit c 23.
Proof. by apply (land_pow2_test c 23). Qed.

(** A product with a power of two compared with a larger power. *)
Lemma pow2_mul_leb m a b : 0 ≤ a ≤ b → (2 ^ b <=? m * 2 ^ a) = (2 ^ (b - a) <=? m).
Proof.
  intros. replace (2 ^ b) with (2 ^ (b - a) * 2 ^ a).
  - assert (0 < 2 ^ a) as Ha by (apply Z.pow_pos_nonneg; lia).
    revert Ha. generalize (2 ^ (b - a)) (2 ^ a). clear. intros P Q HQ.
    destruct (Z.leb_spec (P * Q) (m * Q)), (Z.leb_spec P m); nia || done.
  - rewrite <-Z.pow_add_r by lia. f_equal. lia.
Qed.

Lemma overflow_test m e :
  0 < m < 2 ^ 23 → 3 < e →
  ((34 <? e) || (0xff <? m) && (33 <? e) || (0xffff <? m) && (32 <? e)) =
  (2 ^ 256 <=? m * 2 ^ (8 * (e - 3))).
Proof.
  intros Hm He. destruct (decide (34 < e)) as [H|H].
  { assert (2 ^ 256 ≤ 2 ^ (8 * (e - 3))) as HP by (apply Z.pow_le_mono_r; lia).
    assert (0 < 2 ^ 256) as HP0 by done.
    revert HP HP0. generalize (2 ^ 256) (2 ^ (8 * (e - 3))). intros P Q HP HP0.
    replace (34 <? e) with true by lia. symmetry. apply Z.leb_le. nia. }
  replace (34 <? e) with false by lia. rewrite pow2_mul_leb by lia.
  destruct (decide (e = 34)) as [->|]; [|destruct (decide (e = 33)) as [->|]].
  - change (2 ^ (256 - 8 * (34 - 3))) with 256. lia.
  - change (2 ^ (256 - 8 * (33 - 3))) with 65536. lia.
  - assert (2 ^ 24 ≤ 2 ^ (256 - 8 * (e - 3))) as HP by (apply Z.pow_le_mono_r; lia).
    revert HP. generalize (2 ^ (256 - 8 * (e - 3))). intros P HP. lia.
Qed.

(** [SetCompact]: the number is the magnitude truncated to 256 bits, the
    overflow flag is exact, the sign flag is bit 23 of a non-zero number. *)
Lemma SetCompact_correct c :
  fits 32 c →
  wf256 (cr_value (SetCompact c)) ∧
  val (cr_value (SetCompact c)) = compact_magnitude c `mod` 2 ^ 256 ∧
  cr_overflow (SetCompact c) = (2 ^ 256 <=? compact_magnitude c) ∧
  cr_negative (SetCompact c) = Z.testbit c 23 && negb (compact_magnitude c =? 0).
Proof.
  intros Hc. unfold SetCompact. rewrite land_7fffff, land_800000, Z.shiftr_div_pow2 by lia.
  pose proof (Z.mod_pos_bound c (2 ^ 23) ltac:(lia)) as Hm.
  assert (0 ≤ c / 2 ^ 24 < 256) as He.
  { unfold fits in Hc. split; [apply Z.div_pos; lia|apply Z.div_lt_upper_bound; lia]. }
  pose proof (compact_magnitude_small c Hc) as Hsm.
  pose proof (compact_magnitude_large c Hc) as Hlg.
  set (e := c / 2 ^ 24) in *. set (m := c `mod` 2 ^ 23) in *.
  destruct (Z.leb_spec e 3) as [Hle|Hgt]; cbn [cr_value cr_overflow cr_negative].
  - rewrite Hsm by done. rewrite Z.shiftr_div_pow2 by lia.
    set (q := m / 2 ^ (8 * (3 - e))).
    assert (0 ≤ q ≤ m) as Hq.
    { subst q. split; [apply Z.div_pos; [lia|apply Z.pow_pos_nonneg; lia]|].
      apply Z.div_le_upper_bound; [apply Z.pow_pos_nonneg; lia|].
      rewrite <-(Z.mul_1_l m) at 1. apply Z.mul_le_mono_nonneg_r; [lia|].
      change 1 with (2 ^ 0). apply Z.pow_le_mono_r; lia. }
    split_and!.
    + apply (of_u64_wf 8); lia.
    + rewrite (val_of_u64 8) by (lia || unfold fits; lia). rewrite Z.mod_small; lia.
    + destruct (Z.eqb_spec q 0); simpl; lia.
    + apply andb_comm.
  - rewrite Hlg by lia.
    destruct (op_shl_spec 8 (of_u64 8 m) (8 * (e - 3))) as [Hw Hv];
      [apply (of_u64_wf 8); lia|lia|].
    rewrite (val_of_u64 8) in Hv by (lia || unfold fits; lia).
    assert (0 < 2 ^ (8 * (e - 3))) by (apply Z.pow_pos_nonneg; lia).
    split_and!; [done|done| |].
    + destruct (Z.eqb_spec m 0) as [->|Hm0]; [rewrite Z.mul_0_l; done|].
      by rewrite <-overflow_test by lia.
    + rewrite andb_comm. do 2 f_equal.
      apply eq_true_iff_eq. rewrite !Z.eqb_eq, Z.mul_eq_0. lia.
Qed.

(** ** Number-level description of [GetCompact] *)

(** Bytes needed for [v], and the three-byte mantissa below that size. *)
Definition csize (v : Z) : Z := (bitlen v + 7) / 8.
Definition mantissa (v : Z) : Z :=
  if csize v <=? 3 then v * 2 ^ (8 * (3 - csize v)) else v / 2 ^ (8 * (csize v - 3)).
(** Mantissa and size after the sign-bit adjustment. *)
Definition compact_parts (v : Z) : Z * Z :=
  if 2 ^ 23 <=? mantissa v then (mantissa v / 256, csize v + 1) else (mantissa v, csize v).

Lemma csize_spec v :
  0 < v → 1 ≤ csize v ∧ 2 ^ (8 * (csize v - 1)) ≤ v < 2 ^ (8 * csize v).
Proof.
  intros Hv. pose proof (bitlen_pos v Hv) as Hp. destruct (bitlen_spec v Hv) as [Hl Hu].
  unfold csize. pose proof (Z.div_mod (bitlen v + 7) 8 ltac:(lia)) as Hd.
  pose proof (Z.mod_pos_bound (bitlen v + 7) 8 ltac:(lia)) as Hm.
  set (s := (bitlen v + 7) / 8) in *. split; [lia|]. split.
  - etrans; [|exact Hl]. apply Z.pow_le_mono_r; lia.
  - eapply Z.lt_le_trans; [exact Hu|]. apply Z.pow_le_mono_r; lia.
Qed.

Lemma csize_unique v s :
  1 ≤ s → 2 ^ (8 * (s - 1)) ≤ v < 2 ^ (8 * s) → csize v = s.
Proof.
  intros Hs [Hl Hu]. assert (0 < v).
  { eapply Z.lt_le_trans; [|exact Hl]. apply Z.pow_pos_nonneg; lia. }
  destruct (csize_spec v) as (H1 & H2 & H3); [done|].
  assert (8 * (csize v - 1) < 8 * s).
  { apply (Z.pow_lt_mono_r_iff 2); [lia..|]. eapply Z.le_lt_trans; eassumption. }
  assert (8 * (s - 1) < 8 * csize v).
  { apply (Z.pow_lt_mono_r_iff 2); [lia..|]. eapply Z.le_lt_trans; eassumption. }
  lia.
Qed.

Lemma csize_bound v : 0 ≤ v < 2 ^ 256 → 0 ≤ csize v ≤ 32.
Proof.
  intros Hv. pose proof (bitlen_nonneg v). pose proof (bitlen_le v 256 ltac:(lia) Hv).
  unfold csize. split; [apply Z.div_pos; lia|].
  apply Z.lt_succ_r, Z.div_lt_upper_bound; lia.
Qed.

Lemma csize_0 v : 0 ≤ v → csize v = 0 → v = 0.
Proof.
  intros ? E. destruct (decide (v = 0)); [done|].
  destruct (csize_spec v) as (? & _); lia.
Qed.

Lemma mantissa_bound v : 0 < v → 2 ^ 16 ≤ mantissa v < 2 ^ 24.
Proof.
  intros Hv. destruct (csize_spec v Hv) as (H1 & H2 & H3). unfold mantissa.
  set (s := csize v) in *. destruct (Z.leb_spec s 3).
  - assert (2 ^ 16 = 2 ^ (8 * (s - 1)) * 2 ^ (8 * (3 - s))) as ->
      by (rewrite <-Z.pow_add_r by lia; f_equal; lia).
    assert (2 ^ 24 = 2 ^ (8 * s) * 2 ^ (8 * (3 - s))) as ->
      by (rewrite <-Z.pow_add_r by lia; f_equal; lia).
    assert (0 < 2 ^ (8 * (3 - s))) by (apply Z.pow_pos_nonneg; lia).
    split; [apply Z.mul_le_mono_nonneg_r; lia|apply Z.mul_lt_mono_pos_r; lia].
  - assert (0 < 2 ^ (8 * (s - 3))) by (apply Z.pow_pos_nonneg; lia). split.
    + apply Z.div_le_lower_bound; [done|]. rewrite <-Z.pow_add_r by lia.
      etrans; [|exact H2]. apply Z.pow_le_mono_r; lia.
    + apply Z.div_lt_upper_bound; [done|]. rewrite <-Z.pow_add_r by lia.
      eapply Z.lt_le_trans; [exact H3|]. apply Z.pow_le_mono_r; lia.
Qed.

Lemma mantissa_0 : mantissa 0 = 0.
Proof. done. Qed.

Lemma testbit23 m : 0 ≤ m < 2 ^ 24 → Z.testbit m 23 = (2 ^ 23 <=? m).
Proof. intros. apply testbit_top; lia. Qed.

Lemma compact_parts_bound v :
  0 ≤ v < 2 ^ 256 →
  0 ≤ fst (compact_parts v) < 2 ^ 23 ∧ 0 ≤ snd (compact_parts v) ≤ 33.
Proof.
  intros Hv. pose proof (csize_bound v Hv) as Hs. unfold compact_parts.
  assert (0 ≤ mantissa v < 2 ^ 24) as Hm.
  { destruct (decide (v = 0)) as [->|]; [by rewrite mantissa_0|].
    pose proof (mantissa_bound v). lia. }
  destruct (Z.leb_spec (2 ^ 23) (mantissa v)); simpl; [|lia].
  split; [|lia]. split; [apply Z.div_pos; lia|apply Z.div_lt_upper_bound; lia].
Qed.

(** [GetCompact] never trips an assertion and packs [compact_parts]. *)
Lemma GetCompact_eq a neg :
  wf256 a →
  GetCompact a neg =
    let '(m, s) := compact_parts (val a) in
    Some (m + (if neg && negb (m =? 0) then 2 ^ 23 else 0) + s * 2 ^ 24).
Proof.
  intros Ha. pose proof (wf_val_bound 8 a Ha) as Hv.
  change (2 ^ BITS 8) with (2 ^ 256) in Hv.
  unfold GetCompact. rewrite (bits_spec 8) by (lia || done). fold (csize (val a)).
  pose proof (csize_bound _ Hv) as Hs. pose proof (compact_parts_bound _ Hv) as Hp.
  assert (0 ≤ mantissa (val a) < 2 ^ 24) as Hm.
  { destruct (decide (val a = 0)) as [->|]; [by rewrite mantissa_0|].
    pose proof (mantissa_bound (val a)). lia. }
  set (m0 := if csize (val a) <=? 3 then _ else _).
  assert (m0 = mantissa (val a)) as ->.
  { subst m0. revert Hm. unfold mantissa. destruct (Z.leb_spec (csize (val a)) 3); intros Hm.
    - rewrite (GetLow64_spec 8) by (lia || done).
      assert (val a < 2 ^ 24).
      { destruct (decide (val a = 0)); [lia|].
        destruct (csize_spec (val a)) as (_ & _ & H3); [lia|].
        eapply Z.lt_le_trans; [exact H3|]. apply Z.pow_le_mono_r; lia. }
      rewrite (Z.mod_small (val a)) by lia. rewrite Z.shiftl_mul_pow2 by lia.
      by rewrite (wrap_small 64), (wrap_small 32) by (unfold fits; lia).
    - destruct (op_shr_spec 8 a (8 * (csize (val a) - 3))) as [Hw Hsv]; [done|lia|].
      rewrite (GetLow64_spec 8), Hsv by (lia || done). unfold wrap.
      rewrite (Z.mod_small _ (2 ^ 64)), Z.mod_small; lia. }
  rewrite land_800000, testbit23, (Z.shiftr_div_pow2 _ 8) by (done || lia).
  change (2 ^ 8) with 256. fold (compact_parts (val a)).
  destruct (compact_parts (val a)) as [m s]. simpl in Hp.
  assert (Z.land m (u32 (Z.lnot 0x007fffff)) = 0) as ->.
  { change (u32 (Z.lnot 0x007fffff)) with (Z.ones 9 ≪ 23). apply Z.bits_inj'. intros i Hi.
    rewrite Z.land_spec, Z.bits_0. destruct (decide (i < 23)).
    - rewrite Z.shiftl_spec_low by lia. apply andb_false_r.
    - rewrite (fits_testbit 23) by (lia || unfold fits; lia). done. }
  simpl negb. replace (s <? 256) with true by lia. cbn [negb].
  assert (u32 (s ≪ 24) = s ≪ 24) as ->.
  { apply wrap_small. unfold fits. rewrite Z.shiftl_mul_pow2 by lia. lia. }
  assert (Z.lor m (s ≪ 24) = m + s * 2 ^ 24) as E
    by (apply lor_shiftl_add; [lia|unfold fits; lia]).
  rewrite E, land_7fffff.
  replace ((m + s * 2 ^ 24) `mod` 2 ^ 23) with m
    by (apply Z.mod_unique with (2 * s); lia).
  f_equal. destruct (neg && negb (m =? 0)); [|rewrite Z.lor_0_r; lia].
  rewrite <-E, <-Z.lor_assoc, (Z.lor_comm (s ≪ 24)).
  change 0x00800000 with (1 ≪ 23). rewrite Z.lor_assoc.
  rewrite (lor_shiftl_add 23) by (lia || unfold fits; lia).
  rewrite lor_shiftl_add by (lia || unfold fits; lia). lia.
Qed.

(** The number that the compact form of [v] stands for. *)
Definition compact_round (v : Z) : Z :=
  let '(m, s) := compact_parts v in m * 256 ^ s / 256 ^ 3.

Lemma pow256 e : 256 ^ e = 2 ^ (8 * e).
Proof.
  destruct (decide (0 ≤ e)).
  - change 256 with (2 ^ 8). by rewrite Z.pow_mul_r by lia.
  - by rewrite !Z.pow_neg_r by lia.
Qed.

Lemma shift_up_down m s : 3 ≤ s → m * 256 ^ s / 256 ^ 3 = m * 2 ^ (8 * (s - 3)).
Proof.
  intros. rewrite !pow256. replace (8 * s) with (8 * (s - 3) + 8 * 3) by lia.
  rewrite Z.pow_add_r, Z.mul_assoc by lia. by rewrite Z.div_mul by lia.
Qed.

Lemma mantissa_large v : 0 ≤ v → 3 ≤ csize v → mantissa v = v / 2 ^ (8 * (csize v - 3)).
Proof.
  intros Hv Hs. unfold mantissa. destruct (Z.leb_spec (csize v) 3) as [H|H]; [|done].
  assert (csize v = 3) as -> by lia. change (2 ^ (8 * (3 - 3))) with 1.
  by rewrite Z.mul_1_r, Z.div_1_r.
Qed.

(** Numbers of at most two bytes are represented exactly. *)
Lemma compact_round_small v : 0 ≤ v → csize v < 3 → compact_round v = v.
Proof.
  intros Hv Hs. assert (0 ≤ csize v) as Hs0.
  { unfold csize. pose proof (bitlen_nonneg v). apply Z.div_pos; lia. }
  unfold compact_round, compact_parts, mantissa.
  destruct (Z.leb_spec (csize v) 3) as [_|]; [|lia]. set (s := csize v) in *.
  destruct (Z.leb_spec (2 ^ 23) (v * 2 ^ (8 * (3 - s)))); cbv beta iota; rewrite !pow256.
  - replace (8 * (3 - s)) with (8 * (2 - s) + 8) by lia.
    rewrite Z.pow_add_r, Z.mul_assoc by lia. change (2 ^ 8) with 256.
    rewrite Z.div_mul by lia. rewrite <-Z.mul_assoc, <-Z.pow_add_r by lia.
    replace (8 * (2 - s) + 8 * (s + 1)) with (8 * 3) by lia. by apply Z.div_mul.
  - rewrite <-Z.mul_assoc, <-Z.pow_add_r by lia.
    replace (8 * (3 - s) + 8 * s) with (8 * 3) by lia. by apply Z.div_mul.
Qed.

(** Larger numbers are rounded down to a multiple of a unit [U]. *)
Lemma compact_round_large v :
  0 < v → 3 ≤ csize v →
  ∃ k U, compact_round v = v / U * U ∧ U = 2 ^ (8 * k) ∧ 0 ≤ k ∧
    ((2 ^ 23 <=? mantissa v) = true ∧ k = csize v - 2 ∨
     (2 ^ 23 <=? mantissa v) = false ∧ k = csize v - 3).
Proof.
  intros Hv Hs. pose proof (mantissa_large v ltac:(lia) Hs) as Em.
  unfold compact_round, compact_parts. destruct (2 ^ 23 <=? mantissa v) eqn:E.
  - exists (csize v - 2), (2 ^ (8 * (csize v - 2))). split_and!; [|done|lia|by left].
    rewrite shift_up_down by lia. replace (csize v + 1 - 3) with (csize v - 2) by lia.
    f_equal. rewrite Em, Z.div_div by (lia || apply Z.pow_nonzero; lia). f_equal.
    change 256 with (2 ^ 8). rewrite <-Z.pow_add_r by lia. f_equal. lia.
  - exists (csize v - 3), (2 ^ (8 * (csize v - 3))). split_and!; [|done|lia|by right].
    rewrite shift_up_down by lia. by rewrite Em.
Qed.

Lemma div_mul_multiple v U K : 0 < U → K * U ≤ v → K * U ≤ v / U * U.
Proof. intros. apply Z.mul_le_mono_nonneg_r; [lia|]. apply Z.div_le_lower_bound; lia. Qed.

(** Rounding keeps the size, loses less than one part in 2^15, and is stable. *)
Lemma compact_round_spec v :
  0 ≤ v →
  0 ≤ compact_round v ≤ v ∧ (v - compact_round v) * 2 ^ 15 ≤ v ∧
  compact_parts (compact_round v) = compact_parts v.
Proof.
  intros Hv. destruct (decide (csize v < 3)) as [Hs|Hs].
  { rewrite compact_round_small by done. split_and!; [lia..|done]. }
  assert (0 < v) as Hp.
  { destruct (decide (v = 0)) as [->|]; [|lia]. by destruct Hs. }
  destruct (csize_spec v Hp) as (_ & Hl & Hu). pose proof (mantissa_bound v Hp) as Hmb.
  pose proof (mantissa_large v Hv ltac:(lia)) as Em.
  destruct (compact_round_large v Hp ltac:(lia)) as (k & U & -> & EU & Hk & Hcase).
  assert (0 < U) as HU by (subst U; apply Z.pow_pos_nonneg; lia).
  pose proof (Z.div_mod v U ltac:(lia)) as Hd. pose proof (Z.mod_pos_bound v U HU) as Hm.
  set (t := v / U * U) in *. set (B := 2 ^ (8 * (csize v - 3))) in *.
  assert (0 < B) as HB by (apply Z.pow_pos_nonneg; lia).
  assert (U = B ∨ U = 256 * B) as HUB.
  { destruct Hcase as [[_ ->]|[_ ->]]; [right|left; by subst].
    subst U B. change 256 with (2 ^ 8). rewrite <-Z.pow_add_r by lia. f_equal. lia. }
  assert (Hl' : 2 ^ 16 * B ≤ v).
  { subst B. rewrite <-Z.pow_add_r by lia. etrans; [|exact Hl]. apply Z.pow_le_mono_r; lia. }
  assert (Hmv : B * mantissa v ≤ v) by (rewrite Em; apply Z.mul_div_le; lia).
  assert (Hadj : (2 ^ 23 <=? mantissa v) = true → 2 ^ 23 * B ≤ v) by nia.
  assert (Ht : 2 ^ 16 * B ≤ t).
  { subst t. destruct HUB as [->| ->]; [by apply div_mul_multiple|].
    replace (2 ^ 16 * B) with (2 ^ 8 * (256 * B)) by lia. apply div_mul_multiple; lia. }
  assert (csize t = csize v) as Es.
  { apply csize_unique; [lia|]. split; [|lia].
    etrans; [|exact Ht]. subst B. rewrite <-Z.pow_add_r by lia. apply Z.pow_le_mono_r; lia. }
  split_and!; [nia|lia| |].
  { destruct Hcase as [[E _]|[E Ek]].
    - specialize (Hadj E). destruct HUB; lia.
    - assert (U = B) by (subst; done). lia. }
  unfold compact_parts. rewrite Es, (mantissa_large t), Es by (nia || lia). fold B.
  destruct Hcase as [[E Ek]|[E Ek]].
  - assert (U = 256 * B) as EUB.
    { subst U B k. change 256 with (2 ^ 8). rewrite <-Z.pow_add_r by lia. f_equal. lia. }
    specialize (Hadj E).
    assert (t / B = mantissa v / 256 * 256) as ->.
    { subst t. rewrite EUB. rewrite Em. fold B. rewrite Z.div_div by lia.
      rewrite (Z.mul_comm B 256). rewrite Z.mul_assoc. by apply Z.div_mul; lia. }
    assert (2 ^ 15 ≤ mantissa v / 256) by (apply Z.div_le_lower_bound; lia).
    rewrite E, Z.div_mul by lia.
    by replace (2 ^ 23 <=? mantissa v / 256 * 256) with true by lia.
  - assert (U = B) as EUB by (by subst). subst t. rewrite EUB, Z.div_mul, Em by lia. done.
Qed.

Lemma compact_word m s b :
  0 ≤ m < 2 ^ 23 → 0 ≤ s ≤ 33 →
  let c := m + (if b : bool then 2 ^ 23 else 0) + s * 2 ^ 24 in
  fits 32 c ∧ c `mod` 2 ^ 23 = m ∧ c / 2 ^ 24 = s ∧ Z.testbit c 23 = b.
Proof.
  intros Hm Hs c. assert (c = m + (2 * s + Z.b2z b) * 2 ^ 23) as E by (subst c; destruct b; simpl; lia).
  split_and!.
  - subst c. unfold fits. destruct b; lia.
  - symmetry. apply Z.mod_unique with (2 * s + Z.b2z b); lia.
  - symmetry. apply Z.div_unique with (m + Z.b2z b * 2 ^ 23); destruct b; simpl in *; lia.
  - rewrite Z.testbit_eqb by lia. rewrite E, Z.div_add, Z.div_small, Z.add_0_l by lia.
    rewrite Z.add_comm, Z.mul_comm, Z.mod_add by lia. by destruct b.
Qed.

Lemma GetCompact_ok (a : list Z) (neg : bool) :
  wf256 a →
  ∃ c, GetCompact a neg = Some c ∧ fits 32 c ∧
    wf256 (cr_value (SetCompact c)) ∧
    val (cr_value (SetCompact c)) ≤ val a ∧
    (val a - val (cr_value (SetCompact c))) * 2 ^ 15 ≤ val a ∧
    cr_overflow (SetCompact c) = false ∧
    cr_negative (SetCompact c) = neg && negb (val (cr_value (SetCompact c)) =? 0) ∧
    GetCompact (cr_value (SetCompact c)) neg = Some c.
Proof.
  intros Ha. pose proof (wf_val_bound 8 a Ha) as Hv. change (2 ^ BITS 8) with (2 ^ 256) in Hv.
  rewrite GetCompact_eq by done. destruct (compact_parts_bound _ Hv) as [Hm Hs].
  destruct (compact_round_spec (val a) ltac:(lia)) as (Hr & Herr & Hst).
  unfold compact_round in Hr, Herr, Hst.
  destruct (compact_parts (val a)) as [m s] eqn:Ep. simpl in Hm, Hs.
  destruct (compact_word m s (neg && negb (m =? 0)) Hm Hs) as (Hc & Ecm & Ecs & Ect).
  set (c := m + _ + _) in *. exists c.
  destruct (SetCompact_correct c Hc) as (Hw & Hval & Hov & Hneg).
  unfold compact_magnitude in Hval, Hov, Hneg. rewrite Ecm, Ecs in Hval, Hov, Hneg.
  set (t := m * 256 ^ s / 256 ^ 3) in *.
  rewrite Z.mod_small in Hval by lia. rewrite Hval.
  split_and!; [done..|lia|lia| | |].
  - rewrite Hov. lia.
  - rewrite Hneg, Ect. destruct neg; [|done]. simpl.
    destruct (Z.eqb_spec m 0) as [E0|E0]; [|done]. subst t. by rewrite E0.
  - rewrite GetCompact_eq by done. by rewrite Hval, Hst.
Qed.

(** C23: [GetCompact] never trips its assertions; decoding the 32-bit word it
    returns with [SetCompact] sets no overflow flag, restores the requested sign
    unless the number is zero, gives a number not above the original and within
    one part in 2^15 of it, and encoding that number again returns the same word. *)
Theorem GetCompact_SetCompact (a : list Z) (neg : bool) :
  wf256 a →
  ∃ c, GetCompact a neg = Some c ∧ fits 32 c ∧
    wf256 (cr_value (SetCompact c)) ∧
    val (cr_value (SetCompact c)) ≤ val a ∧
    (val a - val (cr_value (SetCompact c))) * 2 ^ 15 ≤ val a ∧
    cr_overflow (SetCompact c) = false ∧
    cr_negative (SetCompact c) = neg && negb (val (cr_value (SetCompact c)) =? 0) ∧
    GetCompact (cr_value (SetCompact c)) neg = Some c.
Proof. apply GetCompact_ok. Qed.

Lemma GetCompact_SetCompact_witness :
  ∃ c, GetCompact (of_u64 8 0x123456789a) true = Some c ∧ fits 32 c ∧
    cr_overflow (SetCompact c) = false.
Proof.
  destruct (GetCompact_SetCompact (of_u64 8 0x123456789a) true) as (c & H1 & H2 & _ & _ & _ & H3 & _).
  - apply (of_u64_wf 8). lia.
  - exists c. auto.
Defined.

(** [SetCompact] decodes the mantissa/exponent word exactly: the stored
    number is mantissa * 256^(exponent-3) (rounded down) modulo 2^256, the
    overflow flag is raised exactly when that number does not fit in 256 bits,
    and the sign flag exactly when bit 23 is set and the number is not zero. *)
Theorem SetCompact_decodes (c : Z) :
  fits 32 c →
  wf256 (cr_value (SetCompact c)) ∧
  val (cr_value (SetCompact c)) = compact_magnitude c `mod` 2 ^ 256 ∧
  cr_overflow (SetCompact c) = (2 ^ 256 <=? compact_magnitude c) ∧
  cr_negative (SetCompact c) = Z.testbit c 23 && negb (compact_magnitude c =? 0).
Proof. apply SetCompact_correct. Qed.

Lemma SetCompact_decodes_witness :
  fits 32 0x1d00ffff ∧ val (cr_value (SetCompact 0x1d00ffff)) = 0xffff * 2 ^ 208.
Proof.
  assert (fits 32 0x1d00ffff) as H by (unfold fits; lia). split; [done|].
  destruct (SetCompact_decodes 0x1d00ffff H) as (_ & -> & _). vm_compute. reflexivity.
Defined.

(** ** Conversions to and from the 32-byte [uint256] *)

Lemma length_WriteLE32 x : length (WriteLE32 x) = 4%nat.
Proof. apply Nat2Z.inj. unfold WriteLE32. by rewrite length_Z_to_little_endian. Qed.

Lemma ReadLE32_WriteLE32 x r : fits 32 x → ReadLE32 (WriteLE32 x ++ r) = x.
Proof.
  intros Hx. unfold ReadLE32. rewrite take_app_length' by (by rewrite length_WriteLE32).
  unfold WriteLE32. rewrite little_endian_to_Z_to_little_endian by lia. by apply Z.mod_small.
Qed.

Lemma read_limbs a r i :
  words 32 a → (i < length a)%nat →
  ReadLE32 (drop (i * 4) (flat_map WriteLE32 a ++ r)) = nth i a 0.
Proof.
  intros Ha. revert i. induction Ha as [|x a Hx Ha IH]; intros [|i] Hi;
    cbn [flat_map nth length] in *; try lia; rewrite <-app_assoc.
  - by apply ReadLE32_WriteLE32.
  - change (S i * 4)%nat with (4 + i * 4)%nat. rewrite <-drop_drop.
    rewrite drop_app_length' by (by rewrite length_WriteLE32). apply IH. lia.
Qed.

Lemma UintToArith256_ArithToUint256 a : wf256 a → UintToArith256 (ArithToUint256 a) = a.
Proof.
  intros [La Ha]. unfold UintToArith256, ArithToUint256.
  apply list_eq. intros i. rewrite list_lookup_fmap. destruct (decide (i < 8)%nat).
  - rewrite lookup_seq_lt by lia. simpl. rewrite <-(app_nil_r (flat_map _ a)).
    rewrite read_limbs by (done || lia). rewrite nth_lookup.
    destruct (lookup_lt_is_Some_2 a i) as [x ->]; [lia|done].
  - rewrite !lookup_ge_None_2; [done|lia|rewrite length_seq; lia].
Qed.

Lemma le_val_flat_WriteLE32 a : words 32 a → le_val 8 (flat_map WriteLE32 a) = val a.
Proof.
  induction 1 as [|x a Hx Ha IH]; [done|]. cbn [flat_map].
  rewrite le_val_app by lia. rewrite length_WriteLE32, IH.
  change (val (x :: a)) with (Z.lor x (val a ≪ 32)). f_equal.
  unfold WriteLE32. rewrite little_endian_to_Z_to_little_endian by lia. by apply Z.mod_small.
Qed.
