(* ===== verification/ChainParams.v ===== *)
(** chainparams.h / chainparams.cpp: the consensus parameters of the networks,
    as far as the modelled code reads them.

    The four parameter objects have static storage, so a field that no
    constructor assigns keeps the value zero. *)

From S2P Require Import Prelude ArithUint256.
Import BaseUint Arith256.

Definition COIN : Z := 100000000.
Definition COINCENT : Z := 1000000.

Record CChainParams := MkChainParams {
  bnProofOfWorkLimit : list Z;
  nSubsidyHalvingInterval : Z;
  nEnforceBlockUpgradeMajority : Z;
  nRejectBlockOutdatedMajority : Z;
  nToCheckBlockUpgradeMajority : Z;
  nMaxReorganizationDepth : Z;
  nTargetTimespan : Z;
  nTargetSpacing : Z;
  nLastPOWBlock : Z;
  nMaturity : Z;
  nMaxMoneyOut : Z;
  fAllowMinDifficultyBlocks : bool;
  fSkipProofOfWorkCheck : bool;
  fRequireStandard : bool;
  nStakeMinAge : Z;
  nStakeTargetSpacing : Z;
  nModifierInterval : Z;
  nMaxZerocoinSpendsPerTransaction : Z;
  nMinZerocoinMintFee : Z;
  nMintRequiredConfirmations : Z;
  nRequiredAccumulation : Z;
  nZerocoinHeaderVersion : Z;
  nZerocoinStartHeight : Z;
}.

(** [~arith_uint256(0) >> n] *)
Definition limit_shr (n : Z) : list Z := op_shr W256 (op_not (of_u64 W256 0)) n.

(** [CMainParams::CMainParams]; it assigns neither [nStakeTargetSpacing] nor
    [nModifierInterval]. *)
Definition mainParams : CChainParams := {|
  bnProofOfWorkLimit := limit_shr 20;
  nSubsidyHalvingInterval := 210000;
  nEnforceBlockUpgradeMajority := 750;
  nRejectBlockOutdatedMajority := 950;
  nToCheckBlockUpgradeMajority := 1000;
  nMaxReorganizationDepth := 100;
  nTargetTimespan := 1 * 60;
  nTargetSpacing := 1 * 60;
  nLastPOWBlock := 259200;
  nMaturity := 100;
  nMaxMoneyOut := 21000000 * COIN;
  fAllowMinDifficultyBlocks := false;
  fSkipProofOfWorkCheck := false;
  fRequireStandard := true;
  nStakeMinAge := 60 * 60;
  nStakeTargetSpacing := 0;
  nModifierInterval := 0;
  nMaxZerocoinSpendsPerTransaction := 7;
  nMinZerocoinMintFee := 1 * COINCENT;
  nMintRequiredConfirmations := 20;
  nRequiredAccumulation := 1;
  nZerocoinHeaderVersion := 1;
  nZerocoinStartHeight := 200;
|}.

(** [CTestNetParams::CTestNetParams], on top of the main parameters. *)
Definition testNetParams : CChainParams := {|
  bnProofOfWorkLimit := limit_shr 1;
  nSubsidyHalvingInterval := nSubsidyHalvingInterval mainParams;
  nEnforceBlockUpgradeMajority := 51;
  nRejectBlockOutdatedMajority := 75;
  nToCheckBlockUpgradeMajority := 100;
  nMaxReorganizationDepth := nMaxReorganizationDepth mainParams;
  nTargetTimespan := 1 * 60;
  nTargetSpacing := 20;
  nLastPOWBlock := 200;
  nMaturity := 15;
  nMaxMoneyOut := 43199500 * COIN;
  fAllowMinDifficultyBlocks := true;
  fSkipProofOfWorkCheck := true;
  fRequireStandard := true;
  nStakeMinAge := 1 * 60;
  nStakeTargetSpacing := 60;
  nModifierInterval := 60;
  nMaxZerocoinSpendsPerTransaction := nMaxZerocoinSpendsPerTransaction mainParams;
  nMinZerocoinMintFee := nMinZerocoinMintFee mainParams;
  nMintRequiredConfirmations := nMintRequiredConfirmations mainParams;
  nRequiredAccumulation := nRequiredAccumulation mainParams;
  nZerocoinHeaderVersion := nZerocoinHeaderVersion mainParams;
  nZerocoinStartHeight := 200;
|}.

(** [CRegTestParams::CRegTestParams], on top of the test-network parameters. *)
Definition regTestParams : CChainParams := {|
  bnProofOfWorkLimit := limit_shr 1;
  nSubsidyHalvingInterval := 150;
  nEnforceBlockUpgradeMajority := 750;
  nRejectBlockOutdatedMajority := 950;
  nToCheckBlockUpgradeMajority := 1000;
  nMaxReorganizationDepth := nMaxReorganizationDepth testNetParams;
  nTargetTimespan := 24 * 60 * 60;
  nTargetSpacing := 1 * 60;
  nLastPOWBlock := nLastPOWBlock testNetParams;
  nMaturity := nMaturity testNetParams;
  nMaxMoneyOut := nMaxMoneyOut testNetParams;
  fAllowMinDifficultyBlocks := true;
  fSkipProofOfWorkCheck := fSkipProofOfWorkCheck testNetParams;
  fRequireStandard := false;
  nStakeMinAge := nStakeMinAge testNetParams;
  nStakeTargetSpacing := nStakeTargetSpacing testNetParams;
  nModifierInterval := nModifierInterval testNetParams;
  nMaxZerocoinSpendsPerTransaction := nMaxZerocoinSpendsPerTransaction testNetParams;
  nMinZerocoinMintFee := nMinZerocoinMintFee testNetParams;
  nMintRequiredConfirmations := nMintRequiredConfirmations testNetParams;
  nRequiredAccumulation := nRequiredAccumulation testNetParams;
  nZerocoinHeaderVersion := nZerocoinHeaderVersion testNetParams;
  nZerocoinStartHeight := nZerocoinStartHeight testNetParams;
|}.

(** [MoneyRange] (wallet/wallet_functions.cpp) *)
Definition MoneyRange (Params : CChainParams) (nValueOut : Z) : bool :=
  (0 <=? nValueOut) && (nValueOut <=? nMaxMoneyOut Params).
