(* ===== verification/BlockIndex.v ===== *)
(** chain.h / chain.cpp and the block-index part of main.cpp: the tree of
    [CBlockIndex] nodes linked by [pprev] and [pskip], the skip-list ancestor
    search, and [CChain], the vector view of one branch of the tree.

    A [CBlockIndex*] is an address in a store of nodes; [None] is [nullptr].
    A node carries the fields the modelled code reads. *)

From S2P Require Import Prelude ArithUint256.
Import BaseUint Arith256.

Abbreviation uint256 := (list Z) (only parsing).
Abbreviation ptr := nat (only parsing).

Record CBlockIndex := MkBlockIndex {
  phashBlock : uint256;
  pprev : option ptr;
  pskip : option ptr;
  nHeight : Z;
  nFlags : Z;
  nHeaderVersion : Z;
  nTime : Z;
  nBits : Z;
}.

(** The nodes allocated so far (the values of [mapBlockIndex]). *)
Abbreviation store := (gmap ptr CBlockIndex).

Definition BLOCK_PROOF_OF_STAKE : Z := 1.

Definition IsProofOfStake (b : CBlockIndex) : bool :=
  negb (Z.land (nFlags b) BLOCK_PROOF_OF_STAKE =? 0).

(** ** Skip list (main.cpp) *)

(** Turn the lowest '1' bit into a '0'. *)
Definition InvertLowestOne (n : Z) : Z := Z.land n (n - 1).

Definition GetSkipHeight (height : Z) : Z :=
  if height <? 2 then 0
  else if negb (Z.land height 1 =? 0)
       then InvertLowestOne (InvertLowestOne (height - 1)) + 1
       else InvertLowestOne height.

(** [CBlockIndex::GetAncestor]: the loop [while (heightWalk > height)]. A null
    dereference is [None]; [fuel] bounds the iterations. *)
Fixpoint GetAncestor_loop (h : store) (fuel : nat) (height : Z)
    (pindexWalk : ptr) (heightWalk : Z) : option ptr :=
  if heightWalk <=? height then Some pindexWalk
  else match fuel with
  | O => None
  | S fuel =>
      let heightSkip := GetSkipHeight heightWalk in
      let heightSkipPrev := GetSkipHeight (heightWalk - 1) in
      if (heightSkip =? height) ||
         ((height <? heightSkip) &&
          negb ((heightSkipPrev <? heightSkip - 2) && (height <=? heightSkipPrev)))
      then walk ← h !! pindexWalk ≫= pskip; GetAncestor_loop h fuel height walk heightSkip
      else walk ← h !! pindexWalk ≫= pprev; GetAncestor_loop h fuel height walk (heightWalk - 1)
  end.

(** Each iteration lowers [heightWalk], so [nHeight] iterations are enough. *)
Definition GetAncestor (h : store) (this : ptr) (height : Z) : option ptr :=
  b ← h !! this;
  if (nHeight b <? height) || (height <? 0) then None
  else GetAncestor_loop h (Z.to_nat (nHeight b)) height this (nHeight b).

(** [CBlockIndex::BuildSkip] *)
Definition BuildSkip (h : store) (this : ptr) : store :=
  match h !! this with
  | Some b =>
      match pprev b with
      | Some p => <[this := MkBlockIndex (phashBlock b) (pprev b)
                              (GetAncestor h p (GetSkipHeight (nHeight b)))
                              (nHeight b) (nFlags b) (nHeaderVersion b) (nTime b) (nBits b)]> h
      | None => h
      end
  | None => h
  end.

(** [LastCommonAncestor]; [None] is a null dereference or the failed assertion. *)
Fixpoint last_common_loop (h : store) (fuel : nat) (pa pb : option ptr) : option ptr :=
  match pa, pb with
  | Some a, Some b =>
      if decide (a = b) then Some a
      else match fuel with
      | O => None
      | S fuel => last_common_loop h fuel (h !! a ≫= pprev) (h !! b ≫= pprev)
      end
  | _, _ => None
  end.
Definition LastCommonAncestor (h : store) (pa pb : ptr) : option ptr :=
  a ← h !! pa; b ← h !! pb;
  let pa' := if nHeight b <? nHeight a then GetAncestor h pa (nHeight b) else Some pa in
  let pb' := if negb (nHeight b <? nHeight a) && (nHeight a <? nHeight b)
             then GetAncestor h pb (nHeight a) else Some pb in
  last_common_loop h (Z.to_nat (nHeight a `min` nHeight b)) pa' pb'.

(** [CBlockIndex::IsSuperMajority] with [nToCheck = Params().ToCheckBlockUpgradeMajority()] *)
Fixpoint super_loop (h : store) (n : nat) (minVersion : Z) (pstart : option ptr)
    (nRequired nFound : Z) : Z :=
  match n with
  | O => nFound
  | S n =>
      match pstart ≫= (h !!.) with
      | Some b =>
          if nFound <? nRequired then
            super_loop h n minVersion (pprev b) nRequired
              (if minVersion <=? nHeaderVersion b then u32 (nFound + 1) else nFound)
          else nFound
      | None => nFound
      end
  end.
Definition IsSuperMajority (h : store) (nToCheck minVersion : Z) (pstart : option ptr)
    (nRequired : Z) : bool :=
  nRequired <=? super_loop h (Z.to_nat nToCheck) minVersion pstart nRequired 0.

(** [GetMedianTimePast]: the times of up to 11 blocks, written from the end of
    [pmedian] backwards, sorted, and the middle one. *)
Fixpoint median_times (h : store) (n : nat) (pindex : option ptr) : list Z :=
  match n with
  | O => []
  | S n =>
      match pindex ≫= (h !!.) with
      | Some b => nTime b :: median_times h n (pprev b)
      | None => []
      end
  end.
Definition nMedianTimeSpan : nat := 11.

(** [std::sort] on integers. *)
Fixpoint insert_sorted (x : Z) (l : list Z) : list Z :=
  match l with
  | [] => [x]
  | y :: l' => if x <=? y then x :: l else y :: insert_sorted x l'
  end.
Definition sort (l : list Z) : list Z := foldr insert_sorted [] l.

Definition GetMedianTimePast (h : store) (this : ptr) : Z :=
  let times := median_times h nMedianTimeSpan (Some this) in
  nth (length times / 2)%nat (sort (rev times)) 0.

(** ** [CChain] *)

Abbreviation chain := (list (option ptr)) (only parsing).

(** [operator[]], [Tip], [Height], [Contains], [Next], [Genesis] *)
Definition chain_at (c : chain) (height : Z) : option ptr :=
  if (height <? 0) || (Z.of_nat (length c) <=? height) then None
  else nth (Z.to_nat height) c None.
Definition Genesis (c : chain) : option ptr := nth 0 c None.
Definition Height (c : chain) : Z := Z.of_nat (length c) - 1.
Definition Tip (c : chain) : option ptr :=
  if (length c <? 1)%nat then None else nth (length c - 1)%nat c None.
Definition Contains (h : store) (c : chain) (p : ptr) : bool :=
  match h !! p with
  | Some b => bool_decide (chain_at c (nHeight b) = Some p)
  | None => false
  end.
Definition Next (h : store) (c : chain) (p : ptr) : option ptr :=
  b ← h !! p; if Contains h c p then chain_at c (nHeight b + 1) else None.

(** [vector::resize(n)] of a vector of pointers. *)
Definition vec_resize (c : chain) (n : nat) : chain := take n c ++ replicate (n - length c) None.

(** [CChain::SetTip]: [while (pindex && vChain[pindex->nHeight] != pindex)]. *)
Fixpoint SetTip_loop (h : store) (fuel : nat) (c : chain) (pindex : option ptr) : chain :=
  match pindex with
  | None => c
  | Some p =>
      match h !! p with
      | None => c
      | Some b =>
          let i := Z.to_nat (nHeight b) in
          if decide (nth i c None = Some p) then c
          else match fuel with
          | O => c
          | S fuel => SetTip_loop h fuel (<[i := Some p]> c) (pprev b)
          end
      end
  end.
Definition SetTip (h : store) (c : chain) (pindex : option ptr) : chain :=
  match pindex with
  | None => []
  | Some p =>
      match h !! p with
      | Some b =>
          let n := Z.to_nat (nHeight b + 1) in
          SetTip_loop h n (vec_resize c n) (Some p)
      | None => c
      end
  end.

(** [CChain::FindFork] *)
Fixpoint FindFork_loop (h : store) (fuel : nat) (c : chain) (pindex : option ptr) : option ptr :=
  match pindex with
  | None => None
  | Some p =>
      if Contains h c p then Some p
      else match fuel with
      | O => None
      | S fuel => FindFork_loop h fuel c (h !! p ≫= pprev)
      end
  end.
Definition FindFork (h : store) (c : chain) (pindex : ptr) : option ptr :=
  b ← h !! pindex;
  let p := if Height c <? nHeight b then GetAncestor h pindex (Height c) else Some pindex in
  FindFork_loop h (Z.to_nat (nHeight b)) c p.

(** [CChain::GetLocator]: the hashes at exponentially growing distances. *)
Fixpoint GetLocator_loop (h : store) (fuel : nat) (c : chain) (pindex : option ptr)
    (nStep : Z) (vHave : list uint256) : list uint256 :=
  match pindex with
  | None => vHave
  | Some p =>
      match h !! p with
      | None => vHave
      | Some b =>
          let vHave := vHave ++ [phashBlock b] in
          if nHeight b =? 0 then vHave
          else
            let height := Z.max (nHeight b - nStep) 0 in
            let next := if Contains h c p then chain_at c height
                        else GetAncestor h p height in
            let nStep := if 10 <? Z.of_nat (length vHave) then s32 (nStep * 2) else nStep in
            match fuel with
            | O => vHave
            | S fuel => GetLocator_loop h fuel c next nStep vHave
            end
      end
  end.
Definition GetLocator (h : store) (c : chain) (pindex : option ptr) : list uint256 :=
  let p := match pindex with Some p => Some p | None => Tip c end in
  let fuel := match p ≫= (h !!.) with Some b => Z.to_nat (nHeight b) | None => O end in
  GetLocator_loop h fuel c p 1 [].
