(* ===== verification/BlockIndexFacts.v ===== *)
(** The skip list computes the same ancestor as walking [pprev], and [CChain]
    is the list of the ancestors of its tip. *)

From S2P Require Import Prelude ArithUint256 BlockIndex.

(** Well-linked store: a node without parent is at height 0, any other node is
    one above its parent. *)
Definition linked (h : store) : Prop :=
  ∀ p b, h !! p = Some b → 0 ≤ nHeight b ∧
    match pprev b with
    | None => nHeight b = 0
    | Some q => ∃ c, h !! q = Some c ∧ nHeight b = nHeight c + 1
    end.

(** [n] steps along [pprev]. *)
Fixpoint up (h : store) (n : nat) (p : ptr) : option ptr :=
  match n with
  | O => Some p
  | S n => (h !! p ≫= pprev) ≫= up h n
  end.

(** Reference definition of the ancestor at a height. *)
Definition ancestor_ref (h : store) (p : ptr) (height : Z) : option ptr :=
  b ← h !! p;
  if (nHeight b <? height) || (height <? 0) then None
  else up h (Z.to_nat (nHeight b - height)) p.

(** Every skip pointer is the ancestor at the node's skip height; [skips_upto]
    asks it of the nodes up to a height only. *)
Definition skips_upto (h : store) (k : Z) : Prop :=
  ∀ p b q, h !! p = Some b → nHeight b ≤ k → pprev b = Some q →
    pskip b = ancestor_ref h q (GetSkipHeight (nHeight b)).
Definition skips_ok (h : store) : Prop :=
  ∀ p b q, h !! p = Some b → pprev b = Some q →
    pskip b = ancestor_ref h q (GetSkipHeight (nHeight b)).

Lemma up_app h n m p : up h (n + m) p = up h n p ≫= up h m.
Proof.
  revert p. induction n as [|n IH]; intros p; [done|]. simpl.
  destruct (h !! p) as [b|]; [|done]. simpl. by destruct (pprev b); simpl.
Qed.

Lemma up_linked h p b n :
  linked h → h !! p = Some b → Z.of_nat n ≤ nHeight b →
  ∃ q c, up h n p = Some q ∧ h !! q = Some c ∧ nHeight c = nHeight b - Z.of_nat n.
Proof.
  intros Hl. revert p b. induction n as [|n IH]; intros p b Hp Hn.
  { exists p, b. split_and!; [done..|lia]. }
  destruct (Hl p b Hp) as [H0 Hpp]. simpl. rewrite Hp. simpl.
  destruct (pprev b) as [q|]; [|lia]. destruct Hpp as (c & Hq & Hc). simpl.
  destruct (IH q c Hq ltac:(lia)) as (r & d & -> & Hr & Hd).
  exists r, d. split_and!; [done..|lia].
Qed.

Lemma up_genesis h p b n :
  linked h → h !! p = Some b → nHeight b < Z.of_nat n → up h n p = None.
Proof.
  intros Hl. revert p b. induction n as [|n IH]; intros p b Hp Hn.
  { destruct (Hl p b Hp). lia. }
  destruct (Hl p b Hp) as [H0 Hpp]. simpl. rewrite Hp. simpl.
  destruct (pprev b) as [q|]; [|done]. destruct Hpp as (c & Hq & Hc). simpl.
  apply (IH q c Hq). lia.
Qed.

(** ** Skip heights *)

Lemma land_le_r a b : 0 ≤ a → 0 ≤ b → Z.land a b ≤ b.
Proof.
  intros. rewrite Z.land_comm. destruct (decide (b = 0)) as [->|]; [done|].
  assert (b = Z.lor (Z.land b a) (Z.ldiff b a)) as E.
  { apply Z.bits_inj'. intros i _. rewrite Z.lor_spec, Z.land_spec, Z.ldiff_spec.
    destruct (Z.testbit b i), (Z.testbit a i); done. }
  assert (Z.land b a + Z.ldiff b a = b) as E'.
  { rewrite Z.add_nocarry_lor; [done|]. apply Z.bits_inj'. intros i _.
    rewrite Z.land_spec, Z.land_spec, Z.ldiff_spec, Z.bits_0.
    destruct (Z.testbit b i), (Z.testbit a i); done. }
  assert (0 ≤ Z.ldiff b a) by (apply Z.ldiff_nonneg; lia). lia.
Qed.

Lemma InvertLowestOne_bound n : 0 < n → 0 ≤ InvertLowestOne n < n.
Proof.
  intros. unfold InvertLowestOne. pose proof (land_le_r n (n - 1) ltac:(lia) ltac:(lia)).
  assert (0 ≤ Z.land n (n - 1)) by (apply Z.land_nonneg; lia). lia.
Qed.

Lemma InvertLowestOne_le n : 0 ≤ n → 0 ≤ InvertLowestOne n ≤ n.
Proof.
  intros. destruct (decide (n = 0)) as [->|]; [done|].
  pose proof (InvertLowestOne_bound n). lia.
Qed.

Lemma GetSkipHeight_bound n : 1 ≤ n → 0 ≤ GetSkipHeight n < n.
Proof.
  intros Hn. unfold GetSkipHeight. destruct (Z.ltb_spec n 2); [lia|].
  destruct (negb _).
  - pose proof (InvertLowestOne_bound (n - 1) ltac:(lia)) as H1.
    pose proof (InvertLowestOne_le (InvertLowestOne (n - 1)) ltac:(lia)). lia.
  - apply InvertLowestOne_bound. lia.
Qed.

(** ** [GetAncestor] *)

Lemma ancestor_ref_Some h p b k :
  linked h → h !! p = Some b → 0 ≤ k ≤ nHeight b →
  ∃ q c, ancestor_ref h p k = Some q ∧ h !! q = Some c ∧ nHeight c = k.
Proof.
  intros Hl Hp Hk. unfold ancestor_ref. rewrite Hp. simpl.
  destruct (up_linked h p b (Z.to_nat (nHeight b - k)) Hl Hp ltac:(lia))
    as (q & c & E & Hq & Hc). exists q, c.
  replace (nHeight b <? k) with false by lia. replace (k <? 0) with false by lia.
  split_and!; [done..|lia].
Qed.

Lemma ancestor_ref_self h p b : h !! p = Some b → 0 ≤ nHeight b → ancestor_ref h p (nHeight b) = Some p.
Proof.
  intros Hp H0. unfold ancestor_ref. rewrite Hp. simpl.
  rewrite Z.ltb_irrefl. replace (nHeight b <? 0) with false by lia. simpl.
  by rewrite Z.sub_diag.
Qed.

(** An ancestor's ancestor. *)
Lemma ancestor_ref_trans h p b q k j :
  linked h → h !! p = Some b → ancestor_ref h p k = Some q → j ≤ k →
  ancestor_ref h q j = ancestor_ref h p j.
Proof.
  intros Hl Hp Hq Hj. unfold ancestor_ref in *. rewrite Hp in Hq |- *. simpl in *.
  destruct (Z.ltb_spec (nHeight b) k); [done|]. destruct (Z.ltb_spec k 0); [done|]. simpl in Hq.
  destruct (up_linked h p b (Z.to_nat (nHeight b - k)) Hl Hp ltac:(lia))
    as (q' & c & E & Hq' & Hc). rewrite E in Hq. injection Hq as <-.
  rewrite Hq'. simpl. replace (nHeight c <? j) with false by lia.
  replace (nHeight b <? j) with false by lia. destruct (Z.ltb_spec j 0); [done|]. simpl.
  replace (Z.to_nat (nHeight b - j))
    with (Z.to_nat (nHeight b - k) + Z.to_nat (nHeight c - j))%nat by lia.
  by rewrite up_app, E.
Qed.

Lemma ancestor_ref_pprev h p b q j :
  linked h → h !! p = Some b → pprev b = Some q → j < nHeight b →
  ancestor_ref h q j = ancestor_ref h p j.
Proof.
  intros Hl Hp Hq Hj. destruct (Hl p b Hp) as [H0 Hpp]. rewrite Hq in Hpp.
  destruct Hpp as (c & Hc & Eh).
  apply (ancestor_ref_trans h p b q (nHeight c)); [done..| |lia].
  unfold ancestor_ref. rewrite Hp. simpl.
  destruct (Hl q c Hc) as [Hc0 _].
  replace (nHeight b <? nHeight c) with false by lia. replace (nHeight c <? 0) with false by lia.
  replace (Z.to_nat (nHeight b - nHeight c)) with 1%nat by lia. simpl. by rewrite Hp; simpl; rewrite Hq.
Qed.

Lemma GetAncestor_loop_ref h fuel height p b :
  linked h → skips_upto h (nHeight b) → h !! p = Some b → 0 ≤ height ≤ nHeight b →
  nHeight b - height ≤ Z.of_nat fuel →
  GetAncestor_loop h fuel height p (nHeight b) = ancestor_ref h p height.
Proof.
  intros Hl. revert p b. induction fuel as [|fuel IH]; intros p b Hs Hp Hh Hf.
  - cbn [GetAncestor_loop]. replace (nHeight b <=? height) with true by lia.
    assert (height = nHeight b) as -> by lia. by rewrite ancestor_ref_self by (done || lia).
  - cbn [GetAncestor_loop]. destruct (Z.leb_spec (nHeight b) height).
    { assert (height = nHeight b) as -> by lia. by rewrite ancestor_ref_self by (done || lia). }
    destruct (Hl p b Hp) as [_ Hpp]. rewrite Hp. cbn [mbind option_bind].
    destruct (pprev b) as [q|] eqn:Eq; [|lia]. destruct Hpp as (c & Hc & Ec).
    pose proof (GetSkipHeight_bound (nHeight b) ltac:(lia)) as Hsk.
    assert (∀ k, k < nHeight b → skips_upto h k) as Hdown.
    { intros k Hk p' b' q' Hp' Hk' Hq'. apply (Hs p'); (done || lia). }
    destruct (_ || _) eqn:Econd.
    + assert (height ≤ GetSkipHeight (nHeight b)) as Hge by lia.
      rewrite (Hs p b q Hp ltac:(lia) Eq).
      destruct (ancestor_ref_Some h q c (GetSkipHeight (nHeight b)) Hl Hc ltac:(lia))
        as (r & d & Er & Hr & Hd). rewrite Er. cbn [mbind option_bind].
      rewrite <-Hd. rewrite (IH r d) by (apply Hdown || done || lia; lia).
      rewrite (ancestor_ref_trans h q c r (GetSkipHeight (nHeight b))) by (done || lia).
      apply (ancestor_ref_pprev h p b); (done || lia).
    + cbn [mbind option_bind]. replace (nHeight b - 1) with (nHeight c) by lia.
      rewrite (IH q c) by (apply Hdown || done || lia; lia). apply (ancestor_ref_pprev h p b); (done || lia).
Qed.

Lemma GetAncestor_upto h p b height :
  linked h → h !! p = Some b → skips_upto h (nHeight b) →
  GetAncestor h p height = ancestor_ref h p height.
Proof.
  intros Hl Hp Hs. unfold GetAncestor. rewrite Hp. cbn [mbind option_bind].
  destruct (_ || _) eqn:E.
  - unfold ancestor_ref. rewrite Hp. cbn [mbind option_bind]. by rewrite E.
  - apply (GetAncestor_loop_ref h _ height p b); (done || lia).
Qed.

Lemma GetAncestor_ref h p height :
  linked h → skips_ok h → GetAncestor h p height = ancestor_ref h p height.
Proof.
  intros Hl Hs. destruct (h !! p) as [b|] eqn:Hp.
  - apply (GetAncestor_upto h p b); [done..|]. intros p' b' q' Hp' _ Hq'. by apply (Hs p').
  - unfold GetAncestor, ancestor_ref. by rewrite Hp.
Qed.

(** ** [BuildSkip] on a freshly linked node *)

Lemma up_ext h h' n p :
  (∀ q, h !! q ≫= pprev = h' !! q ≫= pprev) → up h n p = up h' n p.
Proof.
  intros Hext. revert p. induction n as [|n IH]; intros p; [done|]. simpl.
  rewrite Hext. by destruct (h' !! p ≫= pprev); simpl.
Qed.

Lemma ancestor_ref_ext h h' p k :
  (∀ q, h !! q ≫= pprev = h' !! q ≫= pprev) →
  (∀ q, nHeight <$> h !! q = nHeight <$> h' !! q) →
  ancestor_ref h p k = ancestor_ref h' p k.
Proof.
  intros H1 H2. unfold ancestor_ref. specialize (H2 p).
  destruct (h !! p) as [b|], (h' !! p) as [b'|]; simpl in *; try done.
  injection H2 as ->. by rewrite (up_ext h h').
Qed.

Lemma BuildSkip_preserves h this b :
  linked h → h !! this = Some b →
  (∀ p c q, h !! p = Some c → p ≠ this → pprev c = Some q →
    pskip c = ancestor_ref h q (GetSkipHeight (nHeight c))) →
  (∀ p c, h !! p = Some c → pprev c ≠ Some this) →
  linked (BuildSkip h this) ∧ skips_ok (BuildSkip h this).
Proof.
  intros Hl Hb Hs Hleaf. unfold BuildSkip. rewrite Hb.
  destruct (pprev b) as [q|] eqn:Eq.
  2:{ split; [done|]. intros p c q Hp Hq.
      destruct (decide (p = this)) as [->|]; [congruence|]. by apply (Hs p). }
  destruct (Hl this b Hb) as [H0 Hpp]. rewrite Eq in Hpp. destruct Hpp as (c & Hc & Ec).
  set (b' := MkBlockIndex _ _ _ _ _ _ _ _). set (h' := <[this := b']> h).
  assert (H1 : ∀ r, h !! r ≫= pprev = h' !! r ≫= pprev).
  { intros r. subst h'. destruct (decide (r = this)) as [->|].
    - by rewrite lookup_insert_eq, Hb.
    - by rewrite lookup_insert_ne by done. }
  assert (H2 : ∀ r, nHeight <$> h !! r = nHeight <$> h' !! r).
  { intros r. subst h'. destruct (decide (r = this)) as [->|].
    - by rewrite lookup_insert_eq, Hb.
    - by rewrite lookup_insert_ne by done. }
  assert (GetAncestor h q (GetSkipHeight (nHeight b)) =
          ancestor_ref h q (GetSkipHeight (nHeight b))) as Eanc.
  { apply (GetAncestor_upto h q c); [done..|]. intros p' d r Hp' Hd Hr.
    apply (Hs p'); [done| |done]. intros ->. rewrite Hb in Hp'. injection Hp' as <-. lia. }
  split.
  - intros p d Hp. destruct (decide (p = this)) as [->|Hne].
    + unfold h' in Hp. rewrite lookup_insert_eq in Hp. injection Hp as <-. simpl. split; [done|].
      exists c. split; [|done]. subst h'. rewrite lookup_insert_ne; [done|].
      intros <-. by apply (Hleaf this b Hb).
    + unfold h' in Hp. rewrite lookup_insert_ne in Hp by done. destruct (Hl p d Hp) as [Hd0 Hdp].
      split; [done|]. destruct (pprev d) as [r|] eqn:Er; [|done].
      destruct Hdp as (e & He & Ee). exists e. split; [|done]. subst h'.
      rewrite lookup_insert_ne; [done|]. intros <-. by apply (Hleaf p d Hp).
  - intros p d r Hp Hr. rewrite <-(ancestor_ref_ext h h') by done.
    destruct (decide (p = this)) as [->|Hne].
    + unfold h' in Hp. rewrite lookup_insert_eq in Hp. injection Hp as <-. simpl in *.
      by injection Hr as <-.
    + unfold h' in Hp. rewrite lookup_insert_ne in Hp by done. by apply (Hs p).
Qed.

(** ** [CChain] as the list of ancestors of its tip *)

Definition branch (h : store) (p : ptr) : chain :=
  match h !! p with
  | Some b => (λ i, ancestor_ref h p (Z.of_nat i)) <$> seq 0 (Z.to_nat (nHeight b + 1))
  | None => []
  end.

(** The states [CChain] goes through: empty, or the branch of a node. *)
Definition chain_ok (h : store) (c : chain) : Prop :=
  c = [] ∨ ∃ t b, h !! t = Some b ∧ c = branch h t.

Lemma length_branch h p b : h !! p = Some b → length (branch h p) = Z.to_nat (nHeight b + 1).
Proof. intros Hp. unfold branch. rewrite Hp. by rewrite length_fmap, length_seq. Qed.

Lemma nth_branch h p b i :
  h !! p = Some b → (i < Z.to_nat (nHeight b + 1))%nat →
  nth i (branch h p) None = ancestor_ref h p (Z.of_nat i).
Proof.
  intros Hp Hi. unfold branch. rewrite Hp. rewrite nth_lookup, list_lookup_fmap.
  by rewrite lookup_seq_lt.
Qed.

Lemma ancestor_ref_parent h q d r :
  linked h → h !! q = Some d → pprev d = Some r → ancestor_ref h q (nHeight d - 1) = Some r.
Proof.
  intros Hl Hq Hr. destruct (Hl q d Hq) as [H0 Hp]. rewrite Hr in Hp.
  destruct Hp as (c & Hc & Ec). destruct (Hl r c Hc) as [Hc0 _].
  rewrite <-(ancestor_ref_pprev h q d r) by (done || lia).
  replace (nHeight d - 1) with (nHeight c) by lia. by apply ancestor_ref_self.
Qed.

Lemma nth_insert {A} (l : list A) i j (x d : A) :
  (i < length l)%nat → nth j (<[i:=x]> l) d = if decide (i = j) then x else nth j l d.
Proof.
  intros. rewrite !nth_lookup. destruct (decide (i = j)) as [->|].
  - by rewrite list_lookup_insert_eq.
  - by rewrite list_lookup_insert_ne.
Qed.

Section set_tip.
Context (h : store) (Hl : linked h) (c : chain) (Hc : chain_ok h c).
Context (p : ptr) (b : CBlockIndex) (Hp : h !! p = Some b).
Abbreviation A j := (ancestor_ref h p (Z.of_nat j)).
Abbreviation n := (Z.to_nat (nHeight b + 1)).

(** Reaching an entry that the old chain already has, the rest agrees. *)
Lemma old_chain_agrees k q :
  nth k c None = Some q → A k = Some q → ∀ j, (j ≤ k)%nat → nth j c None = A j.
Proof.
  intros Hk HA j Hj. destruct Hc as [->|(t & bt & Ht & ->)]; [by destruct k|].
  destruct (decide (k < Z.to_nat (nHeight bt + 1))%nat) as [Hlt|Hge].
  2:{ rewrite nth_overflow in Hk by (rewrite (length_branch h t bt); [lia|done]). done. }
  rewrite (nth_branch h t bt) in Hk |- * by (done || lia).
  rewrite <-(ancestor_ref_trans h t bt q (Z.of_nat k)) by (done || lia).
  by rewrite (ancestor_ref_trans h p b q (Z.of_nat k)) by (done || lia).
Qed.

Lemma SetTip_loop_spec fuel k c' pindex :
  (k ≤ n)%nat → (k ≤ fuel)%nat → length c' = n →
  (∀ j, (k ≤ j < n)%nat → nth j c' None = A j) →
  (∀ j, (j < k)%nat → nth j c' None = nth j c None) →
  pindex = (if decide (k = 0%nat) then None else A (k - 1)) →
  length (SetTip_loop h fuel c' pindex) = n ∧
  ∀ j, (j < n)%nat → nth j (SetTip_loop h fuel c' pindex) None = A j.
Proof.
  pose proof (Hl p b Hp) as [Hb0 _].
  revert k c' pindex. induction fuel as [|fuel IH]; intros k c' pindex Hk Hf Hlen Hhi Hlo Hpi.
  { assert (k = 0%nat) as -> by lia. rewrite decide_True in Hpi by done. subst pindex.
    split; [done|]. intros j Hj. apply Hhi. lia. }
  destruct k as [|k].
  { rewrite decide_True in Hpi by done. subst pindex. split; [done|]. intros. apply Hhi. lia. }
  rewrite decide_False in Hpi by done. replace (S k - 1)%nat with k in Hpi by lia.
  destruct (ancestor_ref_Some h p b (Z.of_nat k) Hl Hp ltac:(lia)) as (q & d & Eq & Hq & Hd).
  rewrite Eq in Hpi. subst pindex. cbn [SetTip_loop]. rewrite Hq.
  replace (Z.to_nat (nHeight d)) with k by lia.
  destruct (decide (nth k c' None = Some q)) as [E|E].
  - split; [done|]. intros j Hj. destruct (decide (j ≤ k)%nat); [|apply Hhi; lia].
    rewrite Hlo by lia. rewrite Hlo in E by lia. apply (old_chain_agrees k q); (done || lia).
  - apply (IH k); [lia|lia|by rewrite length_insert| | |].
    + intros j Hj. rewrite nth_insert by lia. destruct (decide (k = j)) as [<-|]; [done|].
      apply Hhi. lia.
    + intros j Hj. rewrite nth_insert by lia. rewrite decide_False by lia. apply Hlo. lia.
    + destruct (Hl q d Hq) as [_ Hdp]. destruct (pprev d) as [r|] eqn:Er.
      * destruct Hdp as (e & He & Ee). destruct (Hl r e He) as [He0 _].
        rewrite decide_False by lia.
        rewrite <-(ancestor_ref_trans h p b q (Z.of_nat k)) by (done || lia).
        replace (Z.of_nat (k - 1)) with (nHeight d - 1) by lia.
        by rewrite (ancestor_ref_parent h q d r).
      * rewrite decide_True by lia. done.
Qed.

Lemma nth_resize j : (j < n)%nat → nth j (vec_resize c n) None = nth j c None.
Proof.
  intros Hj. unfold vec_resize. destruct (decide (j < length c)%nat).
  - rewrite app_nth1 by (rewrite length_take; lia). rewrite !nth_lookup.
    by rewrite lookup_take_lt by lia.
  - rewrite (nth_overflow c) by lia. rewrite app_nth2 by (rewrite length_take; lia).
    rewrite nth_lookup. destruct (replicate _ _ !! _) eqn:E; [|done].
    by apply lookup_replicate in E as [-> _].
Qed.

Lemma SetTip_branch : SetTip h c (Some p) = branch h p.
Proof.
  pose proof (Hl p b Hp) as [Hb0 _]. unfold SetTip. rewrite Hp.
  destruct (SetTip_loop_spec n n (vec_resize c n) (Some p)) as [Hlen Hnth].
  - lia.
  - lia.
  - unfold vec_resize. rewrite length_app, length_take, length_replicate. lia.
  - intros j Hj. lia.
  - apply nth_resize.
  - rewrite decide_False by lia. replace (Z.of_nat (n - 1)) with (nHeight b) by lia.
    by rewrite (ancestor_ref_self h p b).
  - apply (nth_ext _ _ None None).
    + by rewrite Hlen, (length_branch h p b).
    + intros j Hj. rewrite Hlen in Hj. rewrite Hnth by done. by rewrite (nth_branch h p b).
Qed.
End set_tip.

Lemma Contains_branch h t bt p b :
  linked h → h !! t = Some bt → h !! p = Some b →
  Contains h (branch h t) p = true ↔ ancestor_ref h t (nHeight b) = Some p.
Proof.
  intros Hl Ht Hp. unfold Contains. rewrite Hp, bool_decide_eq_true.
  destruct (Hl p b Hp) as [Hb0 _]. destruct (Hl t bt Ht) as [Ht0 _].
  unfold chain_at. rewrite (length_branch h t bt) by done.
  destruct (decide (nHeight b ≤ nHeight bt)).
  - replace (nHeight b <? 0) with false by lia.
    replace (Z.of_nat (Z.to_nat (nHeight bt + 1)) <=? nHeight b) with false by lia.
    simpl. rewrite (nth_branch h t bt) by (done || lia). by rewrite Z2Nat.id by lia.
  - replace (Z.of_nat (Z.to_nat (nHeight bt + 1)) <=? nHeight b) with true by lia.
    rewrite orb_true_r. unfold ancestor_ref. rewrite Ht. simpl.
    by replace (nHeight bt <? nHeight b) with true by lia.
Qed.

(** ** Last common blocks *)

(** [q] at height [k] is the last block the branches of [p] and [t] share. *)
Definition last_common (h : store) (p t q : ptr) (k : Z) : Prop :=
  ancestor_ref h p k = Some q ∧ ancestor_ref h t k = Some q ∧
  ∀ j x, k < j → ancestor_ref h p j = Some x → ancestor_ref h t j ≠ Some x.

Lemma ancestor_ref_height h p b k q :
  linked h → h !! p = Some b → ancestor_ref h p k = Some q →
  0 ≤ k ≤ nHeight b ∧ ∃ d, h !! q = Some d ∧ nHeight d = k.
Proof.
  intros Hl Hp E. assert (0 ≤ k ≤ nHeight b) as Hk.
  { unfold ancestor_ref in E. rewrite Hp in E. cbn [mbind option_bind] in E.
    destruct (Z.ltb_spec (nHeight b) k), (Z.ltb_spec k 0); simpl in E; try done; lia. }
  split; [done|]. destruct (ancestor_ref_Some h p b k Hl Hp Hk) as (q' & d & E' & Hq & Hd).
  exists d. split; [|done]. congruence.
Qed.

Section fork.
Context (h : store) (Hl : linked h) (Hs : skips_ok h).
Context (p t : ptr) (b bt : CBlockIndex) (Hp : h !! p = Some b) (Ht : h !! t = Some bt).
Context (Hgen : ancestor_ref h p 0 = ancestor_ref h t 0).

Lemma ancestor_step q d k :
  ancestor_ref h p (Z.of_nat (S k)) = Some q → h !! q = Some d →
  ancestor_ref h p (Z.of_nat k) = pprev d.
Proof.
  intros E Hq. destruct (ancestor_ref_height h p b _ q Hl Hp E) as (Hk & d' & Hq' & Hd).
  assert (d' = d) as -> by congruence.
  rewrite <-(ancestor_ref_trans h p b q (Z.of_nat (S k))) by (done || lia).
  destruct (Hl q d Hq) as [_ Hdp]. destruct (pprev d) as [r|] eqn:Er; [|lia].
  replace (Z.of_nat k) with (nHeight d - 1) by lia. by apply ancestor_ref_parent.
Qed.

Lemma FindFork_loop_spec fuel k pindex :
  Z.of_nat k ≤ nHeight b → (k ≤ fuel)%nat →
  pindex = ancestor_ref h p (Z.of_nat k) →
  (∀ j x, Z.of_nat k < j → ancestor_ref h p j = Some x → ancestor_ref h t j ≠ Some x) →
  ∃ q j, FindFork_loop h fuel (branch h t) pindex = Some q ∧ last_common h p t q j.
Proof.
  revert k pindex. induction fuel as [|fuel IH]; intros k pindex Hk Hf -> Hno.
  all: destruct (ancestor_ref_Some h p b (Z.of_nat k) Hl Hp ltac:(lia)) as (q & d & Eq & Hq & Hd).
  all: rewrite Eq; cbn [FindFork_loop];
    destruct (Contains h (branch h t) q) eqn:EC;
    [exists q, (Z.of_nat k); split; [done|]; split_and!; [done| |done];
     apply (Contains_branch h t bt q d) in EC; [by rewrite <-Hd|done..]|].
  all: assert (ancestor_ref h t (Z.of_nat k) ≠ Some q) as Hne
    by (intros E; rewrite <-Hd in E; apply (Contains_branch h t bt q d) in E; [congruence|done..]).
  - exfalso. assert (k = 0%nat) as -> by lia. change (Z.of_nat 0) with 0 in *. congruence.
  - destruct k as [|k]; [exfalso; change (Z.of_nat 0) with 0 in *; congruence|].
    apply (IH k); [lia|lia| |].
    + rewrite Hq. simpl. by rewrite (ancestor_step q d k).
    + intros j x Hj E1. destruct (decide (j = Z.of_nat (S k))) as [->|]; [congruence|].
      apply Hno; [lia|done].
Qed.

Lemma FindFork_last_common :
  ∃ q k, FindFork h (branch h t) p = Some q ∧ last_common h p t q k.
Proof.
  destruct (Hl p b Hp) as [Hb0 _]. destruct (Hl t bt Ht) as [Ht0 _].
  unfold FindFork. rewrite Hp. cbn [mbind option_bind].
  unfold Height. rewrite (length_branch h t bt) by done.
  replace (Z.of_nat (Z.to_nat (nHeight bt + 1)) - 1) with (nHeight bt) by lia.
  apply (FindFork_loop_spec _ (Z.to_nat (nHeight b `min` nHeight bt))); [lia|lia| |].
  - destruct (Z.ltb_spec (nHeight bt) (nHeight b)).
    + rewrite GetAncestor_ref by done. f_equal. lia.
    + rewrite <-(ancestor_ref_self h p b) by done. f_equal. lia.
  - intros j x Hj E1 E2. apply (ancestor_ref_height h p b) in E1 as [? _]; [|done..].
    apply (ancestor_ref_height h t bt) in E2 as [? _]; [|done..]. lia.
Qed.
End fork.

Lemma last_common_loop_spec h p t b bt fuel k :
  linked h → h !! p = Some b → h !! t = Some bt →
  ancestor_ref h p 0 = ancestor_ref h t 0 →
  Z.of_nat k ≤ nHeight b → Z.of_nat k ≤ nHeight bt → (k ≤ fuel)%nat →
  (∀ j x, Z.of_nat k < j → ancestor_ref h p j = Some x → ancestor_ref h t j ≠ Some x) →
  ∃ q j, last_common_loop h fuel (ancestor_ref h p (Z.of_nat k)) (ancestor_ref h t (Z.of_nat k))
           = Some q ∧ last_common h p t q j.
Proof.
  intros Hl Hp Ht Hgen. revert k. induction fuel as [|fuel IH]; intros k Hk Hkt Hf Hno.
  all: destruct (ancestor_ref_Some h p b (Z.of_nat k) Hl Hp ltac:(lia)) as (q & d & Eq & Hq & Hd).
  all: destruct (ancestor_ref_Some h t bt (Z.of_nat k) Hl Ht ltac:(lia)) as (r & e & Er & Hr & He).
  all: rewrite Eq, Er; cbn [last_common_loop];
    destruct (decide (q = r)) as [<-|Hne]; [by exists q, (Z.of_nat k)|].
  - exfalso. assert (k = 0%nat) as -> by lia. change (Z.of_nat 0) with 0 in *. congruence.
  - destruct k as [|k]; [exfalso; change (Z.of_nat 0) with 0 in *; congruence|].
    rewrite Hq, Hr. cbn [mbind option_bind].
    rewrite <-(ancestor_step h Hl p b Hp q d k), <-(ancestor_step h Hl t bt Ht r e k) by done.
    apply IH; [lia|lia|lia|]. intros j x Hj E1.
    destruct (decide (j = Z.of_nat (S k))) as [->|]; [congruence|]. apply Hno; [lia|done].
Qed.

Lemma LastCommonAncestor_last_common h p t b bt :
  linked h → skips_ok h → h !! p = Some b → h !! t = Some bt →
  ancestor_ref h p 0 = ancestor_ref h t 0 →
  ∃ q k, LastCommonAncestor h p t = Some q ∧ last_common h p t q k.
Proof.
  intros Hl Hs Hp Ht Hgen. destruct (Hl p b Hp) as [Hb0 _]. destruct (Hl t bt Ht) as [Ht0 _].
  set (k := Z.to_nat (nHeight b `min` nHeight bt)).
  destruct (last_common_loop_spec h p t b bt k k) as (q & j & E & Hj); auto; [lia|lia| |].
  { intros j x Hj E1 E2. apply (ancestor_ref_height h p b) in E1 as [? _]; [|done..].
    apply (ancestor_ref_height h t bt) in E2 as [? _]; [|done..]. lia. }
  exists q, j. split; [|done]. rewrite <-E.
  unfold LastCommonAncestor. rewrite Hp, Ht. cbn [mbind option_bind]. fold k.
  rewrite !GetAncestor_ref by done. f_equal.
  - destruct (Z.ltb_spec (nHeight bt) (nHeight b)); [f_equal; lia|].
    rewrite <-(ancestor_ref_self h p b) by done. f_equal. lia.
  - destruct (Z.ltb_spec (nHeight bt) (nHeight b)), (Z.ltb_spec (nHeight b) (nHeight bt)); simpl;
      try lia; try (f_equal; lia);
      rewrite <-(ancestor_ref_self h t bt) by done; f_equal; lia.
Qed.

(** ** Properties *)

(** C14: the skip-list search [GetAncestor] returns exactly the block reached by
    following [pprev] down to the requested height, and it always finds it when
    the height is between 0 and the block's own height. *)
Theorem GetAncestor_skiplist (h : store) (p : nat) (b : CBlockIndex) (height : Z) :
  linked h → skips_ok h → h !! p = Some b →
  GetAncestor h p height = ancestor_ref h p height ∧
  (0 ≤ height ≤ nHeight b →
    ∃ q c, GetAncestor h p height = Some q ∧ h !! q = Some c ∧ nHeight c = height).
Proof.
  intros Hl Hs Hp. split; [by apply GetAncestor_ref|]. intros Hh.
  rewrite GetAncestor_ref by done. by apply (ancestor_ref_Some h p b).
Qed.

(** [BuildSkip], run on a node newly linked under its parent, keeps the store
    well linked and makes every skip pointer correct again. *)
Theorem BuildSkip_invariant (h : store) (this : nat) (b : CBlockIndex) :
  linked h → h !! this = Some b →
  (∀ p c q, h !! p = Some c → p ≠ this → pprev c = Some q →
    pskip c = ancestor_ref h q (GetSkipHeight (nHeight c))) →
  (∀ p c, h !! p = Some c → pprev c ≠ Some this) →
  linked (BuildSkip h this) ∧ skips_ok (BuildSkip h this).
Proof. apply BuildSkip_preserves. Qed.

(** whatever branch the active chain held, [SetTip] leaves it equal to the
    list of the ancestors of the new tip, from genesis up. *)
Theorem SetTip_correct (h : store) (c : list (option nat)) (p : nat) (b : CBlockIndex) :
  linked h → chain_ok h c → h !! p = Some b →
  SetTip h c (Some p) = branch h p ∧ chain_ok h (SetTip h c (Some p)) ∧
  Tip (SetTip h c (Some p)) = Some p ∧ Height (SetTip h c (Some p)) = nHeight b.
Proof.
  intros Hl Hc Hp. rewrite (SetTip_branch h Hl c Hc p b Hp).
  destruct (Hl p b Hp) as [Hb0 _]. pose proof (length_branch h p b Hp) as Hlen.
  split_and!; [done|right; eauto| |unfold Height; lia].
  unfold Tip. rewrite Hlen. replace (Z.to_nat (nHeight b + 1) <? 1)%nat with false by lia.
  rewrite (nth_branch h p b) by (done || lia).
  rewrite <-(ancestor_ref_self h p b) by done. f_equal. lia.
Qed.

(** for two blocks of one tree, [FindFork] (against the active chain) and
    [LastCommonAncestor] both return the highest block that is an ancestor of
    both; the search never dereferences a null pointer. *)
Theorem fork_search_correct (h : store) (p t : nat) (b bt : CBlockIndex) :
  linked h → skips_ok h → h !! p = Some b → h !! t = Some bt →
  ancestor_ref h p 0 = ancestor_ref h t 0 →
  (∃ q k, FindFork h (branch h t) p = Some q ∧ last_common h p t q k) ∧
  (∃ q k, LastCommonAncestor h p t = Some q ∧ last_common h p t q k).
Proof.
  intros. split.
  - by apply (FindFork_last_common h) with b bt.
  - by apply (LastCommonAncestor_last_common h p t b bt).
Qed.

(** A small tree: 0 <- 1 <- 2 <- 4, and 3 on top of 1. *)
Definition demo_node (prev skip : option nat) (height : Z) : CBlockIndex :=
  MkBlockIndex [] prev skip height 0 1 (1000 + 60 * height) 0x1e0ffff0.
Definition demo_store : store :=
  <[0%nat := demo_node None None 0]> (
  <[1%nat := demo_node (Some 0%nat) (Some 0%nat) 1]> (
  <[2%nat := demo_node (Some 1%nat) (Some 0%nat) 2]> (
  <[3%nat := demo_node (Some 1%nat) (Some 0%nat) 2]> (
  <[4%nat := demo_node (Some 2%nat) (Some 1%nat) 3]> ∅)))).

Ltac store_cases H :=
  unfold demo_store in H;
  repeat (apply lookup_insert_Some in H as [[<- <-]|[_ H]]); [..|by rewrite lookup_empty in H].

Lemma demo_linked : linked demo_store.
Proof.
  intros p b Hp. store_cases Hp; (split; [simpl; lia|]); simpl; try done;
    eexists; split; reflexivity.
Qed.

Lemma demo_skips : skips_ok demo_store.
Proof. intros p b q Hp Hq. store_cases Hp; simpl in Hq; simplify_eq; reflexivity. Qed.

Lemma GetAncestor_skiplist_witness : GetAncestor demo_store 4 1 = ancestor_ref demo_store 4 1.
Proof.
  apply (GetAncestor_skiplist demo_store 4 (demo_node (Some 2%nat) (Some 1%nat) 3) 1).
  - exact demo_linked.
  - exact demo_skips.
  - reflexivity.
Defined.

(** The node 4 before its skip pointer is built. *)
Definition demo_store_new : store :=
  <[4%nat := demo_node (Some 2%nat) None 3]> demo_store.

Lemma demo_new_linked : linked demo_store_new.
Proof.
  intros p b Hp. unfold demo_store_new in Hp. apply lookup_insert_Some in Hp as [[<- <-]|[Hne Hp]].
  - split; [simpl; lia|]. eexists. split; reflexivity.
  - store_cases Hp; (split; [simpl; lia|]); simpl; try done; eexists; split; reflexivity.
Qed.

Lemma BuildSkip_invariant_witness :
  BuildSkip demo_store_new 4 !! 4%nat = Some (demo_node (Some 2%nat) (Some 1%nat) 3) ∧
  skips_ok (BuildSkip demo_store_new 4).
Proof.
  split; [reflexivity|].
  apply (BuildSkip_invariant demo_store_new 4 (demo_node (Some 2%nat) None 3)).
  - exact demo_new_linked.
  - reflexivity.
  - intros p c q Hp Hne Hq. unfold demo_store_new in Hp. rewrite lookup_insert_ne in Hp by done.
    store_cases Hp; simpl in Hq; simplify_eq; reflexivity.
  - intros p c Hp. unfold demo_store_new in Hp.
    apply lookup_insert_Some in Hp as [[<- <-]|[Hne Hp]]; [done|]. store_cases Hp; done.
Defined.

Lemma SetTip_correct_witness :
  SetTip demo_store (branch demo_store 3) (Some 4%nat) =
    [Some 0; Some 1; Some 2; Some 4]%nat.
Proof.
  destruct (SetTip_correct demo_store (branch demo_store 3) 4
    (demo_node (Some 2%nat) (Some 1%nat) 3)) as [-> _].
  - exact demo_linked.
  - right. exists 3%nat. eexists. split; reflexivity.
  - reflexivity.
  - reflexivity.
Defined.

Lemma fork_search_correct_witness :
  FindFork demo_store (branch demo_store 4) 3 = Some 1%nat ∧
  ∃ q k, FindFork demo_store (branch demo_store 4) 3 = Some q ∧ last_common demo_store 3 4 q k.
Proof.
  split; [reflexivity|].
  apply (fork_search_correct demo_store 3 4
    (demo_node (Some 1%nat) (Some 0%nat) 2) (demo_node (Some 2%nat) (Some 1%nat) 3)).
  - exact demo_linked.
  - exact demo_skips.
  - reflexivity.
  - reflexivity.
  - reflexivity.
Defined.
