(* ===== verification/Pow.v ===== *)
(** pow.cpp (retargeting, the proof-of-work test, the work of a block) and
    [CBlockIndex::GetBlockTrust] of chain.cpp.

    [None] is a run that does not return: a null dereference, the exception of
    a division by zero or a failed assertion. *)

From S2P Require Import Prelude ArithUint256 ChainParams BlockIndex.
Import BaseUint Arith256.

(** The conversions of the arithmetic operands: [*=] and [*] with an [int64_t]
    select the [uint32_t] overload, [/=] and [/] convert it to a [base_uint]
    through [uint64_t]. *)
Definition mul_i64 (a : list Z) (n : Z) : list Z := op_mul32 a (u32 n).
Definition div_i64 (a : list Z) (n : Z) : option (list Z) := op_div W256 a (of_u64 W256 (u64 n)).

Definition GetBlockTime (b : CBlockIndex) : Z := nTime b.

Section pow.
Context (Params : CChainParams).

(** The proof-of-stake branch of [GetNextWorkRequired]: the target moves
    exponentially toward the target spacing at every block. *)
Definition GetNextWorkRequired_pos (h : store) (last : CBlockIndex) : option Z :=
  let bnTargetLimit := limit_shr 24 in
  let nTargetSpacing := 60 in
  let nTargetTimespan := 60 * 40 in
  nActualSpacing ←
    (if negb (nHeight last =? 0)
     then prev ← pprev last ≫= (λ p, h !! p); Some (GetBlockTime last - GetBlockTime prev)
     else Some 0);
  let nActualSpacing := if nActualSpacing <? 0 then 1 else nActualSpacing in
  let bnNew := cr_value (SetCompact (nBits last)) in
  let nInterval := nTargetTimespan / nTargetSpacing in
  let bnNew := mul_i64 bnNew ((nInterval - 1) * nTargetSpacing + nActualSpacing + nActualSpacing) in
  bnNew ← div_i64 bnNew ((nInterval + 1) * nTargetSpacing);
  let bnNew :=
    if op_le bnNew (of_u64 W256 0) || op_gt bnNew bnTargetLimit then bnTargetLimit else bnNew in
  GetCompact bnNew false.

Record DGW := MkDGW {
  nActualTimespan : Z;
  LastBlockTime : Z;
  CountBlocks : Z;
  PastDifficultyAverage : list Z;
  PastDifficultyAveragePrev : list Z;
}.

Definition PastBlocksMin : Z := 24.
Definition PastBlocksMax : Z := 24.

(** One iteration of the averaging loop, up to the move to [pprev]. *)
Definition dgw_step (b : CBlockIndex) (s : DGW) : option DGW :=
  let count := CountBlocks s + 1 in
  let target := cr_value (SetCompact (nBits b)) in
  '(avg, prev) ←
    (if count <=? PastBlocksMin then
       avg ← (if count =? 1 then Some target
              else div_i64 (op_add (mul_i64 (PastDifficultyAveragePrev s) count) target) (count + 1));
       Some (avg, avg)
     else Some (PastDifficultyAverage s, PastDifficultyAveragePrev s));
  let timespan :=
    if 0 <? LastBlockTime s then nActualTimespan s + (LastBlockTime s - GetBlockTime b)
    else nActualTimespan s in
  Some (MkDGW timespan (GetBlockTime b) count avg prev).

(** [for (uint32_t i = 1; BlockReading && BlockReading->nHeight > 0; i++)]. The
    loop leaves at [i > PastBlocksMax], so [fuel = PastBlocksMax + 1] suffices. *)
Fixpoint dgw_loop (h : store) (fuel : nat) (i : Z) (BlockReading : option ptr) (s : DGW) :
    option DGW :=
  match BlockReading with
  | None => Some s
  | Some p =>
      b ← h !! p;
      if negb (0 <? nHeight b) then Some s
      else if (0 <? PastBlocksMax) && (PastBlocksMax <? i) then Some s
      else
        s ← dgw_step b s;
        match pprev b, fuel with
        | None, _ => Some s
        | _, O => None
        | Some q, S fuel => dgw_loop h fuel (i + 1) (Some q) s
        end
  end.

(** The tail of [GetNextWorkRequired]: clamp the time span, retarget. *)
Definition dgw_retarget (s : DGW) : option Z :=
  let target_span := CountBlocks s * nTargetSpacing Params in
  let span := nActualTimespan s in
  let span := if span <? Z.quot target_span 3 then Z.quot target_span 3 else span in
  let span := if target_span * 3 <? span then target_span * 3 else span in
  bnNew ← div_i64 (mul_i64 (PastDifficultyAverage s) span) target_span;
  let bnNew :=
    if op_gt bnNew (bnProofOfWorkLimit Params) then bnProofOfWorkLimit Params else bnNew in
  GetCompact bnNew false.

Definition GetNextWorkRequired (h : store) (pindexLast : option ptr) : option Z :=
  last ← pindexLast ≫= (λ p, h !! p);
  if (nHeight last <? nLastPOWBlock Params) && fAllowMinDifficultyBlocks Params
  then GetCompact (bnProofOfWorkLimit Params) false
  else if (nHeight last =? 0) || (nHeight last <? PastBlocksMin)
  then GetCompact (bnProofOfWorkLimit Params) false
  else if nLastPOWBlock Params <? nHeight last
  then GetNextWorkRequired_pos h last
  else
    s ← dgw_loop h 25 1 pindexLast (MkDGW 0 0 0 (zero W256) (zero W256));
    dgw_retarget s.

Definition CheckProofOfWork (hash : list Z) (nBits : Z) : bool :=
  if fSkipProofOfWorkCheck Params then true
  else
    let r := SetCompact nBits in
    let bnTarget := cr_value r in
    if cr_negative r || EqualTo bnTarget 0 || cr_overflow r ||
       op_gt bnTarget (bnProofOfWorkLimit Params)
    then false
    else if op_gt (UintToArith256 hash) bnTarget then false
    else true.

End pow.

(** [GetBlockProof]: [(~bnTarget / (bnTarget + 1)) + 1] *)
Definition GetBlockProof (b : CBlockIndex) : option (list Z) :=
  let r := SetCompact (nBits b) in
  let bnTarget := cr_value r in
  if cr_negative r || cr_overflow r || EqualTo bnTarget 0 then Some (of_u64 W256 0)
  else
    q ← op_div W256 (op_not bnTarget) (op_add bnTarget (of_u64 W256 1));
    Some (op_add q (of_u64 W256 1)).

(** [CBlockIndex::GetBlockTrust] *)
Definition GetBlockTrust (b : CBlockIndex) : option (list Z) :=
  let bnTarget := cr_value (SetCompact (nBits b)) in
  if op_le bnTarget (of_u64 W256 0) then Some (of_u64 W256 0)
  else if IsProofOfStake b then
    op_div W256 (op_shl W256 (of_u64 W256 1) 256) (op_add bnTarget (of_u64 W256 1))
  else
    bnPoWTrust ← op_div W256 (limit_shr 20) (op_add bnTarget (of_u64 W256 1));
    Some (if op_gt bnPoWTrust (of_u64 W256 1) then bnPoWTrust else of_u64 W256 1).
