(* ===== verification/PowFacts.v ===== *)
(** Proof of work: the exact work of a block, the target test, the range and
    totality of the retargeting rule. *)

From S2P Require Import Prelude ArithUint256 ArithFacts CompactFacts ChainParams BlockIndex BlockIndexFacts Pow.
Import BaseUint Arith256.

(** The target a compact word decodes to, truncated to 256 bits. *)
Abbreviation target_of c := (val (cr_value (SetCompact c))).

Lemma modulus_256 : 2 ^ BITS 8 = 2 ^ 256.
Proof. reflexivity. Qed.

Lemma val_bound256 a : wf256 a → 0 ≤ val a < 2 ^ 256.
Proof. apply (wf_val_bound 8). Qed.

Lemma SetCompact_wf c : fits 32 c → wf256 (cr_value (SetCompact c)).
Proof. intros. by apply SetCompact_correct. Qed.

Lemma small_spec n : fits 64 n → wf256 (of_u64 8 n) ∧ val (of_u64 8 n) = n.
Proof. intros. split; [apply (of_u64_wf 8); lia|by apply (val_of_u64 8)]. Qed.

(** A decoded target is never 2^256 - 1, so adding one to it does not wrap. *)
Lemma target_succ c : fits 32 c → 0 ≤ target_of c ∧ target_of c + 1 < 2 ^ 256.
Proof.
  intros Hc. destruct (SetCompact_correct c Hc) as (Hw & Hv & _).
  pose proof (val_bound256 _ Hw) as Hb. split; [lia|].
  enough (target_of c ≠ 2 ^ 256 - 1) by lia. intros E. rewrite E in Hv. clear E Hw Hb.
  assert (0 ≤ c `mod` 2 ^ 23 < 2 ^ 23) as Hm by (apply Z.mod_pos_bound; lia).
  destruct (Z.le_gt_cases (c / 2 ^ 24) 3) as [He|He].
  - rewrite compact_magnitude_small in Hv by done.
    assert (0 ≤ c / 2 ^ 24) by (apply Z.div_pos; unfold fits in Hc; lia).
    assert (0 < 2 ^ (8 * (3 - c / 2 ^ 24))) as HP by (apply Z.pow_pos_nonneg; lia).
    revert Hv HP Hm. generalize (c `mod` 2 ^ 23) (2 ^ (8 * (3 - c / 2 ^ 24))). intros m P Hv HP Hm.
    assert (0 ≤ m / P ≤ m) by (split; [apply Z.div_pos; lia|apply Z.div_le_upper_bound; nia]).
    rewrite Z.mod_small in Hv by (change (2 ^ 256) with (2 ^ 23 * 2 ^ 233); lia). lia.
  - rewrite compact_magnitude_large in Hv by (done || lia).
    replace (8 * (c / 2 ^ 24 - 3)) with (8 * (c / 2 ^ 24 - 4) + 8) in Hv by lia.
    rewrite Z.pow_add_r in Hv by lia.
    revert Hv. generalize (c `mod` 2 ^ 23) (2 ^ (8 * (c / 2 ^ 24 - 4))). intros m P Hv.
    pose proof (Z.div_mod (m * (P * 2 ^ 8)) (2 ^ 256) ltac:(lia)) as Hd. rewrite <-Hv in Hd.
    change (2 ^ 256) with (2 ^ 248 * 2 ^ 8) in Hd. lia.
Qed.

Lemma target_succ_spec c :
  fits 32 c →
  wf256 (op_add (cr_value (SetCompact c)) (of_u64 8 1)) ∧
  val (op_add (cr_value (SetCompact c)) (of_u64 8 1)) = target_of c + 1 ∧
  0 < val (op_add (cr_value (SetCompact c)) (of_u64 8 1)).
Proof.
  intros Hc. pose proof (SetCompact_wf c Hc) as Hw. pose proof (target_succ c Hc) as Hb.
  destruct (small_spec 1) as [W1 V1]; [unfold fits; lia|].
  split; [by apply (op_add_wf 8)|]. rewrite (op_add_val 8), V1 by done.
  rewrite modulus_256, Z.mod_small by lia. split; [done|lia].
Qed.

Lemma div_some a b :
  wf256 a → wf256 b → 0 < val b →
  ∃ q, op_div 8 a b = Some q ∧ wf256 q ∧ val q = val a / val b.
Proof. intros Ha Hb H. destruct (op_div_spec 8 a b Ha Hb) as [[E _]|[_ Hq]]; [lia|done]. Qed.

(** ** The work of a block *)

(** The work a block stands for: 2^256 / (target + 1), and none when the target
    is negative, zero or does not fit. *)
Definition block_work (c : Z) : Z :=
  let m := compact_magnitude c in
  if Z.testbit c 23 && negb (m =? 0) || (2 ^ 256 <=? m) || (m =? 0) then 0
  else 2 ^ 256 / (m + 1).

Lemma work_identity t M : 0 ≤ t → (M - 1 - t) / (t + 1) + 1 = M / (t + 1).
Proof.
  intros. rewrite <-Z.div_add by lia. f_equal. lia.
Qed.

Lemma work_small t M : 1 ≤ t → 2 ≤ M → 0 ≤ M / (t + 1) < M.
Proof. intros. split; [apply Z.div_pos; lia|]. apply Z.div_lt_upper_bound; nia. Qed.

Lemma GetBlockProof_spec b :
  fits 32 (nBits b) →
  ∃ w, GetBlockProof b = Some w ∧ wf256 w ∧ val w = block_work (nBits b).
Proof.
  intros Hc. destruct (SetCompact_correct _ Hc) as (Hw & Hv & Ho & Hn).
  unfold GetBlockProof, block_work. rewrite Ho, Hn.
  pose proof (target_succ _ Hc) as Ht. destruct (target_succ_spec _ Hc) as (Ws & Vs & Ps).
  rewrite (EqualTo_spec 8) by (done || unfold fits; lia).
  destruct (small_spec 0) as [W0 V0]; [unfold fits; lia|].
  destruct (small_spec 1) as [W1 V1]; [unfold fits; lia|].
  set (m := compact_magnitude (nBits b)) in *.
  destruct (Z.testbit (nBits b) 23 && negb (m =? 0)); [by exists (of_u64 8 0)|].
  destruct (Z.leb_spec (2 ^ 256) m) as [Hge|Hlt]; [by exists (of_u64 8 0)|]. cbn [orb].
  assert (0 ≤ m) as Hm0.
  { subst m. unfold compact_magnitude. apply Z.div_pos; [|lia].
    apply Z.mul_nonneg_nonneg; [apply Z.mod_pos_bound; lia|apply Z.pow_nonneg; lia]. }
  rewrite (Z.mod_small m) in Hv by lia. rewrite Hv in *.
  destruct (Z.eqb_spec m 0) as [E|E]; [by exists (of_u64 8 0)|].
  destruct (div_some (op_not (cr_value (SetCompact (nBits b)))) _ (op_not_wf 8 _ Hw) Ws Ps)
    as (q & -> & Hq & Vq).
  exists (op_add q (of_u64 8 1)). split; [done|]. split; [by apply (op_add_wf 8)|].
  rewrite (op_add_val 8), V1, Vq, Vs, (op_not_val 8), Hv, modulus_256 by done.
  rewrite work_identity by lia. apply Z.mod_small, work_small; lia.
Qed.

Lemma one_shl_256 : val (op_shl 8 (of_u64 8 1) 256) = 0.
Proof. vm_compute. reflexivity. Qed.

Lemma GetBlockTrust_spec b :
  fits 32 (nBits b) →
  ∃ w, GetBlockTrust b = Some w ∧ wf256 w ∧
    val w = if target_of (nBits b) =? 0 then 0
            else if IsProofOfStake b then 0
            else Z.max 1 ((2 ^ 236 - 1) / (target_of (nBits b) + 1)).
Proof.
  intros Hc. pose proof (SetCompact_wf _ Hc) as Hw. pose proof (target_succ _ Hc) as Ht.
  destruct (target_succ_spec _ Hc) as (Ws & Vs & Ps). unfold GetBlockTrust.
  destruct (small_spec 0) as [W0 V0]; [unfold fits; lia|].
  destruct (small_spec 1) as [W1 V1]; [unfold fits; lia|].
  rewrite (op_le_spec 8), V0 by done.
  destruct (Z.leb_spec (target_of (nBits b)) 0), (Z.eqb_spec (target_of (nBits b)) 0);
    try lia; [by exists (of_u64 8 0)|].
  destruct (IsProofOfStake b).
  - destruct (op_shl_spec 8 (of_u64 8 1) 256 W1) as [Wd _]; [lia|].
    destruct (div_some (op_shl 8 (of_u64 8 1) 256) _ Wd Ws Ps) as (q & -> & Hq & Vq).
    exists q. by rewrite Vq, one_shl_256.
  - assert (wf256 (limit_shr 20)) as Wl.
    { apply (op_shr_spec 8); [apply (op_not_wf 8), W0|lia]. }
    destruct (div_some _ _ Wl Ws Ps) as (q & -> & Hq & Vq). cbn [mbind option_bind].
    eexists. split; [done|]. rewrite (op_gt_spec 8), V1, Vq, Vs by done.
    replace (val (limit_shr 20)) with (2 ^ 236 - 1) by (vm_compute; reflexivity).
    destruct (Z.ltb_spec 1 ((2 ^ 236 - 1) / (target_of (nBits b) + 1))).
    + rewrite Vq, Vs. replace (val (limit_shr 20)) with (2 ^ 236 - 1) by (vm_compute; reflexivity).
      split; [done|lia].
    + rewrite V1. split; [done|lia].
Qed.

(** ** The proof-of-work test *)

(** The number a 32-byte hash stands for. *)
Abbreviation hash_val := (le_val 8) (only parsing).

Lemma UintToArith256_spec u :
  length u = 32%nat → words 8 u →
  wf256 (UintToArith256 u) ∧ val (UintToArith256 u) = hash_val u.
Proof.
  intros Hl Hu. set (a := Z_to_little_endian 8 32 (hash_val u)).
  assert (wf256 a) as Ha.
  { split; [|by apply (Z_to_little_endian_bound 8 32)].
    apply Nat2Z.inj. unfold a. by rewrite length_Z_to_little_endian. }
  pose proof (le_val_bound 8 u ltac:(lia) Hu) as Hb. rewrite Hl in Hb.
  assert (val a = hash_val u) as Hv.
  { unfold a. rewrite little_endian_to_Z_to_little_endian by lia. apply Z.mod_small, Hb. }
  assert (u = ArithToUint256 a) as E.
  { apply (le_val_inj 8); [lia| |done| |].
    - rewrite Hl. clearbody a. destruct Ha as [La _].
      do 8 (destruct a as [|? a]; [done|]). by destruct a.
    - unfold ArithToUint256. clearbody a. clear -Ha. destruct Ha as [_ Ha].
      induction Ha as [|x a Hx Ha IH]; cbn [flat_map]; [constructor|].
      apply Forall_app. split; [|done]. by apply (Z_to_little_endian_bound 4 8).
    - unfold ArithToUint256. destruct Ha as [_ Ha]. by rewrite le_val_flat_WriteLE32. }
  rewrite E at 1 2. by rewrite UintToArith256_ArithToUint256.
Qed.

Lemma CheckProofOfWork_spec Params hash c :
  wf256 (bnProofOfWorkLimit Params) → fits 32 c → length hash = 32%nat → words 8 hash →
  CheckProofOfWork Params hash c = true ↔
    fSkipProofOfWorkCheck Params = true ∨
    (Z.testbit c 23 = false ∧ 0 < compact_magnitude c < 2 ^ 256 ∧
     compact_magnitude c ≤ val (bnProofOfWorkLimit Params) ∧
     hash_val hash ≤ compact_magnitude c).
Proof.
  intros HL Hc Hl Hh. unfold CheckProofOfWork.
  destruct (fSkipProofOfWorkCheck Params); [naive_solver|].
  destruct (SetCompact_correct _ Hc) as (Hw & Hv & -> & ->).
  destruct (UintToArith256_spec hash Hl Hh) as [Wu Vu].
  rewrite (EqualTo_spec 8) by (done || unfold fits; lia).
  rewrite !(op_gt_spec 8), Vu, Hv by done.
  assert (0 ≤ compact_magnitude c) as H0.
  { unfold compact_magnitude. apply Z.div_pos; [|lia].
    apply Z.mul_nonneg_nonneg; [apply Z.mod_pos_bound; lia|apply Z.pow_nonneg; lia]. }
  destruct (Z.leb_spec (2 ^ 256) (compact_magnitude c)) as [Hge|Hlt].
  { rewrite !orb_true_r. split; [done|]. intros [?|(_ & ? & _)]; [done|lia]. }
  rewrite (Z.mod_small (compact_magnitude c)) by lia. rewrite orb_false_r.
  pose proof (val_bound256 _ HL) as HLb.
  destruct (Z.testbit c 23); simpl;
    destruct (Z.eqb_spec (compact_magnitude c) 0); simpl;
    try (split; [done|]; intros [?|(? & ? & ?)]; [done|lia || done]).
  destruct (Z.ltb_spec (val (bnProofOfWorkLimit Params)) (compact_magnitude c)),
    (Z.ltb_spec (compact_magnitude c) (hash_val hash));
    (split; [intros ?; try done|intros [?|(? & ? & ?)]; try done; lia]).
  right. split_and!; (done || lia).
Qed.

(** ** Retargeting *)

Lemma mul_i64_spec a n :
  wf256 a → wf256 (mul_i64 a n) ∧ val (mul_i64 a n) = (val a * u32 n) `mod` 2 ^ 256.
Proof. intros. by apply (op_mul32_spec 8); [|apply wrap_fits; lia]. Qed.

Lemma mul_i64_exact a n :
  wf256 a → 0 ≤ n < 2 ^ 32 → val a * n < 2 ^ 256 → val (mul_i64 a n) = val a * n.
Proof.
  intros Ha Hn Hb. destruct (mul_i64_spec a n Ha) as [_ ->].
  rewrite (wrap_small 32) by done. pose proof (val_bound256 a Ha). apply Z.mod_small.
  split; [apply Z.mul_nonneg_nonneg; lia|done].
Qed.

Lemma div_i64_spec a n :
  wf256 a → 0 < n < 2 ^ 64 → ∃ q, div_i64 a n = Some q ∧ wf256 q ∧ val q = val a / n.
Proof.
  intros Ha Hn. unfold div_i64. rewrite (wrap_small 64) by (unfold fits; lia).
  destruct (small_spec n) as [Wn Vn]; [unfold fits; lia|].
  destruct (div_some a (of_u64 8 n) Ha Wn) as (q & -> & Hq & Vq); [lia|].
  exists q. by rewrite Vq, Vn.
Qed.

(** The last [n] blocks ending at [p], newest first; each has a parent. *)
Fixpoint window (h : store) (n : nat) (p : ptr) : option (list CBlockIndex) :=
  match n with
  | O => Some []
  | S n => b ← h !! p; q ← pprev b; bs ← window h n q; Some (b :: bs)
  end.

Fixpoint dgw_fold (bs : list CBlockIndex) (s : DGW) : option DGW :=
  match bs with
  | [] => Some s
  | b :: bs => s ← dgw_step b s; dgw_fold bs s
  end.

Lemma window_linked h p b n :
  linked h → h !! p = Some b → Z.of_nat n ≤ nHeight b →
  ∃ bs, window h n p = Some bs ∧ length bs = n.
Proof.
  intros Hl. revert p b. induction n as [|n IH]; intros p b Hp Hn; [by exists []|].
  destruct (Hl p b Hp) as [_ Hq]. simpl. rewrite Hp. simpl.
  destruct (pprev b) as [q|]; [|lia]. destruct Hq as (c & Hc & Hh). simpl.
  destruct (IH q c Hc) as (bs & -> & Hbs); [lia|]. exists (b :: bs). simpl. auto.
Qed.

Lemma dgw_loop_window h p n bs fuel i s :
  linked h → window h n p = Some bs → is_Some (h !! p) → i + Z.of_nat n = 25 → 1 ≤ i →
  (n ≤ fuel)%nat → dgw_loop h fuel i (Some p) s = dgw_fold bs s.
Proof.
  intros Hl. revert p bs fuel i s.
  induction n as [|n IH]; intros p bs fuel i s Hw [b Hp] Hi H1 Hf.
  - simplify_eq/=. assert (i = 25) as -> by lia.
    destruct fuel; simpl; rewrite Hp; simpl; by destruct (0 <? nHeight b).
  - simpl in Hw. rewrite Hp in Hw. simpl in Hw. destruct (Hl p b Hp) as [Hb0 Hpp].
    destruct (pprev b) as [q|] eqn:Eq; [|done]. destruct Hpp as (c & Hq & Hh). simpl in Hw.
    destruct (window h n q) as [bs'|] eqn:Ew; [|done]. simplify_eq/=.
    destruct (Hl q c Hq) as [Hc0 _].
    destruct fuel as [|fuel]; [lia|]. simpl. rewrite Hp. simpl.
    replace (0 <? nHeight b) with true by lia. replace (PastBlocksMax <? i) with false
      by (unfold PastBlocksMax; lia). simpl.
    destruct (dgw_step b s) as [s'|]; [|done]. simpl. rewrite Eq. apply (IH q); eauto; lia.
Qed.

(** The moving average on numbers: after [count] blocks the average weighs the
    previous one [count] times, the new target once. *)
Fixpoint average_from (count prev : Z) (ts : list Z) : Z :=
  match ts with
  | [] => prev
  | t :: ts => average_from (count + 1) ((prev * (count + 1) + t) / (count + 2)) ts
  end.

Lemma average_step lo hi count prev t :
  0 < count → lo ≤ prev ≤ hi → lo ≤ t ≤ hi →
  lo ≤ (prev * (count + 1) + t) / (count + 2) ≤ hi.
Proof.
  intros Hc Hp Ht. split; [apply Z.div_le_lower_bound; nia|].
  apply Z.lt_succ_r, Z.div_lt_upper_bound; nia.
Qed.

Lemma average_from_bounds lo hi count prev ts :
  0 < count → lo ≤ prev ≤ hi → Forall (λ t, lo ≤ t ≤ hi) ts →
  lo ≤ average_from count prev ts ≤ hi.
Proof.
  intros Hc Hp Hts. revert count prev Hc Hp.
  induction Hts as [|t ts Ht Hts IH]; intros count prev Hc Hp; [done|].
  apply IH; [lia|]. by apply average_step.
Qed.

(** State of the averaging loop after at least one block. *)
Definition dgw_ok (s : DGW) : Prop :=
  1 ≤ CountBlocks s ∧ wf256 (PastDifficultyAverage s) ∧
  PastDifficultyAveragePrev s = PastDifficultyAverage s.

Definition dgw_init : DGW := MkDGW 0 0 0 (zero W256) (zero W256).

Lemma dgw_step_first b :
  dgw_step b dgw_init =
    Some (MkDGW 0 (nTime b) 1 (cr_value (SetCompact (nBits b))) (cr_value (SetCompact (nBits b)))).
Proof. reflexivity. Qed.

Lemma dgw_step_next b s :
  fits 32 (nBits b) → dgw_ok s → CountBlocks s < 24 →
  ∃ s', dgw_step b s = Some s' ∧ dgw_ok s' ∧ CountBlocks s' = CountBlocks s + 1 ∧
    LastBlockTime s' = nTime b ∧
    (0 < LastBlockTime s →
      nActualTimespan s' = nActualTimespan s + LastBlockTime s - nTime b) ∧
    (val (PastDifficultyAverage s) * (CountBlocks s + 1) + target_of (nBits b) < 2 ^ 256 →
      val (PastDifficultyAverage s') =
        (val (PastDifficultyAverage s) * (CountBlocks s + 1) + target_of (nBits b))
          / (CountBlocks s + 2)).
Proof.
  intros Hb (H1 & Hw & Hpr) Hc. unfold dgw_step.
  replace (CountBlocks s + 1 <=? PastBlocksMin) with true by (unfold PastBlocksMin; lia).
  replace (CountBlocks s + 1 =? 1) with false by lia. rewrite Hpr.
  set (avg := PastDifficultyAverage s) in *. set (n := CountBlocks s) in *.
  destruct (mul_i64_spec avg (n + 1) Hw) as [Wm _].
  pose proof (SetCompact_wf _ Hb) as Wt. pose proof (val_bound256 _ Wt) as Bt.
  destruct (div_i64_spec (op_add (mul_i64 avg (n + 1)) (cr_value (SetCompact (nBits b)))) (n + 1 + 1))
    as (q & -> & Hq & Vq); [by apply (op_add_wf 8)|lia|].
  eexists. split; [reflexivity|]. split; [split_and!; simpl; [lia|done..]|].
  cbn [CountBlocks LastBlockTime nActualTimespan PastDifficultyAverage].
  split_and!; [lia|done| |].
  - intros Ht. replace (0 <? LastBlockTime s) with true by lia. unfold GetBlockTime. lia.
  - intros Hlt. pose proof (val_bound256 avg Hw) as Ba.
    assert (0 ≤ val avg * (n + 1)) as B1 by (apply Z.mul_nonneg_nonneg; lia).
    rewrite Vq, (op_add_val 8), mul_i64_exact by (done || lia).
    rewrite modulus_256, Z.mod_small by lia. f_equal. lia.
Qed.

Lemma dgw_fold_total bs s :
  Forall (λ b, fits 32 (nBits b)) bs → dgw_ok s → CountBlocks s + Z.of_nat (length bs) ≤ 24 →
  ∃ s', dgw_fold bs s = Some s' ∧ dgw_ok s' ∧
    CountBlocks s' = CountBlocks s + Z.of_nat (length bs).
Proof.
  intros Hbs. revert s. induction Hbs as [|b bs Hb Hbs IH]; intros s Hs Hn.
  { exists s. split_and!; [done..|]. simpl. lia. }
  simpl in Hn. destruct (dgw_step_next b s Hb Hs) as (s1 & E & H1 & C1 & _); [lia|].
  simpl. rewrite E. simpl. destruct (IH s1 H1) as (s' & -> & Hs' & C'); [lia|].
  exists s'. split_and!; [done..|]. lia.
Qed.

Lemma last_default {A} (l : list A) x d : List.last (x :: l) d = List.last l x.
Proof.
  revert x d. induction l as [|y l IH]; intros x d; [done|].
  change (List.last (x :: y :: l) d) with (List.last (y :: l) d). by rewrite !IH.
Qed.

Lemma dgw_fold_exact hi bs s :
  hi * 25 < 2 ^ 256 →
  Forall (λ b, fits 32 (nBits b) ∧ 0 < nTime b ∧ target_of (nBits b) ≤ hi) bs →
  dgw_ok s → CountBlocks s + Z.of_nat (length bs) ≤ 24 → 0 < LastBlockTime s →
  val (PastDifficultyAverage s) ≤ hi →
  ∃ s', dgw_fold bs s = Some s' ∧ dgw_ok s' ∧
    CountBlocks s' = CountBlocks s + Z.of_nat (length bs) ∧
    nActualTimespan s' = nActualTimespan s + LastBlockTime s
      - List.last (nTime <$> bs) (LastBlockTime s) ∧
    val (PastDifficultyAverage s') =
      average_from (CountBlocks s) (val (PastDifficultyAverage s))
        ((λ b, target_of (nBits b)) <$> bs).
Proof.
  intros Hhi Hbs. revert s. induction Hbs as [|b bs (Hb & Ht & Hth) Hbs IH]; intros s Hs Hn Hl Ha.
  { exists s. simpl. split_and!; [done..|lia|lia|done]. }
  cbn [length] in Hn. pose proof Hs as (H1 & Hw & _).
  pose proof (val_bound256 _ Hw) as Hv. pose proof (target_succ _ Hb) as [Hb0 _].
  destruct (dgw_step_next b s Hb Hs) as (s1 & E & Hs1 & C1 & L1 & T1 & A1); [lia|].
  specialize (T1 Hl). 
  assert (val (PastDifficultyAverage s) * (CountBlocks s + 1) ≤ hi * 24) as Hm
    by (apply Z.mul_le_mono_nonneg; lia).
  specialize (A1 ltac:(lia)).
  destruct (average_step 0 hi (CountBlocks s) (val (PastDifficultyAverage s)) (target_of (nBits b)));
    [lia..|].
  cbn [dgw_fold]. rewrite E. cbn [mbind option_bind].
  destruct (IH s1 Hs1) as (s' & -> & Hs' & C' & T' & A'); [lia|lia|lia|].
  exists s'. split_and!; [done..|simpl; lia| |].
  - rewrite T', T1, L1, fmap_cons, last_default. lia.
  - rewrite A', A1, C1. reflexivity.
Qed.

Lemma GetCompact_target a :
  wf256 a →
  ∃ c, GetCompact a false = Some c ∧ fits 32 c ∧ cr_negative (SetCompact c) = false ∧
    cr_overflow (SetCompact c) = false ∧ target_of c ≤ val a.
Proof.
  intros Ha. destruct (GetCompact_ok a false Ha) as (c & ? & ? & _ & ? & _ & ? & ? & _).
  exists c. auto.
Qed.

Definition clamp_span (target_span span : Z) : Z :=
  Z.min (target_span * 3) (Z.max (target_span / 3) span).

Section retarget.
Context (Params : CChainParams).
Hypothesis limit_wf : wf256 (bnProofOfWorkLimit Params).
Hypothesis spacing_pos : 0 < nTargetSpacing Params < 2 ^ 24.

Lemma dgw_retarget_spec s :
  dgw_ok s → CountBlocks s ≤ 24 →
  let span := CountBlocks s * nTargetSpacing Params in
  ∃ v, dgw_retarget Params s = GetCompact v false ∧ wf256 v ∧
    val v ≤ val (bnProofOfWorkLimit Params) ∧
    (val (PastDifficultyAverage s) * (span * 3) < 2 ^ 256 →
      val v = Z.min (val (bnProofOfWorkLimit Params))
        (val (PastDifficultyAverage s) * clamp_span span (nActualTimespan s) / span)).
Proof.
  intros (H1 & Hw & _) Hn span. unfold dgw_retarget. fold span.
  assert (0 < span < 2 ^ 29) as Hspan by (subst span; nia).
  rewrite Z.quot_div_nonneg by lia. set (cl := if span * 3 <? _ then _ else _).
  assert (cl = clamp_span span (nActualTimespan s)) as Ecl.
  { subst cl. unfold clamp_span. destruct (Z.ltb_spec (nActualTimespan s) (span / 3)) as [Hlt|Hge].
    - pose proof (Z.div_mod span 3 ltac:(lia)). pose proof (Z.mod_pos_bound span 3 ltac:(lia)).
      destruct (Z.ltb_spec (span * 3) (span / 3)); lia.
    - destruct (Z.ltb_spec (span * 3) (nActualTimespan s)); lia. }
  destruct (mul_i64_spec (PastDifficultyAverage s) cl Hw) as [Wm _].
  destruct (div_i64_spec (mul_i64 (PastDifficultyAverage s) cl) span Wm) as (q & -> & Hq & Vq); [lia|].
  cbn [mbind option_bind]. rewrite (op_gt_spec 8) by done. eexists. split; [reflexivity|].
  split; [by destruct (val (bnProofOfWorkLimit Params) <? val q)|].
  split; [destruct (Z.ltb_spec (val (bnProofOfWorkLimit Params)) (val q)); lia|].
  intros Hlt. rewrite <-Ecl. assert (0 ≤ cl ≤ span * 3) as Hcl.
  { rewrite Ecl. unfold clamp_span. assert (0 ≤ span / 3) by (apply Z.div_pos; lia). lia. }
  pose proof (val_bound256 _ Hw) as Hv.
  assert (val (PastDifficultyAverage s) * cl ≤ val (PastDifficultyAverage s) * (span * 3)) as Hle
    by (apply Z.mul_le_mono_nonneg_l; lia).
  rewrite mul_i64_exact in Vq by (done || lia). rewrite <-Vq.
  destruct (Z.ltb_spec (val (bnProofOfWorkLimit Params)) (val q)); lia.
Qed.

Lemma GetNextWorkRequired_pos_total h p b :
  linked h → h !! p = Some b → fits 32 (nBits b) → 0 < nHeight b →
  ∃ c, GetNextWorkRequired_pos h b = Some c ∧ fits 32 c ∧
    cr_negative (SetCompact c) = false ∧ cr_overflow (SetCompact c) = false ∧
    target_of c ≤ 2 ^ 232 - 1.
Proof.
  intros Hl Hp Hb Hh. destruct (Hl p b Hp) as [_ Hq]. unfold GetNextWorkRequired_pos.
  replace (nHeight b =? 0) with false by lia.
  destruct (pprev b) as [q|]; [|lia]. destruct Hq as (d & Hd & _).
  cbn [negb mbind option_bind]. rewrite Hd. cbn [mbind option_bind].
  pose proof (SetCompact_wf _ Hb) as Wt.
  set (n := (60 * 40 / 60 - 1) * 60 + _ + _). destruct (mul_i64_spec _ n Wt) as [Wm _].
  destruct (div_i64_spec _ ((60 * 40 / 60 + 1) * 60) Wm) as (v & -> & Wv & _); [done|].
  cbn [mbind option_bind].
  destruct (small_spec 0) as [W0 V0]; [unfold fits; lia|].
  assert (wf256 (limit_shr 24)) as Wl.
  { apply (op_shr_spec 8); [apply (op_not_wf 8), W0|lia]. }
  assert (val (limit_shr 24) = 2 ^ 232 - 1) as Vl by (vm_compute; reflexivity).
  rewrite (op_le_spec 8), (op_gt_spec 8), Vl by done. generalize dependent (limit_shr 24).
  intros L WL VL. match goal with |- context [GetCompact ?x _] => set (r := x) end.
  assert (wf256 r ∧ val r ≤ 2 ^ 232 - 1) as [Wr Vr].
  { subst r. destruct (val v <=? _); [simpl; split; [done|lia]|].
    destruct (Z.ltb_spec (2 ^ 232 - 1) (val v)); simpl; (split; [done|lia]). }
  destruct (GetCompact_target r Wr) as (c & ? & ? & ? & ? & ?). exists c.
  split_and!; [done..|lia].
Qed.

Lemma dgw_run h p b :
  linked h → (∀ q c, h !! q = Some c → fits 32 (nBits c)) → h !! p = Some b → 24 ≤ nHeight b →
  ∃ s, dgw_loop h 25 1 (Some p) dgw_init = Some s ∧ dgw_ok s ∧ CountBlocks s = 24.
Proof.
  intros Hl Hbits Hp Hh. destruct (window_linked h p b 24 Hl Hp) as (bs & Ew & Hn); [lia|].
  rewrite (dgw_loop_window h p 24 bs) by (done || lia || by eexists).
  assert (Forall (λ b, fits 32 (nBits b)) bs) as Hall.
  { clear -Ew Hbits. revert p bs Ew. generalize 24%nat.
    induction n as [|n IH]; intros p bs Ew; simplify_eq/=; [constructor|].
    destruct (h !! p) as [c|] eqn:Ec; [|done]. simpl in Ew. destruct (pprev c) as [q|]; [|done].
    simpl in Ew. destruct (window h n q) as [bs'|] eqn:E; [|done]. simplify_eq/=. eauto. }
  destruct bs as [|b0 bs]; [done|]. apply Forall_cons in Hall as [Hb0 Hall].
  cbn [dgw_fold]. rewrite dgw_step_first. cbn [mbind option_bind].
  destruct (dgw_fold_total bs (MkDGW 0 (nTime b0) 1 (cr_value (SetCompact (nBits b0)))
    (cr_value (SetCompact (nBits b0)))) Hall) as (s & E & Hs & Hc).
  - split_and!; [done|by apply SetCompact_wf|done].
  - cbn [CountBlocks length] in *. lia.
  - exists s. split_and!; [done..|]. cbn [CountBlocks length] in *. lia.
Qed.

(** on a well-linked block tree [GetNextWorkRequired] returns for every
    block (it never divides by zero, follows a null [pprev] or trips the
    assertion in [GetCompact]); the word it returns is a 32-bit compact target,
    neither negative nor overflowing, and not above the proof-of-work limit,
    or above 2^232 - 1 in the proof-of-stake phase. *)
Theorem GetNextWorkRequired_total h p b :
  linked h → (∀ q c, h !! q = Some c → fits 32 (nBits c)) → h !! p = Some b →
  ∃ c, GetNextWorkRequired Params h (Some p) = Some c ∧ fits 32 c ∧
    cr_negative (SetCompact c) = false ∧ cr_overflow (SetCompact c) = false ∧
    target_of c ≤ Z.max (val (bnProofOfWorkLimit Params)) (2 ^ 232 - 1).
Proof.
  intros Hl Hbits Hp. unfold GetNextWorkRequired. cbn [mbind option_bind]. rewrite Hp.
  cbn [mbind option_bind]. destruct (GetCompact_target _ limit_wf) as (c0 & E0 & ? & ? & ? & ?).
  assert (∃ c, GetCompact (bnProofOfWorkLimit Params) false = Some c ∧ fits 32 c ∧
    cr_negative (SetCompact c) = false ∧ cr_overflow (SetCompact c) = false ∧
    target_of c ≤ Z.max (val (bnProofOfWorkLimit Params)) (2 ^ 232 - 1)) as Hlim.
  { exists c0. split_and!; [done..|lia]. }
  destruct (_ && _); [done|]. destruct (Z.eqb_spec (nHeight b) 0) as [|Hne]; [done|].
  destruct (Z.ltb_spec (nHeight b) PastBlocksMin) as [|Hge]; [done|]. cbn [orb].
  unfold PastBlocksMin in Hge. destruct (nLastPOWBlock Params <? nHeight b).
  - destruct (GetNextWorkRequired_pos_total h p b Hl Hp) as (c & ? & ? & ? & ? & ?);
      [by eauto|lia|]. exists c. split_and!; [done..|lia].
  - destruct (dgw_run h p b Hl Hbits Hp Hge) as (s & Es & Hs & Hc).
    change (MkDGW 0 0 0 (zero W256) (zero W256)) with dgw_init. rewrite Es.
    cbn [mbind option_bind]. destruct (dgw_retarget_spec s Hs) as (v & -> & Wv & Hv & _); [lia|].
    destruct (GetCompact_target v Wv) as (c & ? & ? & ? & ? & ?). exists c. split_and!; [done..|lia].
Qed.

(** C34: in the proof-of-work phase the next target is the moving average of the
    last 24 targets, scaled by the time the window of 24 blocks really took
    (clamped to between a third and three times the intended time) over the
    intended time, and cut at the limit; the average stays between the
    smallest and the largest target of the window, and no 256-bit operation
    overflows. *)
Theorem GetNextWorkRequired_dgw h p b b0 bs lo hi :
  linked h → h !! p = Some b → 24 ≤ nHeight b ≤ nLastPOWBlock Params →
  fAllowMinDifficultyBlocks Params = false →
  window h 24 p = Some (b0 :: bs) →
  Forall (λ c, fits 32 (nBits c) ∧ 0 < nTime c ∧ lo ≤ target_of (nBits c) ≤ hi) (b0 :: bs) →
  hi * (24 * nTargetSpacing Params * 3) < 2 ^ 256 → hi * 25 < 2 ^ 256 →
  let span := 24 * nTargetSpacing Params in
  let avg := average_from 1 (target_of (nBits b0)) ((λ c, target_of (nBits c)) <$> bs) in
  let took := nTime b0 - List.last (nTime <$> bs) (nTime b0) in
  lo ≤ avg ≤ hi ∧
  ∃ v, GetNextWorkRequired Params h (Some p) = GetCompact v false ∧ wf256 v ∧
    val v = Z.min (val (bnProofOfWorkLimit Params)) (avg * clamp_span span took / span).
Proof.
  intros Hl Hp Hh Hmin Ew Hall Hhi Hhi' span avg took.
  destruct (window_linked h p b 24 Hl Hp) as (bs0 & Ew0 & Hlen); [lia|].
  assert (bs0 = b0 :: bs) as -> by congruence.
  apply Forall_cons in Hall as [(Hb0 & Ht0 & Hl0) Hall].
  assert (lo ≤ avg ≤ hi) as Havg.
  { apply average_from_bounds; [lia|done|]. apply Forall_fmap.
    eapply Forall_impl; [exact Hall|]. by intros ? (? & ? & ?). }
  split; [done|]. unfold GetNextWorkRequired. cbn [mbind option_bind]. rewrite Hp.
  cbn [mbind option_bind]. rewrite Hmin, andb_false_r. unfold PastBlocksMin.
  replace (nHeight b =? 0) with false by lia. replace (nHeight b <? 24) with false by lia.
  replace (nLastPOWBlock Params <? nHeight b) with false by lia. cbn [orb].
  rewrite (dgw_loop_window h p 24 (b0 :: bs)) by (done || lia || by eexists).
  cbn [dgw_fold]. rewrite dgw_step_first. cbn [mbind option_bind].
  destruct (dgw_fold_exact hi bs (MkDGW 0 (nTime b0) 1 (cr_value (SetCompact (nBits b0)))
    (cr_value (SetCompact (nBits b0)))) Hhi') as (s & -> & Hs & Hc & Hspan & Hval).
  - eapply Forall_impl; [exact Hall|]. intros ? (? & ? & ?). split_and!; [done..|lia].
  - split_and!; [done|by apply SetCompact_wf|done].
  - cbn [CountBlocks length] in *. lia.
  - done.
  - cbn [PastDifficultyAverage]. lia.
  - cbn [mbind option_bind]. cbn [CountBlocks nActualTimespan LastBlockTime PastDifficultyAverage] in *.
    assert (CountBlocks s = 24) as E24 by (cbn [length] in Hlen; lia).
    destruct (dgw_retarget_spec s Hs) as (v & -> & Wv & _ & Hv); [lia|].
    rewrite E24, Hval, Hspan in Hv. fold avg span in Hv.
    exists v. split_and!; [done..|]. rewrite Hv.
    + reflexivity.
    + eapply Z.le_lt_trans; [|exact Hhi]. apply Z.mul_le_mono_nonneg_r; subst span; lia.
Qed.
End retarget.

(** [GetBlockProof] is exactly floor(2^256 / (target + 1)) although 2^256 is
    not representable, and zero for a negative, zero or overflowing target; it
    always returns (the divisor is never zero). *)
Theorem GetBlockProof_work b :
  fits 32 (nBits b) →
  ∃ w, GetBlockProof b = Some w ∧ wf256 w ∧ val w = block_work (nBits b).
Proof. apply GetBlockProof_spec. Qed.

(** the trust score of a proof-of-stake block is always zero, because
    [arith_uint256(1) << 256] is zero; a proof-of-work block with a non-zero
    target always scores at least one. *)
Theorem GetBlockTrust_stake b :
  fits 32 (nBits b) →
  ∃ w, GetBlockTrust b = Some w ∧ wf256 w ∧
    (IsProofOfStake b = true → val w = 0) ∧
    (IsProofOfStake b = false → target_of (nBits b) ≠ 0 → 1 ≤ val w).
Proof.
  intros Hb. destruct (GetBlockTrust_spec b Hb) as (w & E & Hw & Hv). exists w.
  split_and!; [done..| |].
  - intros HP. rewrite HP in Hv. by destruct (_ =? _).
  - intros HP Ht. rewrite HP in Hv. destruct (Z.eqb_spec (target_of (nBits b)) 0); [done|lia].
Qed.

(** [CheckProofOfWork] accepts exactly the hashes that, read as a
    little-endian number, do not exceed a target that is positive, fits in 256
    bits and is not above the network's limit. *)
Theorem CheckProofOfWork_correct Params hash c :
  wf256 (bnProofOfWorkLimit Params) → fits 32 c → length hash = 32%nat → words 8 hash →
  CheckProofOfWork Params hash c = true ↔
    fSkipProofOfWorkCheck Params = true ∨
    (Z.testbit c 23 = false ∧ 0 < compact_magnitude c < 2 ^ 256 ∧
     compact_magnitude c ≤ val (bnProofOfWorkLimit Params) ∧
     hash_val hash ≤ compact_magnitude c).
Proof. apply CheckProofOfWork_spec. Qed.

(** A chain of 31 blocks, one a minute. *)
Definition demo_bits : Z := 0x1e0ffff0.
Definition demo_block (n : nat) : CBlockIndex :=
  MkBlockIndex [] (match n with O => None | S m => Some m end) None (Z.of_nat n) 0 1
    (1000000 + 90 * Z.of_nat n) demo_bits.
Definition demo_chain (n : nat) : store := list_to_map ((λ i, (i, demo_block i)) <$> seq 0 n).

Lemma demo_chain_lookup n p b : demo_chain n !! p = Some b → (p < n)%nat ∧ b = demo_block p.
Proof.
  intros H%elem_of_list_to_map_2. apply list_elem_of_fmap in H as (i & E & Hi).
  simplify_eq. apply elem_of_seq in Hi. split; [lia|done].
Qed.

Lemma demo_chain_lookup_lt n p : (p < n)%nat → demo_chain n !! p = Some (demo_block p).
Proof.
  intros Hp. apply elem_of_list_to_map_1.
  - rewrite <-list_fmap_compose. simpl. rewrite list_fmap_id. apply NoDup_seq.
  - apply list_elem_of_fmap. exists p. split; [done|]. apply elem_of_seq. lia.
Qed.

Lemma demo_chain_linked n : linked (demo_chain n).
Proof.
  intros p b [Hp ->]%demo_chain_lookup. split; [simpl; lia|]. destruct p as [|p]; [done|].
  exists (demo_block p). split; [apply demo_chain_lookup_lt; lia|simpl; lia].
Qed.

Lemma main_limit_wf : wf256 (bnProofOfWorkLimit mainParams).
Proof. split; [done|]. repeat constructor; unfold fits; vm_compute; done. Qed.

Lemma GetNextWorkRequired_total_witness :
  ∃ c, GetNextWorkRequired mainParams (demo_chain 31) (Some 30%nat) = Some c ∧ fits 32 c.
Proof.
  destruct (GetNextWorkRequired_total mainParams main_limit_wf ltac:(simpl; lia)
    (demo_chain 31) 30 (demo_block 30)) as (c & E & Hc & _).
  - apply demo_chain_linked.
  - intros q c [_ ->]%demo_chain_lookup. unfold fits. vm_compute. done.
  - reflexivity.
  - exists c. auto.
Defined.

Lemma demo_block_ok n :
  fits 32 (nBits (demo_block n)) ∧ 0 < nTime (demo_block n) ∧
  target_of demo_bits ≤ target_of (nBits (demo_block n)) ≤ target_of demo_bits.
Proof.
  unfold demo_block. cbn [nBits nTime]. split; [unfold fits; by vm_compute|].
  split; [lia|split; apply Z.le_refl].
Qed.

Lemma GetNextWorkRequired_dgw_witness :
  ∃ v, GetNextWorkRequired mainParams (demo_chain 31) (Some 30%nat) = GetCompact v false ∧ wf256 v.
Proof.
  destruct (GetNextWorkRequired_dgw mainParams main_limit_wf ltac:(simpl; lia)
    (demo_chain 31) 30 (demo_block 30) (demo_block 30)
    (demo_block <$> rev (seq 7 23)) (target_of demo_bits) (target_of demo_bits))
    as (_ & v & E & Hv & _).
  - apply demo_chain_linked.
  - reflexivity.
  - simpl. lia.
  - reflexivity.
  - reflexivity.
  - apply Forall_cons. split; [apply demo_block_ok|]. apply Forall_fmap, Forall_true.
    intros n. apply demo_block_ok.
  - vm_compute. reflexivity.
  - vm_compute. reflexivity.
  - exists v. auto.
Defined.

Lemma GetBlockProof_work_witness :
  ∃ w, GetBlockProof (demo_block 3) = Some w ∧ wf256 w ∧ val w = block_work demo_bits.
Proof. apply (GetBlockProof_work (demo_block 3)). unfold fits. simpl. vm_compute. done. Defined.

Definition demo_stake_block : CBlockIndex :=
  MkBlockIndex [] None None 5 BLOCK_PROOF_OF_STAKE 1 1000000 demo_bits.

Lemma GetBlockTrust_stake_witness :
  ∃ w, GetBlockTrust demo_stake_block = Some w ∧ val w = 0.
Proof.
  destruct (GetBlockTrust_stake demo_stake_block) as (w & E & _ & Hs & _).
  - unfold fits. vm_compute. done.
  - exists w. split; [done|]. by apply Hs.
Defined.

Lemma CheckProofOfWork_correct_witness :
  CheckProofOfWork mainParams (replicate 32 0) demo_bits = true.
Proof.
  apply (CheckProofOfWork_correct mainParams (replicate 32 0) demo_bits).
  - exact main_limit_wf.
  - unfold fits. vm_compute. done.
  - reflexivity.
  - by apply words_replicate0.
  - right. vm_compute. done.
Defined.
