(* ===== verification/Script.v ===== *)
(** script/script.h and script/script.cpp: opcodes, script numbers and the
    byte-level operations on scripts.

    A script is the list of its bytes.  An iterator into a script is the suffix
    it points at, so [pc >= end()] is [pc = []] and [CScript(pc, end())] is the
    suffix itself.  [None] is a thrown exception or a failed assertion. *)

From S2P Require Import Prelude.

Abbreviation valtype := (list Z) (only parsing).
Abbreviation CScript := (list Z) (only parsing).

Definition MAX_SCRIPT_ELEMENT_SIZE : Z := 520.

(** Length of a vector as an integer. *)
Definition size {A} (l : list A) : Z := Z.of_nat (length l).

(** ** Opcodes ([enum opcodetype]) *)

Definition OP_0 : Z := 0x00.
Definition OP_FALSE : Z := OP_0.
Definition OP_PUSHDATA1 : Z := 0x4c.
Definition OP_PUSHDATA2 : Z := 0x4d.
Definition OP_PUSHDATA4 : Z := 0x4e.
Definition OP_1NEGATE : Z := 0x4f.
Definition OP_RESERVED : Z := 0x50.
Definition OP_1 : Z := 0x51.
Definition OP_TRUE : Z := OP_1.
Definition OP_2 : Z := 0x52.
Definition OP_3 : Z := 0x53.
Definition OP_4 : Z := 0x54.
Definition OP_5 : Z := 0x55.
Definition OP_6 : Z := 0x56.
Definition OP_7 : Z := 0x57.
Definition OP_8 : Z := 0x58.
Definition OP_9 : Z := 0x59.
Definition OP_10 : Z := 0x5a.
Definition OP_11 : Z := 0x5b.
Definition OP_12 : Z := 0x5c.
Definition OP_13 : Z := 0x5d.
Definition OP_14 : Z := 0x5e.
Definition OP_15 : Z := 0x5f.
Definition OP_16 : Z := 0x60.
Definition OP_NOP : Z := 0x61.
Definition OP_VER : Z := 0x62.
Definition OP_IF : Z := 0x63.
Definition OP_NOTIF : Z := 0x64.
Definition OP_VERIF : Z := 0x65.
Definition OP_VERNOTIF : Z := 0x66.
Definition OP_ELSE : Z := 0x67.
Definition OP_ENDIF : Z := 0x68.
Definition OP_VERIFY : Z := 0x69.
Definition OP_RETURN : Z := 0x6a.
Definition OP_TOALTSTACK : Z := 0x6b.
Definition OP_FROMALTSTACK : Z := 0x6c.
Definition OP_2DROP : Z := 0x6d.
Definition OP_2DUP : Z := 0x6e.
Definition OP_3DUP : Z := 0x6f.
Definition OP_2OVER : Z := 0x70.
Definition OP_2ROT : Z := 0x71.
Definition OP_2SWAP : Z := 0x72.
Definition OP_IFDUP : Z := 0x73.
Definition OP_DEPTH : Z := 0x74.
Definition OP_DROP : Z := 0x75.
Definition OP_DUP : Z := 0x76.
Definition OP_NIP : Z := 0x77.
Definition OP_OVER : Z := 0x78.
Definition OP_PICK : Z := 0x79.
Definition OP_ROLL : Z := 0x7a.
Definition OP_ROT : Z := 0x7b.
Definition OP_SWAP : Z := 0x7c.
Definition OP_TUCK : Z := 0x7d.
Definition OP_CAT : Z := 0x7e.
Definition OP_SUBSTR : Z := 0x7f.
Definition OP_LEFT : Z := 0x80.
Definition OP_RIGHT : Z := 0x81.
Definition OP_SIZE : Z := 0x82.
Definition OP_INVERT : Z := 0x83.
Definition OP_AND : Z := 0x84.
Definition OP_OR : Z := 0x85.
Definition OP_XOR : Z := 0x86.
Definition OP_EQUAL : Z := 0x87.
Definition OP_EQUALVERIFY : Z := 0x88.
Definition OP_RESERVED1 : Z := 0x89.
Definition OP_RESERVED2 : Z := 0x8a.
Definition OP_1ADD : Z := 0x8b.
Definition OP_1SUB : Z := 0x8c.
Definition OP_2MUL : Z := 0x8d.
Definition OP_2DIV : Z := 0x8e.
Definition OP_NEGATE : Z := 0x8f.
Definition OP_ABS : Z := 0x90.
Definition OP_NOT : Z := 0x91.
Definition OP_0NOTEQUAL : Z := 0x92.
Definition OP_ADD : Z := 0x93.
Definition OP_SUB : Z := 0x94.
Definition OP_MUL : Z := 0x95.
Definition OP_DIV : Z := 0x96.
Definition OP_MOD : Z := 0x97.
Definition OP_LSHIFT : Z := 0x98.
Definition OP_RSHIFT : Z := 0x99.
Definition OP_BOOLAND : Z := 0x9a.
Definition OP_BOOLOR : Z := 0x9b.
Definition OP_NUMEQUAL : Z := 0x9c.
Definition OP_NUMEQUALVERIFY : Z := 0x9d.
Definition OP_NUMNOTEQUAL : Z := 0x9e.
Definition OP_LESSTHAN : Z := 0x9f.
Definition OP_GREATERTHAN : Z := 0xa0.
Definition OP_LESSTHANOREQUAL : Z := 0xa1.
Definition OP_GREATERTHANOREQUAL : Z := 0xa2.
Definition OP_MIN : Z := 0xa3.
Definition OP_MAX : Z := 0xa4.
Definition OP_WITHIN : Z := 0xa5.
Definition OP_RIPEMD160 : Z := 0xa6.
Definition OP_SHA1 : Z := 0xa7.
Definition OP_SHA256 : Z := 0xa8.
Definition OP_HASH160 : Z := 0xa9.
Definition OP_HASH256 : Z := 0xaa.
Definition OP_CODESEPARATOR : Z := 0xab.
Definition OP_CHECKSIG : Z := 0xac.
Definition OP_CHECKSIGVERIFY : Z := 0xad.
Definition OP_CHECKMULTISIG : Z := 0xae.
Definition OP_CHECKMULTISIGVERIFY : Z := 0xaf.
Definition OP_NOP1 : Z := 0xb0.
Definition OP_NOP2 : Z := 0xb1.
Definition OP_NOP3 : Z := 0xb2.
Definition OP_NOP4 : Z := 0xb3.
Definition OP_NOP5 : Z := 0xb4.
Definition OP_NOP6 : Z := 0xb5.
Definition OP_NOP7 : Z := 0xb6.
Definition OP_NOP8 : Z := 0xb7.
Definition OP_NOP9 : Z := 0xb8.
Definition OP_NOP10 : Z := 0xb9.
Definition OP_ZEROCOINMINT : Z := 0xc1.
Definition OP_ZEROCOINSPEND : Z := 0xc2.
Definition OP_SMALLINTEGER : Z := 0xfa.
Definition OP_PUBKEYS : Z := 0xfb.
Definition OP_PUBKEYHASH : Z := 0xfd.
Definition OP_PUBKEY : Z := 0xfe.
Definition OP_INVALIDOPCODE : Z := 0xff.

(** ** [CScriptNum] *)
Module CScriptNum.

Definition nMaxNumSize : Z := 4.

(** [set_vch]; [None] is a read past the end. *)
Definition set_vch (vch : valtype) : option Z :=
  match vch with
  | [] => Some 0
  | _ =>
      result ← for_up (length vch) (λ r i, r ← r; x ← vch !! i; Some (Z.lor r (s64 (x ≪ (8 * Z.of_nat i))))) (Some 0);
      back ← last vch;
      Some (if negb (Z.land back 0x80 =? 0)
            then - s64 (Z.land (u64 result) (u64 (Z.lnot (u64 (0x80 ≪ (8 * (size vch - 1)))))))
            else result)
  end.

(** Whether the constructor finds the encoding longer than necessary. *)
Definition not_minimal (vch : valtype) : option bool :=
  back ← last vch;
  if Z.land back 0x7f =? 0 then
    if size vch <=? 1 then Some true
    else x ← vch !! (length vch - 2)%nat; Some (Z.land x 0x80 =? 0)
  else Some false.
(** [CScriptNum(vch, fRequireMinimal)]; [None] is a read past the end, [Some None] the
    thrown [scriptnum_error]. *)
Definition of_vch (vch : valtype) (fRequireMinimal : bool) : option (option Z) :=
  if nMaxNumSize <? size vch then Some None
  else
    bad ← (if fRequireMinimal && (0 <? size vch) then not_minimal vch else Some false);
    if (bad : bool) then Some None else n ← set_vch vch; Some (Some n).

(** [serialize]: [while (absvalue)] pushes at most the eight bytes of a
    [uint64_t]. *)
Fixpoint abs_bytes (fuel : nat) (absvalue : Z) : valtype :=
  match fuel with
  | O => []
  | S fuel =>
      if absvalue =? 0 then [] else Z.land absvalue 0xff :: abs_bytes fuel (absvalue ≫ 8)
  end.

Definition serialize (value : Z) : valtype :=
  if value =? 0 then []
  else
    let neg := value <? 0 in
    let absvalue := u64 (if neg then - value else value) in
    let result := abs_bytes 8 absvalue in
    let back := List.last result 0 in
    if negb (Z.land back 0x80 =? 0) then result ++ [if neg then 0x80 else 0]
    else if neg then <[(length result - 1)%nat := Z.lor back 0x80]> result
    else result.

(** [getint]: clamp to [int]. *)
Definition getint (m_value : Z) : Z :=
  if 2 ^ 31 - 1 <? m_value then 2 ^ 31 - 1
  else if m_value <? - 2 ^ 31 then - 2 ^ 31
  else m_value.

(** [operator+], [operator-] do not test for overflow; [operator+=],
    [operator-=] and the unary [operator-] assert that there is none. *)
Definition add (a b : Z) : Z := s64 (a + b).
Definition sub (a b : Z) : Z := s64 (a - b).
Definition add_assign (m_value rhs : Z) : option Z :=
  if (rhs =? 0) || (0 <? rhs) && (m_value <=? (2 ^ 63 - 1) - rhs)
     || (rhs <? 0) && (- 2 ^ 63 - rhs <=? m_value)
  then Some (m_value + rhs) else None.
Definition sub_assign (m_value rhs : Z) : option Z :=
  if (rhs =? 0) || (0 <? rhs) && (- 2 ^ 63 + rhs <=? m_value)
     || (rhs <? 0) && (m_value <=? (2 ^ 63 - 1) + rhs)
  then Some (m_value - rhs) else None.
Definition neg (m_value : Z) : option Z :=
  if m_value =? - 2 ^ 63 then None else Some (- m_value).

End CScriptNum.

(** ** Building scripts ([operator<<]) *)

(** [operator<<(const std::vector<uint8_t>&)]; sizes are stored little-endian. *)
Definition push_data (b : valtype) : CScript :=
  if size b <? OP_PUSHDATA1 then u8 (size b) :: b
  else if size b <=? 0xff then OP_PUSHDATA1 :: u8 (size b) :: b
  else if size b <=? 0xffff then OP_PUSHDATA2 :: Z_to_little_endian 2 8 (u16 (size b)) ++ b
  else OP_PUSHDATA4 :: Z_to_little_endian 4 8 (u32 (size b)) ++ b.

(** [push_int64] *)
Definition push_int64 (n : Z) : CScript :=
  if (n =? -1) || (1 <=? n) && (n <=? 16) then [u8 (n + (OP_1 - 1))]
  else if n =? 0 then [OP_0]
  else push_data (CScriptNum.serialize n).

(** [DecodeOP_N] and [EncodeOP_N] *)
Definition DecodeOP_N (opcode : Z) : option Z :=
  if opcode =? OP_0 then Some 0
  else if (OP_1 <=? opcode) && (opcode <=? OP_16) then Some (opcode - (OP_1 - 1)) else None.
Definition EncodeOP_N (n : Z) : option Z :=
  if (0 <=? n) && (n <=? 16) then Some (if n =? 0 then OP_0 else OP_1 + n - 1) else None.

(** ** Reading scripts *)

(** Result of [GetOp2]: the return value, [opcodeRet], [*pvchRet] and the
    advanced iterator, which moves even when the call fails. *)
Record op_result := OpResult {
  op_ok : bool;
  op_code : Z;
  op_vch : valtype;
  op_rest : CScript;
}.

(** The tail of [GetOp2]: take [nSize] bytes. *)
Definition take_operand (opcode nSize : Z) (pc : CScript) : op_result :=
  if size pc <? nSize then OpResult false OP_INVALIDOPCODE [] pc
  else OpResult true opcode (take (Z.to_nat nSize) pc) (drop (Z.to_nat nSize) pc).

(** A length of [n] bytes after the opcode. *)
Definition sized_operand (opcode : Z) (n : nat) (pc : CScript) : op_result :=
  if size pc <? Z.of_nat n then OpResult false OP_INVALIDOPCODE [] pc
  else take_operand opcode (le_val 8 (take n pc)) (drop n pc).

Definition GetOp2 (pc : CScript) : op_result :=
  match pc with
  | [] => OpResult false OP_INVALIDOPCODE [] []
  | opcode :: pc =>
      if opcode <=? OP_PUSHDATA4 then
        if opcode <? OP_PUSHDATA1 then take_operand opcode opcode pc
        else if opcode =? OP_PUSHDATA1 then sized_operand opcode 1 pc
        else if opcode =? OP_PUSHDATA2 then sized_operand opcode 2 pc
        else sized_operand opcode 4 pc
      else OpResult true opcode [] pc
  end.

(** [FindAndDelete]: the inner [while] erases copies of [b] at [pc]. *)
Fixpoint erase_copies (fuel : nat) (b pc : CScript) : Z * CScript :=
  match fuel with
  | O => (0, pc)
  | S fuel =>
      if (size b <=? size pc) && bool_decide (take (length b) pc = b)
      then let '(n, pc) := erase_copies fuel b (drop (length b) pc) in (n + 1, pc)
      else (0, pc)
  end.

(** The outer [do ... while (GetOp(pc, opcode))]: [done] holds the bytes before
    [pc].  Every round but the last consumes a byte. *)
Fixpoint find_delete_loop (fuel : nat) (b done pc : CScript) : Z * CScript :=
  let '(n, pc) := erase_copies (length pc) b pc in
  match fuel with
  | O => (n, done ++ pc)
  | S fuel =>
      let r := GetOp2 pc in
      if op_ok r
      then
        let consumed := take (length pc - length (op_rest r)) pc in
        let '(m, s) := find_delete_loop fuel b (done ++ consumed) (op_rest r) in (n + m, s)
      else (n, done ++ pc)
  end.

(** The number of copies deleted and the resulting script. *)
Definition FindAndDelete (script b : CScript) : Z * CScript :=
  match b with
  | [] => (0, script)
  | _ => find_delete_loop (length script) b [] script
  end.

(** [Find] *)
Fixpoint find_loop (fuel : nat) (op : Z) (pc : CScript) : Z :=
  match fuel, pc with
  | S fuel, _ :: _ =>
      let r := GetOp2 pc in
      if op_ok r then (if op_code r =? op then 1 else 0) + find_loop fuel op (op_rest r) else 0
  | _, _ => 0
  end.
Definition Find (script : CScript) (op : Z) : Z := find_loop (length script) op script.

(** [GetSigOpCount(bool fAccurate)] *)
Definition sigops_of (fAccurate : bool) (lastOpcode opcode : Z) : option Z :=
  if (opcode =? OP_CHECKSIG) || (opcode =? OP_CHECKSIGVERIFY) then Some 1
  else if (opcode =? OP_CHECKMULTISIG) || (opcode =? OP_CHECKMULTISIGVERIFY) then
    if fAccurate && (OP_1 <=? lastOpcode) && (lastOpcode <=? OP_16)
    then DecodeOP_N lastOpcode else Some 20
  else Some 0.

Fixpoint sigop_loop (fuel : nat) (fAccurate : bool) (lastOpcode n : Z) (pc : CScript) : option Z :=
  match fuel, pc with
  | S fuel, _ :: _ =>
      let r := GetOp2 pc in
      if op_ok r then
        k ← sigops_of fAccurate lastOpcode (op_code r);
        sigop_loop fuel fAccurate (op_code r) (u32 (n + k)) (op_rest r)
      else Some n
  | _, _ => Some n
  end.
Definition GetSigOpCount (script : CScript) (fAccurate : bool) : option Z :=
  sigop_loop (length script) fAccurate OP_INVALIDOPCODE 0 script.

(** [IsPayToScriptHash], [IsZerocoinMint], [IsZerocoinSpend], [IsUnspendable] *)
Definition IsPayToScriptHash (s : CScript) : bool :=
  (size s =? 23) && (nth 0 s 0 =? OP_HASH160) && (nth 1 s 0 =? 0x14) && (nth 22 s 0 =? OP_EQUAL).
Definition IsZerocoinMint (s : CScript) : bool := (0 <? size s) && (nth 0 s 0 =? OP_ZEROCOINMINT).
Definition IsZerocoinSpend (s : CScript) : bool :=
  match s with [] => false | op :: _ => op =? OP_ZEROCOINSPEND end.
Definition IsUnspendable (s : CScript) : bool := (0 <? size s) && (nth 0 s 0 =? OP_RETURN).

(** [IsPushOnly] *)
Fixpoint push_only_loop (fuel : nat) (pc : CScript) : bool :=
  match fuel, pc with
  | S fuel, _ :: _ =>
      let r := GetOp2 pc in
      if negb (op_ok r) then false
      else if OP_16 <? op_code r then false
      else push_only_loop fuel (op_rest r)
  | _, _ => true
  end.
Definition IsPushOnly (s : CScript) : bool := push_only_loop (length s) s.

(** [GetSigOpCount(const CScript& scriptSig)]: the last push of [scriptSig] is
    the script whose operations are counted. *)
Fixpoint last_push_loop (fuel : nat) (data : valtype) (pc : CScript) : option valtype :=
  match fuel, pc with
  | S fuel, _ :: _ =>
      let r := GetOp2 pc in
      if negb (op_ok r) then None
      else if OP_16 <? op_code r then None
      else last_push_loop fuel (op_vch r) (op_rest r)
  | _, _ => Some data
  end.
Definition GetSigOpCount_p2sh (script scriptSig : CScript) : option Z :=
  if negb (IsPayToScriptHash script) then GetSigOpCount script true
  else match last_push_loop (length scriptSig) [] scriptSig with
       | None => Some 0
       | Some data => GetSigOpCount data true
       end.

(** [IsNormalPaymentScript] ignores the result of [GetOp]. *)
Fixpoint normal_payment_loop (fuel : nat) (i : Z) (pc : CScript) : bool :=
  match fuel, pc with
  | S fuel, _ :: _ =>
      let r := GetOp2 pc in
      let opcode := op_code r in
      if (i =? 0) && negb (opcode =? OP_DUP) then false
      else if (i =? 1) && negb (opcode =? OP_HASH160) then false
      else if (i =? 3) && negb (opcode =? OP_EQUALVERIFY) then false
      else if (i =? 4) && negb (opcode =? OP_CHECKSIG) then false
      else if i =? 5 then false
      else normal_payment_loop fuel (i + 1) (op_rest r)
  | _, _ => true
  end.
Definition IsNormalPaymentScript (s : CScript) : bool :=
  if negb (size s =? 25) then false else normal_payment_loop (length s) 0 s.
