(* ===== verification/ScriptFacts.v ===== *)
(** Facts on scripts: reading back what was pushed, script numbers, counting
    signature operations, deleting a subscript. *)

From S2P Require Import Prelude Script.

Create HintDb script.

Lemma size_nonneg {A} (l : list A) : 0 ≤ size l.
Proof. unfold size. lia. Qed.

Lemma size_cons {A} (x : A) l : size (x :: l) = size l + 1.
Proof. unfold size. simpl. lia. Qed.

Lemma size_app {A} (a b : list A) : size (a ++ b) = size a + size b.
Proof. unfold size. rewrite length_app. lia. Qed.

Lemma size_nil {A} : size (@nil A) = 0.
Proof. reflexivity. Qed.

Lemma size_zero {A} (l : list A) : size l = 0 → l = [].
Proof. unfold size. destruct l; simpl; [done|lia]. Qed.

#[export] Hint Resolve size_nonneg : script.

(** ** [GetOp2] *)

(** What every result of [GetOp2] satisfies: the bytes consumed are a prefix, a
    successful read consumes at least the opcode. *)
Definition op_sound (pc : CScript) (r : op_result) : Prop :=
  ∃ pre, pc = pre ++ op_rest r ∧ (op_ok r = true → (0 < length pre)%nat) ∧
    (length (op_vch r) ≤ length pre)%nat ∧
    (words 8 pc → words 8 (op_vch r) ∧ words 8 (op_rest r)).

Lemma take_operand_sound op n pc h : op_sound (h ++ pc) (take_operand op n pc) ∨ h = [].
Proof.
  destruct h as [|x h]; [by right|left]. unfold take_operand, op_sound.
  destruct (Z.ltb_spec (size pc) n); simpl.
  - exists (x :: h). split_and!; [done|done|simpl; lia|].
    intros Hw. split; [constructor|]. change (words 8 ((x :: h) ++ pc)) in Hw.
    by apply Forall_app in Hw as [_ ?].
  - exists ((x :: h) ++ take (Z.to_nat n) pc). split_and!.
    + by rewrite <-app_assoc, (take_drop (Z.to_nat n) pc).
    + intros _. simpl. lia.
    + rewrite length_app. simpl. lia.
    + intros Hw. change (words 8 ((x :: h) ++ pc)) in Hw. apply Forall_app in Hw as [_ Hw].
      split; [by apply Forall_take|by apply Forall_drop].
Qed.

Lemma GetOp2_sound pc : op_sound pc (GetOp2 pc).
Proof.
  destruct pc as [|op pc].
  { exists []. split_and!; [done|done|done|]. intros _. split; constructor. }
  simpl. destruct (op <=? OP_PUSHDATA4).
  2:{ exists [op]. split_and!; [done|simpl; lia|simpl; lia|]. simpl.
      intros Hw. apply Forall_cons in Hw as [_ ?]. split; [constructor|done]. }
  assert (∀ n, op_sound (op :: pc) (sized_operand op n pc)) as Hs.
  { intros n. unfold sized_operand. destruct (Z.ltb_spec (size pc) (Z.of_nat n)).
    - exists [op]. split_and!; [done..|simpl; lia|]. simpl.
      intros Hw. apply Forall_cons in Hw as [_ ?]. split; [constructor|done].
    - destruct (take_operand_sound op (le_val 8 (take n pc)) (drop n pc) (op :: take n pc)) as [H'|]; [|done].
      simpl in H'. by rewrite (take_drop n pc) in H'. }
  repeat case_match; auto. by destruct (take_operand_sound op op pc [op]).
Qed.

Lemma GetOp2_shorter pc : op_ok (GetOp2 pc) = true → (length (op_rest (GetOp2 pc)) < length pc)%nat.
Proof.
  intros H. destruct (GetOp2_sound pc) as (pre & E & Hl & _). rewrite E at 2.
  rewrite length_app. specialize (Hl H). lia.
Qed.

Lemma GetOp2_rest_le pc : (length (op_rest (GetOp2 pc)) ≤ length pc)%nat.
Proof. destruct (GetOp2_sound pc) as (pre & E & _). rewrite E at 2. rewrite length_app. lia. Qed.

Lemma GetOp2_consumes pc x : (length (op_rest (GetOp2 (x :: pc))) ≤ length pc)%nat.
Proof.
  simpl. repeat case_match; simpl; try lia;
    unfold sized_operand, take_operand; repeat case_match; simpl; rewrite ?length_drop; lia.
Qed.

Lemma GetOp2_vch_le pc : (length (op_vch (GetOp2 pc)) ≤ length pc)%nat.
Proof.
  destruct (GetOp2_sound pc) as (pre & E & _ & Hv & _). rewrite E at 2. rewrite length_app. lia.
Qed.

Lemma GetOp2_words pc :
  words 8 pc → words 8 (op_vch (GetOp2 pc)) ∧ words 8 (op_rest (GetOp2 pc)).
Proof. destruct (GetOp2_sound pc) as (pre & _ & _ & _ & Hw). done. Qed.

(** The opcode returned is the first byte; an immediate operand comes only with
    a push opcode. *)
Lemma GetOp2_code pc :
  op_ok (GetOp2 pc) = true →
  ∃ x pc', pc = x :: pc' ∧ op_code (GetOp2 pc) = x ∧ (OP_PUSHDATA4 < x → op_vch (GetOp2 pc) = [] ∧ op_rest (GetOp2 pc) = pc').
Proof.
  destruct pc as [|x pc]; [done|]. intros H. exists x, pc. split; [done|].
  simpl in *. destruct (Z.leb_spec x OP_PUSHDATA4); [|done].
  split; [|intros; lia].
  repeat case_match; unfold sized_operand, take_operand in *; repeat case_match; simplify_eq/=; done.
Qed.

(** ** Reading back a push *)

Lemma take_operand_app op b rest :
  take_operand op (size b) (b ++ rest) = OpResult true op b rest.
Proof.
  unfold take_operand, size. rewrite length_app.
  destruct (Z.ltb_spec (Z.of_nat (length b + length rest)) (Z.of_nat (length b))); [lia|].
  by rewrite Nat2Z.id, take_app_length, drop_app_length.
Qed.

Lemma sized_operand_app op n (b rest : list Z) :
  fits (8 * Z.of_nat n) (size b) →
  sized_operand op n (Z_to_little_endian (Z.of_nat n) 8 (size b) ++ b ++ rest) =
    OpResult true op b rest.
Proof.
  intros Hb. unfold sized_operand.
  assert (length (Z_to_little_endian (Z.of_nat n) 8 (size b)) = n) as Hl.
  { apply Nat2Z.inj. rewrite length_Z_to_little_endian; lia. }
  replace (size (Z_to_little_endian (Z.of_nat n) 8 (size b) ++ b ++ rest) <? Z.of_nat n) with false.
  2:{ symmetry. apply Z.ltb_ge. rewrite size_app. unfold size at 1. rewrite Hl.
      pose proof (size_nonneg (b ++ rest)). lia. }
  rewrite take_app_length', drop_app_length' by done.
  rewrite little_endian_to_Z_to_little_endian by lia. rewrite Z.mod_small.
  - apply take_operand_app.
  - unfold fits in Hb. by rewrite (Z.mul_comm (Z.of_nat n)).
Qed.

(** The opcode [operator<<] chooses for a push of [n] bytes. *)
Definition push_opcode (n : Z) : Z :=
  if n <? OP_PUSHDATA1 then n else if n <=? 0xff then OP_PUSHDATA1
  else if n <=? 0xffff then OP_PUSHDATA2 else OP_PUSHDATA4.

Lemma GetOp2_push b rest :
  size b < 2 ^ 32 → GetOp2 (push_data b ++ rest) = OpResult true (push_opcode (size b)) b rest.
Proof.
  intros Hb. pose proof (size_nonneg b) as H0. unfold push_data, push_opcode.
  unfold OP_PUSHDATA1, OP_PUSHDATA2, OP_PUSHDATA4 in *.
  destruct (Z.ltb_spec (size b) 0x4c).
  { rewrite wrap_small by (unfold fits; lia). simpl. unfold OP_PUSHDATA4, OP_PUSHDATA1.
    replace (size b <=? 78) with true by lia. replace (size b <? 76) with true by lia.
    apply take_operand_app. }
  destruct (Z.leb_spec (size b) 0xff).
  { rewrite wrap_small by (unfold fits; lia).
    rewrite <-(sized_operand_app 0x4c 1 b rest) by (unfold fits; lia).
    change (Z_to_little_endian (Z.of_nat 1) 8 (size b)) with [Z.land (size b) (Z.ones 8)].
    rewrite Z.land_ones, Z.mod_small by lia. reflexivity. }
  destruct (Z.leb_spec (size b) 0xffff).
  - rewrite wrap_small by (unfold fits; lia). rewrite <-(sized_operand_app 0x4d 2 b rest) by (unfold fits; lia).
    by rewrite <-app_comm_cons, <-app_assoc.
  - rewrite wrap_small by (unfold fits; lia). rewrite <-(sized_operand_app 0x4e 4 b rest) by (unfold fits; lia).
    by rewrite <-app_comm_cons, <-app_assoc.
Qed.

Lemma size_little_endian n x : 0 ≤ n → size (Z_to_little_endian n 8 x) = n.
Proof. intros. unfold size. by rewrite length_Z_to_little_endian by lia. Qed.

Lemma size_push_data b : size b < size (push_data b) ≤ size b + 5.
Proof.
  unfold push_data. repeat case_match; rewrite ?size_cons, ?size_app, ?size_little_endian by lia; lia.
Qed.

(** ** Script numbers *)

Import CScriptNum.

Lemma byte_high l : fits 8 l → negb (Z.land l 0x80 =? 0) = (128 <=? l).
Proof.
  intros Hl. change 0x80 with (2 ^ 7). rewrite land_pow2_test by done. apply testbit_top; [done|].
  unfold fits in Hl. lia.
Qed.

Lemma byte_low l : Z.land l 0x7f = l `mod` 128.
Proof. by apply (Z.land_ones l 7). Qed.

Lemma byte_set_high m : 0 ≤ m < 128 → Z.lor m 0x80 = m + 128.
Proof.
  intros. change 0x80 with (1 ≪ 7). rewrite lor_shiftl_add; [done|done|]. unfold fits. lia.
Qed.

(** Bytes of a magnitude without a leading zero byte. *)
Definition trimmed (b : list Z) : Prop := words 8 b ∧ (b = [] ∨ 0 < List.last b 0).

Lemma trimmed_tail x b : trimmed (x :: b) → trimmed b.
Proof.
  intros [Hw [|Hl]]; [done|]. apply Forall_cons in Hw as [_ Hw]. split; [done|].
  destruct b; [by left|by right].
Qed.

Lemma trimmed_pos b : trimmed b → b ≠ [] → 0 < le_val 8 b.
Proof.
  induction b as [|x b IH]; intros Ht Hne; [done|]. destruct Ht as [Hw Hl].
  pose proof (trimmed_tail _ _ (conj Hw Hl)) as Ht. apply Forall_cons in Hw as [Hx Hw].
  rewrite le_val_cons by (done || lia). unfold fits in Hx.
  destruct b as [|y b]; [destruct Hl; simpl in *; [done|lia]|].
  pose proof (IH Ht ltac:(done)). lia.
Qed.

Lemma abs_bytes_trimmed fuel v :
  0 ≤ v < 2 ^ (8 * Z.of_nat fuel) → trimmed (abs_bytes fuel v) ∧ le_val 8 (abs_bytes fuel v) = v.
Proof.
  revert v. induction fuel as [|fuel IH]; intros v Hv.
  { simpl in *. split; [split; [constructor|by left]|lia]. }
  cbn [abs_bytes]. destruct (Z.eqb_spec v 0) as [->|Hv0].
  { split; [split; [constructor|by left]|done]. }
  change 0xff with (Z.ones 8). rewrite Z.land_ones, Z.shiftr_div_pow2 by lia.
  pose proof (Z.div_mod v (2 ^ 8) ltac:(lia)) as Hd. pose proof (Z.mod_pos_bound v (2 ^ 8) ltac:(lia)) as Hm.
  destruct (IH (v / 2 ^ 8)) as [[Hw Hl] Hval].
  { split; [apply Z.div_pos; lia|]. apply Z.div_lt_upper_bound; [lia|].
    rewrite <-Z.pow_add_r by lia. replace (8 + 8 * Z.of_nat fuel) with (8 * Z.of_nat (S fuel)) by lia. lia. }
  assert (fits 8 (v `mod` 2 ^ 8)) as Hf by done.
  split; [split; [by constructor|right]|].
  - destruct (abs_bytes fuel (v / 2 ^ 8)) as [|y b] eqn:E; [|by destruct Hl].
    simpl in *. lia.
  - rewrite le_val_cons, Hval by (done || lia). lia.
Qed.

Lemma abs_bytes_unique fuel b :
  trimmed b → (length b ≤ fuel)%nat → abs_bytes fuel (le_val 8 b) = b.
Proof.
  revert fuel. induction b as [|x b IH]; intros fuel Ht Hf; [by destruct fuel|].
  destruct fuel as [|fuel]; simpl in Hf; [lia|]. pose proof (trimmed_pos _ Ht ltac:(done)) as Hp.
  pose proof (trimmed_tail _ _ Ht) as Ht'. destruct Ht as [Hw _].
  apply Forall_cons in Hw as [Hx Hw]. cbn [abs_bytes].
  rewrite le_val_cons in * by (done || lia). unfold fits in Hx.
  destruct (Z.eqb_spec (x + le_val 8 b * 2 ^ 8) 0); [lia|].
  change 0xff with (Z.ones 8). rewrite Z.land_ones, Z.shiftr_div_pow2, Z.mod_add, Z.div_add, Z.mod_small, Z.div_small by lia.
  rewrite Z.add_0_l, IH by (done || lia). done.
Qed.

Lemma le_val_snoc b l :
  words 8 b → le_val 8 (b ++ [l]) = le_val 8 b + l * 2 ^ (8 * Z.of_nat (length b)).
Proof.
  intros. rewrite le_val_app_add by (done || lia). simpl. rewrite Z.lor_0_r.
  do 3 f_equal. lia.
Qed.

(** The number a byte vector stands for, and what the constructor makes of it. *)
Definition vch_value (vch : valtype) : Z :=
  match vch with
  | [] => 0
  | _ =>
      let result := for_up (length vch) (λ r i, Z.lor r (s64 (nth i vch 0 ≪ (8 * Z.of_nat i)))) 0 in
      if negb (Z.land (List.last vch 0) 0x80 =? 0)
      then - s64 (Z.land (u64 result) (u64 (Z.lnot (u64 (0x80 ≪ (8 * (size vch - 1)))))))
      else result
  end.
Definition vch_number (vch : valtype) (fRequireMinimal : bool) : option Z :=
  if nMaxNumSize <? size vch then None
  else if fRequireMinimal && (0 <? size vch) && (Z.land (List.last vch 0) 0x7f =? 0) &&
          ((size vch <=? 1) || (Z.land (nth (length vch - 2) vch 0) 0x80 =? 0))
  then None
  else Some (vch_value vch).

Lemma last_of_nonempty {A} (l : list A) d : l ≠ [] → last l = Some (List.last l d).
Proof. intros Hne. destruct (exists_last Hne) as (b & x & ->). by rewrite last_snoc, List.last_last. Qed.
Lemma lookup_nth {A} (l : list A) i d : (i < length l)%nat → l !! i = Some (nth i l d).
Proof. intros Hi. rewrite nth_lookup. by destruct (lookup_lt_is_Some_2 l i Hi) as [y ->]. Qed.

(** The reads of the constructor stay inside the vector. *)
Lemma set_vch_eq vch : set_vch vch = Some (vch_value vch).
Proof.
  destruct vch as [|y l]; [done|]. unfold set_vch, vch_value. remember (y :: l) as vch eqn:E.
  assert (∀ n, (n ≤ length vch)%nat → for_up n (λ r i, r ← r; x ← vch !! i; Some (Z.lor r (s64 (x ≪ (8 * Z.of_nat i))))) (Some 0) =
    Some (for_up n (λ r i, Z.lor r (s64 (nth i vch 0 ≪ (8 * Z.of_nat i)))) 0)) as ->; [| |done].
  { induction n as [|n IH]; intros Hn; [done|]. unfold for_up in *. rewrite !seq_S, !foldl_app, IH by lia. cbn. by rewrite (lookup_nth vch n 0) by lia. }
  cbn [mbind option_bind]. rewrite (last_of_nonempty vch 0) by (by rewrite E). done.
Qed.
Lemma of_vch_eq vch f : of_vch vch f = Some (vch_number vch f).
Proof.
  unfold of_vch, vch_number. destruct (nMaxNumSize <? size vch); [done|]. destruct f; cbn [andb]; [|cbn; by rewrite set_vch_eq].
  destruct (Z.ltb_spec 0 (size vch)) as [Hs|Hs]; cbn [andb]; [|cbn; by rewrite set_vch_eq].
  unfold not_minimal. rewrite (last_of_nonempty vch 0) by (intros ->; done). cbn [mbind option_bind].
  destruct (Z.land (List.last vch 0) 127 =? 0); cbn [andb mbind option_bind]; [|by rewrite set_vch_eq].
  destruct (size vch <=? 1); cbn [orb mbind option_bind]; [done|]. rewrite (lookup_nth vch _ 0) by (unfold size in Hs; lia).
  cbn [mbind option_bind]. destruct (Z.land _ 128 =? 0); [done|]. by rewrite set_vch_eq.
Qed.

Lemma set_vch_magnitude vch :
  words 8 vch → (length vch ≤ 4)%nat →
  for_up (length vch) (λ r i, Z.lor r (s64 (nth i vch 0 ≪ (8 * Z.of_nat i)))) 0 = le_val 8 vch.
Proof.
  intros Hw Hl.
  replace (le_val 8 vch) with (le_val 8 (take (length vch) vch)) by (by rewrite firstn_all).
  apply (for_up_inv (λ i r, r = le_val 8 (take i vch))); [done|].
  intros i r Hi ->. rewrite (take_S_r vch i (nth i vch 0)).
  2:{ rewrite nth_lookup. by destruct (lookup_lt_is_Some_2 vch i Hi) as [y ->]. }
  rewrite le_val_app by lia. rewrite length_take, Nat.min_l by lia.
  change (le_val 8 [nth i vch 0]) with (Z.lor (nth i vch 0) 0). rewrite Z.lor_0_r.
  rewrite swrap_small; [f_equal; f_equal; lia|lia|].
  pose proof (words_nth 8 vch i ltac:(lia) Hw) as Hx. unfold fits in Hx. unfold sfits.
  rewrite Z.shiftl_mul_pow2 by lia.
  assert (0 < 2 ^ (8 * Z.of_nat i) ≤ 2 ^ 24) as HP.
  { split; [apply Z.pow_pos_nonneg; lia|apply Z.pow_le_mono_r; lia]. }
  revert HP. generalize (2 ^ (8 * Z.of_nat i)). intros P HP. nia.
Qed.

(** Masking out the bit above a number. *)
Lemma clear_top_bit v j :
  0 ≤ j < 63 → 0 ≤ v < 2 ^ j →
  s64 (Z.land (u64 (v + 2 ^ j)) (u64 (Z.lnot (u64 (2 ^ j))))) = v.
Proof.
  intros Hj Hv. assert (2 ^ j ≤ 2 ^ 62) as HP by (apply Z.pow_le_mono_r; lia).
  rewrite !(wrap_small 64 (v + 2 ^ j)), (wrap_small 64 (2 ^ j)) by (unfold fits; lia).
  replace (Z.land (v + 2 ^ j) (u64 (Z.lnot (2 ^ j)))) with v.
  { apply swrap_small; [lia|]. unfold sfits. lia. }
  unfold wrap. rewrite <-Z.land_ones by lia.
  replace (v + 2 ^ j) with (Z.lor v (1 ≪ j)) by (rewrite lor_shiftl_add by (done || lia); lia).
  apply Z.bits_inj'. intros n Hn.
  rewrite !Z.land_spec, Z.lor_spec, Z.lnot_spec, Z.shiftl_spec, Z.pow2_bits_eqb by lia.
  rewrite Z.testbit_ones by lia. destruct (Z.eqb_spec j n) as [<-|Hne].
  - rewrite (fits_testbit j) by (done || lia). by rewrite andb_false_r.
  - rewrite andb_true_l. replace (Z.testbit 1 (n - j)) with false.
    2:{ symmetry. destruct (Z.lt_ge_cases (n - j) 0); [by apply Z.testbit_neg_r|].
        apply (fits_testbit 1); [lia|unfold fits; lia]. }
    rewrite orb_false_r. destruct (Z.lt_ge_cases n j).
    + replace ((0 <=? n) && (n <? 64)) with true by lia. by rewrite andb_true_r.
    + rewrite (fits_testbit j) by (done || lia). done.
Qed.

(** The number a byte vector stands for: sign in the top bit of the last byte. *)
Lemma set_vch_snoc b l :
  words 8 (b ++ [l]) → (length b ≤ 3)%nat →
  vch_value (b ++ [l]) =
    let v := le_val 8 b + l `mod` 128 * 2 ^ (8 * Z.of_nat (length b)) in
    if 128 <=? l then - v else v.
Proof.
  intros Hw Hb. pose proof (set_vch_magnitude _ Hw ltac:(rewrite length_app; simpl; lia)) as Hmag.
  pose proof Hw as [Hwb Hl]%Forall_app. apply Forall_cons in Hl as [Hl _].
  pose proof (le_val_bound 8 b ltac:(lia) Hwb) as Hbb. rewrite (Z.mul_comm _ 8) in Hbb.
  assert (0 < 2 ^ (8 * Z.of_nat (length b)) ≤ 2 ^ 24) as HP.
  { split; [apply Z.pow_pos_nonneg; lia|apply Z.pow_le_mono_r; lia]. }
  unfold vch_value. destruct (b ++ [l]) as [|y r] eqn:E; [by destruct b|]. rewrite <-E in *. clear E y r.
  rewrite Hmag, List.last_last, byte_high, le_val_snoc by done. clear Hmag.
  replace (8 * (size (b ++ [l]) - 1)) with (8 * Z.of_nat (length b))
    by (unfold size; rewrite length_app; simpl; lia).
  rewrite Z.shiftl_mul_pow2 by lia. set (P := 2 ^ (8 * Z.of_nat (length b))) in *.
  unfold fits in Hl, Hbb. pose proof (Z.mod_pos_bound l 128 ltac:(lia)) as Hm.
  pose proof (Z.div_mod l 128 ltac:(lia)) as Hd.
  destruct (Z.leb_spec 128 l) as [Hhi|Hlo].
  2:{ rewrite Z.mod_small by lia. done. }
  assert (l = l `mod` 128 + 128) as El.
  { assert (l / 128 = 1) by (apply Z.le_antisymm; [|apply Z.div_le_lower_bound; lia];
      apply Z.lt_succ_r, Z.div_lt_upper_bound; lia). lia. }
  set (v := le_val 8 b + l `mod` 128 * P).
  assert (0 ≤ v < 128 * P) as Hv by (subst v; nia).
  replace (le_val 8 b + l * P) with (v + 0x80 * P) by (subst v; nia).
  f_equal. subst P. change 0x80 with (2 ^ 7) in *. rewrite <-Z.pow_add_r by lia.
  apply clear_top_bit; [lia|]. rewrite Z.pow_add_r by lia. exact Hv.
Qed.

Lemma trimmed_snoc b m : trimmed (b ++ [m]) ↔ words 8 b ∧ fits 8 m ∧ 0 < m.
Proof.
  unfold trimmed. rewrite Forall_app, List.last_last, Forall_singleton.
  split.
  - intros [[? ?] [E|?]]; [by destruct b|done].
  - intros (? & ? & ?). split; [done|by right].
Qed.

Lemma set_last b (m y : Z) : <[(length (b ++ [m]) - 1)%nat := y]> (b ++ [m]) = b ++ [y].
Proof.
  rewrite length_app. simpl. replace (length b + 1 - 1)%nat with (length b + 0)%nat by lia.
  by rewrite insert_app_r.
Qed.

(** [serialize] of a number whose magnitude has the bytes [b ++ [m]]. *)
Lemma serialize_form b m (negative : bool) :
  trimmed (b ++ [m]) → (length b ≤ 6)%nat →
  serialize ((if negative then -1 else 1) * le_val 8 (b ++ [m])) =
    if 128 <=? m then (b ++ [m]) ++ [if negative then 128 else 0]
    else b ++ [m + if negative then 128 else 0].
Proof.
  intros Ht Hb. pose proof (trimmed_pos _ Ht ltac:(by destruct b)) as Hp.
  assert (length (b ++ [m]) ≤ 7)%nat as Hl by (rewrite length_app; simpl; lia).
  pose proof (le_val_bound 8 (b ++ [m]) ltac:(lia) (proj1 Ht)) as [_ Hub].
  assert (le_val 8 (b ++ [m]) < 2 ^ 56) as Hu.
  { eapply Z.lt_le_trans; [exact Hub|apply Z.pow_le_mono_r; lia]. }
  set (v := le_val 8 (b ++ [m])) in *.
  unfold serialize. replace ((if negative then -1 else 1) * v =? 0) with false by (destruct negative; lia).
  replace ((if negative then -1 else 1) * v <? 0) with negative by (destruct negative; lia).
  replace (u64 (if negative then - ((if negative then -1 else 1) * v) else (if negative then -1 else 1) * v))
    with v by (symmetry; rewrite wrap_small; [destruct negative; lia|unfold fits; destruct negative; lia]).
  subst v. rewrite abs_bytes_unique by (done || lia). rewrite List.last_last, set_last.
  apply trimmed_snoc in Ht as (_ & Hm & Hm0). rewrite byte_high by done.
  destruct (Z.leb_spec 128 m); [done|]. unfold fits in Hm.
  destruct negative; [by rewrite byte_set_high by lia|by rewrite Z.add_0_r].
Qed.

Lemma second_last b (m l : Z) : nth (length ((b ++ [m]) ++ [l]) - 2) ((b ++ [m]) ++ [l]) 0 = m.
Proof.
  rewrite <-app_assoc, length_app. simpl. replace (length b + 2 - 2)%nat with (length b) by lia.
  by rewrite app_nth2, Nat.sub_diag by lia.
Qed.

Lemma snoc_small b m k :
  words 8 b → 0 < m → le_val 8 b + m * 2 ^ (8 * Z.of_nat (length b)) < 2 ^ k →
  0 ≤ k → 8 * Z.of_nat (length b) < k.
Proof.
  intros Hb Hm Hlt Hk. pose proof (le_val_bound 8 b ltac:(lia) Hb) as [H0 _].
  apply (Z.pow_lt_mono_r_iff 2); [lia|done|].
  assert (0 < 2 ^ (8 * Z.of_nat (length b))) by (apply Z.pow_pos_nonneg; lia). nia.
Qed.

(** The two shapes [serialize] produces are accepted and read back. *)
Lemma of_vch_high b m (negative : bool) :
  trimmed (b ++ [m]) → 128 ≤ m → (length b ≤ 2)%nat →
  vch_number ((b ++ [m]) ++ [if negative then 128 else 0]) true =
    Some ((if negative then -1 else 1) * le_val 8 (b ++ [m])).
Proof.
  intros Ht Hhi Hb. pose proof Ht as (Hwb & Hm & Hm0)%trimmed_snoc.
  set (l := if negative then 128 else 0). unfold vch_number, nMaxNumSize.
  assert (words 8 ((b ++ [m]) ++ [l])) as Hw.
  { apply Forall_app. split; [by apply Ht|]. constructor; [|constructor]. unfold fits, l.
    destruct negative; lia. }
  replace (size ((b ++ [m]) ++ [l])) with (Z.of_nat (length b) + 2)
    by (unfold size; rewrite !length_app; simpl; lia).
  rewrite List.last_last, second_last.
  replace (4 <? Z.of_nat (length b) + 2) with false by lia.
  replace (Z.of_nat (length b) + 2 <=? 1) with false by lia.
  pose proof (byte_high m Hm) as Hbit. replace (128 <=? m) with true in Hbit by lia.
  destruct (Z.land m 128 =? 0); [done|]. rewrite orb_false_l, andb_false_r.
  rewrite set_vch_snoc by (done || (rewrite length_app; simpl; lia)). cbv zeta.
  f_equal. unfold l. destruct negative; simpl; rewrite ?Z.mul_0_l; lia.
Qed.

Lemma of_vch_low b m (negative : bool) :
  words 8 b → 0 < m < 128 → (length b ≤ 3)%nat →
  vch_number (b ++ [m + if negative then 128 else 0]) true =
    Some ((if negative then -1 else 1) * le_val 8 (b ++ [m])).
Proof.
  intros Hwb Hm Hb. set (l := m + if negative then 128 else 0). unfold vch_number, nMaxNumSize.
  assert (fits 8 l) as Hl by (unfold fits, l; destruct negative; lia).
  assert (l `mod` 128 = m) as Hlm.
  { unfold l. destruct negative; [|rewrite Z.mod_small; lia].
    change 128 with (1 * 128) at 1. rewrite Z.mod_add, Z.mod_small; lia. }
  replace (size (b ++ [l])) with (Z.of_nat (length b) + 1)
    by (unfold size; rewrite !length_app; simpl; lia).
  assert (words 8 (b ++ [l])) as Hw by (apply Forall_app; split; [done|by constructor]).
  rewrite List.last_last, byte_low, Hlm.
  replace (4 <? Z.of_nat (length b) + 1) with false by lia.
  replace (m =? 0) with false by lia. rewrite andb_false_r, andb_false_l.
  rewrite set_vch_snoc, Hlm, le_val_snoc by (done || lia). cbv zeta. f_equal. unfold l.
  destruct negative.
  - replace (128 <=? m + 128) with true by lia. lia.
  - replace (128 <=? m + 0) with false by lia. lia.
Qed.

Lemma high_short b m :
  words 8 b → 128 ≤ m → le_val 8 (b ++ [m]) < 2 ^ 31 → (length b ≤ 2)%nat.
Proof.
  intros Hb Hm Hlt. rewrite le_val_snoc in Hlt by done.
  pose proof (le_val_bound 8 b ltac:(lia) Hb) as [H0 _].
  enough (8 * Z.of_nat (length b) < 24) by lia. apply (Z.pow_lt_mono_r_iff 2); [lia|lia|].
  assert (0 < 2 ^ (8 * Z.of_nat (length b))) by (apply Z.pow_pos_nonneg; lia). nia.
Qed.

(** A number is a sign and the trimmed bytes of its magnitude. *)
Lemma number_bytes n :
  n ≠ 0 → - 2 ^ 63 < n < 2 ^ 63 →
  ∃ b m, trimmed (b ++ [m]) ∧ n = (if n <? 0 then -1 else 1) * le_val 8 (b ++ [m]) ∧
    Z.abs n = le_val 8 (b ++ [m]).
Proof.
  intros Hn0 Hn. destruct (abs_bytes_trimmed 8 (Z.abs n)) as [Ht Hv]; [simpl; lia|].
  destruct (exists_last (l := abs_bytes 8 (Z.abs n))) as (b & m & E).
  { intros E. rewrite E in Hv. simpl in Hv. lia. }
  rewrite E in Ht, Hv. exists b, m. split_and!; [done| |done].
  rewrite Hv. destruct (Z.ltb_spec n 0); lia.
Qed.

Lemma of_vch_serialize n :
  - 2 ^ 31 < n < 2 ^ 31 → vch_number (serialize n) true = Some n.
Proof.
  intros Hn. destruct (decide (n = 0)) as [->|Hn0]; [done|].
  destruct (number_bytes n Hn0 ltac:(lia)) as (b & m & Ht & En & Ea).
  pose proof Ht as (Hwb & Hm & Hm0)%trimmed_snoc.
  assert (length b ≤ 3)%nat as Hlen.
  { enough (8 * Z.of_nat (length b) < 31) by lia.
    apply (snoc_small b m); [done..| |done]. rewrite <-le_val_snoc, <-Ea by done. lia. }
  rewrite En, serialize_form by (done || lia).
  destruct (Z.leb_spec 128 m) as [Hhi|Hlo].
  - apply of_vch_high; [done..|]. apply (high_short b m); [done..|lia].
  - apply of_vch_low; (done || lia).
Qed.

Lemma byte_sign l : fits 8 l → l = l `mod` 128 + if 128 <=? l then 128 else 0.
Proof.
  intros [H0 Hl]. destruct (Z.leb_spec 128 l).
  - rewrite <-(Z.mod_unique l 128 1 (l - 128)); lia.
  - rewrite Z.mod_small; lia.
Qed.

Lemma snoc_bound b m : words 8 b → (length b ≤ 3)%nat → 0 ≤ m < 128 → 0 ≤ le_val 8 (b ++ [m]) < 2 ^ 31.
Proof.
  intros Hb Hl Hm. rewrite le_val_snoc by done.
  pose proof (le_val_bound 8 b ltac:(lia) Hb) as [H0 H1]. rewrite (Z.mul_comm _ 8) in H1.
  assert (2 ^ (8 * Z.of_nat (length b)) ≤ 2 ^ 24) by (apply Z.pow_le_mono_r; lia). nia.
Qed.

(** Every minimally encoded number is the encoding [serialize] chooses. *)
Lemma serialize_of_vch vch n :
  words 8 vch → vch_number vch true = Some n → serialize n = vch ∧ - 2 ^ 31 < n < 2 ^ 31.
Proof.
  intros Hw H. destruct (decide (vch = [])) as [->|Hne].
  { change (Some 0 = Some n) in H. simplify_eq. split; [done|lia]. }
  destruct (exists_last Hne) as (b & l & ->). unfold vch_number, nMaxNumSize in H.
  pose proof Hw as [Hwb Hl]%Forall_app. apply Forall_cons in Hl as [Hl _].
  replace (size (b ++ [l])) with (Z.of_nat (length b) + 1) in H
    by (unfold size; rewrite !length_app; simpl; lia).
  destruct (Z.ltb_spec 4 (Z.of_nat (length b) + 1)); [done|].
  rewrite List.last_last, byte_low in H. replace (0 <? Z.of_nat (length b) + 1) with true in H by lia.
  rewrite !andb_true_l in H. pose proof (Z.mod_pos_bound l 128 ltac:(lia)) as Hm.
  pose proof (snoc_bound b (l `mod` 128) Hwb ltac:(lia) Hm) as Hbnd.
  rewrite set_vch_snoc in H by (done || lia). cbv zeta in H. rewrite <-le_val_snoc in H by done.
  replace (if 128 <=? l then - le_val 8 (b ++ [l `mod` 128]) else le_val 8 (b ++ [l `mod` 128]))
    with ((if 128 <=? l then -1 else 1) * le_val 8 (b ++ [l `mod` 128])) in H
    by (destruct (128 <=? l); lia).
  destruct (Z.eqb_spec (l `mod` 128) 0) as [E0|E0].
  - destruct (decide (b = [])) as [->|Hb]; [done|]. destruct (exists_last Hb) as (b' & m & ->).
    rewrite second_last in H. destruct (Z.of_nat (length (b' ++ [m])) + 1 <=? 1); [done|].
    pose proof Hwb as [Hwb' Hmw]%Forall_app. apply Forall_cons in Hmw as [Hmw _].
    pose proof (byte_high m Hmw) as Hbit. destruct (Z.land m 128 =? 0); [done|].
    rewrite length_app in *. simpl in *. simplify_eq.
    rewrite le_val_snoc, E0, Z.mul_0_l, Z.add_0_r in Hbnd |- * by done.
    rewrite serialize_form, <-Hbit by (lia || (apply trimmed_snoc; split_and!; [done..|lia])).
    split; [|destruct (128 <=? l); lia]. simpl.
    f_equal. f_equal. pose proof (byte_sign l Hl) as El. rewrite E0 in El. done.
  - simpl in H. simplify_eq. rewrite serialize_form
      by (lia || (apply trimmed_snoc; split_and!; [done|unfold fits; lia|lia])).
    replace (128 <=? l `mod` 128) with false by lia.
    rewrite <-byte_sign by done. split; [done|destruct (128 <=? l); lia].
Qed.

(** ** Counting signature operations *)

Lemma sigops_of_total acc last op :
  ∃ k, sigops_of acc last op = Some k ∧ 0 ≤ k ≤ 20 ∧
    ∃ k', sigops_of false last op = Some k' ∧ k ≤ k' ≤ 20.
Proof.
  unfold sigops_of, DecodeOP_N, OP_0, OP_1, OP_16. repeat case_match;
    simplify_eq/=; try (eexists; split_and!; [done|lia|lia|eexists; split_and!; [done|lia|lia]]); lia.
Qed.

Lemma sigop_loop_total fuel last n n' pc :
  0 ≤ n ≤ n' → n' + 20 * size pc < 2 ^ 32 →
  ∃ a i, sigop_loop fuel true last n pc = Some a ∧ sigop_loop fuel false last n' pc = Some i ∧
    0 ≤ a ≤ i ∧ i ≤ n' + 20 * size pc.
Proof.
  revert last n n' pc. induction fuel as [|fuel IH]; intros last n n' pc Hn Hb;
    pose proof (size_nonneg pc).
  { destruct pc; exists n, n'; split_and!; (done || lia). }
  destruct pc as [|x pc]; [exists n, n'; split_and!; (done || lia)|].
  cbn [sigop_loop]. set (r := GetOp2 (x :: pc)).
  destruct (op_ok r) eqn:Eok; [|exists n, n'; split_and!; (done || lia)].
  destruct (sigops_of_total true last (op_code r)) as (k & -> & Hk & k' & -> & Hk').
  cbn [mbind option_bind]. rewrite size_cons in *.
  assert (size (op_rest r) ≤ size pc) as Hr
    by (unfold size; pose proof (GetOp2_consumes pc x); unfold r; lia).
  rewrite !(wrap_small 32) by (unfold fits; pose proof (size_nonneg pc); lia).
  destruct (IH (op_code r) (n + k) (n' + k') (op_rest r)) as (a & i & -> & -> & ? & ?); [lia..|].
  exists a, i. split_and!; (done || lia).
Qed.

(** ** Deleting a subscript *)

Lemma erase_copies_fuel b pc f1 f2 :
  b ≠ [] → (length pc ≤ f1)%nat → (length pc ≤ f2)%nat →
  erase_copies f1 b pc = erase_copies f2 b pc.
Proof.
  intros Hb. revert f2 pc. assert (0 < length b)%nat by (destruct b; simpl; [done|lia]).
  induction f1 as [|f1 IH]; intros [|f2] pc H1 H2; simpl; [done| | |].
  1, 2: (destruct pc; [|simpl in *; lia]);
    (replace (size b <=? size (@nil Z)) with false by (unfold size; simpl; lia)); done.
  destruct (_ && _) eqn:E; [|done]. rewrite (IH f2); [done|rewrite length_drop; lia..].
Qed.

Lemma erase_copies_spec b pc f :
  let '(n, s) := erase_copies f b pc in
  0 ≤ n ∧ size pc = size s + n * size b ∧ (n = 0 → s = pc) ∧ (length s ≤ length pc)%nat.
Proof.
  revert pc. induction f as [|f IH]; intros pc; simpl; [split_and!; (done || lia)|].
  destruct (Z.leb_spec (size b) (size pc)); cbn [andb]; [|split_and!; (done || lia)].
  destruct (bool_decide (take (length b) pc = b)); [|split_and!; (done || lia)].
  specialize (IH (drop (length b) pc)). destruct (erase_copies f b (drop (length b) pc)) as [n s].
  destruct IH as (? & Hs & ? & Hl). rewrite length_drop in Hl. split_and!; [lia| |lia|lia].
  unfold size in *. rewrite length_drop in Hs. lia.
Qed.

Lemma find_delete_done fuel b dn pc :
  find_delete_loop fuel b dn pc =
    let '(n, s) := find_delete_loop fuel b [] pc in (n, dn ++ s).
Proof.
  revert dn pc. induction fuel as [|fuel IH]; intros dn pc; simpl;
    destruct (erase_copies (length pc) b pc) as [n q]; [done|].
  destruct (op_ok (GetOp2 q)); [|done].
  rewrite (IH (dn ++ _)), (IH (take _ q)). destruct (find_delete_loop fuel b [] (op_rest (GetOp2 q))) as [m s].
  by rewrite app_assoc.
Qed.

Lemma find_delete_fuel b pc f1 f2 :
  (length pc ≤ f1)%nat → (length pc ≤ f2)%nat →
  find_delete_loop f1 b [] pc = find_delete_loop f2 b [] pc.
Proof.
  revert f2 pc. induction f1 as [|f1 IH]; intros [|f2] pc H1 H2; [done| | |].
  1, 2: (destruct pc; [|simpl in *; lia]); by destruct b.
  simpl. pose proof (erase_copies_spec b pc (length pc)) as He.
  destruct (erase_copies (length pc) b pc) as [n q]. destruct He as (_ & _ & _ & Hl).
  destruct (op_ok (GetOp2 q)) eqn:Eok; [|done]. pose proof (GetOp2_shorter q Eok).
  rewrite (find_delete_done f1), (find_delete_done f2), (IH f2); [done|lia..].
Qed.

Lemma find_delete_size fuel b pc :
  let '(n, s) := find_delete_loop fuel b [] pc in
  0 ≤ n ∧ size pc = size s + n * size b ∧ (n = 0 → s = pc).
Proof.
  revert pc. induction fuel as [|fuel IH]; intros pc; simpl;
    pose proof (erase_copies_spec b pc (length pc)) as He;
    destruct (erase_copies (length pc) b pc) as [n q]; destruct He as (Hn & Hsz & Heq & _); [done|].
  destruct (op_ok (GetOp2 q)) eqn:Eok; [|done]. rewrite find_delete_done.
  specialize (IH (op_rest (GetOp2 q))).
  destruct (find_delete_loop fuel b [] (op_rest (GetOp2 q))) as [m s]. destruct IH as (Hm & Hs & H0).
  destruct (GetOp2_sound q) as (pre & Eq & _). pose proof (f_equal length Eq) as El.
  rewrite length_app in El.
  assert (take (length q - length (op_rest (GetOp2 q))) q = pre) as Hpre.
  { replace (length q - length (op_rest (GetOp2 q)))%nat with (length pre) by lia.
    transitivity (take (length pre) (pre ++ op_rest (GetOp2 q))); [by rewrite <-Eq|apply take_app_length]. }
  rewrite Hpre, size_app. split_and!; [lia| |].
  - apply (f_equal size) in Eq. rewrite size_app in Eq. lia.
  - intros E. rewrite H0, <-Eq by lia. apply Heq. lia.
Qed.

Lemma prefix_test (b pc : CScript) :
  (size b <=? size pc) && bool_decide (take (length b) pc = b) = true ↔ ∃ r, pc = b ++ r.
Proof.
  rewrite andb_true_iff, bool_decide_eq_true. split.
  - intros [_ E]. exists (drop (length b) pc). rewrite <-E at 1. by rewrite (take_drop (length b) pc).
  - intros [r ->]. rewrite size_app, take_app_length. split; [|done].
    pose proof (size_nonneg r). lia.
Qed.

(** The equations of [FindAndDelete]: a copy at the cursor is dropped; otherwise
    one instruction is kept, or the rest if it does not parse. *)
Lemma FindAndDelete_copy b pc :
  b ≠ [] → FindAndDelete (b ++ pc) b = let '(n, s) := FindAndDelete pc b in (n + 1, s).
Proof.
  intros Hb. unfold FindAndDelete. destruct b as [|x b']; [done|]. set (b := x :: b') in *.
  assert (0 < length b)%nat by (simpl; lia).
  assert (erase_copies (length (b ++ pc)) b (b ++ pc) =
    let '(n, q) := erase_copies (length pc) b pc in (n + 1, q)) as E.
  { destruct (length (b ++ pc)) as [|f] eqn:Ef; [simpl in Ef; lia|]. cbn [erase_copies].
    replace ((size b <=? size (b ++ pc)) && bool_decide (take (length b) (b ++ pc) = b)) with true
      by (symmetry; apply prefix_test; eauto).
    rewrite drop_app_length. rewrite (erase_copies_fuel b pc f (length pc)); [done|done| |done].
    rewrite length_app in Ef. lia. }
  rewrite (find_delete_fuel b pc (length pc) (length (b ++ pc))) by (rewrite ?length_app; lia).
  destruct (length (b ++ pc)) as [|f] eqn:Ef; [simpl in Ef; lia|]. cbn [find_delete_loop].
  rewrite <-Ef in *. rewrite E. destruct (erase_copies (length pc) b pc) as [n q].
  destruct (op_ok (GetOp2 q)); [|done].
  destruct (find_delete_loop f b _ (op_rest (GetOp2 q))) as [m s]. f_equal. lia.
Qed.

Lemma FindAndDelete_keep b pc :
  b ≠ [] → (∀ r, pc ≠ b ++ r) →
  FindAndDelete pc b =
    let r := GetOp2 pc in
    if op_ok r then
      let '(n, s) := FindAndDelete (op_rest r) b in
      (n, take (length pc - length (op_rest r)) pc ++ s)
    else (0, pc).
Proof.
  intros Hb Hno. unfold FindAndDelete. destruct b as [|x b']; [done|]. set (b := x :: b') in *.
  assert (∀ f, erase_copies f b pc = (0, pc)) as E.
  { intros [|f]; [done|]. cbn [erase_copies]. destruct (_ && _) eqn:Et; [|done].
    apply prefix_test in Et as [r Er]. by destruct (Hno r). }
  destruct (length pc) as [|f] eqn:Ef.
  { destruct pc; [|done]. simpl. done. }
  cbn [find_delete_loop]. rewrite E. cbv zeta. destruct (op_ok (GetOp2 pc)) eqn:Eok; [|done].
  rewrite find_delete_done, Ef.
  pose proof (GetOp2_shorter pc Eok).
  rewrite (find_delete_fuel b (op_rest (GetOp2 pc)) f (length (op_rest (GetOp2 pc)))) by lia.
  by destruct (find_delete_loop _ b [] (op_rest (GetOp2 pc))) as [m s].
Qed.

(** ** Properties *)

(** script numbers round trip: every number below 2^31 in magnitude is
    encoded in a form the strict decoder accepts and reads back as that number,
    and conversely every byte string the strict decoder accepts is exactly the
    encoding of the number it returns, so the minimal encoding is unique. *)
Theorem scriptnum_roundtrip :
  (∀ n, - 2 ^ 31 < n < 2 ^ 31 → of_vch (serialize n) true = Some (Some n)) ∧
  (∀ vch n, words 8 vch → of_vch vch true = Some (Some n) →
    serialize n = vch ∧ - 2 ^ 31 < n < 2 ^ 31).
Proof.
  setoid_rewrite of_vch_eq. split; [intros n Hn; by rewrite of_vch_serialize|]. intros vch n Hw [= E]. by apply serialize_of_vch.
Qed.

(** [GetOp] reads back exactly the data that [operator<<] pushed, for data of
    every size a 32-bit length can hold, and leaves the rest of the script. *)
Theorem push_roundtrip (b rest : list Z) :
  size b < 2 ^ 32 →
  op_ok (GetOp2 (push_data b ++ rest)) = true ∧
  op_vch (GetOp2 (push_data b ++ rest)) = b ∧
  op_rest (GetOp2 (push_data b ++ rest)) = rest ∧
  op_code (GetOp2 (push_data b ++ rest)) ≤ OP_PUSHDATA4.
Proof.
  intros Hb. rewrite GetOp2_push by done. simpl. split_and!; [done..|].
  unfold push_opcode, OP_PUSHDATA1, OP_PUSHDATA2, OP_PUSHDATA4.
  destruct (Z.ltb_spec (size b) 0x4c); [lia|]. repeat case_match; lia.
Qed.

(** [FindAndDelete] always terminates within its loops and does what its
    contract says at every instruction boundary: a copy of [b] there is dropped
    and counted, any other instruction is kept; the bytes removed are exactly
    the copies counted, and a script without a copy is unchanged. *)
Theorem FindAndDelete_correct (b pc : CScript) :
  b ≠ [] →
  (FindAndDelete (b ++ pc) b = let '(n, s) := FindAndDelete pc b in (n + 1, s)) ∧
  ((∀ r, pc ≠ b ++ r) →
   FindAndDelete pc b =
    if op_ok (GetOp2 pc) then
      let '(n, s) := FindAndDelete (op_rest (GetOp2 pc)) b in
      (n, take (length pc - length (op_rest (GetOp2 pc))) pc ++ s)
    else (0, pc)) ∧
  (let '(n, s) := FindAndDelete pc b in
   0 ≤ n ∧ size pc = size s + n * size b ∧ (n = 0 → s = pc)).
Proof.
  intros Hb. split_and!; [by apply FindAndDelete_copy|by apply FindAndDelete_keep|].
  unfold FindAndDelete. destruct b; [done|]. apply find_delete_size.
Qed.

(** counting signature operations never fails; the accurate count is not
    above the legacy count, which is at most 20 per script byte, so it cannot
    wrap for a script that fits in a block. *)
Theorem sigop_count_bounds (s : CScript) :
  20 * size s < 2 ^ 32 →
  ∃ a i, GetSigOpCount s true = Some a ∧ GetSigOpCount s false = Some i ∧
    0 ≤ a ≤ i ∧ i ≤ 20 * size s.
Proof. intros Hs. by apply sigop_loop_total. Qed.

Lemma push_roundtrip_witness :
  op_vch (GetOp2 (push_data (replicate 300 7) ++ [OP_CHECKSIG])) = replicate 300 7.
Proof. apply (push_roundtrip (replicate 300 7) [OP_CHECKSIG]). vm_compute. reflexivity. Defined.

Lemma FindAndDelete_correct_witness :
  FindAndDelete ([OP_CODESEPARATOR] ++ [OP_DUP; OP_CODESEPARATOR]) [OP_CODESEPARATOR] = (2, [OP_DUP]) ∧
  FindAndDelete ([OP_CODESEPARATOR] ++ [OP_DUP; OP_CODESEPARATOR]) [OP_CODESEPARATOR] =
    let '(n, s) := FindAndDelete [OP_DUP; OP_CODESEPARATOR] [OP_CODESEPARATOR] in (n + 1, s).
Proof.
  split; [vm_compute; reflexivity|].
  apply (FindAndDelete_correct [OP_CODESEPARATOR] [OP_DUP; OP_CODESEPARATOR]). done.
Defined.

Lemma sigop_count_bounds_witness :
  GetSigOpCount [OP_2; OP_CHECKMULTISIG] true = Some 2 ∧
  ∃ a i, GetSigOpCount [OP_2; OP_CHECKMULTISIG] true = Some a ∧
    GetSigOpCount [OP_2; OP_CHECKMULTISIG] false = Some i ∧ 0 ≤ a ≤ i ∧ i ≤ 40.
Proof.
  split; [vm_compute; reflexivity|].
  apply (sigop_count_bounds [OP_2; OP_CHECKMULTISIG]). vm_compute. reflexivity.
Defined.
