(* ===== verification/Scalar.v ===== *)
(** secp256k1/src/scalar_4x64_impl.h: arithmetic modulo the order of the
    secp256k1 group on four 64-bit limbs, and the signature encodings of
    secp256k1/src/secp256k1.c that use it. *)

From S2P Require Import Prelude.

Definition SECP256K1_N_0 : Z := 0xBFD25E8CD0364141.
Definition SECP256K1_N_1 : Z := 0xBAAEDCE6AF48A03B.
Definition SECP256K1_N_2 : Z := 0xFFFFFFFFFFFFFFFE.
Definition SECP256K1_N_3 : Z := 0xFFFFFFFFFFFFFFFF.
Definition SECP256K1_N_C_0 : Z := u64 (u64 (Z.lnot SECP256K1_N_0) + 1).
Definition SECP256K1_N_C_1 : Z := u64 (Z.lnot SECP256K1_N_1).
Definition SECP256K1_N_C_2 : Z := 1.
Definition SECP256K1_N_H_0 : Z := 0xDFE92F46681B20A0.
Definition SECP256K1_N_H_1 : Z := 0x5D576E7357A4501D.
Definition SECP256K1_N_H_2 : Z := 0xFFFFFFFFFFFFFFFF.
Definition SECP256K1_N_H_3 : Z := 0x7FFFFFFFFFFFFFFF.

Record secp256k1_scalar := Scalar { d0 : Z; d1 : Z; d2 : Z; d3 : Z }.

Definition u128 (z : Z) : Z := wrap 128 z.
Definition low64 (t : Z) : Z := Z.land t 0xFFFFFFFFFFFFFFFF.

Definition scalar_clear : secp256k1_scalar := Scalar 0 0 0 0.
Definition scalar_set_int (v : Z) : secp256k1_scalar := Scalar v 0 0 0.

(** [secp256k1_scalar_check_overflow]; [yes] and [no] are 0/1 flags. *)
Definition scalar_check_overflow (a : secp256k1_scalar) : bool :=
  let no := d3 a <? SECP256K1_N_3 in
  let no := no || (d2 a <? SECP256K1_N_2) in
  let yes := (SECP256K1_N_2 <? d2 a) && negb no in
  let no := no || (d1 a <? SECP256K1_N_1) in
  let yes := yes || ((SECP256K1_N_1 <? d1 a) && negb no) in
  yes || ((SECP256K1_N_0 <=? d0 a) && negb no).

(** [secp256k1_scalar_reduce]: add 2^256 - n [overflow] times. *)
Definition scalar_reduce (r : secp256k1_scalar) (overflow : Z) : secp256k1_scalar :=
  let t := u128 (d0 r + u64 (overflow * SECP256K1_N_C_0)) in
  let r0 := low64 t in
  let t := u128 ((t ≫ 64) + (d1 r + u64 (overflow * SECP256K1_N_C_1))) in
  let r1 := low64 t in
  let t := u128 ((t ≫ 64) + (d2 r + overflow * SECP256K1_N_C_2)) in
  let r2 := low64 t in
  let t := u128 ((t ≫ 64) + d3 r) in
  Scalar r0 r1 r2 (low64 t).

(** [secp256k1_scalar_add]: the sum and the overflow it returns. *)
Definition scalar_add (a b : secp256k1_scalar) : secp256k1_scalar * Z :=
  let t := u128 (d0 a + d0 b) in
  let r0 := low64 t in
  let t := u128 ((t ≫ 64) + (d1 a + d1 b)) in
  let r1 := low64 t in
  let t := u128 ((t ≫ 64) + (d2 a + d2 b)) in
  let r2 := low64 t in
  let t := u128 ((t ≫ 64) + (d3 a + d3 b)) in
  let r := Scalar r0 r1 r2 (low64 t) in
  let overflow := (t ≫ 64) + Z.b2z (scalar_check_overflow r) in
  (scalar_reduce r overflow, overflow).

(** Eight big-endian bytes from position [i] as one limb. *)
Definition read_be64 (b32 : list Z) (i : nat) : Z := le_val 8 (rev (take 8 (drop i b32))).

(** [secp256k1_scalar_set_b32]: the scalar and [*overflow]. *)
Definition scalar_set_b32 (b32 : list Z) : secp256k1_scalar * bool :=
  let r := Scalar (read_be64 b32 24) (read_be64 b32 16) (read_be64 b32 8) (read_be64 b32 0) in
  let over := scalar_check_overflow r in
  (scalar_reduce r (Z.b2z over), over).

(** [secp256k1_scalar_get_b32] *)
Definition write_be64 (d : Z) : list Z :=
  (λ i, u8 (d ≫ (8 * i))) <$> [7; 6; 5; 4; 3; 2; 1; 0].
Definition scalar_get_b32 (a : secp256k1_scalar) : list Z :=
  write_be64 (d3 a) ++ write_be64 (d2 a) ++ write_be64 (d1 a) ++ write_be64 (d0 a).

(** [secp256k1_scalar_is_zero], [secp256k1_scalar_is_one] *)
Definition scalar_is_zero (a : secp256k1_scalar) : bool :=
  Z.lor (Z.lor (Z.lor (d0 a) (d1 a)) (d2 a)) (d3 a) =? 0.
Definition scalar_is_one (a : secp256k1_scalar) : bool :=
  Z.lor (Z.lor (Z.lor (Z.lxor (d0 a) 1) (d1 a)) (d2 a)) (d3 a) =? 0.

(** [secp256k1_scalar_negate] *)
Definition scalar_negate (a : secp256k1_scalar) : secp256k1_scalar :=
  let nonzero := u64 (0xFFFFFFFFFFFFFFFF * Z.b2z (negb (scalar_is_zero a))) in
  let t := u128 (u64 (Z.lnot (d0 a)) + SECP256K1_N_0 + 1) in
  let r0 := Z.land t nonzero in
  let t := u128 ((t ≫ 64) + (u64 (Z.lnot (d1 a)) + SECP256K1_N_1)) in
  let r1 := Z.land t nonzero in
  let t := u128 ((t ≫ 64) + (u64 (Z.lnot (d2 a)) + SECP256K1_N_2)) in
  let r2 := Z.land t nonzero in
  let t := u128 ((t ≫ 64) + (u64 (Z.lnot (d3 a)) + SECP256K1_N_3)) in
  Scalar r0 r1 r2 (Z.land t nonzero).

(** [secp256k1_scalar_is_high] *)
Definition scalar_is_high (a : secp256k1_scalar) : bool :=
  let no := d3 a <? SECP256K1_N_H_3 in
  let yes := (SECP256K1_N_H_3 <? d3 a) && negb no in
  let no := no || ((d2 a <? SECP256K1_N_H_2) && negb yes) in
  let no := no || ((d1 a <? SECP256K1_N_H_1) && negb yes) in
  let yes := yes || ((SECP256K1_N_H_1 <? d1 a) && negb no) in
  yes || ((SECP256K1_N_H_0 <? d0 a) && negb no).

(** A [secp256k1_ecdsa_signature] holds the scalars [r] and [s]. *)
Record ecdsa_signature := EcdsaSignature { sig_r : secp256k1_scalar; sig_s : secp256k1_scalar }.

(** [secp256k1_ecdsa_signature_parse_compact]: the return value and [*sig]. *)
Definition signature_parse_compact (input64 : list Z) : bool * ecdsa_signature :=
  let '(r, over_r) := scalar_set_b32 (take 32 input64) in
  let '(s, over_s) := scalar_set_b32 (drop 32 input64) in
  if negb over_r && negb over_s then (true, EcdsaSignature r s)
  else (false, EcdsaSignature scalar_clear scalar_clear).

(** [secp256k1_ecdsa_signature_normalize]: the return value and [*sigout]. *)
Definition signature_normalize (sigin : ecdsa_signature) : bool * ecdsa_signature :=
  let ret := scalar_is_high (sig_s sigin) in
  (ret, EcdsaSignature (sig_r sigin) (if ret then scalar_negate (sig_s sigin) else sig_s sigin)).
