(* ===== verification/ScalarFacts.v ===== *)
(** Scalars of the secp256k1 group: the limb code computes modulo the order. *)

From S2P Require Import Prelude Scalar.

(** Order of the group, and the number a scalar stands for. *)
Definition order : Z :=
  SECP256K1_N_0 + SECP256K1_N_1 * 2 ^ 64 + SECP256K1_N_2 * 2 ^ 128 + SECP256K1_N_3 * 2 ^ 192.
Definition sval (a : secp256k1_scalar) : Z :=
  d0 a + d1 a * 2 ^ 64 + d2 a * 2 ^ 128 + d3 a * 2 ^ 192.
Definition limbs (a : secp256k1_scalar) : Prop :=
  fits 64 (d0 a) ∧ fits 64 (d1 a) ∧ fits 64 (d2 a) ∧ fits 64 (d3 a).
(** Type invariant: 64-bit limbs and a value below the order. *)
Definition scalar_ok (a : secp256k1_scalar) : Prop := limbs a ∧ sval a < order.

Ltac scalar_consts :=
  unfold sval, limbs, scalar_ok, order, fits, SECP256K1_N_0, SECP256K1_N_1, SECP256K1_N_2,
    SECP256K1_N_3, SECP256K1_N_H_0, SECP256K1_N_H_1, SECP256K1_N_H_2, SECP256K1_N_H_3 in *.

Lemma N_C_values : SECP256K1_N_C_0 = 2 ^ 64 - SECP256K1_N_0 ∧ SECP256K1_N_C_1 = 2 ^ 64 - 1 - SECP256K1_N_1.
Proof. split; vm_compute; reflexivity. Qed.

Lemma low64_mod t : low64 t = t `mod` 2 ^ 64.
Proof. by apply (Z.land_ones t 64). Qed.

Lemma high64_div t : t ≫ 64 = t / 2 ^ 64.
Proof. by apply Z.shiftr_div_pow2. Qed.

(** One limb of a carry chain. *)
Lemma carry_limb t :
  0 ≤ t < 2 ^ 66 →
  ∃ lo hi, low64 (u128 t) = lo ∧ u128 t ≫ 64 = hi ∧ t = lo + hi * 2 ^ 64 ∧ 0 ≤ lo < 2 ^ 64 ∧ 0 ≤ hi < 4.
Proof.
  intros Ht. unfold u128. rewrite (wrap_small 128) by (unfold fits; lia).
  exists (t `mod` 2 ^ 64), (t / 2 ^ 64). rewrite low64_mod, high64_div.
  pose proof (Z.div_mod t (2 ^ 64) ltac:(lia)). pose proof (Z.mod_pos_bound t (2 ^ 64) ltac:(lia)).
  split_and!; try done; lia.
Qed.

Ltac carry H :=
  match goal with
  | |- context [low64 (u128 ?t)] =>
      let lo := fresh "lo" in let hi := fresh "hi" in
      let El := fresh in let Eh := fresh in
      destruct (carry_limb t) as (lo & hi & El & Eh & ?H & ? & ?); [lia|]; rewrite El, ?Eh; clear El Eh
  end.

Lemma scalar_check_overflow_spec a : limbs a → scalar_check_overflow a = (order <=? sval a).
Proof.
  intros (H0 & H1 & H2 & H3). unfold scalar_check_overflow. destruct a as [a0 a1 a2 a3]. simpl in *.
  scalar_consts. simpl in *.
  match goal with |- ?x = ?y => destruct x eqn:E1, y eqn:E2 end; try done; exfalso; lia.
Qed.

Lemma scalar_is_high_spec a : limbs a → scalar_is_high a = (order / 2 <? sval a).
Proof.
  intros (H0 & H1 & H2 & H3). unfold scalar_is_high. destruct a as [a0 a1 a2 a3]. simpl in *.
  replace (order / 2) with (SECP256K1_N_H_0 + SECP256K1_N_H_1 * 2 ^ 64 + SECP256K1_N_H_2 * 2 ^ 128 +
    SECP256K1_N_H_3 * 2 ^ 192) by (vm_compute; reflexivity).
  scalar_consts. simpl in *.
  match goal with |- ?x = ?y => destruct x eqn:E1, y eqn:E2 end; try done; exfalso; lia.
Qed.

Lemma scalar_reduce_spec a ov :
  limbs a → 0 ≤ ov ≤ 1 →
  limbs (scalar_reduce a ov) ∧ sval (scalar_reduce a ov) = (sval a + ov * (2 ^ 256 - order)) `mod` 2 ^ 256.
Proof.
  intros (H0 & H1 & H2 & H3) Hov. destruct a as [a0 a1 a2 a3]. unfold scalar_reduce. cbn [d0 d1 d2 d3] in *.
  destruct N_C_values as [-> ->].
  assert (Hc : 0 ≤ ov * (2 ^ 64 - SECP256K1_N_0) < 2 ^ 64 ∧ 0 ≤ ov * (2 ^ 64 - 1 - SECP256K1_N_1) < 2 ^ 64).
  { unfold SECP256K1_N_0, SECP256K1_N_1. lia. }
  rewrite !(wrap_small 64) by (unfold fits; lia). unfold SECP256K1_N_C_2. unfold fits in *.
  carry E0. carry E1. carry E2. carry E3. scalar_consts. cbn [d0 d1 d2 d3] in *.
  split; [lia|]. apply Z.mod_unique with hi2; lia.
Qed.

Lemma scalar_reduce_sub a :
  limbs a → order ≤ sval a → scalar_ok (scalar_reduce a 1) ∧ sval (scalar_reduce a 1) = sval a - order.
Proof.
  intros Ha Hge. destruct (scalar_reduce_spec a 1 Ha) as [Hl Hv]; [lia|].
  destruct Ha as (H0 & H1 & H2 & H3).
  assert (sval (scalar_reduce a 1) = sval a - order) as E.
  { rewrite Hv. symmetry. apply Z.mod_unique with 1; scalar_consts; lia. }
  split; [|done]. split; [done|]. rewrite E. scalar_consts. lia.
Qed.

Lemma scalar_reduce_0 a : limbs a → scalar_reduce a 0 = a.
Proof.
  intros (H0 & H1 & H2 & H3). destruct a as [a0 a1 a2 a3]. unfold scalar_reduce. cbn [d0 d1 d2 d3] in *.
  change (u64 (0 * SECP256K1_N_C_0)) with 0. change (u64 (0 * SECP256K1_N_C_1)) with 0.
  change (0 * SECP256K1_N_C_2) with 0. unfold fits in *.
  carry E0. carry E1. carry E2. carry E3. f_equal; lia.
Qed.

Lemma scalar_add_spec a b :
  scalar_ok a → scalar_ok b →
  scalar_ok (fst (scalar_add a b)) ∧
  sval (fst (scalar_add a b)) = (sval a + sval b) `mod` order ∧
  snd (scalar_add a b) = (sval a + sval b) / order.
Proof.
  intros [(A0 & A1 & A2 & A3) Ha] [(B0 & B1 & B2 & B3) Hb].
  destruct a as [a0 a1 a2 a3], b as [b0 b1 b2 b3]. unfold scalar_add. cbn [d0 d1 d2 d3] in *.
  unfold fits in *. carry E0. carry E1. carry E2. carry E3. cbn [fst snd].
  set (r := Scalar lo lo0 lo1 lo2).
  assert (limbs r) as Hr by (unfold limbs, fits; simpl; lia).
  assert (Er : sval (Scalar a0 a1 a2 a3) + sval (Scalar b0 b1 b2 b3) = sval r + hi2 * 2 ^ 256)
    by (unfold sval; simpl; lia).
  assert (Hr0 : 0 ≤ sval r < 2 ^ 256) by (destruct Hr as (?&?&?&?); unfold sval, fits in *; lia).
  assert (Hord : 0 < order < 2 ^ 256 ∧ 2 ^ 256 < 2 * order) by (vm_compute; done).
  rewrite (scalar_check_overflow_spec r Hr), Er.
  assert (hi2 = 0 ∧ order ≤ sval r ∨ hi2 = 1 ∧ sval r < order ∨ hi2 = 0 ∧ sval r < order) as
    [[Eh Hc]|[[Eh Hc]|[Eh Hc]]] by lia; rewrite Eh.
  - replace (order <=? sval r) with true by lia. change (0 + Z.b2z true) with 1.
    destruct (scalar_reduce_sub r Hr Hc) as [Hok ->]. split_and!; [done| |].
    + apply Z.mod_unique with 1; lia.
    + apply Z.div_unique with (sval r - order); lia.
  - replace (order <=? sval r) with false by lia. change (1 + Z.b2z false) with 1.
    destruct (scalar_reduce_spec r 1 Hr) as [Hl Hv]; [lia|].
    assert (sval (scalar_reduce r 1) = sval r + 2 ^ 256 - order) as Ev
      by (rewrite Hv; symmetry; apply Z.mod_unique with 0; lia).
    split_and!; [split; [done|lia]| |].
    + rewrite Ev. apply Z.mod_unique with 1; lia.
    + apply Z.div_unique with (sval r + 2 ^ 256 - order); lia.
  - replace (order <=? sval r) with false by lia. change (0 + Z.b2z false) with 0.
    rewrite scalar_reduce_0 by done. split_and!; [by split| |].
    + apply Z.mod_unique with 0; lia.
    + apply Z.div_unique with (sval r); lia.
Qed.

Lemma lor_zero a b : 0 ≤ a → 0 ≤ b → (Z.lor a b =? 0) = (a =? 0) && (b =? 0).
Proof.
  intros. destruct (Z.eqb_spec a 0) as [->|]; [by rewrite Z.lor_0_l|]. simpl.
  apply Z.eqb_neq. intros E%Z.lor_eq_0_iff. tauto.
Qed.

Lemma scalar_is_zero_spec a : limbs a → scalar_is_zero a = (sval a =? 0).
Proof.
  intros (H0 & H1 & H2 & H3). destruct a as [a0 a1 a2 a3]. unfold scalar_is_zero, fits in *.
  cbn [d0 d1 d2 d3] in *. rewrite !lor_zero by (repeat (apply Z.lor_nonneg; split); lia).
  unfold sval. cbn [d0 d1 d2 d3]. lia.
Qed.

Lemma not64 x : fits 64 x → u64 (Z.lnot x) = 2 ^ 64 - 1 - x.
Proof. intros [? ?]. unfold wrap, Z.lnot. symmetry. apply Z.mod_unique with (-1); lia. Qed.

Lemma scalar_negate_spec a :
  scalar_ok a → scalar_ok (scalar_negate a) ∧ sval (scalar_negate a) = (- sval a) `mod` order.
Proof.
  intros [Hl Ha]. unfold scalar_negate. rewrite (scalar_is_zero_spec a Hl).
  destruct Hl as (H0 & H1 & H2 & H3). destruct a as [a0 a1 a2 a3]. cbn [d0 d1 d2 d3] in *.
  rewrite !not64 by done. unfold fits in *.
  destruct (Z.eqb_spec (sval (Scalar a0 a1 a2 a3)) 0) as [E|E].
  - change (u64 (18446744073709551615 * Z.b2z (negb true))) with 0. rewrite !Z.land_0_r, E.
    split; [|done]. split; [repeat split; simpl; lia|by vm_compute].
  - change (u64 (18446744073709551615 * Z.b2z (negb false))) with 0xFFFFFFFFFFFFFFFF.
    repeat match goal with |- context [Z.land ?t 0xFFFFFFFFFFFFFFFF] =>
      change (Z.land t 0xFFFFFFFFFFFFFFFF) with (low64 t) end.
    assert (0 < sval (Scalar a0 a1 a2 a3)) by (unfold sval in *; cbn [d0 d1 d2 d3] in *; lia).
    unfold SECP256K1_N_0, SECP256K1_N_1, SECP256K1_N_2, SECP256K1_N_3.
    carry E0. carry E1. carry E2. carry E3.
    assert (Ev : sval (Scalar lo lo0 lo1 lo2) = order - sval (Scalar a0 a1 a2 a3))
      by (scalar_consts; cbn [d0 d1 d2 d3] in *; lia).
    rewrite Ev. split.
    + split; [unfold limbs, fits; cbn [d0 d1 d2 d3]; lia|]. rewrite Ev. lia.
    + apply Z.mod_unique with (-1); lia.
Qed.

(** ** Byte encodings *)

(** The number 32 big-endian bytes stand for. *)
Definition be_val (b : list Z) : Z := le_val 8 (rev b).

Lemma be_val_app a b :
  words 8 b → be_val (a ++ b) = be_val b + be_val a * 2 ^ (Z.of_nat (length b) * 8).
Proof.
  intros Hb. unfold be_val. rewrite rev_app_distr, le_val_app_add, length_rev; [done|lia|].
  by apply Forall_rev.
Qed.

Lemma be_val_bound b n : words 8 b → length b = n → 0 ≤ be_val b < 2 ^ (Z.of_nat n * 8).
Proof.
  intros Hb <-. unfold be_val. rewrite <-length_rev. apply le_val_bound; [lia|]. by apply Forall_rev.
Qed.

Lemma split32 (b : list Z) :
  length b = 32%nat →
  ∃ b3 b2 b1 b0, b = b3 ++ b2 ++ b1 ++ b0 ∧ length b3 = 8%nat ∧ length b2 = 8%nat ∧
    length b1 = 8%nat ∧ length b0 = 8%nat.
Proof.
  intros Hb. exists (take 8 b), (take 8 (drop 8 b)), (take 8 (drop 16 b)), (drop 24 b).
  split_and!; rewrite ?length_take, ?length_drop; try lia.
  change 24%nat with (16 + 8)%nat. change 16%nat with (8 + 8)%nat. rewrite <-!drop_drop.
  by rewrite !take_drop.
Qed.

Lemma set_b32_limbs b32 :
  length b32 = 32%nat → words 8 b32 →
  let r := Scalar (read_be64 b32 24) (read_be64 b32 16) (read_be64 b32 8) (read_be64 b32 0) in
  limbs r ∧ sval r = be_val b32.
Proof.
  intros Hl Hw. destruct (split32 b32 Hl) as (b3 & b2 & b1 & b0 & -> & L3 & L2 & L1 & L0).
  apply Forall_app in Hw as [W3 Hw]. apply Forall_app in Hw as [W2 Hw]. apply Forall_app in Hw as [W1 W0].
  unfold read_be64.
  replace (take 8 (drop 0 (b3 ++ b2 ++ b1 ++ b0))) with b3
    by (simpl; by rewrite drop_0, take_app_length').
  replace (take 8 (drop 8 (b3 ++ b2 ++ b1 ++ b0))) with b2
    by (by rewrite drop_app_length', take_app_length').
  replace (take 8 (drop 16 (b3 ++ b2 ++ b1 ++ b0))) with b1
    by (change 16%nat with (8 + 8)%nat; rewrite <-drop_drop; by rewrite !drop_app_length', take_app_length').
  replace (take 8 (drop 24 (b3 ++ b2 ++ b1 ++ b0))) with b0
    by (change 24%nat with (8 + (8 + 8))%nat; rewrite <-!drop_drop; rewrite !drop_app_length' by done;
        by rewrite take_ge by lia).
  fold (be_val b0) (be_val b1) (be_val b2) (be_val b3).
  pose proof (be_val_bound b0 8 W0 L0). pose proof (be_val_bound b1 8 W1 L1).
  pose proof (be_val_bound b2 8 W2 L2). pose proof (be_val_bound b3 8 W3 L3).
  split; [done|]. rewrite !be_val_app by (repeat (apply Forall_app; split); done).
  rewrite !length_app, L0, L1, L2. unfold sval. cbn [d0 d1 d2 d3]. simpl Z.of_nat. lia.
Qed.

Lemma scalar_set_b32_spec b32 :
  length b32 = 32%nat → words 8 b32 →
  scalar_ok (fst (scalar_set_b32 b32)) ∧
  sval (fst (scalar_set_b32 b32)) = be_val b32 `mod` order ∧
  snd (scalar_set_b32 b32) = (order <=? be_val b32).
Proof.
  intros Hl Hw. destruct (set_b32_limbs b32 Hl Hw) as [Hr Hv]. unfold scalar_set_b32.
  set (r := Scalar _ _ _ _) in *. cbn [fst snd].
  rewrite (scalar_check_overflow_spec r Hr), Hv.
  assert (Hord : 0 < order < 2 ^ 256 ∧ 2 ^ 256 < 2 * order) by (vm_compute; done).
  pose proof (be_val_bound b32 32 Hw Hl) as Hb. simpl Z.of_nat in Hb.
  destruct (Z.leb_spec order (be_val b32)) as [Hge|Hlt].
  - destruct (scalar_reduce_sub r Hr) as [Hok Hs]; [lia|]. simpl. split_and!; [done| |done].
    rewrite Hs, Hv. apply Z.mod_unique with 1; lia.
  - simpl. rewrite scalar_reduce_0 by done. split_and!; [split; [done|lia]| |done].
    rewrite Hv, Z.mod_small; lia.
Qed.

Lemma write_be64_spec d :
  fits 64 d → be_val (write_be64 d) = d ∧ words 8 (write_be64 d) ∧ length (write_be64 d) = 8%nat.
Proof.
  intros Hd. unfold be_val, write_be64. cbn [fmap list_fmap rev app].
  split_and!; [|repeat constructor; apply wrap_fits; lia|done].
  rewrite !le_val_cons by (lia || (apply wrap_fits; lia)). unfold wrap.
  rewrite !Z.shiftr_div_pow2 by lia.
  assert (∀ i, 0 ≤ i → d / 2 ^ (8 * (i + 1)) = d / 2 ^ (8 * i) / 2 ^ 8) as Hs.
  { intros i Hi. rewrite Z.div_div by (try apply Z.pow_nonzero; try apply Z.pow_pos_nonneg; lia).
    rewrite <-Z.pow_add_r by lia. do 2 f_equal. lia. }
  pose proof (Hs 0 ltac:(lia) : d / 2 ^ (8 * 1) = _) as S0. pose proof (Hs 1 ltac:(lia) : d / 2 ^ (8 * 2) = _) as S1. pose proof (Hs 2 ltac:(lia) : d / 2 ^ (8 * 3) = _) as S2.
  pose proof (Hs 3 ltac:(lia) : d / 2 ^ (8 * 4) = _) as S3. pose proof (Hs 4 ltac:(lia) : d / 2 ^ (8 * 5) = _) as S4. pose proof (Hs 5 ltac:(lia) : d / 2 ^ (8 * 6) = _) as S5.
  pose proof (Hs 6 ltac:(lia) : d / 2 ^ (8 * 7) = _) as S6. pose proof (Hs 7 ltac:(lia) : d / 2 ^ (8 * 8) = _) as S7.
  assert (d / 2 ^ (8 * 8) = 0) as E8 by (apply Z.div_small; exact Hd).
  assert (d / 2 ^ (8 * 0) = d) as E0 by apply Z.div_1_r.
  rewrite E0 in S0 |- *. rewrite E8 in S7. clear Hs E0 E8.
  assert (∀ q, q = q / 2 ^ 8 * 2 ^ 8 + q `mod` 2 ^ 8) as Hdm
    by (intros q; rewrite Z.mul_comm; apply Z.div_mod; lia).
  pose proof (Hdm d) as D0. rewrite <-S0 in D0.
  pose proof (Hdm (d / 2 ^ (8 * 1))) as D1. rewrite <-S1 in D1.
  pose proof (Hdm (d / 2 ^ (8 * 2))) as D2. rewrite <-S2 in D2.
  pose proof (Hdm (d / 2 ^ (8 * 3))) as D3. rewrite <-S3 in D3.
  pose proof (Hdm (d / 2 ^ (8 * 4))) as D4. rewrite <-S4 in D4.
  pose proof (Hdm (d / 2 ^ (8 * 5))) as D5. rewrite <-S5 in D5.
  pose proof (Hdm (d / 2 ^ (8 * 6))) as D6. rewrite <-S6 in D6.
  pose proof (Hdm (d / 2 ^ (8 * 7))) as D7. rewrite <-S7 in D7.
  clear S0 S1 S2 S3 S4 S5 S6 S7 Hdm Hd. change (le_val 8 []) with 0.
  repeat match goal with |- context [?x `mod` 2 ^ 8] => generalize dependent (x `mod` 2 ^ 8); intros end.
  generalize dependent (d / 2 ^ (8 * 1)). intros.
  generalize dependent (d / 2 ^ (8 * 2)). intros.
  generalize dependent (d / 2 ^ (8 * 3)). intros.
  generalize dependent (d / 2 ^ (8 * 4)). intros.
  generalize dependent (d / 2 ^ (8 * 5)). intros.
  generalize dependent (d / 2 ^ (8 * 6)). intros.
  generalize dependent (d / 2 ^ (8 * 7)). intros.
  lia.
Qed.

Lemma scalar_get_b32_spec a :
  limbs a →
  be_val (scalar_get_b32 a) = sval a ∧ words 8 (scalar_get_b32 a) ∧ length (scalar_get_b32 a) = 32%nat.
Proof.
  intros (H0 & H1 & H2 & H3). destruct a as [a0 a1 a2 a3]. unfold scalar_get_b32. cbn [d0 d1 d2 d3] in *.
  destruct (write_be64_spec a0 H0) as (E0 & W0 & L0), (write_be64_spec a1 H1) as (E1 & W1 & L1),
    (write_be64_spec a2 H2) as (E2 & W2 & L2), (write_be64_spec a3 H3) as (E3 & W3 & L3).
  split_and!.
  - rewrite !be_val_app by (repeat (apply Forall_app; split); done).
    rewrite !length_app, L0, L1, L2, E0, E1, E2, E3. unfold sval. cbn [d0 d1 d2 d3]. simpl Z.of_nat. lia.
  - repeat (apply Forall_app; split); done.
  - by rewrite !length_app, L0, L1, L2, L3.
Qed.

Lemma sval_inj a b : limbs a → limbs b → sval a = sval b → a = b.
Proof.
  intros (A0 & A1 & A2 & A3) (B0 & B1 & B2 & B3) E. destruct a as [a0 a1 a2 a3], b as [b0 b1 b2 b3].
  unfold sval, fits in *. cbn [d0 d1 d2 d3] in *.
  assert (a3 = b3) as -> by lia. assert (a2 = b2) as -> by lia. assert (a1 = b1) as -> by lia.
  f_equal. lia.
Qed.

(** ** Properties *)

(** addition and negation of scalars on four limbs compute modulo the group
    order and keep the result reduced; [secp256k1_scalar_add] also returns the
    quotient, and [is_high] and [is_zero] decide the magnitude. *)
Theorem scalar_arithmetic a b :
  scalar_ok a → scalar_ok b →
  (scalar_ok (fst (scalar_add a b)) ∧
   sval (fst (scalar_add a b)) = (sval a + sval b) `mod` order ∧
   snd (scalar_add a b) = (sval a + sval b) / order) ∧
  (scalar_ok (scalar_negate a) ∧ sval (scalar_negate a) = (- sval a) `mod` order) ∧
  scalar_is_high a = (order / 2 <? sval a) ∧ scalar_is_zero a = (sval a =? 0).
Proof.
  intros Ha Hb. pose proof Ha as [La _].
  split_and!; auto using scalar_add_spec, scalar_negate_spec, scalar_is_high_spec, scalar_is_zero_spec;
    try apply scalar_add_spec; try apply scalar_negate_spec; done.
Qed.

(** reading 32 big-endian bytes reduces them modulo the order and reports
    exactly when they were not below it; writing a scalar and reading it back
    returns it unchanged. *)
Theorem scalar_bytes :
  (∀ b32, length b32 = 32%nat → words 8 b32 →
    scalar_ok (fst (scalar_set_b32 b32)) ∧
    sval (fst (scalar_set_b32 b32)) = be_val b32 `mod` order ∧
    snd (scalar_set_b32 b32) = (order <=? be_val b32)) ∧
  (∀ a, scalar_ok a → scalar_set_b32 (scalar_get_b32 a) = (a, false)).
Proof.
  split; [exact scalar_set_b32_spec|]. intros a [Hl Ha].
  destruct (scalar_get_b32_spec a Hl) as (Hv & Hw & Hlen).
  destruct (scalar_set_b32_spec _ Hlen Hw) as ([Hl' _] & Hv' & Ho).
  destruct (scalar_set_b32 (scalar_get_b32 a)) as [r over]. cbn [fst snd] in *.
  assert (0 ≤ sval a) by (destruct Hl as (?&?&?&?); unfold sval, fits in *; lia).
  rewrite Hv in Hv', Ho. rewrite Z.mod_small in Hv' by lia.
  f_equal; [by apply sval_inj|]. rewrite Ho. lia.
Qed.

Definition demo_scalar : secp256k1_scalar := Scalar 0xBFD25E8CD0364140 0xBAAEDCE6AF48A03B 0xFFFFFFFFFFFFFFFE 0xFFFFFFFFFFFFFFFF.

Lemma demo_scalar_ok : scalar_ok demo_scalar.
Proof. split; [repeat split; simpl; lia|by vm_compute]. Qed.

Lemma scalar_arithmetic_witness :
  sval (fst (scalar_add demo_scalar demo_scalar)) = (sval demo_scalar + sval demo_scalar) `mod` order.
Proof.
  apply (scalar_arithmetic demo_scalar demo_scalar); [exact demo_scalar_ok|exact demo_scalar_ok].
Defined.
