(* ===== verification/PubKey.v ===== *)
(** ecdsa/pubkey.h and ecdsa/pubkey.cpp: public keys, the permissive DER parser
    for signatures, the low-S test and the encoding of extended keys.

    The elliptic-curve operations of libsecp256k1 ([ec_pubkey_parse],
    [ecdsa_verify]) are the class [Secp256k1]. *)

From S2P Require Import Prelude Scalar Script Serialize.

(** ** [ecdsa_signature_parse_der_lax]

    [input + pos] is the list of the bytes not yet read. *)

(** The length bytes after an INTEGER tag: [while (lenbyte > 0 && input[pos] == 0)]
    skips zeros, then [while (lenbyte > 0)] accumulates big-endian. *)
Fixpoint der_skip_zeros (lenbyte : nat) (input : list Z) : nat * list Z :=
  match lenbyte, input with
  | S k, x :: rest => if x =? 0 then der_skip_zeros k rest else (lenbyte, input)
  | _, _ => (lenbyte, input)
  end.
Fixpoint der_read_len (lenbyte : nat) (len : Z) (input : list Z) : Z * list Z :=
  match lenbyte, input with
  | S k, x :: rest => der_read_len k (u64 (u64 (len ≪ 8) + x)) rest
  | _, _ => (len, input)
  end.

(** Tag, length and the bytes from the value on; [None] is [return 0]. *)
Definition der_integer (input : list Z) : option (Z * list Z) :=
  match input with
  | tag :: input =>
      if negb (tag =? 0x02) then None
      else match input with
      | [] => None
      | lenbyte :: input =>
          '(len, input) ←
            (if negb (Z.land lenbyte 0x80 =? 0) then
               let lenbyte := lenbyte - 0x80 in
               if size input <? lenbyte then None
               else
                 let '(lenbyte, input) := der_skip_zeros (Z.to_nat lenbyte) input in
                 if (4 <=? lenbyte)%nat then None else Some (der_read_len lenbyte 0 input)
             else Some (lenbyte, input));
          if size input <? len then None else Some (len, input)
      end
  | [] => None
  end.

(** The sequence header. *)
Definition der_sequence (input : list Z) : option (list Z) :=
  match input with
  | tag :: input =>
      if negb (tag =? 0x30) then None
      else match input with
      | [] => None
      | lenbyte :: input =>
          if negb (Z.land lenbyte 0x80 =? 0) then
            let lenbyte := lenbyte - 0x80 in
            if size input <? lenbyte then None else Some (drop (Z.to_nat lenbyte) input)
          else Some input
      end
  | [] => None
  end.

(** [while (rlen > 0 && input[rpos] == 0)] *)
Fixpoint strip_zeros (b : list Z) : list Z :=
  match b with x :: r => if x =? 0 then strip_zeros r else b | [] => [] end.

(** Copy into the low end of a zeroed 32-byte field. *)
Definition pad32 (b : list Z) : list Z := replicate (32 - length b) 0 ++ b.

(** The parsed signature; [None] is [return 0]. *)
Definition ecdsa_signature_parse_der_lax (input : list Z) : option ecdsa_signature :=
  input ← der_sequence input;
  '(rlen, rest) ← der_integer input;
  let R := take (Z.to_nat rlen) rest in
  '(slen, rest) ← der_integer (drop (Z.to_nat rlen) rest);
  let S := take (Z.to_nat slen) rest in
  let R := strip_zeros R in
  let S := strip_zeros S in
  let zero_sig := snd (signature_parse_compact (replicate 64 0)) in
  if (32 <? length R)%nat || (32 <? length S)%nat then Some zero_sig
  else
    let '(ok, sig) := signature_parse_compact (pad32 R ++ pad32 S) in
    Some (if ok then sig else zero_sig).

(** [CPubKey::CheckLowS] *)
Definition CheckLowS (vchSig : list Z) : bool :=
  match ecdsa_signature_parse_der_lax vchSig with
  | None => false
  | Some sig => negb (fst (signature_normalize sig))
  end.

(** ** [CPubKey]: the 65-byte array [vch] *)

Definition PUBLIC_KEY_SIZE : Z := 65.
Definition COMPRESSED_PUBLIC_KEY_SIZE : Z := 33.
Record CPubKey := MkPubKey { pk_vch : list Z }.

Definition GetLen (chHeader : Z) : Z :=
  if (chHeader =? 2) || (chHeader =? 3) then COMPRESSED_PUBLIC_KEY_SIZE
  else if (chHeader =? 4) || (chHeader =? 6) || (chHeader =? 7) then PUBLIC_KEY_SIZE
  else 0.

(** [Invalidate] on a key whose other bytes are [vch]. *)
Definition Invalidate (k : CPubKey) : CPubKey := MkPubKey (<[0%nat := 0xFF]> (pk_vch k)).

(** [Set(pbegin, pend)]: [memcpy] leaves the bytes after the key as they were. *)
Definition pk_Set (k : CPubKey) (b : list Z) : CPubKey :=
  let len := match b with [] => 0 | h :: _ => GetLen h end in
  if negb (len =? 0) && (len =? size b)
  then MkPubKey (b ++ drop (length b) (pk_vch k))
  else Invalidate k.

(** [CPubKey(vch)]: [Set] on a fresh object; the bytes past the key, which no
    operation reads, are taken as zero. *)
Definition CPubKey_of (b : list Z) : CPubKey := pk_Set (MkPubKey (replicate 65 0)) b.

Definition pk_size (k : CPubKey) : Z := GetLen (nth 0 (pk_vch k) 0).
Definition IsValid (k : CPubKey) : bool := 0 <? pk_size k.
Definition IsCompressed (k : CPubKey) : bool := pk_size k =? COMPRESSED_PUBLIC_KEY_SIZE.
Definition Raw (k : CPubKey) : list Z := take (Z.to_nat (pk_size k)) (pk_vch k).

(** [operator==] *)
Definition pk_eqb (a b : CPubKey) : bool :=
  (nth 0 (pk_vch a) 0 =? nth 0 (pk_vch b) 0) &&
  bool_decide (take (Z.to_nat (pk_size a)) (pk_vch a) = take (Z.to_nat (pk_size a)) (pk_vch b)).

(** Serialization, as a byte vector.  [Unserialize] overwrites the first bytes of
    the key; a longer string is skipped byte by byte and the key invalidated. *)
Definition pk_Serialize (k : CPubKey) : list Z :=
  WriteCompactSize (pk_size k) ++ take (Z.to_nat (pk_size k)) (pk_vch k).
Definition pk_Unserialize (k : CPubKey) : decoder CPubKey :=
  len ← ReadCompactSize;
  if len <=? PUBLIC_KEY_SIZE
  then b ← read_bytes (Z.to_nat len); mret (MkPubKey (b ++ drop (length b) (pk_vch k)))
  else _ ← read_bytes (Z.to_nat len); mret (Invalidate k).

(** The curve operations of libsecp256k1. *)
Class Secp256k1 := {
  curve_point : Type;
  ec_pubkey_parse : list Z → option curve_point;
  ec_pubkey_serialize : curve_point → bool → list Z;  (* compressed? *)
  ecdsa_verify : ecdsa_signature → list Z → curve_point → bool;
}.

(** What the library documents of them: an uncompressed key that parses is printed
    back by [ec_pubkey_serialize], and its compressed form (the parity of [y] in the
    header) denotes the same point; every point has an uncompressed form. *)
Class Secp256k1Ok `{Secp256k1} : Prop := {
  parse_uncompressed x y P :
    length x = 32%nat → length y = 32%nat → ec_pubkey_parse (4 :: x ++ y) = Some P →
    ec_pubkey_serialize P false = 4 :: x ++ y ∧
    ec_pubkey_parse ((2 + Z.land (List.last y 0) 1) :: x) = Some P;
  serialize_uncompressed P :
    ∃ x y, length x = 32%nat ∧ length y = 32%nat ∧ bytes x ∧ bytes y ∧
      ec_pubkey_serialize P false = 4 :: x ++ y;
}.

Section keys.
Context `{Secp256k1}.

(** [CPubKey::Verify] *)
Definition Verify (k : CPubKey) (hash vchSig : list Z) : bool :=
  if negb (IsValid k) then false
  else match ec_pubkey_parse (Raw k) with
  | None => false
  | Some pubkey =>
      match ecdsa_signature_parse_der_lax vchSig with
      | None => false
      | Some sig => ecdsa_verify (snd (signature_normalize sig)) hash pubkey
      end
  end.

(** [CPubKey::IsFullyValid] *)
Definition IsFullyValid (k : CPubKey) : bool :=
  if negb (IsValid k) then false else bool_decide (is_Some (ec_pubkey_parse (Raw k))).

(** [CPubKey::Decompress]: the result and the key afterwards. *)
Definition pk_Decompress (k : CPubKey) : bool * CPubKey :=
  if negb (IsValid k) then (false, k)
  else match ec_pubkey_parse (Raw k) with
  | None => (false, k)
  | Some pubkey => (true, pk_Set k (ec_pubkey_serialize pubkey false))
  end.

End keys.

(** ** [CExtPubKey::Encode], [::Decode] *)

Record CExtPubKey := ExtPubKey {
  nDepth : Z;
  vchFingerprint : list Z;
  nChild : Z;
  chaincode : list Z;
  ext_pubkey : CPubKey;
}.

(** The assertion fails on a key that is not compressed: [None]. *)
Definition ext_Encode (e : CExtPubKey) : option (list Z) :=
  if pk_size (ext_pubkey e) =? COMPRESSED_PUBLIC_KEY_SIZE then
    Some (nDepth e :: vchFingerprint e ++
          [Z.land (nChild e ≫ 24) 0xFF; Z.land (nChild e ≫ 16) 0xFF; Z.land (nChild e ≫ 8) 0xFF; Z.land (nChild e ≫ 0) 0xFF] ++
          chaincode e ++ take 33 (pk_vch (ext_pubkey e)))
  else None.
Definition ext_Decode (e : CExtPubKey) (code : list Z) : CExtPubKey :=
  ExtPubKey (nth 0 code 0) (take 4 (drop 1 code))
    (Z.lor (Z.lor (Z.lor (nth 5 code 0 ≪ 24) (nth 6 code 0 ≪ 16)) (nth 7 code 0 ≪ 8)) (nth 8 code 0))
    (take 32 (drop 9 code)) (pk_Set (ext_pubkey e) (drop 41 code)).
