(* ===== verification/Interpreter.v ===== *)
(** script/interpreter.h and script/interpreter.cpp: the stack machine.

    The stack is a list whose head is the top, so [stacktop(-1)] is the head and
    [stacktop(-i)] the element of index [i - 1].  One definition models each
    opcode (or the [case] a group of opcodes shares); [EvalScript] is the loop.

    [Err e] is [return set_error(serror, e)]; an exception caught by the
    [catch (...)] of [EvalScript] is [Err SCRIPT_ERR_UNKNOWN_ERROR]; [Abort] is a
    failed assertion or a read [v[i]] past the end of a vector (or an exhausted bound on
    the loop, which never happens). *)

From S2P Require Import Prelude Script PubKey.

Inductive ScriptError :=
  | SCRIPT_ERR_OK
  | SCRIPT_ERR_UNKNOWN_ERROR
  | SCRIPT_ERR_EVAL_FALSE
  | SCRIPT_ERR_OP_RETURN
  | SCRIPT_ERR_SCRIPT_SIZE
  | SCRIPT_ERR_PUSH_SIZE
  | SCRIPT_ERR_OP_COUNT
  | SCRIPT_ERR_STACK_SIZE
  | SCRIPT_ERR_SIG_COUNT
  | SCRIPT_ERR_PUBKEY_COUNT
  | SCRIPT_ERR_VERIFY
  | SCRIPT_ERR_EQUALVERIFY
  | SCRIPT_ERR_CHECKMULTISIGVERIFY
  | SCRIPT_ERR_CHECKSIGVERIFY
  | SCRIPT_ERR_NUMEQUALVERIFY
  | SCRIPT_ERR_BAD_OPCODE
  | SCRIPT_ERR_DISABLED_OPCODE
  | SCRIPT_ERR_INVALID_STACK_OPERATION
  | SCRIPT_ERR_INVALID_ALTSTACK_OPERATION
  | SCRIPT_ERR_UNBALANCED_CONDITIONAL
  | SCRIPT_ERR_SIG_HASHTYPE
  | SCRIPT_ERR_SIG_DER
  | SCRIPT_ERR_MINIMALDATA
  | SCRIPT_ERR_SIG_PUSHONLY
  | SCRIPT_ERR_SIG_HIGH_S
  | SCRIPT_ERR_SIG_NULLDUMMY
  | SCRIPT_ERR_PUBKEYTYPE
  | SCRIPT_ERR_DISCOURAGE_UPGRADABLE_NOPS.

#[export] Instance ScriptError_eq_dec : EqDecision ScriptError.
Proof. solve_decision. Defined.

Inductive result (A : Type) :=
  | Ok (a : A)
  | Err (e : ScriptError)
  | Abort.
Arguments Ok {_} _.
Arguments Err {_} _.
Arguments Abort {_}.

#[export] Instance result_bind : MBind result := λ A B f r,
  match r with Ok a => f a | Err e => Err e | Abort => Abort end.
#[export] Instance result_ret : MRet result := λ A a, Ok a.

(** An exception of the callee reaches [catch (...)]. *)
Definition or_throw {A} (o : option A) : result A :=
  match o with Some a => Ok a | None => Err SCRIPT_ERR_UNKNOWN_ERROR end.
(** A failed assertion of the callee. *)
Definition or_abort {A} (o : option A) : result A :=
  match o with Some a => Ok a | None => Abort end.

(** Verification flags: bit numbers of the [SCRIPT_VERIFY_*] masks. *)
Definition SCRIPT_VERIFY_P2SH : Z := 1 ≪ 0.
Definition SCRIPT_VERIFY_STRICTENC : Z := 1 ≪ 1.
Definition SCRIPT_VERIFY_DERSIG : Z := 1 ≪ 2.
Definition SCRIPT_VERIFY_LOW_S : Z := 1 ≪ 3.
Definition SCRIPT_VERIFY_NULLDUMMY : Z := 1 ≪ 4.
Definition SCRIPT_VERIFY_SIGPUSHONLY : Z := 1 ≪ 5.
Definition SCRIPT_VERIFY_MINIMALDATA : Z := 1 ≪ 6.
Definition SCRIPT_VERIFY_DISCOURAGE_UPGRADABLE_NOPS : Z := 1 ≪ 7.

(** [flags & mask] as a condition. *)
Definition has_flag (flags mask : Z) : bool := negb (Z.land flags mask =? 0).

Definition SIGHASH_ALL : Z := 1.
Definition SIGHASH_NONE : Z := 2.
Definition SIGHASH_SINGLE : Z := 3.
Definition SIGHASH_ANYONECANPAY : Z := 0x80.

(** The hash functions of crypto/ as the interpreter calls them. *)
Class HashFunctions := {
  RIPEMD160 : list Z → list Z;
  SHA1 : list Z → list Z;
  SHA256 : list Z → list Z;
}.
(** [CHash160] and [CHash256] of hash.h *)
Definition Hash160 `{HashFunctions} (b : list Z) : list Z := RIPEMD160 (SHA256 b).
Definition Hash256 `{HashFunctions} (b : list Z) : list Z := SHA256 (SHA256 b).

(** What the interpreter needs of a signature checker. *)
Class BaseSignatureChecker := {
  CheckSig : valtype → valtype → CScript → bool;
}.

(** [CastToBool]: negative zero is false. *)
Fixpoint CastToBool (vch : valtype) : bool :=
  match vch with
  | [] => false
  | x :: rest =>
      if negb (x =? 0) then
        match rest with [] => negb (x =? 0x80) | _ => true end
      else CastToBool rest
  end.

(** ** Encoding checks *)

(** [v[i]]: a read past the end is undefined. *)
Definition index {A} (v : list A) (i : Z) : result A := or_abort (v !! Z.to_nat i).

Definition IsCompressedOrUncompressedPubKey (vchPubKey : valtype) : result bool :=
  if size vchPubKey <? 33 then Ok false
  else
    b ← index vchPubKey 0;
    if b =? 0x04 then Ok (size vchPubKey =? 65)
    else if (b =? 0x02) || (b =? 0x03) then Ok (size vchPubKey =? 33)
    else Ok false.

Definition IsValidSignatureEncoding (sig : valtype) : result bool :=
  if size sig <? 9 then Ok false
  else if 73 <? size sig then Ok false
  else
    sig0 ← index sig 0;
    if negb (sig0 =? 0x30) then Ok false
    else
      sig1 ← index sig 1;
      if negb (sig1 =? size sig - 3) then Ok false
      else
        lenR ← index sig 3;
        if size sig <=? 5 + lenR then Ok false
        else
          lenS ← index sig (5 + lenR);
          if negb (lenR + lenS + 7 =? size sig) then Ok false
          else
            sig2 ← index sig 2;
            if negb (sig2 =? 0x02) then Ok false
            else if lenR =? 0 then Ok false
            else
              sig4 ← index sig 4;
              if negb (Z.land sig4 0x80 =? 0) then Ok false
              else
                padR ← (if (1 <? lenR) && (sig4 =? 0x00) then x ← index sig 5; Ok (Z.land x 0x80 =? 0) else Ok false);
                if (padR : bool) then Ok false
                else
                  typeS ← index sig (lenR + 4);
                  if negb (typeS =? 0x02) then Ok false
                  else if lenS =? 0 then Ok false
                  else
                    sigS ← index sig (lenR + 6);
                    if negb (Z.land sigS 0x80 =? 0) then Ok false
                    else
                      padS ← (if (1 <? lenS) && (sigS =? 0x00) then x ← index sig (lenR + 7); Ok (Z.land x 0x80 =? 0) else Ok false);
                      Ok (negb padS).

(** The checks that set [serror] return the error.  The copy without the last byte needs
    a byte to leave out. *)
Definition IsLowDERSignature (vchSig : valtype) : result unit :=
  valid ← IsValidSignatureEncoding vchSig;
  if negb valid then Err SCRIPT_ERR_SIG_DER
  else
    _ ← index vchSig (size vchSig - 1);
    if negb (CheckLowS (take (length vchSig - 1) vchSig)) then Err SCRIPT_ERR_SIG_HIGH_S
    else Ok tt.

Definition IsDefinedHashtypeSignature (vchSig : valtype) : result bool :=
  if size vchSig =? 0 then Ok false
  else
    b ← index vchSig (size vchSig - 1);
    let nHashType := u8 (Z.land b (Z.lnot SIGHASH_ANYONECANPAY)) in
    Ok (negb ((nHashType <? SIGHASH_ALL) || (SIGHASH_SINGLE <? nHashType))).

Definition CheckSignatureEncoding (vchSig : valtype) (flags : Z) : result unit :=
  if size vchSig =? 0 then Ok tt
  else
    valid ← (if has_flag flags (Z.lor (Z.lor SCRIPT_VERIFY_DERSIG SCRIPT_VERIFY_LOW_S) SCRIPT_VERIFY_STRICTENC)
             then IsValidSignatureEncoding vchSig else Ok true);
    if negb valid then Err SCRIPT_ERR_SIG_DER
    else
      _ ← (if has_flag flags SCRIPT_VERIFY_LOW_S then IsLowDERSignature vchSig else Ok tt);
      defined ← (if has_flag flags SCRIPT_VERIFY_STRICTENC then IsDefinedHashtypeSignature vchSig else Ok true);
      if negb defined then Err SCRIPT_ERR_SIG_HASHTYPE else Ok tt.

Definition CheckPubKeyEncoding (vchPubKey : valtype) (flags : Z) : result unit :=
  ok ← (if has_flag flags SCRIPT_VERIFY_STRICTENC then IsCompressedOrUncompressedPubKey vchPubKey else Ok true);
  if negb ok then Err SCRIPT_ERR_PUBKEYTYPE else Ok tt.

Definition CheckMinimalPush (data : valtype) (opcode : Z) : result bool :=
  if size data =? 0 then Ok (opcode =? OP_0)
  else
    small ← (if size data =? 1 then b ← index data 0; Ok ((1 <=? b) && (b <=? 16)) else Ok false);
    if (small : bool) then b ← index data 0; Ok (opcode =? OP_1 + (b - 1))
    else
      minus ← (if size data =? 1 then b ← index data 0; Ok (b =? 0x81) else Ok false);
      Ok (if (minus : bool) then opcode =? OP_1NEGATE
          else if size data <=? 75 then opcode =? size data
          else if size data <=? 255 then opcode =? OP_PUSHDATA1
          else if size data <=? 65535 then opcode =? OP_PUSHDATA2
          else true).

(** ** The opcodes *)

Abbreviation stack_t := (list valtype) (only parsing).
Abbreviation bad_stack := (Err SCRIPT_ERR_INVALID_STACK_OPERATION).

Definition vchFalse : valtype := [].
Definition vchTrue : valtype := [1].
Definition bool_vch (b : bool) : valtype := if b then vchTrue else vchFalse.

(** [CScriptNum(stacktop(-i), fRequireMinimal)] *)
Definition script_num (vch : valtype) (fRequireMinimal : bool) : result Z :=
  n ← or_abort (CScriptNum.of_vch vch fRequireMinimal); or_throw n.

(** [OP_1NEGATE], [OP_1] .. [OP_16] *)
Definition op_push_number (opcode : Z) (st : stack_t) : result stack_t :=
  Ok (CScriptNum.serialize (opcode - (OP_1 - 1)) :: st).

(** [OP_VERIFY] *)
Definition op_verify (st : stack_t) : result stack_t :=
  match st with
  | x :: st => if CastToBool x then Ok st else Err SCRIPT_ERR_VERIFY
  | _ => bad_stack
  end.

(** Stack operations *)
Definition op_2drop (st : stack_t) : result stack_t :=
  match st with _ :: _ :: st => Ok st | _ => bad_stack end.
Definition op_2dup (st : stack_t) : result stack_t :=
  match st with x2 :: x1 :: _ => Ok (x2 :: x1 :: st) | _ => bad_stack end.
Definition op_3dup (st : stack_t) : result stack_t :=
  match st with x3 :: x2 :: x1 :: _ => Ok (x3 :: x2 :: x1 :: st) | _ => bad_stack end.
Definition op_2over (st : stack_t) : result stack_t :=
  match st with _ :: _ :: x2 :: x1 :: _ => Ok (x2 :: x1 :: st) | _ => bad_stack end.
Definition op_2rot (st : stack_t) : result stack_t :=
  match st with
  | x6 :: x5 :: x4 :: x3 :: x2 :: x1 :: st => Ok (x2 :: x1 :: x6 :: x5 :: x4 :: x3 :: st)
  | _ => bad_stack
  end.
Definition op_2swap (st : stack_t) : result stack_t :=
  match st with x4 :: x3 :: x2 :: x1 :: st => Ok (x2 :: x1 :: x4 :: x3 :: st) | _ => bad_stack end.
Definition op_ifdup (st : stack_t) : result stack_t :=
  match st with x :: _ => Ok (if CastToBool x then x :: st else st) | _ => bad_stack end.
Definition op_depth (st : stack_t) : result stack_t := Ok (CScriptNum.serialize (size st) :: st).
Definition op_drop (st : stack_t) : result stack_t :=
  match st with _ :: st => Ok st | _ => bad_stack end.
Definition op_dup (st : stack_t) : result stack_t :=
  match st with x :: _ => Ok (x :: st) | _ => bad_stack end.
Definition op_nip (st : stack_t) : result stack_t :=
  match st with x2 :: _ :: st => Ok (x2 :: st) | _ => bad_stack end.
Definition op_over (st : stack_t) : result stack_t :=
  match st with _ :: x1 :: _ => Ok (x1 :: st) | _ => bad_stack end.
Definition op_rot (st : stack_t) : result stack_t :=
  match st with x3 :: x2 :: x1 :: st => Ok (x1 :: x3 :: x2 :: st) | _ => bad_stack end.
Definition op_swap (st : stack_t) : result stack_t :=
  match st with x2 :: x1 :: st => Ok (x1 :: x2 :: st) | _ => bad_stack end.
Definition op_tuck (st : stack_t) : result stack_t :=
  match st with x2 :: x1 :: st => Ok (x2 :: x1 :: x2 :: st) | _ => bad_stack end.
Definition op_size (st : stack_t) : result stack_t :=
  match st with x :: _ => Ok (CScriptNum.serialize (size x) :: st) | _ => bad_stack end.

(** [OP_PICK], [OP_ROLL] *)
Definition op_pick_roll (opcode : Z) (fRequireMinimal : bool) (st : stack_t) : result stack_t :=
  if (length st <? 2)%nat then bad_stack
  else match st with
  | x :: st =>
      bn ← script_num x fRequireMinimal;
      let n := CScriptNum.getint bn in
      if (n <? 0) || (size st <=? n) then bad_stack
      else
        let n := Z.to_nat n in
        vch ← or_throw (st !! n);
        Ok (vch :: if opcode =? OP_ROLL then take n st ++ drop (S n) st else st)
  | [] => bad_stack
  end.

(** [OP_EQUAL], [OP_EQUALVERIFY] *)
Definition op_equal (opcode : Z) (st : stack_t) : result stack_t :=
  match st with
  | x2 :: x1 :: st =>
      let fEqual := bool_decide (x1 = x2) in
      if opcode =? OP_EQUALVERIFY then
        if fEqual then Ok st else Err SCRIPT_ERR_EQUALVERIFY
      else Ok (bool_vch fEqual :: st)
  | _ => bad_stack
  end.

(** Unary arithmetic; an assertion of [CScriptNum] that fails aborts. *)
Definition numeric1 (opcode bn : Z) : result Z :=
  if opcode =? OP_1ADD then or_abort (CScriptNum.add_assign bn 1)
  else if opcode =? OP_1SUB then or_abort (CScriptNum.sub_assign bn 1)
  else if opcode =? OP_NEGATE then or_abort (CScriptNum.neg bn)
  else if opcode =? OP_ABS then (if bn <? 0 then or_abort (CScriptNum.neg bn) else Ok bn)
  else if opcode =? OP_NOT then Ok (Z.b2z (bn =? 0))
  else if opcode =? OP_0NOTEQUAL then Ok (Z.b2z (negb (bn =? 0)))
  else Abort.
Definition op_numeric1 (opcode : Z) (fRequireMinimal : bool) (st : stack_t) : result stack_t :=
  match st with
  | x :: st =>
      bn ← script_num x fRequireMinimal;
      bn ← numeric1 opcode bn;
      Ok (CScriptNum.serialize bn :: st)
  | _ => bad_stack
  end.

(** Binary arithmetic *)
Definition numeric2 (opcode bn1 bn2 : Z) : result Z :=
  if opcode =? OP_ADD then Ok (CScriptNum.add bn1 bn2)
  else if opcode =? OP_SUB then Ok (CScriptNum.sub bn1 bn2)
  else if opcode =? OP_BOOLAND then Ok (Z.b2z (negb (bn1 =? 0) && negb (bn2 =? 0)))
  else if opcode =? OP_BOOLOR then Ok (Z.b2z (negb (bn1 =? 0) || negb (bn2 =? 0)))
  else if opcode =? OP_NUMEQUAL then Ok (Z.b2z (bn1 =? bn2))
  else if opcode =? OP_NUMEQUALVERIFY then Ok (Z.b2z (bn1 =? bn2))
  else if opcode =? OP_NUMNOTEQUAL then Ok (Z.b2z (negb (bn1 =? bn2)))
  else if opcode =? OP_LESSTHAN then Ok (Z.b2z (bn1 <? bn2))
  else if opcode =? OP_GREATERTHAN then Ok (Z.b2z (bn2 <? bn1))
  else if opcode =? OP_LESSTHANOREQUAL then Ok (Z.b2z (bn1 <=? bn2))
  else if opcode =? OP_GREATERTHANOREQUAL then Ok (Z.b2z (bn2 <=? bn1))
  else if opcode =? OP_MIN then Ok (if bn1 <? bn2 then bn1 else bn2)
  else if opcode =? OP_MAX then Ok (if bn2 <? bn1 then bn1 else bn2)
  else Abort.
Definition op_numeric2 (opcode : Z) (fRequireMinimal : bool) (st : stack_t) : result stack_t :=
  match st with
  | x2 :: x1 :: st =>
      bn1 ← script_num x1 fRequireMinimal;
      bn2 ← script_num x2 fRequireMinimal;
      bn ← numeric2 opcode bn1 bn2;
      let vch := CScriptNum.serialize bn in
      if opcode =? OP_NUMEQUALVERIFY then
        if CastToBool vch then Ok st else Err SCRIPT_ERR_NUMEQUALVERIFY
      else Ok (vch :: st)
  | _ => bad_stack
  end.

(** [OP_WITHIN] *)
Definition op_within (fRequireMinimal : bool) (st : stack_t) : result stack_t :=
  match st with
  | x3 :: x2 :: x1 :: st =>
      bn1 ← script_num x1 fRequireMinimal;
      bn2 ← script_num x2 fRequireMinimal;
      bn3 ← script_num x3 fRequireMinimal;
      Ok (bool_vch ((bn2 <=? bn1) && (bn1 <? bn3)) :: st)
  | _ => bad_stack
  end.

(** [OP_RIPEMD160] .. [OP_HASH256] *)
Definition op_hash `{HashFunctions} (opcode : Z) (st : stack_t) : result stack_t :=
  match st with
  | vch :: st =>
      let vchHash :=
        if opcode =? OP_RIPEMD160 then RIPEMD160 vch
        else if opcode =? OP_SHA1 then SHA1 vch
        else if opcode =? OP_SHA256 then SHA256 vch
        else if opcode =? OP_HASH160 then Hash160 vch
        else Hash256 vch in
      Ok (vchHash :: st)
  | _ => bad_stack
  end.

(** [CheckSignatureEncoding(...) || CheckPubKeyEncoding(...)] as one result. *)
Definition check_encodings (vchSig vchPubKey : valtype) (flags : Z) : result unit :=
  _ ← CheckSignatureEncoding vchSig flags; CheckPubKeyEncoding vchPubKey flags.

(** [OP_CHECKSIG], [OP_CHECKSIGVERIFY]; [code] is [CScript(pbegincodehash, pend)]. *)
Definition op_checksig `{BaseSignatureChecker} (opcode flags : Z) (code : CScript) (st : stack_t) :
    result stack_t :=
  match st with
  | vchPubKey :: vchSig :: st =>
      let scriptCode := snd (FindAndDelete code (push_data vchSig)) in
      _ ← check_encodings vchSig vchPubKey flags;
      let fSuccess := CheckSig vchSig vchPubKey scriptCode in
      if opcode =? OP_CHECKSIGVERIFY then
        if fSuccess then Ok st else Err SCRIPT_ERR_CHECKSIGVERIFY
      else Ok (bool_vch fSuccess :: st)
  | _ => bad_stack
  end.

(** The [while (fSuccess && nSigsCount > 0)] loop of [OP_CHECKMULTISIG]:
    [sigs] and [keys] are the entries from [isig] and [ikey] on. Every round
    uses up a key, and the loop stops when fewer keys than signatures are left. *)
Fixpoint multisig_loop `{BaseSignatureChecker} (flags : Z) (scriptCode : CScript)
    (sigs keys : list valtype) : result bool :=
  match sigs, keys with
  | [], _ => Ok true
  | _ :: _, [] => Ok false
  | vchSig :: sigs', vchPubKey :: keys' =>
      _ ← check_encodings vchSig vchPubKey flags;
      let fOk := CheckSig vchSig vchPubKey scriptCode in
      let sigs := if fOk then sigs' else sigs in
      if (length keys' <? length sigs)%nat then Ok false
      else multisig_loop flags scriptCode sigs keys'
  end.

(** The end of [OP_CHECKMULTISIG]: [st] is the stack without the arguments;
    the dummy element below them is removed. *)
Definition multisig_finish (opcode flags nOpCount : Z) (fSuccess : bool) (st : stack_t) :
    result (stack_t * Z) :=
  match st with
  | [] => bad_stack
  | dummy :: st =>
      if has_flag flags SCRIPT_VERIFY_NULLDUMMY && negb (size dummy =? 0)
      then Err SCRIPT_ERR_SIG_NULLDUMMY
      else if opcode =? OP_CHECKMULTISIGVERIFY then
        if fSuccess then Ok (st, nOpCount) else Err SCRIPT_ERR_CHECKMULTISIGVERIFY
      else Ok (bool_vch fSuccess :: st, nOpCount)
  end.

(** Result of [OP_CHECKMULTISIG]: the stack and the new [nOpCount]. *)
Definition op_checkmultisig `{BaseSignatureChecker} (opcode flags nOpCount : Z) (code : CScript)
    (st : stack_t) : result (stack_t * Z) :=
  let fRequireMinimal := has_flag flags SCRIPT_VERIFY_MINIMALDATA in
  if size st <? 1 then bad_stack
  else
    vch ← or_throw (st !! 0%nat);
    bn ← script_num vch fRequireMinimal;
    let nKeysCount := CScriptNum.getint bn in
    if (nKeysCount <? 0) || (20 <? nKeysCount) then Err SCRIPT_ERR_PUBKEY_COUNT
    else
      let nOpCount := nOpCount + nKeysCount in
      if 201 <? nOpCount then Err SCRIPT_ERR_OP_COUNT
      else
        let ikey := 2 in
        let i := 2 + nKeysCount in
        if size st <? i then bad_stack
        else
          vch ← or_throw (st !! Z.to_nat (i - 1));
          bn ← script_num vch fRequireMinimal;
          let nSigsCount := CScriptNum.getint bn in
          if (nSigsCount <? 0) || (nKeysCount <? nSigsCount) then Err SCRIPT_ERR_SIG_COUNT
          else
            let isig := i + 1 in
            let i := i + 1 + nSigsCount in
            if size st <? i then bad_stack
            else
              let keys := take (Z.to_nat nKeysCount) (drop (Z.to_nat (ikey - 1)) st) in
              let sigs := take (Z.to_nat nSigsCount) (drop (Z.to_nat (isig - 1)) st) in
              let scriptCode := foldl (λ c vchSig, snd (FindAndDelete c (push_data vchSig))) code sigs in
              fSuccess ← multisig_loop flags scriptCode sigs keys;
              multisig_finish opcode flags nOpCount fSuccess (drop (Z.to_nat (i - 1)) st).

(** ** The machine *)

Record machine := Machine {
  stack : list valtype;
  altstack : list valtype;
  vfExec : list bool;
  pbegincodehash : CScript;
  nOpCount : Z;
}.

Definition set_stack (m : machine) (st : list valtype) : machine :=
  Machine st (altstack m) (vfExec m) (pbegincodehash m) (nOpCount m).
Definition set_vfExec (m : machine) (v : list bool) : machine :=
  Machine (stack m) (altstack m) v (pbegincodehash m) (nOpCount m).

(** [!count(vfExec.begin(), vfExec.end(), false)] *)
Definition fExec (m : machine) : bool := forallb id (vfExec m).

Definition is_disabled (opcode : Z) : bool :=
  existsb (Z.eqb opcode)
    [OP_CAT; OP_SUBSTR; OP_LEFT; OP_RIGHT; OP_INVERT; OP_AND; OP_OR; OP_XOR; OP_2MUL; OP_2DIV;
     OP_MUL; OP_DIV; OP_MOD; OP_LSHIFT; OP_RSHIFT].

(** [OP_IF], [OP_NOTIF], [OP_ELSE], [OP_ENDIF] *)
Definition op_if (opcode : Z) (m : machine) : result machine :=
  if fExec m then
    match stack m with
    | [] => Err SCRIPT_ERR_UNBALANCED_CONDITIONAL
    | vch :: st =>
        let fValue := CastToBool vch in
        let fValue := if opcode =? OP_NOTIF then negb fValue else fValue in
        Ok (set_vfExec (set_stack m st) (fValue :: vfExec m))
    end
  else Ok (set_vfExec m (false :: vfExec m)).
Definition op_else (m : machine) : result machine :=
  match vfExec m with
  | [] => Err SCRIPT_ERR_UNBALANCED_CONDITIONAL
  | b :: v => Ok (set_vfExec m (negb b :: v))
  end.
Definition op_endif (m : machine) : result machine :=
  match vfExec m with
  | [] => Err SCRIPT_ERR_UNBALANCED_CONDITIONAL
  | _ :: v => Ok (set_vfExec m v)
  end.

(** [OP_TOALTSTACK], [OP_FROMALTSTACK] *)
Definition op_toaltstack (m : machine) : result machine :=
  match stack m with
  | x :: st => Ok (Machine st (x :: altstack m) (vfExec m) (pbegincodehash m) (nOpCount m))
  | _ => bad_stack
  end.
Definition op_fromaltstack (m : machine) : result machine :=
  match altstack m with
  | x :: alt => Ok (Machine (x :: stack m) alt (vfExec m) (pbegincodehash m) (nOpCount m))
  | _ => Err SCRIPT_ERR_INVALID_ALTSTACK_OPERATION
  end.

(** An operation that only changes the stack. *)
Definition on_stack (m : machine) (f : list valtype → result (list valtype)) : result machine :=
  st ← f (stack m); Ok (set_stack m st).

Section eval.
Context `{HashFunctions} `{BaseSignatureChecker}.
Context (flags : Z).

Definition fRequireMinimal : bool := has_flag flags SCRIPT_VERIFY_MINIMALDATA.

(** The stack operations of the [switch]. *)
Definition stack_op (opcode : Z) : option (list valtype → result (list valtype)) :=
  if opcode =? OP_2DROP then Some op_2drop
  else if opcode =? OP_2DUP then Some op_2dup
  else if opcode =? OP_3DUP then Some op_3dup
  else if opcode =? OP_2OVER then Some op_2over
  else if opcode =? OP_2ROT then Some op_2rot
  else if opcode =? OP_2SWAP then Some op_2swap
  else if opcode =? OP_IFDUP then Some op_ifdup
  else if opcode =? OP_DEPTH then Some op_depth
  else if opcode =? OP_DROP then Some op_drop
  else if opcode =? OP_DUP then Some op_dup
  else if opcode =? OP_NIP then Some op_nip
  else if opcode =? OP_OVER then Some op_over
  else if (opcode =? OP_PICK) || (opcode =? OP_ROLL) then Some (op_pick_roll opcode fRequireMinimal)
  else if opcode =? OP_ROT then Some op_rot
  else if opcode =? OP_SWAP then Some op_swap
  else if opcode =? OP_TUCK then Some op_tuck
  else if opcode =? OP_SIZE then Some op_size
  else if (opcode =? OP_EQUAL) || (opcode =? OP_EQUALVERIFY) then Some (op_equal opcode)
  else None.

(** The numeric operations. *)
Definition numeric_op (opcode : Z) : option (list valtype → result (list valtype)) :=
  if existsb (Z.eqb opcode) [OP_1ADD; OP_1SUB; OP_NEGATE; OP_ABS; OP_NOT; OP_0NOTEQUAL]
  then Some (op_numeric1 opcode fRequireMinimal)
  else if existsb (Z.eqb opcode)
    [OP_ADD; OP_SUB; OP_BOOLAND; OP_BOOLOR; OP_NUMEQUAL; OP_NUMEQUALVERIFY; OP_NUMNOTEQUAL;
     OP_LESSTHAN; OP_GREATERTHAN; OP_LESSTHANOREQUAL; OP_GREATERTHANOREQUAL; OP_MIN; OP_MAX]
  then Some (op_numeric2 opcode fRequireMinimal)
  else if opcode =? OP_WITHIN then Some (op_within fRequireMinimal)
  else None.

(** [switch (opcode)]; [pc] is the iterator after the instruction. *)
Definition eval_op (opcode : Z) (pc : CScript) (m : machine) : result machine :=
  if (opcode =? OP_1NEGATE) || (OP_1 <=? opcode) && (opcode <=? OP_16)
  then on_stack m (op_push_number opcode)
  else if opcode =? OP_NOP then Ok m
  else if (OP_NOP1 <=? opcode) && (opcode <=? OP_NOP10) then
    if has_flag flags SCRIPT_VERIFY_DISCOURAGE_UPGRADABLE_NOPS
    then Err SCRIPT_ERR_DISCOURAGE_UPGRADABLE_NOPS else Ok m
  else if (opcode =? OP_IF) || (opcode =? OP_NOTIF) then op_if opcode m
  else if opcode =? OP_ELSE then op_else m
  else if opcode =? OP_ENDIF then op_endif m
  else if opcode =? OP_VERIFY then on_stack m op_verify
  else if opcode =? OP_RETURN then Err SCRIPT_ERR_OP_RETURN
  else if opcode =? OP_TOALTSTACK then op_toaltstack m
  else if opcode =? OP_FROMALTSTACK then op_fromaltstack m
  else match stack_op opcode with
  | Some f => on_stack m f
  | None =>
  match numeric_op opcode with
  | Some f => on_stack m f
  | None =>
  if (OP_RIPEMD160 <=? opcode) && (opcode <=? OP_HASH256) then on_stack m (op_hash opcode)
  else if opcode =? OP_CODESEPARATOR then
    Ok (Machine (stack m) (altstack m) (vfExec m) pc (nOpCount m))
  else if (opcode =? OP_CHECKSIG) || (opcode =? OP_CHECKSIGVERIFY)
  then on_stack m (op_checksig opcode flags (pbegincodehash m))
  else if (opcode =? OP_CHECKMULTISIG) || (opcode =? OP_CHECKMULTISIGVERIFY) then
    r ← op_checkmultisig opcode flags (nOpCount m) (pbegincodehash m) (stack m);
    Ok (Machine (fst r) (altstack m) (vfExec m) (pbegincodehash m) (snd r))
  else Err SCRIPT_ERR_BAD_OPCODE
  end end.

(** One iteration of the loop, given the instruction read at [pc]. *)
Definition eval_instr (r : op_result) (m : machine) : result machine :=
  if negb (op_ok r) then Err SCRIPT_ERR_BAD_OPCODE
  else if MAX_SCRIPT_ELEMENT_SIZE <? size (op_vch r) then Err SCRIPT_ERR_PUSH_SIZE
  else
    let opcode := op_code r in
    let m' :=
      if OP_16 <? opcode
      then Machine (stack m) (altstack m) (vfExec m) (pbegincodehash m) (nOpCount m + 1) else m in
    if (OP_16 <? opcode) && (201 <? nOpCount m') then Err SCRIPT_ERR_OP_COUNT
    else if is_disabled opcode then Err SCRIPT_ERR_DISABLED_OPCODE
    else
      m'' ←
        (if fExec m' && (0 <=? opcode) && (opcode <=? OP_PUSHDATA4) then
           minimal ← (if fRequireMinimal then CheckMinimalPush (op_vch r) opcode else Ok true);
           if negb minimal then Err SCRIPT_ERR_MINIMALDATA
           else Ok (set_stack m' (op_vch r :: stack m'))
         else if fExec m' || (OP_IF <=? opcode) && (opcode <=? OP_ENDIF)
         then eval_op opcode (op_rest r) m'
         else Ok m');
      if 1000 <? size (stack m'') + size (altstack m'') then Err SCRIPT_ERR_STACK_SIZE else Ok m''.

(** [while (pc < pend)] and the final test of [vfExec]. *)
Fixpoint eval_loop (fuel : nat) (pc : CScript) (m : machine) : result machine :=
  match pc with
  | [] => match vfExec m with [] => Ok m | _ => Err SCRIPT_ERR_UNBALANCED_CONDITIONAL end
  | _ =>
      match fuel with
      | O => Abort
      | S fuel => m' ← eval_instr (GetOp2 pc) m; eval_loop fuel (op_rest (GetOp2 pc)) m'
      end
  end.

(** [EvalScript]: the resulting stack, or the error. *)
Definition EvalScript (st : list valtype) (script : CScript) : result (list valtype) :=
  if 10000 <? size script then Err SCRIPT_ERR_SCRIPT_SIZE
  else m ← eval_loop (length script) script (Machine st [] [] script 0); Ok (stack m).

(** [VerifyScript] *)
Definition VerifyScript (scriptSig scriptPubKey : CScript) : result unit :=
  if has_flag flags SCRIPT_VERIFY_SIGPUSHONLY && negb (IsPushOnly scriptSig)
  then Err SCRIPT_ERR_SIG_PUSHONLY
  else
    stackCopy ← EvalScript [] scriptSig;
    st ← EvalScript stackCopy scriptPubKey;
    match st with
    | [] => Err SCRIPT_ERR_EVAL_FALSE
    | top :: _ =>
        if negb (CastToBool top) then Err SCRIPT_ERR_EVAL_FALSE
        else if has_flag flags SCRIPT_VERIFY_P2SH && IsPayToScriptHash scriptPubKey then
          if negb (IsPushOnly scriptSig) then Err SCRIPT_ERR_SIG_PUSHONLY
          else match stackCopy with
          | [] => Abort
          | pubKeySerialized :: stackCopy =>
              st ← EvalScript stackCopy pubKeySerialized;
              match st with
              | [] => Err SCRIPT_ERR_EVAL_FALSE
              | top :: _ => if negb (CastToBool top) then Err SCRIPT_ERR_EVAL_FALSE else Ok tt
              end
          end
        else Ok tt
    end.
End eval.
