(* ===== verification/InterpreterFacts.v ===== *)
(** Safety of the interpreter: the limits on the stack, its elements and the
    operation count hold throughout, and no assertion can fail. *)

From S2P Require Import Prelude Script ScriptFacts PubKey Interpreter.

(** What the interpreter relies on of the hash functions: they return bytes, 20
    or 32 of them. *)
Class HashFunctionsOk `{HashFunctions} : Prop := {
  RIPEMD160_bytes b : words 8 b → words 8 (RIPEMD160 b) ∧ length (RIPEMD160 b) = 20%nat;
  SHA1_bytes b : words 8 b → words 8 (SHA1 b) ∧ length (SHA1 b) = 20%nat;
  SHA256_bytes b : words 8 b → words 8 (SHA256 b) ∧ length (SHA256 b) = 32%nat;
}.

(** [P] holds of a normal result, an error is fine, an abort is not. *)
Definition safe {A} (P : A → Prop) (r : result A) : Prop :=
  match r with Ok a => P a | Err _ => True | Abort => False end.

Lemma safe_bind {A B} (P : A → Prop) (Q : B → Prop) (r : result A) (f : A → result B) :
  safe P r → (∀ a, P a → safe Q (f a)) → safe Q (r ≫= f).
Proof. destruct r; simpl; auto. Qed.

Lemma safe_mono {A} (P Q : A → Prop) r : safe P r → (∀ a, P a → Q a) → safe Q r.
Proof. destruct r; simpl; auto. Qed.

(** Stack elements are byte strings of at most 520 bytes. *)
Definition elem_ok (v : valtype) : Prop := words 8 v ∧ size v ≤ MAX_SCRIPT_ELEMENT_SIZE.
Abbreviation elems_ok := (Forall elem_ok).

Create HintDb interp.
#[export] Hint Constructors Forall : interp.

(** ** Encodings of numbers *)

Lemma abs_bytes_length fuel v : (length (CScriptNum.abs_bytes fuel v) ≤ fuel)%nat.
Proof.
  revert v. induction fuel as [|fuel IH]; intros v; simpl; [lia|].
  destruct (v =? 0); simpl; [lia|]. specialize (IH (v ≫ 8)). lia.
Qed.

Lemma abs_bytes_words fuel v : words 8 (CScriptNum.abs_bytes fuel v).
Proof.
  revert v. induction fuel as [|fuel IH]; intros v; simpl; [constructor|].
  destruct (v =? 0); constructor; [|done]. change 255 with (Z.ones 8). rewrite Z.land_ones by lia.
  unfold fits. apply Z.mod_pos_bound. lia.
Qed.

Lemma words_last l : words 8 l → fits 8 (List.last l 0).
Proof.
  induction 1 as [|x l Hx Hl IH]; [unfold fits; simpl; lia|]. destruct l; [done|exact IH].
Qed.

Lemma serialize_ok n : words 8 (CScriptNum.serialize n) ∧ size (CScriptNum.serialize n) ≤ 9.
Proof.
  unfold CScriptNum.serialize. destruct (n =? 0); [split; [constructor|done]|].
  set (r := CScriptNum.abs_bytes 8 _). assert (words 8 r) as Hw by apply abs_bytes_words.
  assert (size r ≤ 8) as Hs.
  { unfold size, r. pose proof (abs_bytes_length 8 (u64 (if n <? 0 then - n else n))). lia. }
  destruct (negb _); [|destruct (n <? 0); [|split; [done|lia]]].
  - split; [|unfold size in *; rewrite length_app; cbn [length]; lia].
    apply Forall_app. split; [done|]. constructor; [|constructor]. destruct (n <? 0); unfold fits; lia.
  - split; [|unfold size in *; rewrite length_insert; lia].
    apply Forall_insert; [done|]. apply fits_lor; [lia|by apply words_last|unfold fits; lia].
Qed.

Lemma serialize_elem n : elem_ok (CScriptNum.serialize n).
Proof.
  destruct (serialize_ok n). split; [done|]. unfold MAX_SCRIPT_ELEMENT_SIZE. lia.
Qed.

Lemma bool_vch_elem b : elem_ok (bool_vch b).
Proof.
  destruct b; (split; [|done]); [|constructor].
  constructor; [unfold fits; lia|constructor].
Qed.

(** A decoded number has at most 31 bits. *)
Lemma of_vch_range vch f n :
  words 8 vch → vch_number vch f = Some n → - 2 ^ 31 < n < 2 ^ 31.
Proof.
  intros Hw H. unfold vch_number in H. destruct (_ <? _) eqn:E4; [done|].
  destruct (_ && _); [done|]. simplify_eq. destruct (decide (vch = [])) as [->|Hne]; [simpl; lia|].
  destruct (exists_last Hne) as (b & l & ->).
  pose proof Hw as [Hwb Hl]%Forall_app. apply Forall_cons in Hl as [Hl _].
  assert (length b ≤ 3)%nat as Hlen.
  { unfold CScriptNum.nMaxNumSize, size in E4. rewrite length_app in E4. simpl in E4. lia. }
  rewrite set_vch_snoc by done. cbv zeta. rewrite <-le_val_snoc by done.
  pose proof (snoc_bound b (l `mod` 128) Hwb Hlen (Z.mod_pos_bound l 128 ltac:(lia))).
  destruct (128 <=? l); lia.
Qed.

Lemma script_num_safe vch f : elem_ok vch → safe (λ n, - 2 ^ 31 < n < 2 ^ 31) (script_num vch f).
Proof.
  intros [Hw _]. unfold script_num. rewrite of_vch_eq. cbn [or_abort mbind result_bind].
  destruct (vch_number vch f) as [n|] eqn:E; [|done].
  by apply of_vch_range in E.
Qed.

#[export] Hint Resolve serialize_elem bool_vch_elem script_num_safe : interp.

(** ** Every opcode keeps the elements within bounds *)

Ltac elems :=
  repeat match goal with H : elems_ok (_ :: _) |- _ => apply Forall_cons in H as [? H] end.

(** Operations that only move elements around. *)
Ltac moves := try exact I; elems; simpl; auto 12 with interp.

Definition keeps (f : list valtype → result (list valtype)) : Prop :=
  ∀ st, elems_ok st → safe (Forall elem_ok) (f st).

Lemma op_2drop_keeps : keeps op_2drop.
Proof. intros [|? [|? ?]] H; moves. Qed.
Lemma op_2dup_keeps : keeps op_2dup.
Proof. intros [|? [|? ?]] H; moves. Qed.
Lemma op_3dup_keeps : keeps op_3dup.
Proof. intros [|? [|? [|? ?]]] H; moves. Qed.
Lemma op_2over_keeps : keeps op_2over.
Proof. intros [|? [|? [|? [|? ?]]]] H; moves. Qed.
Lemma op_2rot_keeps : keeps op_2rot.
Proof.
  intros [|? [|? [|? [|? [|? [|? ?]]]]]] H; moves.
Qed.
Lemma op_2swap_keeps : keeps op_2swap.
Proof. intros [|? [|? [|? [|? ?]]]] H; moves. Qed.
Lemma op_ifdup_keeps : keeps op_ifdup.
Proof.
  intros [|x ?] H; try exact I. elems. simpl. destruct (CastToBool x); moves.
Qed.
Lemma op_depth_keeps : keeps op_depth.
Proof. intros st H. simpl. auto with interp. Qed.
Lemma op_drop_keeps : keeps op_drop.
Proof. intros [|? ?] H; moves. Qed.
Lemma op_dup_keeps : keeps op_dup.
Proof. intros [|? ?] H; moves. Qed.
Lemma op_nip_keeps : keeps op_nip.
Proof. intros [|? [|? ?]] H; moves. Qed.
Lemma op_over_keeps : keeps op_over.
Proof. intros [|? [|? ?]] H; moves. Qed.
Lemma op_rot_keeps : keeps op_rot.
Proof. intros [|? [|? [|? ?]]] H; moves. Qed.
Lemma op_swap_keeps : keeps op_swap.
Proof. intros [|? [|? ?]] H; moves. Qed.
Lemma op_tuck_keeps : keeps op_tuck.
Proof. intros [|? [|? ?]] H; moves. Qed.
Lemma op_size_keeps : keeps op_size.
Proof. intros [|? ?] H; moves. Qed.
Lemma op_equal_keeps op : keeps (op_equal op).
Proof.
  intros [|? [|? ?]] H; try exact I. elems. simpl.
  destruct (op =? OP_EQUALVERIFY); [destruct (bool_decide _)|]; simpl; auto with interp.
Qed.
Lemma op_push_number_keeps op : keeps (op_push_number op).
Proof. intros st H. simpl. auto with interp. Qed.
Lemma op_verify_keeps : keeps op_verify.
Proof. intros [|x ?] H; try exact I. elems. simpl. by destruct (CastToBool x). Qed.

Lemma elems_at st n : elems_ok st → safe elem_ok (or_throw (st !! n)).
Proof. intros H. destruct (st !! n) eqn:E; [|exact I]. exact (Forall_lookup_1 _ _ _ _ H E). Qed.

Lemma op_pick_roll_keeps op f : keeps (op_pick_roll op f).
Proof.
  intros st H. unfold op_pick_roll. destruct (length st <? 2)%nat; [exact I|].
  destruct st as [|x st]; [exact I|]. elems.
  eapply safe_bind; [by apply script_num_safe|]. intros bn _. cbv beta zeta.
  destruct (_ || _); [exact I|]. eapply safe_bind; [by apply elems_at|]. intros vch Hv. simpl. constructor; [done|].
  destruct (op =? OP_ROLL); [|done]. apply Forall_app. split; [by apply Forall_take|by apply Forall_drop].
Qed.

(** An opcode of a list is one of its elements. *)
Ltac no_opcode H :=
  cbn [existsb] in H;
  repeat match goal with E : (_ =? _) = false |- _ => rewrite E in H; clear E end; done.

(** No assertion of [CScriptNum] fails on operands of 31 bits. *)
Lemma numeric1_safe op bn :
  - 2 ^ 31 < bn < 2 ^ 31 →
  existsb (Z.eqb op) [OP_1ADD; OP_1SUB; OP_NEGATE; OP_ABS; OP_NOT; OP_0NOTEQUAL] = true →
  safe (λ _, True) (numeric1 op bn).
Proof.
  intros Hbn Hop. unfold numeric1, CScriptNum.add_assign, CScriptNum.sub_assign, CScriptNum.neg.
  repeat case_match; try exact I; try lia; no_opcode Hop.
Qed.

Lemma numeric2_safe op bn1 bn2 :
  existsb (Z.eqb op)
    [OP_ADD; OP_SUB; OP_BOOLAND; OP_BOOLOR; OP_NUMEQUAL; OP_NUMEQUALVERIFY; OP_NUMNOTEQUAL;
     OP_LESSTHAN; OP_GREATERTHAN; OP_LESSTHANOREQUAL; OP_GREATERTHANOREQUAL; OP_MIN; OP_MAX] = true →
  safe (λ _, True) (numeric2 op bn1 bn2).
Proof.
  intros Hop. unfold numeric2. repeat case_match; try exact I; no_opcode Hop.
Qed.

Lemma op_numeric1_keeps op f :
  existsb (Z.eqb op) [OP_1ADD; OP_1SUB; OP_NEGATE; OP_ABS; OP_NOT; OP_0NOTEQUAL] = true →
  keeps (op_numeric1 op f).
Proof.
  intros Hop [|x st] H; [exact I|]. elems. unfold op_numeric1.
  eapply safe_bind; [by apply script_num_safe|]. intros bn Hbn.
  eapply safe_bind; [by apply numeric1_safe|]. intros n _. simpl. auto with interp.
Qed.

Lemma op_numeric2_keeps op f :
  existsb (Z.eqb op)
    [OP_ADD; OP_SUB; OP_BOOLAND; OP_BOOLOR; OP_NUMEQUAL; OP_NUMEQUALVERIFY; OP_NUMNOTEQUAL;
     OP_LESSTHAN; OP_GREATERTHAN; OP_LESSTHANOREQUAL; OP_GREATERTHANOREQUAL; OP_MIN; OP_MAX] = true →
  keeps (op_numeric2 op f).
Proof.
  intros Hop [|x2 [|x1 st]] H; [exact I..|]. elems. unfold op_numeric2.
  eapply safe_bind; [by apply script_num_safe|]. intros bn1 _.
  eapply safe_bind; [by apply script_num_safe|]. intros bn2 _.
  eapply safe_bind; [by apply numeric2_safe|]. intros n _. cbv zeta.
  destruct (op =? OP_NUMEQUALVERIFY); [by destruct (CastToBool _)|]. simpl. auto with interp.
Qed.

Lemma op_within_keeps f : keeps (op_within f).
Proof.
  intros [|x3 [|x2 [|x1 st]]] H; [exact I..|]. elems. unfold op_within.
  do 3 (eapply safe_bind; [by apply script_num_safe|]; intros ? _). simpl. auto with interp.
Qed.

(** No read of the encoding checks leaves its vector. *)
Lemma index_safe {A} (P : A → Prop) v i : Forall P v → 0 ≤ i < size v → safe P (index v i).
Proof.
  intros Hv Hi. unfold index. destruct (v !! Z.to_nat i) eqn:E; [exact (Forall_lookup_1 _ _ _ _ Hv E)|].
  apply lookup_ge_None in E. unfold size in Hi. lia.
Qed.

Ltac reads :=
  repeat first
    [ exact I
    | lia
    | match goal with
      | |- safe _ (Ok _) => simpl; intros; first [discriminate | lia]
      | |- safe _ (if ?b then Ok false else _) => destruct b eqn:?; [simpl; (exact I || discriminate)|]
      | |- safe _ (index ?v ?i ≫= _) => eapply safe_bind; [apply (index_safe (fits 8)); [done|unfold fits in *; lia]|]; intros ? ?
      | |- safe _ ((if ?b then _ else Ok false) ≫= _) =>
          eapply (safe_bind (λ _, True)); [destruct b eqn:?|intros [|] _]
      end ].

Lemma IsValidSignatureEncoding_safe sig : words 8 sig → safe (λ b, b = true → 9 ≤ size sig) (IsValidSignatureEncoding sig).
Proof.
  intros Hw. unfold IsValidSignatureEncoding. reads.
Qed.
Lemma IsCompressedOrUncompressedPubKey_safe pk : words 8 pk → safe (λ _, True) (IsCompressedOrUncompressedPubKey pk).
Proof. intros Hw. unfold IsCompressedOrUncompressedPubKey. reads. by repeat case_match. Qed.
Lemma CheckMinimalPush_safe data op : words 8 data → safe (λ _, True) (CheckMinimalPush data op).
Proof. intros Hw. unfold CheckMinimalPush. pose proof (size_nonneg data). destruct (size data =? 0) eqn:?; [exact I|]. reads. Qed.

Lemma IsLowDERSignature_safe sig : words 8 sig → safe (λ _, True) (IsLowDERSignature sig).
Proof.
  intros Hw. unfold IsLowDERSignature. eapply safe_bind; [by apply IsValidSignatureEncoding_safe|]. intros [|] Hv; [|exact I].
  specialize (Hv eq_refl). cbn [negb]. reads. by destruct (negb _).
Qed.
Lemma IsDefinedHashtypeSignature_safe sig : words 8 sig → safe (λ _, True) (IsDefinedHashtypeSignature sig).
Proof. intros Hw. unfold IsDefinedHashtypeSignature. pose proof (size_nonneg sig). reads. Qed.

Lemma check_encodings_safe sig pk flags : words 8 sig → words 8 pk → safe (λ _, True) (check_encodings sig pk flags).
Proof.
  intros Hs Hp. unfold check_encodings, CheckSignatureEncoding, CheckPubKeyEncoding.
  eapply (safe_bind (λ _, True)); [|intros _ _; eapply (safe_bind (λ _, True)); [|intros [|] _; exact I]].
  - destruct (size sig =? 0); [exact I|]. eapply (safe_bind (λ _, True)); [|intros [|] _; [|exact I]].
    { destruct (has_flag _ _); [|exact I]. by eapply safe_mono; [apply IsValidSignatureEncoding_safe|]. }
    eapply (safe_bind (λ _, True)); [|intros _ _; eapply (safe_bind (λ _, True)); [|intros [|] _; exact I]].
    + destruct (has_flag _ _); [by apply IsLowDERSignature_safe|exact I].
    + destruct (has_flag _ _); [by apply IsDefinedHashtypeSignature_safe|exact I].
  - destruct (has_flag _ _); [by apply IsCompressedOrUncompressedPubKey_safe|exact I].
Qed.

Lemma multisig_loop_safe `{BaseSignatureChecker} flags code sigs keys :
  elems_ok sigs → elems_ok keys → safe (λ _, True) (multisig_loop flags code sigs keys).
Proof.
  revert sigs. induction keys as [|k keys IH]; intros [|s sigs] Hs Hk; try exact I. cbn [multisig_loop].
  pose proof Hs as [[Hsw _] Hs']%Forall_cons. apply Forall_cons in Hk as [[Hkw _] Hk].
  eapply safe_bind; [by apply check_encodings_safe|]. intros _ _. cbv zeta.
  destruct (_ <? _)%nat; [exact I|]. apply IH; [by destruct (CheckSig _ _ _)|done].
Qed.

Section safety.
Context `{HashFunctionsOk} `{BaseSignatureChecker}.
Context (flags : Z).

Lemma Hash160_bytes b : words 8 b → words 8 (Hash160 b) ∧ length (Hash160 b) = 20%nat.
Proof. intros Hb. apply RIPEMD160_bytes. by apply SHA256_bytes. Qed.

Lemma Hash256_bytes b : words 8 b → words 8 (Hash256 b) ∧ length (Hash256 b) = 32%nat.
Proof. intros Hb. apply SHA256_bytes. by apply SHA256_bytes. Qed.

Lemma bytes_elem b n : words 8 b ∧ length b = n → (n ≤ 520)%nat → elem_ok b.
Proof. intros [Hw Hl] Hn. split; [done|]. unfold size, MAX_SCRIPT_ELEMENT_SIZE. lia. Qed.

Lemma op_hash_keeps op : keeps (op_hash op).
Proof.
  intros [|x st] Hst; [exact I|]. elems. simpl. constructor; [|done].
  match goal with H : elem_ok x |- _ => destruct H as [Hw _] end.
  repeat case_match; eapply bytes_elem;
    eauto using RIPEMD160_bytes, SHA1_bytes, SHA256_bytes, Hash160_bytes, Hash256_bytes; lia.
Qed.

Lemma op_checksig_keeps op code : keeps (op_checksig op flags code).
Proof.
  intros [|pk [|sig st]] Hst; [exact I..|]. apply Forall_cons in Hst as [[Hpk _] Hst].
  apply Forall_cons in Hst as [[Hsig _] Hst]. unfold op_checksig. eapply safe_bind; [by apply check_encodings_safe|]. intros _ _. cbv beta zeta.
  destruct (op =? OP_CHECKSIGVERIFY); [by destruct (CheckSig _ _ _)|]. simpl. auto with interp.
Qed.

Lemma op_checkmultisig_safe op n code st :
  elems_ok st → 0 ≤ n →
  safe (λ r, elems_ok (fst r) ∧ 0 ≤ snd r ≤ 201) (op_checkmultisig op flags n code st).
Proof.
  intros Hst Hn. unfold op_checkmultisig. destruct (size st <? 1); [exact I|].
  eapply safe_bind; [by apply elems_at|]. intros vch Hv.
  eapply safe_bind; [by apply script_num_safe|]. intros bn _. cbv beta zeta.
  destruct (Z.ltb_spec (CScriptNum.getint bn) 0); [exact I|]. destruct (20 <? _); [exact I|]. cbn [orb].
  destruct (Z.ltb_spec 201 (n + CScriptNum.getint bn)); [exact I|]. destruct (size st <? _); [exact I|].
  eapply safe_bind; [by apply elems_at|]. intros vch2 Hv2.
  eapply safe_bind; [by apply script_num_safe|]. intros bn2 _. cbv beta zeta.
  destruct (_ || _); [exact I|]. destruct (size st <? _); [exact I|].
  eapply safe_bind; [apply multisig_loop_safe; by apply Forall_take, Forall_drop|]. intros fSuccess _. cbv beta zeta. unfold multisig_finish.
  destruct (drop _ st) as [|dummy st'] eqn:E; [exact I|].
  assert (elems_ok (dummy :: st')) as Hd by (rewrite <-E; by apply Forall_drop).
  elems. destruct (_ && _); [exact I|].
  destruct (op =? OP_CHECKMULTISIGVERIFY); [destruct fSuccess; [|exact I]|]; simpl;
    (split; [auto with interp|lia]).
Qed.

(** Invariant of the machine. *)
Definition machine_ok (m : machine) : Prop :=
  elems_ok (stack m) ∧ elems_ok (altstack m) ∧ 0 ≤ nOpCount m ≤ 201.

Lemma on_stack_safe m f : keeps f → machine_ok m → safe machine_ok (on_stack m f).
Proof.
  intros Hf (Hs & Ha & Hn). eapply safe_bind; [by apply Hf|]. intros st Hst. exact (conj Hst (conj Ha Hn)).
Qed.

Lemma stack_op_keeps op f : stack_op flags op = Some f → keeps f.
Proof.
  unfold stack_op. repeat case_match; intros; simplify_eq;
    auto using op_2drop_keeps, op_2dup_keeps, op_3dup_keeps, op_2over_keeps, op_2rot_keeps,
      op_2swap_keeps, op_ifdup_keeps, op_depth_keeps, op_drop_keeps, op_dup_keeps, op_nip_keeps,
      op_over_keeps, op_pick_roll_keeps, op_rot_keeps, op_swap_keeps, op_tuck_keeps, op_size_keeps,
      op_equal_keeps.
Qed.

Lemma numeric_op_keeps op f : numeric_op flags op = Some f → keeps f.
Proof.
  unfold numeric_op. repeat case_match; intros; simplify_eq;
    auto using op_numeric1_keeps, op_numeric2_keeps, op_within_keeps.
Qed.

Lemma op_if_safe op m : machine_ok m → safe machine_ok (op_if op m).
Proof.
  intros Hm. unfold op_if. destruct (fExec m); [|exact Hm]. destruct Hm as (Hs & Ha & Hn).
  destruct (stack m); [exact I|]. elems. exact (conj Hs (conj Ha Hn)).
Qed.

Lemma eval_op_safe op pc m : machine_ok m → safe machine_ok (eval_op flags op pc m).
Proof.
  intros Hm. pose proof Hm as (Hs & Ha & Hn). unfold eval_op.
  destruct (_ || _); [apply on_stack_safe; auto using op_push_number_keeps|].
  destruct (op =? OP_NOP); [done|]. destruct (_ && _); [by destruct (has_flag _ _)|].
  destruct (_ || _); [by apply op_if_safe|].
  destruct (op =? OP_ELSE); [unfold op_else; destruct (vfExec m); [exact I|exact Hm]|].
  destruct (op =? OP_ENDIF); [unfold op_endif; destruct (vfExec m); [exact I|exact Hm]|].
  destruct (op =? OP_VERIFY); [apply on_stack_safe; auto using op_verify_keeps|].
  destruct (op =? OP_RETURN); [exact I|].
  destruct (op =? OP_TOALTSTACK).
  { unfold op_toaltstack. destruct (stack m); [exact I|]. apply Forall_cons in Hs as [Hx Hs].
    exact (conj Hs (conj (Forall_cons_2 _ _ _ Hx Ha) Hn)). }
  destruct (op =? OP_FROMALTSTACK).
  { unfold op_fromaltstack. destruct (altstack m); [exact I|]. apply Forall_cons in Ha as [Hx Ha].
    exact (conj (Forall_cons_2 _ _ _ Hx Hs) (conj Ha Hn)). }
  destruct (stack_op flags op) as [f|] eqn:Ef; [eauto using on_stack_safe, stack_op_keeps|].
  destruct (numeric_op flags op) as [f|] eqn:Eg; [eauto using on_stack_safe, numeric_op_keeps|].
  destruct (_ && _); [apply on_stack_safe; auto using op_hash_keeps|].
  destruct (op =? OP_CODESEPARATOR); [exact Hm|].
  destruct (_ || _); [apply on_stack_safe; auto using op_checksig_keeps|].
  destruct (_ || _); [|exact I].
  eapply safe_bind; [apply op_checkmultisig_safe; [done|lia]|]. intros r [Hr Hc]. exact (conj Hr (conj Ha Hc)).
Qed.

Lemma eval_instr_safe r m :
  machine_ok m → words 8 (op_vch r) →
  safe (λ m', machine_ok m' ∧ size (stack m') + size (altstack m') ≤ 1000) (eval_instr flags r m).
Proof.
  intros Hm Hw. unfold eval_instr. destruct (negb _); [exact I|].
  destruct (Z.ltb_spec MAX_SCRIPT_ELEMENT_SIZE (size (op_vch r))) as [|Hsz]; [exact I|]. cbv zeta.
  set (m' := if OP_16 <? op_code r then _ else m).
  destruct ((OP_16 <? op_code r) && (201 <? nOpCount m')) eqn:Eop; [exact I|].
  assert (machine_ok m') as Hm'.
  { destruct Hm as (Hs & Ha & Hn). subst m'. destruct (OP_16 <? op_code r); [|done].
    simpl in Eop. split_and!; simpl; [done..|lia|lia]. }
  destruct (is_disabled _); [exact I|].
  eapply (safe_bind machine_ok).
  - destruct (fExec m' && (0 <=? op_code r) && (op_code r <=? OP_PUSHDATA4)).
    + eapply (safe_bind (λ _, True)); [destruct (fRequireMinimal flags); [by apply CheckMinimalPush_safe|exact I]|].
      intros [|] _; [|exact I]. destruct Hm' as (Hs & Ha & Hn).
      split_and!; simpl; [|done|lia|lia]. constructor; [by split|done].
    + destruct (_ || _); [by apply eval_op_safe|done].
  - intros m'' Hm''. destruct (Z.ltb_spec 1000 (size (stack m'') + size (altstack m''))); [exact I|by split].
Qed.

Lemma eval_loop_safe fuel pc m :
  (length pc ≤ fuel)%nat → words 8 pc → machine_ok m →
  safe (λ m', machine_ok m' ∧ (size (stack m) ≤ 1000 → size (stack m') ≤ 1000)) (eval_loop flags fuel pc m).
Proof.
  revert pc m. induction fuel as [|fuel IH]; intros pc m Hf Hw Hm.
  - destruct pc; [|simpl in Hf; lia]. simpl. by destruct (vfExec m).
  - destruct pc as [|x pc]; [simpl; by destruct (vfExec m)|]. cbn [eval_loop].
    destruct (GetOp2_words (x :: pc) Hw) as [Hv Hr].
    eapply safe_bind; [by apply eval_instr_safe|]. intros m' [Hm' Hsz].
    eapply safe_mono; [apply IH; [|done..]|].
    + pose proof (GetOp2_consumes pc x). simpl in Hf. lia.
    + intros m'' [Hm'' Hsz']. split; [done|]. intros _. apply Hsz'.
      pose proof (size_nonneg (altstack m')). lia.
Qed.

Lemma EvalScript_safe st script :
  words 8 script → elems_ok st → size st ≤ 1000 →
  safe (λ st', elems_ok st' ∧ size st' ≤ 1000) (EvalScript flags st script).
Proof.
  intros Hw Hst Hsz. unfold EvalScript. destruct (10000 <? size script); [exact I|].
  eapply safe_bind.
  - apply eval_loop_safe; [lia|done|]. split_and!; simpl; [done|constructor|lia|lia].
  - intros m [(Hm & _ & _) Hs]. split; [done|by apply Hs].
Qed.

(** A pay-to-script-hash output cannot be satisfied by an empty stack. *)
Lemma EvalScript_p2sh_empty script :
  IsPayToScriptHash script = true → EvalScript flags [] script = Err SCRIPT_ERR_INVALID_STACK_OPERATION.
Proof.
  unfold IsPayToScriptHash. intros Hp. destruct script as [|op script]; [done|].
  rewrite !andb_true_iff in Hp. destruct Hp as [[[Hs%Z.eqb_eq Hop%Z.eqb_eq] _] _]. cbn [nth] in Hop. subst op.
  unfold EvalScript. rewrite Hs. reflexivity.
Qed.

Lemma VerifyScript_safe scriptSig scriptPubKey :
  words 8 scriptSig → words 8 scriptPubKey →
  safe (λ _, True) (VerifyScript flags scriptSig scriptPubKey).
Proof.
  intros Hsig Hpk. unfold VerifyScript. destruct (_ && _); [exact I|].
  eapply safe_bind; [apply EvalScript_safe; [done|constructor|done]|]. intros stackCopy [Hc Hcs].
  pose proof (EvalScript_safe stackCopy scriptPubKey Hpk Hc Hcs) as Hst.
  destruct (EvalScript flags stackCopy scriptPubKey) as [st| |] eqn:Est; [|exact I|done].
  cbn [mbind result_bind]. destruct st as [|top st]; [exact I|].
  destruct (negb (CastToBool top)); [exact I|].
  destruct (has_flag flags SCRIPT_VERIFY_P2SH && IsPayToScriptHash scriptPubKey) eqn:Ep; [|exact I].
  destruct (negb (IsPushOnly scriptSig)); [exact I|].
  destruct stackCopy as [|ser stackCopy].
  { apply andb_true_iff in Ep as [_ Ep]. by rewrite (EvalScript_p2sh_empty _ Ep) in Est. }
  apply Forall_cons in Hc as [[Hw _] Hc]. rewrite size_cons in Hcs.
  eapply safe_bind; [apply EvalScript_safe; [done..|lia]|]. intros st' _.
  destruct st' as [|top' st']; [exact I|]. by destruct (negb (CastToBool top')).
Qed.

(** C30: Running a script always ends, without a failed assertion, in an error or
    in a stack of at most 1000 elements of at most 520 bytes each; the limits
    hold for every script, initial stack within them, flag set, signature
    checker and hash functions. *)
Theorem EvalScript_limits st script :
  words 8 script → Forall elem_ok st → size st ≤ 1000 →
  EvalScript flags st script ≠ Abort ∧
  ∀ st', EvalScript flags st script = Ok st' →
    size st' ≤ 1000 ∧ Forall (λ v, words 8 v ∧ size v ≤ 520) st'.
Proof.
  intros Hw Hst Hsz. pose proof (EvalScript_safe st script Hw Hst Hsz) as H'.
  destruct (EvalScript flags st script) as [st'| |]; [|done..]. destruct H' as [He Hs].
  split; [done|]. intros st'' [= <-]. done.
Qed.

(** C31: [VerifyScript] always returns a verdict, success or a script error, for every
    pair of scripts made of bytes, flag set, signature checker and hash functions: its
    assertion that the copied stack is not empty cannot fail, neither can those of
    [CScriptNum], and no read of the number decoder, of the signature and public key
    encoding checks or of the minimal push check leaves its vector; each of these would
    be the third outcome, [Abort]. *)
Theorem VerifyScript_returns scriptSig scriptPubKey :
  words 8 scriptSig → words 8 scriptPubKey →
  VerifyScript flags scriptSig scriptPubKey = Ok tt ∨
  ∃ e, VerifyScript flags scriptSig scriptPubKey = Err e.
Proof.
  intros H1' H2'. pose proof (VerifyScript_safe _ _ H1' H2') as Hs.
  destruct (VerifyScript flags scriptSig scriptPubKey) as [[]|e|]; [by left|right; by exists e|done].
Qed.
End safety.

(** A hash that returns zeros and a checker that accepts a one-byte signature. *)
#[local] Instance demo_hashes : HashFunctions := {
  RIPEMD160 _ := replicate 20 0; SHA1 _ := replicate 20 0; SHA256 _ := replicate 32 0 }.
#[local] Instance demo_hashes_ok : HashFunctionsOk.
Proof. split; intros; (split; [by apply words_replicate0|done]). Qed.
#[local] Instance demo_checker : BaseSignatureChecker := { CheckSig sig _ _ := bool_decide (length sig = 1%nat) }.

Lemma EvalScript_limits_witness :
  EvalScript 0 [] [OP_2; OP_3; OP_ADD] = Ok [[5]] ∧ EvalScript 0 [] [OP_2; OP_3; OP_ADD] ≠ Abort.
Proof.
  split; [vm_compute; reflexivity|]. apply (EvalScript_limits 0 [] [OP_2; OP_3; OP_ADD]).
  - repeat (constructor; [unfold fits; vm_compute; done|]). constructor.
  - constructor.
  - done.
Defined.

Lemma VerifyScript_returns_witness :
  VerifyScript 0 [OP_2; OP_3] [OP_EQUAL] = Ok tt ∨ ∃ e, VerifyScript 0 [OP_2; OP_3] [OP_EQUAL] = Err e.
Proof.
  apply (VerifyScript_returns 0 [OP_2; OP_3] [OP_EQUAL]);
    repeat (constructor; [unfold fits; vm_compute; done|]); constructor.
Defined.
