(* ===== verification/Standard.v ===== *)
(** script/standard.h and script/standard.cpp: templates of standard outputs and
    destinations.

    [None] is a thrown exception. *)

From S2P Require Import Prelude Script PubKey Interpreter.

Inductive txnouttype :=
  | TX_NONSTANDARD
  | TX_PUBKEY
  | TX_PUBKEYHASH
  | TX_SCRIPTHASH
  | TX_MULTISIG
  | TX_NULL_DATA
  | TX_ZEROCOINMINT.

#[export] Instance txnouttype_eq_dec : EqDecision txnouttype.
Proof. solve_decision. Defined.

(** [CTxDestination]: hashes of 20 bytes. *)
Inductive CTxDestination :=
  | CNoDestination
  | CKeyID (hash : list Z)
  | CScriptID (hash : list Z).

Definition MAX_OP_RETURN_RELAY : Z := 83.
Definition MANDATORY_SCRIPT_VERIFY_FLAGS : Z := SCRIPT_VERIFY_P2SH.
Definition STANDARD_SCRIPT_VERIFY_FLAGS : Z :=
  Z.lor MANDATORY_SCRIPT_VERIFY_FLAGS (Z.lor SCRIPT_VERIFY_DERSIG (Z.lor SCRIPT_VERIFY_STRICTENC
    (Z.lor SCRIPT_VERIFY_MINIMALDATA (Z.lor SCRIPT_VERIFY_NULLDUMMY
      SCRIPT_VERIFY_DISCOURAGE_UPGRADABLE_NOPS)))).
Definition STANDARD_NOT_MANDATORY_VERIFY_FLAGS : Z :=
  Z.ldiff STANDARD_SCRIPT_VERIFY_FLAGS MANDATORY_SCRIPT_VERIFY_FLAGS.

(** [mTemplates], in the order of the multimap. *)
Definition mTemplates : list (txnouttype * CScript) :=
  [(TX_PUBKEY, [OP_PUBKEY; OP_CHECKSIG]);
   (TX_PUBKEYHASH, [OP_DUP; OP_HASH160; OP_PUBKEYHASH; OP_EQUALVERIFY; OP_CHECKSIG]);
   (TX_MULTISIG, [OP_SMALLINTEGER; OP_PUBKEYS; OP_SMALLINTEGER; OP_CHECKMULTISIG])].

Definition key_size (vch : valtype) : bool := (33 <=? size vch) && (size vch <=? 65).

(** [while (vch1.size() >= 33 && vch1.size() <= 65)]; a failed [GetOp] clears
    [vch1], which ends the loop. *)
Fixpoint collect_keys (fuel : nat) (r1 : op_result) (sols : list valtype) : op_result * list valtype :=
  match fuel with
  | O => (r1, sols)
  | S fuel =>
      if key_size (op_vch r1)
      then collect_keys fuel (GetOp2 (op_rest r1)) (sols ++ [op_vch r1])
      else (r1, sols)
  end.

(** The comparison of one instruction: [None] is [break]. *)
Definition match_instr (r1 r2 : op_result) (sols : list valtype) : option (list valtype) :=
  if op_code r2 =? OP_PUBKEY then
    if key_size (op_vch r1) then Some (sols ++ [op_vch r1]) else None
  else if op_code r2 =? OP_PUBKEYHASH then
    if size (op_vch r1) =? 20 then Some (sols ++ [op_vch r1]) else None
  else if op_code r2 =? OP_SMALLINTEGER then
    if (op_code r1 =? OP_0) || (OP_1 <=? op_code r1) && (op_code r1 <=? OP_16)
    then n ← DecodeOP_N (op_code r1); Some (sols ++ [[u8 n]]) else None
  else if negb (op_code r1 =? op_code r2) || negb (bool_decide (op_vch r1 = op_vch r2)) then None
  else Some sols.

(** [while (true)] for one template: every round reads the template on. *)
Fixpoint match_template (fuel : nat) (pc1 pc2 : CScript) (sols : list valtype) : option (list valtype) :=
  match pc1, pc2 with
  | [], [] => Some sols
  | _, _ =>
      match fuel with
      | O => None
      | S fuel =>
          let r1 := GetOp2 pc1 in
          let r2 := GetOp2 pc2 in
          if negb (op_ok r1) || negb (op_ok r2) then None
          else
            let '(r1, sols) :=
              if op_code r2 =? OP_PUBKEYS then collect_keys (length pc1) r1 sols else (r1, sols) in
            let r2 := if op_code r2 =? OP_PUBKEYS then GetOp2 (op_rest r2) else r2 in
            if negb (op_ok r2) then None
            else sols ← match_instr r1 r2 sols; match_template fuel (op_rest r1) (op_rest r2) sols
      end
  end.

Fixpoint scan_templates (script : CScript) (l : list (txnouttype * CScript)) :
    bool * txnouttype * list valtype :=
  match l with
  | [] => (false, TX_NONSTANDARD, [])
  | (t, tpl) :: l =>
      match match_template (S (length tpl)) script tpl [] with
      | Some sols =>
          if decide (t = TX_MULTISIG) then
            let m := nth 0 (nth 0 sols []) 0 in
            let n := nth 0 (List.last sols []) 0 in
            if (m <? 1) || (n <? 1) || (n <? m) || negb (size sols - 2 =? n) then (false, t, sols)
            else (true, t, sols)
          else (true, t, sols)
      | None => scan_templates script l
      end
  end.

(** [Solver]: the return value, [typeRet] and [vSolutionsRet]. The copy
    [vector(begin() + 2, end())] of a one-byte mint script throws. *)
Definition Solver (scriptPubKey : CScript) : option (bool * txnouttype * list valtype) :=
  if IsPayToScriptHash scriptPubKey then
    Some (true, TX_SCRIPTHASH, [take 20 (drop 2 scriptPubKey)])
  else if IsZerocoinMint scriptPubKey then
    if 150 <? size scriptPubKey then Some (false, TX_ZEROCOINMINT, [])
    else if size scriptPubKey <? 2 then None
    else Some (true, TX_ZEROCOINMINT, [drop 2 scriptPubKey])
  else if (1 <=? size scriptPubKey) && (nth 0 scriptPubKey 0 =? OP_RETURN) &&
          IsPushOnly (drop 1 scriptPubKey)
  then Some (true, TX_NULL_DATA, [])
  else Some (scan_templates scriptPubKey mTemplates).

(** [ScriptSigArgsExpected] *)
Definition ScriptSigArgsExpected (t : txnouttype) (vSolutions : list valtype) : Z :=
  match t with
  | TX_NONSTANDARD | TX_NULL_DATA | TX_ZEROCOINMINT => -1
  | TX_PUBKEY => 1
  | TX_PUBKEYHASH => 2
  | TX_MULTISIG =>
      if (size vSolutions <? 1) || (size (nth 0 vSolutions []) <? 1) then -1
      else nth 0 (nth 0 vSolutions []) 0 + 1
  | TX_SCRIPTHASH => 1
  end.

(** [IsStandard]: [datacarrier] is [GetBoolArg("-datacarrier", true)],
    [nMaxDatacarrierBytes] the configured limit. *)
Definition IsStandard (datacarrier : bool) (nMaxDatacarrierBytes : Z) (scriptPubKey : CScript) :
    option (bool * txnouttype) :=
  r ← Solver scriptPubKey;
  let '(ok, whichType, vSolutions) := r : bool * txnouttype * list valtype in
  if negb ok then Some (false, whichType)
  else
    let m := nth 0 (nth 0 vSolutions []) 0 in
    let n := nth 0 (List.last vSolutions []) 0 in
    if decide (whichType = TX_MULTISIG) then
      if (n <? 1) || (3 <? n) then Some (false, whichType)
      else if (m <? 1) || (n <? m) then Some (false, whichType)
      else Some (true, whichType)
    else if bool_decide (whichType = TX_NULL_DATA) &&
            (negb datacarrier || (nMaxDatacarrierBytes <? size scriptPubKey))
    then Some (false, whichType)
    else Some (negb (bool_decide (whichType = TX_NONSTANDARD)), whichType).

Section destinations.
Context `{HashFunctions}.

(** [CPubKey::GetID], [CScriptID(const CScript&)] *)
Definition GetID (k : CPubKey) : list Z := Hash160 (Raw k).
Definition script_id (s : CScript) : CTxDestination := CScriptID (Hash160 s).

(** [ExtractDestination]: [Some None] is [return false]. *)
Definition ExtractDestination (scriptPubKey : CScript) : option (option CTxDestination) :=
  r ← Solver scriptPubKey;
  let '(ok, whichType, vSolutions) := r : bool * txnouttype * list valtype in
  if negb ok then Some None
  else match whichType with
  | TX_PUBKEY =>
      let pubKey := CPubKey_of (nth 0 vSolutions []) in
      Some (if IsValid pubKey then Some (CKeyID (GetID pubKey)) else None)
  | TX_PUBKEYHASH => Some (Some (CKeyID (nth 0 vSolutions [])))
  | TX_SCRIPTHASH => Some (Some (CScriptID (nth 0 vSolutions [])))
  | _ => Some None
  end.

(** [ExtractDestinations]: [addressRet] and [nRequiredRet]; [Some None] is
    [return false]. *)
Definition ExtractDestinations (scriptPubKey : CScript) :
    option (option (txnouttype * list CTxDestination * Z)) :=
  r ← Solver scriptPubKey;
  let '(ok, typeRet, vSolutions) := r : bool * txnouttype * list valtype in
  if negb ok then Some None
  else if decide (typeRet = TX_NULL_DATA) then Some None
  else if decide (typeRet = TX_MULTISIG) then
    let keys := CPubKey_of <$> take (length vSolutions - 2) (drop 1 vSolutions) in
    let addressRet := (λ k, CKeyID (GetID k)) <$> filter (λ k, IsValid k = true) keys in
    match addressRet with
    | [] => Some None
    | _ => Some (Some (typeRet, addressRet, nth 0 (nth 0 vSolutions []) 0))
    end
  else
    address ← ExtractDestination scriptPubKey;
    Some (match address with
          | Some a => Some (typeRet, [a], 1)
          | None => None
          end).

End destinations.

(** [GetScriptForDestination], [GetScriptForRawPubKey], [GetScriptForMultisig] *)
Definition GetScriptForDestination (dest : CTxDestination) : CScript :=
  match dest with
  | CNoDestination => []
  | CKeyID keyID => [OP_DUP; OP_HASH160] ++ push_data keyID ++ [OP_EQUALVERIFY; OP_CHECKSIG]
  | CScriptID scriptID => [OP_HASH160] ++ push_data scriptID ++ [OP_EQUAL]
  end.
Definition GetScriptForRawPubKey (pubKey : CPubKey) : CScript := push_data (Raw pubKey) ++ [OP_CHECKSIG].
Definition GetScriptForMultisig (nRequired : Z) (keys : list CPubKey) : option CScript :=
  m ← EncodeOP_N nRequired;
  n ← EncodeOP_N (s32 (size keys));
  Some ([m] ++ flat_map (λ k, push_data (Raw k)) keys ++ [n; OP_CHECKMULTISIG]).

Definition IsValidDestination (dest : CTxDestination) : bool :=
  match dest with CNoDestination => false | _ => true end.
