(* ===== verification/StandardFacts.v ===== *)
(** Standard scripts: the script built for a destination or a multisignature is
    recognised again, with the same data. *)

From S2P Require Import Prelude Script ScriptFacts PubKey Interpreter Standard.

Lemma size_length {A} (l : list A) n : size l = Z.of_nat n → length l = n.
Proof. unfold size. lia. Qed.

Lemma Solver_keyid h :
  size h = 20 → Solver (GetScriptForDestination (CKeyID h)) = Some (true, TX_PUBKEYHASH, [h]).
Proof.
  intros Hh%(size_length h 20). do 20 (destruct h as [|? h]; [done|]). destruct h; [|done].
  reflexivity.
Qed.

Lemma Solver_scriptid h :
  size h = 20 → Solver (GetScriptForDestination (CScriptID h)) = Some (true, TX_SCRIPTHASH, [h]).
Proof.
  intros Hh%(size_length h 20). do 20 (destruct h as [|? h]; [done|]). destruct h; [|done].
  reflexivity.
Qed.

(** ** Multisignature scripts *)

Definition key_bytes (k : CPubKey) : Prop := key_size (Raw k) = true.

Lemma key_size_bound v : key_size v = true → 33 ≤ size v ≤ 65.
Proof. unfold key_size. lia. Qed.

(** [collect_keys] takes all the pushed keys and stops at the count. *)
Lemma collect_all fuel keys k op tail sols :
  (length keys < fuel)%nat → key_bytes k → Forall key_bytes keys → OP_PUSHDATA4 < op →
  ∀ code, collect_keys (S fuel)
    (OpResult true code (Raw k) (flat_map (λ k, push_data (Raw k)) keys ++ op :: tail)) sols =
  (OpResult true op [] tail, sols ++ Raw k :: (Raw <$> keys)).
Proof.
  intros Hf Hk Hks Hop. revert fuel k sols Hf Hk. induction Hks as [|k' keys Hk' Hks IH];
    intros fuel k sols Hf Hk code; cbn [length] in Hf.
  - cbn [collect_keys op_vch op_rest flat_map app]. rewrite Hk.
    assert (GetOp2 (op :: tail) = OpResult true op [] tail) as ->.
    { simpl. unfold OP_PUSHDATA4 in *. by replace (op <=? 78) with false by lia. }
    destruct fuel as [|fuel]; [lia|]. done.
  - cbn [collect_keys op_vch op_rest flat_map]. rewrite Hk, <-app_assoc.
    pose proof (key_size_bound _ Hk'). rewrite GetOp2_push by lia.
    destruct fuel as [|fuel]; [lia|]. rewrite IH by (done || lia).
    by rewrite fmap_cons, <-app_assoc.
Qed.

Lemma EncodeOP_N_pos n : 1 ≤ n ≤ 16 → EncodeOP_N n = Some (OP_1 + n - 1).
Proof.
  intros. unfold EncodeOP_N. replace ((0 <=? n) && (n <=? 16)) with true by lia.
  by replace (n =? 0) with false by lia.
Qed.

Lemma small_opcode n sols r r2 :
  1 ≤ n ≤ 16 →
  match_instr (OpResult true (OP_1 + n - 1) [] r) (OpResult true OP_SMALLINTEGER [] r2) sols =
  Some (sols ++ [[n]]).
Proof.
  intros Hn. unfold match_instr. cbn [op_code op_vch].
  change (OP_SMALLINTEGER =? OP_PUBKEY) with false. change (OP_SMALLINTEGER =? OP_PUBKEYHASH) with false.
  change (OP_SMALLINTEGER =? OP_SMALLINTEGER) with true. cbv iota. unfold DecodeOP_N.
  unfold OP_0, OP_1, OP_16.
  replace ((0x51 + n - 1 =? 0) || (0x51 <=? 0x51 + n - 1) && (0x51 + n - 1 <=? 0x60)) with true by lia.
  replace (0x51 + n - 1 =? 0) with false by lia.
  replace ((0x51 <=? 0x51 + n - 1) && (0x51 + n - 1 <=? 0x60)) with true by lia.
  cbn [mbind option_bind]. replace (0x51 + n - 1 - (0x51 - 1)) with n by lia.
  rewrite wrap_small by (unfold fits; lia). done.
Qed.

Lemma GetOp2_opcode op rest : OP_PUSHDATA4 < op → GetOp2 (op :: rest) = OpResult true op [] rest.
Proof. intros Hop. simpl. unfold OP_PUSHDATA4 in *. by replace (op <=? 78) with false by lia. Qed.

Lemma first_key k rest :
  key_bytes k → ∃ code, GetOp2 (push_data (Raw k) ++ rest) = OpResult true code (Raw k) rest.
Proof.
  intros Hk. pose proof (key_size_bound _ Hk). rewrite GetOp2_push by lia. eauto.
Qed.

Lemma flat_push_length keys :
  Forall key_bytes keys → (length keys ≤ length (flat_map (λ k, push_data (Raw k)) keys))%nat.
Proof.
  induction 1 as [|k keys Hk _ IH]; [done|]. cbn [flat_map length]. rewrite length_app.
  assert (1 ≤ length (push_data (Raw k)))%nat; [|lia].
  unfold push_data. repeat case_match; cbn [app length]; lia.
Qed.

(** One round of the template loop. *)
Lemma match_step fuel pc1 pc2 sols r1 r2 sols' :
  pc1 ≠ [] → GetOp2 pc1 = r1 → GetOp2 pc2 = r2 → op_ok r1 = true → op_ok r2 = true →
  op_code r2 ≠ OP_PUBKEYS → match_instr r1 r2 sols = Some sols' →
  match_template (S fuel) pc1 pc2 sols = match_template fuel (op_rest r1) (op_rest r2) sols'.
Proof.
  intros Hpc <- <- H1 H2 Hk Hm. cbn [match_template]. destruct pc1 as [|b pc1]; [done|].
  rewrite H1, H2. apply Z.eqb_neq in Hk. rewrite Hk. cbn [negb orb]. cbv iota.
  by rewrite H2, Hm.
Qed.

Lemma match_keys fuel k keys op tail pc2 sols sols' r2 :
  Forall key_bytes (k :: keys) → OP_PUSHDATA4 < op → GetOp2 pc2 = r2 → op_ok r2 = true →
  match_instr (OpResult true op [] tail) r2 (sols ++ (Raw <$> k :: keys)) = Some sols' →
  match_template (S fuel) (flat_map (λ k, push_data (Raw k)) (k :: keys) ++ op :: tail)
    (OP_PUBKEYS :: pc2) sols = match_template fuel tail (op_rest r2) sols'.
Proof.
  intros Hks Hop <- Hok Hm. pose proof (flat_push_length _ Hks) as Hlen.
  inversion_clear Hks as [|? ? Hk Hks']. set (pc1 := _ ++ op :: tail).
  assert (length keys + 2 ≤ length pc1)%nat as Hl.
  { unfold pc1. rewrite length_app. cbn [length] in *. lia. }
  destruct (first_key k (flat_map (λ k, push_data (Raw k)) keys ++ op :: tail) Hk) as [code Hc].
  assert (GetOp2 pc1 = OpResult true code (Raw k)
    (flat_map (λ k, push_data (Raw k)) keys ++ op :: tail)) as Hr.
  { unfold pc1. cbn [flat_map]. by rewrite <-app_assoc. }
  cbn [match_template]. rewrite Hr. destruct pc1 as [|b pc1'] eqn:Epc; [cbn in Hl; lia|].
  change (GetOp2 (OP_PUBKEYS :: pc2)) with (OpResult true OP_PUBKEYS [] pc2).
  change (OP_PUBKEYS =? OP_PUBKEYS) with true. cbn [op_ok negb orb op_code op_rest]. cbv iota.
  cbn [length] in *. rewrite collect_all by (done || lia). change (OP_PUBKEYS =? OP_PUBKEYS) with true.
  cbv iota. rewrite Hok. cbn [negb]. rewrite fmap_cons in Hm. by rewrite Hm.
Qed.

Lemma match_multisig m n k keys :
  1 ≤ m ≤ 16 → 1 ≤ n ≤ 16 → Forall key_bytes (k :: keys) →
  match_template 5 (OP_1 + m - 1 :: flat_map (λ k, push_data (Raw k)) (k :: keys) ++
                    [OP_1 + n - 1; OP_CHECKMULTISIG])
    [OP_SMALLINTEGER; OP_PUBKEYS; OP_SMALLINTEGER; OP_CHECKMULTISIG] [] =
  Some ([m] :: (Raw <$> k :: keys) ++ [[n]]).
Proof.
  intros Hm Hn Hks.
  erewrite match_step; [|done|apply GetOp2_opcode; unfold OP_1, OP_PUSHDATA4; lia
    |apply GetOp2_opcode; done|done|done|done|by apply small_opcode]. cbn [op_rest].
  erewrite match_keys; [|done|unfold OP_1, OP_PUSHDATA4; lia|apply GetOp2_opcode; done|done
    |by apply small_opcode]. cbn [op_rest].
  by erewrite match_step; [|done|apply GetOp2_opcode; done|apply GetOp2_opcode; done|done..].
Qed.

Lemma match_fail fuel b rest op tpl sols :
  OP_PUSHDATA4 < b → OP_PUSHDATA4 < op → op ≠ OP_PUBKEYS →
  (∀ r1 r2, match_instr (OpResult true b [] r1) (OpResult true op [] r2) sols = None) →
  match_template fuel (b :: rest) (op :: tpl) sols = None.
Proof.
  intros Hb Hop Hk%Z.eqb_neq Hm. destruct fuel as [|fuel]; [done|]. cbn [match_template].
  rewrite !GetOp2_opcode by done. cbn [op_ok negb orb op_code]. rewrite Hk. cbv iota.
  by rewrite Hm.
Qed.

Lemma Solver_multisig m keys script :
  1 ≤ m ≤ size keys → size keys ≤ 16 → Forall key_bytes keys →
  GetScriptForMultisig m keys = Some script →
  Solver script = Some (true, TX_MULTISIG, [m] :: (Raw <$> keys) ++ [[size keys]]).
Proof.
  intros Hm Hn Hks Hs. unfold GetScriptForMultisig in Hs.
  rewrite swrap_small, !EncodeOP_N_pos in Hs by (unfold sfits; lia). cbn in Hs. injection Hs as <-.
  destruct keys as [|k keys]; [unfold size in *; simpl in *; lia|].
  pose proof (match_multisig m (size (k :: keys)) k keys ltac:(lia) ltac:(lia) Hks) as Hmatch.
  set (rest := flat_map _ _ ++ _) in *. set (b := OP_1 + m - 1) in *.
  assert (81 ≤ b ≤ 96) as Hb by (unfold b, OP_1; lia).
  unfold Solver. replace (IsPayToScriptHash (b :: rest)) with false
    by (unfold IsPayToScriptHash, OP_HASH160; cbn [nth]; lia).
  replace (IsZerocoinMint (b :: rest)) with false
    by (unfold IsZerocoinMint, OP_ZEROCOINMINT; cbn [nth]; lia).
  replace (nth 0 (b :: rest) 0 =? OP_RETURN) with false by (unfold OP_RETURN; cbn [nth]; lia).
  rewrite andb_false_r. cbn [andb]. unfold mTemplates. cbn [scan_templates length].
  rewrite match_fail by (done || (unfold OP_PUSHDATA4; lia)).
  rewrite match_fail; [|unfold OP_PUSHDATA4; lia|done|done|]; cycle 1.
  { intros. unfold match_instr, OP_DUP. cbn [op_code].
    change (0x76 =? OP_PUBKEY) with false. change (0x76 =? OP_PUBKEYHASH) with false.
    change (0x76 =? OP_SMALLINTEGER) with false. by replace (b =? 0x76) with false by lia. }
  rewrite Hmatch, decide_True by done. pose proof (length_fmap Raw (k :: keys)) as Hlen.
  generalize dependent (Raw <$> k :: keys). intros vs _ Hlen. rewrite app_comm_cons, last_last. cbn [nth app].
  replace (size ([m] :: vs ++ [[size (k :: keys)]]) - 2) with (size (k :: keys))
    by (unfold size; cbn [length]; rewrite length_app, Hlen; cbn [length]; lia).
  by replace ((m <? 1) || _ || _ || _) with false by lia.
Qed.

(** ** Properties *)

(** For every 20-byte hash the script built for the key or script
    destination is recognised as exactly that destination. *)
Theorem destination_roundtrip `{HashFunctions} h :
  size h = 20 →
  ExtractDestination (GetScriptForDestination (CKeyID h)) = Some (Some (CKeyID h)) ∧
  ExtractDestination (GetScriptForDestination (CScriptID h)) = Some (Some (CScriptID h)) ∧
  ExtractDestinations (GetScriptForDestination (CKeyID h)) =
    Some (Some (TX_PUBKEYHASH, [CKeyID h], 1)) ∧
  ExtractDestinations (GetScriptForDestination (CScriptID h)) =
    Some (Some (TX_SCRIPTHASH, [CScriptID h], 1)).
Proof.
  intros Hh. unfold ExtractDestinations, ExtractDestination.
  by rewrite Solver_keyid, Solver_scriptid by done.
Qed.

#[local] Instance null_hashes : HashFunctions :=
  {| RIPEMD160 := λ _, repeat 0 20; SHA1 := λ _, repeat 0 20; SHA256 := λ _, repeat 0 32 |}.

Lemma destination_roundtrip_witness :
  size (repeat 7 20) = 20 ∧
  ExtractDestination (GetScriptForDestination (CKeyID (repeat 7 20))) = Some (Some (CKeyID (repeat 7 20))).
Proof. split; [reflexivity|]. apply (destination_roundtrip (repeat 7 20)). reflexivity. Defined.

(** For 1 to 16 keys of 33 to 65 bytes and 1 <= m <= n the multisignature
    script exists and the solver recovers m, the keys in order and n; it is
    standard exactly when n <= 3. *)
Theorem multisig_solved m keys :
  1 ≤ m ≤ size keys → size keys ≤ 16 → Forall key_bytes keys →
  ∃ script, GetScriptForMultisig m keys = Some script ∧
    Solver script = Some (true, TX_MULTISIG, [m] :: (Raw <$> keys) ++ [[size keys]]) ∧
    ∀ datacarrier nMax, IsStandard datacarrier nMax script = Some (size keys <=? 3, TX_MULTISIG).
Proof.
  intros Hm Hn Hks. assert (∃ s, GetScriptForMultisig m keys = Some s) as [s Hs].
  { unfold GetScriptForMultisig. rewrite swrap_small, !EncodeOP_N_pos by (unfold sfits; lia).
    eexists. reflexivity. }
  pose proof (Solver_multisig m keys s Hm Hn Hks Hs) as Hsol. exists s. split; [done|]. split; [done|].
  intros dc nMax. unfold IsStandard. rewrite Hsol. cbn [mbind option_bind negb].
  rewrite decide_True by done. rewrite app_comm_cons, last_last. cbn [nth app].
  destruct (_ || _) eqn:E1; [f_equal; f_equal; lia|].
  replace ((m <? 1) || (size keys <? m)) with false by lia. f_equal. f_equal. lia.
Qed.

Lemma multisig_solved_witness :
  ∃ script, GetScriptForMultisig 1 [CPubKey_of (2 :: repeat 5 32); CPubKey_of (3 :: repeat 6 32)] = Some script.
Proof.
  destruct (multisig_solved 1 [CPubKey_of (2 :: repeat 5 32); CPubKey_of (3 :: repeat 6 32)])
    as (s & Hs & _); [unfold size; simpl; lia|unfold size; simpl; lia| |by exists s].
  repeat constructor.
Defined.

(** The solver is total except on the one-byte zerocoin mint script: every
    other script is classified. *)
Theorem Solver_total s :
  is_Some (Solver s) ↔ s ≠ [OP_ZEROCOINMINT].
Proof.
  unfold Solver. split.
  - intros [x Hx] ->. by vm_compute in Hx.
  - intros Hs. repeat case_match; eauto. exfalso. apply Hs.
    destruct s as [|b [|b' s]]; [discriminate| |unfold size in *; cbn [length] in *; lia].
    unfold IsZerocoinMint in *. cbn [nth] in *. f_equal. lia.
Qed.
