(* ===== verification/InterpreterProps.v ===== *)
(** Properties of script verification: flags only restrict, standard payments
    verify exactly as intended, provably unspendable outputs, and the multi-
    signature loop. *)

From S2P Require Import Prelude Script ScriptFacts PubKey Interpreter InterpreterFacts Standard.

(** ** Flags only restrict *)

(** [r'] succeeds whenever [r] does, with the same value. *)
Definition le_res {A} (r r' : result A) : Prop := ∀ a, r = Ok a → r' = Ok a.

#[export] Instance le_res_refl {A} : Reflexive (@le_res A).
Proof. by intros r a. Qed.

Lemma le_err {A} e (r : result A) : le_res (Err e) r.
Proof. by intros a. Qed.

Lemma le_bind {A B} (r r' : result A) (f f' : A → result B) :
  le_res r r' → (∀ a, le_res (f a) (f' a)) → le_res (r ≫= f) (r' ≫= f').
Proof. intros Hr Hf b. destruct r as [a| |]; [|done..]. rewrite (Hr a); [apply Hf|done]. Qed.

(** A check that is made on the left only. *)
Lemma le_check {A B} (r : result A) a0 (f f' : A → result B) :
  (∀ a, le_res (f a) (f' a0)) → le_res (r ≫= f) (Ok a0 ≫= f').
Proof. intros Hf b. destruct r as [a| |]; [|done..]. apply Hf. Qed.

(** Set inclusion of flag words. *)
Definition flags_sub (F' F : Z) : Prop := Z.land F' F = F'.

Lemma flags_sub_has F' F m : flags_sub F' F → has_flag F m = false → has_flag F' m = false.
Proof.
  unfold flags_sub, has_flag. intros HF Hm. apply negb_false_iff, Z.eqb_eq in Hm.
  rewrite <-HF, <-Z.land_assoc, Hm, Z.land_0_r. done.
Qed.

Section flags.
Context `{HashFunctions} `{BaseSignatureChecker}.
Context (F' F : Z) (HF : flags_sub F' F).

(** Case analysis on a flag: off in both, on only in [F], on in both. *)
Ltac flag m :=
  let E := fresh in
  destruct (has_flag F m) eqn:E;
  [destruct (has_flag F' m) | rewrite (flags_sub_has F' F m HF E)].

Lemma script_num_mono v : le_res (script_num v (fRequireMinimal F)) (script_num v (fRequireMinimal F')).
Proof.
  unfold fRequireMinimal. flag SCRIPT_VERIFY_MINIMALDATA; try done.
  unfold script_num. rewrite !of_vch_eq. unfold vch_number. intros n. destruct (_ <? _); [done|].
  simpl. by destruct (_ && _ && _).
Qed.

Lemma check_encodings_mono sig pk : le_res (check_encodings sig pk F) (check_encodings sig pk F').
Proof.
  unfold check_encodings, CheckSignatureEncoding, CheckPubKeyEncoding. apply le_bind.
  - destruct (size sig =? 0); [done|].
    assert (∀ b (k k' : result unit), le_res k k' →
      le_res (if negb b then Err SCRIPT_ERR_SIG_DER else k) k') as Hif by (intros [|] k k' Hk; [done|apply le_err]).
    flag (Z.lor (Z.lor SCRIPT_VERIFY_DERSIG SCRIPT_VERIFY_LOW_S) SCRIPT_VERIFY_STRICTENC);
      [apply le_bind; [done|]; intros [|]; [|done]|apply le_check; intros a; apply Hif|apply le_bind; [done|]; intros [|]; [|done]];
      cbn [negb]; (flag SCRIPT_VERIFY_LOW_S; [apply le_bind; [done|]|apply le_check|apply le_bind; [done|]]; intros _);
      (flag SCRIPT_VERIFY_STRICTENC; [done|apply le_check; intros [|]; [done|apply le_err]|done]).
  - intros _. flag SCRIPT_VERIFY_STRICTENC; [done|apply le_check; intros [|]; [done|apply le_err]|done].
Qed.

Lemma multisig_loop_mono code sigs keys :
  le_res (multisig_loop F code sigs keys) (multisig_loop F' code sigs keys).
Proof.
  revert sigs. induction keys as [|k keys IH]; intros [|s sigs]; try done. cbn [multisig_loop].
  apply le_bind; [apply check_encodings_mono|]. intros _. cbv zeta.
  destruct (_ <? _)%nat; [done|apply IH].
Qed.

Lemma op_checkmultisig_mono op n code st :
  le_res (op_checkmultisig op F n code st) (op_checkmultisig op F' n code st).
Proof.
  unfold op_checkmultisig. destruct (size st <? 1); [done|].
  apply le_bind; [done|]. intros vch. apply le_bind; [apply script_num_mono|]. intros bn. cbv zeta.
  destruct (_ || _); [done|]. destruct (201 <? _); [done|]. destruct (size st <? _); [done|].
  apply le_bind; [done|]. intros vch2. apply le_bind; [apply script_num_mono|]. intros bn2. cbv zeta.
  destruct (_ || _); [done|]. destruct (size st <? _); [done|].
  apply le_bind; [apply multisig_loop_mono|]. intros fS. unfold multisig_finish.
  destruct (drop _ st) as [|d st']; [done|].
  flag SCRIPT_VERIFY_NULLDUMMY; simpl; try done. destruct (negb _); [apply le_err|done].
Qed.

Lemma stack_op_mono op f :
  stack_op F op = Some f → ∃ f', stack_op F' op = Some f' ∧ ∀ st, le_res (f st) (f' st).
Proof.
  unfold stack_op. repeat case_match; intros; simplify_eq; eexists; (split; [done|]); try done.
  intros st. unfold op_pick_roll. destruct (length st <? 2)%nat; [done|]. destruct st; [done|].
  apply le_bind; [apply script_num_mono|]. intros bn. done.
Qed.

Lemma stack_op_None op : stack_op F op = None → stack_op F' op = None.
Proof. unfold stack_op. by repeat case_match. Qed.

Lemma numeric_op_mono op f :
  numeric_op F op = Some f → ∃ f', numeric_op F' op = Some f' ∧ ∀ st, le_res (f st) (f' st).
Proof.
  unfold numeric_op. repeat case_match; intros; simplify_eq; eexists; (split; [done|]); intros st.
  - destruct st; [done|]. apply le_bind; [apply script_num_mono|done].
  - destruct st as [|? [|? st]]; [done..|]. apply le_bind; [apply script_num_mono|]. intros ?.
    apply le_bind; [apply script_num_mono|done].
  - destruct st as [|? [|? [|? st]]]; [done..|].
    do 3 (apply le_bind; [apply script_num_mono|]; intros ?). done.
Qed.

Lemma numeric_op_None op : numeric_op F op = None → numeric_op F' op = None.
Proof. unfold numeric_op. by repeat case_match. Qed.

Lemma on_stack_mono m f f' : (∀ st, le_res (f st) (f' st)) → le_res (on_stack m f) (on_stack m f').
Proof. intros Hf. apply le_bind; [apply Hf|done]. Qed.

Lemma op_checksig_mono op code st : le_res (op_checksig op F code st) (op_checksig op F' code st).
Proof.
  unfold op_checksig. destruct st as [|pk [|sig st]]; [done..|].
  apply le_bind; [apply check_encodings_mono|done].
Qed.

Lemma eval_op_mono op pc m : le_res (eval_op F op pc m) (eval_op F' op pc m).
Proof.
  unfold eval_op. destruct (_ || _); [done|]. destruct (op =? OP_NOP); [done|].
  destruct (_ && _).
  { by flag SCRIPT_VERIFY_DISCOURAGE_UPGRADABLE_NOPS. }
  destruct (_ || _); [done|]. do 6 (destruct (op =? _); [done|]).
  destruct (stack_op F op) as [f|] eqn:Ef.
  { destruct (stack_op_mono op f Ef) as (f' & -> & Hf). by apply on_stack_mono. }
  rewrite (stack_op_None op Ef).
  destruct (numeric_op F op) as [f|] eqn:Eg.
  { destruct (numeric_op_mono op f Eg) as (f' & -> & Hf). by apply on_stack_mono. }
  rewrite (numeric_op_None op Eg). destruct (_ && _); [done|]. destruct (op =? _); [done|].
  destruct (_ || _); [apply on_stack_mono; apply op_checksig_mono|].
  destruct (_ || _); [|done]. apply le_bind; [apply op_checkmultisig_mono|done].
Qed.

Lemma eval_instr_mono r m : le_res (eval_instr F r m) (eval_instr F' r m).
Proof.
  unfold eval_instr. destruct (negb _); [done|]. destruct (_ <? _); [done|]. cbv zeta.
  destruct (_ && _); [done|]. destruct (is_disabled _); [done|].
  apply le_bind; [|done]. destruct (_ && _ && _).
  - unfold fRequireMinimal. flag SCRIPT_VERIFY_MINIMALDATA; try done.
    apply le_check. intros [|]; [done|apply le_err].
  - destruct (_ || _); [apply eval_op_mono|done].
Qed.

Lemma eval_loop_mono fuel pc m : le_res (eval_loop F fuel pc m) (eval_loop F' fuel pc m).
Proof.
  revert pc m. induction fuel as [|fuel IH]; intros pc m; (destruct pc as [|x pc]; [reflexivity|]).
  - reflexivity.
  - cbn [eval_loop]. apply le_bind; [apply eval_instr_mono|]. intros m'. apply IH.
Qed.

Lemma EvalScript_mono st script : le_res (EvalScript F st script) (EvalScript F' st script).
Proof.
  unfold EvalScript. destruct (_ <? _); [done|]. apply le_bind; [apply eval_loop_mono|done].
Qed.

Lemma VerifyScript_mono scriptSig scriptPubKey :
  le_res (VerifyScript F scriptSig scriptPubKey) (VerifyScript F' scriptSig scriptPubKey).
Proof.
  unfold VerifyScript.
  assert (∀ A (r r' : result A), le_res r r' →
    le_res (if has_flag F SCRIPT_VERIFY_SIGPUSHONLY && negb (IsPushOnly scriptSig)
            then Err SCRIPT_ERR_SIG_PUSHONLY else r)
           (if has_flag F' SCRIPT_VERIFY_SIGPUSHONLY && negb (IsPushOnly scriptSig)
            then Err SCRIPT_ERR_SIG_PUSHONLY else r')) as Hpush.
  { intros A r r' Hr. flag SCRIPT_VERIFY_SIGPUSHONLY; simpl; try done; destruct (negb _); done || apply le_err. }
  apply Hpush. apply le_bind; [apply EvalScript_mono|]. intros stackCopy.
  apply le_bind; [apply EvalScript_mono|]. intros [|top st]; [done|].
  destruct (negb (CastToBool top)); [done|].
  flag SCRIPT_VERIFY_P2SH; cbn [andb]; [| |reflexivity];
    (destruct (IsPayToScriptHash scriptPubKey); [|reflexivity]).
  - destruct (negb _); [reflexivity|]. destruct stackCopy; [reflexivity|].
    apply le_bind; [apply EvalScript_mono|]. intros. reflexivity.
  - intros [] _. reflexivity.
Qed.
End flags.

(** ** Running a script instruction by instruction *)

Section run.
Context `{HashFunctions} `{BaseSignatureChecker}.
Context (flags : Z).

Lemma eval_loop_fuel f1 f2 pc m :
  (length pc ≤ f1)%nat → (length pc ≤ f2)%nat → eval_loop flags f1 pc m = eval_loop flags f2 pc m.
Proof.
  revert f2 pc m. induction f1 as [|f1 IH]; intros f2 pc m H1 H2;
    (destruct pc as [|x pc]; [by destruct f2|]); simpl in H1, H2; [lia|].
  destruct f2 as [|f2]; [lia|]. cbn [eval_loop].
  destruct (eval_instr flags (GetOp2 (x :: pc)) m) as [m'| |]; [|reflexivity..].
  cbn [mbind result_bind]. apply IH; pose proof (GetOp2_consumes pc x); lia.
Qed.

Definition run (pc : CScript) (m : machine) : result machine := eval_loop flags (length pc) pc m.

Lemma run_nil m : vfExec m = [] → run [] m = Ok m.
Proof. intros E. unfold run. simpl. by rewrite E. Qed.

Lemma run_step x pc m :
  run (x :: pc) m = (m' ← eval_instr flags (GetOp2 (x :: pc)) m; run (op_rest (GetOp2 (x :: pc))) m').
Proof.
  unfold run at 1. cbn [length eval_loop].
  destruct (eval_instr flags (GetOp2 (x :: pc)) m) as [m'| |]; [|reflexivity..].
  cbn [mbind result_bind]. apply eval_loop_fuel; [apply GetOp2_consumes|done].
Qed.

Lemma EvalScript_run st script :
  size script ≤ 10000 →
  EvalScript flags st script = (m ← run script (Machine st [] [] script 0); Ok (stack m)).
Proof. intros Hs. unfold EvalScript. by replace (10000 <? size script) with false by lia. Qed.

Lemma minimal_push b : 2 ≤ size b → CheckMinimalPush b (push_opcode (size b)) = Ok true.
Proof.
  intros Hb. unfold CheckMinimalPush, push_opcode, OP_PUSHDATA1, OP_PUSHDATA2, OP_PUSHDATA4.
  replace (size b =? 0) with false by lia. replace (size b =? 1) with false by lia.
  cbn [mbind result_bind]. destruct (Z.ltb_spec (size b) 0x4c).
  - replace (size b <=? 75) with true by lia. by rewrite Z.eqb_refl.
  - replace (size b <=? 75) with false by lia. destruct (size b <=? 255); [done|].
    by destruct (size b <=? 65535).
Qed.

Lemma push_opcode_bound n : 0 ≤ n → 0 ≤ push_opcode n ≤ OP_PUSHDATA4.
Proof.
  intros. unfold push_opcode, OP_PUSHDATA1, OP_PUSHDATA2, OP_PUSHDATA4.
  destruct (Z.ltb_spec n 0x4c); [lia|]. destruct (n <=? 255); [lia|]. destruct (n <=? 65535); lia.
Qed.

Lemma low_opcode_enabled op : op ≤ OP_PUSHDATA4 → is_disabled op = false.
Proof.
  intros Hop. unfold is_disabled. cbn [existsb].
  unfold OP_PUSHDATA4, OP_CAT, OP_SUBSTR, OP_LEFT, OP_RIGHT, OP_INVERT, OP_AND, OP_OR, OP_XOR, OP_2MUL,
    OP_2DIV, OP_MUL, OP_DIV, OP_MOD, OP_LSHIFT, OP_RSHIFT in *. lia.
Qed.

(** A data push of at least two bytes. *)
Lemma run_push b rest m :
  2 ≤ size b ≤ 520 → fExec m = true → size (stack m) + size (altstack m) < 1000 →
  run (push_data b ++ rest) m = run rest (set_stack m (b :: stack m)).
Proof.
  intros Hb Hx Hsz. pose proof (GetOp2_push b rest ltac:(lia)) as Hop.
  destruct (push_data b ++ rest) as [|x pc] eqn:Epc; [discriminate|].
  rewrite run_step, Hop. unfold eval_instr. cbn [op_ok op_vch op_code op_rest negb].
  pose proof (push_opcode_bound (size b) ltac:(lia)) as [Hop1 Hop2].
  replace (MAX_SCRIPT_ELEMENT_SIZE <? size b) with false by (unfold MAX_SCRIPT_ELEMENT_SIZE; lia).
  replace (OP_16 <? push_opcode (size b)) with false
    by (unfold OP_16, OP_PUSHDATA4 in *; lia). cbn [andb].
  rewrite low_opcode_enabled, Hx, minimal_push by (done || lia).
  replace (0 <=? push_opcode (size b)) with true by lia.
  replace (push_opcode (size b) <=? OP_PUSHDATA4) with true by lia.
  cbn [andb]. replace (if fRequireMinimal flags then Ok true else Ok true) with (@Ok bool true) by (by destruct (fRequireMinimal flags)).
  cbn [negb mbind result_bind stack altstack set_stack]. rewrite size_cons. by replace (1000 <? size (stack m) + 1 + size (altstack m)) with false by lia.
Qed.

(** A one-byte opcode that is counted, executed, and not disabled. *)
Lemma run_opcode op pc m :
  OP_16 < op → is_disabled op = false → fExec m = true → nOpCount m < 201 →
  run (op :: pc) m =
    (m' ← eval_op flags op pc (Machine (stack m) (altstack m) (vfExec m) (pbegincodehash m) (nOpCount m + 1));
     if 1000 <? size (stack m') + size (altstack m') then Err SCRIPT_ERR_STACK_SIZE else run pc m').
Proof.
  intros Hop Hd Hx Hn. rewrite run_step.
  assert (GetOp2 (op :: pc) = OpResult true op [] pc) as ->.
  { unfold OP_16 in Hop. simpl. unfold OP_PUSHDATA4. by replace (op <=? 78) with false by lia. }
  unfold eval_instr. cbn [op_ok op_vch op_code op_rest negb].
  replace (OP_16 <? op) with true by lia. cbn [andb nOpCount].
  change (MAX_SCRIPT_ELEMENT_SIZE <? size []) with false.
  replace (201 <? nOpCount m + 1) with false by lia. rewrite Hd. cbv iota.
  replace (op <=? OP_PUSHDATA4) with false by (unfold OP_16, OP_PUSHDATA4 in *; lia).
  rewrite andb_false_r. set (m1 := Machine _ _ _ _ _).
  change (fExec m1) with (fExec m). rewrite Hx. cbn [orb].
  destruct (eval_op flags op pc m1) as [m'| |]; [|reflexivity..]. cbn [mbind result_bind].
  by destruct (1000 <? _).
Qed.

(** ** Pay to public key hash *)

Lemma eval_OP_DUP pc m : eval_op flags OP_DUP pc m = on_stack m op_dup.
Proof. reflexivity. Qed.
Lemma eval_OP_HASH160 pc x st alt vf code n :
  eval_op flags OP_HASH160 pc (Machine (x :: st) alt vf code n) = Ok (Machine (Hash160 x :: st) alt vf code n).
Proof. reflexivity. Qed.
Lemma eval_OP_EQUALVERIFY pc m : eval_op flags OP_EQUALVERIFY pc m = on_stack m (op_equal OP_EQUALVERIFY).
Proof. reflexivity. Qed.
Lemma eval_OP_EQUAL pc m : eval_op flags OP_EQUAL pc m = on_stack m (op_equal OP_EQUAL).
Proof. reflexivity. Qed.
Lemma eval_OP_CHECKSIG pc m :
  eval_op flags OP_CHECKSIG pc m = on_stack m (op_checksig OP_CHECKSIG flags (pbegincodehash m)).
Proof. reflexivity. Qed.

(** The outcome of checking a signature against a key, as a final verdict. *)
Definition sig_verdict (sig pk : valtype) (scriptCode : CScript) : result unit :=
  _ ← check_encodings sig pk flags;
  if CheckSig sig pk scriptCode then Ok tt else Err SCRIPT_ERR_EVAL_FALSE.

Lemma run_scriptSig sig pk :
  2 ≤ size sig ≤ 520 → 2 ≤ size pk ≤ 520 →
  EvalScript flags [] (push_data sig ++ push_data pk) = Ok [pk; sig].
Proof.
  intros Hs Hp.
  pose proof (size_push_data sig). pose proof (size_push_data pk).
  rewrite EvalScript_run by (rewrite size_app; lia).
  rewrite run_push by done. cbn [stack set_stack].
  rewrite <-(app_nil_r (push_data pk)) at 1. rewrite run_push; [|done|done|].
  - cbn [stack set_stack]. by rewrite run_nil.
  - cbn [stack altstack set_stack]. rewrite size_cons. unfold size. simpl. lia.
Qed.

Lemma run_p2pkh h pk sig m :
  size h = 20 → stack m = [pk; sig] → altstack m = [] → vfExec m = [] → nOpCount m = 0 →
  run (GetScriptForDestination (CKeyID h)) m =
    if bool_decide (Hash160 pk = h)
    then _ ← check_encodings sig pk flags;
         Ok (Machine [bool_vch (CheckSig sig pk (snd (FindAndDelete (pbegincodehash m) (push_data sig))))]
               [] [] (pbegincodehash m) 4)
    else Err SCRIPT_ERR_EQUALVERIFY.
Proof.
  intros Hh Hst Halt Hv Hn. destruct m as [st alt vf code n]. simpl in *. subst.
  cbn [GetScriptForDestination app]. rewrite run_opcode, eval_OP_DUP by done.
  cbn [on_stack op_dup stack altstack mbind result_bind set_stack vfExec pbegincodehash nOpCount].
  change (1000 <? size [pk; pk; sig] + size []) with false. cbv iota.
  rewrite run_opcode by done. cbn [stack altstack vfExec pbegincodehash nOpCount set_stack].
  rewrite eval_OP_HASH160. cbn [mbind result_bind stack altstack].
  change (1000 <? size [_; pk; sig] + size []) with false. cbv iota.
  rewrite run_push by (done || lia). cbn [stack set_stack].
  rewrite run_opcode, eval_OP_EQUALVERIFY by done.
  cbn [on_stack op_equal stack altstack mbind result_bind set_stack vfExec pbegincodehash nOpCount].
  change (OP_EQUALVERIFY =? OP_EQUALVERIFY) with true. cbv iota.
  destruct (bool_decide (Hash160 pk = h)); [|reflexivity]. cbn [mbind result_bind stack altstack].
  change (1000 <? size [pk; sig] + size []) with false. cbv iota.
  rewrite run_opcode, eval_OP_CHECKSIG by done.
  cbn [on_stack op_checksig stack altstack mbind result_bind set_stack vfExec pbegincodehash nOpCount].
  destruct (check_encodings sig pk flags) as [[]| |]; [|reflexivity..]. cbn [mbind result_bind].
  change (OP_CHECKSIG =? OP_CHECKSIGVERIFY) with false. cbv iota. cbn [mbind result_bind stack altstack].
  change (1000 <? size [_] + size []) with false. cbv iota. by rewrite run_nil.
Qed.

(** The verdict on the stack a script leaves. *)
Definition final_verdict (r : result (list valtype)) : result unit :=
  st ← r;
  match st with
  | [] => Err SCRIPT_ERR_EVAL_FALSE
  | top :: _ => if negb (CastToBool top) then Err SCRIPT_ERR_EVAL_FALSE else Ok tt
  end.

Lemma size_p2pkh h : size h = 20 → size (GetScriptForDestination (CKeyID h)) = 25.
Proof.
  intros Hh. cbn [GetScriptForDestination app]. rewrite !size_cons, size_app. unfold push_data.
  rewrite Hh. change (20 <? OP_PUSHDATA1) with true. cbv iota. rewrite size_cons, Hh. reflexivity.
Qed.

Lemma size_p2sh h : size h = 20 → size (GetScriptForDestination (CScriptID h)) = 23.
Proof.
  intros Hh. cbn [GetScriptForDestination app]. rewrite !size_cons, size_app. unfold push_data.
  rewrite Hh. change (20 <? OP_PUSHDATA1) with true. cbv iota. rewrite size_cons, Hh. reflexivity.
Qed.

Lemma push_data_20 h : size h = 20 → push_data h = 0x14 :: h.
Proof. intros Hh. unfold push_data. by rewrite Hh. Qed.

Lemma p2sh_IsPayToScriptHash h : size h = 20 → IsPayToScriptHash (GetScriptForDestination (CScriptID h)) = true.
Proof.
  intros Hh. unfold IsPayToScriptHash. rewrite size_p2sh by done.
  cbn [GetScriptForDestination app]. rewrite push_data_20 by done.
  unfold size in Hh. assert (length h = 20%nat) as Hl by lia.
  do 20 (destruct h as [|? h]; [done|]). by destruct h.
Qed.

(** Removing a signature from the script it signs: nothing happens unless the
    signature equals the key hash. *)
Lemma FindAndDelete_p2pkh h sig :
  size h = 20 → 2 ≤ size sig < 2 ^ 32 → sig ≠ h →
  FindAndDelete (GetScriptForDestination (CKeyID h)) (push_data sig) =
    (0, GetScriptForDestination (CKeyID h)).
Proof.
  intros Hh Hs Hne.
  assert (push_data sig ≠ []) as Hpd.
  { pose proof (size_push_data sig). intros E. rewrite E, size_nil in *. lia. }
  assert (∀ op pc r, OP_PUSHDATA4 < op → op :: pc ≠ push_data sig ++ r) as Hop.
  { intros op pc r Hgt E. pose proof (GetOp2_push sig r ltac:(lia)) as Hg. rewrite <-E in Hg.
    pose proof (push_opcode_bound (size sig) ltac:(lia)). simpl in Hg.
    unfold OP_PUSHDATA4 in *. replace (op <=? 78) with false in Hg by lia. simplify_eq/=. }
  assert (∀ op pc, OP_PUSHDATA4 < op → GetOp2 (op :: pc) = OpResult true op [] pc) as Hget.
  { intros op pc Hgt. simpl. unfold OP_PUSHDATA4 in *. by replace (op <=? 78) with false by lia. }
  assert (∀ op pc, OP_PUSHDATA4 < op → FindAndDelete pc (push_data sig) = (0, pc) →
    FindAndDelete (op :: pc) (push_data sig) = (0, op :: pc)) as Hkeep.
  { intros op pc Hgt E. rewrite FindAndDelete_keep by auto. rewrite (Hget op pc Hgt).
    cbn [op_ok op_rest]. rewrite E. f_equal. cbn [length].
    by replace (S (length pc) - length pc)%nat with 1%nat by lia. }
  cbn [GetScriptForDestination app]. do 2 (apply Hkeep; [done|]).
  rewrite FindAndDelete_keep; [|done|].
  - rewrite GetOp2_push by lia. cbn [op_ok op_rest].
    assert (FindAndDelete [OP_EQUALVERIFY; OP_CHECKSIG] (push_data sig) = (0, [OP_EQUALVERIFY; OP_CHECKSIG])) as ->.
    { do 2 (apply Hkeep; [done|]). rewrite FindAndDelete_keep; [done|done|].
      intros r E. by destruct (push_data sig). }
    f_equal. rewrite length_app, Nat.add_sub. by rewrite take_app_length.
  - intros r E. pose proof (GetOp2_push h [OP_EQUALVERIFY; OP_CHECKSIG] ltac:(lia)) as H1.
    rewrite E, GetOp2_push in H1 by lia. by simplify_eq.
Qed.

(** A spend of a public-key-hash output with a signature and a key. *)
Lemma verify_p2pkh h sig pk :
  size h = 20 → 2 ≤ size sig ≤ 520 → 2 ≤ size pk ≤ 520 → sig ≠ h →
  IsPushOnly (push_data sig ++ push_data pk) = true →
  VerifyScript flags (push_data sig ++ push_data pk) (GetScriptForDestination (CKeyID h)) =
    if bool_decide (Hash160 pk = h)
    then sig_verdict sig pk (GetScriptForDestination (CKeyID h)) else Err SCRIPT_ERR_EQUALVERIFY.
Proof.
  intros Hh Hs Hp Hne Hpush. unfold VerifyScript. rewrite Hpush, andb_false_r.
  rewrite run_scriptSig by done. cbn [mbind result_bind].
  pose proof (size_p2pkh h Hh) as Hsz.
  rewrite (EvalScript_run [pk; sig]), (run_p2pkh h pk sig) by (done || lia). cbn [pbegincodehash].
  rewrite FindAndDelete_p2pkh by (done || lia). cbn [snd].
  destruct (bool_decide (Hash160 pk = h)); [|reflexivity]. unfold sig_verdict.
  destruct (check_encodings sig pk flags) as [[]| |]; [|reflexivity..]. cbn [mbind result_bind stack].
  assert (IsPayToScriptHash (GetScriptForDestination (CKeyID h)) = false) as ->
    by (unfold IsPayToScriptHash; by rewrite Hsz).
  rewrite andb_false_r. by destruct (CheckSig _ _ _).
Qed.

Lemma IsPushOnly_pushes a b : size a < 2 ^ 32 → size b < 2 ^ 32 → IsPushOnly (push_data a ++ push_data b) = true.
Proof.
  intros Ha Hb. unfold IsPushOnly.
  pose proof (GetOp2_push a (push_data b) Ha) as Ea. pose proof (GetOp2_push b [] Hb) as Eb.
  rewrite app_nil_r in Eb.
  pose proof (push_opcode_bound (size a) (size_nonneg a)) as Ba.
  pose proof (push_opcode_bound (size b) (size_nonneg b)) as Bb.
  assert (∀ f pc r, pc ≠ [] → (length pc ≤ f)%nat → GetOp2 pc = r → op_ok r = true → op_code r ≤ OP_PUSHDATA4 →
    push_only_loop f pc = push_only_loop (f - 1) (op_rest r)) as Hstep.
  { intros f pc r Hpc Hf Hr Hok Hc. destruct pc as [|x pc]; [done|]. destruct f as [|f]; [simpl in Hf; lia|].
    cbn [push_only_loop]. rewrite Hr, Hok. cbn [negb]. unfold OP_16, OP_PUSHDATA4 in *.
    replace (0x60 <? op_code r) with false by lia. by rewrite Nat.sub_succ, Nat.sub_0_r. }
  pose proof (size_push_data a). pose proof (size_push_data b).
  assert (0 < length (push_data a) ∧ 0 < length (push_data b))%nat as [La Lb]
    by (unfold size in *; lia).
  rewrite (Hstep _ _ _ ltac:(intros E; rewrite E in Ea; done) (Nat.le_refl _) Ea eq_refl) by (cbn [op_code]; lia).
  cbn [op_rest]. rewrite length_app.
  rewrite (Hstep (length (push_data a) + length (push_data b) - 1)%nat (push_data b) _
    ltac:(intros E; rewrite E in Lb; simpl in Lb; lia) ltac:(lia) Eb eq_refl) by (cbn [op_code]; lia).
  cbn [op_rest]. by destruct (_ - 1 - 1)%nat.
Qed.

(** A spend of a script-hash output: the redeem script on top of the stack. *)
Lemma verify_p2sh h scriptSig redeem rest :
  has_flag flags SCRIPT_VERIFY_P2SH = true → size h = 20 → IsPushOnly scriptSig = true →
  EvalScript flags [] scriptSig = Ok (redeem :: rest) → size rest < 998 →
  VerifyScript flags scriptSig (GetScriptForDestination (CScriptID h)) =
    if bool_decide (Hash160 redeem = h) then final_verdict (EvalScript flags rest redeem)
    else Err SCRIPT_ERR_EVAL_FALSE.
Proof.
  intros HF Hh Hpush Hsig Hrest. unfold VerifyScript. rewrite Hpush, andb_false_r, Hsig, HF.
  cbn [mbind result_bind]. rewrite p2sh_IsPayToScriptHash by done.
  rewrite (EvalScript_run (redeem :: rest)) by (rewrite size_p2sh by done; lia).
  set (code := GetScriptForDestination (CScriptID h)). unfold code at 1. cbn [GetScriptForDestination app].
  rewrite run_opcode by done. cbn [stack altstack vfExec pbegincodehash nOpCount].
  rewrite eval_OP_HASH160. cbn [mbind result_bind stack altstack]. rewrite size_cons, size_nil.
  replace (1000 <? size rest + 1 + 0) with false by lia.
  rewrite run_push; [|lia|done|cbn [stack altstack]; rewrite size_cons, size_nil; lia].
  cbn [stack set_stack]. rewrite run_opcode, eval_OP_EQUAL by done.
  cbn [on_stack op_equal stack altstack mbind result_bind set_stack vfExec pbegincodehash nOpCount].
  change (OP_EQUAL =? OP_EQUALVERIFY) with false. cbv iota. cbn [mbind result_bind stack altstack set_stack].
  rewrite size_cons, size_nil. replace (1000 <? size rest + 1 + 0) with false by lia.
  rewrite run_nil by done. cbn [mbind result_bind stack].
  destruct (bool_decide (Hash160 redeem = h)); reflexivity.
Qed.

(** ** Provably unspendable outputs *)

Lemma unspendable_fails st script : IsUnspendable script = true → ∀ st', EvalScript flags st script ≠ Ok st'.
Proof.
  unfold IsUnspendable. intros Hu st'. destruct script as [|op script]; [done|].
  apply andb_true_iff in Hu as [_ Hop%Z.eqb_eq]. cbn [nth] in Hop. subst op.
  unfold EvalScript. destruct (10000 <? _); [done|]. cbn [length eval_loop]. done.
Qed.
End run.

(** ** Multisignatures *)

Section multisig.
Context `{BaseSignatureChecker}.
Context (flags : Z) (scriptCode : CScript).

(** Each signature verifies under its own key, the keys taken in order. *)
Definition matches (sigs keys : list valtype) : Prop :=
  ∃ ks, sublist ks keys ∧ Forall2 (λ s k, CheckSig s k scriptCode = true) sigs ks.

Lemma matches_nil keys : matches [] keys.
Proof. exists []. split; [apply sublist_nil_l|constructor]. Qed.

Lemma matches_length sigs keys : matches sigs keys → (length sigs ≤ length keys)%nat.
Proof. intros (ks & Hs & H2). rewrite (Forall2_length _ _ _ H2). by apply sublist_length. Qed.

Lemma matches_skip s sigs k keys :
  CheckSig s k scriptCode = false → matches (s :: sigs) (k :: keys) ↔ matches (s :: sigs) keys.
Proof.
  intros Hc. split; intros (ks & Hs & H2).
  - apply Forall2_cons_inv_l in H2 as (k' & ks' & Hk & H2 & ->).
    apply sublist_cons_r in Hs as [Hs|(l & E & Hs)]; [by exists (k' :: ks'); split; [|constructor]|].
    simplify_eq. congruence.
  - exists ks. split; [by apply sublist_cons|done].
Qed.

Lemma matches_take s sigs k keys :
  CheckSig s k scriptCode = true → matches (s :: sigs) (k :: keys) ↔ matches sigs keys.
Proof.
  intros Hc. split; intros (ks & Hs & H2).
  - apply Forall2_cons_inv_l in H2 as (k' & ks' & Hk & H2 & ->). exists ks'. split; [|done].
    apply sublist_cons_r in Hs as [Hs|(l & E & Hs)]; [|by simplify_eq].
    etrans; [apply sublist_cons; reflexivity|exact Hs].
  - exists (k :: ks). split; [by apply sublist_skip|by constructor].
Qed.

(** The greedy loop decides whether such an assignment exists. *)
Lemma multisig_loop_matches sigs keys :
  (∀ s k, s ∈ sigs → k ∈ keys → check_encodings s k flags = Ok tt) →
  ∃ b, multisig_loop flags scriptCode sigs keys = Ok b ∧ (b = true ↔ matches sigs keys).
Proof.
  revert sigs. induction keys as [|k keys IH]; intros [|s sigs] Henc; cbn [multisig_loop].
  - exists true. split; [done|]. split; [intros; apply matches_nil|done].
  - exists false. split; [done|]. split; [done|]. intros Hm%matches_length. simpl in Hm. lia.
  - exists true. split; [done|]. split; [intros; apply matches_nil|done].
  - rewrite Henc by set_solver. cbn [mbind result_bind].
    set (sigs' := if CheckSig s k scriptCode then sigs else s :: sigs).
    assert (matches (s :: sigs) (k :: keys) ↔ matches sigs' keys) as Hiff.
    { subst sigs'. destruct (CheckSig s k scriptCode) eqn:Ec; [by apply matches_take|by apply matches_skip]. }
    setoid_rewrite Hiff. clear Hiff. destruct (Nat.ltb_spec (length keys) (length sigs')).
    + exists false. split; [done|]. split; [done|]. intros Hm%matches_length. lia.
    + apply IH. intros s' k' Hs Hk. apply Henc; [|set_solver]. subst sigs'.
      destruct (CheckSig s k scriptCode); set_solver.
Qed.
End multisig.

Lemma script_num_serialize n f : - 2 ^ 31 < n < 2 ^ 31 → script_num (CScriptNum.serialize n) f = Ok n.
Proof.
  intros Hn. pose proof (of_vch_serialize n Hn) as E. unfold script_num. rewrite of_vch_eq. cbn [or_abort mbind result_bind].
  destruct f; [by rewrite E|]. unfold vch_number in *. destruct (_ <? _); [done|]. destruct (_ && _ && _); [done|].
  injection E as E. simpl. by rewrite E.
Qed.

Lemma getint_small n : - 2 ^ 31 < n < 2 ^ 31 → CScriptNum.getint n = n.
Proof.
  intros. unfold CScriptNum.getint. replace (2 ^ 31 - 1 <? n) with false by lia.
  by replace (n <? - 2 ^ 31) with false by lia.
Qed.

Lemma op_checkmultisig_run `{BaseSignatureChecker} flags n code keys sigs rest :
  let count := CScriptNum.serialize in
  size sigs ≤ size keys ≤ 20 → n + size keys ≤ 201 →
  op_checkmultisig OP_CHECKMULTISIG flags n code
    (count (size keys) :: keys ++ count (size sigs) :: sigs ++ [] :: rest) =
  (b ← multisig_loop flags (foldl (λ c s, snd (FindAndDelete c (push_data s))) code sigs) sigs keys;
   Ok (bool_vch b :: rest, n + size keys)).
Proof.
  intros count Hk Hn. pose proof (size_nonneg sigs) as H0. pose proof (size_nonneg rest) as Hr.
  unfold op_checkmultisig. set (st := count (size keys) :: _).
  assert (size st = size keys + size sigs + 3 + size rest) as Hst.
  { subst st. rewrite size_cons, size_app, size_cons, size_app, size_cons. lia. }
  rewrite !Hst. replace (size keys + size sigs + 3 + size rest <? 1) with false by lia.
  change (st !! 0%nat) with (Some (count (size keys))). unfold count at 1. cbn [or_throw mbind result_bind].
  rewrite script_num_serialize by lia. cbn [mbind result_bind]. rewrite getint_small by lia.
  replace (size keys <? 0) with false by lia. replace (20 <? size keys) with false by lia.
  replace (201 <? n + size keys) with false by lia. cbn [orb].
  replace (_ <? 2 + size keys) with false by lia.
  assert (st !! Z.to_nat (2 + size keys - 1) = Some (count (size sigs))) as ->.
  { subst st. replace (Z.to_nat (2 + size keys - 1)) with (S (length keys)) by (unfold size; lia).
    rewrite <-lookup_tail. cbn [tail]. by rewrite lookup_app_r, Nat.sub_diag by lia. }
  unfold count at 1. cbn [or_throw mbind result_bind]. rewrite script_num_serialize by lia. cbn [mbind result_bind]. rewrite getint_small by lia.
  replace (size sigs <? 0) with false by lia. replace (size keys <? size sigs) with false by lia. cbn [orb].
  replace (_ <? 2 + size keys + 1 + size sigs) with false by lia.
  replace (take (Z.to_nat (size keys)) (drop (Z.to_nat (2 - 1)) st)) with keys
    by (subst st; unfold size; rewrite Nat2Z.id; symmetry; apply take_app_length).
  assert (∀ k, drop (Z.to_nat (2 + size keys + 1 + k - 1)) st = drop (Z.to_nat (2 + size keys + 1 + k - 1) - 2 - length keys) (sigs ++ [] :: rest) ∨ k < 0) as Hdrop.
  { intros k. destruct (Z.lt_ge_cases k 0); [by right|left]. subst st. unfold size.
    replace (Z.to_nat (2 + Z.of_nat (length keys) + 1 + k - 1)) with (S (length keys + S (Z.to_nat k))) by lia.
    cbn [drop]. rewrite <-drop_drop, drop_app_length. cbn [drop]. f_equal. lia. }
  replace (drop (Z.to_nat (2 + size keys + 1 - 1)) st) with (sigs ++ [] :: rest).
  2:{ destruct (Hdrop 0) as [E|]; [|lia]. rewrite Z.add_0_r in E. rewrite E. unfold size.
      by replace (_ - 2 - length keys)%nat with 0%nat by lia. }
  replace (take (Z.to_nat (size sigs)) (sigs ++ [] :: rest)) with sigs
    by (unfold size; rewrite Nat2Z.id; symmetry; apply take_app_length).
  replace (drop (Z.to_nat (2 + size keys + 1 + size sigs - 1)) st) with ([] :: rest).
  2:{ destruct (Hdrop (size sigs)) as [E|]; [|lia]. rewrite E. unfold size.
      replace (_ - 2 - length keys)%nat with (length sigs) by lia. by rewrite drop_app_length. }
  destruct (multisig_loop _ _ _ _) as [b| |]; [|reflexivity..]. cbn [mbind result_bind multisig_finish].
  change (negb (size [] =? 0)) with false. by rewrite andb_false_r.
Qed.

(** ** Properties *)

Section properties.
Context `{HashFunctions} `{BaseSignatureChecker}.

(** C13: verification flags only restrict: a spend that verifies under a set of
    flags verifies under every subset of it, so each flag is soft-fork safe as
    its comment says. *)
Theorem flags_softfork_safe F' F scriptSig scriptPubKey :
  Z.land F' F = F' →
  VerifyScript F scriptSig scriptPubKey = Ok tt → VerifyScript F' scriptSig scriptPubKey = Ok tt.
Proof. intros HF. by apply (VerifyScript_mono F' F HF). Qed.

(** spending a pay-to-public-key-hash output with a signature and a key
    verifies exactly when the key hashes to the committed hash, both pass the
    encoding rules of the flags, and the checker accepts the signature for the
    whole output script; every other case gives the error listed here. *)
Theorem p2pkh_verifies flags h sig pk :
  size h = 20 → 2 ≤ size sig ≤ 520 → 2 ≤ size pk ≤ 520 → sig ≠ h →
  VerifyScript flags (push_data sig ++ push_data pk) (GetScriptForDestination (CKeyID h)) =
    if bool_decide (Hash160 pk = h) then
      match check_encodings sig pk flags with
      | Ok _ => if CheckSig sig pk (GetScriptForDestination (CKeyID h)) then Ok tt
                else Err SCRIPT_ERR_EVAL_FALSE
      | Err e => Err e
      | Abort => Abort
      end
    else Err SCRIPT_ERR_EQUALVERIFY.
Proof.
  intros Hh Hs Hp Hne. rewrite verify_p2pkh; [|done..|apply IsPushOnly_pushes; lia].
  unfold sig_verdict. by destruct (check_encodings sig pk flags).
Qed.

(** spending a pay-to-script-hash output whose redeem script is the last
    push: a redeem script with another hash is refused, and with the right hash
    the verdict is that of running the redeem script on the other pushes. *)
Theorem p2sh_verifies flags h scriptSig redeem rest :
  has_flag flags SCRIPT_VERIFY_P2SH = true → size h = 20 → IsPushOnly scriptSig = true →
  EvalScript flags [] scriptSig = Ok (redeem :: rest) → size rest < 998 →
  VerifyScript flags scriptSig (GetScriptForDestination (CScriptID h)) =
    if bool_decide (Hash160 redeem = h) then
      match EvalScript flags rest redeem with
      | Ok (top :: _) => if CastToBool top then Ok tt else Err SCRIPT_ERR_EVAL_FALSE
      | Ok [] => Err SCRIPT_ERR_EVAL_FALSE
      | Err e => Err e
      | Abort => Abort
      end
    else Err SCRIPT_ERR_EVAL_FALSE.
Proof.
  intros HF Hh Hpush Hsig Hrest. rewrite (verify_p2sh flags h scriptSig redeem rest) by done.
  unfold final_verdict. destruct (EvalScript flags rest redeem) as [[|top st]| |]; try done.
  cbn [mbind result_bind]. by destruct (CastToBool top).
Qed.

(** an output for which [IsUnspendable] answers true fails for every initial
    stack, flag set, checker and hash function, and no scriptSig spends it. *)
Theorem unspendable_never_succeeds flags st script scriptSig :
  IsUnspendable script = true →
  (∀ st', EvalScript flags st script ≠ Ok st') ∧ VerifyScript flags scriptSig script ≠ Ok tt.
Proof.
  intros Hu. split; [by apply unspendable_fails|]. unfold VerifyScript. case_match; [done|].
  destruct (EvalScript flags [] scriptSig) as [st1|e|] eqn:E1; [|done..]. cbn [mbind result_bind].
  destruct (EvalScript flags st1 script) as [st2|e|] eqn:E2; [|done..].
  by apply unspendable_fails in E2.
Qed.

(** C32: OP_CHECKMULTISIG pushes true exactly when the signatures can be assigned,
    in order, to distinct keys under which they verify: the greedy loop never
    misses an assignment.  It consumes its arguments, the counts and the dummy. *)
Theorem checkmultisig_correct flags n code keys sigs rest :
  size sigs ≤ size keys ≤ 20 → n + size keys ≤ 201 →
  (∀ s k, s ∈ sigs → k ∈ keys → check_encodings s k flags = Ok tt) →
  ∃ b,
    op_checkmultisig OP_CHECKMULTISIG flags n code
      (CScriptNum.serialize (size keys) :: keys ++ CScriptNum.serialize (size sigs) :: sigs ++ [] :: rest)
    = Ok (bool_vch b :: rest, n + size keys) ∧
    (b = true ↔ matches (foldl (λ c s, snd (FindAndDelete c (push_data s))) code sigs) sigs keys).
Proof.
  intros Hk Hn Henc. rewrite op_checkmultisig_run by done.
  destruct (multisig_loop_matches flags (foldl (λ c s, snd (FindAndDelete c (push_data s))) code sigs) sigs keys Henc)
    as (b & -> & Hb). by exists b.
Qed.
End properties.

(** Witness data: hashes that return zeros, a checker that compares the first
    bytes of the signature and the key. *)
#[local] Instance zero_hashes : HashFunctions := {
  RIPEMD160 _ := replicate 20 0; SHA1 _ := replicate 20 0; SHA256 _ := replicate 32 0 }.
#[local] Instance first_byte_checker : BaseSignatureChecker := {
  CheckSig sig pk _ := nth 0 sig 0 =? nth 0 pk 0 }.

Lemma flags_softfork_safe_witness : VerifyScript SCRIPT_VERIFY_P2SH [OP_2] [OP_2; OP_EQUAL] = Ok tt.
Proof.
  apply (flags_softfork_safe SCRIPT_VERIFY_P2SH 0xff [OP_2] [OP_2; OP_EQUAL]).
  - reflexivity.
  - vm_compute. reflexivity.
Defined.

Lemma p2pkh_verifies_witness :
  VerifyScript 1 (push_data (replicate 9 7) ++ push_data (replicate 33 7))
    (GetScriptForDestination (CKeyID (replicate 20 0))) = Ok tt.
Proof.
  rewrite (p2pkh_verifies 1 (replicate 20 0) (replicate 9 7) (replicate 33 7)).
  - vm_compute. reflexivity.
  - reflexivity.
  - unfold size. simpl. lia.
  - unfold size. simpl. lia.
  - done.
Defined.

Lemma p2sh_verifies_witness :
  VerifyScript 1 (push_data [OP_2; OP_EQUAL]) (GetScriptForDestination (CScriptID (replicate 20 0)))
    = Err SCRIPT_ERR_INVALID_STACK_OPERATION.
Proof.
  rewrite (p2sh_verifies 1 (replicate 20 0) (push_data [OP_2; OP_EQUAL]) [OP_2; OP_EQUAL] []).
  - vm_compute. reflexivity.
  - reflexivity.
  - reflexivity.
  - vm_compute. reflexivity.
  - vm_compute. reflexivity.
  - unfold size. simpl. lia.
Defined.

Lemma unspendable_never_succeeds_witness : VerifyScript 0 [OP_1] [OP_RETURN; OP_1] ≠ Ok tt.
Proof. apply (unspendable_never_succeeds 0 [] [OP_RETURN; OP_1] [OP_1]). reflexivity. Defined.

Lemma checkmultisig_correct_witness :
  ∃ b, op_checkmultisig OP_CHECKMULTISIG 0 1 []
      ([2] :: [[5; 5]; [6; 6]] ++ [1] :: [[6; 1; 1]] ++ [] :: []) = Ok (bool_vch b :: [], 1 + 2) ∧
    (b = true ↔ matches (foldl (λ c s, snd (FindAndDelete c (push_data s))) [] [[6; 1; 1]])
                  [[6; 1; 1]] [[5; 5]; [6; 6]]).
Proof.
  apply (checkmultisig_correct 0 1 [] [[5; 5]; [6; 6]] [[6; 1; 1]] []).
  - unfold size. simpl. lia.
  - unfold size. simpl. lia.
  - intros s k Hs _. apply list_elem_of_singleton in Hs as ->. reflexivity.
Defined.
