(* ===== verification/HashEngine.v ===== *)
(** The streaming shell the hash classes of crypto/ share: a chaining state, a
    partly filled block and a byte counter; [Write] hands every full block to the
    compression function.  Section [engine] is generic in the block size and the
    compression function; Sha256.v, Sha1.v, Ripemd160.v and Sha512.v instantiate
    it.  Shown: however a message is cut into [Write] calls, the state after them
    is the one of the whole message, and padding completes the last block. *)

From S2P Require Import Prelude.

(** * The hasher object *)

Record hasher := Hasher { hs : list Z; hbuf : list Z; hbytes : Z }.

(** [memcpy(buf + off, data, len)] *)
Definition memcpy_at (buf : list Z) (off : nat) (data : list Z) : list Z :=
  take off buf ++ data ++ drop (off + length data) buf.

(** The length field of a message below 2^61 bytes does not wrap. *)
Lemma length_bits_small n : 0 ≤ n < 2 ^ 61 → u64 (u64 n ≪ 3) = 8 * n.
Proof.
  intros Hn. rewrite (wrap_small 64 n) by (unfold fits; lia). rewrite Z.shiftl_mul_pow2 by lia.
  rewrite wrap_small by (unfold fits; lia). lia.
Qed.

Section engine.
Context (block : nat) (transform : list Z → list Z → list Z).

(** [while (end >= data + block)] *)
Fixpoint write_blocks (fuel : nat) (h : hasher) (data : list Z) : hasher * list Z :=
  match fuel with
  | O => (h, data)
  | S fuel =>
      if (block <=? length data)%nat
      then write_blocks fuel (Hasher (transform (hs h) (take block data)) (hbuf h)
                                (u64 (hbytes h + Z.of_nat block))) (drop block data)
      else (h, data)
  end.

Definition Write (h : hasher) (data : list Z) : hasher :=
  let bufsize := Z.to_nat (hbytes h `mod` Z.of_nat block) in
  let '(h, data, bufsize) :=
    if negb (bufsize =? 0)%nat && (block <=? bufsize + length data)%nat then
      let buf := memcpy_at (hbuf h) bufsize (take (block - bufsize) data) in
      (Hasher (transform (hs h) buf) buf (u64 (hbytes h + Z.of_nat (block - bufsize))),
       drop (block - bufsize) data, 0%nat)
    else (h, data, bufsize) in
  let '(h, data) := write_blocks (length data) h data in
  match data with
  | [] => h
  | _ => Hasher (hs h) (memcpy_at (hbuf h) bufsize data) (u64 (hbytes h + Z.of_nat (length data)))
  end.

(** ** The reference: fold the compression function over the blocks *)

Fixpoint process (k : nat) (s l : list Z) : list Z :=
  match k with
  | O => s
  | S k => process k (transform s (take block l)) (drop block l)
  end.

(** [absorbed s0 h msg]: [h] has consumed [msg] starting from the state [s0]. *)
Definition absorbed (s0 : list Z) (h : hasher) (msg : list Z) : Prop :=
  hbytes h = u64 (Z.of_nat (length msg)) ∧ length (hbuf h) = block ∧
  ∃ k full part, msg = full ++ part ∧ length full = (k * block)%nat ∧ (length part < block)%nat ∧
    hs h = process k s0 full ∧ take (length part) (hbuf h) = part.

Hypothesis block_pos : (0 < block)%nat.
Hypothesis block_pow : 2 ^ 64 `mod` Z.of_nat block = 0.

Lemma process_app j k s a b :
  length a = (j * block)%nat → process (j + k) s (a ++ b) = process k (process j s a) b.
Proof.
  revert s a. induction j as [|j IH]; intros s a Ha; simpl in Ha.
  - by destruct a.
  - simpl. rewrite take_app_le, drop_app_le by lia. apply IH. rewrite length_drop. lia.
Qed.

Lemma process_more j s a b : length a = (j * block)%nat → process j s (a ++ b) = process j s a.
Proof. intros Ha. rewrite <-(Nat.add_0_r j) at 1. by rewrite process_app. Qed.

Lemma write_blocks_spec fuel h data :
  (length data ≤ fuel)%nat → length (hbuf h) = block →
  ∃ k full part, data = full ++ part ∧ length full = (k * block)%nat ∧ (length part < block)%nat ∧
    write_blocks fuel h data =
      (Hasher (process k (hs h) full) (hbuf h)
         (if decide (k = 0%nat) then hbytes h else u64 (hbytes h + Z.of_nat (length full))), part).
Proof.
  revert h data. induction fuel as [|fuel IH]; intros h data Hf Hb.
  - destruct data; [|simpl in Hf; lia]. exists 0%nat, [], []. by destruct h.
  - cbn [write_blocks]. destruct (Nat.leb_spec block (length data)) as [Hle|Hlt]; cycle 1.
    { exists 0%nat, [], data. by destruct h. }
    destruct (IH (Hasher (transform (hs h) (take block data)) (hbuf h)
                (u64 (hbytes h + Z.of_nat block))) (drop block data)) as (k & full & part & Hd & Hl & Hp & ->).
    { rewrite length_drop. lia. } { done. }
    exists (S k), (take block data ++ full), part. split_and!; [|rewrite length_app, length_take; lia|done|].
    { by rewrite <-app_assoc, <-Hd, take_drop. }
    rewrite (process_app 1 k) by (rewrite length_take; lia). f_equal. f_equal.
    { simpl. by rewrite take_take, Nat.min_id. }
    rewrite length_app, length_take, (Nat.min_l block) by lia. cbn [hbytes hs].
    unfold wrap. case_decide; simplify_eq; rewrite ?Zplus_mod_idemp_l; f_equal; lia.
Qed.

Lemma memcpy_at_prefix buf off data part :
  length buf = block → (off + length data ≤ block)%nat → length part = off → take off buf = part →
  length (memcpy_at buf off data) = block ∧
  take (off + length data) (memcpy_at buf off data) = part ++ data.
Proof.
  intros Hb Hl Hp Ht. unfold memcpy_at. rewrite !length_app, length_take, length_drop. split; [lia|].
  rewrite Ht, app_assoc, take_app_le by (rewrite length_app; lia).
  by rewrite take_ge by (rewrite length_app; lia).
Qed.

Lemma u64_mod_block n : u64 n `mod` Z.of_nat block = n `mod` Z.of_nat block.
Proof.
  unfold wrap. apply Z.mod_divide in block_pow as [q Hq]; [|lia]. rewrite Hq.
  rewrite (Z.mul_comm q). destruct (decide (q = 0)) as [->|]; [lia|].
  rewrite Z.rem_mul_r by lia. rewrite Z.mul_comm, Z_mod_plus_full. by rewrite Zmod_mod.
Qed.

Lemma part_length k (full part : list Z) :
  length full = (k * block)%nat → (length part < block)%nat →
  Z.to_nat (u64 (Z.of_nat (length (full ++ part))) `mod` Z.of_nat block) = length part.
Proof.
  intros Hf Hp. rewrite u64_mod_block, length_app, Hf.
  replace (Z.of_nat (k * block + length part)) with (Z.of_nat (length part) + Z.of_nat k * Z.of_nat block) by lia.
  rewrite Z_mod_plus_full, Z.mod_small by lia. lia.
Qed.

(** Finishing a [Write]: the loop and the copy of the rest, from a hasher whose
    buffered part [part] is empty or stays short. *)
Lemma absorbed_intro s0 h k full part :
  hbytes h = u64 (Z.of_nat (length (full ++ part))) → length (hbuf h) = block →
  length full = (k * block)%nat → (length part < block)%nat → hs h = process k s0 full →
  take (length part) (hbuf h) = part → absorbed s0 h (full ++ part).
Proof. intros. split_and!; [done..|]. by exists k, full, part. Qed.

Lemma write_rest s0 h msg data bufsize :
  absorbed s0 h msg → bufsize = Z.to_nat (hbytes h `mod` Z.of_nat block) →
  (bufsize = 0 ∨ bufsize + length data < block)%nat →
  absorbed s0 (let '(h, data) := write_blocks (length data) h data in
               match data with
               | [] => h
               | _ => Hasher (hs h) (memcpy_at (hbuf h) bufsize data)
                        (u64 (hbytes h + Z.of_nat (length data)))
               end) (msg ++ data).
Proof.
  intros (Hb & Hl & k & full & part & -> & Hf & Hp & Hs & Ht) Hbs Hcase.
  rewrite Hb, (part_length k) in Hbs by done. subst bufsize.
  destruct (write_blocks_spec (length data) h data) as (k' & full' & part' & -> & Hf' & Hp' & ->); [done..|].
  assert (k' = 0%nat ∧ full' = [] ∨ part = []) as Hshort.
  { destruct Hcase as [Hz|Hlt]; [right; by destruct part|left]. rewrite length_app in Hlt.
    destruct k'; [|lia]. by destruct full'. }
  assert (absorbed s0 (Hasher (process k' (hs h) full') (hbuf h)
    (if decide (k' = 0%nat) then hbytes h else u64 (hbytes h + Z.of_nat (length full'))))
    ((full ++ full') ++ part)) as Habs.
  { apply absorbed_intro with (k + k')%nat; [cbn [hbytes]|done|rewrite length_app; lia|done| |done].
    - case_decide; [subst; by destruct full'; [rewrite app_nil_r|simpl in Hf'; lia]|].
      destruct Hshort as [[? _]| ->]; [done|]. rewrite Hb, !app_nil_r, length_app. unfold wrap.
      rewrite Zplus_mod_idemp_l. f_equal. lia.
    - cbn [hs]. by rewrite Hs, process_app. }
  assert ((full ++ part) ++ full' ++ part' = ((full ++ full') ++ part) ++ part') as ->.
  { destruct Hshort as [[_ ->]| ->]; simplify_list_eq; done. }
  destruct part' as [|x part']; [by rewrite app_nil_r|]. set (p := x :: part') in *.
  assert (length part + length p < block)%nat as Hpp.
  { destruct Hshort as [[-> ->]| ->]; [|exact Hp']. destruct Hcase as [Hc|Hc]; [|done].
    rewrite Hc. done. }
  destruct Habs as (Hb2 & Hl2 & _). cbn [hbytes hbuf] in Hb2, Hl2.
  destruct (memcpy_at_prefix (hbuf h) (length part) p part) as [Hm1 Hm2]; [done|lia|done|done|].
  rewrite <-app_assoc. apply absorbed_intro with (k + k')%nat; cbn [hbytes hbuf hs].
  - rewrite Hb2. unfold wrap. rewrite Zplus_mod_idemp_l, !length_app. f_equal. lia.
  - done.
  - rewrite length_app. lia.
  - rewrite length_app. lia.
  - by rewrite Hs, process_app.
  - by rewrite length_app.
Qed.

Lemma Write_absorbed s0 h msg data :
  absorbed s0 h msg → absorbed s0 (Write h data) (msg ++ data).
Proof.
  intros Habs. unfold Write. set (bufsize := Z.to_nat (hbytes h `mod` Z.of_nat block)).
  destruct (negb _ && _) eqn:Hfill; [|apply write_rest; [done|done|lia]].
  pose proof Habs as (Hb & Hl & k & full & part & -> & Hf & Hp & Hs & Ht).
  assert (bufsize = length part) as Hbs by (unfold bufsize; by rewrite Hb, (part_length k)).
  set (first := take (block - bufsize) data).
  assert (length first = block - bufsize)%nat as Hfirst by (unfold first; rewrite length_take; lia).
  destruct (memcpy_at_prefix (hbuf h) bufsize first part) as [Hm1 Hm2]; [done|lia|done|by rewrite Hbs|].
  assert (memcpy_at (hbuf h) bufsize first = part ++ first) as Hbuf.
  { rewrite <-Hm2. symmetry. apply take_ge. lia. }
  replace ((full ++ part) ++ data) with (((full ++ part ++ first) ++ []) ++ drop (block - bufsize) data)
    by (unfold first; rewrite app_nil_r, <-!app_assoc, take_drop; done).
  apply write_rest; [|cbn [hbytes]|by left].
  - apply absorbed_intro with (S k); cbn [hbytes hbuf hs length]; [|done|rewrite !length_app; lia|lia| |done].
    + rewrite Hb, app_nil_r, !length_app. unfold wrap. rewrite Zplus_mod_idemp_l. f_equal. lia.
    + replace (S k) with (k + 1)%nat by lia. rewrite process_app, <-Hs by done.
      rewrite Hbuf. simpl. by rewrite take_ge by (rewrite length_app; lia).
  - rewrite u64_mod_block, Hb. rewrite <-Zplus_mod_idemp_l, u64_mod_block, length_app, Hf, Zplus_mod_idemp_l.
    replace (Z.of_nat (k * block + length part) + Z.of_nat (block - bufsize)) with (Z.of_nat (k + 1) * Z.of_nat block) by lia.
    by rewrite Z_mod_mult.
Qed.

(** After any sequence of writes. *)
Lemma writes_absorbed s0 h msg datas :
  absorbed s0 h msg → absorbed s0 (foldl Write h datas) (msg ++ concat datas).
Proof.
  revert h msg. induction datas as [|d datas IH]; intros h msg Habs; simpl; [by rewrite app_nil_r|].
  rewrite app_assoc. by apply IH, Write_absorbed.
Qed.

Lemma absorbed_init s0 buf : length buf = block → absorbed s0 (Hasher s0 buf 0) [].
Proof. intros Hb. apply (absorbed_intro s0 _ 0 [] []); simpl; done || lia. Qed.

(** A message of whole blocks leaves the reference state. *)
Lemma absorbed_full s0 h msg k :
  absorbed s0 h msg → length msg = (k * block)%nat → hs h = process k s0 msg.
Proof.
  intros (_ & _ & k' & full & part & -> & Hf & Hp & Hs & _) Hk. rewrite length_app, Hf in Hk.
  assert (k' = k) as -> by nia. assert (length part = 0)%nat as Hz by lia.
  destruct part; [|done]. by rewrite app_nil_r.
Qed.

Lemma absorbed_bytes s0 h msg : absorbed s0 h msg → hbytes h = u64 (Z.of_nat (length msg)).
Proof. by intros [? _]. Qed.

Lemma absorbed_mod s0 h msg :
  absorbed s0 h msg → hbytes h `mod` Z.of_nat block = Z.of_nat (length msg) `mod` Z.of_nat block.
Proof. intros [-> _]. apply u64_mod_block. Qed.

(** ** Padding: a one bit, zeros up to [c] modulo the block, the length field. *)

Definition md_pad (c : Z) (sizedesc msg : list Z) : list Z :=
  msg ++ [0x80] ++ replicate (Z.to_nat ((c - Z.of_nat (length msg)) `mod` Z.of_nat block)) 0 ++ sizedesc.

Lemma md_pad_length c sizedesc msg :
  c + 1 + Z.of_nat (length sizedesc) = Z.of_nat block →
  ∃ k, length (md_pad c sizedesc msg) = (k * block)%nat ∧
       (length (md_pad c sizedesc msg) / block)%nat = k.
Proof.
  intros Hc. set (n := Z.of_nat (length msg)). set (z := (c - n) `mod` Z.of_nat block).
  assert (0 ≤ z < Z.of_nat block) as Hz by (apply Z.mod_pos_bound; lia).
  pose proof (Z.div_mod (c - n) (Z.of_nat block) ltac:(lia)) as Hd. fold z in Hd.
  set (q := (c - n) `div` Z.of_nat block) in *.
  assert (length (md_pad c sizedesc msg) = (Z.to_nat (1 - q) * block)%nat) as Hlen.
  { unfold md_pad. fold n z. rewrite !length_app, length_replicate. cbn [length].
    apply Nat2Z.inj. assert (q ≤ 1) by nia. nia. }
  exists (Z.to_nat (1 - q)). split; [done|]. rewrite Hlen. apply Nat.div_mul. lia.
Qed.

Lemma md_pad_bytes c sizedesc msg : bytes msg → bytes sizedesc → bytes (md_pad c sizedesc msg).
Proof.
  intros Hm Hs. unfold md_pad. rewrite !Forall_app. split_and!; [done| | |done].
  - by repeat constructor.
  - by apply words_replicate0.
Qed.

(** The two writes of [Finalize]. *)
Lemma finalize_state s0 h msg c sizedesc :
  absorbed s0 h msg → c + 1 + Z.of_nat (length sizedesc) = Z.of_nat block → 0 ≤ c →
  hs (Write (Write h (take (Z.to_nat (1 + (Z.of_nat block + c - hbytes h `mod` Z.of_nat block) `mod` Z.of_nat block))
                        (0x80 :: replicate (block - 1) 0))) sizedesc) =
  process (length (md_pad c sizedesc msg) / block) s0 (md_pad c sizedesc msg).
Proof.
  intros Habs Hc Hc0. set (z := (c - Z.of_nat (length msg)) `mod` Z.of_nat block).
  assert (0 ≤ z < Z.of_nat block) as Hz by (apply Z.mod_pos_bound; lia).
  replace ((Z.of_nat block + c - hbytes h `mod` Z.of_nat block) `mod` Z.of_nat block) with z; cycle 1.
  { unfold z. rewrite (absorbed_mod s0 h msg Habs), Zminus_mod_idemp_r.
    replace (Z.of_nat block + c - Z.of_nat (length msg)) with (c - Z.of_nat (length msg) + 1 * Z.of_nat block) by lia.
    by rewrite Z_mod_plus_full. }
  replace (Z.to_nat (1 + z)) with (S (Z.to_nat z)) by lia. cbn [take]. rewrite take_replicate, Nat.min_l by lia.
  destruct (md_pad_length c sizedesc msg Hc) as (k & Hk & ->).
  apply absorbed_full; [|done].
  replace (md_pad c sizedesc msg) with ((msg ++ 0x80 :: replicate (Z.to_nat z) 0) ++ sizedesc)
    by (unfold md_pad; simplify_list_eq; done).
  by apply Write_absorbed, Write_absorbed.
Qed.

End engine.
