(* ===== verification/Sha256.v ===== *)
(** crypto/sha256.cpp: the SHA-256 compression function as the source unrolls
    it, and the [CSHA256] class.  The reference is FIPS 180-4: Boolean functions,
    message schedule of 64 words, 64 steps over eight working variables, and
    constants from the roots of the first primes. *)

From S2P Require Import Prelude CryptoCommon HashEngine.

Module sha256.

(** [uint32_t] addition *)
Definition add32 (a b : Z) : Z := u32 (a + b).
#[local] Infix "⊞" := add32 (at level 50, left associativity).

Definition Ch (x y z : Z) : Z := Z.lxor z (Z.land x (Z.lxor y z)).
Definition Maj (x y z : Z) : Z := Z.lor (Z.land x y) (Z.land z (Z.lor x y)).
Definition Sigma0 (x : Z) : Z :=
  Z.lxor (Z.lxor (Z.lor (x ≫ 2) (u32 (x ≪ 30))) (Z.lor (x ≫ 13) (u32 (x ≪ 19))))
    (Z.lor (x ≫ 22) (u32 (x ≪ 10))).
Definition Sigma1 (x : Z) : Z :=
  Z.lxor (Z.lxor (Z.lor (x ≫ 6) (u32 (x ≪ 26))) (Z.lor (x ≫ 11) (u32 (x ≪ 21))))
    (Z.lor (x ≫ 25) (u32 (x ≪ 7))).
Definition sigma0 (x : Z) : Z :=
  Z.lxor (Z.lxor (Z.lor (x ≫ 7) (u32 (x ≪ 25))) (Z.lor (x ≫ 18) (u32 (x ≪ 14)))) (x ≫ 3).
Definition sigma1 (x : Z) : Z :=
  Z.lxor (Z.lxor (Z.lor (x ≫ 17) (u32 (x ≪ 15))) (Z.lor (x ≫ 19) (u32 (x ≪ 13)))) (x ≫ 10).

(** [Round] returns the references it assigns, [d] and [h]. *)
Definition Round (a b c d e f g h k w : Z) : Z * Z :=
  let t1 := h ⊞ Sigma1 e ⊞ Ch e f g ⊞ k ⊞ w in
  let t2 := Sigma0 a ⊞ Maj a b c in
  (d ⊞ t1, t1 ⊞ t2).

Definition Initialize : list Z :=
  [0x6a09e667; 0xbb67ae85; 0x3c6ef372; 0xa54ff53a; 0x510e527f; 0x9b05688c; 0x1f83d9ab; 0x5be0cd19].

Definition Transform (s chunk : list Z) : list Z :=
  let a := nth 0 s 0 in let b := nth 1 s 0 in let c := nth 2 s 0 in let d := nth 3 s 0 in
  let e := nth 4 s 0 in let f := nth 5 s 0 in let g := nth 6 s 0 in let h := nth 7 s 0 in
  dlet w0 := ReadBE32 (drop 0 chunk) in dlet '(d, h) := Round a b c d e f g h 0x428a2f98 w0 in
  dlet w1 := ReadBE32 (drop 4 chunk) in dlet '(c, g) := Round h a b c d e f g 0x71374491 w1 in
  dlet w2 := ReadBE32 (drop 8 chunk) in dlet '(b, f) := Round g h a b c d e f 0xb5c0fbcf w2 in
  dlet w3 := ReadBE32 (drop 12 chunk) in dlet '(a, e) := Round f g h a b c d e 0xe9b5dba5 w3 in
  dlet w4 := ReadBE32 (drop 16 chunk) in dlet '(h, d) := Round e f g h a b c d 0x3956c25b w4 in
  dlet w5 := ReadBE32 (drop 20 chunk) in dlet '(g, c) := Round d e f g h a b c 0x59f111f1 w5 in
  dlet w6 := ReadBE32 (drop 24 chunk) in dlet '(f, b) := Round c d e f g h a b 0x923f82a4 w6 in
  dlet w7 := ReadBE32 (drop 28 chunk) in dlet '(e, a) := Round b c d e f g h a 0xab1c5ed5 w7 in
  dlet w8 := ReadBE32 (drop 32 chunk) in dlet '(d, h) := Round a b c d e f g h 0xd807aa98 w8 in
  dlet w9 := ReadBE32 (drop 36 chunk) in dlet '(c, g) := Round h a b c d e f g 0x12835b01 w9 in
  dlet w10 := ReadBE32 (drop 40 chunk) in dlet '(b, f) := Round g h a b c d e f 0x243185be w10 in
  dlet w11 := ReadBE32 (drop 44 chunk) in dlet '(a, e) := Round f g h a b c d e 0x550c7dc3 w11 in
  dlet w12 := ReadBE32 (drop 48 chunk) in dlet '(h, d) := Round e f g h a b c d 0x72be5d74 w12 in
  dlet w13 := ReadBE32 (drop 52 chunk) in dlet '(g, c) := Round d e f g h a b c 0x80deb1fe w13 in
  dlet w14 := ReadBE32 (drop 56 chunk) in dlet '(f, b) := Round c d e f g h a b 0x9bdc06a7 w14 in
  dlet w15 := ReadBE32 (drop 60 chunk) in dlet '(e, a) := Round b c d e f g h a 0xc19bf174 w15 in
  dlet w0 := w0 ⊞ (sigma1 w14 ⊞ w9 ⊞ sigma0 w1) in dlet '(d, h) := Round a b c d e f g h 0xe49b69c1 w0 in
  dlet w1 := w1 ⊞ (sigma1 w15 ⊞ w10 ⊞ sigma0 w2) in dlet '(c, g) := Round h a b c d e f g 0xefbe4786 w1 in
  dlet w2 := w2 ⊞ (sigma1 w0 ⊞ w11 ⊞ sigma0 w3) in dlet '(b, f) := Round g h a b c d e f 0x0fc19dc6 w2 in
  dlet w3 := w3 ⊞ (sigma1 w1 ⊞ w12 ⊞ sigma0 w4) in dlet '(a, e) := Round f g h a b c d e 0x240ca1cc w3 in
  dlet w4 := w4 ⊞ (sigma1 w2 ⊞ w13 ⊞ sigma0 w5) in dlet '(h, d) := Round e f g h a b c d 0x2de92c6f w4 in
  dlet w5 := w5 ⊞ (sigma1 w3 ⊞ w14 ⊞ sigma0 w6) in dlet '(g, c) := Round d e f g h a b c 0x4a7484aa w5 in
  dlet w6 := w6 ⊞ (sigma1 w4 ⊞ w15 ⊞ sigma0 w7) in dlet '(f, b) := Round c d e f g h a b 0x5cb0a9dc w6 in
  dlet w7 := w7 ⊞ (sigma1 w5 ⊞ w0 ⊞ sigma0 w8) in dlet '(e, a) := Round b c d e f g h a 0x76f988da w7 in
  dlet w8 := w8 ⊞ (sigma1 w6 ⊞ w1 ⊞ sigma0 w9) in dlet '(d, h) := Round a b c d e f g h 0x983e5152 w8 in
  dlet w9 := w9 ⊞ (sigma1 w7 ⊞ w2 ⊞ sigma0 w10) in dlet '(c, g) := Round h a b c d e f g 0xa831c66d w9 in
  dlet w10 := w10 ⊞ (sigma1 w8 ⊞ w3 ⊞ sigma0 w11) in dlet '(b, f) := Round g h a b c d e f 0xb00327c8 w10 in
  dlet w11 := w11 ⊞ (sigma1 w9 ⊞ w4 ⊞ sigma0 w12) in dlet '(a, e) := Round f g h a b c d e 0xbf597fc7 w11 in
  dlet w12 := w12 ⊞ (sigma1 w10 ⊞ w5 ⊞ sigma0 w13) in dlet '(h, d) := Round e f g h a b c d 0xc6e00bf3 w12 in
  dlet w13 := w13 ⊞ (sigma1 w11 ⊞ w6 ⊞ sigma0 w14) in dlet '(g, c) := Round d e f g h a b c 0xd5a79147 w13 in
  dlet w14 := w14 ⊞ (sigma1 w12 ⊞ w7 ⊞ sigma0 w15) in dlet '(f, b) := Round c d e f g h a b 0x06ca6351 w14 in
  dlet w15 := w15 ⊞ (sigma1 w13 ⊞ w8 ⊞ sigma0 w0) in dlet '(e, a) := Round b c d e f g h a 0x14292967 w15 in
  dlet w0 := w0 ⊞ (sigma1 w14 ⊞ w9 ⊞ sigma0 w1) in dlet '(d, h) := Round a b c d e f g h 0x27b70a85 w0 in
  dlet w1 := w1 ⊞ (sigma1 w15 ⊞ w10 ⊞ sigma0 w2) in dlet '(c, g) := Round h a b c d e f g 0x2e1b2138 w1 in
  dlet w2 := w2 ⊞ (sigma1 w0 ⊞ w11 ⊞ sigma0 w3) in dlet '(b, f) := Round g h a b c d e f 0x4d2c6dfc w2 in
  dlet w3 := w3 ⊞ (sigma1 w1 ⊞ w12 ⊞ sigma0 w4) in dlet '(a, e) := Round f g h a b c d e 0x53380d13 w3 in
  dlet w4 := w4 ⊞ (sigma1 w2 ⊞ w13 ⊞ sigma0 w5) in dlet '(h, d) := Round e f g h a b c d 0x650a7354 w4 in
  dlet w5 := w5 ⊞ (sigma1 w3 ⊞ w14 ⊞ sigma0 w6) in dlet '(g, c) := Round d e f g h a b c 0x766a0abb w5 in
  dlet w6 := w6 ⊞ (sigma1 w4 ⊞ w15 ⊞ sigma0 w7) in dlet '(f, b) := Round c d e f g h a b 0x81c2c92e w6 in
  dlet w7 := w7 ⊞ (sigma1 w5 ⊞ w0 ⊞ sigma0 w8) in dlet '(e, a) := Round b c d e f g h a 0x92722c85 w7 in
  dlet w8 := w8 ⊞ (sigma1 w6 ⊞ w1 ⊞ sigma0 w9) in dlet '(d, h) := Round a b c d e f g h 0xa2bfe8a1 w8 in
  dlet w9 := w9 ⊞ (sigma1 w7 ⊞ w2 ⊞ sigma0 w10) in dlet '(c, g) := Round h a b c d e f g 0xa81a664b w9 in
  dlet w10 := w10 ⊞ (sigma1 w8 ⊞ w3 ⊞ sigma0 w11) in dlet '(b, f) := Round g h a b c d e f 0xc24b8b70 w10 in
  dlet w11 := w11 ⊞ (sigma1 w9 ⊞ w4 ⊞ sigma0 w12) in dlet '(a, e) := Round f g h a b c d e 0xc76c51a3 w11 in
  dlet w12 := w12 ⊞ (sigma1 w10 ⊞ w5 ⊞ sigma0 w13) in dlet '(h, d) := Round e f g h a b c d 0xd192e819 w12 in
  dlet w13 := w13 ⊞ (sigma1 w11 ⊞ w6 ⊞ sigma0 w14) in dlet '(g, c) := Round d e f g h a b c 0xd6990624 w13 in
  dlet w14 := w14 ⊞ (sigma1 w12 ⊞ w7 ⊞ sigma0 w15) in dlet '(f, b) := Round c d e f g h a b 0xf40e3585 w14 in
  dlet w15 := w15 ⊞ (sigma1 w13 ⊞ w8 ⊞ sigma0 w0) in dlet '(e, a) := Round b c d e f g h a 0x106aa070 w15 in
  dlet w0 := w0 ⊞ (sigma1 w14 ⊞ w9 ⊞ sigma0 w1) in dlet '(d, h) := Round a b c d e f g h 0x19a4c116 w0 in
  dlet w1 := w1 ⊞ (sigma1 w15 ⊞ w10 ⊞ sigma0 w2) in dlet '(c, g) := Round h a b c d e f g 0x1e376c08 w1 in
  dlet w2 := w2 ⊞ (sigma1 w0 ⊞ w11 ⊞ sigma0 w3) in dlet '(b, f) := Round g h a b c d e f 0x2748774c w2 in
  dlet w3 := w3 ⊞ (sigma1 w1 ⊞ w12 ⊞ sigma0 w4) in dlet '(a, e) := Round f g h a b c d e 0x34b0bcb5 w3 in
  dlet w4 := w4 ⊞ (sigma1 w2 ⊞ w13 ⊞ sigma0 w5) in dlet '(h, d) := Round e f g h a b c d 0x391c0cb3 w4 in
  dlet w5 := w5 ⊞ (sigma1 w3 ⊞ w14 ⊞ sigma0 w6) in dlet '(g, c) := Round d e f g h a b c 0x4ed8aa4a w5 in
  dlet w6 := w6 ⊞ (sigma1 w4 ⊞ w15 ⊞ sigma0 w7) in dlet '(f, b) := Round c d e f g h a b 0x5b9cca4f w6 in
  dlet w7 := w7 ⊞ (sigma1 w5 ⊞ w0 ⊞ sigma0 w8) in dlet '(e, a) := Round b c d e f g h a 0x682e6ff3 w7 in
  dlet w8 := w8 ⊞ (sigma1 w6 ⊞ w1 ⊞ sigma0 w9) in dlet '(d, h) := Round a b c d e f g h 0x748f82ee w8 in
  dlet w9 := w9 ⊞ (sigma1 w7 ⊞ w2 ⊞ sigma0 w10) in dlet '(c, g) := Round h a b c d e f g 0x78a5636f w9 in
  dlet w10 := w10 ⊞ (sigma1 w8 ⊞ w3 ⊞ sigma0 w11) in dlet '(b, f) := Round g h a b c d e f 0x84c87814 w10 in
  dlet w11 := w11 ⊞ (sigma1 w9 ⊞ w4 ⊞ sigma0 w12) in dlet '(a, e) := Round f g h a b c d e 0x8cc70208 w11 in
  dlet w12 := w12 ⊞ (sigma1 w10 ⊞ w5 ⊞ sigma0 w13) in dlet '(h, d) := Round e f g h a b c d 0x90befffa w12 in
  dlet w13 := w13 ⊞ (sigma1 w11 ⊞ w6 ⊞ sigma0 w14) in dlet '(g, c) := Round d e f g h a b c 0xa4506ceb w13 in
  dlet '(f, b) := Round c d e f g h a b 0xbef9a3f7 (w14 ⊞ sigma1 w12 ⊞ w7 ⊞ sigma0 w15) in
  dlet '(e, a) := Round b c d e f g h a 0xc67178f2 (w15 ⊞ sigma1 w13 ⊞ w8 ⊞ sigma0 w0) in
  [nth 0 s 0 ⊞ a; nth 1 s 0 ⊞ b; nth 2 s 0 ⊞ c; nth 3 s 0 ⊞ d;
   nth 4 s 0 ⊞ e; nth 5 s 0 ⊞ f; nth 6 s 0 ⊞ g; nth 7 s 0 ⊞ h].

End sha256.

(** ** [CSHA256] *)

Definition CSHA256_init (buf : list Z) : hasher := Hasher sha256.Initialize buf 0.
Definition CSHA256_Write : hasher → list Z → hasher := Write 64 sha256.Transform.
Definition CSHA256_Finalize (h : hasher) : list Z :=
  let sizedesc := WriteBE64 (u64 (hbytes h ≪ 3)) in
  let pad := 0x80 :: replicate 63 0 in
  let h' := CSHA256_Write h (take (Z.to_nat (1 + (119 - hbytes h `mod` 64) `mod` 64)) pad) in
  let h' := CSHA256_Write h' sizedesc in
  flat_map WriteBE32 (hs h').
Definition CSHA256_Reset (h : hasher) : hasher := Hasher sha256.Initialize (hbuf h) 0.

(** [CSHA256().Write(data).Finalize(hash)] *)
Definition sha256_of (data : list Z) : list Z :=
  CSHA256_Finalize (CSHA256_Write (CSHA256_init (replicate 64 0)) data).

