(* ===== verification/Sha256Facts.v ===== *)
(** SHA-256: the unrolled code computes the function of FIPS 180-4. *)

From S2P Require Import Prelude CryptoCommon HashEngine Sha256.
Import sha256.

#[local] Infix "⊞" := add32 (at level 50, left associativity).

(** * The reference *)

Module FIPS256.

Definition ROTR (n x : Z) : Z := x `div` 2 ^ n + (x `mod` 2 ^ n) * 2 ^ (32 - n).
Definition SHR (n x : Z) : Z := x `div` 2 ^ n.
Definition NOT (x : Z) : Z := 2 ^ 32 - 1 - x.
Definition Ch x y z := Z.lxor (Z.land x y) (Z.land (NOT x) z).
Definition Maj x y z := Z.lxor (Z.lxor (Z.land x y) (Z.land x z)) (Z.land y z).
Definition Σ0 x := Z.lxor (Z.lxor (ROTR 2 x) (ROTR 13 x)) (ROTR 22 x).
Definition Σ1 x := Z.lxor (Z.lxor (ROTR 6 x) (ROTR 11 x)) (ROTR 25 x).
Definition σ0 x := Z.lxor (Z.lxor (ROTR 7 x) (ROTR 18 x)) (SHR 3 x).
Definition σ1 x := Z.lxor (Z.lxor (ROTR 17 x) (ROTR 19 x)) (SHR 10 x).

(** The first 32 bits of the fractional parts of the cube and square roots. *)
Definition K : list Z := (λ p, u32 (icbrt 36 0 (p * 2 ^ 96))) <$> take 64 primes.
Definition H0 : list Z := (λ p, u32 (Z.sqrt (p * 2 ^ 64))) <$> take 8 primes.

(** The message schedule [W_0 .. W_63] *)
Definition W_next (W : list Z) : Z :=
  let t := length W in
  u32 (σ1 (nth (t - 2) W 0) + nth (t - 7) W 0 + σ0 (nth (t - 15) W 0) + nth (t - 16) W 0).
Definition schedule (chunk : list Z) : list Z :=
  Nat.iter 48 (λ W, W ++ [W_next W]) ((λ i, ReadBE32 (drop (4 * i) chunk)) <$> seq 0 16).

(** One step on the working variables, and the compression function. *)
Definition step (v : Z * Z * Z * Z * Z * Z * Z * Z) (kw : Z * Z) : Z * Z * Z * Z * Z * Z * Z * Z :=
  let '(a, b, c, d, e, f, g, h) := v in
  let T1 := u32 (h + Σ1 e + Ch e f g + kw.1 + kw.2) in
  let T2 := u32 (Σ0 a + Maj a b c) in
  (u32 (T1 + T2), a, b, c, u32 (d + T1), e, f, g).
Definition compress (s chunk : list Z) : list Z :=
  let '(a, b, c, d, e, f, g, h) :=
    foldl step (nth 0 s 0, nth 1 s 0, nth 2 s 0, nth 3 s 0, nth 4 s 0, nth 5 s 0, nth 6 s 0, nth 7 s 0)
      (zip K (schedule chunk)) in
  zip_with (λ x y, u32 (x + y)) (take 8 s) [a; b; c; d; e; f; g; h].

(** The padded message and the hash *)
Definition pad (msg : list Z) : list Z := md_pad 64 55 (WriteBE64 (8 * Z.of_nat (length msg))) msg.
Definition SHA256 (msg : list Z) : list Z :=
  flat_map WriteBE32 (process 64 compress (length (pad msg) / 64) H0 (pad msg)).

End FIPS256.

(** * The working functions *)

Lemma add32_fits a b : fits 32 (a ⊞ b).
Proof. apply wrap_fits. lia. Qed.

Lemma add32_assoc a b c : a ⊞ (b ⊞ c) = a ⊞ b ⊞ c.
Proof. unfold add32. rewrite wrap_add_l, wrap_add_r. f_equal. lia. Qed.

Lemma add32_assoc3 a b c d : a ⊞ (b ⊞ c ⊞ d) = a ⊞ b ⊞ c ⊞ d.
Proof. by rewrite !add32_assoc. Qed.

Lemma add32_sum4 a b c d : a ⊞ b ⊞ c ⊞ d = u32 (a + b + c + d).
Proof. unfold add32. by rewrite (wrap_add_l _ (a + b)), (wrap_add_l _ (a + b + c)). Qed.

Lemma add32_sum5 a b c d e : a ⊞ b ⊞ c ⊞ d ⊞ e = u32 (a + b + c + d + e).
Proof. rewrite (add32_sum4 a b c d). apply wrap_add_l. Qed.

Lemma Sigma_spec x :
  fits 32 x →
  Sigma0 x = FIPS256.Σ0 x ∧ Sigma1 x = FIPS256.Σ1 x ∧ sigma0 x = FIPS256.σ0 x ∧ sigma1 x = FIPS256.σ1 x.
Proof.
  intros Hx.
  assert (∀ n m, 0 < n → 0 < m → n + m = 32 → Z.lor (x ≫ n) (u32 (x ≪ m)) = FIPS256.ROTR n x) as R.
  { intros n m Hn Hm E. replace m with (32 - n) by lia. apply rotr_spec; [lia|done]. }
  unfold Sigma0, Sigma1, sigma0, sigma1, FIPS256.Σ0, FIPS256.Σ1, FIPS256.σ0, FIPS256.σ1, FIPS256.SHR.
  rewrite (R 2 30), (R 6 26), (R 7 25), (R 11 21), (R 13 19), (R 17 15), (R 18 14), (R 19 13),
    (R 22 10), (R 25 7) by done.
  by rewrite !Z.shiftr_div_pow2 by lia.
Qed.

(** The step of the reference, in the functions of the code. *)
Definition code_step (v : Z * Z * Z * Z * Z * Z * Z * Z) (kw : Z * Z) : Z * Z * Z * Z * Z * Z * Z * Z :=
  let '(a, b, c, d, e, f, g, h) := v in
  let '(d, h) := Round a b c d e f g h kw.1 kw.2 in (h, a, b, c, d, e, f, g).

Definition vars_fit (v : Z * Z * Z * Z * Z * Z * Z * Z) : Prop :=
  let '(a, b, c, d, e, f, g, h) := v in words 32 [a; b; c; d; e; f; g; h].

Lemma code_step_spec v kw :
  vars_fit v → FIPS256.step v kw = code_step v kw ∧ vars_fit (code_step v kw).
Proof.
  destruct v as [[[[[[[a b] c] d] e] f] g] h]. cbn [vars_fit]. intros Hv.
  rewrite !Forall_cons in Hv. destruct Hv as (Ha & Hb & Hc & Hd & He & Hf & Hg & Hh & _).
  split.
  - unfold FIPS256.step, code_step, Round. destruct kw as [k w]. cbn [fst snd].
    destruct (Sigma_spec a Ha) as (<- & _). destruct (Sigma_spec e He) as (_ & <- & _).
    unfold Ch, Maj, FIPS256.Ch, FIPS256.Maj, FIPS256.NOT. rewrite <-majority_spec, <-(choose_spec 32) by (done || lia).
    by rewrite (add32_sum5 h (Sigma1 e) _ k w).
  - unfold code_step, Round. cbn [vars_fit]. rewrite !Forall_cons. auto 12 using add32_fits.
Qed.

Lemma foldl_code v l : vars_fit v → foldl FIPS256.step v l = foldl code_step v l.
Proof.
  revert v. induction l as [|kw l IH]; intros v Hv; simpl; [done|].
  destruct (code_step_spec v kw Hv) as [-> Hv']. by apply IH.
Qed.

(** * The message schedule *)

(** [W] is a schedule of the chunk, in the functions of the code. *)
Definition is_schedule (chunk W : list Z) : Prop :=
  (∀ i, (i < 16)%nat → nth i W 0 = ReadBE32 (drop (4 * i) chunk)) ∧
  (∀ t, (16 ≤ t < 64)%nat →
     nth t W 0 = nth (t - 16) W 0 ⊞ (sigma1 (nth (t - 2) W 0) ⊞ nth (t - 7) W 0 ⊞ sigma0 (nth (t - 15) W 0))).

Lemma W_next_spec W :
  words 32 W → (16 ≤ length W)%nat →
  FIPS256.W_next W = let t := length W in
    nth (t - 16) W 0 ⊞ (sigma1 (nth (t - 2) W 0) ⊞ nth (t - 7) W 0 ⊞ sigma0 (nth (t - 15) W 0)).
Proof.
  intros HW Ht. unfold FIPS256.W_next. cbv zeta.
  destruct (Sigma_spec (nth (length W - 2) W 0)) as (_ & _ & _ & <-); [by apply words_nth|].
  destruct (Sigma_spec (nth (length W - 15) W 0)) as (_ & _ & <- & _); [by apply words_nth|].
  rewrite !add32_assoc, add32_sum4. f_equal. lia.
Qed.

Lemma schedule_prefix chunk n :
  bytes chunk → (n ≤ 48)%nat →
  let W := Nat.iter n (λ W, W ++ [FIPS256.W_next W])
             ((λ i, ReadBE32 (drop (4 * i) chunk)) <$> seq 0 16) in
  words 32 W ∧ length W = (16 + n)%nat ∧
  (∀ i, (i < 16)%nat → nth i W 0 = ReadBE32 (drop (4 * i) chunk)) ∧
  (∀ t, (16 ≤ t < 16 + n)%nat →
     nth t W 0 = nth (t - 16) W 0 ⊞ (sigma1 (nth (t - 2) W 0) ⊞ nth (t - 7) W 0 ⊞ sigma0 (nth (t - 15) W 0))).
Proof.
  intros Hc. induction n as [|n IH]; intros Hn; cbv zeta.
  - split_and!; [|done| |intros; lia].
    + apply Forall_fmap, Forall_forall. intros i _. by apply ReadBE32_fits, Forall_drop.
    + intros i Hi. do 16 (destruct i as [|i]; [done|]). lia.
  - rewrite Nat.iter_succ. destruct IH as (HW & Hl & Hi & Ht); [lia|].
    set (W := Nat.iter n _ _) in *. split_and!.
    + apply Forall_app. split; [done|]. apply Forall_singleton. apply wrap_fits. lia.
    + rewrite length_app. simpl. lia.
    + intros i Hlt. rewrite nth_snoc_lt by lia. by apply Hi.
    + intros t Hlt. rewrite !(nth_snoc_lt (t - _)) by lia.
      destruct (decide (t = length W)) as [->|]; [|rewrite nth_snoc_lt by lia; apply Ht; lia].
      rewrite app_nth2, Nat.sub_diag by lia. cbn [nth]. rewrite W_next_spec by (done || lia). done.
Qed.

Lemma schedule_spec chunk :
  bytes chunk → length (FIPS256.schedule chunk) = 64%nat ∧ is_schedule chunk (FIPS256.schedule chunk).
Proof. intros Hc. destruct (schedule_prefix chunk 48 Hc) as (_ & ? & ? & ?); [lia|]. by split_and!. Qed.

(** * The unrolled rounds *)

Definition K_code : list Z := Eval vm_compute in FIPS256.K.

(** One line of the code against one step of the fold. *)
Lemma round_lemma {A} (R : Z * Z * Z * Z * Z * Z * Z * Z → A) (B : Z * Z → A) a b c d e f g h k w l :
  (∀ d' h', B (d', h') = R (foldl code_step (h', a, b, c, d', e, f, g) l)) →
  Let_In (Round a b c d e f g h k w) B =
  R (foldl code_step (a, b, c, d, e, f, g, h) ((k, w) :: l)).
Proof. intros H. unfold Let_In. cbn [foldl code_step fst snd]. destruct (Round a b c d e f g h k w) as [d' h']. apply H. Qed.

Ltac round R := apply (round_lemma R); intros ? ?; cbv beta iota.

Definition feed_forward (s : list Z) (v : Z * Z * Z * Z * Z * Z * Z * Z) : list Z :=
  let '(a, b, c, d, e, f, g, h) := v in
  [nth 0 s 0 ⊞ a; nth 1 s 0 ⊞ b; nth 2 s 0 ⊞ c; nth 3 s 0 ⊞ d;
   nth 4 s 0 ⊞ e; nth 5 s 0 ⊞ f; nth 6 s 0 ⊞ g; nth 7 s 0 ⊞ h].

Lemma rounds_unrolled chunk W s :
  length W = 64%nat → is_schedule chunk W →
  Transform s chunk =
  feed_forward s (foldl code_step (nth 0 s 0, nth 1 s 0, nth 2 s 0, nth 3 s 0, nth 4 s 0, nth 5 s 0,
                                   nth 6 s 0, nth 7 s 0) (zip K_code W)).
Proof.
  intros HW [Hi Ht].
  do 64 (destruct W as [|? W]; [done|]). destruct W; [|done].
  words_of Hi 0%nat 16%nat. words_of Ht 16%nat 48%nat. clear Hi Ht HW.
  unfold K_code. cbn [zip zip_with]. cbv delta [Transform] beta zeta.
  do 62 (take_word; round (feed_forward s)).
  do 2 (match goal with
        | E : ?x = ?y ⊞ (?p ⊞ ?q ⊞ ?r) |- Let_In (Round _ _ _ _ _ _ _ _ _ (?y ⊞ ?p ⊞ ?q ⊞ ?r)) _ = _ =>
            rewrite <-add32_assoc3, <-E
        end; round (feed_forward s)).
  reflexivity.
Qed.

Lemma K_code_eq : FIPS256.K = K_code.
Proof. vm_compute. reflexivity. Qed.

Lemma Initialize_eq : FIPS256.H0 = Initialize.
Proof. vm_compute. reflexivity. Qed.

Definition state_ok (s : list Z) : Prop := length s = 8%nat ∧ words 32 s.

Lemma feed_forward_ok s v : state_ok (feed_forward s v).
Proof.
  destruct v as [[[[[[[a b] c] d] e] f] g] h]. split; [done|].
  repeat (constructor; [apply add32_fits|]). constructor.
Qed.

Lemma compress_code s chunk :
  state_ok s →
  FIPS256.compress s chunk =
  feed_forward s (foldl code_step (nth 0 s 0, nth 1 s 0, nth 2 s 0, nth 3 s 0, nth 4 s 0, nth 5 s 0,
                                   nth 6 s 0, nth 7 s 0) (zip K_code (FIPS256.schedule chunk))).
Proof.
  intros [Hl Hw]. unfold FIPS256.compress. rewrite K_code_eq. generalize (zip K_code (FIPS256.schedule chunk)).
  intros l. do 8 (destruct s as [|? s]; [done|]). destruct s; [|done]. cbn [nth].
  rewrite foldl_code by exact Hw. by destruct (foldl _ _ l) as [[[[[[[? ?] ?] ?] ?] ?] ?] ?].
Qed.

Lemma Transform_compress s chunk :
  state_ok s → bytes chunk → Transform s chunk = FIPS256.compress s chunk ∧ state_ok (Transform s chunk).
Proof.
  intros Hs Hc. destruct (schedule_spec chunk Hc) as [HW Hsch].
  rewrite (rounds_unrolled chunk (FIPS256.schedule chunk)), compress_code by done.
  split; [done|]. apply feed_forward_ok.
Qed.

Lemma process_compress k s l :
  state_ok s → bytes l →
  process 64 Transform k s l = process 64 FIPS256.compress k s l ∧ state_ok (process 64 Transform k s l).
Proof.
  revert s l. induction k as [|k IH]; intros s l Hs Hl; [done|]. cbn [process].
  destruct (Transform_compress s (take 64 l)) as [Ht Hok]; [done|by apply Forall_take|].
  rewrite <-Ht. apply IH; [done|by apply Forall_drop].
Qed.

(** * The class *)

Lemma Finalize_absorbed h msg :
  absorbed 64 Transform Initialize h msg → bytes msg → Z.of_nat (length msg) < 2 ^ 61 →
  CSHA256_Finalize h = FIPS256.SHA256 msg.
Proof.
  intros Habs Hm Hl. unfold CSHA256_Finalize, FIPS256.SHA256. cbv zeta. f_equal.
  unfold CSHA256_Write. 
  replace (u64 (hbytes h ≪ 3)) with (8 * Z.of_nat (length msg))
    by (rewrite (absorbed_bytes _ _ _ _ _ Habs), length_bits_small by lia; done).

  pose proof (finalize_state 64 Transform ltac:(lia) eq_refl Initialize h msg 55
    (WriteBE64 (8 * Z.of_nat (length msg))) Habs) as Hf.
  rewrite length_WriteBE64 in Hf. specialize (Hf eq_refl ltac:(lia)).
  etrans; [exact Hf|]. rewrite Initialize_eq. apply process_compress; [|apply md_pad_bytes; [done|apply WriteBE64_bytes]].
  split; [done|]. repeat constructor; lia.
Qed.

Lemma digest_length s : length s = 8%nat → length (flat_map WriteBE32 s) = 32%nat.
Proof. intros Hs. do 8 (destruct s as [|? s]; [done|]). by destruct s. Qed.

Lemma sha256_stream buf datas :
  length buf = 64%nat → bytes (concat datas) → Z.of_nat (length (concat datas)) < 2 ^ 61 →
  CSHA256_Finalize (foldl CSHA256_Write (CSHA256_init buf) datas) = FIPS256.SHA256 (concat datas).
Proof.
  intros Hb Hm Hl. apply Finalize_absorbed; [|done|done].
  apply (writes_absorbed 64 Transform ltac:(lia) eq_refl Initialize _ []), absorbed_init; [lia|done].
Qed.

(** ** Properties *)

(** C35: For every byte string below 2^61 bytes, however it is cut into calls of
    [Write] and whatever the buffer held, [Finalize] returns the SHA-256 digest of
    FIPS 180-4 of the whole string: 64-step compression over the message schedule,
    constants from the roots of the first primes, and the standard padding. *)
Theorem CSHA256_fips buf datas :
  length buf = 64%nat → bytes (concat datas) → Z.of_nat (length (concat datas)) < 2 ^ 61 →
  CSHA256_Finalize (foldl CSHA256_Write (CSHA256_init buf) datas) = FIPS256.SHA256 (concat datas).
Proof. apply sha256_stream. Qed.

Lemma CSHA256_fips_witness :
  CSHA256_Finalize (foldl CSHA256_Write (CSHA256_init (replicate 64 0)) [[97]; [98; 99]]) =
  FIPS256.SHA256 [97; 98; 99].
Proof.
  apply (CSHA256_fips (replicate 64 0) [[97]; [98; 99]]); [reflexivity|repeat constructor; lia|reflexivity].
Defined.
