(* ===== verification/Sha1.v ===== *)
(** crypto/sha1.cpp: the SHA-1 compression function as the source unrolls it, and
    the [CSHA1] class. *)

From S2P Require Import Prelude CryptoCommon HashEngine.

Module sha1.

(** [uint32_t] addition and left rotation *)
Definition add32 (a b : Z) : Z := u32 (a + b).
#[local] Infix "⊞" := add32 (at level 50, left associativity).

(** [Round] returns the references it assigns, [b] and [e]. *)
Definition Round (a b c d e f k w : Z) : Z * Z :=
  (Z.lor (u32 (b ≪ 30)) (b ≫ 2), e ⊞ (Z.lor (u32 (a ≪ 5)) (a ≫ 27) ⊞ f ⊞ k ⊞ w)).

Definition f1 (b c d : Z) : Z := Z.lxor d (Z.land b (Z.lxor c d)).
Definition f2 (b c d : Z) : Z := Z.lxor (Z.lxor b c) d.
Definition f3 (b c d : Z) : Z := Z.lor (Z.land b c) (Z.land d (Z.lor b c)).

Definition left (x : Z) : Z := Z.lor (u32 (x ≪ 1)) (x ≫ 31).

Definition Initialize : list Z := [0x67452301; 0xEFCDAB89; 0x98BADCFE; 0x10325476; 0xC3D2E1F0].

Definition k1 : Z := 0x5A827999.
Definition k2 : Z := 0x6ED9EBA1.
Definition k3 : Z := 0x8F1BBCDC.
Definition k4 : Z := 0xCA62C1D6.

Definition Transform (s chunk : list Z) : list Z :=
  let a := nth 0 s 0 in let b := nth 1 s 0 in let c := nth 2 s 0 in let d := nth 3 s 0 in
  let e := nth 4 s 0 in
  dlet w0 := ReadBE32 (drop 0 chunk) in dlet '(b, e) := Round a b c d e (f1 b c d) k1 w0 in
  dlet w1 := ReadBE32 (drop 4 chunk) in dlet '(a, d) := Round e a b c d (f1 a b c) k1 w1 in
  dlet w2 := ReadBE32 (drop 8 chunk) in dlet '(e, c) := Round d e a b c (f1 e a b) k1 w2 in
  dlet w3 := ReadBE32 (drop 12 chunk) in dlet '(d, b) := Round c d e a b (f1 d e a) k1 w3 in
  dlet w4 := ReadBE32 (drop 16 chunk) in dlet '(c, a) := Round b c d e a (f1 c d e) k1 w4 in
  dlet w5 := ReadBE32 (drop 20 chunk) in dlet '(b, e) := Round a b c d e (f1 b c d) k1 w5 in
  dlet w6 := ReadBE32 (drop 24 chunk) in dlet '(a, d) := Round e a b c d (f1 a b c) k1 w6 in
  dlet w7 := ReadBE32 (drop 28 chunk) in dlet '(e, c) := Round d e a b c (f1 e a b) k1 w7 in
  dlet w8 := ReadBE32 (drop 32 chunk) in dlet '(d, b) := Round c d e a b (f1 d e a) k1 w8 in
  dlet w9 := ReadBE32 (drop 36 chunk) in dlet '(c, a) := Round b c d e a (f1 c d e) k1 w9 in
  dlet w10 := ReadBE32 (drop 40 chunk) in dlet '(b, e) := Round a b c d e (f1 b c d) k1 w10 in
  dlet w11 := ReadBE32 (drop 44 chunk) in dlet '(a, d) := Round e a b c d (f1 a b c) k1 w11 in
  dlet w12 := ReadBE32 (drop 48 chunk) in dlet '(e, c) := Round d e a b c (f1 e a b) k1 w12 in
  dlet w13 := ReadBE32 (drop 52 chunk) in dlet '(d, b) := Round c d e a b (f1 d e a) k1 w13 in
  dlet w14 := ReadBE32 (drop 56 chunk) in dlet '(c, a) := Round b c d e a (f1 c d e) k1 w14 in
  dlet w15 := ReadBE32 (drop 60 chunk) in dlet '(b, e) := Round a b c d e (f1 b c d) k1 w15 in
  dlet w0 := left (Z.lxor (Z.lxor (Z.lxor w0 w13) w8) w2) in
    dlet '(a, d) := Round e a b c d (f1 a b c) k1 w0 in
  dlet w1 := left (Z.lxor (Z.lxor (Z.lxor w1 w14) w9) w3) in
    dlet '(e, c) := Round d e a b c (f1 e a b) k1 w1 in
  dlet w2 := left (Z.lxor (Z.lxor (Z.lxor w2 w15) w10) w4) in
    dlet '(d, b) := Round c d e a b (f1 d e a) k1 w2 in
  dlet w3 := left (Z.lxor (Z.lxor (Z.lxor w3 w0) w11) w5) in
    dlet '(c, a) := Round b c d e a (f1 c d e) k1 w3 in
  dlet w4 := left (Z.lxor (Z.lxor (Z.lxor w4 w1) w12) w6) in
    dlet '(b, e) := Round a b c d e (f2 b c d) k2 w4 in
  dlet w5 := left (Z.lxor (Z.lxor (Z.lxor w5 w2) w13) w7) in
    dlet '(a, d) := Round e a b c d (f2 a b c) k2 w5 in
  dlet w6 := left (Z.lxor (Z.lxor (Z.lxor w6 w3) w14) w8) in
    dlet '(e, c) := Round d e a b c (f2 e a b) k2 w6 in
  dlet w7 := left (Z.lxor (Z.lxor (Z.lxor w7 w4) w15) w9) in
    dlet '(d, b) := Round c d e a b (f2 d e a) k2 w7 in
  dlet w8 := left (Z.lxor (Z.lxor (Z.lxor w8 w5) w0) w10) in
    dlet '(c, a) := Round b c d e a (f2 c d e) k2 w8 in
  dlet w9 := left (Z.lxor (Z.lxor (Z.lxor w9 w6) w1) w11) in
    dlet '(b, e) := Round a b c d e (f2 b c d) k2 w9 in
  dlet w10 := left (Z.lxor (Z.lxor (Z.lxor w10 w7) w2) w12) in
    dlet '(a, d) := Round e a b c d (f2 a b c) k2 w10 in
  dlet w11 := left (Z.lxor (Z.lxor (Z.lxor w11 w8) w3) w13) in
    dlet '(e, c) := Round d e a b c (f2 e a b) k2 w11 in
  dlet w12 := left (Z.lxor (Z.lxor (Z.lxor w12 w9) w4) w14) in
    dlet '(d, b) := Round c d e a b (f2 d e a) k2 w12 in
  dlet w13 := left (Z.lxor (Z.lxor (Z.lxor w13 w10) w5) w15) in
    dlet '(c, a) := Round b c d e a (f2 c d e) k2 w13 in
  dlet w14 := left (Z.lxor (Z.lxor (Z.lxor w14 w11) w6) w0) in
    dlet '(b, e) := Round a b c d e (f2 b c d) k2 w14 in
  dlet w15 := left (Z.lxor (Z.lxor (Z.lxor w15 w12) w7) w1) in
    dlet '(a, d) := Round e a b c d (f2 a b c) k2 w15 in
  dlet w0 := left (Z.lxor (Z.lxor (Z.lxor w0 w13) w8) w2) in
    dlet '(e, c) := Round d e a b c (f2 e a b) k2 w0 in
  dlet w1 := left (Z.lxor (Z.lxor (Z.lxor w1 w14) w9) w3) in
    dlet '(d, b) := Round c d e a b (f2 d e a) k2 w1 in
  dlet w2 := left (Z.lxor (Z.lxor (Z.lxor w2 w15) w10) w4) in
    dlet '(c, a) := Round b c d e a (f2 c d e) k2 w2 in
  dlet w3 := left (Z.lxor (Z.lxor (Z.lxor w3 w0) w11) w5) in
    dlet '(b, e) := Round a b c d e (f2 b c d) k2 w3 in
  dlet w4 := left (Z.lxor (Z.lxor (Z.lxor w4 w1) w12) w6) in
    dlet '(a, d) := Round e a b c d (f2 a b c) k2 w4 in
  dlet w5 := left (Z.lxor (Z.lxor (Z.lxor w5 w2) w13) w7) in
    dlet '(e, c) := Round d e a b c (f2 e a b) k2 w5 in
  dlet w6 := left (Z.lxor (Z.lxor (Z.lxor w6 w3) w14) w8) in
    dlet '(d, b) := Round c d e a b (f2 d e a) k2 w6 in
  dlet w7 := left (Z.lxor (Z.lxor (Z.lxor w7 w4) w15) w9) in
    dlet '(c, a) := Round b c d e a (f2 c d e) k2 w7 in
  dlet w8 := left (Z.lxor (Z.lxor (Z.lxor w8 w5) w0) w10) in
    dlet '(b, e) := Round a b c d e (f3 b c d) k3 w8 in
  dlet w9 := left (Z.lxor (Z.lxor (Z.lxor w9 w6) w1) w11) in
    dlet '(a, d) := Round e a b c d (f3 a b c) k3 w9 in
  dlet w10 := left (Z.lxor (Z.lxor (Z.lxor w10 w7) w2) w12) in
    dlet '(e, c) := Round d e a b c (f3 e a b) k3 w10 in
  dlet w11 := left (Z.lxor (Z.lxor (Z.lxor w11 w8) w3) w13) in
    dlet '(d, b) := Round c d e a b (f3 d e a) k3 w11 in
  dlet w12 := left (Z.lxor (Z.lxor (Z.lxor w12 w9) w4) w14) in
    dlet '(c, a) := Round b c d e a (f3 c d e) k3 w12 in
  dlet w13 := left (Z.lxor (Z.lxor (Z.lxor w13 w10) w5) w15) in
    dlet '(b, e) := Round a b c d e (f3 b c d) k3 w13 in
  dlet w14 := left (Z.lxor (Z.lxor (Z.lxor w14 w11) w6) w0) in
    dlet '(a, d) := Round e a b c d (f3 a b c) k3 w14 in
  dlet w15 := left (Z.lxor (Z.lxor (Z.lxor w15 w12) w7) w1) in
    dlet '(e, c) := Round d e a b c (f3 e a b) k3 w15 in
  dlet w0 := left (Z.lxor (Z.lxor (Z.lxor w0 w13) w8) w2) in
    dlet '(d, b) := Round c d e a b (f3 d e a) k3 w0 in
  dlet w1 := left (Z.lxor (Z.lxor (Z.lxor w1 w14) w9) w3) in
    dlet '(c, a) := Round b c d e a (f3 c d e) k3 w1 in
  dlet w2 := left (Z.lxor (Z.lxor (Z.lxor w2 w15) w10) w4) in
    dlet '(b, e) := Round a b c d e (f3 b c d) k3 w2 in
  dlet w3 := left (Z.lxor (Z.lxor (Z.lxor w3 w0) w11) w5) in
    dlet '(a, d) := Round e a b c d (f3 a b c) k3 w3 in
  dlet w4 := left (Z.lxor (Z.lxor (Z.lxor w4 w1) w12) w6) in
    dlet '(e, c) := Round d e a b c (f3 e a b) k3 w4 in
  dlet w5 := left (Z.lxor (Z.lxor (Z.lxor w5 w2) w13) w7) in
    dlet '(d, b) := Round c d e a b (f3 d e a) k3 w5 in
  dlet w6 := left (Z.lxor (Z.lxor (Z.lxor w6 w3) w14) w8) in
    dlet '(c, a) := Round b c d e a (f3 c d e) k3 w6 in
  dlet w7 := left (Z.lxor (Z.lxor (Z.lxor w7 w4) w15) w9) in
    dlet '(b, e) := Round a b c d e (f3 b c d) k3 w7 in
  dlet w8 := left (Z.lxor (Z.lxor (Z.lxor w8 w5) w0) w10) in
    dlet '(a, d) := Round e a b c d (f3 a b c) k3 w8 in
  dlet w9 := left (Z.lxor (Z.lxor (Z.lxor w9 w6) w1) w11) in
    dlet '(e, c) := Round d e a b c (f3 e a b) k3 w9 in
  dlet w10 := left (Z.lxor (Z.lxor (Z.lxor w10 w7) w2) w12) in
    dlet '(d, b) := Round c d e a b (f3 d e a) k3 w10 in
  dlet w11 := left (Z.lxor (Z.lxor (Z.lxor w11 w8) w3) w13) in
    dlet '(c, a) := Round b c d e a (f3 c d e) k3 w11 in
  dlet w12 := left (Z.lxor (Z.lxor (Z.lxor w12 w9) w4) w14) in
    dlet '(b, e) := Round a b c d e (f2 b c d) k4 w12 in
  dlet w13 := left (Z.lxor (Z.lxor (Z.lxor w13 w10) w5) w15) in
    dlet '(a, d) := Round e a b c d (f2 a b c) k4 w13 in
  dlet w14 := left (Z.lxor (Z.lxor (Z.lxor w14 w11) w6) w0) in
    dlet '(e, c) := Round d e a b c (f2 e a b) k4 w14 in
  dlet w15 := left (Z.lxor (Z.lxor (Z.lxor w15 w12) w7) w1) in
    dlet '(d, b) := Round c d e a b (f2 d e a) k4 w15 in
  dlet w0 := left (Z.lxor (Z.lxor (Z.lxor w0 w13) w8) w2) in
    dlet '(c, a) := Round b c d e a (f2 c d e) k4 w0 in
  dlet w1 := left (Z.lxor (Z.lxor (Z.lxor w1 w14) w9) w3) in
    dlet '(b, e) := Round a b c d e (f2 b c d) k4 w1 in
  dlet w2 := left (Z.lxor (Z.lxor (Z.lxor w2 w15) w10) w4) in
    dlet '(a, d) := Round e a b c d (f2 a b c) k4 w2 in
  dlet w3 := left (Z.lxor (Z.lxor (Z.lxor w3 w0) w11) w5) in
    dlet '(e, c) := Round d e a b c (f2 e a b) k4 w3 in
  dlet w4 := left (Z.lxor (Z.lxor (Z.lxor w4 w1) w12) w6) in
    dlet '(d, b) := Round c d e a b (f2 d e a) k4 w4 in
  dlet w5 := left (Z.lxor (Z.lxor (Z.lxor w5 w2) w13) w7) in
    dlet '(c, a) := Round b c d e a (f2 c d e) k4 w5 in
  dlet w6 := left (Z.lxor (Z.lxor (Z.lxor w6 w3) w14) w8) in
    dlet '(b, e) := Round a b c d e (f2 b c d) k4 w6 in
  dlet w7 := left (Z.lxor (Z.lxor (Z.lxor w7 w4) w15) w9) in
    dlet '(a, d) := Round e a b c d (f2 a b c) k4 w7 in
  dlet w8 := left (Z.lxor (Z.lxor (Z.lxor w8 w5) w0) w10) in
    dlet '(e, c) := Round d e a b c (f2 e a b) k4 w8 in
  dlet w9 := left (Z.lxor (Z.lxor (Z.lxor w9 w6) w1) w11) in
    dlet '(d, b) := Round c d e a b (f2 d e a) k4 w9 in
  dlet w10 := left (Z.lxor (Z.lxor (Z.lxor w10 w7) w2) w12) in
    dlet '(c, a) := Round b c d e a (f2 c d e) k4 w10 in
  dlet w11 := left (Z.lxor (Z.lxor (Z.lxor w11 w8) w3) w13) in
    dlet '(b, e) := Round a b c d e (f2 b c d) k4 w11 in
  dlet w12 := left (Z.lxor (Z.lxor (Z.lxor w12 w9) w4) w14) in
    dlet '(a, d) := Round e a b c d (f2 a b c) k4 w12 in
  dlet '(e, c) := Round d e a b c (f2 e a b) k4 (left (Z.lxor (Z.lxor (Z.lxor w13 w10) w5) w15)) in
  dlet '(d, b) := Round c d e a b (f2 d e a) k4 (left (Z.lxor (Z.lxor (Z.lxor w14 w11) w6) w0)) in
  dlet '(c, a) := Round b c d e a (f2 c d e) k4 (left (Z.lxor (Z.lxor (Z.lxor w15 w12) w7) w1)) in
  [nth 0 s 0 ⊞ a; nth 1 s 0 ⊞ b; nth 2 s 0 ⊞ c; nth 3 s 0 ⊞ d; nth 4 s 0 ⊞ e].

End sha1.

(** ** [CSHA1] *)

Definition CSHA1_init (buf : list Z) : hasher := Hasher sha1.Initialize buf 0.
Definition CSHA1_Write : hasher → list Z → hasher := Write 64 sha1.Transform.
Definition CSHA1_Finalize (h : hasher) : list Z :=
  let sizedesc := WriteBE64 (u64 (hbytes h ≪ 3)) in
  let pad := 0x80 :: replicate 63 0 in
  let h' := CSHA1_Write h (take (Z.to_nat (1 + (119 - hbytes h `mod` 64) `mod` 64)) pad) in
  let h' := CSHA1_Write h' sizedesc in
  flat_map WriteBE32 (hs h').
Definition CSHA1_Reset (h : hasher) : hasher := Hasher sha1.Initialize (hbuf h) 0.

(** [CSHA1().Write(data).Finalize(hash)] *)
Definition sha1_of (data : list Z) : list Z :=
  CSHA1_Finalize (CSHA1_Write (CSHA1_init (replicate 64 0)) data).

