(* ===== verification/Sha1Facts.v ===== *)
(** SHA-1: the unrolled code computes the function of FIPS 180-4. *)

From S2P Require Import Prelude CryptoCommon HashEngine Sha1.
Import sha1.

#[local] Infix "⊞" := add32 (at level 50, left associativity).

(** * The reference *)

Abbreviation vars5 := (Z * Z * Z * Z * Z)%type.
Abbreviation op := ((Z → Z → Z → Z) * Z)%type.

Module FIPS1.

Definition ROTL (n x : Z) : Z := (x `mod` 2 ^ (32 - n)) * 2 ^ n + x `div` 2 ^ (32 - n).
Definition NOT (x : Z) : Z := 2 ^ 32 - 1 - x.
Definition Ch x y z := Z.lxor (Z.land x y) (Z.land (NOT x) z).
Definition Parity x y z := Z.lxor (Z.lxor x y) z.
Definition Maj x y z := Z.lxor (Z.lxor (Z.land x y) (Z.land x z)) (Z.land y z).

(** [2 ^ 30] times the square root of 2, 3, 5 and 10. *)
Definition K (n : Z) : Z := Z.sqrt (n * 2 ^ 60).

(** The function and the constant of steps 0 to 79. *)
Definition ops : list op :=
  replicate 20 (Ch, K 2) ++ replicate 20 (Parity, K 3) ++ replicate 20 (Maj, K 5) ++ replicate 20 (Parity, K 10).

Definition H0 : list Z := [0x67452301; 0xefcdab89; 0x98badcfe; 0x10325476; 0xc3d2e1f0].

Definition W_next (W : list Z) : Z :=
  let t := length W in
  ROTL 1 (Z.lxor (Z.lxor (Z.lxor (nth (t - 3) W 0) (nth (t - 8) W 0)) (nth (t - 14) W 0)) (nth (t - 16) W 0)).
Definition schedule (chunk : list Z) : list Z :=
  Nat.iter 64 (λ W, W ++ [W_next W]) ((λ i, ReadBE32 (drop (4 * i) chunk)) <$> seq 0 16).

Definition step (v : vars5) (x : op * Z) : vars5 :=
  let '(a, b, c, d, e) := v in
  let '((f, k), w) := x in
  (u32 (ROTL 5 a + f b c d + e + k + w), a, ROTL 30 b, c, d).
Definition compress (s chunk : list Z) : list Z :=
  let '(a, b, c, d, e) :=
    foldl step (nth 0 s 0, nth 1 s 0, nth 2 s 0, nth 3 s 0, nth 4 s 0) (zip ops (schedule chunk)) in
  zip_with (λ x y, u32 (x + y)) (take 5 s) [a; b; c; d; e].

Definition pad (msg : list Z) : list Z := md_pad 64 55 (WriteBE64 (8 * Z.of_nat (length msg))) msg.
Definition SHA1 (msg : list Z) : list Z :=
  flat_map WriteBE32 (process 64 compress (length (pad msg) / 64) H0 (pad msg)).

End FIPS1.

(** * The working functions *)

Lemma sha1_add32_fits a b : fits 32 (a ⊞ b).
Proof. apply wrap_fits. lia. Qed.

Lemma sha1_rotl n m x :
  0 < n → 0 < m → n + m = 32 → fits 32 x → Z.lor (u32 (x ≪ n)) (x ≫ m) = FIPS1.ROTL n x.
Proof. intros Hn Hm E Hx. replace m with (32 - n) by lia. apply rotl_spec; [lia|done]. Qed.

Definition same_op (x y : op) : Prop :=
  x.2 = y.2 ∧ ∀ b c d, fits 32 b → fits 32 c → fits 32 d → x.1 b c d = y.1 b c d.

Definition code_ops : list op :=
  replicate 20 (f1, k1) ++ replicate 20 (f2, k2) ++ replicate 20 (f3, k3) ++ replicate 20 (f2, k4).

Lemma code_ops_same : Forall2 same_op FIPS1.ops code_ops.
Proof.
  repeat apply Forall2_app; apply Forall2_replicate; (split; [vm_compute; reflexivity|]); intros b c d Hb Hc Hd.
  - symmetry. by apply (choose_spec 32).
  - done.
  - symmetry. apply majority_spec.
  - done.
Qed.

Definition code_step (v : vars5) (x : op * Z) : vars5 :=
  let '(a, b, c, d, e) := v in
  let '((f, k), w) := x in
  let '(b', e') := Round a b c d e (f b c d) k w in (e', a, b', c, d).

Definition vars_fit (v : vars5) : Prop := let '(a, b, c, d, e) := v in words 32 [a; b; c; d; e].

Lemma sha1_code_step v x y w :
  vars_fit v → same_op x y → FIPS1.step v (x, w) = code_step v (y, w) ∧ vars_fit (code_step v (y, w)).
Proof.
  destruct v as [[[[a b] c] d] e], x as [f k], y as [f' k']. cbn [vars_fit]. intros Hv [Hk Hf].
  rewrite !Forall_cons in Hv. destruct Hv as (Ha & Hb & Hc & Hd & He & _). simpl in Hk, Hf. subst k'.
  unfold FIPS1.step, code_step, Round. rewrite <-Hf, !sha1_rotl by done. split.
  - do 4 f_equal. unfold add32. rewrite (wrap_add_l _ (FIPS1.ROTL 5 a + f b c d)), (wrap_add_l _ _ w), wrap_add_r.
    f_equal. lia.
  - cbn [vars_fit]. rewrite !Forall_cons. split_and!; auto using sha1_add32_fits.
    rewrite <-(sha1_rotl 30 2) by done. by apply fits_rotl.
Qed.

Lemma sha1_foldl v l l' W :
  vars_fit v → Forall2 same_op l l' → foldl FIPS1.step v (zip l W) = foldl code_step v (zip l' W).
Proof.
  intros Hv Hl. revert v W Hv. induction Hl as [|x y l l' Hxy _ IH]; intros v W Hv; [done|].
  destruct W as [|w W]; [done|]. simpl. destruct (sha1_code_step v x y w Hv Hxy) as [-> Hv']. by apply IH.
Qed.

(** * The message schedule *)

Definition is_schedule (chunk W : list Z) : Prop :=
  (∀ i, (i < 16)%nat → nth i W 0 = ReadBE32 (drop (4 * i) chunk)) ∧
  (∀ t, (16 ≤ t < 80)%nat →
     nth t W 0 = left (Z.lxor (Z.lxor (Z.lxor (nth (t - 16) W 0) (nth (t - 3) W 0)) (nth (t - 8) W 0))
                         (nth (t - 14) W 0))).

Lemma sha1_W_next W :
  words 32 W →
  FIPS1.W_next W = (let t := length W in
    left (Z.lxor (Z.lxor (Z.lxor (nth (t - 16) W 0) (nth (t - 3) W 0)) (nth (t - 8) W 0)) (nth (t - 14) W 0))) ∧
  fits 32 (FIPS1.W_next W).
Proof.
  intros HW. unfold FIPS1.W_next. cbv zeta. set (t := length W).
  rewrite (Z.lxor_comm _ (nth (t - 16) W 0)), <-!Z.lxor_assoc.
  assert (fits 32 (Z.lxor (Z.lxor (Z.lxor (nth (t - 16) W 0) (nth (t - 3) W 0)) (nth (t - 8) W 0))
                     (nth (t - 14) W 0))) as Hx by (repeat apply fits_lxor; auto with words lia).
  rewrite <-(sha1_rotl 1 31) by done. split; [done|]. by apply (fits_rotl 32 1).
Qed.

Lemma sha1_schedule_prefix chunk n :
  bytes chunk → (n ≤ 64)%nat →
  let W := Nat.iter n (λ W, W ++ [FIPS1.W_next W])
             ((λ i, ReadBE32 (drop (4 * i) chunk)) <$> seq 0 16) in
  words 32 W ∧ length W = (16 + n)%nat ∧
  (∀ i, (i < 16)%nat → nth i W 0 = ReadBE32 (drop (4 * i) chunk)) ∧
  (∀ t, (16 ≤ t < 16 + n)%nat →
     nth t W 0 = left (Z.lxor (Z.lxor (Z.lxor (nth (t - 16) W 0) (nth (t - 3) W 0)) (nth (t - 8) W 0))
                         (nth (t - 14) W 0))).
Proof.
  intros Hc. induction n as [|n IH]; intros Hn; cbv zeta.
  - split_and!; [|done| |intros; lia].
    + apply Forall_fmap, Forall_forall. intros i _. by apply ReadBE32_fits, Forall_drop.
    + intros i Hi. do 16 (destruct i as [|i]; [done|]). lia.
  - rewrite Nat.iter_succ. destruct IH as (HW & Hl & Hi & Ht); [lia|].
    set (W := Nat.iter n _ _) in *. destruct (sha1_W_next W HW) as [HWn HWf]. split_and!.
    + apply Forall_app. split; [done|]. by apply Forall_singleton.
    + rewrite length_app. simpl. lia.
    + intros i Hlt. rewrite nth_snoc_lt by lia. by apply Hi.
    + intros t Hlt. rewrite !(nth_snoc_lt (t - _)) by lia.
      destruct (decide (t = length W)) as [->|]; [|rewrite nth_snoc_lt by lia; apply Ht; lia].
      rewrite app_nth2, Nat.sub_diag by lia. cbn [nth]. by rewrite HWn.
Qed.

Lemma sha1_schedule_spec chunk :
  bytes chunk → length (FIPS1.schedule chunk) = 80%nat ∧ is_schedule chunk (FIPS1.schedule chunk).
Proof. intros Hc. destruct (sha1_schedule_prefix chunk 64 Hc) as (_ & ? & ? & ?); [lia|]. by split_and!. Qed.

(** * The unrolled rounds *)

Lemma sha1_round {A} (R : vars5 → A) (B : Z * Z → A) a b c d e f k w l :
  (∀ b' e', B (b', e') = R (foldl code_step (e', a, b', c, d) l)) →
  Let_In (Round a b c d e (f b c d) k w) B = R (foldl code_step (a, b, c, d, e) (((f, k), w) :: l)).
Proof.
  intros H. unfold Let_In. cbn [foldl code_step].
  destruct (Round a b c d e (f b c d) k w) as [b' e']. apply H.
Qed.

Definition feed_forward (s : list Z) (v : vars5) : list Z :=
  let '(a, b, c, d, e) := v in
  [nth 0 s 0 ⊞ a; nth 1 s 0 ⊞ b; nth 2 s 0 ⊞ c; nth 3 s 0 ⊞ d; nth 4 s 0 ⊞ e].

Lemma sha1_unrolled chunk W s :
  length W = 80%nat → is_schedule chunk W →
  Transform s chunk =
  feed_forward s (foldl code_step (nth 0 s 0, nth 1 s 0, nth 2 s 0, nth 3 s 0, nth 4 s 0) (zip code_ops W)).
Proof.
  intros HW [Hi Ht]. do 80 (destruct W as [|? W]; [done|]). destruct W; [|done].
  words_of Hi 0%nat 16%nat. words_of Ht 16%nat 64%nat. clear Hi Ht HW.
  unfold code_ops. cbn [zip zip_with replicate app]. cbv delta [Transform] beta zeta.
  do 77 (take_word; apply (sha1_round (feed_forward s)); intros ? ?; cbv beta iota).
  do 3 (match goal with
        | E : ?x = ?y |- Let_In (Round _ _ _ _ _ _ _ ?y) _ = _ => rewrite <-E
        end; apply (sha1_round (feed_forward s)); intros ? ?; cbv beta iota).
  reflexivity.
Qed.

Definition state_ok (s : list Z) : Prop := length s = 5%nat ∧ words 32 s.

Lemma sha1_feed_ok s v : state_ok (feed_forward s v).
Proof.
  destruct v as [[[[a b] c] d] e]. split; [done|].
  repeat (constructor; [apply sha1_add32_fits|]). constructor.
Qed.

Lemma sha1_compress_code s chunk :
  state_ok s →
  FIPS1.compress s chunk =
  feed_forward s (foldl code_step (nth 0 s 0, nth 1 s 0, nth 2 s 0, nth 3 s 0, nth 4 s 0)
    (zip code_ops (FIPS1.schedule chunk))).
Proof.
  intros [Hl Hw]. unfold FIPS1.compress. generalize (FIPS1.schedule chunk). intros W.
  do 5 (destruct s as [|? s]; [done|]). destruct s; [|done]. cbn [nth].
  rewrite (sha1_foldl _ _ code_ops) by (exact Hw || apply code_ops_same).
  by destruct (foldl _ _ _) as [[[[? ?] ?] ?] ?].
Qed.

Lemma sha1_process k s l :
  state_ok s → bytes l → process 64 Transform k s l = process 64 FIPS1.compress k s l.
Proof.
  revert s l. induction k as [|k IH]; intros s l Hs Hl; [done|]. cbn [process].
  assert (bytes (take 64 l)) as Hc by (by apply Forall_take).
  destruct (sha1_schedule_spec (take 64 l) Hc) as [HW Hsch].
  assert (Transform s (take 64 l) = FIPS1.compress s (take 64 l)) as Ht.
  { by rewrite (sha1_unrolled _ (FIPS1.schedule (take 64 l))), sha1_compress_code. }
  rewrite Ht. apply IH; [|by apply Forall_drop]. rewrite sha1_compress_code by done. apply sha1_feed_ok.
Qed.

(** * The class *)

Lemma sha1_Finalize h msg :
  absorbed 64 Transform Initialize h msg → bytes msg → Z.of_nat (length msg) < 2 ^ 61 →
  CSHA1_Finalize h = FIPS1.SHA1 msg.
Proof.
  intros Habs Hm Hl. unfold CSHA1_Finalize, FIPS1.SHA1. cbv zeta. f_equal. unfold CSHA1_Write.
  replace (u64 (hbytes h ≪ 3)) with (8 * Z.of_nat (length msg))
    by (rewrite (absorbed_bytes _ _ _ _ _ Habs), length_bits_small by lia; done).
  pose proof (finalize_state 64 Transform ltac:(lia) eq_refl Initialize h msg 55
    (WriteBE64 (8 * Z.of_nat (length msg))) Habs) as Hf.
  rewrite length_WriteBE64 in Hf. specialize (Hf eq_refl ltac:(lia)).
  etrans; [exact Hf|]. apply sha1_process; [split; [done|repeat constructor; lia]|].
  apply md_pad_bytes; [done|apply WriteBE64_bytes].
Qed.

(** ** Properties *)

(** For every byte string below 2^61 bytes, however it is cut into calls of
    [Write], [CSHA1::Finalize] returns the SHA-1 digest of FIPS 180-4. *)
Theorem CSHA1_fips buf datas :
  length buf = 64%nat → bytes (concat datas) → Z.of_nat (length (concat datas)) < 2 ^ 61 →
  CSHA1_Finalize (foldl CSHA1_Write (CSHA1_init buf) datas) = FIPS1.SHA1 (concat datas).
Proof.
  intros Hb Hm Hl. apply sha1_Finalize; [|done|done].
  apply (writes_absorbed 64 Transform ltac:(lia) eq_refl Initialize _ []), absorbed_init; [lia|done].
Qed.

Lemma CSHA1_fips_witness :
  CSHA1_Finalize (foldl CSHA1_Write (CSHA1_init (replicate 64 0)) [[97]; [98; 99]]) = FIPS1.SHA1 [97; 98; 99].
Proof.
  apply (CSHA1_fips (replicate 64 0) [[97]; [98; 99]]); [reflexivity|repeat constructor; lia|reflexivity].
Defined.
