(* ===== verification/Sha512.v ===== *)
(** crypto/sha512.cpp: the SHA-512 compression function as the source unrolls
    it, and the [CSHA512] class; crypto/hmac_sha512.cpp is in Hmac.v. *)

From S2P Require Import Prelude CryptoCommon HashEngine.

Module sha512.

(** [uint64_t] addition *)
Definition add64 (a b : Z) : Z := u64 (a + b).
#[local] Infix "⊞" := add64 (at level 50, left associativity).

Definition Ch (x y z : Z) : Z := Z.lxor z (Z.land x (Z.lxor y z)).
Definition Maj (x y z : Z) : Z := Z.lor (Z.land x y) (Z.land z (Z.lor x y)).
Definition Sigma0 (x : Z) : Z :=
  Z.lxor (Z.lxor (Z.lor (x ≫ 28) (u64 (x ≪ 36))) (Z.lor (x ≫ 34) (u64 (x ≪ 30))))
    (Z.lor (x ≫ 39) (u64 (x ≪ 25))).
Definition Sigma1 (x : Z) : Z :=
  Z.lxor (Z.lxor (Z.lor (x ≫ 14) (u64 (x ≪ 50))) (Z.lor (x ≫ 18) (u64 (x ≪ 46))))
    (Z.lor (x ≫ 41) (u64 (x ≪ 23))).
Definition sigma0 (x : Z) : Z :=
  Z.lxor (Z.lxor (Z.lor (x ≫ 1) (u64 (x ≪ 63))) (Z.lor (x ≫ 8) (u64 (x ≪ 56))))
    (x ≫ 7).
Definition sigma1 (x : Z) : Z :=
  Z.lxor (Z.lxor (Z.lor (x ≫ 19) (u64 (x ≪ 45))) (Z.lor (x ≫ 61) (u64 (x ≪ 3))))
    (x ≫ 6).

(** [Round] returns the references it assigns, [d] and [h]. *)
Definition Round (a b c d e f g h k w : Z) : Z * Z :=
  let t1 := h ⊞ Sigma1 e ⊞ Ch e f g ⊞ k ⊞ w in
  let t2 := Sigma0 a ⊞ Maj a b c in
  (d ⊞ t1, t1 ⊞ t2).

Definition Initialize : list Z :=
  [0x6a09e667f3bcc908; 0xbb67ae8584caa73b; 0x3c6ef372fe94f82b; 0xa54ff53a5f1d36f1;
   0x510e527fade682d1; 0x9b05688c2b3e6c1f; 0x1f83d9abfb41bd6b; 0x5be0cd19137e2179].

Definition Transform (s chunk : list Z) : list Z :=
  let a := nth 0 s 0 in let b := nth 1 s 0 in let c := nth 2 s 0 in let d := nth 3 s 0 in
  let e := nth 4 s 0 in let f := nth 5 s 0 in let g := nth 6 s 0 in let h := nth 7 s 0 in
  dlet w0 := ReadBE64 (drop 0 chunk) in dlet '(d, h) := Round a b c d e f g h 0x428a2f98d728ae22 w0 in
  dlet w1 := ReadBE64 (drop 8 chunk) in dlet '(c, g) := Round h a b c d e f g 0x7137449123ef65cd w1 in
  dlet w2 := ReadBE64 (drop 16 chunk) in dlet '(b, f) := Round g h a b c d e f 0xb5c0fbcfec4d3b2f w2 in
  dlet w3 := ReadBE64 (drop 24 chunk) in dlet '(a, e) := Round f g h a b c d e 0xe9b5dba58189dbbc w3 in
  dlet w4 := ReadBE64 (drop 32 chunk) in dlet '(h, d) := Round e f g h a b c d 0x3956c25bf348b538 w4 in
  dlet w5 := ReadBE64 (drop 40 chunk) in dlet '(g, c) := Round d e f g h a b c 0x59f111f1b605d019 w5 in
  dlet w6 := ReadBE64 (drop 48 chunk) in dlet '(f, b) := Round c d e f g h a b 0x923f82a4af194f9b w6 in
  dlet w7 := ReadBE64 (drop 56 chunk) in dlet '(e, a) := Round b c d e f g h a 0xab1c5ed5da6d8118 w7 in
  dlet w8 := ReadBE64 (drop 64 chunk) in dlet '(d, h) := Round a b c d e f g h 0xd807aa98a3030242 w8 in
  dlet w9 := ReadBE64 (drop 72 chunk) in dlet '(c, g) := Round h a b c d e f g 0x12835b0145706fbe w9 in
  dlet w10 := ReadBE64 (drop 80 chunk) in dlet '(b, f) := Round g h a b c d e f 0x243185be4ee4b28c w10 in
  dlet w11 := ReadBE64 (drop 88 chunk) in dlet '(a, e) := Round f g h a b c d e 0x550c7dc3d5ffb4e2 w11 in
  dlet w12 := ReadBE64 (drop 96 chunk) in dlet '(h, d) := Round e f g h a b c d 0x72be5d74f27b896f w12 in
  dlet w13 := ReadBE64 (drop 104 chunk) in dlet '(g, c) := Round d e f g h a b c 0x80deb1fe3b1696b1 w13 in
  dlet w14 := ReadBE64 (drop 112 chunk) in dlet '(f, b) := Round c d e f g h a b 0x9bdc06a725c71235 w14 in
  dlet w15 := ReadBE64 (drop 120 chunk) in dlet '(e, a) := Round b c d e f g h a 0xc19bf174cf692694 w15 in
  dlet w0 := w0 ⊞ (sigma1 w14 ⊞ w9 ⊞ sigma0 w1) in dlet '(d, h) := Round a b c d e f g h 0xe49b69c19ef14ad2 w0 in
  dlet w1 := w1 ⊞ (sigma1 w15 ⊞ w10 ⊞ sigma0 w2) in dlet '(c, g) := Round h a b c d e f g 0xefbe4786384f25e3 w1 in
  dlet w2 := w2 ⊞ (sigma1 w0 ⊞ w11 ⊞ sigma0 w3) in dlet '(b, f) := Round g h a b c d e f 0x0fc19dc68b8cd5b5 w2 in
  dlet w3 := w3 ⊞ (sigma1 w1 ⊞ w12 ⊞ sigma0 w4) in dlet '(a, e) := Round f g h a b c d e 0x240ca1cc77ac9c65 w3 in
  dlet w4 := w4 ⊞ (sigma1 w2 ⊞ w13 ⊞ sigma0 w5) in dlet '(h, d) := Round e f g h a b c d 0x2de92c6f592b0275 w4 in
  dlet w5 := w5 ⊞ (sigma1 w3 ⊞ w14 ⊞ sigma0 w6) in dlet '(g, c) := Round d e f g h a b c 0x4a7484aa6ea6e483 w5 in
  dlet w6 := w6 ⊞ (sigma1 w4 ⊞ w15 ⊞ sigma0 w7) in dlet '(f, b) := Round c d e f g h a b 0x5cb0a9dcbd41fbd4 w6 in
  dlet w7 := w7 ⊞ (sigma1 w5 ⊞ w0 ⊞ sigma0 w8) in dlet '(e, a) := Round b c d e f g h a 0x76f988da831153b5 w7 in
  dlet w8 := w8 ⊞ (sigma1 w6 ⊞ w1 ⊞ sigma0 w9) in dlet '(d, h) := Round a b c d e f g h 0x983e5152ee66dfab w8 in
  dlet w9 := w9 ⊞ (sigma1 w7 ⊞ w2 ⊞ sigma0 w10) in dlet '(c, g) := Round h a b c d e f g 0xa831c66d2db43210 w9 in
  dlet w10 := w10 ⊞ (sigma1 w8 ⊞ w3 ⊞ sigma0 w11) in dlet '(b, f) := Round g h a b c d e f 0xb00327c898fb213f w10 in
  dlet w11 := w11 ⊞ (sigma1 w9 ⊞ w4 ⊞ sigma0 w12) in dlet '(a, e) := Round f g h a b c d e 0xbf597fc7beef0ee4 w11 in
  dlet w12 := w12 ⊞ (sigma1 w10 ⊞ w5 ⊞ sigma0 w13) in dlet '(h, d) := Round e f g h a b c d 0xc6e00bf33da88fc2 w12 in
  dlet w13 := w13 ⊞ (sigma1 w11 ⊞ w6 ⊞ sigma0 w14) in dlet '(g, c) := Round d e f g h a b c 0xd5a79147930aa725 w13 in
  dlet w14 := w14 ⊞ (sigma1 w12 ⊞ w7 ⊞ sigma0 w15) in dlet '(f, b) := Round c d e f g h a b 0x06ca6351e003826f w14 in
  dlet w15 := w15 ⊞ (sigma1 w13 ⊞ w8 ⊞ sigma0 w0) in dlet '(e, a) := Round b c d e f g h a 0x142929670a0e6e70 w15 in
  dlet w0 := w0 ⊞ (sigma1 w14 ⊞ w9 ⊞ sigma0 w1) in dlet '(d, h) := Round a b c d e f g h 0x27b70a8546d22ffc w0 in
  dlet w1 := w1 ⊞ (sigma1 w15 ⊞ w10 ⊞ sigma0 w2) in dlet '(c, g) := Round h a b c d e f g 0x2e1b21385c26c926 w1 in
  dlet w2 := w2 ⊞ (sigma1 w0 ⊞ w11 ⊞ sigma0 w3) in dlet '(b, f) := Round g h a b c d e f 0x4d2c6dfc5ac42aed w2 in
  dlet w3 := w3 ⊞ (sigma1 w1 ⊞ w12 ⊞ sigma0 w4) in dlet '(a, e) := Round f g h a b c d e 0x53380d139d95b3df w3 in
  dlet w4 := w4 ⊞ (sigma1 w2 ⊞ w13 ⊞ sigma0 w5) in dlet '(h, d) := Round e f g h a b c d 0x650a73548baf63de w4 in
  dlet w5 := w5 ⊞ (sigma1 w3 ⊞ w14 ⊞ sigma0 w6) in dlet '(g, c) := Round d e f g h a b c 0x766a0abb3c77b2a8 w5 in
  dlet w6 := w6 ⊞ (sigma1 w4 ⊞ w15 ⊞ sigma0 w7) in dlet '(f, b) := Round c d e f g h a b 0x81c2c92e47edaee6 w6 in
  dlet w7 := w7 ⊞ (sigma1 w5 ⊞ w0 ⊞ sigma0 w8) in dlet '(e, a) := Round b c d e f g h a 0x92722c851482353b w7 in
  dlet w8 := w8 ⊞ (sigma1 w6 ⊞ w1 ⊞ sigma0 w9) in dlet '(d, h) := Round a b c d e f g h 0xa2bfe8a14cf10364 w8 in
  dlet w9 := w9 ⊞ (sigma1 w7 ⊞ w2 ⊞ sigma0 w10) in dlet '(c, g) := Round h a b c d e f g 0xa81a664bbc423001 w9 in
  dlet w10 := w10 ⊞ (sigma1 w8 ⊞ w3 ⊞ sigma0 w11) in dlet '(b, f) := Round g h a b c d e f 0xc24b8b70d0f89791 w10 in
  dlet w11 := w11 ⊞ (sigma1 w9 ⊞ w4 ⊞ sigma0 w12) in dlet '(a, e) := Round f g h a b c d e 0xc76c51a30654be30 w11 in
  dlet w12 := w12 ⊞ (sigma1 w10 ⊞ w5 ⊞ sigma0 w13) in dlet '(h, d) := Round e f g h a b c d 0xd192e819d6ef5218 w12 in
  dlet w13 := w13 ⊞ (sigma1 w11 ⊞ w6 ⊞ sigma0 w14) in dlet '(g, c) := Round d e f g h a b c 0xd69906245565a910 w13 in
  dlet w14 := w14 ⊞ (sigma1 w12 ⊞ w7 ⊞ sigma0 w15) in dlet '(f, b) := Round c d e f g h a b 0xf40e35855771202a w14 in
  dlet w15 := w15 ⊞ (sigma1 w13 ⊞ w8 ⊞ sigma0 w0) in dlet '(e, a) := Round b c d e f g h a 0x106aa07032bbd1b8 w15 in
  dlet w0 := w0 ⊞ (sigma1 w14 ⊞ w9 ⊞ sigma0 w1) in dlet '(d, h) := Round a b c d e f g h 0x19a4c116b8d2d0c8 w0 in
  dlet w1 := w1 ⊞ (sigma1 w15 ⊞ w10 ⊞ sigma0 w2) in dlet '(c, g) := Round h a b c d e f g 0x1e376c085141ab53 w1 in
  dlet w2 := w2 ⊞ (sigma1 w0 ⊞ w11 ⊞ sigma0 w3) in dlet '(b, f) := Round g h a b c d e f 0x2748774cdf8eeb99 w2 in
  dlet w3 := w3 ⊞ (sigma1 w1 ⊞ w12 ⊞ sigma0 w4) in dlet '(a, e) := Round f g h a b c d e 0x34b0bcb5e19b48a8 w3 in
  dlet w4 := w4 ⊞ (sigma1 w2 ⊞ w13 ⊞ sigma0 w5) in dlet '(h, d) := Round e f g h a b c d 0x391c0cb3c5c95a63 w4 in
  dlet w5 := w5 ⊞ (sigma1 w3 ⊞ w14 ⊞ sigma0 w6) in dlet '(g, c) := Round d e f g h a b c 0x4ed8aa4ae3418acb w5 in
  dlet w6 := w6 ⊞ (sigma1 w4 ⊞ w15 ⊞ sigma0 w7) in dlet '(f, b) := Round c d e f g h a b 0x5b9cca4f7763e373 w6 in
  dlet w7 := w7 ⊞ (sigma1 w5 ⊞ w0 ⊞ sigma0 w8) in dlet '(e, a) := Round b c d e f g h a 0x682e6ff3d6b2b8a3 w7 in
  dlet w8 := w8 ⊞ (sigma1 w6 ⊞ w1 ⊞ sigma0 w9) in dlet '(d, h) := Round a b c d e f g h 0x748f82ee5defb2fc w8 in
  dlet w9 := w9 ⊞ (sigma1 w7 ⊞ w2 ⊞ sigma0 w10) in dlet '(c, g) := Round h a b c d e f g 0x78a5636f43172f60 w9 in
  dlet w10 := w10 ⊞ (sigma1 w8 ⊞ w3 ⊞ sigma0 w11) in dlet '(b, f) := Round g h a b c d e f 0x84c87814a1f0ab72 w10 in
  dlet w11 := w11 ⊞ (sigma1 w9 ⊞ w4 ⊞ sigma0 w12) in dlet '(a, e) := Round f g h a b c d e 0x8cc702081a6439ec w11 in
  dlet w12 := w12 ⊞ (sigma1 w10 ⊞ w5 ⊞ sigma0 w13) in dlet '(h, d) := Round e f g h a b c d 0x90befffa23631e28 w12 in
  dlet w13 := w13 ⊞ (sigma1 w11 ⊞ w6 ⊞ sigma0 w14) in dlet '(g, c) := Round d e f g h a b c 0xa4506cebde82bde9 w13 in
  dlet w14 := w14 ⊞ (sigma1 w12 ⊞ w7 ⊞ sigma0 w15) in dlet '(f, b) := Round c d e f g h a b 0xbef9a3f7b2c67915 w14 in
  dlet w15 := w15 ⊞ (sigma1 w13 ⊞ w8 ⊞ sigma0 w0) in dlet '(e, a) := Round b c d e f g h a 0xc67178f2e372532b w15 in
  dlet w0 := w0 ⊞ (sigma1 w14 ⊞ w9 ⊞ sigma0 w1) in dlet '(d, h) := Round a b c d e f g h 0xca273eceea26619c w0 in
  dlet w1 := w1 ⊞ (sigma1 w15 ⊞ w10 ⊞ sigma0 w2) in dlet '(c, g) := Round h a b c d e f g 0xd186b8c721c0c207 w1 in
  dlet w2 := w2 ⊞ (sigma1 w0 ⊞ w11 ⊞ sigma0 w3) in dlet '(b, f) := Round g h a b c d e f 0xeada7dd6cde0eb1e w2 in
  dlet w3 := w3 ⊞ (sigma1 w1 ⊞ w12 ⊞ sigma0 w4) in dlet '(a, e) := Round f g h a b c d e 0xf57d4f7fee6ed178 w3 in
  dlet w4 := w4 ⊞ (sigma1 w2 ⊞ w13 ⊞ sigma0 w5) in dlet '(h, d) := Round e f g h a b c d 0x06f067aa72176fba w4 in
  dlet w5 := w5 ⊞ (sigma1 w3 ⊞ w14 ⊞ sigma0 w6) in dlet '(g, c) := Round d e f g h a b c 0x0a637dc5a2c898a6 w5 in
  dlet w6 := w6 ⊞ (sigma1 w4 ⊞ w15 ⊞ sigma0 w7) in dlet '(f, b) := Round c d e f g h a b 0x113f9804bef90dae w6 in
  dlet w7 := w7 ⊞ (sigma1 w5 ⊞ w0 ⊞ sigma0 w8) in dlet '(e, a) := Round b c d e f g h a 0x1b710b35131c471b w7 in
  dlet w8 := w8 ⊞ (sigma1 w6 ⊞ w1 ⊞ sigma0 w9) in dlet '(d, h) := Round a b c d e f g h 0x28db77f523047d84 w8 in
  dlet w9 := w9 ⊞ (sigma1 w7 ⊞ w2 ⊞ sigma0 w10) in dlet '(c, g) := Round h a b c d e f g 0x32caab7b40c72493 w9 in
  dlet w10 := w10 ⊞ (sigma1 w8 ⊞ w3 ⊞ sigma0 w11) in dlet '(b, f) := Round g h a b c d e f 0x3c9ebe0a15c9bebc w10 in
  dlet w11 := w11 ⊞ (sigma1 w9 ⊞ w4 ⊞ sigma0 w12) in dlet '(a, e) := Round f g h a b c d e 0x431d67c49c100d4c w11 in
  dlet w12 := w12 ⊞ (sigma1 w10 ⊞ w5 ⊞ sigma0 w13) in dlet '(h, d) := Round e f g h a b c d 0x4cc5d4becb3e42b6 w12 in
  dlet w13 := w13 ⊞ (sigma1 w11 ⊞ w6 ⊞ sigma0 w14) in dlet '(g, c) := Round d e f g h a b c 0x597f299cfc657e2a w13 in
  dlet '(f, b) := Round c d e f g h a b 0x5fcb6fab3ad6faec (w14 ⊞ sigma1 w12 ⊞ w7 ⊞ sigma0 w15) in
  dlet '(e, a) := Round b c d e f g h a 0x6c44198c4a475817 (w15 ⊞ sigma1 w13 ⊞ w8 ⊞ sigma0 w0) in
  [nth 0 s 0 ⊞ a; nth 1 s 0 ⊞ b; nth 2 s 0 ⊞ c; nth 3 s 0 ⊞ d;
   nth 4 s 0 ⊞ e; nth 5 s 0 ⊞ f; nth 6 s 0 ⊞ g; nth 7 s 0 ⊞ h].

End sha512.

(** ** [CSHA512] *)

Definition CSHA512_init (buf : list Z) : hasher := Hasher sha512.Initialize buf 0.
Definition CSHA512_Write : hasher → list Z → hasher := Write 128 sha512.Transform.
Definition CSHA512_Finalize (h : hasher) : list Z :=
  let sizedesc := replicate 8 0 ++ WriteBE64 (u64 (hbytes h ≪ 3)) in
  let pad := 0x80 :: replicate 127 0 in
  let h' := CSHA512_Write h (take (Z.to_nat (1 + (239 - hbytes h `mod` 128) `mod` 128)) pad) in
  let h' := CSHA512_Write h' sizedesc in
  flat_map WriteBE64 (hs h').
Definition CSHA512_Reset (h : hasher) : hasher := Hasher sha512.Initialize (hbuf h) 0.

(** [CSHA512().Write(data).Finalize(hash)] *)
Definition sha512_of (data : list Z) : list Z :=
  CSHA512_Finalize (CSHA512_Write (CSHA512_init (replicate 128 0)) data).

