(* ===== verification/Sha512Facts.v ===== *)
(** SHA-512: the unrolled code computes the function of FIPS 180-4. *)

From S2P Require Import Prelude CryptoCommon HashEngine Sha512.
Import sha512.

#[local] Infix "⊞" := add64 (at level 50, left associativity).

(** * The reference *)

Module FIPS512.

Definition ROTR (n x : Z) : Z := x `div` 2 ^ n + (x `mod` 2 ^ n) * 2 ^ (64 - n).
Definition SHR (n x : Z) : Z := x `div` 2 ^ n.
Definition NOT (x : Z) : Z := 2 ^ 64 - 1 - x.
Definition Ch x y z := Z.lxor (Z.land x y) (Z.land (NOT x) z).
Definition Maj x y z := Z.lxor (Z.lxor (Z.land x y) (Z.land x z)) (Z.land y z).
Definition Σ0 x := Z.lxor (Z.lxor (ROTR 28 x) (ROTR 34 x)) (ROTR 39 x).
Definition Σ1 x := Z.lxor (Z.lxor (ROTR 14 x) (ROTR 18 x)) (ROTR 41 x).
Definition σ0 x := Z.lxor (Z.lxor (ROTR 1 x) (ROTR 8 x)) (SHR 7 x).
Definition σ1 x := Z.lxor (Z.lxor (ROTR 19 x) (ROTR 61 x)) (SHR 6 x).

(** The first 64 bits of the fractional parts of the cube and square roots. *)
Definition K : list Z := (λ p, u64 (icbrt 70 0 (p * 2 ^ 192))) <$> take 80 primes.
Definition H0 : list Z := (λ p, u64 (Z.sqrt (p * 2 ^ 128))) <$> take 8 primes.

(** The message schedule [W_0 .. W_79] *)
Definition W_next (W : list Z) : Z :=
  let t := length W in
  u64 (σ1 (nth (t - 2) W 0) + nth (t - 7) W 0 + σ0 (nth (t - 15) W 0) + nth (t - 16) W 0).
Definition schedule (chunk : list Z) : list Z :=
  Nat.iter 64 (λ W, W ++ [W_next W]) ((λ i, ReadBE64 (drop (8 * i) chunk)) <$> seq 0 16).

(** One step on the working variables, and the compression function. *)
Definition step (v : Z * Z * Z * Z * Z * Z * Z * Z) (kw : Z * Z) : Z * Z * Z * Z * Z * Z * Z * Z :=
  let '(a, b, c, d, e, f, g, h) := v in
  let T1 := u64 (h + Σ1 e + Ch e f g + kw.1 + kw.2) in
  let T2 := u64 (Σ0 a + Maj a b c) in
  (u64 (T1 + T2), a, b, c, u64 (d + T1), e, f, g).
Definition compress (s chunk : list Z) : list Z :=
  let '(a, b, c, d, e, f, g, h) :=
    foldl step (nth 0 s 0, nth 1 s 0, nth 2 s 0, nth 3 s 0, nth 4 s 0, nth 5 s 0, nth 6 s 0, nth 7 s 0)
      (zip K (schedule chunk)) in
  zip_with (λ x y, u64 (x + y)) (take 8 s) [a; b; c; d; e; f; g; h].

(** The padded message and the hash *)
Definition pad (msg : list Z) : list Z := md_pad 128 111 (replicate 8 0 ++ WriteBE64 (8 * Z.of_nat (length msg))) msg.
Definition SHA512 (msg : list Z) : list Z :=
  flat_map WriteBE64 (process 128 compress (length (pad msg) / 128) H0 (pad msg)).

End FIPS512.

(** * The working functions *)

Lemma sha512_add64_fits a b : fits 64 (a ⊞ b).
Proof. apply wrap_fits. lia. Qed.

Lemma sha512_add64_assoc a b c : a ⊞ (b ⊞ c) = a ⊞ b ⊞ c.
Proof. unfold add64. rewrite wrap_add_l, wrap_add_r. f_equal. lia. Qed.

Lemma sha512_add64_assoc3 a b c d : a ⊞ (b ⊞ c ⊞ d) = a ⊞ b ⊞ c ⊞ d.
Proof. by rewrite !sha512_add64_assoc. Qed.

Lemma sha512_add64_sum4 a b c d : a ⊞ b ⊞ c ⊞ d = u64 (a + b + c + d).
Proof. unfold add64. by rewrite (wrap_add_l _ (a + b)), (wrap_add_l _ (a + b + c)). Qed.

Lemma sha512_add64_sum5 a b c d e : a ⊞ b ⊞ c ⊞ d ⊞ e = u64 (a + b + c + d + e).
Proof. rewrite (sha512_add64_sum4 a b c d). apply wrap_add_l. Qed.

Lemma sha512_Sigma_spec x :
  fits 64 x →
  Sigma0 x = FIPS512.Σ0 x ∧ Sigma1 x = FIPS512.Σ1 x ∧ sigma0 x = FIPS512.σ0 x ∧ sigma1 x = FIPS512.σ1 x.
Proof.
  intros Hx.
  assert (∀ n m, 0 < n → 0 < m → n + m = 64 → Z.lor (x ≫ n) (u64 (x ≪ m)) = FIPS512.ROTR n x) as R.
  { intros n m Hn Hm E. replace m with (64 - n) by lia. apply rotr_spec; [lia|done]. }
  unfold Sigma0, Sigma1, sigma0, sigma1, FIPS512.Σ0, FIPS512.Σ1, FIPS512.σ0, FIPS512.σ1, FIPS512.SHR.
  rewrite (R 28 36), (R 34 30), (R 39 25), (R 14 50), (R 18 46), (R 41 23), (R 1 63), (R 8 56),
    (R 19 45), (R 61 3) by done.
  by rewrite !Z.shiftr_div_pow2 by lia.
Qed.

(** The step of the reference, in the functions of the code. *)
Definition code_step (v : Z * Z * Z * Z * Z * Z * Z * Z) (kw : Z * Z) : Z * Z * Z * Z * Z * Z * Z * Z :=
  let '(a, b, c, d, e, f, g, h) := v in
  let '(d, h) := Round a b c d e f g h kw.1 kw.2 in (h, a, b, c, d, e, f, g).

Definition vars_fit (v : Z * Z * Z * Z * Z * Z * Z * Z) : Prop :=
  let '(a, b, c, d, e, f, g, h) := v in words 64 [a; b; c; d; e; f; g; h].

Lemma sha512_code_step_spec v kw :
  vars_fit v → FIPS512.step v kw = code_step v kw ∧ vars_fit (code_step v kw).
Proof.
  destruct v as [[[[[[[a b] c] d] e] f] g] h]. cbn [vars_fit]. intros Hv.
  rewrite !Forall_cons in Hv. destruct Hv as (Ha & Hb & Hc & Hd & He & Hf & Hg & Hh & _).
  split.
  - unfold FIPS512.step, code_step, Round. destruct kw as [k w]. cbn [fst snd].
    destruct (sha512_Sigma_spec a Ha) as (<- & _). destruct (sha512_Sigma_spec e He) as (_ & <- & _).
    unfold Ch, Maj, FIPS512.Ch, FIPS512.Maj, FIPS512.NOT. rewrite <-majority_spec, <-(choose_spec 64) by (done || lia).
    by rewrite (sha512_add64_sum5 h (Sigma1 e) _ k w).
  - unfold code_step, Round. cbn [vars_fit]. rewrite !Forall_cons. auto 12 using sha512_add64_fits.
Qed.

Lemma sha512_foldl_code v l : vars_fit v → foldl FIPS512.step v l = foldl code_step v l.
Proof.
  revert v. induction l as [|kw l IH]; intros v Hv; simpl; [done|].
  destruct (sha512_code_step_spec v kw Hv) as [-> Hv']. by apply IH.
Qed.

(** * The message schedule *)

(** [W] is a schedule of the chunk, in the functions of the code. *)
Definition is_schedule (chunk W : list Z) : Prop :=
  (∀ i, (i < 16)%nat → nth i W 0 = ReadBE64 (drop (8 * i) chunk)) ∧
  (∀ t, (16 ≤ t < 80)%nat →
     nth t W 0 = nth (t - 16) W 0 ⊞ (sigma1 (nth (t - 2) W 0) ⊞ nth (t - 7) W 0 ⊞ sigma0 (nth (t - 15) W 0))).

Lemma sha512_W_next_spec W :
  words 64 W → (16 ≤ length W)%nat →
  FIPS512.W_next W = let t := length W in
    nth (t - 16) W 0 ⊞ (sigma1 (nth (t - 2) W 0) ⊞ nth (t - 7) W 0 ⊞ sigma0 (nth (t - 15) W 0)).
Proof.
  intros HW Ht. unfold FIPS512.W_next. cbv zeta.
  destruct (sha512_Sigma_spec (nth (length W - 2) W 0)) as (_ & _ & _ & <-); [by apply words_nth|].
  destruct (sha512_Sigma_spec (nth (length W - 15) W 0)) as (_ & _ & <- & _); [by apply words_nth|].
  rewrite !sha512_add64_assoc, sha512_add64_sum4. f_equal. lia.
Qed.

Lemma sha512_schedule_prefix chunk n :
  bytes chunk → (n ≤ 64)%nat →
  let W := Nat.iter n (λ W, W ++ [FIPS512.W_next W])
             ((λ i, ReadBE64 (drop (8 * i) chunk)) <$> seq 0 16) in
  words 64 W ∧ length W = (16 + n)%nat ∧
  (∀ i, (i < 16)%nat → nth i W 0 = ReadBE64 (drop (8 * i) chunk)) ∧
  (∀ t, (16 ≤ t < 16 + n)%nat →
     nth t W 0 = nth (t - 16) W 0 ⊞ (sigma1 (nth (t - 2) W 0) ⊞ nth (t - 7) W 0 ⊞ sigma0 (nth (t - 15) W 0))).
Proof.
  intros Hc. induction n as [|n IH]; intros Hn; cbv zeta.
  - split_and!; [|done| |intros; lia].
    + apply Forall_fmap, Forall_forall. intros i _. by apply ReadBE64_fits, Forall_drop.
    + intros i Hi. do 16 (destruct i as [|i]; [done|]). lia.
  - rewrite Nat.iter_succ. destruct IH as (HW & Hl & Hi & Ht); [lia|].
    set (W := Nat.iter n _ _) in *. split_and!.
    + apply Forall_app. split; [done|]. apply Forall_singleton. apply wrap_fits. lia.
    + rewrite length_app. simpl. lia.
    + intros i Hlt. rewrite nth_snoc_lt by lia. by apply Hi.
    + intros t Hlt. rewrite !(nth_snoc_lt (t - _)) by lia.
      destruct (decide (t = length W)) as [->|]; [|rewrite nth_snoc_lt by lia; apply Ht; lia].
      rewrite app_nth2, Nat.sub_diag by lia. cbn [nth]. rewrite sha512_W_next_spec by (done || lia). done.
Qed.

Lemma sha512_schedule_spec chunk :
  bytes chunk → length (FIPS512.schedule chunk) = 80%nat ∧ is_schedule chunk (FIPS512.schedule chunk).
Proof. intros Hc. destruct (sha512_schedule_prefix chunk 64 Hc) as (_ & ? & ? & ?); [lia|]. by split_and!. Qed.

(** * The unrolled rounds *)

Definition K_code : list Z := Eval vm_compute in FIPS512.K.

(** One line of the code against one step of the fold. *)
Lemma sha512_round_lemma {A} (R : Z * Z * Z * Z * Z * Z * Z * Z → A) (B : Z * Z → A) a b c d e f g h k w l :
  (∀ d' h', B (d', h') = R (foldl code_step (h', a, b, c, d', e, f, g) l)) →
  Let_In (Round a b c d e f g h k w) B =
  R (foldl code_step (a, b, c, d, e, f, g, h) ((k, w) :: l)).
Proof. intros H. unfold Let_In. cbn [foldl code_step fst snd]. destruct (Round a b c d e f g h k w) as [d' h']. apply H. Qed.

Ltac round R := apply (sha512_round_lemma R); intros ? ?; cbv beta iota.

Definition feed_forward (s : list Z) (v : Z * Z * Z * Z * Z * Z * Z * Z) : list Z :=
  let '(a, b, c, d, e, f, g, h) := v in
  [nth 0 s 0 ⊞ a; nth 1 s 0 ⊞ b; nth 2 s 0 ⊞ c; nth 3 s 0 ⊞ d;
   nth 4 s 0 ⊞ e; nth 5 s 0 ⊞ f; nth 6 s 0 ⊞ g; nth 7 s 0 ⊞ h].

Lemma sha512_rounds_unrolled chunk W s :
  length W = 80%nat → is_schedule chunk W →
  Transform s chunk =
  feed_forward s (foldl code_step (nth 0 s 0, nth 1 s 0, nth 2 s 0, nth 3 s 0, nth 4 s 0, nth 5 s 0,
                                   nth 6 s 0, nth 7 s 0) (zip K_code W)).
Proof.
  intros HW [Hi Ht].
  do 80 (destruct W as [|? W]; [done|]). destruct W; [|done].
  words_of Hi 0%nat 16%nat. words_of Ht 16%nat 64%nat. clear Hi Ht HW.
  unfold K_code. cbn [zip zip_with]. cbv delta [Transform] beta zeta.
  do 78 (take_word; round (feed_forward s)).
  do 2 (match goal with
        | E : ?x = ?y ⊞ (?p ⊞ ?q ⊞ ?r) |- Let_In (Round _ _ _ _ _ _ _ _ _ (?y ⊞ ?p ⊞ ?q ⊞ ?r)) _ = _ =>
            rewrite <-sha512_add64_assoc3, <-E
        end; round (feed_forward s)).
  reflexivity.
Qed.

Lemma sha512_K_code_eq : FIPS512.K = K_code.
Proof. vm_compute. reflexivity. Qed.

Lemma sha512_Initialize_eq : FIPS512.H0 = Initialize.
Proof. vm_compute. reflexivity. Qed.

Definition state_ok (s : list Z) : Prop := length s = 8%nat ∧ words 64 s.

Lemma sha512_feed_forward_ok s v : state_ok (feed_forward s v).
Proof.
  destruct v as [[[[[[[a b] c] d] e] f] g] h]. split; [done|].
  repeat (constructor; [apply sha512_add64_fits|]). constructor.
Qed.

Lemma sha512_compress_code s chunk :
  state_ok s →
  FIPS512.compress s chunk =
  feed_forward s (foldl code_step (nth 0 s 0, nth 1 s 0, nth 2 s 0, nth 3 s 0, nth 4 s 0, nth 5 s 0,
                                   nth 6 s 0, nth 7 s 0) (zip K_code (FIPS512.schedule chunk))).
Proof.
  intros [Hl Hw]. unfold FIPS512.compress. rewrite sha512_K_code_eq. generalize (zip K_code (FIPS512.schedule chunk)).
  intros l. do 8 (destruct s as [|? s]; [done|]). destruct s; [|done]. cbn [nth].
  rewrite sha512_foldl_code by exact Hw. by destruct (foldl _ _ l) as [[[[[[[? ?] ?] ?] ?] ?] ?] ?].
Qed.

Lemma sha512_Transform_compress s chunk :
  state_ok s → bytes chunk → Transform s chunk = FIPS512.compress s chunk ∧ state_ok (Transform s chunk).
Proof.
  intros Hs Hc. destruct (sha512_schedule_spec chunk Hc) as [HW Hsch].
  rewrite (sha512_rounds_unrolled chunk (FIPS512.schedule chunk)), sha512_compress_code by done.
  split; [done|]. apply sha512_feed_forward_ok.
Qed.

Lemma sha512_process_compress k s l :
  state_ok s → bytes l →
  process 128 Transform k s l = process 128 FIPS512.compress k s l ∧ state_ok (process 128 Transform k s l).
Proof.
  revert s l. induction k as [|k IH]; intros s l Hs Hl; [done|]. cbn [process].
  destruct (sha512_Transform_compress s (take 128 l)) as [Ht Hok]; [done|by apply Forall_take|].
  rewrite <-Ht. apply IH; [done|by apply Forall_drop].
Qed.

(** * The class *)

Lemma sha512_Finalize_absorbed h msg :
  absorbed 128 Transform Initialize h msg → bytes msg → Z.of_nat (length msg) < 2 ^ 61 →
  CSHA512_Finalize h = FIPS512.SHA512 msg.
Proof.
  intros Habs Hm Hl. unfold CSHA512_Finalize, FIPS512.SHA512. cbv zeta. f_equal.
  unfold CSHA512_Write. 
  replace (u64 (hbytes h ≪ 3)) with (8 * Z.of_nat (length msg))
    by (rewrite (absorbed_bytes _ _ _ _ _ Habs), length_bits_small by lia; done).

  pose proof (finalize_state 128 Transform ltac:(lia) eq_refl Initialize h msg 111
    (replicate 8 0 ++ WriteBE64 (8 * Z.of_nat (length msg))) Habs) as Hf.
  rewrite length_app, length_replicate, length_WriteBE64 in Hf. specialize (Hf eq_refl ltac:(lia)).
  etrans; [exact Hf|]. rewrite sha512_Initialize_eq. apply sha512_process_compress; [|apply md_pad_bytes; [done|apply Forall_app; split; [by apply words_replicate0|apply WriteBE64_bytes]]].
  split; [done|]. repeat constructor; lia.
Qed.

Lemma sha512_digest_length s : length s = 8%nat → length (flat_map WriteBE64 s) = 64%nat.
Proof. intros Hs. do 8 (destruct s as [|? s]; [done|]). by destruct s. Qed.

Lemma sha512_stream buf datas :
  length buf = 128%nat → bytes (concat datas) → Z.of_nat (length (concat datas)) < 2 ^ 61 →
  CSHA512_Finalize (foldl CSHA512_Write (CSHA512_init buf) datas) = FIPS512.SHA512 (concat datas).
Proof.
  intros Hb Hm Hl. apply sha512_Finalize_absorbed; [|done|done].
  apply (writes_absorbed 128 Transform ltac:(lia) eq_refl Initialize _ []), absorbed_init; [lia|done].
Qed.

(** ** Properties *)

(** For every byte string below 2^61 bytes, however it is cut into calls of
    [Write] and whatever the buffer held, [Finalize] returns the SHA-512 digest of
    FIPS 180-4 of the whole string: 80-step compression over the message schedule,
    constants from the roots of the first primes, and the standard padding. *)
Theorem CSHA512_fips buf datas :
  length buf = 128%nat → bytes (concat datas) → Z.of_nat (length (concat datas)) < 2 ^ 61 →
  CSHA512_Finalize (foldl CSHA512_Write (CSHA512_init buf) datas) = FIPS512.SHA512 (concat datas).
Proof. apply sha512_stream. Qed.

Lemma CSHA512_fips_witness :
  CSHA512_Finalize (foldl CSHA512_Write (CSHA512_init (replicate 128 0)) [[97]; [98; 99]]) =
  FIPS512.SHA512 [97; 98; 99].
Proof.
  apply (CSHA512_fips (replicate 128 0) [[97]; [98; 99]]); [reflexivity|repeat constructor; lia|reflexivity].
Defined.
