(* ===== verification/Ripemd160.v ===== *)
(** crypto/ripemd160.cpp: the RIPEMD-160 compression function as the source
    unrolls it, and the [CRIPEMD160] class. *)

From S2P Require Import Prelude CryptoCommon HashEngine.

Module ripemd160.

(** [uint32_t] addition and complement *)
Definition add32 (a b : Z) : Z := u32 (a + b).
#[local] Infix "⊞" := add32 (at level 50, left associativity).
Definition not32 (x : Z) : Z := u32 (Z.lnot x).

Definition f1 (x y z : Z) : Z := Z.lxor (Z.lxor x y) z.
Definition f2 (x y z : Z) : Z := Z.lor (Z.land x y) (Z.land (not32 x) z).
Definition f3 (x y z : Z) : Z := Z.lxor (Z.lor x (not32 y)) z.
Definition f4 (x y z : Z) : Z := Z.lor (Z.land x z) (Z.land y (not32 z)).
Definition f5 (x y z : Z) : Z := Z.lxor x (Z.lor y (not32 z)).

Definition Initialize : list Z := [0x67452301; 0xEFCDAB89; 0x98BADCFE; 0x10325476; 0xC3D2E1F0].

Definition rol (x i : Z) : Z := Z.lor (u32 (x ≪ i)) (x ≫ (32 - i)).

(** [Round] returns the references it assigns, [a] and [c]. *)
Definition Round (a b c d e f x k r : Z) : Z * Z := (rol (a ⊞ f ⊞ x ⊞ k) r ⊞ e, rol c 10).

Definition R11 (a b c d e x r : Z) : Z * Z := Round a b c d e (f1 b c d) x 0 r.
Definition R21 (a b c d e x r : Z) : Z * Z := Round a b c d e (f2 b c d) x 0x5A827999 r.
Definition R31 (a b c d e x r : Z) : Z * Z := Round a b c d e (f3 b c d) x 0x6ED9EBA1 r.
Definition R41 (a b c d e x r : Z) : Z * Z := Round a b c d e (f4 b c d) x 0x8F1BBCDC r.
Definition R51 (a b c d e x r : Z) : Z * Z := Round a b c d e (f5 b c d) x 0xA953FD4E r.
Definition R12 (a b c d e x r : Z) : Z * Z := Round a b c d e (f5 b c d) x 0x50A28BE6 r.
Definition R22 (a b c d e x r : Z) : Z * Z := Round a b c d e (f4 b c d) x 0x5C4DD124 r.
Definition R32 (a b c d e x r : Z) : Z * Z := Round a b c d e (f3 b c d) x 0x6D703EF3 r.
Definition R42 (a b c d e x r : Z) : Z * Z := Round a b c d e (f2 b c d) x 0x7A6D76E9 r.
Definition R52 (a b c d e x r : Z) : Z * Z := Round a b c d e (f1 b c d) x 0 r.

Definition Transform (s chunk : list Z) : list Z :=
  let a1 := nth 0 s 0 in let b1 := nth 1 s 0 in let c1 := nth 2 s 0 in let d1 := nth 3 s 0 in
  let e1 := nth 4 s 0 in
  let a2 := a1 in let b2 := b1 in let c2 := c1 in let d2 := d1 in let e2 := e1 in
  dlet w0 := ReadLE32 (drop 0 chunk) in dlet w1 := ReadLE32 (drop 4 chunk) in
  dlet w2 := ReadLE32 (drop 8 chunk) in dlet w3 := ReadLE32 (drop 12 chunk) in
  dlet w4 := ReadLE32 (drop 16 chunk) in dlet w5 := ReadLE32 (drop 20 chunk) in
  dlet w6 := ReadLE32 (drop 24 chunk) in dlet w7 := ReadLE32 (drop 28 chunk) in
  dlet w8 := ReadLE32 (drop 32 chunk) in dlet w9 := ReadLE32 (drop 36 chunk) in
  dlet w10 := ReadLE32 (drop 40 chunk) in dlet w11 := ReadLE32 (drop 44 chunk) in
  dlet w12 := ReadLE32 (drop 48 chunk) in dlet w13 := ReadLE32 (drop 52 chunk) in
  dlet w14 := ReadLE32 (drop 56 chunk) in dlet w15 := ReadLE32 (drop 60 chunk) in
  dlet '(a1, c1) := R11 a1 b1 c1 d1 e1 w0 11 in dlet '(a2, c2) := R12 a2 b2 c2 d2 e2 w5 8 in
  dlet '(e1, b1) := R11 e1 a1 b1 c1 d1 w1 14 in dlet '(e2, b2) := R12 e2 a2 b2 c2 d2 w14 9 in
  dlet '(d1, a1) := R11 d1 e1 a1 b1 c1 w2 15 in dlet '(d2, a2) := R12 d2 e2 a2 b2 c2 w7 9 in
  dlet '(c1, e1) := R11 c1 d1 e1 a1 b1 w3 12 in dlet '(c2, e2) := R12 c2 d2 e2 a2 b2 w0 11 in
  dlet '(b1, d1) := R11 b1 c1 d1 e1 a1 w4 5 in dlet '(b2, d2) := R12 b2 c2 d2 e2 a2 w9 13 in
  dlet '(a1, c1) := R11 a1 b1 c1 d1 e1 w5 8 in dlet '(a2, c2) := R12 a2 b2 c2 d2 e2 w2 15 in
  dlet '(e1, b1) := R11 e1 a1 b1 c1 d1 w6 7 in dlet '(e2, b2) := R12 e2 a2 b2 c2 d2 w11 15 in
  dlet '(d1, a1) := R11 d1 e1 a1 b1 c1 w7 9 in dlet '(d2, a2) := R12 d2 e2 a2 b2 c2 w4 5 in
  dlet '(c1, e1) := R11 c1 d1 e1 a1 b1 w8 11 in dlet '(c2, e2) := R12 c2 d2 e2 a2 b2 w13 7 in
  dlet '(b1, d1) := R11 b1 c1 d1 e1 a1 w9 13 in dlet '(b2, d2) := R12 b2 c2 d2 e2 a2 w6 7 in
  dlet '(a1, c1) := R11 a1 b1 c1 d1 e1 w10 14 in dlet '(a2, c2) := R12 a2 b2 c2 d2 e2 w15 8 in
  dlet '(e1, b1) := R11 e1 a1 b1 c1 d1 w11 15 in dlet '(e2, b2) := R12 e2 a2 b2 c2 d2 w8 11 in
  dlet '(d1, a1) := R11 d1 e1 a1 b1 c1 w12 6 in dlet '(d2, a2) := R12 d2 e2 a2 b2 c2 w1 14 in
  dlet '(c1, e1) := R11 c1 d1 e1 a1 b1 w13 7 in dlet '(c2, e2) := R12 c2 d2 e2 a2 b2 w10 14 in
  dlet '(b1, d1) := R11 b1 c1 d1 e1 a1 w14 9 in dlet '(b2, d2) := R12 b2 c2 d2 e2 a2 w3 12 in
  dlet '(a1, c1) := R11 a1 b1 c1 d1 e1 w15 8 in dlet '(a2, c2) := R12 a2 b2 c2 d2 e2 w12 6 in
  dlet '(e1, b1) := R21 e1 a1 b1 c1 d1 w7 7 in dlet '(e2, b2) := R22 e2 a2 b2 c2 d2 w6 9 in
  dlet '(d1, a1) := R21 d1 e1 a1 b1 c1 w4 6 in dlet '(d2, a2) := R22 d2 e2 a2 b2 c2 w11 13 in
  dlet '(c1, e1) := R21 c1 d1 e1 a1 b1 w13 8 in dlet '(c2, e2) := R22 c2 d2 e2 a2 b2 w3 15 in
  dlet '(b1, d1) := R21 b1 c1 d1 e1 a1 w1 13 in dlet '(b2, d2) := R22 b2 c2 d2 e2 a2 w7 7 in
  dlet '(a1, c1) := R21 a1 b1 c1 d1 e1 w10 11 in dlet '(a2, c2) := R22 a2 b2 c2 d2 e2 w0 12 in
  dlet '(e1, b1) := R21 e1 a1 b1 c1 d1 w6 9 in dlet '(e2, b2) := R22 e2 a2 b2 c2 d2 w13 8 in
  dlet '(d1, a1) := R21 d1 e1 a1 b1 c1 w15 7 in dlet '(d2, a2) := R22 d2 e2 a2 b2 c2 w5 9 in
  dlet '(c1, e1) := R21 c1 d1 e1 a1 b1 w3 15 in dlet '(c2, e2) := R22 c2 d2 e2 a2 b2 w10 11 in
  dlet '(b1, d1) := R21 b1 c1 d1 e1 a1 w12 7 in dlet '(b2, d2) := R22 b2 c2 d2 e2 a2 w14 7 in
  dlet '(a1, c1) := R21 a1 b1 c1 d1 e1 w0 12 in dlet '(a2, c2) := R22 a2 b2 c2 d2 e2 w15 7 in
  dlet '(e1, b1) := R21 e1 a1 b1 c1 d1 w9 15 in dlet '(e2, b2) := R22 e2 a2 b2 c2 d2 w8 12 in
  dlet '(d1, a1) := R21 d1 e1 a1 b1 c1 w5 9 in dlet '(d2, a2) := R22 d2 e2 a2 b2 c2 w12 7 in
  dlet '(c1, e1) := R21 c1 d1 e1 a1 b1 w2 11 in dlet '(c2, e2) := R22 c2 d2 e2 a2 b2 w4 6 in
  dlet '(b1, d1) := R21 b1 c1 d1 e1 a1 w14 7 in dlet '(b2, d2) := R22 b2 c2 d2 e2 a2 w9 15 in
  dlet '(a1, c1) := R21 a1 b1 c1 d1 e1 w11 13 in dlet '(a2, c2) := R22 a2 b2 c2 d2 e2 w1 13 in
  dlet '(e1, b1) := R21 e1 a1 b1 c1 d1 w8 12 in dlet '(e2, b2) := R22 e2 a2 b2 c2 d2 w2 11 in
  dlet '(d1, a1) := R31 d1 e1 a1 b1 c1 w3 11 in dlet '(d2, a2) := R32 d2 e2 a2 b2 c2 w15 9 in
  dlet '(c1, e1) := R31 c1 d1 e1 a1 b1 w10 13 in dlet '(c2, e2) := R32 c2 d2 e2 a2 b2 w5 7 in
  dlet '(b1, d1) := R31 b1 c1 d1 e1 a1 w14 6 in dlet '(b2, d2) := R32 b2 c2 d2 e2 a2 w1 15 in
  dlet '(a1, c1) := R31 a1 b1 c1 d1 e1 w4 7 in dlet '(a2, c2) := R32 a2 b2 c2 d2 e2 w3 11 in
  dlet '(e1, b1) := R31 e1 a1 b1 c1 d1 w9 14 in dlet '(e2, b2) := R32 e2 a2 b2 c2 d2 w7 8 in
  dlet '(d1, a1) := R31 d1 e1 a1 b1 c1 w15 9 in dlet '(d2, a2) := R32 d2 e2 a2 b2 c2 w14 6 in
  dlet '(c1, e1) := R31 c1 d1 e1 a1 b1 w8 13 in dlet '(c2, e2) := R32 c2 d2 e2 a2 b2 w6 6 in
  dlet '(b1, d1) := R31 b1 c1 d1 e1 a1 w1 15 in dlet '(b2, d2) := R32 b2 c2 d2 e2 a2 w9 14 in
  dlet '(a1, c1) := R31 a1 b1 c1 d1 e1 w2 14 in dlet '(a2, c2) := R32 a2 b2 c2 d2 e2 w11 12 in
  dlet '(e1, b1) := R31 e1 a1 b1 c1 d1 w7 8 in dlet '(e2, b2) := R32 e2 a2 b2 c2 d2 w8 13 in
  dlet '(d1, a1) := R31 d1 e1 a1 b1 c1 w0 13 in dlet '(d2, a2) := R32 d2 e2 a2 b2 c2 w12 5 in
  dlet '(c1, e1) := R31 c1 d1 e1 a1 b1 w6 6 in dlet '(c2, e2) := R32 c2 d2 e2 a2 b2 w2 14 in
  dlet '(b1, d1) := R31 b1 c1 d1 e1 a1 w13 5 in dlet '(b2, d2) := R32 b2 c2 d2 e2 a2 w10 13 in
  dlet '(a1, c1) := R31 a1 b1 c1 d1 e1 w11 12 in dlet '(a2, c2) := R32 a2 b2 c2 d2 e2 w0 13 in
  dlet '(e1, b1) := R31 e1 a1 b1 c1 d1 w5 7 in dlet '(e2, b2) := R32 e2 a2 b2 c2 d2 w4 7 in
  dlet '(d1, a1) := R31 d1 e1 a1 b1 c1 w12 5 in dlet '(d2, a2) := R32 d2 e2 a2 b2 c2 w13 5 in
  dlet '(c1, e1) := R41 c1 d1 e1 a1 b1 w1 11 in dlet '(c2, e2) := R42 c2 d2 e2 a2 b2 w8 15 in
  dlet '(b1, d1) := R41 b1 c1 d1 e1 a1 w9 12 in dlet '(b2, d2) := R42 b2 c2 d2 e2 a2 w6 5 in
  dlet '(a1, c1) := R41 a1 b1 c1 d1 e1 w11 14 in dlet '(a2, c2) := R42 a2 b2 c2 d2 e2 w4 8 in
  dlet '(e1, b1) := R41 e1 a1 b1 c1 d1 w10 15 in dlet '(e2, b2) := R42 e2 a2 b2 c2 d2 w1 11 in
  dlet '(d1, a1) := R41 d1 e1 a1 b1 c1 w0 14 in dlet '(d2, a2) := R42 d2 e2 a2 b2 c2 w3 14 in
  dlet '(c1, e1) := R41 c1 d1 e1 a1 b1 w8 15 in dlet '(c2, e2) := R42 c2 d2 e2 a2 b2 w11 14 in
  dlet '(b1, d1) := R41 b1 c1 d1 e1 a1 w12 9 in dlet '(b2, d2) := R42 b2 c2 d2 e2 a2 w15 6 in
  dlet '(a1, c1) := R41 a1 b1 c1 d1 e1 w4 8 in dlet '(a2, c2) := R42 a2 b2 c2 d2 e2 w0 14 in
  dlet '(e1, b1) := R41 e1 a1 b1 c1 d1 w13 9 in dlet '(e2, b2) := R42 e2 a2 b2 c2 d2 w5 6 in
  dlet '(d1, a1) := R41 d1 e1 a1 b1 c1 w3 14 in dlet '(d2, a2) := R42 d2 e2 a2 b2 c2 w12 9 in
  dlet '(c1, e1) := R41 c1 d1 e1 a1 b1 w7 5 in dlet '(c2, e2) := R42 c2 d2 e2 a2 b2 w2 12 in
  dlet '(b1, d1) := R41 b1 c1 d1 e1 a1 w15 6 in dlet '(b2, d2) := R42 b2 c2 d2 e2 a2 w13 9 in
  dlet '(a1, c1) := R41 a1 b1 c1 d1 e1 w14 8 in dlet '(a2, c2) := R42 a2 b2 c2 d2 e2 w9 12 in
  dlet '(e1, b1) := R41 e1 a1 b1 c1 d1 w5 6 in dlet '(e2, b2) := R42 e2 a2 b2 c2 d2 w7 5 in
  dlet '(d1, a1) := R41 d1 e1 a1 b1 c1 w6 5 in dlet '(d2, a2) := R42 d2 e2 a2 b2 c2 w10 15 in
  dlet '(c1, e1) := R41 c1 d1 e1 a1 b1 w2 12 in dlet '(c2, e2) := R42 c2 d2 e2 a2 b2 w14 8 in
  dlet '(b1, d1) := R51 b1 c1 d1 e1 a1 w4 9 in dlet '(b2, d2) := R52 b2 c2 d2 e2 a2 w12 8 in
  dlet '(a1, c1) := R51 a1 b1 c1 d1 e1 w0 15 in dlet '(a2, c2) := R52 a2 b2 c2 d2 e2 w15 5 in
  dlet '(e1, b1) := R51 e1 a1 b1 c1 d1 w5 5 in dlet '(e2, b2) := R52 e2 a2 b2 c2 d2 w10 12 in
  dlet '(d1, a1) := R51 d1 e1 a1 b1 c1 w9 11 in dlet '(d2, a2) := R52 d2 e2 a2 b2 c2 w4 9 in
  dlet '(c1, e1) := R51 c1 d1 e1 a1 b1 w7 6 in dlet '(c2, e2) := R52 c2 d2 e2 a2 b2 w1 12 in
  dlet '(b1, d1) := R51 b1 c1 d1 e1 a1 w12 8 in dlet '(b2, d2) := R52 b2 c2 d2 e2 a2 w5 5 in
  dlet '(a1, c1) := R51 a1 b1 c1 d1 e1 w2 13 in dlet '(a2, c2) := R52 a2 b2 c2 d2 e2 w8 14 in
  dlet '(e1, b1) := R51 e1 a1 b1 c1 d1 w10 12 in dlet '(e2, b2) := R52 e2 a2 b2 c2 d2 w7 6 in
  dlet '(d1, a1) := R51 d1 e1 a1 b1 c1 w14 5 in dlet '(d2, a2) := R52 d2 e2 a2 b2 c2 w6 8 in
  dlet '(c1, e1) := R51 c1 d1 e1 a1 b1 w1 12 in dlet '(c2, e2) := R52 c2 d2 e2 a2 b2 w2 13 in
  dlet '(b1, d1) := R51 b1 c1 d1 e1 a1 w3 13 in dlet '(b2, d2) := R52 b2 c2 d2 e2 a2 w13 6 in
  dlet '(a1, c1) := R51 a1 b1 c1 d1 e1 w8 14 in dlet '(a2, c2) := R52 a2 b2 c2 d2 e2 w14 5 in
  dlet '(e1, b1) := R51 e1 a1 b1 c1 d1 w11 11 in dlet '(e2, b2) := R52 e2 a2 b2 c2 d2 w0 15 in
  dlet '(d1, a1) := R51 d1 e1 a1 b1 c1 w6 8 in dlet '(d2, a2) := R52 d2 e2 a2 b2 c2 w3 13 in
  dlet '(c1, e1) := R51 c1 d1 e1 a1 b1 w15 5 in dlet '(c2, e2) := R52 c2 d2 e2 a2 b2 w9 11 in
  dlet '(b1, d1) := R51 b1 c1 d1 e1 a1 w13 6 in dlet '(b2, d2) := R52 b2 c2 d2 e2 a2 w11 11 in
  [nth 1 s 0 ⊞ c1 ⊞ d2; nth 2 s 0 ⊞ d1 ⊞ e2; nth 3 s 0 ⊞ e1 ⊞ a2; nth 4 s 0 ⊞ a1 ⊞ b2;
   nth 0 s 0 ⊞ b1 ⊞ c2].

End ripemd160.

(** ** [CRIPEMD160] *)

Definition CRIPEMD160_init (buf : list Z) : hasher := Hasher ripemd160.Initialize buf 0.
Definition CRIPEMD160_Write : hasher → list Z → hasher := Write 64 ripemd160.Transform.
Definition CRIPEMD160_Finalize (h : hasher) : list Z :=
  let sizedesc := WriteLE64 (u64 (hbytes h ≪ 3)) in
  let pad := 0x80 :: replicate 63 0 in
  let h' := CRIPEMD160_Write h (take (Z.to_nat (1 + (119 - hbytes h `mod` 64) `mod` 64)) pad) in
  let h' := CRIPEMD160_Write h' sizedesc in
  flat_map WriteLE32 (hs h').
Definition CRIPEMD160_Reset (h : hasher) : hasher := Hasher ripemd160.Initialize (hbuf h) 0.

(** [CRIPEMD160().Write(data).Finalize(hash)] *)
Definition ripemd160_of (data : list Z) : list Z :=
  CRIPEMD160_Finalize (CRIPEMD160_Write (CRIPEMD160_init (replicate 64 0)) data).

