(* ===== verification/Ripemd160Facts.v ===== *)
(** RIPEMD-160: the unrolled code computes the function of its designers' paper
    (Dobbertin, Bosselaers, Preneel 1996). *)

From S2P Require Import Prelude CryptoCommon HashEngine Ripemd160.
Import ripemd160.

#[local] Infix "⊞" := add32 (at level 50, left associativity).

(** * The reference *)

Abbreviation vars5 := (Z * Z * Z * Z * Z)%type.
(** A step: Boolean function, constant, message word, rotation. *)
Abbreviation op := ((Z → Z → Z → Z) * Z * nat * Z)%type.

(** The schedule of one line: five rounds of sixteen steps with functions [fs] and
    constants [ks]; [index] gives the word of a step from the round and the step. *)
Definition shifts : list (list Z) :=
  [[11; 14; 15; 12; 5; 8; 7; 9; 11; 13; 14; 15; 6; 7; 9; 8];
   [12; 13; 11; 15; 6; 9; 9; 7; 12; 15; 11; 13; 7; 8; 7; 7];
   [13; 15; 14; 11; 7; 7; 6; 8; 13; 14; 13; 12; 5; 5; 6; 9];
   [14; 11; 12; 14; 8; 6; 5; 5; 15; 12; 15; 14; 9; 9; 8; 6];
   [15; 12; 13; 13; 9; 5; 8; 6; 14; 11; 12; 11; 8; 6; 5; 5]].
Definition rho (i : nat) : nat := nth i [7; 4; 13; 1; 10; 6; 15; 3; 12; 0; 9; 5; 2; 14; 11; 8]%nat 0%nat.
Definition left_index (round i : nat) : nat := Nat.iter round rho i.
Definition right_index (round i : nat) : nat := Nat.iter round rho ((9 * i + 5) mod 16)%nat.
Definition line (index : nat → nat → nat) (fs : list (Z → Z → Z → Z)) (ks : list Z) : list op :=
  flat_map (λ j, (λ i, let w := index j i in
    (nth j fs (λ _ _ _, 0), nth j ks 0, w, nth w (nth j shifts []) 0)) <$> seq 0 16) (seq 0 5).

Module RMD160.

Definition ROL (n x : Z) : Z := (x `mod` 2 ^ (32 - n)) * 2 ^ n + x `div` 2 ^ (32 - n).
Definition NOT (x : Z) : Z := 2 ^ 32 - 1 - x.
Definition g1 x y z := Z.lxor (Z.lxor x y) z.
Definition g2 x y z := Z.lor (Z.land x y) (Z.land (NOT x) z).
Definition g3 x y z := Z.lxor (Z.lor x (NOT y)) z.
Definition g4 x y z := Z.lor (Z.land x z) (Z.land y (NOT z)).
Definition g5 x y z := Z.lxor x (Z.lor y (NOT z)).

(** [2 ^ 30] times square and cube roots. *)
Definition K (n : Z) : Z := Z.sqrt (n * 2 ^ 60).
Definition K' (n : Z) : Z := icbrt 32 0 (n * 2 ^ 90).
Definition left_line : list op := line left_index [g1; g2; g3; g4; g5] [0; K 2; K 3; K 5; K 7].
Definition right_line : list op := line right_index [g5; g4; g3; g2; g1] [K' 2; K' 3; K' 5; K' 7; 0].

Definition H0 : list Z := [0x67452301; 0xefcdab89; 0x98badcfe; 0x10325476; 0xc3d2e1f0].

Definition step (X : nat → Z) (v : vars5) (o : op) : vars5 :=
  let '(A, B, C, D, E) := v in
  let '(f, k, w, s) := o in
  (E, u32 (ROL s (u32 (A + f B C D + X w + k)) + E), B, ROL 10 C, D).
Definition compress (s chunk : list Z) : list Z :=
  let X w := ReadLE32 (drop (4 * w) chunk) in
  let v := (nth 0 s 0, nth 1 s 0, nth 2 s 0, nth 3 s 0, nth 4 s 0) in
  let '(A, B, C, D, E) := foldl (step X) v left_line in
  let '(A', B', C', D', E') := foldl (step X) v right_line in
  [u32 (nth 1 s 0 + C + D'); u32 (nth 2 s 0 + D + E'); u32 (nth 3 s 0 + E + A');
   u32 (nth 4 s 0 + A + B'); u32 (nth 0 s 0 + B + C')].

Definition pad (msg : list Z) : list Z := md_pad 64 55 (WriteLE64 (8 * Z.of_nat (length msg))) msg.
Definition RIPEMD160 (msg : list Z) : list Z :=
  flat_map WriteLE32 (process 64 compress (length (pad msg) / 64) H0 (pad msg)).

End RMD160.

(** * The working functions *)

Lemma rmd_add32_fits a b : fits 32 (a ⊞ b).
Proof. apply wrap_fits. lia. Qed.

Lemma rmd_rol n x : 0 < n < 32 → fits 32 x → rol x n = RMD160.ROL n x.
Proof. intros Hn Hx. by apply rotl_spec. Qed.

Lemma rmd_not x : fits 32 x → not32 x = RMD160.NOT x.
Proof.
  intros Hx. unfold not32, wrap, RMD160.NOT, fits in *. symmetry. apply Z.mod_unique with (-1); [lia|].
  unfold Z.lnot. lia.
Qed.

Definition code_left : list op :=
  line left_index [f1; f2; f3; f4; f5] [0; 0x5A827999; 0x6ED9EBA1; 0x8F1BBCDC; 0xA953FD4E].
Definition code_right : list op :=
  line right_index [f5; f4; f3; f2; f1] [0x50A28BE6; 0x5C4DD124; 0x6D703EF3; 0x7A6D76E9; 0].

Definition same_op (x y : op) : Prop :=
  let '(f, k, w, s) := x in let '(f', k', w', s') := y in
  k = k' ∧ w = w' ∧ s = s' ∧ 0 < s < 32 ∧
  ∀ b c d, fits 32 b → fits 32 c → fits 32 d → f b c d = f' b c d.

Lemma same_functions :
  Forall2 (λ f g : Z → Z → Z → Z, ∀ b c d, fits 32 b → fits 32 c → fits 32 d → f b c d = g b c d)
    [RMD160.g1; RMD160.g2; RMD160.g3; RMD160.g4; RMD160.g5] [f1; f2; f3; f4; f5].
Proof.
  repeat constructor; intros b c d Hb Hc Hd;
    unfold f1, f2, f3, f4, f5, RMD160.g1, RMD160.g2, RMD160.g3, RMD160.g4, RMD160.g5; by rewrite ?rmd_not.
Qed.

Lemma flat_map_same {A B} (R : B → B → Prop) (f g : A → list B) l :
  (∀ x, x ∈ l → Forall2 R (f x) (g x)) → Forall2 R (flat_map f l) (flat_map g l).
Proof.
  induction l as [|x l IH]; intros H; [constructor|]. cbn [flat_map].
  apply Forall2_app; [apply H; left|apply IH; intros; apply H; by right].
Qed.

Lemma line_same index fs fs' ks :
  Forall2 (λ f g : Z → Z → Z → Z, ∀ b c d, fits 32 b → fits 32 c → fits 32 d → f b c d = g b c d) fs fs' →
  forallb (λ j, forallb (λ i, let s := nth (index j i) (nth j shifts []) 0 in (0 <? s) && (s <? 32)) (seq 0 16))
    (seq 0 5) = true →
  Forall2 same_op (line index fs ks) (line index fs' ks).
Proof.
  intros Hfs Hs. apply flat_map_same. intros j Hj. apply Forall2_fmap, Forall_Forall2_diag, Forall_forall.
  intros i Hi. rewrite forallb_forall in Hs. specialize (Hs j ltac:(by apply list_elem_of_In)).
  rewrite forallb_forall in Hs. specialize (Hs i ltac:(by apply list_elem_of_In)).
  unfold same_op. cbv zeta in *. split_and!; [done|done|done|lia|lia|]. clear Hs Hi Hj. intros b c d Hb Hc Hd.
  revert j. induction Hfs as [|f g fs fs' Hfg _ IH]; intros [|j]; simpl; auto.
Qed.

Lemma left_same : Forall2 same_op RMD160.left_line code_left.
Proof.
  unfold RMD160.left_line. change (Forall2 same_op (line left_index [RMD160.g1; RMD160.g2; RMD160.g3; RMD160.g4; RMD160.g5]
    [0; RMD160.K 2; RMD160.K 3; RMD160.K 5; RMD160.K 7]) code_left).
  replace [0; RMD160.K 2; RMD160.K 3; RMD160.K 5; RMD160.K 7] with
    [0; 0x5A827999; 0x6ED9EBA1; 0x8F1BBCDC; 0xA953FD4E] by (vm_compute; reflexivity).
  apply line_same; [apply same_functions|vm_compute; reflexivity].
Qed.

Lemma right_same : Forall2 same_op RMD160.right_line code_right.
Proof.
  unfold RMD160.right_line.
  replace [RMD160.K' 2; RMD160.K' 3; RMD160.K' 5; RMD160.K' 7; 0] with
    [0x50A28BE6; 0x5C4DD124; 0x6D703EF3; 0x7A6D76E9; 0] by (vm_compute; reflexivity).
  apply line_same; [apply (Forall2_reverse _ _ _ same_functions)|vm_compute; reflexivity].
Qed.

Definition code_step (X : nat → Z) (v : vars5) (o : op) : vars5 :=
  let '(a, b, c, d, e) := v in
  let '(f, k, w, r) := o in
  let '(a', c') := Round a b c d e (f b c d) (X w) k r in (e, a', b, c', d).

Definition vars_fit (v : vars5) : Prop := let '(a, b, c, d, e) := v in words 32 [a; b; c; d; e].

Lemma rmd_code_step X v x y :
  vars_fit v → same_op x y → RMD160.step X v x = code_step X v y ∧ vars_fit (code_step X v y).
Proof.
  destruct v as [[[[a b] c] d] e], x as [[[f k] w] s], y as [[[f' k'] w'] s']. cbn [vars_fit].
  intros Hv (-> & -> & -> & Hs & Hf).
  rewrite !Forall_cons in Hv. destruct Hv as (Ha & Hb & Hc & Hd & He & _).
  unfold RMD160.step, code_step, Round. rewrite Hf, (rmd_rol 10 c) by (done || lia).
  rewrite rmd_rol by (lia || apply rmd_add32_fits). split.
  - do 4 f_equal. unfold add32. by rewrite (wrap_add_l _ (a + f' b c d)), (wrap_add_l _ _ k').
  - cbn [vars_fit]. rewrite !Forall_cons. split_and!; auto using rmd_add32_fits.
    rewrite <-rmd_rol by (done || lia). by apply (fits_rotl 32 10).
Qed.

Lemma rmd_foldl X v l l' :
  vars_fit v → Forall2 same_op l l' → foldl (RMD160.step X) v l = foldl (code_step X) v l'.
Proof.
  intros Hv Hl. revert v Hv. induction Hl as [|x y l l' Hxy _ IH]; intros v Hv; [done|].
  simpl. destruct (rmd_code_step X v x y Hv Hxy) as [-> Hv']. by apply IH.
Qed.

(** * The unrolled rounds *)

Lemma rmd_left {A} (R : vars5 → vars5 → A) (B : Z * Z → A) X a b c d e f k w r l v2 :
  (∀ a' c', B (a', c') = R (foldl (code_step X) (e, a', b, c', d) l) v2) →
  Let_In (Round a b c d e (f b c d) (X w) k r) B =
  R (foldl (code_step X) (a, b, c, d, e) ((f, k, w, r) :: l)) v2.
Proof.
  intros H. unfold Let_In. cbn [foldl code_step].
  destruct (Round a b c d e (f b c d) (X w) k r) as [a' c']. apply H.
Qed.

Lemma rmd_right {A} (R : vars5 → vars5 → A) (B : Z * Z → A) X a b c d e f k w r l v1 :
  (∀ a' c', B (a', c') = R v1 (foldl (code_step X) (e, a', b, c', d) l)) →
  Let_In (Round a b c d e (f b c d) (X w) k r) B =
  R v1 (foldl (code_step X) (a, b, c, d, e) ((f, k, w, r) :: l)).
Proof.
  intros H. unfold Let_In. cbn [foldl code_step].
  destruct (Round a b c d e (f b c d) (X w) k r) as [a' c']. apply H.
Qed.

Definition combine (s : list Z) (v1 v2 : vars5) : list Z :=
  let '(a1, b1, c1, d1, e1) := v1 in
  let '(a2, b2, c2, d2, e2) := v2 in
  [nth 1 s 0 ⊞ c1 ⊞ d2; nth 2 s 0 ⊞ d1 ⊞ e2; nth 3 s 0 ⊞ e1 ⊞ a2; nth 4 s 0 ⊞ a1 ⊞ b2;
   nth 0 s 0 ⊞ b1 ⊞ c2].

Ltac rmd_rounds R :=
  apply (rmd_left R); intros ? ?; cbv beta iota; apply (rmd_right R); intros ? ?; cbv beta iota.

Lemma rmd_unrolled (X : nat → Z) s chunk :
  (∀ w, (w < 16)%nat → X w = ReadLE32 (drop (4 * w) chunk)) →
  let v := (nth 0 s 0, nth 1 s 0, nth 2 s 0, nth 3 s 0, nth 4 s 0) in
  Transform s chunk = combine s (foldl (code_step X) v code_left) (foldl (code_step X) v code_right).
Proof.
  intros HX. words_of HX 0%nat 16%nat. cbv zeta.
  let l := eval cbv [code_left line left_index Nat.iter nat_rect rho shifts flat_map seq fmap list_fmap nth app] in code_left in
    change code_left with l.
  let l := eval cbv [code_right line right_index Nat.iter nat_rect rho shifts flat_map seq fmap list_fmap nth app
    Nat.modulo Nat.divmod Nat.mul Nat.add Nat.sub fst snd] in code_right in change code_right with l.
  cbv delta [Transform R11 R21 R31 R41 R51 R12 R22 R32 R42 R52] beta zeta.
  do 16 take_word. do 80 rmd_rounds (combine s). reflexivity.
Qed.

Definition state_ok (s : list Z) : Prop := length s = 5%nat ∧ words 32 s.

Lemma rmd_combine_ok s v1 v2 : state_ok (combine s v1 v2).
Proof.
  destruct v1 as [[[[? ?] ?] ?] ?], v2 as [[[[? ?] ?] ?] ?]. split; [done|].
  repeat (constructor; [apply rmd_add32_fits|]). constructor.
Qed.

Lemma rmd_compress s chunk :
  state_ok s → Transform s chunk = RMD160.compress s chunk ∧ state_ok (Transform s chunk).
Proof.
  intros [Hl Hw]. set (X w := ReadLE32 (drop (4 * w) chunk)).
  rewrite (rmd_unrolled X) by done. split; [|apply rmd_combine_ok].
  unfold RMD160.compress. fold X. cbv zeta.
  rewrite (rmd_foldl X _ RMD160.left_line code_left), (rmd_foldl X _ RMD160.right_line code_right);
    [|do 5 (destruct s as [|? s]; [done|]); by destruct s|apply right_same
    |do 5 (destruct s as [|? s]; [done|]); by destruct s|apply left_same].
  generalize (foldl (code_step X) (nth 0 s 0, nth 1 s 0, nth 2 s 0, nth 3 s 0, nth 4 s 0) code_left),
    (foldl (code_step X) (nth 0 s 0, nth 1 s 0, nth 2 s 0, nth 3 s 0, nth 4 s 0) code_right).
  intros [[[[a1 b1] c1] d1] e1] [[[[a2 b2] c2] d2] e2]. unfold combine, add32. by rewrite !wrap_add_l.
Qed.

Lemma rmd_process k s l :
  state_ok s → process 64 Transform k s l = process 64 RMD160.compress k s l.
Proof.
  revert s l. induction k as [|k IH]; intros s l Hs; [done|]. cbn [process].
  destruct (rmd_compress s (take 64 l) Hs) as [<- Hok]. by apply IH.
Qed.

(** * The class *)

Lemma rmd_Finalize h msg :
  absorbed 64 Transform Initialize h msg → Z.of_nat (length msg) < 2 ^ 61 →
  CRIPEMD160_Finalize h = RMD160.RIPEMD160 msg.
Proof.
  intros Habs Hl. unfold CRIPEMD160_Finalize, RMD160.RIPEMD160. cbv zeta. f_equal. unfold CRIPEMD160_Write.
  replace (u64 (hbytes h ≪ 3)) with (8 * Z.of_nat (length msg))
    by (rewrite (absorbed_bytes _ _ _ _ _ Habs), length_bits_small by lia; done).
  pose proof (finalize_state 64 Transform ltac:(lia) eq_refl Initialize h msg 55
    (WriteLE64 (8 * Z.of_nat (length msg))) Habs) as Hf.
  rewrite length_WriteLE64 in Hf. specialize (Hf eq_refl ltac:(lia)).
  etrans; [exact Hf|]. apply rmd_process. split; [done|repeat constructor; lia].
Qed.

(** ** Properties *)

(** For every message below 2^61 bytes, however it is cut into calls of
    [Write], [CRIPEMD160::Finalize] returns the RIPEMD-160 digest of the designers'
    specification: two lines of 80 steps with the permuted words, the rotation
    table and constants from square and cube roots. *)
Theorem CRIPEMD160_spec buf datas :
  length buf = 64%nat → Z.of_nat (length (concat datas)) < 2 ^ 61 →
  CRIPEMD160_Finalize (foldl CRIPEMD160_Write (CRIPEMD160_init buf) datas) = RMD160.RIPEMD160 (concat datas).
Proof.
  intros Hb Hl. apply rmd_Finalize; [|done].
  apply (writes_absorbed 64 Transform ltac:(lia) eq_refl Initialize _ []), absorbed_init; [lia|done].
Qed.

Lemma CRIPEMD160_spec_witness :
  CRIPEMD160_Finalize (foldl CRIPEMD160_Write (CRIPEMD160_init (replicate 64 0)) [[97]; [98; 99]]) =
  RMD160.RIPEMD160 [97; 98; 99].
Proof. apply (CRIPEMD160_spec (replicate 64 0) [[97]; [98; 99]]); reflexivity. Defined.
