(* ===== verification/Hmac.v ===== *)
(** The hashing of hash.h and crypto/hmac_*.cpp, rfc6979_hmac_sha256.cpp on top of
    the hash classes: double SHA-256, [Hash160], HMAC (RFC 2104) and the
    deterministic generator of RFC 6979. *)

From S2P Require Import Prelude CryptoCommon HashEngine Sha256 Sha1 Sha512 Ripemd160.

(** ** hash.h: [CHash256], [CHash160], [CHash512] *)

Definition CHash256_Finalize (sha : hasher) : list Z :=
  let buf := CSHA256_Finalize sha in
  CSHA256_Finalize (CSHA256_Write (CSHA256_Reset sha) buf).
Definition CHash512_Finalize (sha : hasher) : list Z :=
  let buf := CSHA512_Finalize sha in
  CSHA512_Finalize (CSHA512_Write (CSHA512_Reset sha) buf).
Definition CHash160_Finalize (sha : hasher) : list Z :=
  let buf := CSHA256_Finalize sha in ripemd160_of buf.

(** ** [CHMAC_SHA256] *)

Record hmac := Hmac { outer : hasher; inner : hasher }.

Definition xor_bytes (x : Z) (l : list Z) : list Z := Z.lxor x <$> l.

Definition CHMAC_SHA256_init (key : list Z) : hmac :=
  let rkey := if (length key <=? 64)%nat then key ++ replicate (64 - length key) 0
              else sha256_of key ++ replicate 32 0 in
  let rkey := xor_bytes 0x5c rkey in
  let outer := CSHA256_Write (CSHA256_init (replicate 64 0)) rkey in
  let rkey := xor_bytes (Z.lxor 0x5c 0x36) rkey in
  Hmac outer (CSHA256_Write (CSHA256_init (replicate 64 0)) rkey).
Definition CHMAC_SHA256_Write (h : hmac) (data : list Z) : hmac :=
  Hmac (outer h) (CSHA256_Write (inner h) data).
Definition CHMAC_SHA256_Finalize (h : hmac) : list Z :=
  let temp := CSHA256_Finalize (inner h) in
  CSHA256_Finalize (CSHA256_Write (outer h) temp).

(** ** [CHMAC_SHA512] *)

Definition CHMAC_SHA512_init (key : list Z) : hmac :=
  let rkey := if (length key <=? 128)%nat then key ++ replicate (128 - length key) 0
              else sha512_of key ++ replicate 64 0 in
  let rkey := xor_bytes 0x5c rkey in
  let outer := CSHA512_Write (CSHA512_init (replicate 128 0)) rkey in
  let rkey := xor_bytes (Z.lxor 0x5c 0x36) rkey in
  Hmac outer (CSHA512_Write (CSHA512_init (replicate 128 0)) rkey).
Definition CHMAC_SHA512_Write (h : hmac) (data : list Z) : hmac :=
  Hmac (outer h) (CSHA512_Write (inner h) data).
Definition CHMAC_SHA512_Finalize (h : hmac) : list Z :=
  let temp := CSHA512_Finalize (inner h) in
  CSHA512_Finalize (CSHA512_Write (outer h) temp).

(** ** [RFC6979_HMAC_SHA256] *)

Record rfc6979 := Rfc6979 { rV : list Z; rK : list Z; retry : bool }.

(** [CHMAC_SHA256(K).Write(d1).Write(d2)...Finalize(out)] *)
Definition hmac_of (key : list Z) (datas : list (list Z)) : list Z :=
  CHMAC_SHA256_Finalize (foldl CHMAC_SHA256_Write (CHMAC_SHA256_init key) datas).

Definition RFC6979_init (key msg : list Z) : rfc6979 :=
  let V := replicate 32 0x01 in
  let K := replicate 32 0x00 in
  let K := hmac_of K [V; [0x00]; key; msg] in
  let V := hmac_of K [V] in
  let K := hmac_of K [V; [0x01]; key; msg] in
  let V := hmac_of K [V] in
  Rfc6979 V K false.

(** The [while (outputlen > 0)] loop of [Generate] writes at most 32 bytes a round. *)
Fixpoint generate_loop (fuel : nat) (K V : list Z) (outputlen : nat) : list Z * list Z :=
  match fuel, outputlen with
  | S fuel, S _ =>
      let V := hmac_of K [V] in
      let len := Nat.min outputlen 32 in
      let '(output, V') := generate_loop fuel K V (outputlen - len) in
      (take len V ++ output, V')
  | _, _ => ([], V)
  end.
Definition RFC6979_Generate (r : rfc6979) (outputlen : nat) : list Z * rfc6979 :=
  let '(K, V) :=
    if retry r then
      let K := hmac_of (rK r) [rV r; [0x00]] in (K, hmac_of K [rV r])
    else (rK r, rV r) in
  let '(output, V) := generate_loop outputlen K V outputlen in
  (output, Rfc6979 V K true).
