(* ===== verification/HmacFacts.v ===== *)
(** The keyed and composed hashes compute their specifications, and the hash
    classes discharge the interface the interpreter is proved against. *)

From S2P Require Import Prelude CryptoCommon HashEngine Sha256 Sha256Facts Sha1 Sha1Facts Sha512 Sha512Facts Ripemd160 Ripemd160Facts Hmac Script PubKey Interpreter InterpreterFacts.

(** * One-shot digests *)

Lemma digest_size w (f : Z → list Z) s n :
  (∀ x, length (f x) = w) → length s = n → length (flat_map f s) = (w * n)%nat.
Proof.
  intros Hf <-. induction s as [|x s IH]; simpl; [lia|]. rewrite length_app, Hf, IH. lia.
Qed.

Lemma digest_bytes (f : Z → list Z) s : (∀ x, bytes (f x)) → bytes (flat_map f s).
Proof. intros Hf. induction s as [|x s IH]; simpl; [constructor|]. by apply words_app. Qed.

Lemma WriteBE32_ok x : length (WriteBE32 x) = 4%nat ∧ bytes (WriteBE32 x).
Proof.
  unfold WriteBE32. rewrite length_rev. split.
  - apply Nat2Z.inj. by rewrite length_Z_to_little_endian.
  - apply Forall_rev. by apply Z_to_little_endian_bound.
Qed.

Lemma WriteLE32_ok x : length (WriteLE32 x) = 4%nat ∧ bytes (WriteLE32 x).
Proof.
  unfold WriteLE32. split; [apply Nat2Z.inj; by rewrite length_Z_to_little_endian|]. by apply Z_to_little_endian_bound.
Qed.

(** The size of a digest only depends on the size of the state. *)
Lemma transform_iter_size n block transform k (s l : list Z) :
  (∀ s c, length (transform s c) = n) → length s = n → length (process block transform k s l) = n.
Proof. intros Ht. revert s l. induction k as [|k IH]; intros s l Hs; simpl; auto. Qed.

Lemma write_hs_size n block transform h data :
  (∀ s c, length (transform s c) = n) → length (hs h) = n → length (hs (Write block transform h data)) = n.
Proof.
  intros Ht Hh.
  assert (∀ fuel h data, length (hs h) = n → length (hs (write_blocks block transform fuel h data).1) = n) as Hb.
  { induction fuel as [|fuel IH]; intros h' d Hh'; simpl; [done|]. case_match; [|done]. apply IH. simpl. auto. }
  unfold Write. set (b := _ && _).
  assert (∀ h data k, length (hs h) = n →
    length (hs (let '(h, data) := write_blocks block transform (length data) h data in
      match data with [] => h | _ => Hasher (hs h) (memcpy_at (hbuf h) k data)
        (u64 (hbytes h + Z.of_nat (length data))) end)) = n) as Hc.
  { intros h' d k Hh'. specialize (Hb (length d) h' d Hh'). destruct (write_blocks _ _ _ _ _) as [h2 [|? ?]]; done. }
  destruct b; apply Hc; simpl; auto.
Qed.

Lemma Let_In_all {A B} (P : B → Prop) (e : A) (f : A → B) : (∀ x, P (f x)) → P (Let_In e f).
Proof. intros H. apply H. Qed.

Ltac transform_size n :=
  repeat lazymatch goal with |- length (Let_In ?e ?f) = _ =>
    apply (Let_In_all (λ l : list Z, length l = n) e f); let x := fresh in intros x; cbv beta;
    lazymatch type of x with (_ * _)%type => destruct x as [? ?]; cbv iota | _ => idtac end
  end; reflexivity.

Lemma Transform256_size s c : length (sha256.Transform s c) = 8%nat.
Proof. cbv delta [sha256.Transform] beta zeta. transform_size 8%nat. Qed.
Lemma Transform1_size s c : length (sha1.Transform s c) = 5%nat.
Proof. cbv delta [sha1.Transform] beta zeta. transform_size 5%nat. Qed.
Lemma Transform512_size s c : length (sha512.Transform s c) = 8%nat.
Proof. cbv delta [sha512.Transform] beta zeta. transform_size 8%nat. Qed.
Lemma Transform160_size s c : length (ripemd160.Transform s c) = 5%nat.
Proof. cbv delta [ripemd160.Transform] beta zeta. transform_size 5%nat. Qed.

Lemma sha256_digest h :
  length (hs h) = 8%nat → length (CSHA256_Finalize h) = 32%nat ∧ bytes (CSHA256_Finalize h).
Proof.
  intros Hh. unfold CSHA256_Finalize, CSHA256_Write. cbv zeta. split.
  - apply (digest_size 4 WriteBE32 _ 8); [intros; apply WriteBE32_ok|].
    by do 2 (apply write_hs_size; [apply Transform256_size|]).
  - apply digest_bytes. intros; apply WriteBE32_ok.
Qed.

Lemma sha1_digest h :
  length (hs h) = 5%nat → length (CSHA1_Finalize h) = 20%nat ∧ bytes (CSHA1_Finalize h).
Proof.
  intros Hh. unfold CSHA1_Finalize, CSHA1_Write. cbv zeta. split.
  - apply (digest_size 4 WriteBE32 _ 5); [intros; apply WriteBE32_ok|].
    by do 2 (apply write_hs_size; [apply Transform1_size|]).
  - apply digest_bytes. intros; apply WriteBE32_ok.
Qed.

Lemma sha512_digest h :
  length (hs h) = 8%nat → length (CSHA512_Finalize h) = 64%nat ∧ bytes (CSHA512_Finalize h).
Proof.
  intros Hh. unfold CSHA512_Finalize, CSHA512_Write. cbv zeta. split.
  - apply (digest_size 8 WriteBE64 _ 8); [intros; apply length_WriteBE64 || apply WriteBE64_bytes|].
    by do 2 (apply write_hs_size; [apply Transform512_size|]).
  - apply digest_bytes. intros; apply length_WriteBE64 || apply WriteBE64_bytes.
Qed.

Lemma ripemd160_digest h :
  length (hs h) = 5%nat → length (CRIPEMD160_Finalize h) = 20%nat ∧ bytes (CRIPEMD160_Finalize h).
Proof.
  intros Hh. unfold CRIPEMD160_Finalize, CRIPEMD160_Write. cbv zeta. split.
  - apply (digest_size 4 WriteLE32 _ 5); [intros; apply WriteLE32_ok|].
    by do 2 (apply write_hs_size; [apply Transform160_size|]).
  - apply digest_bytes. intros; apply WriteLE32_ok.
Qed.

(** * The interface of the interpreter *)

#[export] Instance node_hashes : HashFunctions :=
  {| RIPEMD160 := ripemd160_of; SHA1 := sha1_of; SHA256 := sha256_of |}.

#[export] Instance node_hashes_ok : HashFunctionsOk.
Proof.
  split; intros b _; cbn [RIPEMD160 SHA1 SHA256 node_hashes]; apply and_comm.
  - apply ripemd160_digest, write_hs_size; [apply Transform160_size|done].
  - apply sha1_digest, write_hs_size; [apply Transform1_size|done].
  - apply sha256_digest, write_hs_size; [apply Transform256_size|done].
Qed.

(** * HMAC *)

Definition HMAC (H : list Z → list Z) (B : nat) (key msg : list Z) : list Z :=
  let K := if (length key <=? B)%nat then key else H key in
  let K0 := K ++ replicate (B - length K) 0 in
  H (xor_bytes 0x5c K0 ++ H (xor_bytes 0x36 K0 ++ msg)).

Lemma xor_ipad l : xor_bytes (Z.lxor 0x5c 0x36) (xor_bytes 0x5c l) = xor_bytes 0x36 l.
Proof.
  unfold xor_bytes. rewrite <-list_fmap_compose. apply list_fmap_ext. intros _ x _. simpl.
  rewrite <-Z.lxor_assoc. f_equal.
Qed.

Lemma xor_bytes_bytes x l : fits 8 x → bytes l → bytes (xor_bytes x l).
Proof. intros Hx Hl. apply Forall_fmap. eapply Forall_impl; [done|]. intros y Hy. by apply fits_lxor. Qed.

Lemma hmac_writes (h : hmac) datas :
  foldl CHMAC_SHA256_Write h datas = Hmac (outer h) (foldl CSHA256_Write (inner h) datas).
Proof. revert h. induction datas as [|d l IH]; intros [o i]; [done|]. apply IH. Qed.

Lemma sha256_two a b :
  bytes a → bytes b → Z.of_nat (length (a ++ b)) < 2 ^ 61 →
  CSHA256_Finalize (CSHA256_Write (CSHA256_Write (CSHA256_init (replicate 64 0)) a) b) = FIPS256.SHA256 (a ++ b).
Proof.
  intros Ha Hb Hl. pose proof (sha256_stream (replicate 64 0) [a; b]) as H.
  cbn [foldl concat] in H. rewrite app_nil_r in H. apply H; [done|by apply words_app|done].
Qed.

Lemma sha256_of_fips m : bytes m → Z.of_nat (length m) < 2 ^ 61 → sha256_of m = FIPS256.SHA256 m.
Proof.
  intros Hm Hl. pose proof (sha256_stream (replicate 64 0) [m]) as H. cbn [foldl concat] in H.
  rewrite app_nil_r in H. by apply H.
Qed.

Lemma sha256_of_ok m : length (sha256_of m) = 32%nat ∧ bytes (sha256_of m).
Proof. apply sha256_digest, write_hs_size; [apply Transform256_size|done]. Qed.

Lemma hmac256_spec key datas :
  bytes key → bytes (concat datas) → Z.of_nat (length key) < 2 ^ 61 →
  64 + Z.of_nat (length (concat datas)) < 2 ^ 61 →
  CHMAC_SHA256_Finalize (foldl CHMAC_SHA256_Write (CHMAC_SHA256_init key) datas) =
  HMAC FIPS256.SHA256 64 key (concat datas).
Proof.
  intros Hk Hd Hlk Hld. rewrite hmac_writes. unfold CHMAC_SHA256_Finalize, CHMAC_SHA256_init, HMAC. cbv zeta.
  cbn [outer inner]. rewrite xor_ipad.
  set (K := if (length key <=? 64)%nat then key else FIPS256.SHA256 key).
  assert ((if (length key <=? 64)%nat then key ++ replicate (64 - length key) 0
           else sha256_of key ++ replicate 32 0) = K ++ replicate (64 - length K) 0) as ->.
  { unfold K. destruct (Nat.leb_spec (length key) 64); [done|]. rewrite <-sha256_of_fips by done.
    by destruct (sha256_of_ok key) as [-> _]. }
  assert (bytes K ∧ (length K ≤ 64)%nat) as [HK HKl].
  { unfold K. destruct (Nat.leb_spec (length key) 64); [done|]. rewrite <-sha256_of_fips by done.
    destruct (sha256_of_ok key) as [Hl Hb]. split; [done|lia]. }
  set (K0 := K ++ replicate (64 - length K) 0).
  assert (bytes K0) as HK0 by (apply words_app; [done|by apply words_replicate0]).
  assert (length K0 = 64%nat) as HK0l by (unfold K0; rewrite length_app, length_replicate; lia).
  assert (∀ x, fits 8 x → bytes (xor_bytes x K0) ∧ length (xor_bytes x K0) = 64%nat) as Hx.
  { intros x Hx. split; [by apply xor_bytes_bytes|]. unfold xor_bytes. by rewrite length_fmap. }
  destruct (Hx 0x5c ltac:(done)) as [Ho Hol], (Hx 0x36 ltac:(done)) as [Hi Hil].
  pose proof (sha256_stream (replicate 64 0) (xor_bytes 0x36 K0 :: datas)) as Hs. cbn [foldl concat] in Hs.
  rewrite Hs by (done || by apply words_app || (rewrite length_app; lia)).
  rewrite <-(sha256_of_fips (xor_bytes 0x36 K0 ++ concat datas)) by (by apply words_app || (rewrite length_app; lia)).
  destruct (sha256_of_ok (xor_bytes 0x36 K0 ++ concat datas)) as [Hl Hb].
  apply sha256_two; [done|done|rewrite length_app; lia].
Qed.

Lemma hmac512_writes (h : hmac) datas :
  foldl CHMAC_SHA512_Write h datas = Hmac (outer h) (foldl CSHA512_Write (inner h) datas).
Proof. revert h. induction datas as [|d l IH]; intros [o i]; [done|]. apply IH. Qed.

Lemma sha512_two a b :
  bytes a → bytes b → Z.of_nat (length (a ++ b)) < 2 ^ 61 →
  CSHA512_Finalize (CSHA512_Write (CSHA512_Write (CSHA512_init (replicate 128 0)) a) b) = FIPS512.SHA512 (a ++ b).
Proof.
  intros Ha Hb Hl. pose proof (sha512_stream (replicate 128 0) [a; b]) as H.
  cbn [foldl concat] in H. rewrite app_nil_r in H. apply H; [done|by apply words_app|done].
Qed.

Lemma sha512_of_fips m : bytes m → Z.of_nat (length m) < 2 ^ 61 → sha512_of m = FIPS512.SHA512 m.
Proof.
  intros Hm Hl. pose proof (sha512_stream (replicate 128 0) [m]) as H. cbn [foldl concat] in H.
  rewrite app_nil_r in H. by apply H.
Qed.

Lemma sha512_of_ok m : length (sha512_of m) = 64%nat ∧ bytes (sha512_of m).
Proof. apply sha512_digest, write_hs_size; [apply Transform512_size|done]. Qed.

Lemma hmac512_spec key datas :
  bytes key → bytes (concat datas) → Z.of_nat (length key) < 2 ^ 61 →
  128 + Z.of_nat (length (concat datas)) < 2 ^ 61 →
  CHMAC_SHA512_Finalize (foldl CHMAC_SHA512_Write (CHMAC_SHA512_init key) datas) =
  HMAC FIPS512.SHA512 128 key (concat datas).
Proof.
  intros Hk Hd Hlk Hld. rewrite hmac512_writes. unfold CHMAC_SHA512_Finalize, CHMAC_SHA512_init, HMAC. cbv zeta.
  cbn [outer inner]. rewrite xor_ipad.
  set (K := if (length key <=? 128)%nat then key else FIPS512.SHA512 key).
  assert ((if (length key <=? 128)%nat then key ++ replicate (128 - length key) 0
           else sha512_of key ++ replicate 64 0) = K ++ replicate (128 - length K) 0) as ->.
  { unfold K. destruct (Nat.leb_spec (length key) 128); [done|]. rewrite <-sha512_of_fips by done.
    by destruct (sha512_of_ok key) as [-> _]. }
  assert (bytes K ∧ (length K ≤ 128)%nat) as [HK HKl].
  { unfold K. destruct (Nat.leb_spec (length key) 128); [done|]. rewrite <-sha512_of_fips by done.
    destruct (sha512_of_ok key) as [Hl Hb]. split; [done|lia]. }
  set (K0 := K ++ replicate (128 - length K) 0).
  assert (bytes K0) as HK0 by (apply words_app; [done|by apply words_replicate0]).
  assert (length K0 = 128%nat) as HK0l by (unfold K0; rewrite length_app, length_replicate; lia).
  assert (∀ x, fits 8 x → bytes (xor_bytes x K0) ∧ length (xor_bytes x K0) = 128%nat) as Hx.
  { intros x Hx. split; [by apply xor_bytes_bytes|]. unfold xor_bytes. by rewrite length_fmap. }
  destruct (Hx 0x5c ltac:(done)) as [Ho Hol], (Hx 0x36 ltac:(done)) as [Hi Hil].
  pose proof (sha512_stream (replicate 128 0) (xor_bytes 0x36 K0 :: datas)) as Hs. cbn [foldl concat] in Hs.
  rewrite Hs by (done || by apply words_app || (rewrite length_app; lia)).
  rewrite <-(sha512_of_fips (xor_bytes 0x36 K0 ++ concat datas)) by (by apply words_app || (rewrite length_app; lia)).
  destruct (sha512_of_ok (xor_bytes 0x36 K0 ++ concat datas)) as [Hl Hb].
  apply sha512_two; [done|done|rewrite length_app; lia].
Qed.

(** * RFC 6979 *)

Lemma hmac_of_spec key datas :
  bytes key → bytes (concat datas) → Z.of_nat (length key) < 2 ^ 61 →
  64 + Z.of_nat (length (concat datas)) < 2 ^ 61 →
  hmac_of key datas = HMAC FIPS256.SHA256 64 key (concat datas) ∧
  length (hmac_of key datas) = 32%nat ∧ bytes (hmac_of key datas).
Proof.
  intros Hk Hd Hlk Hld. split; [by apply hmac256_spec|]. unfold hmac_of, CHMAC_SHA256_Finalize.
  rewrite hmac_writes. apply sha256_digest. cbn [outer]. unfold CHMAC_SHA256_init. cbv zeta. cbn [outer].
  do 2 (apply write_hs_size; [apply Transform256_size|]). done.
Qed.

(** The stream of blocks V, each the HMAC of the one before. *)
Fixpoint V_stream (K V : list Z) (n : nat) : list Z :=
  match n with
  | O => []
  | S n => let V := HMAC FIPS256.SHA256 64 K V in V ++ V_stream K V n
  end.

Lemma generate_loop_stream fuel K V n m :
  bytes K → length K = 32%nat → bytes V → length V = 32%nat → (n ≤ fuel)%nat → (n ≤ 32 * m)%nat →
  (generate_loop fuel K V n).1 = take n (V_stream K V m).
Proof.
  intros HK HKl. revert V n m. induction fuel as [|fuel IH]; intros V n m HV HVl Hn Hm.
  { assert (n = 0%nat) as -> by lia. by rewrite take_0. }
  destruct n as [|n]; [done|]. destruct m as [|m]; [lia|]. cbn [generate_loop V_stream]. cbv zeta.
  pose proof (hmac_of_spec K [V]) as Hs. cbn [concat] in Hs. rewrite app_nil_r in Hs.
  destruct Hs as (Hh & Hl & Hb); [done|done|lia|lia|]. rewrite <-Hh. set (V1 := hmac_of K [V]) in *.
  specialize (IH V1 (S n - Nat.min (S n) 32)%nat m Hb Hl ltac:(lia) ltac:(lia)).
  destruct (generate_loop fuel K V1 (S n - Nat.min (S n) 32)) as [out V']. cbn [fst] in *. rewrite IH.
  destruct (decide (32 ≤ S n)%nat).
  - rewrite Nat.min_r, take_ge by lia. rewrite (take_app_ge V1) by lia. by rewrite Hl.
  - rewrite Nat.min_l by lia. rewrite Nat.sub_diag, take_0, app_nil_r. by rewrite take_app_le by lia.
Qed.

(** ** Properties *)

(** The two HMAC classes compute RFC 2104 over the FIPS 180-4 functions for
    every key and every way of cutting the message into [Write] calls. *)
Theorem hmac_rfc2104 key datas :
  bytes key → bytes (concat datas) → Z.of_nat (length key) < 2 ^ 61 →
  128 + Z.of_nat (length (concat datas)) < 2 ^ 61 →
  CHMAC_SHA256_Finalize (foldl CHMAC_SHA256_Write (CHMAC_SHA256_init key) datas) =
    HMAC FIPS256.SHA256 64 key (concat datas) ∧
  CHMAC_SHA512_Finalize (foldl CHMAC_SHA512_Write (CHMAC_SHA512_init key) datas) =
    HMAC FIPS512.SHA512 128 key (concat datas).
Proof. intros. split; [apply hmac256_spec; done || lia|by apply hmac512_spec]. Qed.

Lemma hmac_rfc2104_witness :
  CHMAC_SHA256_Finalize (foldl CHMAC_SHA256_Write (CHMAC_SHA256_init [1; 2]) [[3]; [4]]) =
  HMAC FIPS256.SHA256 64 [1; 2] [3; 4].
Proof.
  apply (hmac_rfc2104 [1; 2] [[3]; [4]]); [repeat constructor; lia|repeat constructor; lia|reflexivity|reflexivity].
Defined.
