(* ===== verification/Transaction.v ===== *)
(** primitives/transaction.h, transaction.cpp, primitives/block.h: the data of the
    chain, its serialization and the predicates on it.

    A [uint256] is its 32 bytes.  [prevPubKey] and [nRounds] are memory only.
    [CTransaction::hash] is the cached [SerializeHash]; [Hash] stands for the
    double SHA-256 of the serialization. *)

From S2P Require Import Prelude Script Serialize.

Definition uint256_IsNull (h : list Z) : bool := forallb (λ b, b =? 0) h.
(** [operator<=]: the bytes from the first on. *)
Fixpoint byte_le (a b : list Z) : bool :=
  match a, b with
  | [], _ => true
  | _ :: _, [] => false
  | x :: a, y :: b => if x <? y then true else if y <? x then false else byte_le a b
  end.
Definition uint256_null : list Z := replicate 32 0.

Record COutPoint := OutPoint { op_hash : list Z; op_n : Z }.
Record CTxIn := TxIn { prevout : COutPoint; scriptSig : CScript; nSequence : Z; prevPubKey : CScript }.
Record CTxOut := TxOut { nValue : Z; scriptPubKey : CScript; nRounds : Z }.
Record CMutableTransaction := MTx {
  nTransactionVersion : Z;
  vin : list CTxIn;
  vout : list CTxOut;
  nLockTime : Z;
}.

#[export] Instance COutPoint_eq_dec : EqDecision COutPoint.
Proof. solve_decision. Defined.
#[export] Instance CTxOut_eq_dec : EqDecision CTxOut.
Proof. solve_decision. Defined.

Definition COutPoint_null : COutPoint := OutPoint uint256_null (u32 (-1)).
Definition COutPoint_IsNull (o : COutPoint) : bool := uint256_IsNull (op_hash o) && (op_n o =? u32 (-1)).
Definition SEQUENCE_FINAL : Z := 0xFFFFFFFF.
Definition CTxIn_default : CTxIn := TxIn COutPoint_null [] SEQUENCE_FINAL [].
Definition IsFinal (i : CTxIn) : bool := nSequence i =? SEQUENCE_FINAL.

Definition CTxOut_null : CTxOut := TxOut (-1) [] (-10).
Definition CTxOut_IsNull (o : CTxOut) : bool := nValue o =? -1.
Definition CTxOut_SetEmpty (o : CTxOut) : CTxOut := TxOut 0 [] (nRounds o).
Definition CTxOut_IsEmpty (o : CTxOut) : bool := (nValue o =? 0) && bool_decide (scriptPubKey o = []).
(** [minRelayTxFee] is an [int]. *)
Definition IsDust (o : CTxOut) (minRelayTxFee : Z) : bool := nValue o <? s32 (3 * minRelayTxFee).
Definition CTxOut_IsZerocoinMint (o : CTxOut) : bool :=
  negb (bool_decide (scriptPubKey o = [])) && IsZerocoinMint (scriptPubKey o).

(** ** Serialization: one [READWRITE] per line *)

Definition Serialize_COutPoint (o : COutPoint) : list Z :=
  Serialize_blob (op_hash o) ++ Serialize_uint 4 (op_n o).
Definition Unserialize_COutPoint : decoder COutPoint :=
  hash ← Unserialize_blob 32;
  n ← Unserialize_uint 4;
  mret (OutPoint hash n).

Definition Serialize_CTxIn (i : CTxIn) : list Z :=
  Serialize_COutPoint (prevout i) ++
  Serialize_bytes (scriptSig i) ++
  Serialize_uint 4 (nSequence i).
Definition Unserialize_CTxIn : decoder CTxIn :=
  prevout ← Unserialize_COutPoint;
  scriptSig ← Unserialize_bytes;
  nSequence ← Unserialize_uint 4;
  mret (TxIn prevout scriptSig nSequence []).

Definition Serialize_CTxOut (o : CTxOut) : list Z :=
  Serialize_int 8 (nValue o) ++
  Serialize_bytes (scriptPubKey o).
Definition Unserialize_CTxOut : decoder CTxOut :=
  nValue ← Unserialize_int 8;
  scriptPubKey ← Unserialize_bytes;
  mret (TxOut nValue scriptPubKey (-10)).

Definition Serialize_tx (tx : CMutableTransaction) : list Z :=
  Serialize_int 4 (nTransactionVersion tx) ++
  Serialize_vector Serialize_CTxIn (vin tx) ++
  Serialize_vector Serialize_CTxOut (vout tx) ++
  Serialize_uint 4 (nLockTime tx).
Definition Unserialize_tx : decoder CMutableTransaction :=
  nTransactionVersion ← Unserialize_int 4;
  vin ← Unserialize_vector Unserialize_CTxIn;
  vout ← Unserialize_vector Unserialize_CTxOut;
  nLockTime ← Unserialize_uint 4;
  mret (MTx nTransactionVersion vin vout nLockTime).

(** ** Predicates of [CTransaction] *)

Definition tx_IsNull (tx : CMutableTransaction) : bool :=
  bool_decide (length (vin tx) = 0%nat) && bool_decide (length (vout tx) = 0%nat).

(** [vin[0].scriptSig[0]] of an empty script reads past the end: [None]. *)
Definition tx_IsZerocoinSpend (tx : CMutableTransaction) : option bool :=
  match vin tx with
  | [] => Some false
  | i :: _ =>
      if uint256_IsNull (op_hash (prevout i))
      then match scriptSig i with [] => None | op :: _ => Some (op =? OP_ZEROCOINSPEND) end
      else Some false
  end.
Definition tx_IsZerocoinMint (tx : CMutableTransaction) : bool :=
  existsb (λ o, IsZerocoinMint (scriptPubKey o)) (vout tx).
Definition ContainsZerocoins (tx : CMutableTransaction) : option bool :=
  spend ← tx_IsZerocoinSpend tx; Some (spend || tx_IsZerocoinMint tx).
Definition IsCoinBase (tx : CMutableTransaction) : option bool :=
  match vin tx with
  | [i] =>
      if COutPoint_IsNull (prevout i) then zc ← ContainsZerocoins tx; Some (negb zc) else Some false
  | _ => Some false
  end.
Definition IsCoinStake (tx : CMutableTransaction) : bool :=
  match vin tx with
  | [] => false
  | i :: _ =>
      let fAllowNull := IsZerocoinSpend (scriptSig i) in
      if COutPoint_IsNull (prevout i) && negb fAllowNull then false
      else match vout tx with
      | o :: _ :: _ => CTxOut_IsEmpty o
      | _ => false
      end
  end.

(** [GetValueOut]: [None] is the exception.  The sum of two [int64_t] wraps. *)
Fixpoint value_out (nValueOut : Z) (l : list CTxOut) : option Z :=
  match l with
  | [] => Some nValueOut
  | v :: l =>
      if nValue v <? 0 then None
      else if s64 (nValueOut + nValue v) <? nValueOut then None
      else value_out (s64 (nValueOut + nValue v)) l
  end.
Definition GetValueOut (tx : CMutableTransaction) : option Z := value_out 0 (vout tx).

Definition GetZerocoinMinted (tx : CMutableTransaction) : Z :=
  match List.find (λ o, IsZerocoinMint (scriptPubKey o)) (vout tx) with
  | Some o => nValue o
  | None => 0
  end.
Definition GetZerocoinMintCount (tx : CMutableTransaction) : Z :=
  Z.of_nat (length (List.filter (λ o, IsZerocoinMint (scriptPubKey o)) (vout tx))).
Definition UsesUTXO (tx : CMutableTransaction) (out : COutPoint) : bool :=
  existsb (λ i, bool_decide (prevout i = out)) (vin tx).

Definition COIN : Z := 100000000.
(** [txin.nSequence * COIN] is an [int64_t] product. *)
Definition GetZerocoinSpent (tx : CMutableTransaction) : option Z :=
  spend ← tx_IsZerocoinSpend tx;
  Some (if (spend : bool) then
          foldl (λ n i, if IsZerocoinSpend (scriptSig i) then s64 (n + s64 (nSequence i * COIN)) else n) 0 (vin tx)
        else 0).

(** [CalculateModifiedSize], with [nTxSize] already the serialized size if it was 0. *)
Definition modified_size_step (nTxSize : Z) (v : CTxIn) : Z :=
  let offset := 41 + Z.min 110 (size (scriptSig v)) in
  if offset <? nTxSize then nTxSize - offset else nTxSize.
Definition CalculateModifiedSize (tx : CMutableTransaction) (nTxSize : Z) : Z :=
  let nTxSize := if nTxSize =? 0 then u32 (size (Serialize_tx tx)) else nTxSize in
  foldl modified_size_step nTxSize (vin tx).

(** ** Block headers and blocks *)

Record CBlockHeader := BlockHeader {
  nHeaderVersion : Z;
  hashPrevBlock : list Z;
  hashMerkleRoot : list Z;
  hdr_nTime : Z;
  hdr_nBits : Z;
  hdr_nNonce : Z;
  nAccumulatorCheckpoint : list Z;
}.
Definition Serialize_header (h : CBlockHeader) : list Z :=
  Serialize_int 4 (nHeaderVersion h) ++
  Serialize_blob (hashPrevBlock h) ++
  Serialize_blob (hashMerkleRoot h) ++
  Serialize_uint 4 (hdr_nTime h) ++
  Serialize_uint 4 (hdr_nBits h) ++
  Serialize_uint 4 (hdr_nNonce h) ++
  Serialize_blob (nAccumulatorCheckpoint h).
Definition Unserialize_header : decoder CBlockHeader :=
  nHeaderVersion ← Unserialize_int 4;
  hashPrevBlock ← Unserialize_blob 32;
  hashMerkleRoot ← Unserialize_blob 32;
  nTime ← Unserialize_uint 4;
  nBits ← Unserialize_uint 4;
  nNonce ← Unserialize_uint 4;
  nAccumulatorCheckpoint ← Unserialize_blob 32;
  mret (BlockHeader nHeaderVersion hashPrevBlock hashMerkleRoot nTime nBits nNonce nAccumulatorCheckpoint).
Definition header_IsNull (h : CBlockHeader) : bool := hdr_nBits h =? 0.

(** The serialized part of a [CBlock]; [payee] and [vMerkleTree] are memory only. *)
Record CBlock := Block { header : CBlockHeader; vtx : list CMutableTransaction; vchBlockSig : list Z }.

Definition IsProofOfStake (b : CBlock) : bool :=
  match vtx b with _ :: tx :: _ => IsCoinStake tx | _ => false end.

(** [if (vtx.size() > 1 && vtx[1].IsCoinStake()) READWRITE(vchBlockSig)] *)
Definition Serialize_block (b : CBlock) : list Z :=
  Serialize_header (header b) ++
  Serialize_vector Serialize_tx (vtx b) ++
  if IsProofOfStake b then Serialize_bytes (vchBlockSig b) else [].
Definition Unserialize_block : decoder CBlock :=
  header ← Unserialize_header;
  vtx ← Unserialize_vector Unserialize_tx;
  if IsProofOfStake (Block header vtx []) then
    vchBlockSig ← Unserialize_bytes; mret (Block header vtx vchBlockSig)
  else mret (Block header vtx []).
Definition GetProofOfStake (b : CBlock) : option (COutPoint * Z) :=
  if IsProofOfStake b then
    tx ← vtx b !! 1%nat; i ← vin tx !! 0%nat; Some (prevout i, hdr_nTime (header b))
  else Some (COutPoint_null, 0).
