(* ===== verification/TransactionFacts.v ===== *)
(** Transactions, headers and blocks are determined by their serialization, and
    the sums over outputs are exact or fail. *)

From S2P Require Import Prelude Script Serialize SerializeFacts Transaction.

Definition bytes_ok (v : list Z) : Prop := bytes v ∧ Z.of_nat (length v) ≤ MAX_SIZE.
Definition uint256_ok (h : list Z) : Prop := bytes h ∧ length h = 32%nat.
Definition COutPoint_ok (o : COutPoint) : Prop := uint256_ok (op_hash o) ∧ fits 32 (op_n o).
Definition CTxIn_ok (i : CTxIn) : Prop :=
  COutPoint_ok (prevout i) ∧ bytes_ok (scriptSig i) ∧ fits 32 (nSequence i) ∧ prevPubKey i = [].
Definition CTxOut_ok (o : CTxOut) : Prop :=
  sfits 64 (nValue o) ∧ bytes_ok (scriptPubKey o) ∧ nRounds o = -10.
Definition vector_ok {A} (valid : A → Prop) (v : list A) : Prop :=
  Forall valid v ∧ Z.of_nat (length v) ≤ MAX_SIZE.
Definition tx_ok (tx : CMutableTransaction) : Prop :=
  sfits 32 (nTransactionVersion tx) ∧ vector_ok CTxIn_ok (vin tx) ∧ vector_ok CTxOut_ok (vout tx) ∧
  fits 32 (nLockTime tx).
Definition header_ok (h : CBlockHeader) : Prop :=
  sfits 32 (nHeaderVersion h) ∧ uint256_ok (hashPrevBlock h) ∧ uint256_ok (hashMerkleRoot h) ∧
  fits 32 (hdr_nTime h) ∧ fits 32 (hdr_nBits h) ∧ fits 32 (hdr_nNonce h) ∧
  uint256_ok (nAccumulatorCheckpoint h).
Definition block_ok (b : CBlock) : Prop :=
  header_ok (header b) ∧ vector_ok tx_ok (vtx b) ∧ bytes_ok (vchBlockSig b) ∧
  (IsProofOfStake b = false → vchBlockSig b = []).

#[export] Instance bytes_ok_dec v : Decision (bytes_ok v).
Proof. unfold bytes_ok, fits. apply _. Defined.
#[export] Instance CTxIn_ok_dec i : Decision (CTxIn_ok i).
Proof. unfold CTxIn_ok, COutPoint_ok, uint256_ok, fits. apply _. Defined.
#[export] Instance CTxOut_ok_dec o : Decision (CTxOut_ok o).
Proof. unfold CTxOut_ok, sfits. apply _. Defined.
#[export] Instance tx_ok_dec tx : Decision (tx_ok tx).
Proof. unfold tx_ok, vector_ok, sfits, fits. apply _. Defined.

(** Step through the fields of a record: forwards on an encoding, backwards on an
    accepted input. *)
Ltac enc_step H := rewrite <-?app_assoc, (codec_step _ _ _ _ _ _ H) by done.
Ltac dec_step Hs H C x :=
  let s' := fresh "s" in let Hx := fresh "Hx" in let Hs' := fresh "Hs" in
  apply (codec_inv _ _ _ _ _ _ C Hs) in H as (x & s' & -> & Hx & Hs' & H); clear Hs; rename Hs' into Hs.

Lemma codec_COutPoint : codec COutPoint_ok Serialize_COutPoint Unserialize_COutPoint.
Proof.
  unfold Serialize_COutPoint, Unserialize_COutPoint. split_and!.
  - intros [h n] rest [Hh Hn]. cbn [op_hash op_n] in *. enc_step (codec_blob 32). by enc_step (codec_uint 4).
  - intros s o rest Hs H. dec_step Hs H (codec_blob 32) h. dec_step Hs H (codec_uint 4) n.
    injection H as <- <-. by rewrite <-?app_assoc.
  - intros [h n] [Hh Hn]. apply words_app; [apply Hh|apply uint_bytes].
Qed.

Lemma codec_CTxIn : codec CTxIn_ok Serialize_CTxIn Unserialize_CTxIn.
Proof.
  unfold Serialize_CTxIn, Unserialize_CTxIn. split_and!.
  - intros [o s n p] rest (Ho & Hs & Hn & Hp). cbn [prevout scriptSig nSequence prevPubKey] in *. subst p.
    enc_step codec_COutPoint. enc_step codec_bytes. by enc_step (codec_uint 4).
  - intros s i rest Hs H. dec_step Hs H codec_COutPoint o. dec_step Hs H codec_bytes sg.
    dec_step Hs H (codec_uint 4) n. injection H as <- <-. by rewrite <-?app_assoc.
  - intros [o s n p] (Ho & Hs & Hn & _). rewrite !Forall_app.
    split_and!; [by apply (codec_enc _ _ _ _ codec_COutPoint)|by apply (codec_enc _ _ _ _ codec_bytes)|apply uint_bytes].
Qed.

Lemma codec_CTxOut : codec CTxOut_ok Serialize_CTxOut Unserialize_CTxOut.
Proof.
  unfold Serialize_CTxOut, Unserialize_CTxOut. pose proof (codec_int 8 ltac:(lia)) as C8. split_and!.
  - intros [v s r] rest (Hv & Hs & Hr). cbn [nValue scriptPubKey nRounds] in *. subst r.
    enc_step C8. by enc_step codec_bytes.
  - intros s i rest Hs H. dec_step Hs H C8 v. dec_step Hs H codec_bytes sp.
    injection H as <- <-. by rewrite <-?app_assoc.
  - intros [v s r] (Hv & Hs & _). rewrite !Forall_app.
    split; [by apply (codec_enc _ _ _ _ C8)|by apply (codec_enc _ _ _ _ codec_bytes)].
Qed.

Lemma codec_tx : codec tx_ok Serialize_tx Unserialize_tx.
Proof.
  unfold Serialize_tx, Unserialize_tx. pose proof (codec_int 4 ltac:(lia)) as C4.
  pose proof (codec_vector _ _ _ codec_CTxIn) as Ci. pose proof (codec_vector _ _ _ codec_CTxOut) as Co. split_and!.
  - intros [v i o l] rest (Hv & Hi & Ho & Hl). cbn [nTransactionVersion vin vout nLockTime] in *.
    enc_step C4. enc_step Ci. enc_step Co. by enc_step (codec_uint 4).
  - intros s tx rest Hs H. dec_step Hs H C4 v. dec_step Hs H Ci i. dec_step Hs H Co o. dec_step Hs H (codec_uint 4) l.
    injection H as <- <-. by rewrite <-?app_assoc.
  - intros [v i o l] (Hv & Hi & Ho & Hl). rewrite !Forall_app.
    split_and!; [by apply (codec_enc _ _ _ _ C4)|by apply (codec_enc _ _ _ _ Ci)|by apply (codec_enc _ _ _ _ Co)|apply uint_bytes].
Qed.

Lemma codec_header : codec header_ok Serialize_header Unserialize_header.
Proof.
  unfold Serialize_header, Unserialize_header. pose proof (codec_int 4 ltac:(lia)) as C4. split_and!.
  - intros [v p m t b n a] rest (Hv & Hp & Hm & Ht & Hb & Hn & Ha).
    cbn [nHeaderVersion hashPrevBlock hashMerkleRoot hdr_nTime hdr_nBits hdr_nNonce nAccumulatorCheckpoint] in *.
    enc_step C4. do 2 enc_step (codec_blob 32). do 3 enc_step (codec_uint 4). by enc_step (codec_blob 32).
  - intros s h rest Hs H. dec_step Hs H C4 v. dec_step Hs H (codec_blob 32) p. dec_step Hs H (codec_blob 32) m.
    dec_step Hs H (codec_uint 4) t. dec_step Hs H (codec_uint 4) b. dec_step Hs H (codec_uint 4) n.
    dec_step Hs H (codec_blob 32) a. injection H as <- <-. by rewrite <-?app_assoc.
  - intros [v p m t b n a] (Hv & [Hp _] & [Hm _] & _ & _ & _ & [Ha _]).
    rewrite !Forall_app. split_and!; try apply uint_bytes; done.
Qed.

Lemma codec_block : codec block_ok Serialize_block Unserialize_block.
Proof.
  unfold Serialize_block, Unserialize_block. pose proof (codec_vector _ _ _ codec_tx) as Ct. split_and!.
  - intros [h v g] rest (Hh & Hv & Hg & Hp). cbn [header vtx vchBlockSig] in *.
    enc_step codec_header. enc_step Ct.
    replace (IsProofOfStake (Block h v [])) with (IsProofOfStake (Block h v g)) by done.
    destruct (IsProofOfStake (Block h v g)); [by enc_step codec_bytes|]. by rewrite Hp.
  - intros s b rest Hs H. dec_step Hs H codec_header h. dec_step Hs H Ct v.
    destruct (IsProofOfStake (Block h v [])) eqn:Ep.
    + dec_step Hs H codec_bytes g. injection H as <- <-. cbn [header vtx vchBlockSig].
      change (IsProofOfStake (Block h v g)) with (IsProofOfStake (Block h v [])). rewrite Ep, <-!app_assoc.
      split; [done|]. split_and!; [done..|]. unfold IsProofOfStake in *. cbn [vtx] in *. by rewrite Ep.
    + injection H as <- <-. cbn [header vtx vchBlockSig]. rewrite Ep, app_nil_r, <-!app_assoc. split; [done|].
      by split_and!.
  - intros [h v g] (Hh & Hv & Hg & Hp). rewrite !Forall_app.
    split_and!; [by apply (codec_enc _ _ _ _ codec_header)|by apply (codec_enc _ _ _ _ Ct)|].
    case_match; [by apply (codec_enc _ _ _ _ codec_bytes)|constructor].
Qed.

(** * Sums over the outputs *)

Definition total (l : list CTxOut) : Z := foldr (λ o n, nValue o + n) 0 l.

Lemma total_nonneg l : Forall (λ o, 0 ≤ nValue o) l → 0 ≤ total l.
Proof. induction 1; simpl; lia. Qed.

Lemma value_out_spec acc l n :
  0 ≤ acc < 2 ^ 63 → Forall (λ o, sfits 64 (nValue o)) l →
  value_out acc l = Some n ↔
  Forall (λ o, 0 ≤ nValue o) l ∧ acc + total l < 2 ^ 63 ∧ n = acc + total l.
Proof.
  revert acc. induction l as [|o l IH]; intros acc Hacc Hl; cbn [value_out total foldr].
  { split; [intros [= <-]; split_and!; [constructor|lia..]|intros (_ & _ & ->); f_equal; lia]. }
  inversion_clear Hl as [|? ? Ho Hl']. unfold sfits in Ho. simpl in Ho. fold (total l).
  destruct (Z.ltb_spec (nValue o) 0) as [Hneg|Hpos].
  { split; [done|]. intros (H & _). inversion_clear H. lia. }
  destruct (decide (acc + nValue o < 2 ^ 63)) as [Hok|Hov].
  - rewrite swrap_small by (unfold sfits; lia). replace (_ <? _) with false by lia.
    rewrite IH by (done || lia). rewrite Forall_cons. split; intros; destruct_and!; split_and!; try done; lia.
  - assert ((s64 (acc + nValue o) <? acc) = true) as ->.
    { unfold swrap, wrap. cbv zeta. rewrite Z.mod_small by lia. case_match; lia. }
    split; [done|]. intros (H & Ht & _). inversion_clear H as [|? ? _ Hf]. apply total_nonneg in Hf. lia.
Qed.

(** ** Properties *)

(** Transactions, block headers and blocks survive serialization, and every
    byte string the node accepts as one is exactly the serialization of what it
    decoded, so that two accepted encodings of the same block or transaction are
    equal. *)
Theorem block_serialization :
  codec tx_ok Serialize_tx Unserialize_tx ∧ codec header_ok Serialize_header Unserialize_header ∧
  codec block_ok Serialize_block Unserialize_block.
Proof. split_and!; [apply codec_tx|apply codec_header|apply codec_block]. Qed.

(** [GetValueOut] returns the exact sum of the outputs, and throws exactly when
    an output is negative or the sum does not fit an [int64_t]: the wrap-around
    test after the addition misses no overflow. *)
Theorem GetValueOut_exact tx n :
  Forall (λ o, sfits 64 (nValue o)) (vout tx) →
  GetValueOut tx = Some n ↔
  Forall (λ o, 0 ≤ nValue o) (vout tx) ∧ total (vout tx) < 2 ^ 63 ∧ n = total (vout tx).
Proof. intros H. unfold GetValueOut. rewrite value_out_spec by (done || lia). by rewrite !Z.add_0_l. Qed.

Lemma GetValueOut_exact_witness : GetValueOut (MTx 1 [] [TxOut 5 [] (-10); TxOut 7 [] (-10)] 0) = Some 12.
Proof.
  apply (GetValueOut_exact (MTx 1 [] [TxOut 5 [] (-10); TxOut 7 [] (-10)] 0) 12).
  - repeat constructor; simpl; unfold sfits; lia.
  - split_and!; [repeat constructor; simpl; lia|reflexivity|reflexivity].
Defined.
