(* ===== verification/StakeModifier.v ===== *)
(** kernel.cpp, and the parts of chain.h and main.cpp it works with: the stake modifier
    that every block of the index carries, with its checksum, and the proof-of-stake part
    of [AddToBlockIndex].

    A function returning [bool] through reference parameters is a function to the
    tuple of the returned value and the final values of these parameters; [None] is
    undefined behaviour: a division by zero, a signed overflow, a read past the end
    of a vector, a null dereference or a failed assertion. *)

From stdpp Require Import sorting.
From S2P Require Import Prelude CryptoCommon ArithUint256 ChainParams BlockIndex Pow Interpreter Transaction.
Import BaseUint Arith256 BlockIndex.
Local Open Scope Z_scope.

(** [mapBlockIndex.find] *)
Definition find_block (h : store) (hash : uint256) : option ptr :=
  fst <$> head (filter (λ '(p, b), phashBlock b = hash) (map_to_list h)).

(** The proof-of-stake fields of a [CBlockIndex] that BlockIndex.v leaves out. *)
Record kernel_fields := KernelFields {
  nStakeModifier : Z;
  nStakeModifierChecksum : Z;
  hashProofOfStake : uint256;
  bnChainTrust : Z;
}.
Definition KernelFields_null : kernel_fields := KernelFields 0 0 uint256_null 0.
(** [mapBlockIndex] with these fields, and [mapProofOfStake]. *)
Record kernel_state := KernelState {
  ks_index : store;
  ks_fields : gmap ptr kernel_fields;
  ks_proofs : gmap uint256 uint256;
}.

Definition BLOCK_STAKE_ENTROPY : Z := 2.
Definition BLOCK_STAKE_MODIFIER : Z := 4.
Definition MODIFIER_INTERVAL_RATIO : Z := 3.

Definition GetStakeEntropyBit (b : CBlockIndex) : Z := Z.land (le_val 8 (take 8 (phashBlock b))) 1.
Definition GeneratedStakeModifier (b : CBlockIndex) : bool := negb (Z.land (nFlags b) BLOCK_STAKE_MODIFIER =? 0).
Definition or_flags (f : Z) (b : CBlockIndex) : CBlockIndex :=
  MkBlockIndex (phashBlock b) (pprev b) (pskip b) (nHeight b) (Z.lor (nFlags b) f) (nHeaderVersion b) (nTime b) (nBits b).
(** The second component is the returned value. *)
Definition SetStakeEntropyBit (b : CBlockIndex) (nEntropyBit : Z) : CBlockIndex * bool :=
  if 1 <? nEntropyBit then (b, false)
  else (or_flags (if nEntropyBit =? 0 then 0 else BLOCK_STAKE_ENTROPY) b, true).
Definition SetStakeModifier (b : CBlockIndex) (f : kernel_fields) (nModifier : Z) (fGeneratedStakeModifier : bool) : CBlockIndex * kernel_fields :=
  (if fGeneratedStakeModifier then or_flags BLOCK_STAKE_MODIFIER b else b,
   KernelFields nModifier (nStakeModifierChecksum f) (hashProofOfStake f) (bnChainTrust f)).

Section modifier.
Context (Params : CChainParams) `{HashFunctions}.
(** [uint64_t("stakemodifier")]: the address of the string literal. *)
Context (literal : Z).

(** An [int] expression: its value if it is representable. *)
Definition as_int (z : Z) : option Z := if (- 2 ^ 31 <=? z) && (z <? 2 ^ 31) then Some z else None.

(** ** Intervals *)

Definition GetStakeModifierSelectionIntervalSection (nSection : Z) : option Z :=
  if (0 <=? nSection) && (nSection <? 64) then
    n ← as_int (nModifierInterval Params * 63);
    Some (n `quot` (63 + (63 - nSection) * (MODIFIER_INTERVAL_RATIO - 1)))
  else None.
Fixpoint interval_loop (n : nat) : option Z :=
  match n with
  | O => Some 0
  | S n =>
      nSelectionInterval ← interval_loop n;
      a ← GetStakeModifierSelectionIntervalSection (Z.of_nat n);
      Some (s64 (nSelectionInterval + a))
  end.
Definition GetStakeModifierSelectionInterval : option Z := interval_loop 64.

(** ** The modifier of the next block *)

(** The loop of [GetLastStakeModifier]; it ends at the genesis block at the latest. *)
Fixpoint last_modifier_loop (h : store) (fuel : nat) (pindex : ptr) : option ptr :=
  match fuel with
  | O => None
  | S fuel =>
      b ← h !! pindex;
      match pprev b with
      | Some q => if GeneratedStakeModifier b then Some pindex else last_modifier_loop h fuel q
      | None => Some pindex
      end
  end.
(** The inner [None] is the result [false]. *)
Definition GetLastStakeModifier (ks : kernel_state) (pindex : option ptr) : option (option (Z * Z)) :=
  match pindex with
  | None => Some None
  | Some pindex =>
      b ← ks_index ks !! pindex;
      p ← last_modifier_loop (ks_index ks) (Z.to_nat (nHeight b) + 1) pindex;
      b ← ks_index ks !! p; f ← ks_fields ks !! p;
      Some (if GeneratedStakeModifier b then Some (nStakeModifier f, nTime b) else None)
  end.

(** [while ((pindex != nullptr) && pindex->GetBlockTime() >= nSelectionIntervalStart)] *)
Fixpoint candidates_loop (h : store) (fuel : nat) (nSelectionIntervalStart : Z) (pindex : option ptr) : option (list (Z * uint256)) :=
  match pindex with
  | None => Some []
  | Some p =>
      b ← h !! p;
      if nSelectionIntervalStart <=? nTime b then
        match fuel with
        | O => None
        | S fuel => l ← candidates_loop h fuel nSelectionIntervalStart (pprev b); Some ((nTime b, phashBlock b) :: l)
        end
      else Some []
  end.
(** [operator<=] of the pairs: first the time, then the bytes of the hash. *)
Definition pair_le (x y : Z * uint256) : bool := (x.1 <? y.1) || ((x.1 =? y.1) && byte_le x.2 y.2).
Definition sort_candidates (l : list (Z * uint256)) : list (Z * uint256) :=
  merge_sort (λ x y, Is_true (pair_le x y)) (rev l).

(** The hash that is unique to the block; a proof-of-stake block is favoured. *)
Definition selection_hash (nStakeModifierPrev : Z) (b : CBlockIndex) : list Z :=
  let hashSelection := UintToArith256 (Hash256 (phashBlock b ++ WriteLE64 nStakeModifierPrev)) in
  if IsProofOfStake b then op_shr W256 hashSelection 32 else hashSelection.

(** The loop of [SelectBlockFromCandidates]; [best] is [fSelected] with [hashBest] and
    [*pindexSelected].  The inner [None] is a candidate that is not indexed. *)
Fixpoint select_loop (h : store) (mapSelectedBlocks : gmap uint256 ptr) (nSelectionIntervalStop nStakeModifierPrev : Z)
    (best : option (list Z * ptr)) (vSortedByTimestamp : list (Z * uint256)) : option (option (list Z * ptr)) :=
  match vSortedByTimestamp with
  | [] => Some best
  | item :: l =>
      pindex ← find_block h item.2;
      b ← h !! pindex;
      if bool_decide (is_Some best) && (nSelectionIntervalStop <? nTime b) then Some best
      else if bool_decide (is_Some (mapSelectedBlocks !! phashBlock b))
      then select_loop h mapSelectedBlocks nSelectionIntervalStop nStakeModifierPrev best l
      else
        let hashSelection := selection_hash nStakeModifierPrev b in
        select_loop h mapSelectedBlocks nSelectionIntervalStop nStakeModifierPrev
          match best with
          | Some (hashBest, _) => if op_lt hashSelection hashBest then Some (hashSelection, pindex) else best
          | None => Some (hashSelection, pindex)
          end l
  end.
(** [Some p] is the result [true] with [*pindexSelected = p]. *)
Definition SelectBlockFromCandidates (h : store) (vSortedByTimestamp : list (Z * uint256)) (mapSelectedBlocks : gmap uint256 ptr)
    (nSelectionIntervalStop nStakeModifierPrev : Z) : option ptr :=
  best ← select_loop h mapSelectedBlocks nSelectionIntervalStop nStakeModifierPrev None vSortedByTimestamp;
  snd <$> best.

(** The rounds [nRound], ... of the selection; [rounds] of them are left.  The result is
    [nStakeModifierNew], the inner [None] a round that selects no block. *)
Fixpoint select_rounds (h : store) (vSortedByTimestamp : list (Z * uint256)) (nStakeModifierPrev : Z) (rounds : nat) (nRound : Z)
    (nSelectionIntervalStop : Z) (mapSelectedBlocks : gmap uint256 ptr) (nStakeModifierNew : Z) : option (option Z) :=
  match rounds with
  | O => Some (Some nStakeModifierNew)
  | S rounds =>
      a ← GetStakeModifierSelectionIntervalSection nRound;
      let stop := s64 (nSelectionIntervalStop + a) in
      match SelectBlockFromCandidates h vSortedByTimestamp mapSelectedBlocks stop nStakeModifierPrev with
      | None => Some None
      | Some pindex =>
          b ← h !! pindex;
          select_rounds h vSortedByTimestamp nStakeModifierPrev rounds (nRound + 1) stop
            (<[phashBlock b := pindex]> mapSelectedBlocks)
            (Z.lor nStakeModifierNew (u64 (GetStakeEntropyBit b ≪ nRound)))
      end
  end.

(** [vSortedByTimestamp.reserve(64 * ModifierInterval / StakeTargetSpacing)]: a negative
    size is an exception. *)
Definition reserve_candidates : option unit :=
  n ← as_int (64 * nModifierInterval Params);
  if nStakeTargetSpacing Params =? 0 then None
  else if n `quot` nStakeTargetSpacing Params <? 0 then None else Some tt.

(** The values of [nStakeModifier] and [fGeneratedStakeModifier] after the returned one. *)
Definition ComputeNextStakeModifier (ks : kernel_state) (pindexPrev : option ptr) : option (bool * Z * bool) :=
  match pindexPrev with
  | None => Some (true, 0, true)
  | Some prev =>
      b ← ks_index ks !! prev;
      if nHeight b =? 0 then Some (true, literal, true)
      else
        last ← GetLastStakeModifier ks pindexPrev;
        match last with
        | None => Some (false, 0, false)
        | Some (modifier, nModifierTime) =>
            if nModifierInterval Params =? 0 then None
            else if nTime b `quot` nModifierInterval Params <=? nModifierTime `quot` nModifierInterval Params
            then Some (true, modifier, false)
            else
              _ ← reserve_candidates;
              nSelectionInterval ← GetStakeModifierSelectionInterval;
              let nSelectionIntervalStart :=
                nTime b `quot` nModifierInterval Params * nModifierInterval Params - nSelectionInterval in
              l ← candidates_loop (ks_index ks) (Z.to_nat (nHeight b) + 1) nSelectionIntervalStart pindexPrev;
              let vSortedByTimestamp := sort_candidates l in
              r ← select_rounds (ks_index ks) vSortedByTimestamp modifier (64 `min` length vSortedByTimestamp) 0
                    nSelectionIntervalStart ∅ 0;
              Some match r with
              | Some nStakeModifierNew => (true, nStakeModifierNew, true)
              | None => (false, modifier, false)
              end
        end
  end.

Definition GetStakeModifierChecksum (ks : kernel_state) (hashGenesisBlock : uint256) (pindex : ptr) : option Z :=
  b ← ks_index ks !! pindex; f ← ks_fields ks !! pindex;
  prevChecksum ← match pprev b with
    | Some q => g ← ks_fields ks !! q; Some (WriteLE32 (nStakeModifierChecksum g))
    | None => if bool_decide (phashBlock b = hashGenesisBlock) then Some [] else None
    end;
  let ss := prevChecksum ++ WriteLE32 (nFlags b) ++ hashProofOfStake f ++ WriteLE64 (nStakeModifier f) in
  let hashChecksum := op_shr W256 (UintToArith256 (Hash256 ss)) (256 - 32) in
  Some (u32 (le_val 8 (take 8 (ArithToUint256 hashChecksum)))).

Definition mapStakeModifierCheckpoints : gmap Z Z := {[0 := 0xfd11f4e7]}.
Definition CheckStakeModifierCheckpoints (testnet : bool) (nHeight nStakeModifierChecksum : Z) : bool :=
  if testnet then true
  else match mapStakeModifierCheckpoints !! nHeight with
  | Some c => nStakeModifierChecksum =? c
  | None => true
  end.

(** The proof-of-stake part of [AddToBlockIndex], for the node at [p] that is linked to its
    parent.  The failures of the entropy bit, of the modifier and of the checkpoint are
    only logged; a block whose proof is not in the map gets an empty entry there. *)
Definition index_stake (ks : kernel_state) (hashGenesisBlock : uint256) (p : ptr) : option kernel_state :=
  b ← ks_index ks !! p; f ← ks_fields ks !! p;
  prev ← pprev b; g ← ks_fields ks !! prev;
  trust ← GetBlockTrust b;
  let chainTrust := wrap 256 (bnChainTrust g + le_val 32 trust) in
  let '(b, _) := SetStakeEntropyBit b (GetStakeEntropyBit b) in
  let proof := if IsProofOfStake b then default uint256_null (ks_proofs ks !! phashBlock b) else hashProofOfStake f in
  let proofs := if IsProofOfStake b then <[phashBlock b := proof]> (ks_proofs ks) else ks_proofs ks in
  let f := KernelFields (nStakeModifier f) (nStakeModifierChecksum f) proof chainTrust in
  let ks := KernelState (<[p := b]> (ks_index ks)) (<[p := f]> (ks_fields ks)) proofs in
  '(_, modifier, generated) ← ComputeNextStakeModifier ks (pprev b);
  let '(b, f) := SetStakeModifier b f modifier generated in
  let ks := KernelState (<[p := b]> (ks_index ks)) (<[p := f]> (ks_fields ks)) proofs in
  checksum ← GetStakeModifierChecksum ks hashGenesisBlock p;
  Some (KernelState (ks_index ks) (<[p := KernelFields modifier checksum proof chainTrust]> (ks_fields ks)) proofs).
End modifier.
