(* ===== verification/StakeModifierFacts.v ===== *)
(** The stake modifiers of the block index: what a round of the selection picks, the
    invariant of the index, the value of a new modifier, and that indexing a block is
    always defined on a network with modifier intervals. *)

From stdpp Require Import sorting.
From S2P Require Import Prelude CryptoCommon ArithUint256 ArithFacts CompactFacts ChainParams BlockIndex BlockIndexFacts Pow PowFacts Interpreter InterpreterFacts Transaction StakeModifier.
Import BaseUint Arith256 BlockIndex.
Local Open Scope Z_scope.

Lemma find_block_spec h hash p : find_block h hash = Some p → ∃ b, h !! p = Some b ∧ phashBlock b = hash.
Proof.
  unfold find_block. intros ([p' b] & E%head_Some_elem_of & ->)%fmap_Some. apply list_elem_of_filter in E as [Hh He].
  exists b. split; [|done]. by apply elem_of_map_to_list.
Qed.

(** ** One round of the selection *)

(** The candidate names a node of the index, with its time. *)
Definition candidate_ok (h : store) (it : Z * uint256) : Prop :=
  ∃ p b, find_block h it.2 = Some p ∧ h !! p = Some b ∧ phashBlock b = it.2 ∧ nTime b = it.1 ∧
         words 8 (phashBlock b).
(** The candidates not selected so far. *)
Definition unselected (sel : gmap uint256 ptr) (l : list (Z * uint256)) : list (Z * uint256) :=
  filter (λ it, sel !! it.2 = None) l.
(** Those the round chooses from: the ones up to the end of the interval or, if there
    are none, the earliest one. *)
Definition eligible (sel : gmap uint256 ptr) (stop : Z) (l : list (Z * uint256)) : list (Z * uint256) :=
  match filter (λ it, it.1 ≤ stop) (unselected sel l) with
  | [] => take 1 (unselected sel l)
  | e => e
  end.

Section select.
Context `{HF : HashFunctions} `{HO : !HashFunctionsOk}.

Lemma Hash256_wf b : words 8 b → words 8 (Hash256 b) ∧ length (Hash256 b) = 32%nat.
Proof. intros Hb. unfold Hash256. apply SHA256_bytes. by apply SHA256_bytes. Qed.

Lemma selection_hash_wf prev b : words 8 (phashBlock b) → wf256 (selection_hash prev b).
Proof.
  intros Hb. unfold selection_hash.
  destruct (Hash256_wf (phashBlock b ++ WriteLE64 prev)) as [Hw Hl].
  { apply Forall_app. split; [done|]. apply WriteLE64_bytes. }
  destruct (UintToArith256_spec _ Hl Hw) as [Hu _].
  destruct (IsProofOfStake b); [|done]. by apply (op_shr_spec 8).
Qed.

(** [best] is a node of [P] with the least selection hash. *)
Definition least (h : store) (prev : Z) (P : list (Z * uint256)) (best : option (list Z * ptr)) : Prop :=
  match best with
  | None => P = []
  | Some (hash, p) =>
      ∃ b it, it ∈ P ∧ h !! p = Some b ∧ phashBlock b = it.2 ∧ nTime b = it.1 ∧ words 8 (phashBlock b) ∧ hash = selection_hash prev b ∧
        ∀ it' q c, it' ∈ P → find_block h it'.2 = Some q → h !! q = Some c →
          val (selection_hash prev b) ≤ val (selection_hash prev c)
  end.

(** The choice after one more candidate. *)
Lemma least_step h prev P best it p b :
  least h prev P best → find_block h it.2 = Some p → h !! p = Some b → phashBlock b = it.2 → nTime b = it.1 → words 8 (phashBlock b) →
  least h prev (P ++ [it])
    match best with
    | Some (hashBest, _) => if op_lt (selection_hash prev b) hashBest then Some (selection_hash prev b, p) else best
    | None => Some (selection_hash prev b, p)
    end.
Proof.
  intros Hl Hf Hp Hh Ht Hw. pose proof (selection_hash_wf prev b Hw) as W.
  assert (∀ it' q c, it' ∈ [it] → find_block h it'.2 = Some q → h !! q = Some c → c = b) as Hone.
  { intros it' q c ->%list_elem_of_singleton. rewrite Hf. intros [= <-]. rewrite Hp. by intros [= <-]. }
  destruct best as [[hb q]|]; simpl in Hl.
  - destruct Hl as (c & ic & Hin & Hq & Hc & Htc & Wc & -> & Hmin).
    rewrite (op_lt_spec 8) by (done || by apply selection_hash_wf).
    destruct (Z.ltb_spec (val (selection_hash prev b)) (val (selection_hash prev c))) as [Hlt|Hge].
    + exists b, it. split_and!; [set_solver|done..|]. intros it' q' c' [Hi|Hi]%elem_of_app Hf' Hq'.
      * specialize (Hmin it' q' c' Hi Hf' Hq'). lia.
      * by rewrite (Hone it' q' c' Hi Hf' Hq').
    + exists c, ic. split_and!; [set_solver|done..|]. intros it' q' c' [Hi|Hi]%elem_of_app Hf' Hq'.
      * by apply (Hmin it' q').
      * by rewrite (Hone it' q' c' Hi Hf' Hq').
  - subst P. exists b, it. split_and!; [set_solver|done..|]. intros it' q' c' Hi Hf' Hq'.
    by rewrite (Hone it' q' c' Hi Hf' Hq').
Qed.

Lemma filter_late stop sel (it : Z * uint256) l :
  StronglySorted (λ x y, x.1 ≤ y.1) (it :: l) → stop < it.1 → filter (λ it, it.1 ≤ stop) (unselected sel (it :: l)) = [].
Proof.
  intros [_ Hs]%StronglySorted_inv Ht.
  destruct (filter _ _) as [|x r] eqn:E; [done|]. exfalso.
  assert (x ∈ x :: r) as Hx by set_solver. rewrite <-E in Hx.
  apply list_elem_of_filter in Hx as [Hle Hx]. apply list_elem_of_filter in Hx as [_ Hx].
  apply elem_of_cons in Hx as [->|Hx]; [lia|]. rewrite Forall_forall in Hs. specialize (Hs x Hx). simpl in Hs. lia.
Qed.

(** With a choice made, the loop adds the candidates up to the end of the interval. *)
Lemma select_loop_some h sel stop prev l : ∀ best P,
  Forall (candidate_ok h) l → StronglySorted (λ x y, x.1 ≤ y.1) l → is_Some best → least h prev P best →
  ∃ r, select_loop h sel stop prev best l = Some r ∧ is_Some r ∧ least h prev (P ++ filter (λ it, it.1 ≤ stop) (unselected sel l)) r.
Proof.
  induction l as [|it l IH]; intros best P Hc Hs Hb Hl.
  { exists best. by rewrite app_nil_r. }
  destruct (Z.lt_ge_cases stop it.1) as [Hlate|Hle].
  - rewrite (filter_late stop sel it l Hs Hlate), app_nil_r. inversion_clear Hc as [|? ? Hit _].
    destruct Hit as (p & b & Hf & Hp & _ & Ht & _). exists best. simpl. rewrite Hf. simpl. rewrite Hp. simpl.
    rewrite (bool_decide_eq_true_2 _ Hb), Ht. replace (stop <? it.1) with true by lia. done.
  - inversion_clear Hc as [|? ? Hit Hc']. destruct Hit as (p & b & Hf & Hp & Hh & Ht & Hw).
    apply StronglySorted_inv in Hs as [Hs _].
    simpl. rewrite Hf. simpl. rewrite Hp. simpl. rewrite Ht, Hh. replace (stop <? it.1) with false by lia. rewrite andb_false_r.
    unfold unselected. rewrite filter_cons. destruct (sel !! it.2) as [x|] eqn:E.
    + rewrite bool_decide_eq_true_2 by done. rewrite decide_False by done. by apply IH.
    + rewrite bool_decide_eq_false_2 by (by intros []). rewrite decide_True by done. rewrite filter_cons, decide_True by done.
      destruct Hb as [[hb q] ->]. pose proof (least_step h prev P (Some (hb, q)) it p b Hl Hf Hp Hh Ht Hw) as Hl'.
      edestruct IH as (r & Hr & Hrs & Hrl); [exact Hc'|exact Hs| |exact Hl'|]; [by destruct (op_lt _ _)|].
      exists r. rewrite <-app_assoc in Hrl. done.
Qed.

(** Without one, it first takes the earliest candidate. *)
Lemma select_loop_none h sel stop prev l :
  Forall (candidate_ok h) l → StronglySorted (λ x y, x.1 ≤ y.1) l →
  ∃ r, select_loop h sel stop prev None l = Some r ∧ least h prev (eligible sel stop l) r.
Proof.
  induction l as [|it l IH]; intros Hc Hs; [by exists None|].
  pose proof (filter_late stop sel it l Hs) as Hlate.
  inversion_clear Hc as [|? ? Hit Hc']. destruct Hit as (p & b & Hf & Hp & Hh & Ht & Hw).
  pose proof Hs as [Hs' Hall]%StronglySorted_inv.
  simpl. rewrite Hf. simpl. rewrite Hp. simpl. rewrite Hh. unfold eligible, unselected in *. rewrite filter_cons in *.
  destruct (sel !! it.2) as [x|] eqn:E.
  { rewrite bool_decide_eq_true_2 by done. rewrite decide_False by done. by apply IH. }
  rewrite bool_decide_eq_false_2 by (by intros []). rewrite decide_True by done. rewrite decide_True in Hlate by done.
  destruct (select_loop_some h sel stop prev l (Some (selection_hash prev b, p)) [it]) as (r & Hr & Hrs & Hrl); [done..| |].
  { apply (least_step h prev [] None it p b); done. }
  exists r. split; [done|]. rewrite filter_cons in *. destruct (decide (it.1 ≤ stop)) as [Hle|Hgt]; [done|].
  unfold unselected in Hrl. rewrite (Hlate ltac:(lia)) in *. simpl in Hrl. done.
Qed.
End select.

(** ** The candidates *)

#[global] Instance pair_le_dec x y : Decision (Is_true (pair_le x y)) := _.

Lemma byte_le_total a b : Is_true (byte_le a b) ∨ Is_true (byte_le b a).
Proof.
  revert b. induction a as [|x a IH]; intros [|y b]; simpl; auto.
  destruct (Z.ltb_spec x y), (Z.ltb_spec y x); simpl; auto.
Qed.
#[global] Instance pair_le_total : Total (λ x y, Is_true (pair_le x y)).
Proof.
  intros [t a] [u b]. unfold pair_le. simpl.
  destruct (Z.ltb_spec t u), (Z.ltb_spec u t), (Z.eqb_spec t u), (Z.eqb_spec u t); simpl; auto; try lia. apply byte_le_total.
Qed.

Lemma sort_candidates_perm l : sort_candidates l ≡ₚ l.
Proof. unfold sort_candidates. by rewrite merge_sort_Permutation, <-Permutation_rev. Qed.
Lemma sort_candidates_sorted l : StronglySorted (λ x y, x.1 ≤ y.1) (sort_candidates l).
Proof.
  apply Sorted_StronglySorted; [intros x y z; lia|].
  assert (Sorted (λ x y, Is_true (pair_le x y)) (sort_candidates l)) as Hs by (apply Sorted_merge_sort; apply _).
  revert Hs. generalize (sort_candidates l) as k. intros k Hs.
  induction Hs as [|x m Hm IH Hx]; constructor; [done|]. destruct Hx as [|y m Hy]; constructor.
  unfold pair_le in Hy. apply Is_true_true, orb_true_iff in Hy as [Hy|[Hy _]%andb_true_iff]; lia.
Qed.

(** ** The invariant of the index *)

Record kernel_inv (ks : kernel_state) : Prop := {
  ki_linked : linked (ks_index ks);
  ki_fields p b : ks_index ks !! p = Some b → ∃ f, ks_fields ks !! p = Some f ∧ fits 64 (nStakeModifier f);
  ki_hashes p b q c : ks_index ks !! p = Some b → ks_index ks !! q = Some c → phashBlock b = phashBlock c → p = q;
  ki_bytes p b : ks_index ks !! p = Some b → words 8 (phashBlock b);
  ki_time p b : ks_index ks !! p = Some b → fits 32 (nTime b);
  ki_first p b : ks_index ks !! p = Some b → nHeight b = 1 → GeneratedStakeModifier b = true;
}.

Lemma find_block_complete ks p b :
  kernel_inv ks → ks_index ks !! p = Some b → find_block (ks_index ks) (phashBlock b) = Some p.
Proof.
  intros Hi Hp. destruct (find_block (ks_index ks) (phashBlock b)) as [q|] eqn:E.
  - destruct (find_block_spec _ _ _ E) as (c & Hq & Hh). f_equal. by apply (ki_hashes ks Hi q c p b).
  - unfold find_block in E. destruct (filter _ _) as [|[q c] r] eqn:F; [|done].
    assert ((p, b) ∈ filter (λ '(p, b0), phashBlock b0 = phashBlock b) (map_to_list (ks_index ks))) as Hin.
    { apply list_elem_of_filter. split; [done|]. by apply elem_of_map_to_list. }
    rewrite F in Hin. set_solver.
Qed.

Section total.
Context (Params : CChainParams) `{HF : HashFunctions} `{HO : !HashFunctionsOk} (literal : Z).

(** The intervals of a network on which modifiers are computed. *)
Definition intervals_ok : Prop :=
  0 < nModifierInterval Params ∧ 64 * nModifierInterval Params < 2 ^ 31 ∧ 0 < nStakeTargetSpacing Params.
Context (Hiv : intervals_ok).

Lemma section_spec n :
  0 ≤ n < 64 → ∃ a, GetStakeModifierSelectionIntervalSection Params n = Some a ∧ 0 ≤ a ≤ nModifierInterval Params.
Proof.
  intros Hn. destruct Hiv as (H0 & H1 & _). unfold GetStakeModifierSelectionIntervalSection, as_int, MODIFIER_INTERVAL_RATIO.
  replace ((0 <=? n) && (n <? 64)) with true by lia.
  replace ((- 2 ^ 31 <=? nModifierInterval Params * 63) && (nModifierInterval Params * 63 <? 2 ^ 31)) with true by lia.
  simpl. eexists. split; [done|]. rewrite Z.quot_div_nonneg by lia.
  split; [apply Z.div_pos; lia|]. apply Z.div_le_upper_bound; nia.
Qed.

Lemma interval_loop_spec n :
  (n ≤ 64)%nat → ∃ a, interval_loop Params n = Some a ∧ 0 ≤ a ≤ Z.of_nat n * nModifierInterval Params.
Proof.
  induction n as [|n IH]; intros Hn; [by exists 0|]. destruct (IH ltac:(lia)) as (a & Ea & Ha).
  destruct (section_spec (Z.of_nat n) ltac:(lia)) as (s & Es & Hs). simpl. rewrite Ea. simpl. rewrite Es. simpl.
  destruct Hiv as (H0 & H1 & _). exists (a + s). split; [|nia]. f_equal. apply swrap_small; [done|]. unfold sfits. nia.
Qed.

Lemma last_modifier_ok ks fuel p b :
  kernel_inv ks → ks_index ks !! p = Some b → 1 ≤ nHeight b → (Z.to_nat (nHeight b) < fuel)%nat →
  ∃ q c, last_modifier_loop (ks_index ks) fuel p = Some q ∧ ks_index ks !! q = Some c ∧ GeneratedStakeModifier c = true.
Proof.
  intros Hi. revert p b. induction fuel as [|fuel IH]; intros p b Hp H1 Hf; [lia|]. simpl. rewrite Hp. simpl.
  destruct (ki_linked ks Hi p b Hp) as [_ Hl]. destruct (pprev b) as [q|]; [|lia]. destruct Hl as (c & Hq & Hc).
  destruct (GeneratedStakeModifier b) eqn:E; [by exists p, b|].
  destruct (decide (nHeight b = 1)) as [E1|]; [by rewrite (ki_first ks Hi p b Hp E1) in E|]. apply (IH q c Hq); lia.
Qed.

Lemma GetLastStakeModifier_ok ks p b :
  kernel_inv ks → ks_index ks !! p = Some b → 1 ≤ nHeight b →
  ∃ m t, GetLastStakeModifier ks (Some p) = Some (Some (m, t)) ∧ fits 64 m ∧ fits 32 t.
Proof.
  intros Hi Hp H1. destruct (last_modifier_ok ks (Z.to_nat (nHeight b) + 1) p b Hi Hp H1 ltac:(lia)) as (q & c & El & Hq & Hg).
  destruct (ki_fields ks Hi q c Hq) as (f & Hf & Hm). pose proof (ki_time ks Hi q c Hq).
  exists (nStakeModifier f), (nTime c). simpl. rewrite Hp. simpl. rewrite El. simpl. rewrite Hq. simpl. rewrite Hf. simpl.
  by rewrite Hg.
Qed.

(** The candidates: the ancestors from [p] on, back to the first one before [start]. *)
Definition window (h : store) (start : Z) (p : ptr) (l : list (Z * uint256)) : Prop :=
  (∀ k it, l !! k = Some it → ∃ q c, up h k p = Some q ∧ h !! q = Some c ∧ it = (nTime c, phashBlock c) ∧ start ≤ nTime c) ∧
  (∀ q c, up h (length l) p = Some q → h !! q = Some c → nTime c < start).

Lemma window_cons h start p b q l : h !! p = Some b → pprev b = Some q → start ≤ nTime b → window h start q l →
  window h start p ((nTime b, phashBlock b) :: l).
Proof.
  intros Hp Hq Ht [H1 H2]. assert (∀ n, up h (S n) p = up h n q) as Hup by (intros n; cbn [up]; rewrite Hp; cbn; by rewrite Hq). split.
  - intros [|k] it; cbn; [intros [= <-]; by exists p, b|]. intros Hk. destruct (H1 k it Hk) as (r & c & Hr & Hc). exists r, c. by rewrite <-Hup in Hr.
  - intros r c. cbn [length]. rewrite Hup. apply H2.
Qed.

Lemma candidates_ok ks start fuel p b :
  kernel_inv ks → ks_index ks !! p = Some b → (Z.to_nat (nHeight b) < fuel)%nat →
  ∃ l, candidates_loop (ks_index ks) fuel start (Some p) = Some l ∧ NoDup l.*2 ∧ (start ≤ nTime b → l ≠ []) ∧
    Forall (λ it, ∃ q c, ks_index ks !! q = Some c ∧ it = (nTime c, phashBlock c) ∧ nHeight c ≤ nHeight b) l ∧ window (ks_index ks) start p l.
Proof.
  intros Hi. revert p b. induction fuel as [|fuel IH]; intros p b Hp Hf; [lia|].
  cbn [candidates_loop]. rewrite Hp. cbn [mbind option_bind]. destruct (Z.leb_spec start (nTime b)) as [Hs|Hs].
  2: { exists []. split_and!; [done|constructor|lia|constructor|]. split; [done|]. cbn. intros q c [= <-]. rewrite Hp. by intros [= <-]. }
  destruct (ki_linked ks Hi p b Hp) as [_ Hl]. destruct (pprev b) as [q|] eqn:Eq.
  - destruct Hl as (c & Hq & Hc). destruct (ki_linked ks Hi q c Hq) as [H0 _].
    destruct (IH q c Hq ltac:(lia)) as (l & El & Hnd & _ & Hall & Hwin). rewrite El. cbn [mbind option_bind].
    exists ((nTime b, phashBlock b) :: l). split_and!; [done| |done| |by eapply window_cons].
    + cbn. constructor; [|done]. intros ([t h'] & E & Hin)%list_elem_of_fmap. cbn in E. subst h'.
      rewrite Forall_forall in Hall. destruct (Hall _ Hin) as (r & d & Hr & [= _ Eh] & Hle).
      rewrite (ki_hashes ks Hi p b r d Hp Hr Eh) in Hp. rewrite Hp in Hr. injection Hr as ->. lia.
    + constructor; [by exists p, b|]. eapply Forall_impl; [exact Hall|]. intros it (r & d & Hr & Ei & Hle). exists r, d. split_and!; [done..|lia].
  - exists [(nTime b, phashBlock b)]. destruct fuel as [|fuel]; cbn; (split_and!; [done|apply NoDup_singleton|done| |]).
    1,3: constructor; [by exists p, b|constructor].
    all: split; [intros [|k] it; cbn; [intros [= <-]; by exists p, b|done]|cbn; intros q c; rewrite Hp; cbn; by rewrite Eq].
Qed.

(** The entropy bits of the chosen blocks, from bit [i] on. *)
Fixpoint pack (i : Z) (l : list CBlockIndex) : Z :=
  match l with [] => 0 | b :: l => Z.lor (GetStakeEntropyBit b ≪ i) (pack (i + 1) l) end.

Lemma entropy_bit b : 0 ≤ GetStakeEntropyBit b ≤ 1.
Proof. unfold GetStakeEntropyBit. rewrite (Z.land_ones _ 1) by lia. pose proof (Z.mod_pos_bound (le_val 8 (take 8 (phashBlock b))) (2 ^ 1)). lia. Qed.

Lemma entropy_shift b i : 0 ≤ i < 64 → fits 64 (GetStakeEntropyBit b ≪ i).
Proof.
  intros Hi. pose proof (entropy_bit b). rewrite Z.shiftl_mul_pow2 by lia.
  assert (0 < 2 ^ i < 2 ^ 64) by (split; [apply Z.pow_pos_nonneg; lia|apply Z.pow_lt_mono_r; lia]). unfold fits. nia.
Qed.

Lemma pack_fits l i : 0 ≤ i → i + Z.of_nat (length l) ≤ 64 → fits 64 (pack i l).
Proof.
  revert i. induction l as [|b l IH]; intros i H0 Hl; [by unfold fits|]. cbn [pack length] in *.
  apply fits_lor; [lia|apply entropy_shift; lia|apply IH; lia].
Qed.

(** Bit [i + j] is the entropy bit of the [j]-th block. *)
Lemma pack_testbit l i j b : 0 ≤ i → l !! j = Some b → Z.testbit (pack i l) (i + Z.of_nat j) = (GetStakeEntropyBit b =? 1).
Proof.
  revert i j. induction l as [|c l IH]; intros i j H0 Hj; [done|]. cbn [pack]. rewrite Z.lor_spec, Z.shiftl_spec by lia.
  assert (∀ k, i < k → Z.testbit (pack k l) i = false) as Hlow.
  { clear -H0. induction l as [|d l IH]; intros k Hk; [apply Z.bits_0|]. cbn [pack].
    rewrite Z.lor_spec, Z.shiftl_spec, Z.testbit_neg_r by lia. by apply IH; lia. }
  destruct j as [|j]; cbn in Hj.
  - injection Hj as ->. rewrite Z.add_0_r, Z.sub_diag, (Hlow (i + 1)) by lia. rewrite orb_false_r.
    pose proof (entropy_bit b). assert (GetStakeEntropyBit b = 0 ∨ GetStakeEntropyBit b = 1) as [->| ->] by lia; done.
  - replace (i + Z.of_nat (S j)) with ((i + 1) + Z.of_nat j) by lia. rewrite (IH (i + 1) j) by (done || lia).
    replace (Z.testbit (GetStakeEntropyBit c) _) with false; [done|]. symmetry. pose proof (entropy_bit c).
    assert (GetStakeEntropyBit c = 0 ∨ GetStakeEntropyBit c = 1) as [->| ->] by lia; [apply Z.bits_0|].
    rewrite Z.bits_above_log2; cbn; lia || done.
Qed.

(** Every bit of the packed number. *)
Lemma pack_bits l i : 0 ≤ i → Z.testbit (pack 0 l) i = match l !! Z.to_nat i with Some b => GetStakeEntropyBit b =? 1 | None => false end.
Proof.
  intros H0. destruct (l !! Z.to_nat i) as [b|] eqn:E.
  - rewrite <-(Z2Nat.id i) at 1 by done. by apply (pack_testbit l 0).
  - apply lookup_ge_None in E. assert (∀ k, 0 ≤ k → k + Z.of_nat (length l) ≤ i → Z.testbit (pack k l) i = false) as Hhigh; [|apply Hhigh; lia].
    clear -H0. induction l as [|c l IH]; intros k Hk Hl; [apply Z.bits_0|]. cbn [pack length] in *. rewrite Z.lor_spec, Z.shiftl_spec, IH, orb_false_r by lia.
    pose proof (entropy_bit c). assert (GetStakeEntropyBit c = 0 ∨ GetStakeEntropyBit c = 1) as [->| ->] by lia; [apply Z.bits_0|].
    rewrite Z.bits_above_log2; cbn; lia || done.
Qed.

(** A candidate list as [ComputeNextStakeModifier] builds it. *)
Definition candidates (h : store) (l : list (Z * uint256)) : Prop :=
  Forall (candidate_ok h) l ∧ StronglySorted (λ x y, x.1 ≤ y.1) l ∧ NoDup l.*2.

(** While fewer blocks are selected than there are candidates, a round selects a new one
    with the least selection hash. *)
Lemma round_selects h l sel stop prev :
  candidates h l → (base.size sel < length l)%nat →
  ∃ p b it, SelectBlockFromCandidates h l sel stop prev = Some p ∧ h !! p = Some b ∧ it ∈ l ∧ phashBlock b = it.2 ∧ sel !! it.2 = None ∧
    it ∈ eligible sel stop l ∧
    ∀ it' q c, it' ∈ eligible sel stop l → find_block h it'.2 = Some q → h !! q = Some c → val (selection_hash prev b) ≤ val (selection_hash prev c).
Proof.
  intros (Hc & Hs & Hnd) Hsz. destruct (select_loop_none h sel stop prev l Hc Hs) as (r & Er & Hr).
  unfold SelectBlockFromCandidates. rewrite Er. cbn [mbind option_bind].
  assert (∀ it, it ∈ eligible sel stop l → it ∈ unselected sel l) as Hel.
  { unfold eligible. intros it. destruct (filter _ (unselected sel l)) as [|x e] eqn:E; [|rewrite <-E; by intros [_ ?]%list_elem_of_filter].
    intros Hin. rewrite <-(take_drop 1 (unselected sel l)). apply elem_of_app. by left. }
  destruct r as [[hash p]|]; cbn in Hr.
  - destruct Hr as (b & it & Hin & Hp & Hh & _ & _ & _ & Hmin). pose proof (Hel it Hin) as [Hn Hl]%list_elem_of_filter. by exists p, b, it.
  - exfalso. assert (unselected sel l = []) as Hu.
    { unfold eligible in Hr. destruct (filter _ (unselected sel l)); [|done]. by destruct (unselected sel l). }
    assert (list_to_set l.*2 ⊆ dom sel) as Hsub.
    { intros x. rewrite elem_of_list_to_set. intros (it & -> & Hin)%list_elem_of_fmap. apply elem_of_dom.
      destruct (sel !! it.2) eqn:E; [done|]. assert (it ∈ unselected sel l) as Hx by by apply list_elem_of_filter.
      rewrite Hu in Hx. by apply not_elem_of_nil in Hx. }
    apply subseteq_size in Hsub. rewrite size_list_to_set in Hsub by done. rewrite size_dom, length_fmap in Hsub. lia.
Qed.

(** What the rounds from [nRound] on pick: each a candidate that the round may choose, with
    the least selection hash among these. *)
Fixpoint picked (h : store) (l : list (Z * uint256)) (prev nRound stop : Z) (sel : gmap uint256 ptr) (picks : list CBlockIndex) : Prop :=
  match picks with
  | [] => True
  | b :: picks =>
      ∃ p a, h !! p = Some b ∧ GetStakeModifierSelectionIntervalSection Params nRound = Some a ∧
        let stop := s64 (stop + a) in
        phashBlock b ∈ (eligible sel stop l).*2 ∧
        (∀ it q c, it ∈ eligible sel stop l → find_block h it.2 = Some q → h !! q = Some c → val (selection_hash prev b) ≤ val (selection_hash prev c)) ∧
        picked h l prev (nRound + 1) stop (<[phashBlock b := p]> sel) picks
  end.

Lemma select_rounds_ok h l prev rounds : ∀ nRound stop sel new,
  candidates h l → 0 ≤ nRound → nRound + Z.of_nat rounds ≤ 64 → (base.size sel + rounds ≤ length l)%nat →
  ∃ picks, select_rounds Params h l prev rounds nRound stop sel new = Some (Some (Z.lor new (pack nRound picks))) ∧
    length picks = rounds ∧ NoDup (phashBlock <$> picks) ∧ picked h l prev nRound stop sel picks ∧
    Forall (λ b, phashBlock b ∈ l.*2 ∧ sel !! phashBlock b = None ∧ ∃ p, h !! p = Some b) picks.
Proof.
  induction rounds as [|rounds IH]; intros nRound stop sel new Hl H0 H64 Hsz.
  { exists []. cbn. rewrite Z.lor_0_r. by split_and!; [|done|constructor|done|constructor]. }
  cbn [select_rounds]. destruct (section_spec nRound ltac:(lia)) as (a & Ea & _). rewrite Ea. cbn [mbind option_bind].
  destruct (round_selects h l sel (s64 (stop + a)) prev Hl ltac:(lia)) as (p & b & it & Es & Hp & Hin & Hh & Hn & Hel & Hmin).
  rewrite Es, Hp. cbn [mbind option_bind].
  destruct (IH (nRound + 1) (s64 (stop + a)) (<[phashBlock b := p]> sel) (Z.lor new (u64 (GetStakeEntropyBit b ≪ nRound))) Hl ltac:(lia) ltac:(lia))
    as (picks & Ep & Hlen & Hnd & Hpk & Hall).
  { rewrite map_size_insert_None by (by rewrite Hh). lia. }
  exists (b :: picks). split_and!.
  - rewrite Ep. cbn [pack]. by rewrite wrap_small, Z.lor_assoc by (done || by apply entropy_shift; lia).
  - cbn. by rewrite Hlen.
  - cbn. constructor; [|done]. intros (c & Ec & Hc)%list_elem_of_fmap. rewrite Forall_forall in Hall.
    destruct (Hall c Hc) as (_ & Hno & _). by rewrite <-Ec, lookup_insert_eq in Hno.
  - exists p, a. split; [done|]. split; [done|]. cbv zeta. split_and!; [rewrite Hh; by apply list_elem_of_fmap_2|done|done].
  - constructor; [split_and!; [rewrite Hh; by apply list_elem_of_fmap_2|by rewrite Hh|by exists p]|].
    eapply Forall_impl; [exact Hall|]. intros c (Hc & Hno & Hq). split_and!; [done| |done].
    by apply lookup_insert_None in Hno as [? _].
Qed.

Lemma candidate_ok_of ks it :
  kernel_inv ks → (∃ q c, ks_index ks !! q = Some c ∧ it = (nTime c, phashBlock c)) → candidate_ok (ks_index ks) it.
Proof.
  intros Hi (q & c & Hq & ->). exists q, c. split_and!; [by apply find_block_complete|done..|by apply (ki_bytes ks Hi q)].
Qed.

(** The modifier [m] that is generated after the block [b] at [p], with [prev] the last one:
    the candidates are the ancestors in the selection window, the rounds pick as many of
    them as there are, up to 64, all different, and the bits of [m] are their entropy bits
    in the order of the rounds and zero above. *)
Definition new_modifier (h : store) (p : ptr) (b : CBlockIndex) (prev m : Z) : Prop :=
  ∃ interval l picks, GetStakeModifierSelectionInterval Params = Some interval ∧
    let start := nTime b `quot` nModifierInterval Params * nModifierInterval Params - interval in
    window h start p l ∧ l ≠ [] ∧ NoDup l.*2 ∧
    length picks = (64 `min` length l)%nat ∧ NoDup (phashBlock <$> picks) ∧ Forall (λ c, phashBlock c ∈ l.*2) picks ∧
    picked h (sort_candidates l) prev 0 start ∅ picks ∧
    ∀ i, 0 ≤ i → Z.testbit m i = match picks !! Z.to_nat i with Some c => GetStakeEntropyBit c =? 1 | None => false end.

(** The modifier of a block after [p]: whether a new one is due depends on the interval. *)
Definition modifier_due (b : CBlockIndex) (t : Z) : bool := t `quot` nModifierInterval Params <? nTime b `quot` nModifierInterval Params.

Lemma generate_modifier ks p b prev t :
  kernel_inv ks → ks_index ks !! p = Some b → 1 ≤ nHeight b → GetLastStakeModifier ks (Some p) = Some (Some (prev, t)) → modifier_due b t = true →
  ∃ m, ComputeNextStakeModifier Params literal ks (Some p) = Some (true, m, true) ∧ fits 64 m ∧ new_modifier (ks_index ks) p b prev m.
Proof.
  intros Hi Hp H1 Elast Hdue. pose proof (ki_time ks Hi p b Hp) as Ht. pose proof Hiv as (I0 & I1 & I2).
  unfold ComputeNextStakeModifier. rewrite Hp. cbn [mbind option_bind]. replace (nHeight b =? 0) with false by lia. rewrite Elast. cbn [mbind option_bind].
  replace (nModifierInterval Params =? 0) with false by lia. unfold modifier_due in Hdue. replace (_ <=? _) with false by lia.
  unfold reserve_candidates, as_int.
  replace ((- 2 ^ 31 <=? 64 * nModifierInterval Params) && (64 * nModifierInterval Params <? 2 ^ 31)) with true by lia. cbn [mbind option_bind].
  replace (nStakeTargetSpacing Params =? 0) with false by lia.
  assert (0 ≤ (64 * nModifierInterval Params) `quot` nStakeTargetSpacing Params) by (apply Z.quot_pos; lia).
  destruct (Z.ltb_spec ((64 * nModifierInterval Params) `quot` nStakeTargetSpacing Params) 0); [lia|].
  destruct (interval_loop_spec 64 ltac:(lia)) as (a & Ea & Ha & _). unfold GetStakeModifierSelectionInterval. rewrite Ea. cbn [mbind option_bind].
  set (start := nTime b `quot` nModifierInterval Params * nModifierInterval Params - a).
  assert (start ≤ nTime b) as Hstart.
  { unfold start. pose proof (Z.mul_quot_le (nTime b) (nModifierInterval Params)). unfold fits in Ht. lia. }
  destruct (candidates_ok ks start (Z.to_nat (nHeight b) + 1) p b Hi Hp ltac:(lia)) as (l & El & Hnd & Hne & Hall & Hwin). rewrite El. cbn [mbind option_bind].
  pose proof (sort_candidates_perm l) as Hperm. specialize (Hne Hstart).
  assert (candidates (ks_index ks) (sort_candidates l)) as Hcand.
  { split_and!; [|apply sort_candidates_sorted|by rewrite Hperm]. rewrite Hperm. eapply Forall_impl; [exact Hall|].
    intros it (q & c & Hq & Ei & _). apply (candidate_ok_of ks it Hi). by exists q, c. }
  destruct (select_rounds_ok (ks_index ks) (sort_candidates l) prev (64 `min` length (sort_candidates l)) 0 start ∅ 0 Hcand) as (picks & Ep & Hlen & Hpn & Hpk & Hpa);
    [lia|lia|rewrite map_size_empty; lia|].
  rewrite Ep. cbn [mbind option_bind]. rewrite Z.lor_0_l. exists (pack 0 picks).
  split_and!; [done|apply pack_fits; lia|]. exists a, l, picks. unfold GetStakeModifierSelectionInterval. rewrite Hperm in Hlen.
  split_and!; try done; [|by intros; apply pack_bits]. eapply Forall_impl; [exact Hpa|]. intros c [Hin _]. by rewrite Hperm in Hin.
Qed.

Lemma ComputeNextStakeModifier_ok ks p b :
  kernel_inv ks → fits 64 literal → ks_index ks !! p = Some b →
  ∃ m g, ComputeNextStakeModifier Params literal ks (Some p) = Some (true, m, g) ∧ fits 64 m ∧
    (nHeight b = 0 → m = literal ∧ g = true) ∧
    (1 ≤ nHeight b → ∃ prev t, GetLastStakeModifier ks (Some p) = Some (Some (prev, t)) ∧ g = modifier_due b t ∧
       if g then new_modifier (ks_index ks) p b prev m else m = prev).
Proof.
  intros Hi Hlit Hp. pose proof (ki_time ks Hi p b Hp) as Ht. destruct (ki_linked ks Hi p b Hp) as [Hh _].
  destruct (Z.eq_dec (nHeight b) 0) as [E0|E0].
  { exists literal, true. split_and!; [|done..|lia]. unfold ComputeNextStakeModifier. rewrite Hp. cbn. by rewrite E0. }
  destruct (GetLastStakeModifier_ok ks p b Hi Hp ltac:(lia)) as (prev & t & Em & Hm & Ht'). destruct (modifier_due b t) eqn:Hdue.
  - destruct (generate_modifier ks p b prev t) as (m & E & Hf & Hn); [done..|lia|done|done|]. exists m, true. split_and!; [done..|lia|]. intros _. by exists prev, t.
  - exists prev, false. split_and!; [|done|lia|intros _; by exists prev, t].
    unfold ComputeNextStakeModifier. rewrite Hp. cbn [mbind option_bind]. replace (nHeight b =? 0) with false by lia. rewrite Em. cbn [mbind option_bind].
    destruct Hiv as (I0 & _). replace (nModifierInterval Params =? 0) with false by lia. unfold modifier_due in Hdue. by replace (_ <=? _) with true by lia.
Qed.

(** ** Indexing a block *)

Lemma generated_or b : GeneratedStakeModifier (or_flags BLOCK_STAKE_MODIFIER b) = true.
Proof.
  unfold GeneratedStakeModifier, or_flags. cbn [nFlags]. apply negb_true_iff, Z.eqb_neq. intros E.
  assert (Z.testbit (Z.land (Z.lor (nFlags b) BLOCK_STAKE_MODIFIER) BLOCK_STAKE_MODIFIER) 2 = false) as Hb by by rewrite E.
  by rewrite Z.land_spec, Z.lor_spec, orb_true_r in Hb.
Qed.

Lemma generated_mono f b : GeneratedStakeModifier b = true → GeneratedStakeModifier (or_flags f b) = true.
Proof.
  unfold GeneratedStakeModifier, or_flags. cbn [nFlags]. rewrite !negb_true_iff, !Z.eqb_neq. intros Hn E. apply Hn.
  rewrite Z.land_lor_distr_l in E. by apply Z.lor_eq_0_iff in E as [? _].
Qed.

Lemma kernel_inv_insert ks p b f proofs :
  kernel_inv ks → ks_index ks !! p = None → words 8 (phashBlock b) → fits 32 (nTime b) → fits 64 (nStakeModifier f) →
  find_block (ks_index ks) (phashBlock b) = None →
  match pprev b with None => nHeight b = 0 | Some q => ∃ c, ks_index ks !! q = Some c ∧ nHeight b = nHeight c + 1 end →
  (nHeight b = 1 → GeneratedStakeModifier b = true) →
  kernel_inv (KernelState (<[p := b]> (ks_index ks)) (<[p := f]> (ks_fields ks)) proofs).
Proof.
  intros Hi Hfresh Hw Ht Hm Hnew Hpar H1.
  assert (∀ q c, ks_index ks !! q = Some c → phashBlock c ≠ phashBlock b) as Hno.
  { intros q c Hq E. by rewrite <-E, (find_block_complete ks q c) in Hnew. }
  assert (∀ q c, ks_index ks !! q = Some c → p ≠ q) as Hne by (intros q c Hq ->; congruence).
  assert (0 ≤ nHeight b) as H0.
  { destruct (pprev b) as [q|]; [|lia]. destruct Hpar as (c & Hq & ->). destruct (ki_linked ks Hi q c Hq). lia. }
  split; cbn [ks_index ks_fields].
  - intros q c [[<- <-]|[_ Hq]]%lookup_insert_Some.
    + split; [done|]. destruct (pprev b) as [q|]; [|done]. destruct Hpar as (c & Hq & Hc). exists c. split; [|done].
      rewrite lookup_insert_ne by (by apply (Hne q c)). done.
    + destruct (ki_linked ks Hi q c Hq) as [Hc Hl]. split; [done|]. destruct (pprev c) as [r|]; [|done]. destruct Hl as (d & Hr & Hd).
      exists d. rewrite lookup_insert_ne by (by apply (Hne r d)). done.
  - intros q c [[<- <-]|[Hpq Hq]]%lookup_insert_Some; [exists f; by rewrite lookup_insert_eq|].
    rewrite lookup_insert_ne by done. by apply (ki_fields ks Hi q c).
  - intros q c r d [[<- <-]|[_ Hq]]%lookup_insert_Some [[<- <-]|[_ Hr]]%lookup_insert_Some E; [done| | |by apply (ki_hashes ks Hi q c r d)].
    + by destruct (Hno r d Hr).
    + by destruct (Hno q c Hq).
  - intros q c [[<- <-]|[_ Hq]]%lookup_insert_Some; [done|by apply (ki_bytes ks Hi q)].
  - intros q c [[<- <-]|[_ Hq]]%lookup_insert_Some; [done|by apply (ki_time ks Hi q)].
  - intros q c [[<- <-]|[_ Hq]]%lookup_insert_Some; [done|by apply (ki_first ks Hi q)].
Qed.

(** The modifier of a block about to be indexed. *)
Lemma compute_for_new ks prev c :
  fits 64 literal → ks_index ks !! prev = Some c → (kernel_inv ks ∨ nHeight c = 0) →
  ∃ m g, ComputeNextStakeModifier Params literal ks (Some prev) = Some (true, m, g) ∧ fits 64 m ∧ (nHeight c = 0 → g = true).
Proof.
  intros Hlit Hp [Hi|E].
  - destruct (ComputeNextStakeModifier_ok ks prev c Hi Hlit Hp) as (m & g & -> & Hm & H0 & _). exists m, g. split_and!; [done..|]. intros E. by apply H0.
  - exists literal, true. split_and!; [|done..]. unfold ComputeNextStakeModifier. rewrite Hp. cbn. by rewrite E.
Qed.

(** Setting the proof-of-stake flag of a node keeps the invariant. *)
Lemma kernel_inv_flags ks p b f proofs :
  kernel_inv ks → ks_index ks !! p = Some b → kernel_inv (KernelState (<[p := or_flags f b]> (ks_index ks)) (ks_fields ks) proofs).
Proof.
  intros Hi Hp. assert (∀ q c, <[p := or_flags f b]> (ks_index ks) !! q = Some c → ∃ d, ks_index ks !! q = Some d ∧ phashBlock c = phashBlock d ∧
    pprev c = pprev d ∧ nHeight c = nHeight d ∧ nTime c = nTime d ∧ (GeneratedStakeModifier d = true → GeneratedStakeModifier c = true)) as Hold.
  { intros q c [[<- <-]|[_ Hq]]%lookup_insert_Some; [|by exists c]. exists b. split_and!; [done..|]. apply generated_mono. }
  split; cbn [ks_index ks_fields].
  - intros q c Hq. destruct (Hold q c Hq) as (d & Hd & _ & -> & -> & _). destruct (ki_linked ks Hi q d Hd) as [H0 Hl]. split; [done|].
    destruct (pprev d) as [r|]; [|done]. destruct Hl as (e & He & ->). destruct (decide (r = p)) as [->|Hne].
    + exists (or_flags f b). rewrite lookup_insert_eq. split; [done|]. by assert (e = b) as -> by congruence.
    + exists e. by rewrite lookup_insert_ne.
  - intros q c Hq. destruct (Hold q c Hq) as (d & Hd & _). by apply (ki_fields ks Hi q d).
  - intros q c r e Hq Hr E. destruct (Hold q c Hq) as (d & Hd & Ed & _), (Hold r e Hr) as (d' & Hd' & Ed' & _). apply (ki_hashes ks Hi q d r d'); congruence.
  - intros q c Hq. destruct (Hold q c Hq) as (d & Hd & -> & _). by apply (ki_bytes ks Hi q).
  - intros q c Hq. destruct (Hold q c Hq) as (d & Hd & _ & _ & _ & -> & _). by apply (ki_time ks Hi q).
  - intros q c Hq. destruct (Hold q c Hq) as (d & Hd & _ & _ & -> & _ & Hg). intros E. by apply Hg, (ki_first ks Hi q).
Qed.

Lemma BuildSkip_new h p b q :
  pprev b = Some q → ∃ s, BuildSkip (<[p := b]> h) p = <[p := MkBlockIndex (phashBlock b) (Some q) s (nHeight b) (nFlags b) (nHeaderVersion b) (nTime b) (nBits b)]> h.
Proof. intros E. unfold BuildSkip. rewrite lookup_insert_eq, E. eexists. by rewrite insert_insert_eq. Qed.

Lemma SetStakeEntropyBit_keeps b e : let b' := (SetStakeEntropyBit b e).1 in
  phashBlock b' = phashBlock b ∧ pprev b' = pprev b ∧ pskip b' = pskip b ∧ nHeight b' = nHeight b ∧ nTime b' = nTime b ∧ nBits b' = nBits b.
Proof. unfold SetStakeEntropyBit. by destruct (1 <? e). Qed.

(** What indexing a node [b] at the free address [p] under [prev] leaves: the node with
    other flags, its new fields and nothing else. *)
Lemma index_stake_ok ks genesis p b prev c f0 :
  kernel_inv ks → fits 64 literal → ks_index ks !! p = None → pprev b = Some prev → ks_index ks !! prev = Some c → nHeight b = nHeight c + 1 →
  words 8 (phashBlock b) → fits 32 (nTime b) → fits 32 (nBits b) → find_block (ks_index ks) (phashBlock b) = None → fits 64 (nStakeModifier f0) →
  ∃ b' f proofs, index_stake Params literal (KernelState (<[p := b]> (ks_index ks)) (<[p := f0]> (ks_fields ks)) (ks_proofs ks)) genesis p =
      Some (KernelState (<[p := b']> (ks_index ks)) (<[p := f]> (ks_fields ks)) proofs) ∧
    phashBlock b' = phashBlock b ∧ pprev b' = pprev b ∧ pskip b' = pskip b ∧ nHeight b' = nHeight b ∧ nTime b' = nTime b ∧ nBits b' = nBits b ∧
    kernel_inv (KernelState (<[p := b']> (ks_index ks)) (<[p := f]> (ks_fields ks)) proofs).
Proof.
  intros Hi Hlit Hfresh Hprev Hc Hh Hw Ht Hbits Hnew Hf0. assert (p ≠ prev) as Hne by congruence.
  unfold index_stake. cbn [ks_index ks_fields ks_proofs]. rewrite !lookup_insert_eq. cbn [mbind option_bind]. rewrite Hprev. cbn [mbind option_bind].
  destruct (ki_fields ks Hi prev c Hc) as (g & Hg & _). rewrite lookup_insert_ne, Hg by done. cbn [mbind option_bind].
  destruct (GetBlockTrust_spec b Hbits) as (w & -> & _). cbn [mbind option_bind].
  pose proof (SetStakeEntropyBit_keeps b (GetStakeEntropyBit b)) as HE. destruct (SetStakeEntropyBit b (GetStakeEntropyBit b)) as [b1 ok].
  cbn [fst] in HE. destruct HE as (B1 & B2 & B3 & B4 & B5 & B6). rewrite !insert_insert_eq.
  match goal with |- context [KernelState (<[p := b1]> _) (<[p := ?f]> _) ?pr] => set (f1 := f); set (proofs := pr) end.
  assert (kernel_inv (KernelState (<[p := b1]> (ks_index ks)) (<[p := f1]> (ks_fields ks)) proofs) ∨ nHeight c = 0) as Hi1.
  { destruct (Z.eq_dec (nHeight c) 0) as [?|E]; [by right|left]. destruct (ki_linked ks Hi prev c Hc) as [H0 _].
    apply kernel_inv_insert; rewrite ?B1, ?B2, ?B4, ?B5, ?Hprev; try done; [by exists c|lia]. }
  assert (ks_index (KernelState (<[p := b1]> (ks_index ks)) (<[p := f1]> (ks_fields ks)) proofs) !! prev = Some c) as Hc1 by (cbn; by rewrite lookup_insert_ne).
  rewrite B2, Hprev. destruct (compute_for_new _ prev c Hlit Hc1 Hi1) as (m & gen & Em & Hm & Hgen).
  rewrite Em. cbn [mbind option_bind SetStakeModifier nStakeModifierChecksum hashProofOfStake bnChainTrust f1].
  set (b2 := if gen then or_flags BLOCK_STAKE_MODIFIER b1 else b1).
  assert (phashBlock b2 = phashBlock b ∧ pprev b2 = pprev b ∧ pskip b2 = pskip b ∧ nHeight b2 = nHeight b ∧ nTime b2 = nTime b ∧ nBits b2 = nBits b)
    as (D1 & D2 & D3 & D4 & D5 & D6) by (unfold b2; by destruct gen).
  unfold GetStakeModifierChecksum. cbn [ks_index ks_fields]. rewrite !insert_insert_eq, !lookup_insert_eq. cbn [mbind option_bind].
  rewrite D2, Hprev, lookup_insert_ne, Hg by done. cbn [mbind option_bind].
  rewrite insert_insert_eq. eexists b2, _, proofs. split; [reflexivity|]. split_and!; [done|congruence|done..|].
  apply kernel_inv_insert; rewrite ?D1, ?D2, ?D4, ?D5, ?Hprev; try done; [by exists c|].
  intros E. unfold b2. rewrite Hgen by lia. apply generated_or.
Qed.
End total.

Lemma testNet_intervals : intervals_ok testNetParams.
Proof. by vm_compute. Qed.
