(* ===== verification/ChainState.v ===== *)
(** Chain selection in main.cpp: [setBlockIndexCandidates] and its comparator,
    [FindMostWorkChain], [PruneBlockIndexCandidates], [ConnectTip], [DisconnectTip],
    [ActivateBestChain], [InvalidateBlock], [ReconsiderBlock], [AddToBlockIndex] and
    [ReceivedBlockTransactions]; [InvalidChainFound] of warnings.cpp.

    The nodes of BlockIndex.v hold the fields that link the block tree; the fields
    of a node that change while blocks arrive are its [index_meta].  [None] is a
    failed assertion or the dereference of a null pointer.  Connecting and
    disconnecting a block is an interface, the class [ChainBackend]: [connect_block]
    stands for reading the block, [ConnectBlock] and the flush of its coin view,
    [disconnect_block] for the same steps with [DisconnectBlock] ([None]: it returns
    false).  The proof-of-stake part of [AddToBlockIndex] is [index_stake] of
    StakeModifier.v.  The unused pointer [pnext], the set of stakes seen by the staker,
    writes to the disk, the memory pool, the wallet and the warnings about large forks
    are not part of the state. *)

From S2P Require Import Prelude ArithUint256 ChainParams BlockIndex Pow Interpreter StakeModifier.

(** ** [CBlockIndex::nStatus] *)

Definition BLOCK_VALID_TREE : Z := 2.
Definition BLOCK_VALID_TRANSACTIONS : Z := 3.
Definition BLOCK_VALID_SCRIPTS : Z := 5.
Definition BLOCK_VALID_MASK : Z := 7.
Definition BLOCK_HAVE_DATA : Z := 8.
Definition BLOCK_HAVE_UNDO : Z := 16.
Definition BLOCK_FAILED_VALID : Z := 32.
Definition BLOCK_FAILED_CHILD : Z := 64.
Definition BLOCK_FAILED_MASK : Z := Z.lor BLOCK_FAILED_VALID BLOCK_FAILED_CHILD.

(** The fields of a node that change. *)
Record index_meta := Meta {
  nChainWork : Z;
  nStatus : Z;
  nTx : Z;
  nChainTx : Z;
  nSequenceId : Z;
}.

Definition failed (m : index_meta) : bool := negb (Z.land (nStatus m) BLOCK_FAILED_MASK =? 0).
Definition have_data (m : index_meta) : bool := negb (Z.land (nStatus m) BLOCK_HAVE_DATA =? 0).
Definition IsValid (m : index_meta) (nUpTo : Z) : bool :=
  if failed m then false else nUpTo <=? Z.land (nStatus m) BLOCK_VALID_MASK.
Definition RaiseValidity (m : index_meta) (nUpTo : Z) : index_meta :=
  if failed m then m
  else if Z.land (nStatus m) BLOCK_VALID_MASK <? nUpTo
       then Meta (nChainWork m) (Z.lor (Z.land (nStatus m) (Z.lnot BLOCK_VALID_MASK)) nUpTo) (nTx m) (nChainTx m) (nSequenceId m)
       else m.
Definition set_flag (f : Z) (m : index_meta) : index_meta :=
  Meta (nChainWork m) (Z.lor (nStatus m) f) (nTx m) (nChainTx m) (nSequenceId m).
Definition clear_flag (f : Z) (m : index_meta) : index_meta :=
  Meta (nChainWork m) (Z.land (nStatus m) (Z.lnot f)) (nTx m) (nChainTx m) (nSequenceId m).

(** What connecting a block returns: the new coins; a violated rule, where
    [CorruptionPossible] tells that the stored copy may be at fault; or an error of the
    system. *)
Inductive connect_result (C : Type) :=
  | ConnectOk (coins : C)
  | ConnectInvalid (corruptionPossible : bool)
  | ConnectError.
Arguments ConnectOk {C} _.
Arguments ConnectInvalid {C} _.
Arguments ConnectError {C}.

Class ChainBackend (C : Type) := {
  connect_block : C → ptr → bool → connect_result C;
  disconnect_block : C → ptr → option C;
}.

Inductive tip_result := TipConnected | TipInvalid (corruptionPossible : bool) | TipError.
(** How the loop over the blocks to connect ends. *)
Inductive step_flow := Continue | Stop | Error.
(** How a round of the loop of [ActivateBestChain] ends. *)
Inductive round_result := Return (ok : bool) | Again.

(** What [AddToBlockIndex] keeps apart from the tree: the proof-of-stake fields of the
    nodes, the accepted proofs and the header with the most work. *)
Record header_state := HeaderState {
  stake_fields : gmap ptr kernel_fields;
  mapProofOfStake : gmap uint256 uint256;
  pindexBestHeader : option ptr;
}.

Record main_state (C : Type) := MainState {
  mapBlockIndex : store;
  metas : gmap ptr index_meta;
  chainActive : list (option ptr);
  setBlockIndexCandidates : gset ptr;
  mapBlocksUnlinked : list (ptr * ptr);
  pindexBestInvalid : option ptr;
  nBlockSequenceId : Z;
  pcoinsTip : C;
  headers : header_state;
}.
Arguments MainState {C}.
Arguments mapBlockIndex {C} _.
Arguments metas {C} _.
Arguments chainActive {C} _.
Arguments setBlockIndexCandidates {C} _.
Arguments mapBlocksUnlinked {C} _.
Arguments pindexBestInvalid {C} _.
Arguments nBlockSequenceId {C} _.
Arguments pcoinsTip {C} _.
Arguments headers {C} _.

Section chain_state.
Context {C : Type} `{ChainBackend C}.
Implicit Types st : main_state C.

(** ** Updates of one field *)

Definition update_meta st (p : ptr) (f : index_meta → index_meta) : main_state C :=
  MainState (mapBlockIndex st) (alter f p (metas st)) (chainActive st) (setBlockIndexCandidates st)
    (mapBlocksUnlinked st) (pindexBestInvalid st) (nBlockSequenceId st) (pcoinsTip st) (headers st).
Definition with_chain st (c : list (option ptr)) : main_state C :=
  MainState (mapBlockIndex st) (metas st) c (setBlockIndexCandidates st)
    (mapBlocksUnlinked st) (pindexBestInvalid st) (nBlockSequenceId st) (pcoinsTip st) (headers st).
Definition with_candidates st (s : gset ptr) : main_state C :=
  MainState (mapBlockIndex st) (metas st) (chainActive st) s
    (mapBlocksUnlinked st) (pindexBestInvalid st) (nBlockSequenceId st) (pcoinsTip st) (headers st).
Definition with_unlinked st (l : list (ptr * ptr)) : main_state C :=
  MainState (mapBlockIndex st) (metas st) (chainActive st) (setBlockIndexCandidates st)
    l (pindexBestInvalid st) (nBlockSequenceId st) (pcoinsTip st) (headers st).
Definition with_best_invalid st (p : option ptr) : main_state C :=
  MainState (mapBlockIndex st) (metas st) (chainActive st) (setBlockIndexCandidates st)
    (mapBlocksUnlinked st) p (nBlockSequenceId st) (pcoinsTip st) (headers st).
Definition with_coins st (c : C) : main_state C :=
  MainState (mapBlockIndex st) (metas st) (chainActive st) (setBlockIndexCandidates st)
    (mapBlocksUnlinked st) (pindexBestInvalid st) (nBlockSequenceId st) c (headers st).
Definition erase_candidate st (p : ptr) : main_state C :=
  with_candidates st (setBlockIndexCandidates st ∖ {[p]}).
Definition insert_candidate st (p : ptr) : main_state C :=
  with_candidates st ({[p]} ∪ setBlockIndexCandidates st).

(** ** The order of the candidates *)

(** [pa] sorts before [pb]; the addresses break ties. *)
Definition CBlockIndexWorkComparator st (pa pb : ptr) : bool :=
  match metas st !! pa, metas st !! pb with
  | Some a, Some b =>
      if nChainWork b <? nChainWork a then false
      else if nChainWork a <? nChainWork b then true
      else if nSequenceId a <? nSequenceId b then false
      else if nSequenceId b <? nSequenceId a then true
      else if (pa <? pb)%nat then false
      else (pb <? pa)%nat
  | _, _ => false
  end.

(** [*setBlockIndexCandidates.rbegin()] *)
Definition best_candidate st : option ptr :=
  foldr (λ p best, match best with
                   | Some q => if CBlockIndexWorkComparator st p q then Some q else Some p
                   | None => Some p
                   end) None (elements (setBlockIndexCandidates st)).

Definition tip_work_less st (p q : ptr) : bool :=
  match metas st !! p, metas st !! q with Some a, Some b => nChainWork a <? nChainWork b | _, _ => false end.

(** ** [FindMostWorkChain] *)

(** The loop over [pindexTest]: [Some None] if the active chain is reached, otherwise
    the block that makes the candidate unusable, with [fFailedChain]. *)
Fixpoint test_chain st (fuel : nat) (pindexTest : option ptr) : option (option (ptr * bool)) :=
  match pindexTest with
  | None => Some None
  | Some t =>
      if Contains (mapBlockIndex st) (chainActive st) t then Some None
      else match fuel with
      | O => None
      | S fuel =>
          b ← mapBlockIndex st !! t; m ← metas st !! t;
          if (nChainTx m =? 0) && negb (nHeight b =? 0) then None
          else if failed m || negb (have_data m) then Some (Some (t, failed m))
          else test_chain st fuel (pprev b)
      end
  end.

(** The loop that removes the blocks above [pindexTest], and [pindexTest] itself. *)
Fixpoint remove_chain st (fuel : nat) (fFailedChain : bool) (pindexTest pindexFailed : ptr) : option (main_state C) :=
  if decide (pindexTest = pindexFailed) then Some (erase_candidate st pindexTest)
  else match fuel with
  | O => None
  | S fuel =>
      b ← mapBlockIndex st !! pindexFailed; q ← pprev b;
      let st := if fFailedChain then update_meta st pindexFailed (set_flag BLOCK_FAILED_CHILD)
                else with_unlinked st (mapBlocksUnlinked st ++ [(q, pindexFailed)]) in
      remove_chain (erase_candidate st pindexFailed) fuel fFailedChain pindexTest q
  end.

Fixpoint find_most_work st (fuel : nat) : option (option ptr * main_state C) :=
  match best_candidate st with
  | None => Some (None, st)
  | Some pindexNew =>
      b ← mapBlockIndex st !! pindexNew;
      let n := S (Z.to_nat (nHeight b)) in
      r ← test_chain st n (Some pindexNew);
      match r with
      | None => Some (Some pindexNew, st)
      | Some (pindexTest, fFailedChain) =>
          let better := match pindexBestInvalid st with None => true | Some i => tip_work_less st i pindexNew end in
          let st := if fFailedChain && better then with_best_invalid st (Some pindexNew) else st in
          st ← remove_chain st n fFailedChain pindexTest pindexNew;
          match fuel with O => None | S fuel => find_most_work st fuel end
      end
  end.
(** Every round removes a candidate. *)
Definition FindMostWorkChain st : option (option ptr * main_state C) :=
  find_most_work st (size (setBlockIndexCandidates st)).

(** The iteration stops at the first entry that is not worse than the tip. *)
Definition PruneBlockIndexCandidates st : option (main_state C) :=
  tip ← Tip (chainActive st);
  let s := filter (λ p, CBlockIndexWorkComparator st p tip = false) (setBlockIndexCandidates st) in
  if decide (s = ∅) then None else Some (with_candidates st s).

(** warnings.cpp; the log line dereferences the tip. *)
Definition InvalidChainFound st (pindexNew : ptr) : option (main_state C) :=
  _ ← Tip (chainActive st);
  let better := match pindexBestInvalid st with None => true | Some i => tip_work_less st i pindexNew end in
  Some (if better then with_best_invalid st (Some pindexNew) else st).

(** ** The tip *)

Definition UpdateTip st (pindexNew : option ptr) : option (main_state C) :=
  p ← pindexNew; Some (with_chain st (SetTip (mapBlockIndex st) (chainActive st) (Some p))).

Definition DisconnectTip st : option (bool * main_state C) :=
  pindexDelete ← Tip (chainActive st);
  match disconnect_block (pcoinsTip st) pindexDelete with
  | None => Some (false, st)
  | Some c =>
      b ← mapBlockIndex st !! pindexDelete;
      st ← UpdateTip (with_coins st c) (pprev b);
      Some (true, st)
  end.

(** With the status [ConnectBlock] gives a block that is not the genesis block, and
    [InvalidBlockFound]. *)
Definition ConnectTip st (pindexNew : ptr) (fAlreadyChecked : bool) : option (tip_result * main_state C) :=
  b ← mapBlockIndex st !! pindexNew;
  if decide (pprev b = Tip (chainActive st)) then
    match connect_block (pcoinsTip st) pindexNew fAlreadyChecked with
    | ConnectOk c =>
        let st := with_coins st c in
        let st := match pprev b with
                  | Some _ => update_meta st pindexNew (λ m, RaiseValidity (set_flag BLOCK_HAVE_UNDO m) BLOCK_VALID_SCRIPTS)
                  | None => st
                  end in
        st ← UpdateTip st (Some pindexNew);
        Some (TipConnected, st)
    | ConnectInvalid true => Some (TipInvalid true, st)
    | ConnectInvalid false =>
        let st := erase_candidate (update_meta st pindexNew (set_flag BLOCK_FAILED_VALID)) pindexNew in
        st ← InvalidChainFound st pindexNew;
        Some (TipInvalid false, st)
    | ConnectError => Some (TipError, st)
    end
  else None.

(** ** [ActivateBestChain] *)

Fixpoint disconnect_to st (fuel : nat) (pindexFork : option ptr) : option (bool * main_state C) :=
  match Tip (chainActive st) with
  | None => Some (true, st)
  | Some t =>
      if decide (pindexFork = Some t) then Some (true, st)
      else match fuel with
      | O => None
      | S fuel =>
          '(ok, st) ← DisconnectTip st;
          if (ok : bool) then disconnect_to st fuel pindexFork else Some (false, st)
      end
  end.

(** [vpindexToConnect]: from [pindexIter] down to the block above [nHeight]. *)
Fixpoint to_connect (h : store) (fuel : nat) (pindexIter : option ptr) (height : Z) : list ptr :=
  match pindexIter with
  | None => []
  | Some p =>
      match h !! p with
      | None => []
      | Some b =>
          if nHeight b =? height then []
          else match fuel with O => [] | S fuel => p :: to_connect h fuel (pprev b) height end
      end
  end.

(** The loop over the reversed list; [back] is [vpindexToConnect.back()]. *)
Fixpoint connect_list st (pindexMostWork : ptr) (pindexOldTip : option ptr) (fAlreadyChecked : bool) (back : ptr)
    (l : list ptr) : option (step_flow * main_state C) :=
  match l with
  | [] => Some (Continue, st)
  | pindexConnect :: l =>
      '(r, st) ← ConnectTip st pindexConnect (bool_decide (pindexConnect = pindexMostWork) && fAlreadyChecked);
      match r with
      | TipInvalid corruptionPossible =>
          st ← (if (corruptionPossible : bool) then Some st else InvalidChainFound st back);
          Some (Stop, st)
      | TipError => Some (Error, st)
      | TipConnected =>
          st ← PruneBlockIndexCandidates st;
          tip ← Tip (chainActive st);
          if match pindexOldTip with None => true | Some o => tip_work_less st o tip end
          then Some (Stop, st)
          else connect_list st pindexMostWork pindexOldTip fAlreadyChecked back l
      end
  end.

Fixpoint connect_loop st (fuel : nat) (pindexMostWork : ptr) (mostHeight : Z) (pindexOldTip : option ptr)
    (fAlreadyChecked : bool) (height : Z) : option (bool * main_state C) :=
  if height =? mostHeight then Some (true, st)
  else match fuel with
  | O => None
  | S fuel =>
      let nTargetHeight := Z.min (height + 32) mostHeight in
      let l := to_connect (mapBlockIndex st) (Z.to_nat (nTargetHeight - height))
                 (GetAncestor (mapBlockIndex st) pindexMostWork nTargetHeight) height in
      '(flow, st) ← connect_list st pindexMostWork pindexOldTip fAlreadyChecked (List.last l 0%nat) (rev l);
      match flow with
      | Continue => connect_loop st fuel pindexMostWork mostHeight pindexOldTip fAlreadyChecked nTargetHeight
      | Stop => Some (true, st)
      | Error => Some (false, st)
      end
  end.

Definition ActivateBestChainStep st (pindexMostWork : ptr) (fAlreadyChecked : bool) : option (bool * main_state C) :=
  let pindexOldTip := Tip (chainActive st) in
  let pindexFork := FindFork (mapBlockIndex st) (chainActive st) pindexMostWork in
  '(ok, st) ← disconnect_to st (length (chainActive st)) pindexFork;
  if negb ok then Some (false, st)
  else
    b ← mapBlockIndex st !! pindexMostWork;
    height ← match pindexFork with None => Some (-1) | Some f => nHeight <$> mapBlockIndex st !! f end;
    connect_loop st (Z.to_nat (nHeight b + 1)) pindexMostWork (nHeight b) pindexOldTip fAlreadyChecked height.

(** One round of the loop; [pblock] is the node of the block the caller passes. *)
Definition activate_round st (pblock : option ptr) (fAlreadyChecked : bool) : option (round_result * main_state C) :=
  '(pindexMostWork, st) ← FindMostWorkChain st;
  match pindexMostWork with
  | None => Some (Return true, st)
  | Some m =>
      if decide (Tip (chainActive st) = Some m) then Some (Return true, st)
      else
        '(ok, st) ← ActivateBestChainStep st m (bool_decide (pblock = Some m) && fAlreadyChecked);
        if negb ok then Some (Return false, st)
        else if decide (Tip (chainActive st) = Some m) then Some (Return true, st)
        else Some (Again, st)
  end.
Fixpoint activate st (fuel : nat) (pblock : option ptr) (fAlreadyChecked : bool) : option (bool * main_state C) :=
  '(r, st) ← activate_round st pblock fAlreadyChecked;
  match r with
  | Return ok => Some (ok, st)
  | Again => match fuel with O => None | S fuel => activate st fuel pblock fAlreadyChecked end
  end.
(** A round that does not end the loop marks a block as failed or raises the work of
    the tip, so the square of the number of blocks bounds the rounds. *)
Definition ActivateBestChain st (pblock : option ptr) (fAlreadyChecked : bool) : option (bool * main_state C) :=
  let n := size (metas st) in activate st ((n + 1) * (n + 1)) pblock fAlreadyChecked.

(** ** Marking blocks as failed *)

Fixpoint invalidate_loop st (fuel : nat) (pindex : ptr) : option (bool * main_state C) :=
  if Contains (mapBlockIndex st) (chainActive st) pindex then
    match fuel with
    | O => None
    | S fuel =>
        pindexWalk ← Tip (chainActive st);
        let st := erase_candidate (update_meta st pindexWalk (set_flag BLOCK_FAILED_CHILD)) pindexWalk in
        '(ok, st) ← DisconnectTip st;
        if (ok : bool) then invalidate_loop st fuel pindex else Some (false, st)
    end
  else Some (true, st).

(** The entries of [mapBlockIndex] that may be better than the new tip. *)
Definition readd_candidates st (tip : ptr) : main_state C :=
  with_candidates st (setBlockIndexCandidates st ∪
    dom (filter (λ '(p, m), IsValid m BLOCK_VALID_TRANSACTIONS && negb (nChainTx m =? 0) &&
                            negb (CBlockIndexWorkComparator st p tip) = true) (metas st))).

Definition InvalidateBlock st (pindex : ptr) : option (bool * main_state C) :=
  let st := erase_candidate (update_meta st pindex (set_flag BLOCK_FAILED_VALID)) pindex in
  '(ok, st) ← invalidate_loop st (length (chainActive st)) pindex;
  if negb ok then Some (false, st)
  else
    tip ← Tip (chainActive st);
    st ← InvalidChainFound (readd_candidates st tip) pindex;
    Some (true, st).

(** The body of the loop over [mapBlockIndex]. *)
Definition reconsider_entry (height : Z) (pindex : ptr) st (p : ptr) : option (main_state C) :=
  m ← metas st !! p;
  if negb (IsValid m BLOCK_VALID_TRANSACTIONS) && bool_decide (GetAncestor (mapBlockIndex st) p height = Some pindex) then
    let st := update_meta st p (clear_flag BLOCK_FAILED_MASK) in
    m ← metas st !! p;
    st ← (if IsValid m BLOCK_VALID_TRANSACTIONS && negb (nChainTx m =? 0) then
            tip ← Tip (chainActive st);
            Some (if CBlockIndexWorkComparator st tip p then insert_candidate st p else st)
          else Some st);
    Some (if decide (pindexBestInvalid st = Some p) then with_best_invalid st None else st)
  else Some st.
Fixpoint reconsider_entries (height : Z) (pindex : ptr) st (l : list ptr) : option (main_state C) :=
  match l with
  | [] => Some st
  | p :: l => st ← reconsider_entry height pindex st p; reconsider_entries height pindex st l
  end.
Fixpoint clear_ancestors st (fuel : nat) (pindex : option ptr) : option (main_state C) :=
  match pindex with
  | None => Some st
  | Some p =>
      match fuel with
      | O => None
      | S fuel =>
          b ← mapBlockIndex st !! p;
          clear_ancestors (update_meta st p (clear_flag BLOCK_FAILED_MASK)) fuel (pprev b)
      end
  end.
Definition ReconsiderBlock st (pindex : ptr) : option (main_state C) :=
  b ← mapBlockIndex st !! pindex;
  st ← reconsider_entries (nHeight b) pindex st (elements (dom (metas st)));
  clear_ancestors st (Z.to_nat (nHeight b + 1)) (Some pindex).

(** ** New blocks *)

Definition set_chain_tx (parentTx sequence : Z) (m : index_meta) : index_meta :=
  Meta (nChainWork m) (nStatus m) (nTx m) (u32 (parentTx + nTx m)) sequence.

(** [while (!queue.empty())] *)
Fixpoint link_queue st (fuel : nat) (queue : list ptr) : option (main_state C) :=
  match queue with
  | [] => Some st
  | pindex :: queue =>
      match fuel with
      | O => None
      | S fuel =>
          b ← mapBlockIndex st !! pindex;
          parentTx ← match pprev b with None => Some 0 | Some q => nChainTx <$> metas st !! q end;
          let st := update_meta st pindex (set_chain_tx parentTx (nBlockSequenceId st)) in
          let st := MainState (mapBlockIndex st) (metas st) (chainActive st) (setBlockIndexCandidates st)
                      (mapBlocksUnlinked st) (pindexBestInvalid st) (u32 (nBlockSequenceId st + 1)) (pcoinsTip st) (headers st) in
          let st := match Tip (chainActive st) with
                    | None => insert_candidate st pindex
                    | Some tip => if CBlockIndexWorkComparator st pindex tip then st else insert_candidate st pindex
                    end in
          let next := map snd (filter (λ e, e.1 = pindex) (mapBlocksUnlinked st)) in
          let st := with_unlinked st (filter (λ e, e.1 ≠ pindex) (mapBlocksUnlinked st)) in
          link_queue st fuel (queue ++ next)
      end
  end.

Definition receive_meta (txs : Z) (m : index_meta) : index_meta :=
  RaiseValidity (Meta (nChainWork m) (Z.lor (nStatus m) BLOCK_HAVE_DATA) txs 0 (nSequenceId m)) BLOCK_VALID_TRANSACTIONS.

Definition SetProofOfStake (b : CBlockIndex) : CBlockIndex :=
  MkBlockIndex (phashBlock b) (pprev b) (pskip b) (nHeight b) (Z.lor (nFlags b) BLOCK_PROOF_OF_STAKE)
    (nHeaderVersion b) (nTime b) (nBits b).

(** [fProofOfStake] is [block.IsProofOfStake()] and [txs] is [block.vtx.size()]; the
    position on the disk is not part of the state. *)
Definition ReceivedBlockTransactions st (pindexNew : ptr) (fProofOfStake : bool) (txs : Z) : option (main_state C) :=
  b ← mapBlockIndex st !! pindexNew;
  let h := if fProofOfStake then alter SetProofOfStake pindexNew (mapBlockIndex st) else mapBlockIndex st in
  let st := MainState h (alter (receive_meta (u32 txs)) pindexNew (metas st)) (chainActive st) (setBlockIndexCandidates st)
              (mapBlocksUnlinked st) (pindexBestInvalid st) (nBlockSequenceId st) (pcoinsTip st) (headers st) in
  match pprev b with
  | None => link_queue st (S (length (mapBlocksUnlinked st))) [pindexNew]
  | Some q =>
      m ← metas st !! q;
      if negb (nChainTx m =? 0) then link_queue st (S (length (mapBlocksUnlinked st))) [pindexNew]
      else Some (if IsValid m BLOCK_VALID_TREE then with_unlinked st (mapBlocksUnlinked st ++ [(q, pindexNew)]) else st)
  end.

End chain_state.

(** ** Headers *)

Section headers.
Context (Params : CChainParams) `{HashFunctions} (literal : Z) (hashGenesisBlock : uint256) {C : Type}.
Implicit Types st : main_state C.

(** The block index with its proof-of-stake fields. *)
Definition kernel_of st : kernel_state :=
  KernelState (mapBlockIndex st) (stake_fields (headers st)) (mapProofOfStake (headers st)).

(** [mapProofOfStake.insert] in [AcceptBlock]: an entry that exists is kept. *)
Definition record_proof st (hash proof : uint256) : main_state C :=
  let proofs := match mapProofOfStake (headers st) !! hash with
                | Some _ => mapProofOfStake (headers st)
                | None => <[hash := proof]> (mapProofOfStake (headers st))
                end in
  MainState (mapBlockIndex st) (metas st) (chainActive st) (setBlockIndexCandidates st) (mapBlocksUnlinked st) (pindexBestInvalid st)
    (nBlockSequenceId st) (pcoinsTip st) (HeaderState (stake_fields (headers st)) proofs (pindexBestHeader (headers st))).

(** The new node is at address [p], with the flags of the constructor in [flags].  The
    parent is looked up after the node has been inserted. *)
Definition AddToBlockIndex st (p : ptr) (hash hashPrevBlock : uint256) (flags version time bits : Z) : option (ptr * main_state C) :=
  match find_block (mapBlockIndex st) hash with
  | Some q => Some (q, st)
  | None =>
      let h := <[p := MkBlockIndex hash None None 0 flags version time bits]> (mapBlockIndex st) in
      let fields := <[p := KernelFields_null]> (stake_fields (headers st)) in
      ks ← match find_block h hashPrevBlock with
           | None => Some (KernelState h fields (mapProofOfStake (headers st)))
           | Some prev =>
               c ← h !! prev;
               let h := BuildSkip (<[p := MkBlockIndex hash (Some prev) None (nHeight c + 1) flags version time bits]> h) p in
               index_stake Params literal (KernelState h fields (mapProofOfStake (headers st))) hashGenesisBlock p
           end;
      b ← ks_index ks !! p;
      proof ← GetBlockProof b;
      let prevWork := match pprev b ≫= (metas st !!.) with Some m => nChainWork m | None => 0 end in
      let m := RaiseValidity (Meta (wrap 256 (prevWork + le_val 32 proof)) 0 0 0 0) BLOCK_VALID_TREE in
      let st := MainState (ks_index ks) (<[p := m]> (metas st)) (chainActive st) (setBlockIndexCandidates st) (mapBlocksUnlinked st)
                  (pindexBestInvalid st) (nBlockSequenceId st) (pcoinsTip st) (HeaderState (ks_fields ks) (ks_proofs ks) (pindexBestHeader (headers st))) in
      let best := match pindexBestHeader (headers st) with
                  | Some q => if tip_work_less st q p then Some p else Some q
                  | None => Some p
                  end in
      Some (p, MainState (mapBlockIndex st) (metas st) (chainActive st) (setBlockIndexCandidates st) (mapBlocksUnlinked st)
                 (pindexBestInvalid st) (nBlockSequenceId st) (pcoinsTip st) (HeaderState (ks_fields ks) (ks_proofs ks) best))
  end.
End headers.
