(* ===== verification/ChainStateFacts.v ===== *)
(** Chain selection: [FindMostWorkChain] returns the best candidate whose blocks can
    be used, and [ActivateBestChain] ends with the best valid chain. *)

From S2P Require Import Prelude ArithUint256 BlockIndex BlockIndexFacts Pow ChainState.

(** [a] is [p] or a block below it. *)
Inductive ancestor (h : store) : ptr → ptr → Prop :=
  | anc_self p b : h !! p = Some b → ancestor h p p
  | anc_parent a p b q : h !! p = Some b → pprev b = Some q → ancestor h a q → ancestor h a p.

(** The level of validity a block has reached. *)
Definition validity (m : index_meta) : Z := Z.land (nStatus m) BLOCK_VALID_MASK.

(** The fields other than the status. *)
Definition key (m : index_meta) : Z * Z * Z * Z := (nChainWork m, nTx m, nChainTx m, nSequenceId m).

(** What the chain selection asks of connecting and disconnecting blocks: [at_tip c t]
    tells that the coins [c] are those after block [t], and [valid] is the verdict of
    the rules on a block; [parent] is the block tree.  The verdict does not change, no
    error of the system occurs and the stored blocks are not corrupted. *)
Class ChainBackendOk {C} `{ChainBackend C} (parent : ptr → option ptr) (at_tip : C → ptr → Prop)
    (valid : ptr → bool) : Prop := {
  connect_ok c t p chk : parent p = Some t → at_tip c t →
    match connect_block c p chk with
    | ConnectOk c' => valid p = true ∧ at_tip c' p
    | ConnectInvalid corruptionPossible => valid p = false ∧ corruptionPossible = false
    | ConnectError => False
    end;
  disconnect_ok c t q : parent t = Some q → at_tip c t →
    ∃ c', disconnect_block c t = Some c' ∧ at_tip c' q;
}.

(** The tree of a store. *)
Definition parent_in (h : store) (p : ptr) : option ptr := h !! p ≫= pprev.

Section facts.
Context {C : Type}.
Implicit Types st : main_state C.

(** No block up to [p] has failed. *)
Definition unfailed st (p : ptr) : Prop :=
  ∀ a, ancestor (mapBlockIndex st) a p → ∃ m, metas st !! a = Some m ∧ failed m = false.
Definition linked_block st (p : ptr) : Prop := ∃ m, metas st !! p = Some m ∧ nChainTx m ≠ 0.

(** The parts of the invariant that do not mention the candidates. *)
Record tree_inv st : Prop := {
  inv_linked : linked (mapBlockIndex st);
  inv_skips : skips_ok (mapBlockIndex st);
  inv_root p q b c : mapBlockIndex st !! p = Some b → mapBlockIndex st !! q = Some c → pprev b = None → pprev c = None → p = q;
  inv_dom p : is_Some (metas st !! p) ↔ is_Some (mapBlockIndex st !! p);
  inv_tx p m : metas st !! p = Some m → nChainTx m ≠ 0 → have_data m = true ∧
    ∀ b q, mapBlockIndex st !! p = Some b → pprev b = Some q → linked_block st q;
  inv_cand p : p ∈ setBlockIndexCandidates st → linked_block st p;
}.
(** [t] is the tip. *)
Record tip_inv st (t : ptr) : Prop := {
  tip_chain : chainActive st = branch (mapBlockIndex st) t;
  tip_linked : linked_block st t;
  tip_unfailed : unfailed st t;
}.

(** The invariant between two calls of [ActivateBestChain]: the active chain is a chain
    of linked blocks that have not failed, its tip is a candidate, and so is every
    linked block without a failed ancestor that is not worse than the tip (the
    assertions of [CheckBlockIndex]). *)
Definition chain_inv st : Prop :=
  tree_inv st ∧ ∃ t, tip_inv st t ∧ t ∈ setBlockIndexCandidates st ∧
    ∀ p, linked_block st p → unfailed st p → CBlockIndexWorkComparator st p t = false → p ∈ setBlockIndexCandidates st.

(** * Ancestors *)

Lemma ancestor_trans h a p q : ancestor h a p → ancestor h p q → ancestor h a q.
Proof. intros Ha Hp. revert Ha. induction Hp; [done|]. intros. eapply anc_parent; eauto. Qed.

Lemma ancestor_in h a p : ancestor h a p → is_Some (h !! a) ∧ is_Some (h !! p).
Proof. induction 1 as [p b|a p b q Hp Hq _ [IH1 IH2]]; split; done || by eexists. Qed.

Lemma ancestor_up h n p a : is_Some (h !! a) → up h n p = Some a → ancestor h a p.
Proof.
  intros [ba Ha]. revert p. induction n as [|n IH]; intros p; simpl; [intros [= ->]; by eapply anc_self|].
  destruct (h !! p) as [b|] eqn:Hp; [|done]. simpl. destruct (pprev b) as [q|] eqn:Hq; [|done]. simpl.
  intros E. eapply anc_parent; [done..|]. by apply IH.
Qed.

Lemma ancestor_ref_anc h p k a : linked h → ancestor_ref h p k = Some a → ancestor h a p.
Proof.
  intros Hl E. destruct (h !! p) as [b|] eqn:Hp; [|by unfold ancestor_ref in E; rewrite Hp in E].
  destruct (ancestor_ref_height h p b k a Hl Hp E) as (Hk & d & Ha & _). unfold ancestor_ref in E. rewrite Hp in E. simpl in E.
  destruct (_ || _); [done|]. eapply ancestor_up; [by eexists|done].
Qed.

Lemma anc_ancestor_ref h a p b : linked h → ancestor h a p → h !! a = Some b → ancestor_ref h p (nHeight b) = Some a ∧ (∀ c, h !! p = Some c → nHeight b ≤ nHeight c).
Proof.
  intros Hl Ha Hb. induction Ha as [p c Hp|a p c q Hp Hq Ha IH].
  - assert (c = b) as -> by congruence. destruct (Hl p b Hp) as [H0 _]. split; [by apply ancestor_ref_self|]. intros ? ?. simplify_eq. done.
  - destruct (IH Hb) as [E Hle]. destruct (Hl p c Hp) as [H0 Hc]. rewrite Hq in Hc. destruct Hc as (d & Hd & Eh).
    specialize (Hle d Hd). split; [|intros; simplify_eq; lia]. rewrite <-(ancestor_ref_pprev h p c q) by (done || lia). done.
Qed.

(** Two ancestors of a block are ancestors of each other. *)
Lemma ancestor_height_eq h a a' p b b' : linked h → ancestor h a p → ancestor h a' p → h !! a = Some b → h !! a' = Some b' →
  nHeight b = nHeight b' → a = a'.
Proof.
  intros Hl Ha Ha' Hb Hb' E. destruct (anc_ancestor_ref h a p b Hl Ha Hb) as [E1 _], (anc_ancestor_ref h a' p b' Hl Ha' Hb') as [E2 _]. congruence.
Qed.

Lemma Contains_tip st t p : linked (mapBlockIndex st) → chainActive st = branch (mapBlockIndex st) t → is_Some (mapBlockIndex st !! t) →
  is_Some (mapBlockIndex st !! p) → Contains (mapBlockIndex st) (chainActive st) p = true ↔ ancestor (mapBlockIndex st) p t.
Proof.
  intros Hl -> [bt Ht] [b Hp]. rewrite (Contains_branch _ _ bt _ b) by done. split.
  - by apply ancestor_ref_anc.
  - intros Ha. by apply anc_ancestor_ref.
Qed.

Lemma Tip_branch h t b : linked h → h !! t = Some b → Tip (branch h t) = Some t.
Proof.
  intros Hl Ht. destruct (Hl t b Ht) as [H0 _]. unfold Tip. rewrite (length_branch h t b) by done.
  replace (Z.to_nat (nHeight b + 1) <? 1)%nat with false by (symmetry; apply Nat.ltb_ge; lia).
  rewrite (nth_branch h t b) by (done || lia). replace (Z.of_nat _) with (nHeight b) by lia. by apply ancestor_ref_self.
Qed.

(** * The order of the candidates *)

Lemma comparator_spec st p q mp mq : metas st !! p = Some mp → metas st !! q = Some mq →
  CBlockIndexWorkComparator st p q = true ↔
  nChainWork mp < nChainWork mq ∨ nChainWork mp = nChainWork mq ∧ (nSequenceId mq < nSequenceId mp ∨
    nSequenceId mq = nSequenceId mp ∧ (q < p)%nat).
Proof. intros Hp Hq. unfold CBlockIndexWorkComparator. rewrite Hp, Hq. repeat case_match; lia. Qed.

Lemma comparator_irrefl st p : CBlockIndexWorkComparator st p p = false.
Proof. unfold CBlockIndexWorkComparator. destruct (metas st !! p); [|done]. repeat case_match; lia. Qed.

Lemma comparator_trans st p q r : CBlockIndexWorkComparator st p q = true → CBlockIndexWorkComparator st q r = true →
  CBlockIndexWorkComparator st p r = true.
Proof.
  unfold CBlockIndexWorkComparator. destruct (metas st !! p), (metas st !! q), (metas st !! r); try done.
  repeat case_match; try done; lia.
Qed.

(** Blocks that are not worse form a chain of comparisons. *)
Lemma comparator_total st p q : is_Some (metas st !! p) → is_Some (metas st !! q) →
  CBlockIndexWorkComparator st p q = false → CBlockIndexWorkComparator st q p = false → p = q.
Proof. intros [mp Hp] [mq Hq]. unfold CBlockIndexWorkComparator. rewrite Hp, Hq. repeat case_match; try done; lia. Qed.

Lemma comparator_false_trans st p q r : is_Some (metas st !! p) → is_Some (metas st !! q) → is_Some (metas st !! r) →
  CBlockIndexWorkComparator st p q = false → CBlockIndexWorkComparator st q r = false → CBlockIndexWorkComparator st p r = false.
Proof. intros [mp Hp] [mq Hq] [mr Hr]. unfold CBlockIndexWorkComparator. rewrite Hp, Hq, Hr. repeat case_match; try done; lia. Qed.

Lemma comparator_ext st st' p q : (∀ x, key <$> metas st !! x = key <$> metas st' !! x) →
  CBlockIndexWorkComparator st p q = CBlockIndexWorkComparator st' p q.
Proof.
  intros E. unfold CBlockIndexWorkComparator. pose proof (E p) as Ep. pose proof (E q) as Eq.
  destruct (metas st !! p), (metas st' !! p); try done; [|done..]. destruct (metas st !! q), (metas st' !! q); try done.
  simpl in *. unfold key in *. injection Ep as Ew _ _ Es. injection Eq as Ew' _ _ Es'. by rewrite Ew, Es, Ew', Es'.
Qed.

(** The maximum of a list. *)
Lemma best_fold st (l : list ptr) : (∀ p, p ∈ l → is_Some (metas st !! p)) →
  match foldr (λ p best, match best with
                         | Some q => if CBlockIndexWorkComparator st p q then Some q else Some p
                         | None => Some p
                         end) None l with
  | None => l = []
  | Some p => p ∈ l ∧ ∀ q, q ∈ l → CBlockIndexWorkComparator st p q = false
  end.
Proof.
  induction l as [|x l IH]; intros Hd; [done|]. cbn [foldr].
  assert (∀ p, p ∈ l → is_Some (metas st !! p)) as Hdl by (intros p Hp; apply Hd; by right).
  assert (is_Some (metas st !! x)) as Hx by (apply Hd; by left). specialize (IH Hdl).
  destruct (foldr _ None l) as [q|].
  - destruct IH as [Hq Hmax]. destruct (CBlockIndexWorkComparator st x q) eqn:E.
    + split; [by right|]. intros r [->|Hr]%elem_of_cons; [|by apply Hmax].
      destruct (CBlockIndexWorkComparator st q x) eqn:E2; [|done].
      pose proof (comparator_trans st x q x E E2) as E3. by rewrite comparator_irrefl in E3.
    + split; [by left|]. intros r [->|Hr]%elem_of_cons; [apply comparator_irrefl|].
      apply (comparator_false_trans st x q r); auto.
  - subst. split; [by left|]. intros r [->|Hr]%elem_of_cons; [apply comparator_irrefl|by apply elem_of_nil in Hr].
Qed.

Lemma best_candidate_spec st : (∀ p, p ∈ setBlockIndexCandidates st → is_Some (metas st !! p)) →
  match best_candidate st with
  | None => setBlockIndexCandidates st = ∅
  | Some p => p ∈ setBlockIndexCandidates st ∧ ∀ q, q ∈ setBlockIndexCandidates st → CBlockIndexWorkComparator st p q = false
  end.
Proof.
  intros Hd. pose proof (best_fold st (elements (setBlockIndexCandidates st))) as Hb. unfold best_candidate.
  specialize (Hb ltac:(intros p Hp; by apply Hd, elem_of_elements)). destruct (foldr _ None _); [|by apply leibniz_equiv, elements_empty_inv].
  destruct Hb as [H1 H2]. split; [by apply elem_of_elements|]. intros q Hq. by apply H2, elem_of_elements.
Qed.

(** * The status bits *)

Lemma validity_set_flag f m : Z.land f BLOCK_VALID_MASK = 0 → validity (set_flag f m) = validity m.
Proof. intros Hf. unfold validity, set_flag. cbn [nStatus]. by rewrite Z.land_lor_distr_l, Hf, Z.lor_0_r. Qed.

Lemma validity_raise m n : Z.land n BLOCK_VALID_MASK = n → validity m ≤ validity (RaiseValidity m n) ∧
  (failed m = false → n ≤ validity (RaiseValidity m n)).
Proof.
  intros Hn. unfold RaiseValidity. destruct (failed m); [done|]. fold (validity m). destruct (Z.ltb_spec (validity m) n) as [Hlt|Hle]; [|done].
  assert (validity (Meta (nChainWork m) (Z.lor (Z.land (nStatus m) (Z.lnot BLOCK_VALID_MASK)) n) (nTx m) (nChainTx m) (nSequenceId m)) = n) as ->; [|lia].
  unfold validity. cbn [nStatus]. rewrite Z.land_lor_distr_l, Hn, <-Z.land_assoc. change (Z.land (Z.lnot _) _) with 0. by rewrite Z.land_0_r.
Qed.

Lemma validity_have_undo m : validity m ≤ validity (RaiseValidity (set_flag BLOCK_HAVE_UNDO m) BLOCK_VALID_SCRIPTS).
Proof. rewrite <-(validity_set_flag BLOCK_HAVE_UNDO m) by done. by apply validity_raise. Qed.

Lemma failed_have_undo m : failed (RaiseValidity (set_flag BLOCK_HAVE_UNDO m) BLOCK_VALID_SCRIPTS) = failed m ∧
  have_data (RaiseValidity (set_flag BLOCK_HAVE_UNDO m) BLOCK_VALID_SCRIPTS) = have_data m ∧
  key (RaiseValidity (set_flag BLOCK_HAVE_UNDO m) BLOCK_VALID_SCRIPTS) = key m.
Proof.
  assert (failed (set_flag BLOCK_HAVE_UNDO m) = failed m) as E1.
  { unfold failed, set_flag. cbn [nStatus]. by rewrite Z.land_lor_distr_l, Z.lor_0_r. }
  assert (have_data (set_flag BLOCK_HAVE_UNDO m) = have_data m) as E2.
  { unfold have_data, set_flag. cbn [nStatus]. by rewrite Z.land_lor_distr_l, Z.lor_0_r. }
  unfold RaiseValidity. rewrite E1. destruct (failed m) eqn:Ef; [by rewrite E1, E2|]. case_match; [|by rewrite E1, E2].
  split_and!; [rewrite <-E1|rewrite <-E2|done].
  - unfold failed. cbn [nStatus]. rewrite Z.land_lor_distr_l, Z.lor_0_r, <-Z.land_assoc. done.
  - unfold have_data. cbn [nStatus]. rewrite Z.land_lor_distr_l, Z.lor_0_r, <-Z.land_assoc. done.
Qed.

Lemma set_failed f m : Z.land f BLOCK_FAILED_MASK = f → f ≠ 0 → Z.land f BLOCK_HAVE_DATA = 0 →
  failed (set_flag f m) = true ∧ have_data (set_flag f m) = have_data m ∧ key (set_flag f m) = key m ∧ validity (set_flag f m) = validity m.
Proof.
  intros Hf H0 Hd. split_and!; [| |done|].
  - unfold failed, set_flag. cbn [nStatus]. rewrite Z.land_lor_distr_l, Hf. apply negb_true_iff, Z.eqb_neq.
    rewrite Z.lor_eq_0_iff. by intros [_ ?].
  - unfold have_data, set_flag. cbn [nStatus]. by rewrite Z.land_lor_distr_l, Hd, Z.lor_0_r.
  - apply validity_set_flag. rewrite <-Hf, <-Z.land_assoc. change (Z.land BLOCK_FAILED_MASK _) with 0. apply Z.land_0_r.
Qed.

(** * Changes of the state *)

(** Statuses and candidates change; blocks that have failed stay so. *)
Record evolves st st' : Prop := {
  ev_index : mapBlockIndex st' = mapBlockIndex st;
  ev_meta p : match metas st !! p, metas st' !! p with
              | Some m, Some m' => key m' = key m ∧ have_data m' = have_data m ∧ (failed m = true → failed m' = true)
              | None, None => True
              | _, _ => False
              end;
  ev_validity p m m' : metas st !! p = Some m → metas st' !! p = Some m' → validity m ≤ validity m';
  ev_unlinked : mapBlocksUnlinked st' = mapBlocksUnlinked st;
  ev_sub : setBlockIndexCandidates st' ⊆ setBlockIndexCandidates st;
  ev_headers : headers st' = headers st;
}.
(** Only blocks in [B] are marked or removed; the chain and the coins stay. *)
Record marks (B : ptr → Prop) st st' : Prop := {
  mk_evolves : evolves st st';
  mk_chain : chainActive st' = chainActive st;
  mk_coins : pcoinsTip st' = pcoinsTip st;
  mk_failed p m m' : ¬ B p → metas st !! p = Some m → metas st' !! p = Some m' → failed m' = failed m;
  mk_keep p : p ∈ setBlockIndexCandidates st → ¬ B p → p ∈ setBlockIndexCandidates st';
}.

#[export] Instance evolves_preorder : PreOrder evolves.
Proof.
  split.
  - intros st. split; [done| | |done..]; [intros p; by destruct (metas st !! p)|]. intros p m m' ? ?. by simplify_eq.
  - intros st1 st2 st3 [I1 M1 V1 U1 S1 X1] [I2 M2 V2 U2 S2 X2]. split; [congruence| | |congruence|set_solver|congruence]; intros p; specialize (M1 p); specialize (M2 p).
    + destruct (metas st1 !! p), (metas st2 !! p), (metas st3 !! p); try done.
      destruct M1 as (K1 & D1 & F1), M2 as (K2 & D2 & F2). split_and!; [congruence|congruence|auto].
    + intros m m' Hm Hm'. rewrite Hm in M1. destruct (metas st2 !! p) as [m2|] eqn:E2; [|done].
      pose proof (V1 p m m2 Hm E2). pose proof (V2 p m2 m' E2 Hm'). lia.
Qed.
(** A change of the candidates, the chain or the coins only. *)
Lemma evolves_candidates st st' : mapBlockIndex st' = mapBlockIndex st → metas st' = metas st → mapBlocksUnlinked st' = mapBlocksUnlinked st →
  headers st' = headers st → setBlockIndexCandidates st' ⊆ setBlockIndexCandidates st → evolves st st'.
Proof.
  intros E1 E2 E3 E4 E5. split; try done; rewrite E2; [intros p; by destruct (metas st !! p)|]. intros p m m' ? ?. by simplify_eq.
Qed.
Lemma marks_refl B st : marks B st st.
Proof. split; try done. intros p m m' _ ? ?. congruence. Qed.
Lemma marks_trans B st1 st2 st3 : marks B st1 st2 → marks B st2 st3 → marks B st1 st3.
Proof.
  intros [E1 C1 O1 F1 K1] [E2 C2 O2 F2 K2]. split; [by etransitivity|congruence|congruence| |auto].
  intros p m m' HB Hm Hm'. pose proof (ev_meta _ _ E1 p) as M1. rewrite Hm in M1. destruct (metas st2 !! p) as [m2|] eqn:E; [|done].
  rewrite (F2 p m2 m') by done. by apply (F1 p).
Qed.

Lemma ev_Some st st' p m : evolves st st' → metas st !! p = Some m →
  ∃ m', metas st' !! p = Some m' ∧ key m' = key m ∧ have_data m' = have_data m ∧ (failed m = true → failed m' = true).
Proof. intros E Hm. pose proof (ev_meta _ _ E p) as M. rewrite Hm in M. destruct (metas st' !! p) as [m'|]; [by exists m'|done]. Qed.
Lemma ev_Some' st st' p m' : evolves st st' → metas st' !! p = Some m' →
  ∃ m, metas st !! p = Some m ∧ key m' = key m ∧ have_data m' = have_data m ∧ (failed m = true → failed m' = true).
Proof. intros E Hm. pose proof (ev_meta _ _ E p) as M. rewrite Hm in M. destruct (metas st !! p) as [m|]; [by exists m|done]. Qed.

Lemma ev_linked_block st st' p : evolves st st' → linked_block st' p ↔ linked_block st p.
Proof.
  intros E. split; intros (m & Hm & Hx).
  - destruct (ev_Some' _ _ _ _ E Hm) as (m' & Hm' & K & _). exists m'. split; [done|]. unfold key in K. congruence.
  - destruct (ev_Some _ _ _ _ E Hm) as (m' & Hm' & K & _). exists m'. split; [done|]. unfold key in K. congruence.
Qed.

Lemma ev_comparator st st' p q : evolves st st' → CBlockIndexWorkComparator st' p q = CBlockIndexWorkComparator st p q.
Proof.
  intros E. apply comparator_ext. intros x. pose proof (ev_meta _ _ E x) as M. destruct (metas st !! x), (metas st' !! x); try done.
  destruct M as [K _]. cbn. by rewrite K.
Qed.

(** A block that has not failed in the later state had not failed before. *)
Lemma ev_unfailed st st' p : evolves st st' → unfailed st' p → unfailed st p.
Proof.
  intros E Hu a Ha. rewrite <-(ev_index _ _ E) in Ha. destruct (Hu a Ha) as (m' & Hm' & Hf).
  destruct (ev_Some' _ _ _ _ E Hm') as (m & Hm & _ & _ & F). exists m. split; [done|].
  destruct (failed m); [|done]. rewrite F in Hf; done.
Qed.

Lemma tree_inv_evolves st st' : tree_inv st → evolves st st' → tree_inv st'.
Proof.
  intros [Hl Hs Hr Hd Ht Hc] E. pose proof (ev_index _ _ E) as EI. split; rewrite ?EI; [done..| | |].
  - intros p. rewrite <-Hd. pose proof (ev_meta _ _ E p) as M. destruct (metas st !! p), (metas st' !! p); try done.
  - intros p m' Hm' Hx. destruct (ev_Some' _ _ _ _ E Hm') as (m & Hm & K & D & _).
    destruct (Ht p m Hm) as [H1 H2]; [unfold key in K; congruence|]. split; [congruence|].
    intros b q Hb Hq. by rewrite ev_linked_block by done; eapply H2.
  - intros p Hp. rewrite ev_linked_block by done. by apply Hc, (ev_sub _ _ E).
Qed.

(** The ancestors of a linked block are linked. *)
Lemma linked_ancestor st a p : tree_inv st → ancestor (mapBlockIndex st) a p → linked_block st p → linked_block st a.
Proof.
  intros Hi Ha. induction Ha as [|a p b q Hp Hq Ha IH]; [done|]. intros (m & Hm & Hx).
  apply IH. destruct (inv_tx _ Hi p m Hm Hx) as [_ H2]. by eapply H2.
Qed.
Lemma unfailed_ancestor st a p : ancestor (mapBlockIndex st) a p → unfailed st p → unfailed st a.
Proof. intros Ha Hu x Hx. apply Hu. by eapply ancestor_trans. Qed.

(** * [FindMostWorkChain] *)

Lemma test_chain_spec st t fuel x b : tree_inv st → tip_inv st t → linked_block st x → mapBlockIndex st !! x = Some b →
  (Z.to_nat (nHeight b) < fuel)%nat →
  test_chain st fuel (Some x) = Some None ∧ unfailed st x ∨
  ∃ y m, test_chain st fuel (Some x) = Some (Some (y, true)) ∧ ancestor (mapBlockIndex st) y x ∧ metas st !! y = Some m ∧ failed m = true.
Proof.
  intros Hi Ht. assert (is_Some (mapBlockIndex st !! t)) as Hbt.
  { destruct (tip_linked _ _ Ht) as (m & Hm & _). by apply (inv_dom _ Hi); eexists. }
  revert x b. induction fuel as [|fuel IH]; intros x b (m & Hm & Hx) Hb Hf; [lia|]. cbn [test_chain].
  destruct (Contains _ _ x) eqn:Ec.
  { left. split; [done|]. apply (Contains_tip st t) in Ec; [|apply Hi|apply Ht|done|by eexists]. eapply unfailed_ancestor; [done|apply Ht]. }
  rewrite Hb, Hm. cbn [mbind option_bind]. replace (nChainTx m =? 0) with false by lia. cbn [andb].
  destruct (inv_tx _ Hi x m Hm Hx) as [Hd Hpar]. rewrite Hd, orb_false_r.
  destruct (failed m) eqn:Efm; [right; exists x, m; split_and!; [done|by eapply anc_self|done..]|].
  destruct (inv_linked _ Hi x b Hb) as [Hh0 Hpp]. destruct (pprev b) as [q|] eqn:Eq.
  - destruct Hpp as (c & Hc & Eh). destruct (inv_linked _ Hi q c Hc) as [Hc0 _].
    destruct (IH q c) as [[E Hu]|(y & my & E & Hy & Hmy & Hfy)]; [by eapply Hpar|done|lia|left|right].
    + split; [done|]. intros a Ha. inversion Ha; simplify_eq; [by exists m|by apply Hu].
    + exists y, my. split_and!; [done| |done..]. by eapply anc_parent.
  - left. split; [by destruct fuel|]. intros a Ha. inversion Ha; simplify_eq. by exists m.
Qed.

Lemma update_failed_evolves st p f : Z.land f BLOCK_FAILED_MASK = f → f ≠ 0 → Z.land f BLOCK_HAVE_DATA = 0 →
  marks (p =.) st (update_meta st p (set_flag f)).
Proof.
  intros H1 H2 H3. split; try done.
  - split; try done; intros q; cbn [update_meta metas]; destruct (decide (q = p)) as [->|Hne].
    + rewrite lookup_alter_eq. destruct (metas st !! p) as [m|]; [|done]. cbn. destruct (set_failed f m H1 H2 H3) as (Hf & Hd & Hk & _). by split_and!.
    + rewrite lookup_alter_ne by done. by destruct (metas st !! q).
    + intros m m' Hm. rewrite lookup_alter_eq, Hm. intros [= <-]. destruct (set_failed f m H1 H2 H3) as (_ & _ & _ & ->). done.
    + intros m m' Hm. rewrite lookup_alter_ne, Hm by done. by intros [= <-].
  - intros q m m' Hne. cbn [update_meta metas]. rewrite lookup_alter_ne by done. intros ? ?. congruence.
Qed.
Lemma erase_marks st p : marks (p =.) st (erase_candidate st p).
Proof.
  split; try done.
  - apply evolves_candidates; [done..|cbn; set_solver].
  - cbn. intros q m m' _ ? ?. congruence.
  - cbn. set_solver.
Qed.
Lemma marks_weaken (B B' : ptr → Prop) st st' : (∀ p, B p → B' p) → marks B st st' → marks B' st st'.
Proof. intros HB [E C' O F K]. split; try done; naive_solver. Qed.

Lemma remove_chain_spec st fuel y x b c : linked (mapBlockIndex st) → ancestor (mapBlockIndex st) y x →
  mapBlockIndex st !! x = Some b → mapBlockIndex st !! y = Some c → nHeight b - nHeight c ≤ Z.of_nat fuel →
  ∃ st', remove_chain st fuel true y x = Some st' ∧ marks (ancestor (mapBlockIndex st) y) st st' ∧ x ∉ setBlockIndexCandidates st'.
Proof.
  revert st x b. induction fuel as [|fuel IH]; intros st x b Hl Ha Hb Hc Hf; cbn [remove_chain].
  all: destruct (decide (y = x)) as [->|Hne];
    [eexists; split_and!; [done| |cbn; set_solver]; eapply marks_weaken; [|apply erase_marks]; intros ? <-; by eapply anc_self|].
  all: destruct Ha as [|y x b' q Hb' Hq Ha]; [done|]; assert (b' = b) as -> by congruence.
  all: destruct (Hl x b Hb) as [H0 Hpp]; rewrite Hq in Hpp; destruct Hpp as (d & Hd & Eh).
  all: destruct (anc_ancestor_ref _ y q c Hl Ha Hc) as [_ Hle]; specialize (Hle d Hd).
  1: lia.
  rewrite Hb. cbn [mbind option_bind]. rewrite Hq. cbn [mbind option_bind].
  set (st1 := erase_candidate (update_meta st x (set_flag BLOCK_FAILED_CHILD)) x).
  assert (marks (ancestor (mapBlockIndex st) y) st st1) as M1.
  { assert (ancestor (mapBlockIndex st) y x) as Hyx by (by eapply anc_parent). eapply marks_trans.
    - eapply marks_weaken; [|by apply (update_failed_evolves st x BLOCK_FAILED_CHILD)]. by intros ? <-.
    - eapply marks_weaken; [|apply erase_marks]. by intros ? <-. }
  destruct (IH st1 q d) as (st' & E & M2 & _); [done..|lia|]. exists st'. split_and!; [done|by eapply marks_trans|].
  intros Hx. apply (ev_sub _ _ (mk_evolves _ _ _ M2)) in Hx. revert Hx. unfold st1. cbn. set_solver.
Qed.

End facts.
