(* ===== verification/ChainSelectionFacts.v ===== *)
(** [ActivateBestChain] ends, and the tip is then the best of the valid blocks. *)

From S2P Require Import Prelude ArithUint256 BlockIndex BlockIndexFacts Pow ChainState ChainStateFacts.

(** A block that can become the tip: it is linked, and no block up to it has failed or
    breaks a rule. *)
Definition good {C} (valid : ptr → bool) (st : main_state C) (p : ptr) : Prop :=
  linked_block st p ∧ unfailed st p ∧ ∀ a, ancestor (mapBlockIndex st) a p → valid a = true.

Section selection.
Context {C : Type} `{HB : ChainBackend C} (at_tip : C → ptr → Prop) (valid : ptr → bool) (st0 : main_state C).
Abbreviation h := (mapBlockIndex st0).
Hypothesis Hok : ChainBackendOk (parent_in h) at_tip valid.
Hypothesis H0 : tree_inv st0.
Implicit Types st : main_state C.

(** The invariant of the loop, with the tip [t].  [u] is the best tip so far: the
    candidates that are not worse than it are complete. *)
Record loop_inv st (t : ptr) : Prop := {
  lp_evolves : evolves st0 st;
  lp_tip : tip_inv st t;
  lp_valid a : ancestor h a t → valid a = true;
  lp_coins : at_tip (pcoinsTip st) t;
  lp_good p : good valid st0 p → unfailed st p;
  lp_mark : ∃ u, u ∈ setBlockIndexCandidates st ∧ good valid st0 u ∧
    ∀ p, linked_block st p → unfailed st p → CBlockIndexWorkComparator st p u = false → p ∈ setBlockIndexCandidates st;
}.

Lemma parent_Some p b q : h !! p = Some b → pprev b = Some q → parent_in h p = Some q.
Proof. intros Hp Hq. unfold parent_in. by rewrite Hp. Qed.

Lemma lp_tree st t : loop_inv st t → tree_inv st.
Proof. intros Hi. eapply tree_inv_evolves; [done|apply Hi]. Qed.
Lemma lp_index st t : loop_inv st t → mapBlockIndex st = h.
Proof. intros Hi. apply (ev_index _ _ (lp_evolves _ _ Hi)). Qed.

Lemma good_ancestor a p : good valid st0 p → ancestor h a p → good valid st0 a.
Proof.
  intros (Hl & Hu & Hv) Ha. split_and!; [by eapply linked_ancestor|by eapply unfailed_ancestor|].
  intros x Hx. apply Hv. by eapply ancestor_trans.
Qed.

Lemma tip_good st t : loop_inv st t → good valid st0 t.
Proof.
  intros Hi. destruct (lp_tip _ _ Hi) as [_ Hl Hu]. pose proof (lp_evolves _ _ Hi) as E. split_and!; [|by eapply ev_unfailed|apply Hi].
  by rewrite <-(ev_linked_block _ _ _ E).
Qed.

Lemma in_index st t p : loop_inv st t → is_Some (metas st !! p) ↔ is_Some (h !! p).
Proof. intros Hi. rewrite (inv_dom _ (lp_tree _ _ Hi)). by rewrite (lp_index _ _ Hi). Qed.

(** Marking blocks that are not good, and have failed afterwards, keeps the invariant. *)
Lemma marks_loop_inv (B : ptr → Prop) st st' t : loop_inv st t → marks B st st' →
  (∀ p, good valid st0 p → ¬ B p) → (∀ p, B p → ¬ unfailed st' p) → loop_inv st' t.
Proof.
  intros Hi HM HB1 HB2. pose proof (mk_evolves _ _ _ HM) as E. pose proof (lp_index _ _ Hi) as EI.
  assert (∀ p, good valid st0 p → unfailed st' p) as Hgood.
  { intros p Hp a Ha. rewrite (ev_index _ _ E), EI in Ha. pose proof (good_ancestor a p Hp Ha) as Hga.
    destruct (lp_good _ _ Hi p Hp a) as (m & Hm & Hf); [by rewrite EI|].
    destruct (ev_Some _ _ _ _ E Hm) as (m' & Hm' & _). exists m'. split; [done|].
    rewrite (mk_failed _ _ _ HM a m m'); [done|by apply HB1|done..]. }
  pose proof (tip_good _ _ Hi) as Htg. destruct (lp_tip _ _ Hi) as [Tc Tl Tu]. split.
  - etransitivity; [apply Hi|done].
  - split; [by rewrite (mk_chain _ _ _ HM), (ev_index _ _ E)|by rewrite ev_linked_block|by apply Hgood].
  - apply Hi.
  - rewrite (mk_coins _ _ _ HM). apply Hi.
  - done.
  - destruct (lp_mark _ _ Hi) as (u & Hu & Hug & Hcomp). exists u. split_and!; [by apply (mk_keep _ _ _ HM); auto|done|].
    intros p Hl Hup Hc. apply (mk_keep _ _ _ HM); [|intros HBp; by apply (HB2 p)].
    rewrite (ev_comparator st st') in Hc by done. apply Hcomp; [by rewrite <-(ev_linked_block _ _ _ E)|by eapply ev_unfailed|done].
Qed.

Lemma with_best_invalid_marks B st x : marks B st (with_best_invalid st x).
Proof. split; try done; [by apply evolves_candidates|cbn; intros p m m' _ ? ?; congruence]. Qed.

(** * [FindMostWorkChain] *)

Lemma find_most_work_spec fuel st t : loop_inv st t → (size (setBlockIndexCandidates st) ≤ fuel)%nat →
  ∃ m st', find_most_work st fuel = Some (Some m, st') ∧ loop_inv st' t ∧ evolves st st' ∧ chainActive st' = chainActive st ∧
    m ∈ setBlockIndexCandidates st' ∧ unfailed st' m ∧
    (∀ q, q ∈ setBlockIndexCandidates st' → CBlockIndexWorkComparator st' m q = false) ∧
    ∀ q, q ∈ setBlockIndexCandidates st → unfailed st' q → q ∈ setBlockIndexCandidates st'.
Proof.
  clear Hok. revert st. induction fuel as [|fuel IH]; intros st Hi Hf.
  all: pose proof (lp_tree _ _ Hi) as Ht; destruct (lp_mark _ _ Hi) as (u & Hu & _).
  1: { exfalso. assert (setBlockIndexCandidates st ≡ ∅) as E by (apply size_empty_iff; lia). set_solver. }
  assert (∀ p, p ∈ setBlockIndexCandidates st → is_Some (metas st !! p)) as Hd.
  { intros p Hp. destruct (inv_cand _ Ht p Hp) as (m & Hm & _). by eexists. }
  pose proof (best_candidate_spec st Hd) as Hb. cbn [find_most_work]. destruct (best_candidate st) as [x|]; [|set_solver].
  destruct Hb as [Hx Hmax]. destruct (inv_cand _ Ht x Hx) as (mx & Hmx & Hxl).
  destruct (proj1 (inv_dom _ Ht x) ltac:(by eexists)) as [b Hbx]. rewrite Hbx. cbn [mbind option_bind].
  destruct (test_chain_spec st t (S (Z.to_nat (nHeight b))) x b) as [[-> Hun]|(y & my & -> & Hy & Hmy & Hfy)]; [done|apply Hi|by exists mx|done|lia| |].
  { cbn [mbind option_bind]. exists x, st. by split_and!. }
  cbn [mbind option_bind].
  match goal with |- context [remove_chain ?s _ _ _ _] => set (st1 := s) end.
  assert (marks (ancestor (mapBlockIndex st) y) st st1) as M1 by (unfold st1; case_match; [apply with_best_invalid_marks|apply marks_refl]).
  assert (mapBlockIndex st1 = mapBlockIndex st) as EI by (apply (ev_index _ _ (mk_evolves _ _ _ M1))).
  destruct (proj1 (inv_dom _ Ht y) ltac:(by eexists)) as [c Hcy].
  destruct (remove_chain_spec st1 (S (Z.to_nat (nHeight b))) y x b c) as (st2 & -> & M2 & Hx2); rewrite ?EI; [apply Ht|done..| |].
  { destruct (inv_linked _ Ht y c Hcy). lia. }
  cbn [mbind option_bind]. rewrite EI in M2. pose proof (marks_trans _ _ _ _ M1 M2) as M.
  assert (∀ p, ancestor (mapBlockIndex st) y p → ¬ unfailed st p) as Hbad.
  { intros p Hp Hup. destruct (Hup y Hp) as (m & Hm & Hf'). congruence. }
  destruct (IH st2) as (m & st' & E & Hi' & Ev & Ec & Hm & Hum & Hmm & Hk).
  - eapply (marks_loop_inv _ st); [done..| |].
    + intros p Hp Hyp. by apply (Hbad p Hyp), (lp_good _ _ Hi).
    + intros p Hyp Hup. apply (Hbad p Hyp). by eapply ev_unfailed; [apply M|].
  - assert (setBlockIndexCandidates st2 ⊂ setBlockIndexCandidates st) as Hsub.
    { pose proof (ev_sub _ _ (mk_evolves _ _ _ M)). set_solver. }
    apply subset_size in Hsub. lia.
  - exists m, st'. split_and!; try done; [etransitivity; [apply M|done]|by rewrite Ec, (mk_chain _ _ _ M)|].
    intros q Hq Huq. apply Hk; [|done]. apply (mk_keep _ _ _ M); [done|]. intros Hyq. apply (Hbad q Hyq).
    eapply ev_unfailed; [|done]. by etransitivity; [apply M|].
Qed.

(** * Moving the tip *)

Lemma tip_lookup st t : loop_inv st t → ∃ b, h !! t = Some b ∧ Tip (chainActive st) = Some t.
Proof.
  intros Hi. destruct (lp_tip _ _ Hi) as [Tc (m & Hm & _) _]. destruct (proj1 (in_index st t t Hi) ltac:(by eexists)) as [b Hb].
  exists b. split; [done|]. rewrite Tc, (lp_index _ _ Hi). by apply (Tip_branch h t b); [apply H0|].
Qed.

(** No block is marked and no candidate is removed; the tip becomes [q]. *)
Lemma move_tip st st' t q : loop_inv st t → evolves st st' →
  (∀ p m m', metas st !! p = Some m → metas st' !! p = Some m' → failed m' = failed m) →
  setBlockIndexCandidates st' = setBlockIndexCandidates st → chainActive st' = branch h q → at_tip (pcoinsTip st') q →
  good valid st0 q → loop_inv st' q.
Proof.
  intros Hi E Hf Hc Hch Hat Hq. pose proof (lp_index _ _ Hi) as EI.
  assert (∀ p, unfailed st p → unfailed st' p) as Hun.
  { intros p Hp a Ha. rewrite (ev_index _ _ E) in Ha. destruct (Hp a Ha) as (m & Hm & Hfm).
    destruct (ev_Some _ _ _ _ E Hm) as (m' & Hm' & _). exists m'. split; [done|]. by rewrite (Hf a m m'). }
  assert (evolves st0 st') as E0 by (etransitivity; [apply Hi|done]).
  split; [done| |by destruct Hq as (_ & _ & ?)|done|intros p Hp; by apply Hun, Hi|].
  - split; [by rewrite (ev_index _ _ E), EI|rewrite (ev_linked_block _ _ _ E0); apply Hq|by apply Hun, Hi].
  - destruct (lp_mark _ _ Hi) as (u & Hu & Hug & Hcomp). exists u. rewrite Hc. split_and!; [done..|].
    intros p Hl Hup Hcp. rewrite (ev_comparator st st') in Hcp by done.
    apply Hcomp; [by rewrite <-(ev_linked_block _ _ _ E)|by eapply ev_unfailed|done].
Qed.

Lemma SetTip_tip st t p b : loop_inv st t → h !! p = Some b → SetTip h (chainActive st) (Some p) = branch h p.
Proof.
  intros Hi Hp. destruct (tip_lookup st t Hi) as (bt & Ht & _). apply (SetTip_branch h (inv_linked _ H0) _) with (b := b); [|done].
  right. exists t, bt. split; [done|]. by rewrite (tip_chain _ _ (lp_tip _ _ Hi)), (lp_index _ _ Hi).
Qed.

Lemma DisconnectTip_spec st t b q : loop_inv st t → h !! t = Some b → pprev b = Some q →
  ∃ st', DisconnectTip st = Some (true, st') ∧ loop_inv st' q ∧ metas st' = metas st ∧ setBlockIndexCandidates st' = setBlockIndexCandidates st ∧ evolves st st'.
Proof.
  intros Hi Ht Hq. destruct (tip_lookup st t Hi) as (bt & Ht' & Etip). assert (bt = b) as -> by congruence. unfold DisconnectTip. rewrite Etip. cbn [mbind option_bind].
  destruct (disconnect_ok (pcoinsTip st) t q (parent_Some t b q Ht Hq) (lp_coins _ _ Hi)) as (c' & -> & Hat). rewrite (lp_index _ _ Hi), Ht. cbn [mbind option_bind].
  rewrite Hq. cbn [UpdateTip mbind option_bind]. eexists. split; [done|].
  destruct (inv_linked _ H0 t b Ht) as [_ Hp]. rewrite Hq in Hp. destruct Hp as (bq & Hbq & _).
  match goal with |- loop_inv ?s _ ∧ _ => set (st' := s) end. assert (evolves st st') as E by (by apply evolves_candidates).
  split_and!; [|done..]. eapply (move_tip st st' t q); try done.
  - intros p m m' Hm Hm'. cbn in Hm'. congruence.
  - cbn. rewrite (lp_index _ _ Hi). by eapply SetTip_tip.
  - eapply good_ancestor; [by eapply tip_good|]. eapply anc_parent; [done..|by eapply anc_self].
Qed.

Lemma disconnect_to_spec fuel st t f b c : loop_inv st t → ancestor h f t → h !! t = Some b → h !! f = Some c → nHeight b - nHeight c ≤ Z.of_nat fuel →
  ∃ st', disconnect_to st fuel (Some f) = Some (true, st') ∧ loop_inv st' f ∧ metas st' = metas st ∧ setBlockIndexCandidates st' = setBlockIndexCandidates st ∧ evolves st st'.
Proof.
  revert st t b. induction fuel as [|fuel IH]; intros st t b Hi Hf Hb Hc Hle.
  all: destruct (tip_lookup st t Hi) as (bt & _ & Etip); cbn [disconnect_to]; rewrite Etip;
    destruct (decide (Some f = Some t)) as [[= ->]|Hne]; [by exists st|].
  all: destruct Hf as [|f t b' q Hb' Hq Ha]; [done|]; assert (b' = b) as -> by congruence.
  all: destruct (inv_linked _ H0 t b Hb) as [_ Hpp]; rewrite Hq in Hpp; destruct Hpp as (d & Hd & Eh);
    destruct (anc_ancestor_ref h f q c (inv_linked _ H0) Ha Hc) as [_ Hle']; specialize (Hle' d Hd).
  1: lia.
  destruct (DisconnectTip_spec st t b q Hi Hb Hq) as (st1 & -> & Hi1 & Em1 & Ec1 & E1). cbn [mbind option_bind].
  destruct (IH st1 q d Hi1 Ha Hd Hc) as (st2 & -> & Hi2 & Em2 & Ec2 & E2); [lia|].
  exists st2. split_and!; [done..|congruence|congruence|by etransitivity].
Qed.

(** * Connecting a block *)

Lemma child_good st t p b m : loop_inv st t → h !! p = Some b → pprev b = Some t → linked_block st p → metas st !! p = Some m → failed m = false →
  valid p = true → good valid st0 p.
Proof.
  intros Hi Hb Hp Hl Hm Hf Hv. pose proof (lp_evolves _ _ Hi) as E. destruct (tip_good st t Hi) as (_ & Hu & Hva). split_and!.
  - by rewrite <-(ev_linked_block _ _ _ E).
  - intros a Ha. inversion Ha; simplify_eq; [|by apply Hu]. destruct (ev_Some' _ _ _ _ E Hm) as (m0 & Hm0 & _ & _ & F). exists m0. split; [done|].
    destruct (failed m0); [|done]. by rewrite F in Hf.
  - intros a Ha. inversion Ha; simplify_eq; [done|by apply Hva].
Qed.

Lemma ConnectTip_valid st t p b m chk : loop_inv st t → h !! p = Some b → pprev b = Some t → linked_block st p → metas st !! p = Some m → failed m = false →
  valid p = true →
  ∃ st', ConnectTip st p chk = Some (TipConnected, st') ∧ loop_inv st' p ∧ evolves st st' ∧ setBlockIndexCandidates st' = setBlockIndexCandidates st ∧
    (∀ x y y', metas st !! x = Some y → metas st' !! x = Some y' → failed y' = failed y).
Proof.
  intros Hi Hb Hp Hl Hm Hf Hv. destruct (tip_lookup st t Hi) as (bt & _ & Etip). unfold ConnectTip. rewrite (lp_index _ _ Hi), Hb. cbn [mbind option_bind].
  rewrite Etip, decide_True by done. pose proof (connect_ok (pcoinsTip st) t p chk (parent_Some p b t Hb Hp) (lp_coins _ _ Hi)) as Hc.
  destruct (connect_block _ p chk) as [c'|cp|]; [|destruct Hc as [? _]; congruence|done]. destruct Hc as [_ Hat]. rewrite Hp.
  cbn [UpdateTip mbind option_bind]. eexists. split; [done|]. match goal with |- loop_inv ?s _ ∧ _ => set (st' := s) end.
  assert (∀ x, match metas st !! x, metas st' !! x with
               | Some y, Some y' => key y' = key y ∧ have_data y' = have_data y ∧ failed y' = failed y
               | None, None => True | _, _ => False end) as Hmeta.
  { intros x. cbn. destruct (decide (x = p)) as [->|Hne]; [rewrite lookup_alter_eq|rewrite lookup_alter_ne by done].
    - rewrite Hm. cbn. by destruct (failed_have_undo m) as (? & ? & ?).
    - by destruct (metas st !! x). }
  assert (evolves st st') as E.
  { split; try done; intros x.
    - specialize (Hmeta x). destruct (metas st !! x), (metas st' !! x); try done. destruct Hmeta as (? & ? & ->). done.
    - intros y y' Hy. cbn. destruct (decide (x = p)) as [->|Hne]; [rewrite lookup_alter_eq|rewrite lookup_alter_ne by done]; rewrite Hy; intros [= <-]; [apply validity_have_undo|done]. }
  assert (∀ x y y', metas st !! x = Some y → metas st' !! x = Some y' → failed y' = failed y) as Hfail.
  { intros x y y' E1 E2. specialize (Hmeta x). rewrite E1, E2 in Hmeta. apply Hmeta. }
  split_and!; [|done..]. eapply (move_tip st st' t p); try done; [|by eapply child_good].
  cbn. rewrite (lp_index _ _ Hi). by eapply SetTip_tip.
Qed.

Lemma ConnectTip_invalid st t p b m chk : loop_inv st t → h !! p = Some b → pprev b = Some t → metas st !! p = Some m → valid p = false →
  ∃ st' m', ConnectTip st p chk = Some (TipInvalid false, st') ∧ loop_inv st' t ∧ evolves st st' ∧ metas st' !! p = Some m' ∧ failed m' = true.
Proof.
  intros Hi Hb Hp Hm Hv. destruct (tip_lookup st t Hi) as (bt & _ & Etip). unfold ConnectTip. rewrite (lp_index _ _ Hi), Hb. cbn [mbind option_bind].
  rewrite Etip, decide_True by done. pose proof (connect_ok (pcoinsTip st) t p chk (parent_Some p b t Hb Hp) (lp_coins _ _ Hi)) as Hc.
  destruct (connect_block _ p chk) as [c'|cp|]; [destruct Hc as [? _]; congruence| |done]. destruct Hc as [_ ->].
  unfold InvalidChainFound. cbn [chainActive erase_candidate update_meta with_candidates]. rewrite Etip. cbn [mbind option_bind].
  match goal with |- context [Some (TipInvalid false, ?s)] => set (st' := s) end.
  destruct (set_failed BLOCK_FAILED_VALID m) as (Hf & _); [done..|].
  assert (marks (p =.) st st') as M.
  { eapply marks_trans; [by apply (update_failed_evolves st p BLOCK_FAILED_VALID)|]. eapply marks_trans; [apply erase_marks|].
    unfold st'. case_match; [apply with_best_invalid_marks|apply marks_refl]. }
  assert (metas st' !! p = Some (set_flag BLOCK_FAILED_VALID m)) as Hm'.
  { unfold st'. case_match; cbn; by rewrite lookup_alter_eq, Hm. }
  exists st', (set_flag BLOCK_FAILED_VALID m). split_and!; [done| |apply M|done|done].
  eapply (marks_loop_inv _ st); [done..| |].
  - intros x (_ & _ & Hx) <-. rewrite Hx in Hv; [done|by eapply anc_self].
  - intros x <- Hu. destruct (Hu p) as (m2 & Hm2 & Hf2); [|congruence]. rewrite (ev_index _ _ (mk_evolves _ _ _ M)), (lp_index _ _ Hi). by eapply anc_self.
Qed.

Lemma Prune_spec st t : loop_inv st t →
  ∃ st', PruneBlockIndexCandidates st = Some st' ∧ loop_inv st' t ∧ evolves st st' ∧ metas st' = metas st ∧ chainActive st' = chainActive st.
Proof.
  intros Hi. destruct (tip_lookup st t Hi) as (bt & Hbt & Etip). unfold PruneBlockIndexCandidates. rewrite Etip. cbn [mbind option_bind].
  destruct (lp_mark _ _ Hi) as (u & Hu & Hug & Hcomp). set (S := filter _ (setBlockIndexCandidates st)).
  pose proof (tip_good st t Hi) as Htg. destruct (lp_tip _ _ Hi) as [Tc Tl Tu].
  assert (∃ w, w ∈ S ∧ good valid st0 w ∧ CBlockIndexWorkComparator st w u = false ∧ CBlockIndexWorkComparator st w t = false) as (w & HwS & Hwg & Hwu & Hwt).
  { destruct (CBlockIndexWorkComparator st t u) eqn:E.
    - assert (CBlockIndexWorkComparator st u t = false) as Eut.
      { destruct (CBlockIndexWorkComparator st u t) eqn:E2; [|done]. pose proof (comparator_trans _ _ _ _ E E2) as E3. by rewrite comparator_irrefl in E3. }
      exists u. split_and!; [by apply elem_of_filter|done|apply comparator_irrefl|done].
    - exists t. split_and!; [|done..|apply comparator_irrefl]. apply elem_of_filter. split; [apply comparator_irrefl|by apply Hcomp]. }
  rewrite decide_False by set_solver. set (st' := with_candidates st S). exists st'. split; [done|].
  assert (evolves st st') as E.
  { apply evolves_candidates; [done..|]. cbn. intros p. by intros [_ ?]%elem_of_filter. }
  split_and!; [|done..]. split; [etransitivity; [apply Hi|done]|by split|apply Hi..|].
  exists w. split_and!; [done..|]. intros p Hl Hup Hpw. change (CBlockIndexWorkComparator st p w = false) in Hpw.
  assert (is_Some (metas st !! w) ∧ is_Some (metas st !! u) ∧ is_Some (metas st !! t) ∧ is_Some (metas st !! p)) as (Iw & Iu & It & Ip).
  { split_and!; [|by destruct (inv_cand _ (lp_tree _ _ Hi) u Hu) as (? & ? & _)|by destruct Tl as (? & ? & _)|by destruct Hl as (? & ? & _)].
    apply elem_of_filter in HwS as [_ HwS]. by destruct (inv_cand _ (lp_tree _ _ Hi) w HwS) as (? & ? & _). }
  apply elem_of_filter. split; [by apply (comparator_false_trans st p w t)|]. apply Hcomp; [done..|]. by apply (comparator_false_trans st p w u).
Qed.

(** * The blocks to connect *)

(** Each block of [l] is a child of the one before it, the first one of [t]. *)
Fixpoint climbs (t : ptr) (l : list ptr) : Prop :=
  match l with [] => True | p :: l => (∃ b, h !! p = Some b ∧ pprev b = Some t) ∧ climbs p l end.

Lemma climbs_snoc t l p b : climbs t l → h !! p = Some b → pprev b = Some (default t (last l)) → climbs t (l ++ [p]).
Proof.
  revert t. induction l as [|x l IH]; intros t Hc Hp Hq; [by split; [exists b|]|]. destruct Hc as [Hx Hc]. split; [done|].
  apply IH; [done..|]. by rewrite last_cons in Hq; destruct (last l).
Qed.

Lemma to_connect_climbs n t x bt bx : h !! t = Some bt → h !! x = Some bx → ancestor h t x → nHeight bx = nHeight bt + Z.of_nat n →
  climbs t (rev (to_connect h n (Some x) (nHeight bt))) ∧ default t (last (rev (to_connect h n (Some x) (nHeight bt)))) = x ∧
  ∀ p, p ∈ rev (to_connect h n (Some x) (nHeight bt)) → ancestor h p x.
Proof.
  intros Ht. revert x bx. induction n as [|n IH]; intros x bx Hx Ha Hh; cbn [to_connect]; rewrite Hx.
  - replace (nHeight bx =? nHeight bt) with true by lia. split_and!; [done| |by intros ? ?%elem_of_nil].
    symmetry. eapply (ancestor_height_eq h x t x bx bt); [apply H0|by eapply anc_self|done..|lia].
  - replace (nHeight bx =? nHeight bt) with false by lia. destruct Ha as [|t x b' q Hb' Hq Ha]; [simplify_eq; lia|].
    assert (b' = bx) as -> by congruence. rewrite Hq. destruct (inv_linked _ H0 x bx Hx) as [_ Hpp]. rewrite Hq in Hpp. destruct Hpp as (bq & Hbq & Eh).
    destruct (IH q bq Hbq Ha) as (Hc & Hl & Hall); [lia|]. cbn [rev]. split_and!.
    + eapply climbs_snoc; [done..|]. by rewrite Hl.
    + by rewrite last_snoc.
    + intros p [Hp| ->%list_elem_of_singleton]%elem_of_app; [|by eapply anc_self]. eapply anc_parent; [done..|]. by apply Hall.
Qed.

(** Blocks that have not failed, and blocks with more work than [t]. *)
Definition alive st : gset ptr := dom (filter (λ '(p, m), failed m = false) (metas st)).
Definition better (t : ptr) : gset ptr := dom (filter (λ '(p, m), tip_work_less st0 t p = true) (metas st0)).

Lemma elem_of_alive st p : p ∈ alive st ↔ ∃ m, metas st !! p = Some m ∧ failed m = false.
Proof. unfold alive. rewrite elem_of_dom. unfold is_Some. setoid_rewrite map_lookup_filter_Some. done. Qed.

Lemma ev_alive st st' : evolves st st' → alive st' ⊆ alive st.
Proof.
  intros E p. rewrite !elem_of_alive. intros (m' & Hm' & Hf). destruct (ev_Some' _ _ _ _ E Hm') as (m & Hm & _ & _ & F).
  exists m. split; [done|]. destruct (failed m); [|done]. by rewrite F in Hf.
Qed.

Lemma ev_work_less st p q : evolves st0 st → tip_work_less st p q = tip_work_less st0 p q.
Proof.
  intros E. unfold tip_work_less. pose proof (ev_meta _ _ E p) as Mp. pose proof (ev_meta _ _ E q) as Mq.
  destruct (metas st0 !! p), (metas st !! p); try done. destruct (metas st0 !! q), (metas st !! q); try done.
  destruct Mp as [Kp _], Mq as [Kq _]. unfold key in *. by injection Kp as -> _ _ _; injection Kq as -> _ _ _.
Qed.

(** Progress of a round that started with tip [o] in state [st]. *)
Definition progress st (o : ptr) st' (t' : ptr) : Prop :=
  alive st' ⊂ alive st ∨ tip_work_less st0 o t' = true.

Lemma connect_list_spec mw o chk back l : ∀ st t, loop_inv st t → climbs t l → (∀ p, p ∈ l → ancestor h p mw) → linked_block st mw → unfailed st mw →
  ∃ flow st', connect_list st mw (Some o) chk back l = Some (flow, st') ∧ evolves st st' ∧
    match flow with
    | Continue => loop_inv st' (default t (last l)) ∧ unfailed st' mw
    | Stop => ∃ t', loop_inv st' t' ∧ progress st o st' t'
    | Error => False
    end.
Proof.
  induction l as [|p l IH]; intros st t Hi Hc Hanc Hl Hu; cbn [connect_list].
  { exists Continue, st. by split_and!. }
  destruct Hc as [(b & Hb & Hp) Hc]. pose proof (lp_index _ _ Hi) as EI.
  assert (ancestor h p mw) as Hpm by (apply Hanc; by left). destruct (Hu p) as (m & Hm & Hf); [by rewrite EI|].
  assert (linked_block st p) as Hlp by (eapply linked_ancestor; [by eapply lp_tree|by rewrite EI|done]).
  destruct (valid p) eqn:Hv.
  - destruct (ConnectTip_valid st t p b m (bool_decide (p = mw) && chk)) as (st1 & -> & Hi1 & E1 & Ec1 & Hf1); [done..|]. cbn [mbind option_bind].
    destruct (Prune_spec st1 p Hi1) as (st2 & -> & Hi2 & E2 & Em2 & Ech2). cbn [mbind option_bind].
    destruct (tip_lookup st2 p Hi2) as (bp & _ & ->). cbn [mbind option_bind]. assert (evolves st st2) as E12 by (by etransitivity).
    rewrite (ev_work_less st2) by apply Hi2. destruct (tip_work_less st0 o p) eqn:Ew.
    + exists Stop, st2. split_and!; [done..|]. exists p. split; [done|by right].
    + destruct (IH st2 p) as (flow & st' & -> & E' & Hfl); [done..|intros x Hx; apply Hanc; by right|by rewrite (ev_linked_block _ _ _ E12)| |].
      { intros a Ha. rewrite (ev_index _ _ E12) in Ha. destruct (Hu a Ha) as (ma & Hma & Hfa). destruct (ev_Some _ _ _ _ E1 Hma) as (m' & Hm' & _).
        exists m'. rewrite Em2. split; [done|]. by rewrite (Hf1 a ma m'). }
      exists flow, st'. split_and!; [done|by etransitivity|]. destruct flow; [|destruct Hfl as (t' & Hi' & [Hs|Hs]); exists t'; (split; [done|])|done].
      * rewrite last_cons. by destruct (last l).
      * left. pose proof (ev_alive _ _ E12). set_solver.
      * by right.
  - destruct (ConnectTip_invalid st t p b m (bool_decide (p = mw) && chk)) as (st1 & m1 & -> & Hi1 & E1 & Hm1 & Hf1); [done..|]. cbn [mbind option_bind].
    unfold InvalidChainFound. destruct (tip_lookup st1 t Hi1) as (bt & _ & ->). cbn [mbind option_bind].
    match goal with |- context [Some (Stop, ?s)] => set (st2 := s) end.
    assert (marks (λ _, False) st1 st2) as M by (unfold st2; case_match; [apply with_best_invalid_marks|apply marks_refl]).
    assert (evolves st st2) as E12 by (etransitivity; [done|apply M]).
    exists Stop, st2. split_and!; [done..|]. exists t. split; [by apply (marks_loop_inv (λ _, False) st1 st2 t Hi1 M); [intros ? _ ?|]|]. left. split; [by apply ev_alive|].
    intros Hs. assert (p ∈ alive st2) as Hps by (apply Hs, elem_of_alive; by exists m). apply ev_alive with (st := st1) in Hps; [|apply M].
    apply elem_of_alive in Hps as (? & ? & ?). congruence.
Qed.

Lemma connect_loop_spec mw bm o chk fuel : h !! mw = Some bm → ∀ st t bt, loop_inv st t → h !! t = Some bt → ancestor h t mw → linked_block st mw →
  unfailed st mw → nHeight bm - nHeight bt ≤ Z.of_nat fuel →
  ∃ st' t', connect_loop st fuel mw (nHeight bm) (Some o) chk (nHeight bt) = Some (true, st') ∧ evolves st st' ∧ loop_inv st' t' ∧
    (t' = mw ∨ progress st o st' t').
Proof.
  intros Hm. induction fuel as [|fuel IH]; intros st t bt Hi Ht Ha Hl Hu Hf.
  all: destruct (anc_ancestor_ref h t mw bt (inv_linked _ H0) Ha Ht) as [Eref Hle]; specialize (Hle bm Hm).
  all: cbn [connect_loop]; destruct (Z.eqb_spec (nHeight bt) (nHeight bm)) as [E|E]; [exists st, t; split_and!; [done..|left];
    eapply (ancestor_height_eq h t mw mw bt bm); [apply H0|done|by eapply anc_self|done..]|].
  1: lia.
  set (target := Z.min (nHeight bt + 32) (nHeight bm)). pose proof (lp_index _ _ Hi) as EI. rewrite EI.
  rewrite (GetAncestor_ref h mw target) by (apply H0). destruct (ancestor_ref_Some h mw bm target (inv_linked _ H0) Hm) as (x & bx & Ex & Hx & Hhx).
  { destruct (inv_linked _ H0 t bt Ht). lia. }
  rewrite Ex. assert (ancestor h t x) as Hax.
  { apply (ancestor_ref_anc h x (nHeight bt)); [apply H0|]. rewrite <-Eref. eapply (ancestor_ref_trans h mw bm x target); [apply H0|done..|lia]. }
  destruct (to_connect_climbs (Z.to_nat (target - nHeight bt)) t x bt bx Ht Hx Hax) as (Hc & Hlast & Hall); [lia|].
  set (l := to_connect _ _ _ _) in *. assert (ancestor h x mw) as Hxm by (by eapply ancestor_ref_anc; [apply H0|]).
  destruct (connect_list_spec mw o chk (List.last l 0%nat) (rev l) st t Hi Hc) as (flow & st1 & -> & E1 & Hfl); [|done..|].
  { intros p Hp. eapply ancestor_trans; [by apply Hall|done]. }
  cbn [mbind option_bind]. destruct flow as [| |]; [| |done].
  - rewrite Hlast in Hfl. destruct Hfl as [Hi1 Hu1]. destruct (IH st1 x bx) as (st' & t' & E2 & Ev2 & Hi2 & Hd); [done..|by rewrite (ev_linked_block _ _ _ E1)|done|lia|].
    rewrite Hhx in E2. exists st', t'. split_and!; [done|by etransitivity|done|]. destruct Hd as [->|[Hs|Hs]]; [by left|right; left|by right; right].
    pose proof (ev_alive _ _ E1). set_solver.
  - destruct Hfl as (t' & Hi' & Hp). exists st1, t'. by split_and!; [..|right].
Qed.

Lemma step_spec st t mw chk : loop_inv st t → linked_block st mw → unfailed st mw →
  ∃ st' t', ActivateBestChainStep st mw chk = Some (true, st') ∧ evolves st st' ∧ loop_inv st' t' ∧ (t' = mw ∨ progress st t st' t').
Proof.
  intros Hi Hl Hu. unfold ActivateBestChainStep. destruct (tip_lookup st t Hi) as (bt & Ht & ->). rewrite (lp_index _ _ Hi).
  destruct Hl as (m & Hm & Hx). destruct (proj1 (in_index st t mw Hi) ltac:(by eexists)) as [bm Hbm]. pose proof (inv_linked _ H0) as Hlk.
  destruct (FindFork_last_common h Hlk (inv_skips _ H0) mw t bm bt Hbm Ht) as (f & k & Ef & Hf1 & Hf2 & _).
  { destruct (Hlk mw bm Hbm) as [Hb0 _], (Hlk t bt Ht) as [Ht0 _].
    destruct (ancestor_ref_Some h mw bm 0 Hlk Hbm) as (g1 & b1 & E1 & Hg1 & Hh1); [lia|].
    destruct (ancestor_ref_Some h t bt 0 Hlk Ht) as (g2 & b2 & E2 & Hg2 & Hh2); [lia|]. rewrite E1, E2. f_equal.
    assert (∀ g b, h !! g = Some b → nHeight b = 0 → pprev b = None) as Hroot.
    { intros g b Hg Hh. destruct (Hlk g b Hg) as [_ Hpp]. destruct (pprev b) as [q|]; [|done]. destruct Hpp as (c & Hc & Ec). destruct (Hlk q c Hc). lia. }
    eapply (inv_root _ H0); eauto. }
  rewrite (tip_chain _ _ (lp_tip _ _ Hi)), (lp_index _ _ Hi), Ef. pose proof (ancestor_ref_anc h t k f Hlk Hf2) as Haf.
  destruct (proj1 (ancestor_in h f t Haf)) as [bf Hbf]. rewrite (length_branch h t bt) by done.
  destruct (disconnect_to_spec (Z.to_nat (nHeight bt + 1)) st t f bt bf Hi Haf Ht Hbf) as (st1 & -> & Hi1 & Em1 & Ec1 & E1).
  { destruct (Hlk f bf Hbf). lia. }
  cbn [mbind option_bind negb]. rewrite (lp_index _ _ Hi1), Hbm. cbn [mbind option_bind]. rewrite Hbf. cbn [fmap option_fmap option_map mbind option_bind].
  destruct (connect_loop_spec mw bm t chk (Z.to_nat (nHeight bm + 1)) Hbm st1 f bf) as (st' & t' & -> & E2 & Hi2 & Hd); [done..| | | | |].
  - by apply (ancestor_ref_anc h mw k).
  - rewrite (ev_linked_block _ _ _ E1). by exists m.
  - intros a. rewrite Em1, (ev_index _ _ E1). apply Hu.
  - destruct (Hlk f bf Hbf). lia.
  - exists st', t'. split_and!; [done|by etransitivity|done|]. destruct Hd as [->|[Hs|Hs]]; [by left|right; left|by right; right].
    pose proof (ev_alive _ _ E1). set_solver.
Qed.

(** * The loop of [ActivateBestChain] *)

Lemma better_shrinks o t : linked_block st0 t → tip_work_less st0 o t = true → better t ⊂ better o.
Proof.
  intros (mt & Hmt & _) Hw. assert (∀ x p, p ∈ better x ↔ ∃ m, metas st0 !! p = Some m ∧ tip_work_less st0 x p = true) as Hin.
  { intros x p. unfold better. rewrite elem_of_dom. unfold is_Some. by setoid_rewrite map_lookup_filter_Some. }
  split.
  - intros p. rewrite !Hin. intros (m & Hm & Hp). exists m. split; [done|]. revert Hp Hw. unfold tip_work_less. rewrite Hm, Hmt.
    destruct (metas st0 !! o); [lia|done].
  - intros Hs. assert (t ∈ better t) as Ht by (apply Hs, Hin; by exists mt). apply Hin in Ht as (m & Hm & Hp).
    revert Hp. unfold tip_work_less. rewrite Hm. lia.
Qed.

Lemma better_size t : (size (better t) ≤ size (metas st0))%nat.
Proof. rewrite <-size_dom. apply subseteq_size. apply dom_filter_subseteq. Qed.

Abbreviation measure st t := (size (alive st) * (size (metas st0) + 1) + size (better t))%nat.

Lemma progress_measure st t st' t' : loop_inv st' t' → evolves st st' → progress st t st' t' → (measure st' t' < measure st t)%nat.
Proof.
  intros Hi E [Hs|Hw].
  - apply subset_size in Hs. pose proof (better_size t'). nia.
  - pose proof (ev_alive _ _ E) as Hs%subseteq_size. assert (linked_block st0 t') as Hl by apply (tip_good st' t' Hi).
    pose proof (better_shrinks t t' Hl Hw) as Hb%subset_size. nia.
Qed.

Lemma activate_spec fuel pblock chk : ∀ st t, loop_inv st t → (measure st t ≤ fuel)%nat →
  ∃ st' t', activate st fuel pblock chk = Some (true, st') ∧ loop_inv st' t' ∧
    ∀ q, q ∈ setBlockIndexCandidates st' → CBlockIndexWorkComparator st' t' q = false.
Proof.
  induction fuel as [|fuel IH]; intros st t Hi Hf.
  all: cbn [activate]; unfold activate_round, FindMostWorkChain;
    destruct (find_most_work_spec _ st t Hi (le_n _)) as (m & st1 & -> & Hi1 & E1 & _ & Hm & Hum & Hmax & _); cbn [mbind option_bind].
  all: destruct (tip_lookup st1 t Hi1) as (bt & _ & ->); destruct (decide (Some t = Some m)) as [[= ->]|Hne]; [by exists st1, m|].
  all: pose proof (inv_cand _ (lp_tree _ _ Hi1) m Hm) as Hlm;
    destruct (step_spec st1 t m (bool_decide (pblock = Some m) && chk) Hi1 Hlm Hum) as (st2 & t2 & -> & E2 & Hi2 & Hd); cbn [mbind option_bind negb].
  all: destruct (tip_lookup st2 t2 Hi2) as (bt2 & _ & ->); destruct (decide (Some t2 = Some m)) as [[= ->]|Hne2];
    [exists st2, m; split_and!; [done..|]; intros q Hq; rewrite (ev_comparator st1 st2) by done; by apply Hmax, (ev_sub _ _ E2)|].
  all: destruct Hd as [->|Hp]; [done|]; pose proof (progress_measure st1 t st2 t2 Hi2 E2 Hp) as Hlt.
  all: pose proof (ev_alive _ _ E1) as Hs%subseteq_size; assert (measure st1 t ≤ measure st t)%nat as Hle by nia.
  1: lia.
  apply (IH st2 t2 Hi2). lia.
Qed.

End selection.

(** * Properties *)

Section properties.
Context {C : Type}.
Implicit Types st : main_state C.

Lemma chain_inv_loop (at_tip : C → ptr → Prop) valid st t : tree_inv st → tip_inv st t → t ∈ setBlockIndexCandidates st →
  (∀ p, linked_block st p → unfailed st p → CBlockIndexWorkComparator st p t = false → p ∈ setBlockIndexCandidates st) →
  at_tip (pcoinsTip st) t → (∀ a, ancestor (mapBlockIndex st) a t → valid a = true) → loop_inv at_tip valid st st t.
Proof.
  intros Hi Ht Htc Hcomp Hat Hv. split; try done; [by intros p (_ & ? & _)|].
  exists t. split; [done|]. split; [|done]. by split_and!; [apply Ht..|].
Qed.

(** The candidates are complete again when the tip is a best candidate. *)
Lemma loop_chain_inv at_tip valid st0 st t : tree_inv st0 → loop_inv at_tip valid st0 st t → (∀ q, q ∈ setBlockIndexCandidates st → CBlockIndexWorkComparator st t q = false) →
  chain_inv st ∧ ∀ p, linked_block st p → unfailed st p → CBlockIndexWorkComparator st t p = false.
Proof.
  intros H0 Hi Hmax. pose proof (lp_tree _ _ _ H0 _ _ Hi) as Ht. destruct (lp_mark _ _ _ _ _ Hi) as (u & Hu & _ & Hcomp).
  assert (is_Some (metas st !! u)) as Iu by (by destruct (inv_cand _ Ht u Hu) as (? & ? & _)).
  pose proof (lp_tip _ _ _ _ _ Hi) as Htip. assert (is_Some (metas st !! t)) as It by (by destruct (tip_linked _ _ Htip) as (? & ? & _)).
  assert (∀ p, linked_block st p → unfailed st p → CBlockIndexWorkComparator st p t = false → p ∈ setBlockIndexCandidates st) as Hc.
  { intros p Hl Hup Hpt. apply Hcomp; [done..|]. apply (comparator_false_trans st p t u); [by destruct Hl as (? & ? & _)|done..|by apply Hmax]. }
  split.
  - split; [done|]. exists t. split_and!; [done| |done]. apply Hc; [apply Htip..|apply comparator_irrefl].
  - intros p Hl Hup. destruct (CBlockIndexWorkComparator st p t) eqn:E; [|by apply Hmax, Hc].
    destruct (CBlockIndexWorkComparator st t p) eqn:E2; [|done]. pose proof (comparator_trans _ _ _ _ E E2) as E3. by rewrite comparator_irrefl in E3.
Qed.

(** The tip of a state that satisfies the invariant. *)
Lemma chain_inv_tip st t : tree_inv st → tip_inv st t → Tip (chainActive st) = Some t.
Proof.
  intros Hi Htip. destruct (tip_linked _ _ Htip) as (m & Hm & _). destruct (proj1 (inv_dom _ Hi t) ltac:(by eexists)) as [b Hbt].
  rewrite (tip_chain _ _ Htip). by eapply Tip_branch; [apply Hi|].
Qed.

Lemma activate_best `{HB : ChainBackend C} at_tip valid st pblock fAlreadyChecked :
  ChainBackendOk (parent_in (mapBlockIndex st)) at_tip valid → chain_inv st →
  (∀ t, Tip (chainActive st) = Some t → at_tip (pcoinsTip st) t ∧ ∀ a, ancestor (mapBlockIndex st) a t → valid a = true) →
  ∃ st' t, ActivateBestChain st pblock fAlreadyChecked = Some (true, st') ∧ evolves st st' ∧ chain_inv st' ∧ Tip (chainActive st') = Some t ∧
    at_tip (pcoinsTip st') t ∧ good valid st t ∧ ∀ p, good valid st p → CBlockIndexWorkComparator st t p = false.
Proof.
  intros Hok (Hi & t & Htip & Htc & Hcomp) Hb. pose proof (chain_inv_tip st t Hi Htip) as Et.
  destruct (Hb t Et) as [Hat Hv]. pose proof (chain_inv_loop at_tip valid st t Hi Htip Htc Hcomp Hat Hv) as Hl.
  destruct (activate_spec at_tip valid st Hok Hi ((size (metas st) + 1) * (size (metas st) + 1)) pblock fAlreadyChecked st t Hl) as (st' & t' & E & Hl' & Hmax).
  { pose proof (better_size st t). assert (size (alive st) ≤ size (metas st))%nat; [|nia]. rewrite <-size_dom. apply subseteq_size, dom_filter_subseteq. }
  destruct (loop_chain_inv at_tip valid st st' t' Hi Hl' Hmax) as [Hinv Hbest]. pose proof (lp_evolves _ _ _ _ _ Hl') as Ev.
  exists st', t'. split_and!; [done..| |apply Hl'|by eapply tip_good|].
  - by destruct (tip_lookup _ _ _ Hi _ _ Hl') as (b & _ & ?).
  - intros p Hp. rewrite <-(ev_comparator st st') by done. apply Hbest; [|by apply Hl']. rewrite (ev_linked_block _ _ _ Ev). apply Hp.
Qed.

(** ** A stored block that is corrupt *)

(** Looking for the best chain again finds the same one. *)
Lemma find_most_work_again fuel : ∀ st m st', find_most_work st fuel = Some (Some m, st') → ∀ fuel', find_most_work st' fuel' = Some (Some m, st').
Proof.
  assert (∀ st m b, best_candidate st = Some m → mapBlockIndex st !! m = Some b → test_chain st (S (Z.to_nat (nHeight b))) (Some m) = Some None →
    ∀ fuel', find_most_work st fuel' = Some (Some m, st)) as Hfix.
  { intros st m b Hb Hm Ht fuel'. destruct fuel'; cbn [find_most_work]; rewrite Hb, Hm; cbn [mbind option_bind]; by rewrite Ht. }
  induction fuel as [|fuel IH]; intros st m st'; cbn [find_most_work]; (destruct (best_candidate st) as [q|] eqn:Eb; [|done]);
    (destruct (mapBlockIndex st !! q) as [b|] eqn:Eq; [|done]); cbn [mbind option_bind]; (destruct (test_chain _ _ _) as [[[x f]|]|] eqn:Et; [|intros [= <- <-]; by eapply Hfix|done]);
    cbn [mbind option_bind]; (destruct (remove_chain _ _ _ _ _) as [st1|]; [|done]); cbn [mbind option_bind]; [done|apply IH].
Qed.

(** It leaves the coins alone. *)
Lemma remove_chain_coins f x : ∀ fuel st q st', remove_chain st fuel f x q = Some st' → pcoinsTip st' = pcoinsTip st.
Proof.
  induction fuel as [|fuel IH]; intros st q st'; cbn [remove_chain]; (case_decide; [by intros [= <-]|]); [done|].
  destruct (mapBlockIndex st !! q) as [b|]; [|done]. cbn [mbind option_bind]. destruct (pprev b) as [r|]; [|done]. cbn [mbind option_bind].
  intros E. rewrite (IH _ _ _ E). by destruct f.
Qed.
Lemma find_most_work_coins fuel : ∀ st r st', find_most_work st fuel = Some (r, st') → pcoinsTip st' = pcoinsTip st.
Proof.
  induction fuel as [|fuel IH]; intros st r st'; cbn [find_most_work]; (destruct (best_candidate st) as [q|]; [|by intros [= _ <-]]);
    (destruct (mapBlockIndex st !! q) as [b|]; [|done]); cbn [mbind option_bind]; (destruct (test_chain _ _ _) as [[[x f]|]|]; [|by intros [= _ <-]|done]);
    cbn [mbind option_bind]; (destruct (remove_chain _ _ _ _ _) as [st1|] eqn:E; [|done]); cbn [mbind option_bind]; [done|].
  intros E'. rewrite (IH _ _ _ E'), (remove_chain_coins _ _ _ _ _ _ E). by destruct (f && _).
Qed.

Lemma FindFork_tip st t m bt : tree_inv st → mapBlockIndex st !! t = Some bt → ancestor (mapBlockIndex st) t m → chainActive st = branch (mapBlockIndex st) t →
  FindFork (mapBlockIndex st) (chainActive st) m = Some t.
Proof.
  intros Hi Hbt Ha ->. pose proof (inv_linked _ Hi) as Hl. destruct (ancestor_in _ _ _ Ha) as [_ [bm Hbm]]. destruct (Hl t bt Hbt) as [H0 _].
  destruct (anc_ancestor_ref _ t m bt Hl Ha Hbt) as [Eref Hle]. specialize (Hle bm Hbm).
  destruct (FindFork_last_common (mapBlockIndex st) Hl (inv_skips _ Hi) m t bm bt Hbm Hbt) as (f & k & -> & Hf1 & Hf2 & Hmax).
  { destruct (ancestor_ref_Some _ m bm 0 Hl Hbm) as (g1 & b1 & E1 & Hg1 & Hh1); [lia|]. destruct (ancestor_ref_Some _ t bt 0 Hl Hbt) as (g2 & b2 & E2 & Hg2 & Hh2); [lia|].
    rewrite E1, E2. f_equal. apply (ancestor_height_eq (mapBlockIndex st) g1 g2 m b1 b2 Hl); [by eapply ancestor_ref_anc| |done|done|lia].
    eapply ancestor_trans; [by eapply ancestor_ref_anc|done]. }
  destruct (ancestor_ref_height _ t bt k f Hl Hbt Hf2) as [Hk (d & Hd & Hhd)]. f_equal.
  destruct (decide (k = nHeight bt)) as [->|Hne]; [rewrite Eref in Hf1; congruence|].
  exfalso. apply (Hmax (nHeight bt) t); [lia|done|by apply ancestor_ref_self].
Qed.

(** The first block to connect is corrupt: the step returns true and changes nothing. *)
Lemma corrupt_step `{HB : ChainBackend C} st t m c bt bc chk : tree_inv st → chainActive st = branch (mapBlockIndex st) t → mapBlockIndex st !! t = Some bt →
  mapBlockIndex st !! c = Some bc → pprev bc = Some t → ancestor (mapBlockIndex st) c m → (∀ k, connect_block (pcoinsTip st) c k = ConnectInvalid true) →
  ActivateBestChainStep st m chk = Some (true, st).
Proof.
  intros Hi Hch Hbt Hbc Hpc Hcm Hcor. pose proof (inv_linked _ Hi) as Hl. assert (ancestor (mapBlockIndex st) t m) as Ha.
  { eapply ancestor_trans; [|done]. eapply anc_parent; [done..|by eapply anc_self]. }
  assert (Tip (chainActive st) = Some t) as Et by (rewrite Hch; by eapply Tip_branch).
  destruct (Hl c bc Hbc) as [_ Hh]. rewrite Hpc in Hh. destruct Hh as (d & Hd & Hh). assert (d = bt) as -> by congruence.
  destruct (ancestor_in _ _ _ Ha) as [_ [bm Hbm]]. destruct (anc_ancestor_ref _ c m bc Hl Hcm Hbc) as [_ Hle]. specialize (Hle bm Hbm).
  destruct (anc_ancestor_ref _ t m bt Hl Ha Hbt) as [Eref _]. destruct (Hl t bt Hbt) as [H0 _].
  unfold ActivateBestChainStep. rewrite (FindFork_tip st t m bt), Et by done.
  assert (disconnect_to st (length (chainActive st)) (Some t) = Some (true, st)) as ->.
  { destruct (length _); cbn [disconnect_to]; by rewrite Et, decide_True. }
  cbn [mbind option_bind negb]. rewrite Hbm. cbn [mbind option_bind]. rewrite Hbt. cbn [fmap option_fmap option_map mbind option_bind].
  destruct (Z.to_nat (nHeight bm + 1)) as [|fuel] eqn:Ef; [lia|]. cbn [connect_loop]. replace (nHeight bt =? nHeight bm) with false by lia.
  set (target := Z.min (nHeight bt + 32) (nHeight bm)). rewrite (GetAncestor_ref _ m target) by apply Hi.
  destruct (ancestor_ref_Some _ m bm target Hl Hbm) as (x & bx & Ex & Hx & Hhx); [lia|]. rewrite Ex.
  assert (ancestor (mapBlockIndex st) t x) as Hax.
  { apply (ancestor_ref_anc _ x (nHeight bt)); [done|]. rewrite <-Eref. eapply (ancestor_ref_trans _ m bm x target); [done..|lia]. }
  destruct (to_connect_climbs st Hi (Z.to_nat (target - nHeight bt)) t x bt bx Hbt Hx Hax) as (Hc & Hlast & Hall); [lia|].
  set (l := to_connect _ _ _ _) in *. destruct (rev l) as [|c' l'] eqn:Er.
  { cbn in Hlast. subst x. assert (bx = bt) as -> by congruence. lia. }
  destruct Hc as [(b' & Hb' & Hp') _]. assert (c' = c) as ->.
  { destruct (Hl c' b' Hb') as [_ Hh']. rewrite Hp' in Hh'. destruct Hh' as (d & Hd' & Hh'). assert (d = bt) as -> by congruence.
    apply (ancestor_height_eq (mapBlockIndex st) c' c m b' bc Hl); [|done..|lia]. eapply ancestor_trans; [apply Hall; left|by eapply ancestor_ref_anc]. }
  cbn [connect_list]. unfold ConnectTip. rewrite Hbc. cbn [mbind option_bind]. rewrite decide_True by congruence. by rewrite Hcor.
Qed.

End properties.
