(* ===== verification/ChainReachFacts.v ===== *)
(** The states of the block index that headers, blocks, activations and invalidations
    lead to: in each of them the invariant of ChainStateFacts.v holds and the next
    operation succeeds. *)

From S2P Require Import Prelude ArithUint256 ChainParams BlockIndex BlockIndexFacts Pow PowFacts Interpreter InterpreterFacts StakeModifier StakeModifierFacts ChainState ChainStateFacts ChainSelectionFacts.

(** ** Trees that contain another one *)

Definition tree_fields (b : CBlockIndex) : option ptr * option ptr * Z := (pprev b, pskip b, nHeight b).
Definition sub_tree (h h' : store) : Prop :=
  ∀ x b, h !! x = Some b → ∃ b', h' !! x = Some b' ∧ tree_fields b' = tree_fields b.

(** ** What can happen to a node *)

Inductive node_event :=
  | NewProof (hash proof : uint256)
  | NewHeader (p : ptr) (hash hashPrevBlock : uint256) (flags version time bits : Z)
  | NewBlock (p : ptr) (fProofOfStake : bool) (txs : Z)
  | Activate (pblock : option ptr) (fAlreadyChecked : bool)
  | Invalidate (p : ptr).

Section events.
Context (Params : CChainParams) `{HF : HashFunctions} (literal : Z) (genesis : uint256).
Context {C : Type} `{HB : ChainBackend C} (parent : ptr → option ptr) (maxTx : Z).
Implicit Types st : main_state C.

Definition run_event (e : node_event) st : option (main_state C) :=
  match e with
  | NewProof hash proof => Some (record_proof st hash proof)
  | NewHeader p hash hashPrevBlock flags version time bits => snd <$> AddToBlockIndex Params literal genesis st p hash hashPrevBlock flags version time bits
  | NewBlock p fProofOfStake txs => ReceivedBlockTransactions st p fProofOfStake txs
  | Activate pblock fAlreadyChecked => '(ok, st) ← ActivateBestChain st pblock fAlreadyChecked; if (ok : bool) then Some st else None
  | Invalidate p => '(ok, st) ← InvalidateBlock st p; if (ok : bool) then Some st else None
  end.

(** What the callers check before.  [AcceptBlockHeader] needs the parent of a header
    ([parent] is the tree of all blocks; the address of a new node is free), and
    [AcceptBlock] drops a block that is stored already and one whose header has failed.
    The fields of a header have their widths.  A block has at most [maxTx] transactions,
    and the counter [nChainTx] can hold those of the chain. *)
Definition allowed (e : node_event) st : Prop :=
  match e with
  | NewProof _ _ => True
  | NewHeader p hash hashPrevBlock flags version time bits =>
      mapBlockIndex st !! p = None ∧ words 8 hash ∧ fits 32 time ∧ fits 32 bits ∧
      ∃ q b, find_block (mapBlockIndex st) hashPrevBlock = Some q ∧ parent p = Some q ∧
        mapBlockIndex st !! q = Some b ∧ (nHeight b + 2) * maxTx < 2 ^ 32
  | NewBlock p fProofOfStake txs =>
      ∃ m, metas st !! p = Some m ∧ have_data m = false ∧ failed m = false ∧ 1 ≤ txs ≤ maxTx
  | Activate _ _ => True
  | Invalidate p => ∃ b, mapBlockIndex st !! p = Some b ∧ is_Some (pprev b)
  end.

(** The node with the genesis block only. *)
Definition genesis_state (g : ptr) (b : CBlockIndex) (work : Z) (c : C) : main_state C :=
  MainState {[g := b]} {[g := Meta work (Z.lor BLOCK_VALID_TRANSACTIONS BLOCK_HAVE_DATA) 1 1 1]} [Some g] {[g]} [] None 2 c
    (HeaderState {[g := KernelFields_null]} ∅ (Some g)).

Inductive reachable (init : main_state C) : main_state C → Prop :=
  | reach_init : reachable init init
  | reach_step st e st' : reachable init st → allowed e st → run_event e st = Some st' → reachable init st'.
End events.

(** * Subtrees *)

Lemma sub_tree_up h h' n x : linked h → sub_tree h h' → is_Some (h !! x) → up h' n x = up h n x.
Proof.
  intros Hl Hs. revert x. induction n as [|n IH]; intros x [b Hb]; [done|]. cbn [up].
  destruct (Hs x b Hb) as (b' & Hb' & [= E _ _]). rewrite Hb, Hb'. cbn [mbind option_bind]. rewrite E.
  destruct (Hl x b Hb) as [_ Hp]. destruct (pprev b) as [q|]; [|done]. cbn [mbind option_bind]. apply IH.
  destruct Hp as (c & Hc & _). by eexists.
Qed.
Lemma sub_tree_ancestor_ref h h' x k : linked h → sub_tree h h' → is_Some (h !! x) → ancestor_ref h' x k = ancestor_ref h x k.
Proof.
  intros Hl Hs [b Hb]. destruct (Hs x b Hb) as (b' & Hb' & [= _ _ E]). unfold ancestor_ref. rewrite Hb, Hb'. cbn [mbind option_bind].
  rewrite E, (sub_tree_up h h') by (done || by eexists). done.
Qed.
Lemma sub_tree_branch h h' x : linked h → sub_tree h h' → is_Some (h !! x) → branch h' x = branch h x.
Proof.
  intros Hl Hs Hx. destruct Hx as [b Hb]. destruct (Hs x b Hb) as (b' & Hb' & [= _ _ E]). unfold branch. rewrite Hb, Hb', E.
  apply list_fmap_ext. intros i k _. apply sub_tree_ancestor_ref; [done..|by eexists].
Qed.
Lemma sub_tree_ancestor h h' a x : linked h → sub_tree h h' → is_Some (h !! x) → ancestor h' a x ↔ ancestor h a x.
Proof.
  intros Hl Hs Hx. split.
  - intros Ha. revert Hx. induction Ha as [x b Hb|a x b q Hb Hq Ha IH]; intros [c Hc]; [by eapply anc_self|].
    destruct (Hs x c Hc) as (b' & Hb' & [= E _ _]). assert (b' = b) as -> by congruence. destruct (Hl x c Hc) as [_ Hp].
    rewrite <-E, Hq in Hp. destruct Hp as (d & Hd & _). apply (anc_parent h a x c q); [done|congruence|]. apply IH. by eexists.
  - intros Ha. induction Ha as [x b Hb|a x b q Hb Hq Ha IH]; destruct (Hs x b Hb) as (b' & Hb' & [= E _ _]); [by eapply anc_self|].
    apply (anc_parent h' a x b' q); [done|congruence|]. apply IH. by apply ancestor_in in Ha as [_ ?].
Qed.

(** Two stores with the same links. *)
Lemma same_tree_ok h h' : linked h → skips_ok h → sub_tree h h' → sub_tree h' h → linked h' ∧ skips_ok h'.
Proof.
  intros Hl Hs H1 H2. split.
  - intros x b Hb. destruct (H2 x b Hb) as (b' & Hb' & [= E1 E2 E3]). destruct (Hl x b' Hb') as [H0 Hp]. rewrite <-E3, <-E1. split; [done|].
    destruct (pprev b') as [q|]; [|done]. destruct Hp as (c & Hc & Eh). destruct (H1 q c Hc) as (c' & Hc' & [= _ _ E]). exists c'. split; [done|lia].
  - intros x b q Hb Hq. destruct (H2 x b Hb) as (b' & Hb' & [= E1 E2 E3]). destruct (Hl x b' Hb') as [H0 Hp]. rewrite E1, Hq in Hp.
    destruct Hp as (c & Hc & _). rewrite <-E2, <-E3, (sub_tree_ancestor_ref h h') by (done || by eexists). apply (Hs x); congruence.
Qed.

(** * Growing states *)

Section grow.
Context {C : Type}.
Implicit Types st : main_state C.

(** New nodes and newly linked blocks, where the latter are candidates unless they are
    worse than the tip, keep the invariant. *)
Lemma chain_inv_grow st st' : chain_inv st → tree_inv st' → sub_tree (mapBlockIndex st) (mapBlockIndex st') →
  chainActive st' = chainActive st → (∀ x m, metas st !! x = Some m → nChainTx m ≠ 0 → metas st' !! x = Some m) →
  (∀ x m, metas st !! x = Some m → ∃ m', metas st' !! x = Some m' ∧ failed m' = failed m) →
  setBlockIndexCandidates st ⊆ setBlockIndexCandidates st' →
  (∀ x t, Tip (chainActive st) = Some t → linked_block st' x → ¬ linked_block st x → CBlockIndexWorkComparator st' x t = false →
    x ∈ setBlockIndexCandidates st') → chain_inv st'.
Proof.
  intros (Hi & t & Htip & Htc & Hcomp) Hi' Hs Hch Hm Hf Hc Hnew. split; [done|]. exists t. pose proof (chain_inv_tip st t Hi Htip) as Et.
  destruct Htip as [Tc Tl Tu]. pose proof (inv_linked _ Hi) as Hl. destruct Tl as (mt & Hmt & Hxt).
  assert (is_Some (mapBlockIndex st !! t)) as Hbt by (apply (inv_dom _ Hi); by eexists).
  split_and!; [|by apply Hc|].
  - split; [by rewrite Hch, Tc, (sub_tree_branch (mapBlockIndex st) (mapBlockIndex st'))|exists mt; by split; [apply Hm|]|].
    intros a Ha. rewrite (sub_tree_ancestor (mapBlockIndex st) (mapBlockIndex st')) in Ha by done. destruct (Tu a Ha) as (m & Hma & Hfa).
    destruct (Hf a m Hma) as (m' & ? & ?). exists m'. split; [done|congruence].
  - intros x Hlx Hux Hxc. destruct (decide (default 0 (nChainTx <$> metas st !! x) = 0)) as [E|E].
    { apply (Hnew x t); [done..| |done]. intros (m & Hmx & Hne). by rewrite Hmx in E. }
    destruct (metas st !! x) as [m|] eqn:Hmx; [|done]. cbn in E. apply Hc, Hcomp; [by exists m| |].
    + intros a Ha. assert (is_Some (mapBlockIndex st !! x)) as Hbx by (apply (inv_dom _ Hi); by eexists).
      rewrite <-(sub_tree_ancestor _ (mapBlockIndex st')) in Ha by done. destruct (Hux a Ha) as (m' & Hm' & Hf').
      rewrite (sub_tree_ancestor (mapBlockIndex st) (mapBlockIndex st')) in Ha by done. apply ancestor_in in Ha as [Ha _]. apply (inv_dom _ Hi) in Ha as [m0 Hm0].
      exists m0. split; [done|]. destruct (Hf a m0 Hm0) as (m1 & ? & ?). congruence.
    + revert Hxc. unfold CBlockIndexWorkComparator. by rewrite (Hm x m), (Hm t mt), Hmx, Hmt.
Qed.

End grow.

(** * Indexing a header *)

Section index.
Context (Params : CChainParams) `{HF : HashFunctions} `{HO : !HashFunctionsOk} (literal : Z) (genesis : uint256) {C : Type}.
Hypothesis Hiv : intervals_ok Params.
Hypothesis Hlit : fits 64 literal.
Implicit Types st : main_state C.

Lemma find_block_insert ks p b f hash q : kernel_inv ks → ks_index ks !! p = None → find_block (ks_index ks) (phashBlock b) = None →
  words 8 (phashBlock b) → fits 32 (nTime b) → fits 64 (nStakeModifier f) → pprev b = None → nHeight b = 0 →
  find_block (ks_index ks) hash = Some q → find_block (<[p := b]> (ks_index ks)) hash = Some q.
Proof.
  intros Hi Hp Hnew Hw Ht Hf Hpp Hh Hq. destruct (find_block_spec _ _ _ Hq) as (c & Hc & <-).
  refine (find_block_complete (KernelState (<[p := b]> (ks_index ks)) (<[p := f]> (ks_fields ks)) (ks_proofs ks)) q c _ _).
  - apply kernel_inv_insert; try done; [by rewrite Hpp|lia].
  - cbn. rewrite lookup_insert_ne by congruence. done.
Qed.

(** A header on top of the indexed block [q]: the new node has its links and the skip
    pointer, its fields are new, and everything else stays. *)
Lemma AddToBlockIndex_child st p hash hashPrevBlock flags version time bits q bq :
  kernel_inv (kernel_of st) → mapBlockIndex st !! p = None → words 8 hash → fits 32 time → fits 32 bits →
  find_block (mapBlockIndex st) hash = None → find_block (mapBlockIndex st) hashPrevBlock = Some q → mapBlockIndex st !! q = Some bq →
  ∃ s b m f proofs best,
    BuildSkip (<[p := MkBlockIndex hash (Some q) None (nHeight bq + 1) flags version time bits]> (mapBlockIndex st)) p =
      <[p := MkBlockIndex hash (Some q) s (nHeight bq + 1) flags version time bits]> (mapBlockIndex st) ∧
    AddToBlockIndex Params literal genesis st p hash hashPrevBlock flags version time bits =
      Some (p, MainState (<[p := b]> (mapBlockIndex st)) (<[p := m]> (metas st)) (chainActive st) (setBlockIndexCandidates st) (mapBlocksUnlinked st)
                 (pindexBestInvalid st) (nBlockSequenceId st) (pcoinsTip st) (HeaderState (<[p := f]> (stake_fields (headers st))) proofs best)) ∧
    tree_fields b = (Some q, s, nHeight bq + 1) ∧ nTx m = 0 ∧ nChainTx m = 0 ∧
    kernel_inv (KernelState (<[p := b]> (mapBlockIndex st)) (<[p := f]> (stake_fields (headers st))) proofs).
Proof.
  intros Hk Hp Hw Htime Hbits Hnew Hfind Hbq. unfold AddToBlockIndex. rewrite Hnew.
  assert (find_block (<[p := MkBlockIndex hash None None 0 flags version time bits]> (mapBlockIndex st)) hashPrevBlock = Some q) as ->
    by (by apply (find_block_insert (kernel_of st) p _ KernelFields_null)).
  cbn [mbind option_bind]. rewrite lookup_insert_ne by congruence. rewrite Hbq. cbn [mbind option_bind]. rewrite insert_insert_eq.
  destruct (BuildSkip_new (mapBlockIndex st) p (MkBlockIndex hash (Some q) None (nHeight bq + 1) flags version time bits) q eq_refl) as [s Es].
  cbn [phashBlock nHeight nFlags nHeaderVersion nTime nBits] in Es. rewrite Es. set (b1 := MkBlockIndex hash (Some q) s _ _ _ _ _).
  destruct (index_stake_ok Params literal Hiv (kernel_of st) genesis p b1 q bq KernelFields_null) as (b2 & f & proofs & Ei & B1 & B2 & B3 & B4 & B5 & B6 & Hk2); try done.
  change (KernelState (<[p := b1]> (mapBlockIndex st)) (<[p := KernelFields_null]> (stake_fields (headers st))) (mapProofOfStake (headers st)))
    with (KernelState (<[p := b1]> (ks_index (kernel_of st))) (<[p := KernelFields_null]> (ks_fields (kernel_of st))) (ks_proofs (kernel_of st))).
  rewrite Ei. cbn [mbind option_bind ks_index]. rewrite lookup_insert_eq. cbn [mbind option_bind].
  destruct (GetBlockProof_spec b2) as (w & -> & _ & _); [by rewrite B6|]. cbn [mbind option_bind ks_index ks_fields ks_proofs].
  eexists s, b2, _, f, proofs, _. split; [done|]. split; [reflexivity|]. split_and!; [unfold tree_fields; by rewrite B2, B3, B4|done|done|exact Hk2].
Qed.

End index.

(** * The invariant of the whole state *)

Section node.
Context (Params : CChainParams) `{HF : HashFunctions} `{HO : !HashFunctionsOk} (literal : Z) (genesis : uint256).
Context {C : Type} `{HB : ChainBackend C} (at_tip : C → ptr → Prop) (valid : ptr → bool) (parent : ptr → option ptr) (maxTx : Z).
Implicit Types st : main_state C.

(** A stored block whose chain is not complete. *)
Definition waiting st (x : ptr) : Prop :=
  ∃ m, metas st !! x = Some m ∧ have_data m = true ∧ nChainTx m = 0 ∧ 1 ≤ nTx m ∧ BLOCK_VALID_TRANSACTIONS ≤ validity m.

(** The transactions up to the parent. *)
Definition parent_tx st (p : ptr) : Z := default 0 (parent p ≫= λ q, nChainTx <$> metas st !! q).

Record node_base st : Prop := {
  nb_chain : chain_inv st;
  nb_parent p b : mapBlockIndex st !! p = Some b → pprev b = parent p;
  nb_tip t : Tip (chainActive st) = Some t → at_tip (pcoinsTip st) t ∧ ∀ a, ancestor (mapBlockIndex st) a t → valid a = true;
  nb_validity p m : metas st !! p = Some m → nChainTx m ≠ 0 → BLOCK_VALID_TRANSACTIONS ≤ validity m;
  nb_height p b : mapBlockIndex st !! p = Some b → (nHeight b + 1) * maxTx < 2 ^ 32;
  nb_count p b m : mapBlockIndex st !! p = Some b → metas st !! p = Some m → nTx m ≤ maxTx ∧ 0 ≤ nChainTx m ≤ (nHeight b + 1) * maxTx;
  nb_sum p m : metas st !! p = Some m → nChainTx m ≠ 0 → nChainTx m = parent_tx st p + nTx m;
}.
(** [queue] holds the blocks to link; those in [mapBlocksUnlinked] wait for their
    parent. *)
Record queue_inv st (queue : list ptr) : Prop := {
  qi_nodup : NoDup (queue ++ map snd (mapBlocksUnlinked st));
  qi_queue x : x ∈ queue → waiting st x ∧ ∀ q, parent x = Some q → linked_block st q;
  qi_unlinked q x : (q, x) ∈ mapBlocksUnlinked st → waiting st x ∧ parent x = Some q;
}.
Definition node_inv st : Prop := node_base st ∧ queue_inv st [].

(** The counter of a linked block depends on linked blocks only. *)
Lemma parent_tx_grow st st' p m : tree_inv st → (∀ p b, mapBlockIndex st !! p = Some b → pprev b = parent p) →
  (∀ x m, metas st !! x = Some m → nChainTx m ≠ 0 → metas st' !! x = Some m) → metas st !! p = Some m → nChainTx m ≠ 0 →
  parent_tx st' p = parent_tx st p.
Proof.
  intros Hi Hp Hm Hpm Hne. destruct (proj1 (inv_dom _ Hi p) ltac:(by eexists)) as [b Hb]. unfold parent_tx.
  destruct (parent p) as [q|] eqn:Eq; [|done]. cbn. destruct (inv_tx _ Hi p m Hpm Hne) as [_ Hl].
  destruct (Hl b q Hb) as (mq & Hmq & Hqne); [by rewrite (Hp p b Hb)|]. by rewrite (Hm q mq Hmq Hqne), Hmq.
Qed.

(** ** [AddToBlockIndex] *)

Lemma waiting_mono st st' x : (∀ m, metas st !! x = Some m → metas st' !! x = Some m) → waiting st x → waiting st' x.
Proof. intros Hm (m & H & Hr). exists m. split; [by apply Hm|done]. Qed.

Lemma insert_leaf h p b q c : linked h → skips_ok h → h !! p = None → pprev b = Some q → h !! q = Some c → nHeight b = nHeight c + 1 →
  ∃ b', BuildSkip (<[p := b]> h) p = <[p := b']> h ∧ pprev b' = Some q ∧ nHeight b' = nHeight b ∧
    linked (<[p := b']> h) ∧ skips_ok (<[p := b']> h).
Proof.
  intros Hl Hs Hp Hq Hc Eh. assert (p ≠ q) as Hne by congruence. assert (sub_tree h (<[p := b]> h)) as Hsub.
  { intros x d Hd. exists d. by rewrite lookup_insert_ne by congruence. }
  assert (linked (<[p := b]> h)) as Hl1.
  { intros x d Hd. destruct (decide (x = p)) as [->|Hx].
    - rewrite lookup_insert_eq in Hd. injection Hd as <-. destruct (Hl q c Hc) as [? _]. rewrite Hq. split; [lia|].
      exists c. by rewrite lookup_insert_ne.
    - rewrite lookup_insert_ne in Hd by done. destruct (Hl x d Hd) as [H0 Hpp]. split; [done|]. destruct (pprev d) as [r|]; [|done].
      destruct Hpp as (e & He & Ee). exists e. by rewrite lookup_insert_ne by congruence. }
  destruct (BuildSkip_preserves (<[p := b]> h) p b Hl1) as [Hl2 Hs2]; [by rewrite lookup_insert_eq| | |].
  - intros x d r Hd Hx Hr. rewrite lookup_insert_ne in Hd by done. destruct (Hl x d Hd) as [_ Hpp]. rewrite Hr in Hpp. destruct Hpp as (e & He & _).
    rewrite (sub_tree_ancestor_ref h) by (done || by eexists). by apply (Hs x).
  - intros x d Hd Hr. destruct (decide (x = p)) as [->|Hx]; [rewrite lookup_insert_eq in Hd; congruence|].
    rewrite lookup_insert_ne in Hd by done. destruct (Hl x d Hd) as [_ Hpp]. rewrite Hr in Hpp. destruct Hpp as (e & He & _). congruence.
  - revert Hl2 Hs2. unfold BuildSkip. rewrite lookup_insert_eq, Hq, insert_insert_eq. intros Hl2 Hs2. by eexists.
Qed.

(** A new node without transactions. *)
Lemma new_node_inv st p b q bq m : node_inv st → mapBlockIndex st !! p = None → mapBlockIndex st !! q = Some bq → parent p = Some q →
  pprev b = Some q → nHeight b = nHeight bq + 1 → linked (<[p := b]> (mapBlockIndex st)) → skips_ok (<[p := b]> (mapBlockIndex st)) →
  (nHeight b + 1) * maxTx < 2 ^ 32 → nTx m = 0 → nChainTx m = 0 → ∀ hs,
  node_inv (MainState (<[p := b]> (mapBlockIndex st)) (<[p := m]> (metas st)) (chainActive st) (setBlockIndexCandidates st)
              (mapBlocksUnlinked st) (pindexBestInvalid st) (nBlockSequenceId st) (pcoinsTip st) hs).
Proof.
  intros [Hb Hq] Hp Hbq Hpar Hprev Hh Hl Hs Hbound Ht0 Hc0 hs. set (st' := MainState _ _ _ _ _ _ _ _ _).
  pose proof (nb_chain _ Hb) as Hci. pose proof (proj1 Hci) as Hi.
  assert (metas st !! p = None) as Hmp.
  { destruct (metas st !! p) eqn:E; [|done]. destruct (proj1 (inv_dom _ Hi p) ltac:(by eexists)). congruence. }
  assert (∀ x b0, mapBlockIndex st !! x = Some b0 → mapBlockIndex st' !! x = Some b0) as Hold by (intros; cbn; rewrite lookup_insert_ne; congruence).
  assert (∀ x m0, metas st !! x = Some m0 → metas st' !! x = Some m0) as Hmold by (intros; cbn; rewrite lookup_insert_ne; congruence).
  assert (sub_tree (mapBlockIndex st) (mapBlockIndex st')) as Hsub by (intros x d Hd; exists d; by split; [apply Hold|]).
  assert (∀ x b0, mapBlockIndex st' !! x = Some b0 → x = p ∧ b0 = b ∨ mapBlockIndex st !! x = Some b0) as Hcase.
  { intros x b0. cbn. rewrite lookup_insert_Some. naive_solver. }
  assert (∀ x m0, metas st' !! x = Some m0 → x = p ∧ m0 = m ∨ metas st !! x = Some m0) as Hmcase.
  { intros x m0. cbn. rewrite lookup_insert_Some. naive_solver. }
  assert (∀ x, linked_block st' x ↔ linked_block st x) as Hlb.
  { intros x. split; intros (m0 & Hm0 & Hne); [|by exists m0; split; [apply Hmold|]]. destruct (Hmcase x m0 Hm0) as [[-> ->]|?]; [done|by exists m0]. }
  assert (tree_inv st') as Hi'.
  { split; [done|done| | | |].
    - intros x y b1 b2 [[-> ->]|H1]%Hcase [[-> ->]|H2]%Hcase E1 E2; [done|congruence..|]. by eapply (inv_root _ Hi).
    - intros x. cbn. rewrite !lookup_insert_is_Some. pose proof (inv_dom _ Hi x). naive_solver.
    - intros x m0 [[-> ->]|Hm0]%Hmcase Hne; [done|]. destruct (inv_tx _ Hi x m0 Hm0 Hne) as [Hd Hpl]. split; [done|].
      intros b0 r Hb0 Hr. apply Hlb. destruct (Hcase x b0 Hb0) as [[-> ->]|?]; [congruence|by eapply Hpl].
    - intros x Hx. by apply Hlb, (inv_cand _ Hi). }
  assert (∃ t, Tip (chainActive st) = Some t ∧ is_Some (mapBlockIndex st !! t)) as (t & Et & Hbt).
  { destruct Hci as (_ & t & Htip & _). exists t. split; [by apply chain_inv_tip|]. apply (inv_dom _ Hi). destruct (tip_linked _ _ Htip) as (? & ? & _). by eexists. }
  split; split.
  - apply (chain_inv_grow st); try done; [intros x m0 Hm0 _; by apply Hmold|intros x m0 Hm0; exists m0; by split; [apply Hmold|]|].
    intros x t' _ H1 H2. by apply Hlb in H1.
  - intros x b0 [[-> ->]|Hx]%Hcase; [congruence|by apply Hb].
  - intros t' Et'. assert (t' = t) as -> by (cbn in Et'; congruence). destruct (nb_tip _ Hb t Et) as [Hat Hv]. split; [done|].
    intros a Ha. apply Hv. by rewrite (sub_tree_ancestor (mapBlockIndex st) (mapBlockIndex st')) in Ha by (done || apply Hi).
  - intros x m0 [[-> ->]|Hm0]%Hmcase Hne; [done|by eapply Hb].
  - intros x b0 [[-> ->]|Hx]%Hcase; [done|by eapply Hb].
  - intros x b0 m0 H1 H2. destruct (inv_linked _ Hi q bq Hbq) as [? _]. pose proof (nb_height _ Hb q bq Hbq). pose proof (nb_count _ Hb q bq).
    destruct (Hmcase x m0 H2) as [[-> ->]|Hm0]; [|destruct (Hcase x b0 H1) as [[-> ->]|?]; [congruence|by eapply Hb]].
    destruct (Hcase p b0 H1) as [[_ ->]|?]; [|congruence].
    destruct (proj2 (inv_dom _ Hi q)) as [mq Hmq]; [by eexists|]. destruct (nb_count _ Hb q bq mq Hbq Hmq). nia.
  - intros x m0 [[-> ->]|Hm0]%Hmcase Hne; [done|]. rewrite (parent_tx_grow st st' x m0); [by apply Hb|done|apply Hb|by intros; apply Hmold|done..].
  - apply Hq.
  - by intros x ?%elem_of_nil.
  - intros r x Hx. destruct (qi_unlinked _ _ Hq r x Hx) as [Hw ?]. split; [|done]. eapply waiting_mono; [|done]. by apply Hmold.
Qed.

(** Everything that holds between two events. *)
Definition node_ok st : Prop := node_inv st ∧ kernel_inv (kernel_of st).

Hypothesis Hiv : intervals_ok Params.
Hypothesis Hlit : fits 64 literal.

Lemma AddToBlockIndex_inv st p hash hashPrevBlock flags version time bits : node_ok st →
  allowed parent maxTx (NewHeader p hash hashPrevBlock flags version time bits) st →
  ∃ x st', AddToBlockIndex Params literal genesis st p hash hashPrevBlock flags version time bits = Some (x, st') ∧ node_ok st'.
Proof.
  intros [Hn Hk] (Hp & Hw & Htime & Hbits & q & bq & Hfind & Hpar & Hbq & Hbound).
  destruct (find_block (mapBlockIndex st) hash) as [q'|] eqn:Hnew; [exists q', st; unfold AddToBlockIndex; by rewrite Hnew|].
  destruct (AddToBlockIndex_child Params literal genesis Hiv Hlit st p hash hashPrevBlock flags version time bits q bq) as (s & b2 & m & f & proofs & best & Es & -> & [= B2 B3 B4] & Hm1 & Hm2 & Hk2); [done..|].
  eexists _, _. split; [reflexivity|]. split; [|exact Hk2]. pose proof (nb_chain _ (proj1 Hn)) as (Hi & _).
  edestruct (insert_leaf (mapBlockIndex st) p (MkBlockIndex hash (Some q) None (nHeight bq + 1) flags version time bits) q bq) as (b1 & Eb1 & _ & _ & Hl & Hs); [apply Hi..|done|done|done|done|].
  assert (tree_fields b1 = tree_fields b2) as Htf.
  { rewrite Es in Eb1. apply (f_equal (lookup p)) in Eb1. rewrite !lookup_insert_eq in Eb1. injection Eb1 as <-. unfold tree_fields. by rewrite B2, B3, B4. }
  destruct (same_tree_ok (<[p := b1]> (mapBlockIndex st)) (<[p := b2]> (mapBlockIndex st)) Hl Hs) as [Hl2 Hs2].
  1,2: intros x d [[<- <-]|[? Hd]]%lookup_insert_Some; [eexists; rewrite lookup_insert_eq; by split; [reflexivity|]|exists d; by rewrite lookup_insert_ne].
  eapply (new_node_inv st p b2 q bq); try done. rewrite B4. lia.
Qed.

(** ** [ReceivedBlockTransactions] *)

Lemma receive_meta_spec txs m : failed m = false → failed (receive_meta txs m) = failed m ∧ have_data (receive_meta txs m) = true ∧
  nChainTx (receive_meta txs m) = 0 ∧ nTx (receive_meta txs m) = txs ∧ BLOCK_VALID_TRANSACTIONS ≤ validity (receive_meta txs m).
Proof.
  intros Hf. unfold receive_meta. set (m1 := Meta _ _ _ _ _).
  assert (failed m1 = false) as Hf1 by (rewrite <-Hf; unfold failed; cbn [nStatus m1]; by rewrite Z.land_lor_distr_l, Z.lor_0_r).
  assert (have_data m1 = true) as Hd1.
  { unfold have_data. cbn [nStatus m1]. rewrite Z.land_lor_distr_l. apply negb_true_iff, Z.eqb_neq. rewrite Z.lor_eq_0_iff. by intros [_ ?]. }
  split_and!; [| | | |by apply validity_raise].
  all: unfold RaiseValidity; rewrite Hf1; case_match; try done.
  - rewrite Hf, <-Hf1. unfold failed. cbn [nStatus]. by rewrite Z.land_lor_distr_l, Z.lor_0_r, <-Z.land_assoc.
  - by rewrite Hf1, Hf.
  - rewrite <-Hd1. unfold have_data. cbn [nStatus]. by rewrite Z.land_lor_distr_l, Z.lor_0_r, <-Z.land_assoc.
Qed.

(** The state after a block has been linked. *)
Definition link_one st (x : ptr) (n : Z) (s : gset ptr) : main_state C :=
  MainState (mapBlockIndex st) (alter (set_chain_tx n (nBlockSequenceId st)) x (metas st)) (chainActive st) s
    (filter (λ e, e.1 ≠ x) (mapBlocksUnlinked st)) (pindexBestInvalid st) (u32 (nBlockSequenceId st + 1)) (pcoinsTip st) (headers st).

Lemma link_one_base st x b m n s : node_base st → mapBlockIndex st !! x = Some b → metas st !! x = Some m → waiting st x →
  (∀ q, parent x = Some q → linked_block st q) → n = parent_tx st x →
  setBlockIndexCandidates st ⊆ s → (∀ y, y ∈ s → y = x ∨ y ∈ setBlockIndexCandidates st) →
  (∀ t, Tip (chainActive st) = Some t → CBlockIndexWorkComparator (link_one st x n s) x t = false → x ∈ s) →
  node_base (link_one st x n s) ∧ linked_block (link_one st x n s) x.
Proof.
  intros Hb Hbx Hm Hw Hpar Hn Hs1 Hs2 Hs3. pose proof (nb_chain _ Hb) as Hci. pose proof (proj1 Hci) as Hi. set (st' := link_one st x n s).
  destruct Hw as (m' & Hm' & Hd & Hc & Ht & Hv). assert (m' = m) as -> by congruence.
  set (m1 := set_chain_tx n (nBlockSequenceId st) m). assert (metas st' !! x = Some m1) as Hm1 by (cbn; by rewrite lookup_alter_eq, Hm).
  assert (∀ y, y ≠ x → metas st' !! y = metas st !! y) as Hne by (intros; cbn; by rewrite lookup_alter_ne).
  assert (1 ≤ nChainTx m1 ≤ (nHeight b + 1) * maxTx ∧ nChainTx m1 = n + nTx m1) as [Hcnt Hsum].
  { destruct (nb_count _ Hb x b m Hbx Hm) as [Htx _]. pose proof (nb_height _ Hb x b Hbx) as Hmax. destruct (inv_linked _ Hi x b Hbx) as [H0 Hpp].
    assert (0 ≤ n ≤ nHeight b * maxTx) as Hnb.
    { rewrite (nb_parent _ Hb x b Hbx) in Hpp. rewrite Hn. unfold parent_tx. destruct (parent x) as [q|]; cbn; [|rewrite Hpp; lia].
      destruct Hpp as (c & Hc' & Eh). destruct (Hpar q eq_refl) as (mq & Hmq & _). rewrite Hmq. cbn. destruct (nb_count _ Hb q c mq Hc' Hmq). rewrite Eh. lia. }
    cbn. unfold u32, wrap. rewrite Z.mod_small by nia. nia. }
  assert (linked_block st' x) as Hlx by (exists m1; split; [done|lia]).
  assert (∀ y, linked_block st y → linked_block st' y) as Hlb.
  { intros y (my & Hmy & Hy). destruct (decide (y = x)) as [->|?]; [done|]. exists my. by rewrite Hne. }
  assert (tree_inv st') as Hi'.
  { split; [apply Hi|apply Hi|apply Hi| | |].
    - intros y. cbn. by rewrite lookup_alter_is_Some, (inv_dom _ Hi).
    - intros y my Hmy Hy. destruct (decide (y = x)) as [->|Hyx].
      + assert (my = m1) as -> by congruence. split; [done|]. intros b0 q Hb0 Hq. apply Hlb, Hpar. rewrite <-Hq. symmetry. by eapply nb_parent.
      + rewrite Hne in Hmy by done. destruct (inv_tx _ Hi y my Hmy Hy) as [? Hl]. split; [done|]. intros. eapply Hlb, Hl; done.
    - intros y [->|Hy]%Hs2; [done|]. by apply Hlb, (inv_cand _ Hi). }
  split; [|done]. split.
  - apply (chain_inv_grow st); try done; [intros y d Hy; by exists d| | |].
    + intros y my Hmy Hy. rewrite Hne; [done|]. intros ->. congruence.
    + intros y my Hmy. destruct (decide (y = x)) as [->|?]; [exists m1|exists my; by rewrite Hne]. split; [done|]. by assert (my = m) as -> by congruence.
    + intros y t Et Hly Hnl Hcmp. destruct (decide (y = x)) as [->|?]; [by eapply Hs3|]. destruct Hnl. destruct Hly as (my & Hmy & Hy). exists my. by rewrite <-Hne.
  - apply Hb.
  - apply Hb.
  - intros y my Hmy Hy. destruct (decide (y = x)) as [->|?]; [|rewrite Hne in Hmy by done; by eapply Hb]. by assert (my = m1) as -> by congruence.
  - apply Hb.
  - intros y b0 my Hb0 Hmy. destruct (decide (y = x)) as [->|?]; [|rewrite Hne in Hmy by done; by eapply Hb].
    assert (my = m1) as -> by congruence. assert (b0 = b) as -> by (cbn in Hb0; congruence). split; [|lia]. by apply (nb_count _ Hb x b m).
  - assert (∀ y my, metas st !! y = Some my → nChainTx my ≠ 0 → metas st' !! y = Some my) as Hkeep.
    { intros y my Hmy Hy. rewrite Hne; [done|]. intros ->. congruence. }
    intros y my Hmy Hy. destruct (decide (y = x)) as [->|?].
    + assert (my = m1) as -> by congruence. replace (parent_tx st' x) with n; [exact Hsum|]. rewrite Hn. unfold parent_tx.
      destruct (parent x) as [q|] eqn:Eq; [|done]. cbn [mbind option_bind]. destruct (Hpar q eq_refl) as (mq & Hmq & Hqne). by rewrite (Hkeep q mq Hmq Hqne), Hmq.
    + rewrite Hne in Hmy by done. rewrite (parent_tx_grow st st' y my); [by apply Hb|done|apply Hb|done..].
Qed.

Lemma waiting_link_one st x n s y : waiting st y → y ≠ x → waiting (link_one st x n s) y.
Proof. intros Hw Hne. eapply waiting_mono; [|done]. intros m Hm. cbn. by rewrite lookup_alter_ne. Qed.

Lemma link_one_queue st x queue n s : queue_inv st (x :: queue) → linked_block (link_one st x n s) x →
  (∀ y, linked_block st y → linked_block (link_one st x n s) y) →
  queue_inv (link_one st x n s) (queue ++ map snd (filter (λ e, e.1 = x) (mapBlocksUnlinked st))).
Proof.
  intros [Hnd Hq Hu] Hlx Hlb. set (U := mapBlocksUnlinked st) in *.
  assert (x ∉ queue ∧ x ∉ map snd U) as [Hxq HxU] by (apply NoDup_cons in Hnd as [Hx _]; by rewrite elem_of_app in Hx; naive_solver).
  assert (∀ q y, (q, y) ∈ U → y ≠ x) as HneU by (intros q y Hy ->; apply HxU, list_elem_of_fmap; by exists (q, x)).
  split.
  - cbn [mapBlocksUnlinked link_one]. fold U. rewrite <-app_assoc. apply NoDup_cons in Hnd as [_ Hnd].
    rewrite <-map_app. assert (queue ++ map snd U ≡ₚ queue ++ map snd (filter (λ e, e.1 = x) U ++ filter (λ e, e.1 ≠ x) U)) as <-; [|done].
    apply Permutation_app_head, Permutation_map. symmetry. apply filter_app_complement.
  - intros y [Hy|Hy]%elem_of_app.
    + destruct (Hq y) as [Hw Hp]; [by right|]. split; [apply waiting_link_one; congruence|]. intros q E. by apply Hlb, Hp.
    + apply list_elem_of_fmap in Hy as ([q y'] & -> & [Eq Hin]%list_elem_of_filter). cbn in Eq. subst q. destruct (Hu x y' Hin) as [Hw Hp].
      split; [apply waiting_link_one; [done|by eapply HneU]|]. intros q E. cbn in E. congruence.
  - intros q y. cbn. intros [_ Hin]%list_elem_of_filter. destruct (Hu q y Hin). split; [apply waiting_link_one; [done|by eapply HneU]|done].
Qed.

Lemma link_queue_inv fuel : ∀ st queue, node_base st → queue_inv st queue → (length queue + length (mapBlocksUnlinked st) ≤ fuel)%nat →
  ∃ st', link_queue st fuel queue = Some st' ∧ node_inv st'.
Proof.
  induction fuel as [|fuel IH]; intros st [|x queue] Hb Hq Hf; cbn [link_queue length] in *; [by exists st|lia|by exists st|].
  destruct (qi_queue _ _ Hq x) as [Hw Hpar]; [by left|]. pose proof (nb_chain _ Hb) as Hci. pose proof (proj1 Hci) as Hi.
  pose proof Hw as (m & Hm & _). destruct (proj1 (inv_dom _ Hi x) ltac:(by eexists)) as [b Hbx]. rewrite Hbx. cbn [mbind option_bind].
  set (n := parent_tx st x).
  assert (match pprev b with None => Some 0 | Some q => nChainTx <$> metas st !! q end = Some n) as ->.
  { rewrite (nb_parent _ Hb x b Hbx). unfold n, parent_tx. destruct (parent x) as [q|]; [|done]. destruct (Hpar q eq_refl) as (mq & Hmq & _). cbn. by rewrite Hmq. }
  cbn [mbind option_bind chainActive update_meta]. assert (∃ t, Tip (chainActive st) = Some t) as (t & Et).
  { destruct Hci as (_ & t & Htip & _). exists t. by apply chain_inv_tip. }
  rewrite Et. match goal with |- context [CBlockIndexWorkComparator ?s x t] => set (st1 := s) end.
  set (s := if CBlockIndexWorkComparator st1 x t then setBlockIndexCandidates st else {[x]} ∪ setBlockIndexCandidates st).
  assert (node_base (link_one st x n s) ∧ linked_block (link_one st x n s) x) as [Hb' Hl'].
  { apply (link_one_base st x b m); try done; [unfold s; case_match; set_solver..|]. intros t' Et' Hc. assert (t' = t) as -> by congruence.
    change (CBlockIndexWorkComparator st1 x t = false) in Hc. unfold s. rewrite Hc. set_solver. }
  match goal with |- context [link_queue ?s0 fuel ?q0] => assert (s0 = link_one st x n s ∧ q0 = queue ++ map snd (filter (λ e, e.1 = x) (mapBlocksUnlinked st))) as [-> ->] end.
  { unfold s. by destruct (CBlockIndexWorkComparator st1 x t). }
  apply IH; [done| |].
  - apply link_one_queue; [done..|]. intros y (my & Hmy & Hy). destruct (decide (y = x)) as [->|?]; [done|]. exists my. cbn. by rewrite lookup_alter_ne.
  - cbn [mapBlocksUnlinked link_one]. rewrite length_app, length_map. pose proof (filter_app_complement (λ e : ptr * ptr, e.1 = x) (mapBlocksUnlinked st)) as Hl%Permutation_length.
    rewrite length_app in Hl. lia.
Qed.

(** The state after the fields of the node have been set. *)
Definition receive_one st (p : ptr) (fProofOfStake : bool) (txs : Z) : main_state C :=
  MainState (if fProofOfStake then alter SetProofOfStake p (mapBlockIndex st) else mapBlockIndex st)
    (alter (receive_meta txs) p (metas st)) (chainActive st) (setBlockIndexCandidates st)
    (mapBlocksUnlinked st) (pindexBestInvalid st) (nBlockSequenceId st) (pcoinsTip st) (headers st).

Lemma stake_tree h p (fProofOfStake : bool) : sub_tree h (if fProofOfStake then alter SetProofOfStake p h else h) ∧
  sub_tree (if fProofOfStake then alter SetProofOfStake p h else h) h.
Proof.
  destruct fProofOfStake; [|by split; intros x d Hd; exists d]. split; intros x d Hd; destruct (decide (x = p)) as [->|Hne].
  - exists (SetProofOfStake d). by rewrite lookup_alter_eq, Hd.
  - exists d. by rewrite lookup_alter_ne.
  - rewrite lookup_alter_eq in Hd. apply fmap_Some in Hd as (d' & Hd' & ->). by exists d'.
  - rewrite lookup_alter_ne in Hd by done. by exists d.
Qed.

Lemma receive_one_inv st p m fProofOfStake txs : node_inv st → metas st !! p = Some m → have_data m = false → failed m = false →
  1 ≤ txs ≤ maxTx → node_base (receive_one st p fProofOfStake txs) ∧ queue_inv (receive_one st p fProofOfStake txs) [] ∧
  waiting (receive_one st p fProofOfStake txs) p ∧ p ∉ map snd (mapBlocksUnlinked st).
Proof.
  intros [Hb Hq] Hm Hd Hf Ht. pose proof (nb_chain _ Hb) as Hci. pose proof (proj1 Hci) as Hi. set (st' := receive_one st p fProofOfStake txs).
  destruct (stake_tree (mapBlockIndex st) p fProofOfStake) as [Hs1 Hs2]. destruct (receive_meta_spec txs m Hf) as (Rf & Rd & Rc & Rt & Rv).
  set (m1 := receive_meta txs m) in *. assert (metas st' !! p = Some m1) as Hm1 by (cbn; by rewrite lookup_alter_eq, Hm).
  assert (∀ y, y ≠ p → metas st' !! y = metas st !! y) as Hne by (intros; cbn; by rewrite lookup_alter_ne).
  assert (nChainTx m = 0) as Hc0. { destruct (decide (nChainTx m = 0)); [done|]. destruct (inv_tx _ Hi p m Hm); congruence. }
  assert (∀ y, linked_block st' y ↔ linked_block st y) as Hlb.
  { intros y. unfold linked_block. destruct (decide (y = p)) as [->|?]; [rewrite Hm1, Hm|by rewrite Hne]. split; intros (? & [= <-] & ?); congruence. }
  assert (p ∉ map snd (mapBlocksUnlinked st)) as HpU.
  { intros ([q y] & Ey & Hin)%list_elem_of_fmap. cbn in Ey. subst y. destruct (qi_unlinked _ _ Hq q p Hin) as [(m0 & Hm0 & ? & _) _]. congruence. }
  destruct (same_tree_ok _ _ (inv_linked _ Hi) (inv_skips _ Hi) Hs1 Hs2) as [Hl' Hsk'].
  assert (∀ y, is_Some (mapBlockIndex st' !! y) ↔ is_Some (mapBlockIndex st !! y)) as Hdom.
  { intros y. split; intros [d Hd0]; [destruct (Hs2 y d Hd0) as (d' & ? & _)|destruct (Hs1 y d Hd0) as (d' & ? & _)]; by eexists. }
  assert (tree_inv st') as Hi'.
  { split; [done|done| | | |].
    - intros x y b1 b2 H1 H2 E1 E2. destruct (Hs2 x b1 H1) as (c1 & K1 & [= F1 _ _]), (Hs2 y b2 H2) as (c2 & K2 & [= F2 _ _]). eapply (inv_root _ Hi); try done; congruence.
    - intros y. cbn [metas st' receive_one]. rewrite lookup_alter_is_Some, (inv_dom _ Hi), <-Hdom. done.
    - intros y my Hmy Hy. destruct (decide (y = p)) as [->|Hyp]; [congruence|]. rewrite Hne in Hmy by done. destruct (inv_tx _ Hi y my Hmy Hy) as [? Hl].
      split; [done|]. intros b0 q Hb0 Hq0. destruct (Hs2 y b0 Hb0) as (c & Hc & [= F _ _]). apply Hlb. apply (Hl c); congruence.
    - intros y Hy. by apply Hlb, (inv_cand _ Hi). }
  split_and!; [split| |by exists m1; split_and!; [..|lia|]|done].
  - apply (chain_inv_grow st); try done.
    + intros y my Hmy Hy. rewrite Hne; [done|]. intros ->. congruence.
    + intros y my Hmy. destruct (decide (y = p)) as [->|?]; [exists m1|exists my; by rewrite Hne]. split; [done|]. by assert (my = m) as -> by congruence.
    + intros y t _ H1 H2. by apply Hlb in H1.
  - intros y b0 Hb0. destruct (Hs2 y b0 Hb0) as (c & Hc & [= F _ _]). rewrite <-F. by apply Hb.
  - intros t Et. destruct (nb_tip _ Hb t Et) as [Hat Hv]. split; [done|]. intros a Ha. apply Hv.
    rewrite (sub_tree_ancestor (mapBlockIndex st') (mapBlockIndex st)); [done..|]. by apply ancestor_in in Ha as [_ ?].
  - intros y my Hmy Hy. destruct (decide (y = p)) as [->|?]; [congruence|rewrite Hne in Hmy by done; by eapply Hb].
  - intros y b0 Hb0. destruct (Hs2 y b0 Hb0) as (c & Hc & [= _ _ F]). rewrite <-F. by eapply Hb.
  - intros y b0 my Hb0 Hmy. destruct (Hs2 y b0 Hb0) as (c & Hc & [= _ _ F]). rewrite <-F. destruct (decide (y = p)) as [->|?]; [|rewrite Hne in Hmy by done; by eapply Hb].
    assert (my = m1) as -> by congruence. destruct (nb_count _ Hb p c m Hc Hm). rewrite Rc, Rt. lia.
  - intros y my Hmy Hy. destruct (decide (y = p)) as [->|?]; [congruence|]. rewrite Hne in Hmy by done.
    rewrite (parent_tx_grow st st' y my); [by apply Hb|done|apply Hb| |done..]. intros z mz Hmz Hz. rewrite Hne; [done|]. intros ->. congruence.
  - destruct Hq as [Q1 Q2 Q3]. split; [done|by intros x ?%elem_of_nil|]. intros q y Hin. destruct (Q3 q y Hin) as [Hw ?]. split; [|done].
    eapply waiting_mono; [|done]. intros my Hmy. rewrite Hne; [done|]. intros ->. apply HpU, list_elem_of_fmap. by exists (q, p).
Qed.

Lemma with_unlinked_base st l : node_base st → node_base (with_unlinked st l).
Proof.
  intros [(Hi & t & Htip & Hc) H2 H3 H4 H5 H6 H7]. split; try done. split; [by destruct Hi|]. exists t. by split; [destruct Htip|].
Qed.

(** The queue leaves the block tree and the headers alone. *)
Lemma link_queue_keeps fuel : ∀ st queue st', link_queue st fuel queue = Some st' → mapBlockIndex st' = mapBlockIndex st ∧ headers st' = headers st.
Proof.
  induction fuel as [|fuel IH]; intros st [|x queue] st'; cbn [link_queue]; try (by intros [= <-]).
  destruct (mapBlockIndex st !! x) as [b|]; [|done]. cbn [mbind option_bind]. destruct (match pprev b with None => _ | Some _ => _ end); [|done]. cbn [mbind option_bind].
  intros E. apply IH in E as [-> ->]. destruct (Tip _); [|done]. by destruct (CBlockIndexWorkComparator _ _ _).
Qed.

Lemma ReceivedBlockTransactions_kernel st p fProofOfStake txs st' : kernel_inv (kernel_of st) →
  ReceivedBlockTransactions st p fProofOfStake txs = Some st' → kernel_inv (kernel_of st').
Proof.
  intros Hk. unfold ReceivedBlockTransactions. destruct (mapBlockIndex st !! p) as [b|] eqn:Hb; [|done]. cbn [mbind option_bind].
  set (st1 := MainState _ _ _ _ _ _ _ _ _). assert (kernel_inv (kernel_of st1)) as Hk1.
  { unfold kernel_of, st1. cbn [mapBlockIndex headers]. destruct fProofOfStake; [|done].
    assert (alter SetProofOfStake p (mapBlockIndex st) = <[p := or_flags BLOCK_PROOF_OF_STAKE b]> (mapBlockIndex st)) as ->.
    { apply map_eq. intros x. destruct (decide (x = p)) as [->|?]; [by rewrite lookup_alter_eq, Hb, lookup_insert_eq|by rewrite lookup_alter_ne, lookup_insert_ne]. }
    by apply (kernel_inv_flags (kernel_of st)). }
  assert (mapBlockIndex st' = mapBlockIndex st1 ∧ headers st' = headers st1 → kernel_inv (kernel_of st')) as Hsame by (unfold kernel_of; by intros [-> ->]).
  destruct (pprev b) as [q|]; [|intros E; by eapply Hsame, link_queue_keeps]. destruct (metas st1 !! q) as [m|]; [|done]. cbn [mbind option_bind].
  destruct (negb _); [intros E; by eapply Hsame, link_queue_keeps|]. intros [= <-]. apply Hsame. by destruct (IsValid _ _).
Qed.

Lemma ReceivedBlockTransactions_inv st p fProofOfStake txs : node_inv st → allowed parent maxTx (NewBlock p fProofOfStake txs) st →
  ∃ st', ReceivedBlockTransactions st p fProofOfStake txs = Some st' ∧ node_inv st'.
Proof.
  intros Hn (m & Hm & Hd & Hf & Ht). destruct (receive_one_inv st p m fProofOfStake txs Hn Hm Hd Hf Ht) as (Hb' & Hq' & Hw & HpU).
  pose proof (proj1 (nb_chain _ (proj1 Hn))) as Hi. destruct (proj1 (inv_dom _ Hi p) ltac:(by eexists)) as [b Hbp].
  unfold ReceivedBlockTransactions. rewrite Hbp. cbn [mbind option_bind]. pose proof (nb_parent _ (proj1 Hn) p b Hbp) as Hpar.
  destruct (inv_linked _ Hi p b Hbp) as [H0 Hpp]. pose proof (nb_height _ (proj1 Hn) p b Hbp).
  assert (u32 txs = txs) as -> by (unfold u32, wrap; rewrite Z.mod_small; nia).
  match goal with |- context [mapBlocksUnlinked ?s] => change s with (receive_one st p fProofOfStake txs) end.
  set (st1 := receive_one st p fProofOfStake txs) in *. destruct Hq' as [Q1 Q2 Q3].
  assert ((∀ q, parent p = Some q → linked_block st1 q) → ∃ st', link_queue st1 (S (length (mapBlocksUnlinked st1))) [p] = Some st' ∧ node_inv st') as Hlink.
  { intros Hl. apply link_queue_inv; [done| |cbn; lia]. split; [by apply NoDup_cons| |done]. by intros x ->%list_elem_of_singleton. }
  destruct (pprev b) as [q|] eqn:Eq; [|apply Hlink; congruence]. destruct Hpp as (c & Hc & Eh).
  assert (q ≠ p) as Hqp by (intros ->; assert (c = b) as -> by congruence; lia).
  destruct (proj2 (inv_dom _ Hi q) ltac:(by eexists)) as [mq Hmq]. assert (metas st1 !! q = Some mq) as Hmq1 by (cbn; by rewrite lookup_alter_ne).
  rewrite Hmq1. cbn [mbind option_bind]. destruct (Z.eqb_spec (nChainTx mq) 0) as [E|E]; cbn [negb].
  2:{ apply Hlink. intros r Hr. assert (r = q) as -> by congruence. by exists mq. }
  eexists. split; [done|]. destruct (IsValid mq BLOCK_VALID_TREE); [|done]. split; [by apply with_unlinked_base|]. split.
  - cbn. rewrite map_app. cbn. apply NoDup_app. split_and!; [done| |apply NoDup_singleton]. by intros x Hx ->%list_elem_of_singleton.
  - by intros x ?%elem_of_nil.
  - intros r x. cbn. intros [Hin|[= -> ->]%list_elem_of_singleton]%elem_of_app; [by apply Q3|]. split; [done|congruence].
Qed.

(** ** [ActivateBestChain] *)

(** The candidates play no part. *)
Lemma evolves_empty st st' : evolves st st' → evolves st (with_candidates st' ∅).
Proof. intros E. etransitivity; [done|by apply evolves_candidates]. Qed.

Lemma evolves_queue st st' : evolves st (with_candidates st' ∅) → queue_inv st [] → queue_inv st' [].
Proof.
  intros E [Q1 Q2 Q3]. pose proof (ev_unlinked _ _ E) as EU. cbn in EU. split; [by rewrite EU|by intros x ?%elem_of_nil|].
  intros q x. rewrite EU. intros Hin.
  destruct (Q3 q x Hin) as [(m & Hm & Hd & Hc & Ht & Hv) Hp]. split; [|done]. destruct (ev_Some _ _ _ _ E Hm) as (m' & Hm' & K & D & _).
  injection K as _ Kt Kc _. exists m'. pose proof (ev_validity _ _ E x m m' Hm Hm'). split_and!; [done|congruence|congruence|lia|lia].
Qed.

Lemma evolves_base st st' : evolves st (with_candidates st' ∅) → node_base st → chain_inv st' →
  (∀ t, Tip (chainActive st') = Some t → at_tip (pcoinsTip st') t ∧ ∀ a, ancestor (mapBlockIndex st') a t → valid a = true) → node_base st'.
Proof.
  intros E Hb Hc Ht. pose proof (ev_index _ _ E) as EI. cbn in EI. split; [done| |done| | | |]; rewrite ?EI; [apply Hb| |apply Hb| |].
  - intros p m Hm Hne. destruct (ev_Some' _ _ _ _ E Hm) as (m0 & Hm0 & K & _). injection K as _ _ Kc _. pose proof (ev_validity _ _ E p m0 m Hm0 Hm).
    pose proof (nb_validity _ Hb p m0 Hm0). rewrite Kc in Hne. lia.
  - intros p b m Hbp Hm. destruct (ev_Some' _ _ _ _ E Hm) as (m0 & Hm0 & K & _). injection K as _ -> -> _. by eapply Hb.
  - intros p m Hm Hne. destruct (ev_Some' _ _ _ _ E Hm) as (m0 & Hm0 & K & _). injection K as _ Kt Kc _. rewrite Kc, Kt in *. rewrite (nb_sum _ Hb p m0) by done.
    f_equal. unfold parent_tx. destruct (parent p) as [q|]; [|done]. cbn. pose proof (ev_meta _ _ E q) as Mq. cbn in Mq.
    destruct (metas st !! q), (metas st' !! q); try done. destruct Mq as [Kq _]. unfold key in Kq. cbn. congruence.
Qed.

Hypothesis Hok : ChainBackendOk parent at_tip valid.

Lemma backend_in st : node_base st → ChainBackendOk (parent_in (mapBlockIndex st)) at_tip valid.
Proof.
  intros Hb. assert (∀ p q, parent_in (mapBlockIndex st) p = Some q → parent p = Some q) as Hp.
  { intros p q. unfold parent_in. destruct (mapBlockIndex st !! p) as [b|] eqn:E; [|done]. cbn. by rewrite (nb_parent _ Hb p b E). }
  split; [intros c t p chk E|intros c t q E]; apply Hp in E; [by apply connect_ok|by apply disconnect_ok].
Qed.

Lemma ActivateBestChain_inv st pblock fAlreadyChecked : node_inv st →
  ∃ st', ActivateBestChain st pblock fAlreadyChecked = Some (true, st') ∧ mapBlockIndex st' = mapBlockIndex st ∧ headers st' = headers st ∧ node_inv st'.
Proof.
  intros [Hb Hq]. destruct (activate_best at_tip valid st pblock fAlreadyChecked (backend_in st Hb) (nb_chain _ Hb) (nb_tip _ Hb))
    as (st' & t & E & Ev & Hc & Et & Hat & (_ & _ & Hv) & _).
  apply evolves_empty in Ev as Ev'. exists st'. split_and!; [done|apply Ev..|]. split; [|by eapply evolves_queue]. apply (evolves_base st); [done..|].
  intros t' Et'. assert (t' = t) as -> by congruence. by rewrite (ev_index _ _ Ev).
Qed.

(** ** [InvalidateBlock] *)

Lemma DisconnectTip_step st t b q : linked (mapBlockIndex st) → mapBlockIndex st !! t = Some b → pprev b = Some q →
  chainActive st = branch (mapBlockIndex st) t → parent t = Some q → at_tip (pcoinsTip st) t →
  ∃ c, DisconnectTip st = Some (true, with_chain (with_coins st c) (branch (mapBlockIndex st) q)) ∧ at_tip c q.
Proof.
  intros Hl Hb Hq Hch Hpar Hat. destruct (disconnect_ok (pcoinsTip st) t q Hpar Hat) as (c & Ec & Hc). exists c. split; [|done].
  unfold DisconnectTip. rewrite Hch, (Tip_branch _ t b) by done. cbn [mbind option_bind]. rewrite Ec, Hb. cbn [mbind option_bind]. rewrite Hq.
  cbn [UpdateTip mbind option_bind chainActive mapBlockIndex with_coins with_chain]. destruct (Hl t b Hb) as [_ Hp]. rewrite Hq in Hp. destruct Hp as (bq & Hbq & _).
  do 3 f_equal. rewrite Hch. apply (SetTip_branch (mapBlockIndex st) Hl) with (b := bq); [|done]. right. by exists t, b.
Qed.

(** The loop marks blocks above [p] only, and the tip moves down from [t0]. *)
Record unwinds (st0 : main_state C) (p t0 : ptr) st (t : ptr) : Prop := {
  un_evolves : evolves st0 st;
  un_below x : ¬ ancestor (mapBlockIndex st0) p x → metas st !! x = metas st0 !! x;
  un_chain : chainActive st = branch (mapBlockIndex st0) t;
  un_coins : at_tip (pcoinsTip st) t;
  un_anc : ancestor (mapBlockIndex st0) t t0;
}.

Lemma invalidate_loop_spec st0 p t0 bp q fuel : node_base st0 → mapBlockIndex st0 !! p = Some bp → pprev bp = Some q →
  ∀ st t bt, unwinds st0 p t0 st t → mapBlockIndex st0 !! t = Some bt → nHeight bt - nHeight bp < Z.of_nat fuel →
  ∃ st' t', invalidate_loop st fuel p = Some (true, st') ∧ unwinds st0 p t0 st' t' ∧ ¬ ancestor (mapBlockIndex st0) p t'.
Proof.
  intros Hb Hbp Hq. pose proof (proj1 (nb_chain _ Hb)) as Hi. pose proof (inv_linked _ Hi) as Hl.
  induction fuel as [|fuel IH]; intros st t bt Hu Hbt Hf; pose proof (ev_index _ _ (un_evolves _ _ _ _ _ Hu)) as EI.
  all: assert (Contains (mapBlockIndex st) (chainActive st) p = true ↔ ancestor (mapBlockIndex st0) p t) as HC
    by (rewrite <-EI; apply Contains_tip; rewrite ?EI; [done|apply Hu|by eexists..]).
  all: cbn [invalidate_loop]; destruct (Contains _ _ p) eqn:Ec;
    [assert (ancestor (mapBlockIndex st0) p t) as Ha by (by apply HC)|exists st, t; split_and!; [done..|]; by intros ?%HC].
  { destruct (anc_ancestor_ref _ p t bp Hl Ha Hbp) as [_ Hle]. specialize (Hle bt Hbt). lia. }
  assert (∃ r, pprev bt = Some r) as (r & Hr).
  { destruct Ha as [x b0 Hb0|x y b0 r Hb0 Hr Ha]; [exists q; congruence|exists r; congruence]. }
  destruct (Hl t bt Hbt) as [_ Hpp]. rewrite Hr in Hpp. destruct Hpp as (br & Hbr & Eh).
  rewrite (un_chain _ _ _ _ _ Hu), (Tip_branch _ t bt) by done. cbn [mbind option_bind].
  set (st1 := erase_candidate (update_meta st t (set_flag BLOCK_FAILED_CHILD)) t).
  destruct (DisconnectTip_step st1 t bt r) as (c & -> & Hc); cbn [st1 erase_candidate with_candidates update_meta mapBlockIndex]; rewrite ?EI; try done.
  { by apply Hu. } { rewrite <-Hr. symmetry. by apply Hb. } { apply Hu. }
  cbn [mbind option_bind]. apply (IH _ r br); [|done|lia].
  assert (marks (t =.) st st1) as M by (eapply marks_trans; [by apply (update_failed_evolves st t BLOCK_FAILED_CHILD)|apply erase_marks]).
  split.
  - etransitivity; [apply Hu|]. etransitivity; [apply (mk_evolves _ _ _ M)|]. by apply evolves_candidates.
  - intros x Hx. rewrite <-(un_below _ _ _ _ _ Hu x Hx). cbn. apply lookup_alter_ne. intros ->. done.
  - done.
  - done.
  - eapply ancestor_trans; [|apply Hu]. eapply anc_parent; [done..|by eapply anc_self].
Qed.

(** The candidates are complete after they have been collected again. *)
Lemma readd_inv st0 st p t : node_base st0 → evolves st0 st → unfailed st t → linked_block st t → chainActive st = branch (mapBlockIndex st0) t →
  chain_inv (with_best_invalid (readd_candidates st t) p) ∧ chain_inv (readd_candidates st t).
Proof.
  intros Hb E Hu Hl Hch. pose proof (proj1 (nb_chain _ Hb)) as Hi0. pose proof (tree_inv_evolves _ _ Hi0 E) as Hi. pose proof (ev_index _ _ E) as EI.
  set (S := setBlockIndexCandidates (readd_candidates st t)). cbn [setBlockIndexCandidates readd_candidates with_candidates] in S.
  assert (∀ x, x ∈ S → linked_block st x) as HS.
  { intros x [Hx|Hx]%elem_of_union; [by apply (inv_cand _ Hi)|]. apply elem_of_dom in Hx as [m Hx]. apply map_lookup_filter_Some in Hx as [Hm Hc].
    exists m. split; [done|]. lia. }
  assert (∀ x, linked_block st x → unfailed st x → CBlockIndexWorkComparator st x t = false → x ∈ S) as Hcomp.
  { intros x (m & Hm & Hne) Hux Hx. apply elem_of_union. right. apply elem_of_dom. exists m. apply map_lookup_filter_Some. split; [done|].
    destruct (Hux x) as (m' & Hm' & Hf); [destruct (proj1 (inv_dom _ Hi x) ltac:(by eexists)) as [b ?]; by eapply anc_self|].
    assert (m' = m) as -> by congruence. destruct (ev_Some' _ _ _ _ E Hm) as (m0 & Hm0 & K & _). injection K as _ _ Kc _.
    pose proof (nb_validity _ Hb x m0 Hm0 ltac:(congruence)). pose proof (ev_validity _ _ E x m0 m Hm0 Hm). unfold IsValid. rewrite Hf, Hx.
    fold (validity m). lia. }
  assert (t ∈ S) as HtS by (apply Hcomp; [done..|apply comparator_irrefl]).
  destruct Hi. split; (split; [by split|]; exists t; split; [split; [cbn; congruence|done..]|done]).
Qed.

Lemma InvalidateBlock_inv st p : node_inv st → allowed parent maxTx (Invalidate p) st →
  ∃ st', InvalidateBlock st p = Some (true, st') ∧ mapBlockIndex st' = mapBlockIndex st ∧ headers st' = headers st ∧ node_inv st'.
Proof.
  intros [Hb Hq] (bp & Hbp & q & Hpq). pose proof (nb_chain _ Hb) as (Hi & t0 & Htip & _). pose proof (inv_linked _ Hi) as Hl.
  destruct (tip_linked _ _ Htip) as (mt & Hmt & _). destruct (proj1 (inv_dom _ Hi t0) ltac:(by eexists)) as [bt Hbt].
  destruct (nb_tip _ Hb t0 (chain_inv_tip st t0 Hi Htip)) as [Hat Hv]. unfold InvalidateBlock.
  set (st1 := erase_candidate (update_meta st p (set_flag BLOCK_FAILED_VALID)) p).
  assert (marks (p =.) st st1) as M by (eapply marks_trans; [by apply (update_failed_evolves st p BLOCK_FAILED_VALID)|apply erase_marks]).
  assert (ancestor (mapBlockIndex st) p p) as Hpp by (by eapply anc_self).
  destruct (invalidate_loop_spec st p t0 bp q (length (chainActive st1)) Hb Hbp Hpq st1 t0 bt) as (st2 & t & -> & [E Hbel Hch Hc Ha] & Hnp); [|done| |].
  { split; [apply M| |apply Htip|done|by eapply anc_self]. intros x Hx. cbn. apply lookup_alter_ne. intros ->. done. }
  { cbn. rewrite (tip_chain _ _ Htip), (length_branch _ t0 bt) by done. destruct (Hl p bp Hbp), (Hl t0 bt Hbt). lia. }
  cbn [mbind option_bind negb]. pose proof (ancestor_in _ _ _ Ha) as [[b' Hb'] _].
  rewrite Hch, (Tip_branch _ t b') by done. cbn [mbind option_bind]. unfold InvalidChainFound.
  cbn [chainActive readd_candidates with_candidates]. rewrite Hch, (Tip_branch _ t b') by done. cbn [mbind option_bind].
  assert (unfailed st2 t) as Hu2.
  { intros a Hat'. rewrite (ev_index _ _ E) in Hat'. rewrite Hbel by (intros Hpa; by apply Hnp; eapply ancestor_trans). apply (tip_unfailed _ _ Htip). by eapply ancestor_trans. }
  assert (linked_block st2 t) as Hl2 by (rewrite (ev_linked_block _ _ _ E); eapply linked_ancestor; [done..|apply Htip]).
  match goal with |- context [Some (true, ?s)] => set (st3 := s) end.
  destruct (readd_inv st st2 (Some p) t Hb E Hu2 Hl2 Hch) as [Hc3 Hc3'].
  assert (chain_inv st3) as Hinv by (unfold st3; by case_match).
  assert (evolves st (with_candidates st3 ∅)) as E3.
  { etransitivity; [done|]. unfold st3. case_match; by apply evolves_candidates. }
  exists st3. split_and!; [done|apply E3..|]. split; [|by eapply evolves_queue]. apply (evolves_base st); [done..|].
  assert (chainActive st3 = branch (mapBlockIndex st) t ∧ pcoinsTip st3 = pcoinsTip st2) as [Ech Eco] by (unfold st3; by case_match).
  intros t' Et. rewrite Ech, (Tip_branch _ t b') in Et by done. injection Et as <-. rewrite Eco. split; [done|].
  pose proof (ev_index _ _ E3) as EI. cbn in EI. rewrite EI. intros a Hax. apply Hv. by eapply ancestor_trans.
Qed.

(** ** Reachable states *)

Lemma record_proof_ok st hash proof : node_ok st → node_ok (record_proof st hash proof).
Proof.
  intros [[[(Hi & t & Htip & Hc) H2 H3 H4 H5 H6 H7] [Q1 Q2 Q3]] [K1 K2 K3 K4 K5 K6]]. split; [split|by split].
  - split; try done. split; [by destruct Hi|]. exists t. by split; [destruct Htip|].
  - by split.
Qed.

Lemma run_event_inv e st : node_ok st → allowed parent maxTx e st → ∃ st', run_event Params literal genesis e st = Some st' ∧ node_ok st'.
Proof.
  intros [Hn Hk] Ha. destruct e as [hash proof|p hash prev flags version time bits|p pos txs|pblock chk|p]; cbn [run_event].
  - eexists. split; [done|]. by apply record_proof_ok.
  - destruct (AddToBlockIndex_inv st p hash prev flags version time bits (conj Hn Hk) Ha) as (x & st' & -> & Hn'). by exists st'.
  - destruct (ReceivedBlockTransactions_inv st p pos txs Hn Ha) as (st' & E & Hn'). exists st'. split; [done|]. split; [done|]. by eapply ReceivedBlockTransactions_kernel.
  - destruct (ActivateBestChain_inv st pblock chk Hn) as (st' & -> & EI & EH & Hn'). exists st'. split; [done|]. split; [done|]. unfold kernel_of. by rewrite EI, EH.
  - destruct (InvalidateBlock_inv st p Hn Ha) as (st' & -> & EI & EH & Hn'). exists st'. split; [done|]. split; [done|]. unfold kernel_of. by rewrite EI, EH.
Qed.

Lemma reachable_inv init st : node_ok init → reachable Params literal genesis parent maxTx init st → node_ok st.
Proof.
  intros Hn. induction 1 as [|st e st' _ IH Ha E]; [done|]. destruct (run_event_inv e st IH Ha) as (st2 & E2 & Hn2). congruence.
Qed.

Lemma ancestor_singleton g b a x : pprev b = None → ancestor {[g := b]} a x → a = g ∧ x = g.
Proof.
  intros Hp. induction 1 as [x c Hc|a x c q Hc Hq _ _]; apply lookup_singleton_Some in Hc as [<- <-]; [done|congruence].
Qed.

Lemma genesis_inv g b work c : pprev b = None → nHeight b = 0 → parent g = None → at_tip c g → valid g = true → 1 ≤ maxTx < 2 ^ 32 →
  node_inv (genesis_state g b work c).
Proof using Type.
  intros Hp Hh Hpar Hat Hv Hmax. set (st := genesis_state g b work c). set (m := Meta work (Z.lor BLOCK_VALID_TRANSACTIONS BLOCK_HAVE_DATA) 1 1 1).
  assert (∀ x b0, mapBlockIndex st !! x = Some b0 → x = g ∧ b0 = b) as Hx by (intros x b0; cbn; by intros [<- <-]%lookup_singleton_Some).
  assert (∀ x m0, metas st !! x = Some m0 → x = g ∧ m0 = m) as Hm by (intros x m0; cbn; by intros [<- <-]%lookup_singleton_Some).
  assert (linked_block st g) as Hl by (exists m; by split; [apply lookup_singleton_eq|]).
  assert (linked (mapBlockIndex st)) as Hlk by (intros x b0 [-> ->]%Hx; by rewrite Hp, Hh).
  assert (Tip (chainActive st) = Some g) as Et by done.
  split; split.
  - split.
    + split; [done| | | | |].
      * intros x b0 q [-> ->]%Hx. congruence.
      * by intros x y b1 b2 [-> ->]%Hx [-> ->]%Hx.
      * intros x. cbn. by rewrite !lookup_singleton_is_Some.
      * intros x m0 [-> ->]%Hm _. split; [done|]. intros b0 q [_ ->]%Hx. congruence.
      * intros x. cbn. by intros ->%elem_of_singleton.
    + exists g. split_and!; [split; [|done|]|by apply elem_of_singleton|].
      * unfold branch. cbn. rewrite lookup_singleton_eq, Hh. cbn. unfold ancestor_ref. rewrite lookup_singleton_eq. cbn. by rewrite Hh.
      * intros a [-> _]%ancestor_singleton; [|done]. exists m. by split; [apply lookup_singleton_eq|].
      * intros x (m0 & [-> _]%Hm & _) _ _. by apply elem_of_singleton.
  - intros x b0 [-> ->]%Hx. congruence.
  - intros t [= <-]. split; [done|]. by intros a [-> _]%ancestor_singleton.
  - by intros x m0 [-> ->]%Hm _.
  - intros x b0 [-> ->]%Hx. rewrite Hh. lia.
  - intros x b0 m0 [-> ->]%Hx [_ ->]%Hm. rewrite Hh. cbn. lia.
  - intros x m0 [-> ->]%Hm _. unfold parent_tx. by rewrite Hpar.
  - constructor.
  - by intros x ?%elem_of_nil.
  - by intros q x ?%elem_of_nil.
Qed.

Lemma genesis_ok g b work c : pprev b = None → nHeight b = 0 → parent g = None → at_tip c g → valid g = true → 1 ≤ maxTx < 2 ^ 32 →
  words 8 (phashBlock b) → fits 32 (nTime b) → node_ok (genesis_state g b work c).
Proof using Type.
  intros Hp Hh Hpar Hat Hv Hmax Hw Ht. split; [by apply genesis_inv|]. unfold kernel_of, genesis_state. cbn [mapBlockIndex headers stake_fields mapProofOfStake].
  assert (kernel_inv (KernelState ∅ ∅ ∅)) as H0 by (by split; cbn; intros).
  rewrite <-!insert_empty. apply (kernel_inv_insert (KernelState ∅ ∅ ∅)); try done; [by rewrite Hp|lia].
Qed.

End node.
