(* ===== verification/ChainProps.v ===== *)
(** The properties of chain selection: [FindMostWorkChain], [ActivateBestChain], and the
    states that events lead to, with a block tree of four blocks as the example. *)

From S2P Require Import Prelude ArithUint256 ChainParams BlockIndex BlockIndexFacts Pow PowFacts Interpreter InterpreterFacts HmacFacts StakeModifier StakeModifierFacts ChainState ChainStateFacts ChainSelectionFacts ChainReachFacts.

(** ** A tree of four blocks *)

(** Block 0 is the genesis block, 1 and 2 are its children and 3 is the child of 2.
    The coins are the path to the tip; block 3 breaks a rule in the second backend. *)
Definition demo_parent (p : ptr) : option ptr :=
  match p with 1 | 2 => Some 0 | 3 => Some 2 | _ => None end%nat.
Fixpoint demo_path (fuel : nat) (p : ptr) : list ptr :=
  match fuel with
  | O => [p]
  | S fuel => p :: match demo_parent p with Some q => demo_path fuel q | None => [] end
  end.
Definition demo_backend (valid : ptr → bool) : ChainBackend (list ptr) := {|
  connect_block c p _ := if valid p then ConnectOk (p :: c) else ConnectInvalid false;
  disconnect_block c _ := Some (tail c);
|}.
Definition demo_at_tip (c : list ptr) (t : ptr) : Prop := c = demo_path 3 t.
Definition demo_hash (p : ptr) : uint256 := replicate 32 (Z.of_nat p).
Definition demo_genesis : CBlockIndex := MkBlockIndex (demo_hash 0) None None 0 0 1 1000 demo_bits.
Definition demo_init : main_state (list ptr) := genesis_state 0%nat demo_genesis 100 [0%nat].
Definition demo_literal : Z := 0x400000.
(** The headers arrive in order, block 3 before block 2. *)
Definition demo_header (p q : ptr) : node_event := NewHeader p (demo_hash p) (demo_hash q) 0 1 (1000 + Z.of_nat p) demo_bits.
Definition demo_events : list node_event :=
  [demo_header 1 0; demo_header 2 0; demo_header 3 2; NewBlock 3 false 4; NewBlock 1 true 2; Activate (Some 1%nat) true; NewBlock 2 false 3].

(** [allowed] as a function, with at most 100 transactions in a block. *)
Definition demo_allowed (e : node_event) (st : main_state (list ptr)) : bool :=
  match e with
  | NewProof _ _ => true
  | NewHeader p hash hashPrevBlock _ _ time bits =>
      match mapBlockIndex st !! p, find_block (mapBlockIndex st) hashPrevBlock with
      | None, Some q => bool_decide (words 8 hash) && bool_decide (0 ≤ time < 2 ^ 32) && bool_decide (0 ≤ bits < 2 ^ 32) && bool_decide (demo_parent p = Some q) &&
          match mapBlockIndex st !! q with Some b => (nHeight b + 2) * 100 <? 2 ^ 32 | None => false end
      | _, _ => false
      end
  | NewBlock p _ txs =>
      match metas st !! p with Some m => negb (have_data m) && negb (failed m) && (1 <=? txs) && (txs <=? 100) | None => false end
  | Activate _ _ => true
  | Invalidate p => match mapBlockIndex st !! p with Some b => bool_decide (is_Some (pprev b)) | None => false end
  end.
Fixpoint demo_run (valid : ptr → bool) (l : list node_event) (st : main_state (list ptr)) : option (main_state (list ptr)) :=
  match l with
  | [] => Some st
  | e :: l => if demo_allowed e st then st ← run_event testNetParams demo_literal (demo_hash 0) (HB := demo_backend valid) e st; demo_run valid l st else None
  end.
Definition demo_state (valid : ptr → bool) (l : list node_event) : main_state (list ptr) := default demo_init (demo_run valid l demo_init).

(** [n] rounds of the loop of [ActivateBestChain], all of which ask for another one. *)
Fixpoint activate_rounds `{ChainBackend C} (n : nat) (st : main_state C) (pblock : option ptr) (fAlreadyChecked : bool) : option (main_state C) :=
  match n with
  | O => Some st
  | S n =>
      '(r, st) ← activate_round st pblock fAlreadyChecked;
      match r with Again => activate_rounds n st pblock fAlreadyChecked | Return _ => None end
  end.

(** Stored blocks that turn out to be corrupt. *)
Definition corrupt_backend : ChainBackend (list ptr) := {|
  connect_block _ _ _ := ConnectInvalid true;
  disconnect_block c _ := Some (tail c);
|}.

Section properties.
Context {C : Type}.
Implicit Types st : main_state C.

(** [FindMostWorkChain] returns, its assertions hold, and the result is the best of
    all linked blocks without a failed ancestor, whether they are candidates or not;
    it removes only candidates that descend from a failed block and keeps the
    invariant of the block index. *)
Theorem FindMostWorkChain_correct st : chain_inv st →
  ∃ m st', FindMostWorkChain st = Some (Some m, st') ∧ chain_inv st' ∧ chainActive st' = chainActive st ∧
    m ∈ setBlockIndexCandidates st' ∧ linked_block st m ∧ unfailed st m ∧
    ∀ p, linked_block st p → unfailed st p → CBlockIndexWorkComparator st m p = false.
Proof.
  intros (Hi & t & Htip & Htc & Hcomp).
  pose proof (chain_inv_loop (λ _ _, True) (λ _, true) st t Hi Htip Htc Hcomp I ltac:(done)) as Hl.
  destruct (find_most_work_spec (λ _ _, True) (λ _, true) st Hi _ st t Hl (le_n _)) as (m & st' & E & Hl' & Ev & Ech & Hm & Hum & Hmax & Hk).
  assert (unfailed st' t) as Hut by (apply (lp_tip _ _ _ _ _ Hl')). pose proof (tree_inv_evolves _ _ Hi Ev) as Hi'.
  exists m, st'. split_and!; [done| |done|done| | |].
  - split; [done|]. exists t. split_and!; [apply Hl'|by apply Hk|]. intros p Hlp Hup Hpt. apply Hk; [|done].
    rewrite (ev_comparator st st') in Hpt by done. apply Hcomp; [by rewrite <-(ev_linked_block _ _ _ Ev)|by eapply ev_unfailed|done].
  - rewrite <-(ev_linked_block _ _ _ Ev). by apply (inv_cand _ Hi').
  - by eapply ev_unfailed.
  - intros p Hlp Hup. assert (is_Some (metas st !! m)) as Im.
    { destruct (proj1 (ev_linked_block _ _ _ Ev) (inv_cand _ Hi' m Hm)) as (? & ? & _). by eexists. }
    rewrite <-(ev_comparator st st') by done. assert (unfailed st' p) as Hup' by (by apply (lp_good _ _ _ _ _ Hl')).
    destruct (CBlockIndexWorkComparator st p t) eqn:Ept; [|by apply Hmax, Hk; [apply Hcomp|]].
    rewrite <-(ev_comparator st st') in Ept by done. destruct (CBlockIndexWorkComparator st' m p) eqn:Emp; [|done].
    rewrite <-(Hmax t (Hk t Htc Hut)). by rewrite (comparator_trans st' m p t).
Qed.

(** C2: With a backend that connects exactly the blocks that obey the rules,
    [ActivateBestChain] returns true: its loop ends, none of its assertions fails, and
    the new tip is, in the order of the candidates, the best of all linked blocks whose
    ancestors had not failed and obey the rules.  The coins are those of the tip and
    the invariant of the block index holds again. *)
Theorem ActivateBestChain_best `{HB : ChainBackend C} at_tip valid st pblock fAlreadyChecked :
  ChainBackendOk (parent_in (mapBlockIndex st)) at_tip valid → chain_inv st →
  (∀ t, Tip (chainActive st) = Some t → at_tip (pcoinsTip st) t ∧ ∀ a, ancestor (mapBlockIndex st) a t → valid a = true) →
  ∃ st' t, ActivateBestChain st pblock fAlreadyChecked = Some (true, st') ∧ chain_inv st' ∧ Tip (chainActive st') = Some t ∧
    at_tip (pcoinsTip st') t ∧ good valid st t ∧ ∀ p, good valid st p → CBlockIndexWorkComparator st t p = false.
Proof.
  intros Hok Hi Hb. destruct (activate_best at_tip valid st pblock fAlreadyChecked Hok Hi Hb) as (st' & t & E & _ & H). by exists st', t.
Qed.

(** C3: On a network with positive modifier intervals, and with a backend that connects
    exactly the blocks that obey the rules and disconnects them again: whatever headers,
    proofs of stake and blocks arrive, in whatever order, and whenever the best chain is
    activated or a block is invalidated, starting from the genesis block, the invariant of
    the block index and that of its stake modifiers hold in every state, the 32-bit counter
    [nChainTx] of a linked block is the sum over its chain, and the next event succeeds,
    that is, none of the assertions fails, nothing is divided by zero and no loop runs on. *)
Theorem chain_state_safe (Params : CChainParams) `{HF : HashFunctions} `{HO : !HashFunctionsOk} literal genesis `{HB : ChainBackend C}
    at_tip valid parent maxTx g b work c st :
  intervals_ok Params → fits 64 literal → ChainBackendOk parent at_tip valid →
  pprev b = None → nHeight b = 0 → words 8 (phashBlock b) → fits 32 (nTime b) → parent g = None → at_tip c g → valid g = true →
  1 ≤ maxTx < 2 ^ 32 → reachable Params literal genesis parent maxTx (genesis_state g b work c) st →
  chain_inv st ∧ kernel_inv (kernel_of st) ∧
  (∀ p m, metas st !! p = Some m → nChainTx m ≠ 0 → nChainTx m = parent_tx parent st p + nTx m) ∧
  ∀ e, allowed parent maxTx e st → ∃ st', run_event Params literal genesis e st = Some st'.
Proof.
  intros Hiv Hlit Hok Hp Hh Hw Ht Hpar Hat Hv Hmax Hr.
  destruct (reachable_inv Params literal genesis at_tip valid parent maxTx Hiv Hlit Hok (genesis_state g b work c) st) as [[Hb Hq] Hk]; [by apply genesis_ok|done|].
  split_and!; [apply Hb|done|apply Hb|].
  intros e He. destruct (run_event_inv Params literal genesis at_tip valid parent maxTx Hiv Hlit Hok e st) as (st' & ? & _); [by split|done|by exists st'].
Qed.

(** C40: When the stored copy of the next block of the best chain is corrupt, [ConnectTip]
    neither marks the block nor reports an error.  In any consistent state whose best
    chain extends the tip by such a block, every round of [ActivateBestChain] runs to its
    end without a failed assertion, leaves the state as it was and asks for another
    round: the loop never ends. *)
Theorem ActivateBestChain_corrupt_loops `{HB : ChainBackend C} st st1 t m c bc pblock fAlreadyChecked :
  chain_inv st → Tip (chainActive st) = Some t → FindMostWorkChain st = Some (Some m, st1) →
  mapBlockIndex st !! c = Some bc → pprev bc = Some t → ancestor (mapBlockIndex st) c m →
  (∀ k, connect_block (pcoinsTip st) c k = ConnectInvalid true) →
  Tip (chainActive st1) = Some t ∧ (∀ n, activate_rounds (S n) st pblock fAlreadyChecked = Some st1) ∧
  ∀ fuel, activate st fuel pblock fAlreadyChecked = None.
Proof.
  intros (Hi & t0 & Htip & Htc & Hcomp) Et E Hbc Hpc Hcm Hcor. pose proof (chain_inv_tip st t0 Hi Htip) as Et0. assert (t0 = t) as -> by congruence.
  pose proof (chain_inv_loop (λ _ _, True) (λ _, true) st t Hi Htip Htc Hcomp I ltac:(done)) as Hl.
  destruct (find_most_work_spec (λ _ _, True) (λ _, true) st Hi _ st t Hl (le_n _)) as (m' & st' & E' & Hl' & Ev & Ech & _).
  unfold FindMostWorkChain in E. rewrite E in E'. injection E' as <- <-. pose proof (tree_inv_evolves _ _ Hi Ev) as Hi1. pose proof (ev_index _ _ Ev) as EI.
  destruct (inv_linked _ Hi c bc Hbc) as [_ Hh]. rewrite Hpc in Hh. destruct Hh as (bt & Hbt & Hh).
  assert (t ≠ m) as Hne.
  { intros ->. destruct (anc_ancestor_ref _ c m bc (inv_linked _ Hi) Hcm Hbc) as [_ Hle]. specialize (Hle bt Hbt). lia. }
  assert (∀ s, FindMostWorkChain s = Some (Some m, st1) → activate_round s pblock fAlreadyChecked = Some (Again, st1)) as Hround.
  { intros s Es. unfold activate_round. rewrite Es. cbn [mbind option_bind]. rewrite Ech, Et, decide_False by congruence.
    rewrite (corrupt_step st1 t m c bt bc); rewrite ?EI; try done; [|rewrite Ech; apply Htip|by rewrite (find_most_work_coins _ _ _ _ E)].
    cbn [mbind option_bind negb]. by rewrite Ech, Et, decide_False by congruence. }
  pose proof (Hround st E) as H1. pose proof (Hround st1 (find_most_work_again _ _ _ _ E _)) as H2.
  split_and!; [by rewrite Ech| |].
  - intros n. cbn [activate_rounds]. rewrite H1. cbn [mbind option_bind]. induction n as [|n IH]; [done|]. cbn [activate_rounds]. by rewrite H2.
  - assert (∀ fuel, activate st1 fuel pblock fAlreadyChecked = None) as Hloop.
    { induction fuel as [|fuel IH]; cbn [activate]; rewrite H2; [done|exact IH]. }
    intros [|fuel]; cbn [activate]; rewrite H1; [done|apply Hloop].
Qed.

End properties.

(** [ReconsiderBlock] clears the flags of the ancestors of block 3 without making them
    candidates again.  Block 3 breaks a rule, so the new tip is block 2, and it is not a
    candidate. *)
Example ReconsiderBlock_tip_not_candidate : let valid p := negb (p =? 3)%nat in
  ∃ st st', ReconsiderBlock (demo_state valid [demo_header 2 0; demo_header 3 2; NewBlock 2 false 3; NewBlock 3 false 4; Activate None false;
      Invalidate 2; Activate None false]) 3%nat = Some st ∧ ActivateBestChain (H := demo_backend valid) st None false = Some (true, st') ∧
    Tip (chainActive st') = Some 2%nat ∧ 2%nat ∉ setBlockIndexCandidates st'.
Proof.
  eexists _, _. split_and!; [vm_compute; reflexivity|vm_compute; reflexivity|reflexivity|]. apply (bool_decide_eq_true_1 _). vm_compute. reflexivity.
Qed.

(** * Witnesses *)

Lemma demo_backend_ok valid : ChainBackendOk (H := demo_backend valid) demo_parent demo_at_tip valid.
Proof.
  assert (∀ p t, demo_parent p = Some t → demo_path 3 p = p :: demo_path 3 t) as Hp.
  { intros p t. do 4 (destruct p as [|p]; [by intros [= <-] || done|]). done. }
  split.
  - intros c t p chk E ->. cbn [connect_block demo_backend]. destruct (valid p); [|done]. split; [done|]. unfold demo_at_tip. by rewrite (Hp p t).
  - intros c t q E ->. cbn [disconnect_block demo_backend]. eexists. split; [done|]. unfold demo_at_tip. by rewrite (Hp t q).
Qed.

Lemma demo_allowed_ok e st : demo_allowed e st = true → allowed demo_parent 100 e st.
Proof.
  destruct e as [|p hash prev flags version time bits|p pos txs| |p]; cbn; [done|..].
  - destruct (mapBlockIndex st !! p) eqn:E1; [done|]. destruct (find_block _ prev) as [q|] eqn:E2; [|done].
    intros [[[[Hw%bool_decide_eq_true Ht%bool_decide_eq_true]%andb_prop H1%bool_decide_eq_true]%andb_prop H2%bool_decide_eq_true]%andb_prop H3]%andb_prop.
    destruct (mapBlockIndex st !! q) as [b|] eqn:E3; [|done]. split_and!; [done|exact Hw|exact Ht|exact H1|]. exists q, b. split_and!; [done..|lia].
  - destruct (metas st !! p) as [m|]; [|done]. intros H. exists m. destruct (have_data m), (failed m); cbn in H; try done. split_and!; done || lia.
  - done.
  - destruct (mapBlockIndex st !! p) as [b|]; [|done]. intros H%bool_decide_eq_true. by exists b.
Qed.

Lemma demo_reachable valid l st : demo_run valid l demo_init = Some st → reachable testNetParams demo_literal (demo_hash 0) (HB := demo_backend valid) demo_parent 100 demo_init st.
Proof.
  assert (∀ st0, reachable testNetParams demo_literal (demo_hash 0) (HB := demo_backend valid) demo_parent 100 demo_init st0 → demo_run valid l st0 = Some st →
    reachable testNetParams demo_literal (demo_hash 0) (HB := demo_backend valid) demo_parent 100 demo_init st) as Hgen; [|apply Hgen; constructor].
  induction l as [|e l IH]; intros st0 Hr; cbn [demo_run]; [by intros [= <-]|]. destruct (demo_allowed e st0) eqn:Ha; [|done].
  destruct (run_event _ _ _ e st0) as [st1|] eqn:E; [|done]. cbn [mbind option_bind]. apply IH. eapply reach_step; [done| |done]. by apply demo_allowed_ok.
Qed.

Lemma demo_literal_fits : fits 64 demo_literal.
Proof. by vm_compute. Qed.
Lemma demo_genesis_bytes : words 8 (phashBlock demo_genesis).
Proof. apply (bool_decide_unpack _). vm_compute. exact I. Qed.

Lemma demo_node_inv valid l : valid 0%nat = true → is_Some (demo_run valid l demo_init) → node_inv demo_at_tip valid demo_parent 100 (demo_state valid l).
Proof.
  intros Hv [st E]. unfold demo_state. rewrite E. cbn. refine (proj1 (reachable_inv (HB := demo_backend valid) testNetParams demo_literal (demo_hash 0) demo_at_tip valid
    demo_parent 100 testNet_intervals demo_literal_fits (demo_backend_ok valid) demo_init st _ (demo_reachable valid l st E))).
  by apply genesis_ok; [..|apply demo_genesis_bytes|].
Qed.

(** Block 3 has the most work. *)
Lemma FindMostWorkChain_correct_witness : let st := demo_state (λ _, true) demo_events in
  ∃ m st', FindMostWorkChain st = Some (Some m, st') ∧ m = 3%nat ∧ ∀ p, linked_block st p → unfailed st p → CBlockIndexWorkComparator st m p = false.
Proof.
  intros st. destruct (FindMostWorkChain_correct st) as (m & st' & E & _ & _ & _ & _ & _ & Hbest).
  - apply (demo_node_inv (λ _, true) demo_events); [done|]. vm_compute. by eexists.
  - exists m, st'. split_and!; [done| |done]. assert (fst <$> FindMostWorkChain st = Some (Some 3%nat)) as E' by (vm_compute; reflexivity).
    rewrite E in E'. by injection E'.
Defined.

(** Block 3 breaks a rule: the tip stays at block 1, which came before block 2. *)
Lemma ActivateBestChain_best_witness : let st := demo_state (λ p, negb (p =? 3)%nat) demo_events in
  ∃ st' t, ActivateBestChain (H := demo_backend (λ p, negb (p =? 3)%nat)) st None false = Some (true, st') ∧ t = 1%nat ∧ Tip (chainActive st') = Some t ∧
    ∀ p, good (λ p, negb (p =? 3)%nat) st p → CBlockIndexWorkComparator st t p = false.
Proof.
  intros st. assert (node_inv demo_at_tip (λ p, negb (p =? 3)%nat) demo_parent 100 st) as [Hb _].
  { apply demo_node_inv; [done|]. vm_compute. by eexists. }
  destruct (ActivateBestChain_best (HB := demo_backend (λ p, negb (p =? 3)%nat)) demo_at_tip (λ p, negb (p =? 3)%nat) st None false)
    as (st' & t & E & _ & Et & _ & _ & Hbest).
  - eapply (backend_in (HB := demo_backend (λ p, negb (p =? 3)%nat))); [apply demo_backend_ok|exact Hb].
  - apply Hb.
  - apply Hb.
  - exists st', t. split_and!; [done| |done|done].
    assert ((λ '(ok, s), (ok, Tip (chainActive s))) <$> ActivateBestChain (H := demo_backend (λ p, negb (p =? 3)%nat)) st None false = Some (true, Some 1%nat)) as E'
      by (vm_compute; reflexivity).
    rewrite E in E'. cbn in E'. congruence.
Defined.

(** Block 2 is invalidated while block 3 is the tip. *)
Lemma chain_state_safe_witness : let st := demo_state (λ _, true) (demo_events ++ [Activate None false; Invalidate 2; Activate None false]) in
  chain_inv st ∧ Tip (chainActive st) = Some 1%nat ∧ pindexBestHeader (headers st) = Some 3%nat ∧
  ∃ st', run_event testNetParams demo_literal (demo_hash 0) (HB := demo_backend (λ _, true)) (Invalidate 1) st = Some st'.
Proof.
  intros st. destruct (chain_state_safe testNetParams demo_literal (demo_hash 0) (HB := demo_backend (λ _, true)) demo_at_tip (λ _, true) demo_parent 100 0%nat demo_genesis 100 [0%nat] st)
    as (Hc & _ & _ & Hrun); try done.
  - apply demo_backend_ok.
  - apply demo_genesis_bytes.
  - apply (demo_reachable _ (demo_events ++ [Activate None false; Invalidate 2; Activate None false])). vm_compute. reflexivity.
  - split_and!; [done|vm_compute; reflexivity|vm_compute; reflexivity|]. apply Hrun. apply demo_allowed_ok. vm_compute. reflexivity.
Defined.

(** The genesis block is the tip, and the stored copy of its child is corrupt. *)
Lemma ActivateBestChain_corrupt_loops_witness : let st := demo_state (λ _, true) [demo_header 1 0; NewBlock 1 false 2] in
  ∃ st1, Tip (chainActive st1) = Some 0%nat ∧ (∀ n, activate_rounds (H := corrupt_backend) (S n) st None false = Some st1) ∧
    ∀ fuel, activate (H := corrupt_backend) st fuel None false = None.
Proof.
  intros st. destruct (demo_node_inv (λ _, true) [demo_header 1 0; NewBlock 1 false 2]) as [Hb _]; [done|vm_compute; by eexists|].
  exists st. refine (ActivateBestChain_corrupt_loops (HB := corrupt_backend) st st 0%nat 1%nat 1%nat (default demo_genesis (mapBlockIndex st !! 1%nat)) None false _ _ _ _ _ _ _).
  - apply Hb.
  - vm_compute. reflexivity.
  - vm_compute. reflexivity.
  - vm_compute. reflexivity.
  - vm_compute. reflexivity.
  - eapply anc_self. vm_compute. reflexivity.
  - done.
Defined.
