(* ===== verification/SigHash.v ===== *)
(** script/interpreter.cpp, second part: the serialization of a transaction for
    signing ([CTransactionSignatureSerializer]), [SignatureHash] and the
    [TransactionSignatureChecker] the interpreter is run with. *)

From S2P Require Import Prelude Script PubKey Interpreter Serialize Transaction.

(** ** [SerializeScriptCode]

    An iterator is the list of the bytes from it to the end of the script, so
    [it - itBegin] is the difference of the lengths. *)

Fixpoint count_separators (fuel : nat) (it : CScript) : Z :=
  match fuel with
  | O => 0
  | S fuel =>
      let r := GetOp2 it in
      if op_ok r then (if op_code r =? OP_CODESEPARATOR then 1 else 0) + count_separators fuel (op_rest r)
      else 0
  end.

(** The second loop and the final write; a failed [GetOp] also moves [it]. *)
Fixpoint write_segments (fuel : nat) (itBegin it : CScript) : list Z :=
  match fuel with
  | O => []
  | S fuel =>
      let r := GetOp2 it in
      let it := op_rest r in
      if op_ok r then
        if op_code r =? OP_CODESEPARATOR
        then take (length itBegin - length it - 1) itBegin ++ write_segments fuel it it
        else write_segments fuel itBegin it
      else match itBegin with [] => [] | _ => take (length itBegin - length it) itBegin end
  end.

Definition SerializeScriptCode (scriptCode : CScript) : list Z :=
  let nCodeSeparators := count_separators (length scriptCode) scriptCode in
  WriteCompactSize (size scriptCode - nCodeSeparators) ++
  write_segments (S (length scriptCode)) scriptCode scriptCode.

Section serializer.
Context (txTo : CMutableTransaction) (scriptCode : CScript) (nIn : nat) (nHashType : Z).

Definition fAnyoneCanPay : bool := negb (Z.land nHashType SIGHASH_ANYONECANPAY =? 0).
Definition fHashSingle : bool := Z.land nHashType 0x1f =? SIGHASH_SINGLE.
Definition fHashNone : bool := Z.land nHashType 0x1f =? SIGHASH_NONE.

(** [vin[i]] and [vout[i]] out of range are undefined: [None]. *)
Definition SerializeInput (nInput : nat) : option (list Z) :=
  let nInput := if fAnyoneCanPay then nIn else nInput in
  i ← vin txTo !! nInput;
  Some (Serialize_COutPoint (prevout i) ++
        (if negb (nInput =? nIn)%nat then Serialize_bytes [] else SerializeScriptCode scriptCode) ++
        (if negb (nInput =? nIn)%nat && (fHashSingle || fHashNone) then Serialize_int 4 0
         else Serialize_uint 4 (nSequence i))).

Definition SerializeOutput (nOutput : nat) : option (list Z) :=
  if fHashSingle && negb (nOutput =? nIn)%nat then Some (Serialize_CTxOut CTxOut_null)
  else o ← vout txTo !! nOutput; Some (Serialize_CTxOut o).

Definition signature_Serialize : option (list Z) :=
  let nInputs := if fAnyoneCanPay then 1%nat else length (vin txTo) in
  inputs ← mapM SerializeInput (seq 0 nInputs);
  let nOutputs := if fHashNone then 0%nat else if fHashSingle then S nIn else length (vout txTo) in
  outputs ← mapM SerializeOutput (seq 0 nOutputs);
  Some (Serialize_int 4 (nTransactionVersion txTo) ++
        WriteCompactSize (Z.of_nat nInputs) ++ concat inputs ++
        WriteCompactSize (Z.of_nat nOutputs) ++ concat outputs ++
        Serialize_uint 4 (nLockTime txTo)).

End serializer.

(** [uint256S("1")] *)
Definition uint256_one : list Z := 1 :: replicate 31 0.

Section checker.
Context `{HashFunctions} `{Secp256k1}.

(** [ss << txTmp << nHashType; return ss.GetHash()] *)
Definition SignatureHash (scriptCode : CScript) (txTo : CMutableTransaction) (nIn : nat) (nHashType : Z) :
    option (list Z) :=
  if (length (vin txTo) <=? nIn)%nat then Some uint256_one
  else if (Z.land nHashType 0x1f =? SIGHASH_SINGLE) && (length (vout txTo) <=? nIn)%nat then Some uint256_one
  else ss ← signature_Serialize txTo scriptCode nIn nHashType;
       Some (Hash256 (ss ++ Serialize_int 4 nHashType)).

(** [TransactionSignatureChecker::CheckSig] *)
Definition TransactionSignatureChecker_CheckSig (txTo : CMutableTransaction) (nIn : nat)
    (vchSigIn vchPubKey : valtype) (scriptCode : CScript) : option bool :=
  let pubkey := CPubKey_of vchPubKey in
  if negb (IsValid pubkey) then Some false
  else if bool_decide (vchSigIn = []) then Some false
  else
    let nHashType := List.last vchSigIn 0 in
    let vchSig := removelast vchSigIn in
    sighash ← SignatureHash scriptCode txTo nIn nHashType;
    Some (Verify pubkey sighash vchSig).

(** The checker object; [CheckSig_defined] of SigHashFacts.v shows that the
    default is never taken. *)
Definition TransactionSignatureChecker (txTo : CMutableTransaction) (nIn : nat) : BaseSignatureChecker :=
  {| CheckSig sig key code := default false (TransactionSignatureChecker_CheckSig txTo nIn sig key code) |}.

End checker.
