(* ===== verification/SigHashFacts.v ===== *)
(** The in-place serialization for signing is the serialization of a modified copy
    of the transaction, and commits to what the hash type says it commits to. *)

From S2P Require Import Prelude Script ScriptFacts PubKey Interpreter Serialize SerializeFacts Transaction TransactionFacts SigHash HmacFacts.

(** * The script code *)

(** The script without its OP_CODESEPARATOR instructions. *)
Fixpoint strip_separators (fuel : nat) (it : CScript) : CScript :=
  match fuel with
  | O => []
  | S fuel =>
      let r := GetOp2 it in
      let instr := take (length it - length (op_rest r)) it in
      if op_ok r then (if op_code r =? OP_CODESEPARATOR then [] else instr) ++ strip_separators fuel (op_rest r)
      else instr
  end.

(** Every instruction of the script can be read. *)
Fixpoint well_formed (fuel : nat) (it : CScript) : Prop :=
  match fuel with
  | O => it = []
  | S fuel => it = [] ∨ op_ok (GetOp2 it) = true ∧ well_formed fuel (op_rest (GetOp2 it))
  end.

Lemma GetOp2_split it :
  it = take (length it - length (op_rest (GetOp2 it))) it ++ op_rest (GetOp2 it).
Proof.
  destruct (GetOp2_sound it) as (pre & E & _). rewrite E at 1 2 4. rewrite length_app, take_app_le by lia.
  f_equal. rewrite take_ge by lia. done.
Qed.

Lemma separator_byte it :
  op_ok (GetOp2 it) = true → op_code (GetOp2 it) = OP_CODESEPARATOR → it = OP_CODESEPARATOR :: op_rest (GetOp2 it).
Proof. intros H E. destruct (GetOp2_code it H) as (x & pc & -> & Hx & Hr). rewrite Hx in E. subst x. by destruct Hr as [_ ->]. Qed.

Lemma write_segments_strip fuel p it :
  (length it < fuel)%nat → write_segments fuel (p ++ it) it = p ++ strip_separators fuel it.
Proof.
  revert p it. induction fuel as [|fuel IH]; intros p it Hf; [lia|]. cbn [write_segments strip_separators]. cbv zeta.
  pose proof (GetOp2_split it) as Hs. set (r := GetOp2 it) in *.
  set (instr := take (length it - length (op_rest r)) it) in *.
  assert (length it = length instr + length (op_rest r))%nat as Hl by (rewrite Hs at 1; apply length_app).
  destruct (op_ok r) eqn:Hok.
  - pose proof (GetOp2_shorter it Hok) as Hsh. fold r in Hsh. destruct (Z.eqb_spec (op_code r) OP_CODESEPARATOR) as [Hc|].
    + pose proof (separator_byte it Hok Hc) as Hb. fold r in Hb.
      pose proof (IH [] (op_rest r) ltac:(lia)) as IH'. rewrite app_nil_l in IH'. rewrite IH', app_nil_l.
      f_equal. rewrite length_app, Hb at 1. cbn [length].
      replace (length p + S (length (op_rest r)) - length (op_rest r) - 1)%nat with (length p) by lia.
      apply take_app_length.
    + rewrite Hs at 1. rewrite app_assoc, IH by lia. by rewrite app_assoc.
  - destruct (p ++ it) as [|x l] eqn:E.
    { apply app_eq_nil in E as [-> ->]. done. }
    assert (p ++ it = (p ++ instr) ++ op_rest r) as E2 by (by rewrite <-app_assoc, <-Hs).
    by rewrite <-E, E2, length_app, Nat.add_sub, take_app_length.
Qed.

Lemma strip_size fuel it :
  (length it < fuel)%nat → well_formed fuel it →
  size (strip_separators fuel it) = size it - count_separators (fuel - 1) it.
Proof.
  revert it. induction fuel as [|fuel IH]; intros it Hf Hw; [lia|].
  replace (S fuel - 1)%nat with fuel by lia. destruct Hw as [->|[Hok Hw]].
  { by destruct fuel. }
  destruct it as [|x it]; [done|]. destruct fuel as [|fuel]; [simpl in Hf; lia|].
  pose proof (GetOp2_split (x :: it)) as Hs. pose proof (GetOp2_shorter _ Hok) as Hsh.
  cbn [strip_separators count_separators]. cbv zeta. rewrite Hok. cbn [length] in *.
  specialize (IH (op_rest (GetOp2 (x :: it))) ltac:(lia) Hw). cbn [strip_separators] in IH. cbv zeta in IH.
  replace (S fuel - 1)%nat with fuel in IH by lia. rewrite size_app, IH.
  assert (size (x :: it) = size (take (S (length it) - length (op_rest (GetOp2 (x :: it)))) (x :: it)) +
    size (op_rest (GetOp2 (x :: it)))) as Hsz by (rewrite <-size_app; f_equal; exact Hs).
  destruct (Z.eqb_spec (op_code (GetOp2 (x :: it))) OP_CODESEPARATOR) as [Hc|]; [|lia].
  pose proof (f_equal size (separator_byte _ Hok Hc)) as Hb. rewrite (size_cons OP_CODESEPARATOR) in Hb.
  rewrite size_nil. lia.
Qed.

Definition script_wf (s : CScript) : Prop := well_formed (S (length s)) s.
Definition stripped (s : CScript) : CScript := strip_separators (S (length s)) s.

Lemma SerializeScriptCode_spec s :
  script_wf s → SerializeScriptCode s = Serialize_bytes (stripped s).
Proof.
  intros Hw. unfold SerializeScriptCode, Serialize_bytes, stripped. cbv zeta. f_equal.
  - f_equal. pose proof (strip_size (S (length s)) s ltac:(lia) Hw) as H. unfold size in *.
    replace (S (length s) - 1)%nat with (length s) in H by lia. lia.
  - apply (write_segments_strip (S (length s)) [] s). lia.
Qed.

(** * The modified copy *)

Definition blank (none_or_single : bool) (i : CTxIn) : CTxIn :=
  TxIn (prevout i) [] (if none_or_single then 0 else nSequence i) [].

(** The copy of the spending transaction that is hashed, by hash type. *)
Definition signed_copy (txTo : CMutableTransaction) (scriptCode : CScript) (nIn : nat) (nHashType : Z) :
    CMutableTransaction :=
  let single := fHashSingle nHashType in
  let none := fHashNone nHashType in
  let inputs := imap (λ k i, if (k =? nIn)%nat then TxIn (prevout i) (stripped scriptCode) (nSequence i) []
                             else blank (single || none) i) (vin txTo) in
  MTx (nTransactionVersion txTo)
      (if fAnyoneCanPay nHashType then take 1 (drop nIn inputs) else inputs)
      (if none then [] else if single then replicate nIn CTxOut_null ++ take 1 (drop nIn (vout txTo))
       else vout txTo)
      (nLockTime txTo).

Lemma mapM_seq {A B} (f : nat → option B) (g : nat → A → B) (l : list A) :
  (∀ k x, l !! k = Some x → f k = Some (g k x)) → mapM f (seq 0 (length l)) = Some (imap g l).
Proof.
  intros H. apply mapM_Some, Forall2_same_length_lookup_2; [by rewrite length_seq, length_imap|].
  intros k n y Hn Hy. apply lookup_seq in Hn as [-> _]. rewrite list_lookup_imap in Hy.
  destruct (l !! k) as [x|] eqn:E; [|done]. injection Hy as <-. simpl. by apply H.
Qed.

Lemma concat_imap {A} (ser : A → list Z) {B} (g : nat → B → A) (l : list B) :
  concat (imap (λ k x, ser (g k x)) l) = flat_map ser (imap g l).
Proof. rewrite flat_map_concat_map. f_equal. change (map ser (imap g l)) with (ser <$> imap g l). by rewrite fmap_imap. Qed.

Lemma take1_drop {A} (l : list A) k x : l !! k = Some x → take 1 (drop k l) = [x].
Proof. intros H. by rewrite (drop_S _ _ _ H). Qed.

Lemma zero_int : Serialize_int 4 0 = Serialize_uint 4 0.
Proof. done. Qed.

Section copy.
Context (txTo : CMutableTransaction) (scriptCode : CScript) (nIn : nat) (nHashType : Z).
Hypothesis (Hin : (nIn < length (vin txTo))%nat) (Hwf : script_wf scriptCode).
Hypothesis (Hsingle : fHashSingle nHashType = true → (nIn < length (vout txTo))%nat).

(** The input a position of the copy holds. *)
Definition copy_input (k : nat) (i : CTxIn) : CTxIn :=
  if (k =? nIn)%nat then TxIn (prevout i) (stripped scriptCode) (nSequence i) []
  else blank (fHashSingle nHashType || fHashNone nHashType) i.

Lemma SerializeInput_copy k i :
  fAnyoneCanPay nHashType = false → vin txTo !! k = Some i →
  SerializeInput txTo scriptCode nIn nHashType k = Some (Serialize_CTxIn (copy_input k i)).
Proof.
  intros Ha Hk. unfold SerializeInput. rewrite Ha, Hk. cbn [mbind option_bind]. f_equal.
  unfold copy_input, Serialize_CTxIn. destruct (k =? nIn)%nat; cbn [negb andb prevout scriptSig nSequence].
  - by rewrite SerializeScriptCode_spec.
  - unfold blank. cbn [prevout scriptSig nSequence]. by destruct (_ || _).
Qed.

Lemma inputs_copy :
  mapM (SerializeInput txTo scriptCode nIn nHashType)
    (seq 0 (if fAnyoneCanPay nHashType then 1 else length (vin txTo))) =
  Some (Serialize_CTxIn <$> vin (signed_copy txTo scriptCode nIn nHashType)).
Proof.
  unfold signed_copy. cbn [vin]. destruct (fAnyoneCanPay nHashType) eqn:Ha.
  - destruct (lookup_lt_is_Some_2 _ _ Hin) as [i Hi].
    rewrite (take1_drop _ _ (copy_input nIn i)) by (by rewrite list_lookup_imap, Hi).
    cbn [seq mapM]. unfold SerializeInput. rewrite Ha, Hi. cbn [mbind option_bind mret option_ret].
    unfold copy_input. rewrite Nat.eqb_refl. cbn [negb andb]. by rewrite SerializeScriptCode_spec.
  - rewrite (mapM_seq _ (λ k i, Serialize_CTxIn (copy_input k i))) by (intros; by apply SerializeInput_copy).
    f_equal. by rewrite fmap_imap.
Qed.

Lemma outputs_copy :
  mapM (SerializeOutput txTo nIn nHashType)
    (seq 0 (if fHashNone nHashType then 0 else if fHashSingle nHashType then S nIn else length (vout txTo))) =
  Some (Serialize_CTxOut <$> vout (signed_copy txTo scriptCode nIn nHashType)).
Proof.
  unfold signed_copy. cbn [vout]. destruct (fHashNone nHashType); [done|]. unfold SerializeOutput.
  destruct (fHashSingle nHashType) eqn:Hs.
  - destruct (lookup_lt_is_Some_2 _ _ (Hsingle eq_refl)) as [o Ho]. rewrite (take1_drop _ _ _ Ho).
    replace (S nIn) with (length (replicate nIn CTxOut_null ++ [o])) by (rewrite length_app, length_replicate; simpl; lia).
    rewrite (mapM_seq _ (const Serialize_CTxOut)); [by rewrite imap_const|]. intros k x Hx. cbn [andb].
    destruct (Nat.eqb_spec k nIn) as [->|Hne]; cbn [negb].
    + rewrite lookup_app_r in Hx by (rewrite length_replicate; lia). rewrite length_replicate, Nat.sub_diag in Hx.
      simpl in Hx. by rewrite Ho; simplify_eq.
    + apply lookup_app_Some in Hx as [Hx|[Hge Hx]]; [by apply lookup_replicate in Hx as [-> _]|].
      rewrite length_replicate in *. destruct (k - nIn)%nat eqn:E; [lia|done].
  - rewrite (mapM_seq _ (const Serialize_CTxOut)); [by rewrite imap_const|]. intros k x Hx. by rewrite Hx.
Qed.

Lemma signature_Serialize_copy :
  signature_Serialize txTo scriptCode nIn nHashType =
  Some (Serialize_tx (signed_copy txTo scriptCode nIn nHashType)).
Proof.
  unfold signature_Serialize. cbv zeta. rewrite inputs_copy, outputs_copy. cbn [mbind option_bind]. f_equal.
  unfold Serialize_tx, Serialize_vector.
  assert (length (vin (signed_copy txTo scriptCode nIn nHashType)) =
    if fAnyoneCanPay nHashType then 1%nat else length (vin txTo)) as ->.
  { unfold signed_copy. cbn [vin]. case_match; [|apply length_imap].
    rewrite length_take, length_drop, length_imap. lia. }
  assert (length (vout (signed_copy txTo scriptCode nIn nHashType)) =
    if fHashNone nHashType then 0%nat else if fHashSingle nHashType then S nIn else length (vout txTo)) as ->.
  { unfold signed_copy. cbn [vout]. case_match; [done|]. destruct (fHashSingle nHashType) eqn:Es; [|done].
    specialize (Hsingle eq_refl). rewrite length_app, length_replicate, length_take, length_drop. lia. }
  by rewrite !flat_map_concat_map, <-!app_assoc.
Qed.

End copy.

(** * Definedness: the indices the serializer uses are in range *)

Lemma signature_Serialize_defined txTo scriptCode nIn nHashType :
  (nIn < length (vin txTo))%nat → (fHashSingle nHashType = true → (nIn < length (vout txTo))%nat) →
  is_Some (signature_Serialize txTo scriptCode nIn nHashType).
Proof.
  intros Hin Hsingle. unfold signature_Serialize. cbv zeta.
  assert (is_Some (mapM (SerializeInput txTo scriptCode nIn nHashType)
    (seq 0 (if fAnyoneCanPay nHashType then 1 else length (vin txTo))))) as [inputs ->].
  { apply mapM_is_Some_2, Forall_forall. intros k [_ Hk]%elem_of_seq. unfold compose, SerializeInput. cbv beta zeta.
    destruct (lookup_lt_is_Some_2 (vin txTo) (if fAnyoneCanPay nHashType then nIn else k)) as [i ->]; [|by eexists]. by destruct (fAnyoneCanPay nHashType); simpl in Hk. }
  assert (is_Some (mapM (SerializeOutput txTo nIn nHashType)
    (seq 0 (if fHashNone nHashType then 0 else if fHashSingle nHashType then S nIn else length (vout txTo)))))
    as [outputs ->]; [|by eexists].
  apply mapM_is_Some_2, Forall_forall. intros k [_ Hk]%elem_of_seq. unfold compose, SerializeOutput.
  destruct (fHashNone nHashType); [simpl in Hk; lia|].
  destruct (fHashSingle nHashType) eqn:Es; cbn [andb]; [specialize (Hsingle eq_refl); case_match|]; try by eexists.
  all: destruct (lookup_lt_is_Some_2 (vout txTo) k) as [o ->]; [|by eexists].
  all: simpl in Hk; try lia.
Qed.

Section defined.
Context `{HashFunctions} `{Secp256k1}.

Lemma SignatureHash_defined scriptCode txTo nIn nHashType :
  is_Some (SignatureHash scriptCode txTo nIn nHashType).
Proof.
  unfold SignatureHash. destruct (Nat.leb_spec (length (vin txTo)) nIn); [by eexists|].
  destruct ((_ =? _) && _) eqn:E; [by eexists|].
  destruct (signature_Serialize_defined txTo scriptCode nIn nHashType) as [ss ->]; [done| |by eexists].
  unfold fHashSingle. intros Hs. rewrite Hs in E. simpl in E. lia.
Qed.

Lemma CheckSig_defined txTo nIn sig key code :
  is_Some (TransactionSignatureChecker_CheckSig txTo nIn sig key code).
Proof.
  unfold TransactionSignatureChecker_CheckSig. cbv zeta. case_match; [by eexists|]. case_match; [by eexists|].
  destruct (SignatureHash_defined code txTo nIn (List.last sig 0)) as [h ->]. by eexists.
Qed.

End defined.

(** * What a signature commits to *)

Lemma strip_bytes fuel it : bytes it → bytes (strip_separators fuel it) ∧ (length (strip_separators fuel it) ≤ length it)%nat.
Proof.
  revert it. induction fuel as [|fuel IH]; intros it Hb; cbn [strip_separators]; cbv zeta; [simpl; split; [constructor|lia]|].
  destruct (GetOp2_words it Hb) as [_ Hr]. pose proof (GetOp2_split it) as Hs. pose proof (GetOp2_rest_le it) as Hl.
  set (instr := take _ it) in *. assert (bytes instr) as Hi by (by apply Forall_take).
  assert (length instr ≤ length it - length (op_rest (GetOp2 it)))%nat as Hil by (unfold instr; rewrite length_take; lia).
  destruct (op_ok (GetOp2 it)); [|split; [done|lia]]. destruct (IH _ Hr) as [Hb' Hl'].
  split; [case_match; by apply words_app|]. rewrite length_app. case_match; simpl; lia.
Qed.

Lemma signed_copy_ok txTo scriptCode nIn nHashType :
  tx_ok txTo → bytes_ok scriptCode →
  fAnyoneCanPay nHashType = false → fHashSingle nHashType = false → fHashNone nHashType = false →
  tx_ok (signed_copy txTo scriptCode nIn nHashType).
Proof.
  intros (Hv & [Hi Hil] & Ho & Hl) [Hc Hcl] Ha Hs Hn. unfold signed_copy. rewrite Ha, Hs, Hn. cbn [orb].
  split_and!; cbn [nTransactionVersion vin vout nLockTime]; try done. split; [|by rewrite length_imap].
  apply Forall_lookup. intros k i'. rewrite list_lookup_imap, fmap_Some. intros (i & Hk & ->).
  rewrite Forall_lookup in Hi. destruct (Hi _ _ Hk) as (H1 & H2 & H3 & H4).
  destruct (strip_bytes (S (length scriptCode)) scriptCode Hc) as [Hb Hle].
  case_match; split_and!; try done; cbn [scriptSig].
  split; [done|]. unfold stripped. lia.
Qed.

Lemma signed_copy_inputs txTo scriptCode nIn nHashType :
  fAnyoneCanPay nHashType = false → fHashSingle nHashType = false → fHashNone nHashType = false →
  (λ i, (prevout i, nSequence i)) <$> vin (signed_copy txTo scriptCode nIn nHashType) =
  (λ i, (prevout i, nSequence i)) <$> vin txTo.
Proof.
  intros Ha Hs Hn. unfold signed_copy. rewrite Ha, Hs, Hn. cbn [orb vin]. apply list_eq. intros k.
  rewrite !list_lookup_fmap, list_lookup_imap. destruct (vin txTo !! k) as [i|]; [|done]. simpl.
  by destruct (k =? nIn)%nat.
Qed.

(** The bytes that a signature of input [nIn] is computed over. *)
Definition sighash_preimage (scriptCode : CScript) (txTo : CMutableTransaction) (nIn : nat) (nHashType : Z) : list Z :=
  Serialize_tx (signed_copy txTo scriptCode nIn nHashType) ++ Serialize_int 4 nHashType.

Lemma SignatureHash_preimage `{HashFunctions} scriptCode txTo nIn nHashType :
  script_wf scriptCode → (nIn < length (vin txTo))%nat →
  (fHashSingle nHashType = true → (nIn < length (vout txTo))%nat) →
  SignatureHash scriptCode txTo nIn nHashType = Some (Hash256 (sighash_preimage scriptCode txTo nIn nHashType)).
Proof.
  intros Hw Hin Hs. unfold SignatureHash. rewrite (leb_correct_conv _ _ Hin). fold (fHashSingle nHashType).
  rewrite signature_Serialize_copy by done. cbn [mbind option_bind]. unfold sighash_preimage.
  destruct (fHashSingle nHashType); [|done]. specialize (Hs eq_refl). by rewrite (leb_correct_conv _ _ Hs).
Qed.

(** Inputs of the copy at the signed position carry the stripped script code. *)
Lemma signed_copy_script txTo scriptCode nIn nHashType i :
  fAnyoneCanPay nHashType = false → vin txTo !! nIn = Some i →
  scriptSig <$> vin (signed_copy txTo scriptCode nIn nHashType) !! nIn = Some (stripped scriptCode).
Proof.
  intros Ha Hi. unfold signed_copy. rewrite Ha. cbn [vin]. rewrite list_lookup_imap, Hi. simpl.
  by rewrite Nat.eqb_refl.
Qed.

Lemma preimage_inj tx1 tx2 code1 code2 n1 n2 t1 t2 :
  fits 8 t1 → fits 8 t2 → sighash_preimage code1 tx1 n1 t1 = sighash_preimage code2 tx2 n2 t2 →
  Serialize_tx (signed_copy tx1 code1 n1 t1) = Serialize_tx (signed_copy tx2 code2 n2 t2) ∧ t1 = t2.
Proof.
  unfold sighash_preimage, fits. intros H1 H2 E. apply app_inj_2 in E as [E Et]; [|done]. split; [done|].
  refine (proj1 (codec_inj _ _ _ _ _ [] [] (codec_int 4 ltac:(lia)) _ _ _)); [unfold sfits; lia..|by rewrite !app_nil_r].
Qed.

(** ** Properties *)

(** C33: The hash that a signature is checked against.  For every input, every hash
    type and every script code whose instructions can be read, [SignatureHash] is
    the constant one when the input (or, with SIGHASH_SINGLE, the output of the
    same index) does not exist, and otherwise the double SHA-256 of the ordinary
    serialization of a copy of the transaction, in which the script of the signed
    input is the script code without its OP_CODESEPARATORs, the other scripts are
    empty, and inputs, sequences and outputs are dropped as the hash type says,
    followed by the hash type. *)
Theorem SignatureHash_spec `{HashFunctions} scriptCode txTo nIn nHashType :
  script_wf scriptCode →
  SignatureHash scriptCode txTo nIn nHashType = Some (
    if decide ((length (vin txTo) ≤ nIn)%nat ∨ fHashSingle nHashType = true ∧ (length (vout txTo) ≤ nIn)%nat)
    then uint256_one
    else Hash256 (sighash_preimage scriptCode txTo nIn nHashType)).
Proof.
  intros Hw. case_decide as Hd.
  - unfold SignatureHash. fold (fHashSingle nHashType). destruct Hd as [Hd|[-> Hd]]; rewrite (leb_correct _ _ Hd); [done|].
    by case_match.
  - apply SignatureHash_preimage; [done|lia|]. intros Hs. destruct (Nat.lt_ge_cases nIn (length (vout txTo))); [done|tauto].
Qed.

(** A transaction with two inputs and one output, and a script code with a
    separator. *)
Definition example_tx : CMutableTransaction :=
  MTx 1 [TxIn (OutPoint (replicate 32 7) 0) [] 4294967295 []; TxIn (OutPoint (replicate 32 8) 1) [] 5 []]
    [TxOut 100 [OP_DUP; OP_CHECKSIG] (-10)] 0.
Definition example_code : CScript := [OP_DUP; OP_CODESEPARATOR; OP_CHECKSIG].

Lemma SignatureHash_spec_witness :
  script_wf example_code ∧
  SignatureHash example_code example_tx 1 SIGHASH_ALL =
    Some (Hash256 (sighash_preimage example_code example_tx 1 SIGHASH_ALL)).
Proof.
  assert (script_wf example_code) as Hw.
  { right; split; [reflexivity|]. right; split; [reflexivity|]. right; split; [reflexivity|]. left. reflexivity. }
  split; [exact Hw|]. rewrite (SignatureHash_spec example_code example_tx 1 SIGHASH_ALL Hw).
  rewrite decide_False; [reflexivity|]. intros [H|[H _]]; [cbn in H; lia|discriminate H].
Defined.

(** What a SIGHASH_ALL signature commits to.  Two signing requests of existing
    inputs that hash the same bytes agree on the transaction version, on every
    outpoint and sequence number, on all the outputs, on the lock time and on the
    hash type; when they sign the same position, also on the script code up to its
    OP_CODESEPARATORs. *)
Theorem sighash_all_commits tx1 tx2 code1 code2 n1 n2 t1 t2 :
  tx_ok tx1 → tx_ok tx2 → bytes_ok code1 → bytes_ok code2 →
  (n1 < length (vin tx1))%nat → (n2 < length (vin tx2))%nat →
  fits 8 t1 → fits 8 t2 →
  fAnyoneCanPay t1 = false → fHashSingle t1 = false → fHashNone t1 = false →
  sighash_preimage code1 tx1 n1 t1 = sighash_preimage code2 tx2 n2 t2 →
  nTransactionVersion tx1 = nTransactionVersion tx2 ∧
  (λ i, (prevout i, nSequence i)) <$> vin tx1 = (λ i, (prevout i, nSequence i)) <$> vin tx2 ∧
  vout tx1 = vout tx2 ∧ nLockTime tx1 = nLockTime tx2 ∧ t1 = t2 ∧
  (n1 = n2 → stripped code1 = stripped code2).
Proof.
  intros Ht1 Ht2 Hc1 Hc2 Hn1 Hn2 Hf1 Hf2 Ha Hs Hn E. apply preimage_inj in E as [E ->]; [|done..].
  pose proof (signed_copy_inputs tx1 code1 n1 t2 Ha Hs Hn) as I1.
  pose proof (signed_copy_inputs tx2 code2 n2 t2 Ha Hs Hn) as I2.
  assert (signed_copy tx1 code1 n1 t2 = signed_copy tx2 code2 n2 t2) as Ec.
  { refine (proj1 (codec_inj _ _ _ _ _ [] [] codec_tx _ _ _)); [by apply signed_copy_ok..|by rewrite !app_nil_r]. }
  rewrite Ec, I2 in I1.
  pose proof (f_equal nTransactionVersion Ec) as Ev. pose proof (f_equal vout Ec) as Eo.
  pose proof (f_equal nLockTime Ec) as El. unfold signed_copy in Ev, Eo, El. rewrite Hs, Hn in Eo. simpl in Ev, Eo, El.
  split_and!; try done. intros <-.
  destruct (lookup_lt_is_Some_2 _ _ Hn1) as [i1 Hi1], (lookup_lt_is_Some_2 _ _ Hn2) as [i2 Hi2].
  pose proof (signed_copy_script tx1 code1 n1 t2 i1 Ha Hi1) as S1.
  rewrite Ec, (signed_copy_script tx2 code2 n1 t2 i2 Ha Hi2) in S1. by simplify_eq.
Qed.

Lemma sighash_all_commits_witness :
  tx_ok example_tx ∧ stripped example_code = [OP_DUP; OP_CHECKSIG] ∧
  sighash_preimage example_code example_tx 1 SIGHASH_ALL = sighash_preimage [OP_DUP; OP_CHECKSIG] example_tx 1 SIGHASH_ALL ∧
  vout example_tx = vout example_tx.
Proof.
  assert (tx_ok example_tx) as Ht.
  { apply (bool_decide_unpack (tx_ok example_tx)). vm_compute. exact I. }
  split; [exact Ht|]. split; [reflexivity|]. split; [reflexivity|].
  refine (proj1 (proj2 (proj2 (sighash_all_commits example_tx example_tx example_code [OP_DUP; OP_CHECKSIG] 1 1
    SIGHASH_ALL SIGHASH_ALL Ht Ht _ _ _ _ _ _ _ _ _ _)))); try reflexivity; try (cbn; lia);
    try (apply (bool_decide_unpack (bytes_ok _)); exact I); try (unfold fits, SIGHASH_ALL; lia).
Defined.
