(* ===== verification/Compressor.v ===== *)
(** compressor.h, compressor.cpp: the compact serialization of scripts and amounts
    in the coin database and the undo files. *)

From S2P Require Import Prelude Script PubKey Serialize Transaction.

(** * Scripts *)

Definition nSpecialScripts : Z := 6.

Section scripts.
Context `{Secp256k1}.

(** [IsToKeyID], [IsToScriptID], [IsToPubKey]: the value stored through the
    reference argument, [None] when the test fails. *)
Definition IsToKeyID (script : CScript) : option (list Z) :=
  if (size script =? 25) && (nth 0 script 0 =? OP_DUP) && (nth 1 script 0 =? OP_HASH160) &&
     (nth 2 script 0 =? 20) && (nth 23 script 0 =? OP_EQUALVERIFY) && (nth 24 script 0 =? OP_CHECKSIG)
  then Some (take 20 (drop 3 script)) else None.

Definition IsToScriptID (script : CScript) : option (list Z) :=
  if (size script =? 23) && (nth 0 script 0 =? OP_HASH160) && (nth 1 script 0 =? 20) &&
     (nth 22 script 0 =? OP_EQUAL)
  then Some (take 20 (drop 2 script)) else None.

Definition IsToPubKey (script : CScript) : option CPubKey :=
  if (size script =? 35) && (nth 0 script 0 =? 33) && (nth 34 script 0 =? OP_CHECKSIG) &&
     ((nth 1 script 0 =? 0x02) || (nth 1 script 0 =? 0x03))
  then Some (CPubKey_of (take 33 (drop 1 script)))
  else if (size script =? 67) && (nth 0 script 0 =? 65) && (nth 66 script 0 =? OP_CHECKSIG) &&
          (nth 1 script 0 =? 0x04)
  then
    let pubkey := CPubKey_of (take 65 (drop 1 script)) in
    if IsFullyValid pubkey then Some pubkey else None
  else None.

(** [Compress]: the bytes, [None] when it returns false. *)
Definition Compress (script : CScript) : option (list Z) :=
  match IsToKeyID script with
  | Some keyID => Some (0x00 :: keyID)
  | None =>
      match IsToScriptID script with
      | Some scriptID => Some (0x01 :: scriptID)
      | None =>
          match IsToPubKey script with
          | Some pubkey =>
              let out := take 32 (drop 1 (pk_vch pubkey)) in
              let h := nth 0 (pk_vch pubkey) 0 in
              if (h =? 0x02) || (h =? 0x03) then Some (h :: out)
              else if h =? 0x04 then Some (Z.lor 0x04 (Z.land (nth 64 (pk_vch pubkey) 0) 0x01) :: out)
              else None
          | None => None
          end
      end
  end.

Definition GetSpecialSize (nSize : Z) : Z :=
  if (nSize =? 0) || (nSize =? 1) then 20
  else if (nSize =? 2) || (nSize =? 3) || (nSize =? 4) || (nSize =? 5) then 32
  else 0.

(** [Decompress]: the result and the script afterwards; the failed assertion on the
    size of a decompressed key is [None]. *)
Definition Decompress (script : CScript) (nSize : Z) (data : list Z) : option (bool * CScript) :=
  if nSize =? 0x00 then Some (true, [OP_DUP; OP_HASH160; 20] ++ take 20 data ++ [OP_EQUALVERIFY; OP_CHECKSIG])
  else if nSize =? 0x01 then Some (true, [OP_HASH160; 20] ++ take 20 data ++ [OP_EQUAL])
  else if (nSize =? 0x02) || (nSize =? 0x03) then
    Some (true, [33; nSize] ++ take 32 data ++ [OP_CHECKSIG])
  else if (nSize =? 0x04) || (nSize =? 0x05) then
    let '(ok, pubkey) := pk_Decompress (CPubKey_of ((nSize - 2) :: take 32 data)) in
    if (ok : bool) then
      if pk_size pubkey =? 65 then Some (true, [65] ++ take 65 (pk_vch pubkey) ++ [OP_CHECKSIG]) else None
    else Some (false, script)
  else Some (false, script).

(** [CScriptCompressor::GetSerializeSize], [::Serialize], [::Unserialize]; the last
    on an object that holds [script]. *)
Definition GetSerializeSize_script (script : CScript) : Z :=
  match Compress script with
  | Some compr => size compr
  | None =>
      let nSize := u32 (size script + nSpecialScripts) in
      u32 (size script + GetSizeOfVarInt (uint 32) nSize)
  end.
Definition Serialize_script (script : CScript) : list Z :=
  match Compress script with
  | Some compr => compr
  | None =>
      let nSize := u32 (size script + nSpecialScripts) in
      WriteVarInt (uint 32) nSize ++ script
  end.
Definition Unserialize_script (script : CScript) : decoder CScript :=
  nSize ← ReadVarInt (uint 32);
  if nSize <? nSpecialScripts then
    vch ← read_bytes (Z.to_nat (GetSpecialSize nSize));
    match Decompress script nSize vch with
    | Some (_, script) => mret script
    | None => throw
    end
  else read_bytes (Z.to_nat (nSize - nSpecialScripts)).

End scripts.

(** * Amounts *)

(** [while (((n % 10) == 0) && e < 9)]: the loop runs at most nine times. *)
Fixpoint strip_tens (fuel : nat) (n e : Z) : Z * Z :=
  match fuel with
  | O => (n, e)
  | S fuel => if (n `mod` 10 =? 0) && (e <? 9) then strip_tens fuel (n `div` 10) (e + 1) else (n, e)
  end.

(** The failed assertion on the last digit is [None]. *)
Definition CompressAmount (n : Z) : option Z :=
  if n =? 0 then Some 0
  else
    let '(n, e) := strip_tens 9 n 0 in
    if e <? 9 then
      let d := n `mod` 10 in
      if (1 <=? d) && (d <=? 9) then
        let n := n `div` 10 in
        Some (u64 (1 + u64 (u64 (n * 9 + d - 1) * 10) + e))
      else None
    else Some (u64 (1 + u64 (u64 (n - 1) * 10) + 9)).

(** [while (e) { n *= 10; e--; }] *)
Fixpoint times_ten (e : nat) (n : Z) : Z :=
  match e with O => n | S e => times_ten e (u64 (n * 10)) end.

Definition DecompressAmount (x : Z) : Z :=
  if x =? 0 then 0
  else
    let x := x - 1 in
    let e := x `mod` 10 in
    let x := x `div` 10 in
    let n :=
      if e <? 9 then
        let d := x `mod` 9 + 1 in
        let x := x `div` 9 in
        u64 (x * 10 + d)
      else u64 (x + 1) in
    times_ten (Z.to_nat e) n.

(** * Outputs *)

Section outputs.
Context `{Secp256k1}.

(** [CTxOutCompressor::SerializationOp], for writing and for reading into an output
    that holds [o]. *)
Definition Serialize_TxOutCompressor (o : CTxOut) : option (list Z) :=
  nVal ← CompressAmount (u64 (nValue o));
  Some (WriteVarInt (uint 64) nVal ++ Serialize_script (scriptPubKey o)).
Definition Unserialize_TxOutCompressor (o : CTxOut) : decoder CTxOut :=
  nVal ← ReadVarInt (uint 64);
  script ← Unserialize_script (scriptPubKey o);
  mret (TxOut (s64 (DecompressAmount nVal)) script (nRounds o)).

End outputs.
