(* ===== verification/CompressorFacts.v ===== *)
(** Amounts and scripts survive compression. *)

From S2P Require Import Prelude Script PubKey Serialize SerializeFacts Transaction TransactionFacts Compressor.

(** * Amounts *)

Lemma strip_tens_spec fuel n e :
  0 < n → 0 ≤ e → e + Z.of_nat fuel = 9 →
  let '(m, e') := strip_tens fuel n e in
  0 < m ∧ e ≤ e' ≤ 9 ∧ n = m * 10 ^ (e' - e) ∧ (e' = 9 ∨ m `mod` 10 ≠ 0).
Proof.
  revert n e. induction fuel as [|fuel IH]; intros n e Hn He Hf; cbn [strip_tens].
  { replace (e - e) with 0 by lia. split_and!; [lia..|left; lia]. }
  destruct (Z.eqb_spec (n `mod` 10) 0) as [H0|H0]; cbn [andb]; cycle 1.
  { replace (e - e) with 0 by lia. split_and!; [lia..|by right]. }
  replace (e <? 9) with true by lia. pose proof (Z.div_mod n 10 ltac:(lia)).
  specialize (IH (n `div` 10) (e + 1) ltac:(lia) ltac:(lia) ltac:(lia)).
  destruct (strip_tens fuel (n `div` 10) (e + 1)) as [m e']. destruct IH as (Hm & He' & En & Hd).
  split_and!; [done|lia|lia| |done]. replace (e' - e) with (1 + (e' - (e + 1))) by lia.
  rewrite Z.pow_add_r by lia. lia.
Qed.

Lemma times_ten_spec e n : times_ten e n `mod` 2 ^ 64 = (n * 10 ^ Z.of_nat e) `mod` 2 ^ 64.
Proof.
  revert n. induction e as [|e IH]; intros n; cbn [times_ten]; [f_equal; lia|].
  rewrite IH. unfold wrap. rewrite Z.mul_mod_idemp_l by lia. f_equal.
  rewrite Nat2Z.inj_succ, Z.pow_succ_r by lia. lia.
Qed.

Lemma times_ten_small e n : 0 ≤ n → n * 10 ^ Z.of_nat e < 2 ^ 64 → times_ten e n = n * 10 ^ Z.of_nat e.
Proof.
  revert n. induction e as [|e IH]; intros n Hn Hb; cbn [times_ten]; [lia|].
  rewrite Nat2Z.inj_succ, Z.pow_succ_r in * by lia.
  assert (1 ≤ 10 ^ Z.of_nat e) by (apply (Z.pow_le_mono_r 10 0); lia).
  rewrite wrap_small by (unfold fits; nia). rewrite IH; [lia|lia|]. lia.
Qed.

Lemma amount_roundtrip n :
  0 ≤ n → 9 * n + 8 < 2 ^ 64 → ∃ x, CompressAmount n = Some x ∧ fits 64 x ∧ DecompressAmount x = n.
Proof.
  intros Hn Hb. unfold CompressAmount. destruct (Z.eqb_spec n 0) as [->|Hn0].
  { by exists 0. }
  pose proof (strip_tens_spec 9 n 0 ltac:(lia) ltac:(lia) ltac:(lia)) as Hs.
  destruct (strip_tens 9 n 0) as [m e]. destruct Hs as (Hm & He & En & Hd). rewrite Z.sub_0_r in En.
  assert (1 ≤ 10 ^ e) by (apply (Z.pow_le_mono_r 10 0); lia). assert (m ≤ n) by nia.
  assert (e = 9 → 10 * m ≤ n) by (intros ->; change (10 ^ 9) with 1000000000 in En; lia).
  pose proof (Z.div_mod m 10 ltac:(lia)) as Hdm. pose proof (Z.mod_pos_bound m 10 ltac:(lia)).
  assert (∀ x k, x = 10 * k + e + 1 → 0 ≤ k → (if e <? 9 then k = 9 * (m `div` 10) + m `mod` 10 - 1 ∧ m `mod` 10 ≠ 0 else k = m - 1) →
    fits 64 x ∧ DecompressAmount x = n) as Hx.
  { intros x k -> Hk Hke. split; [unfold fits; destruct (Z.ltb_spec e 9); lia|].
    unfold DecompressAmount. replace (10 * k + e + 1 =? 0) with false by lia. cbv zeta.
    replace (10 * k + e + 1 - 1) with (e + k * 10) by lia.
    rewrite Z_mod_plus_full, Z_div_plus_full, (Z.mod_small e 10), (Z.div_small e 10), Z.add_0_l by lia.
    assert ((if e <? 9 then u64 (k `div` 9 * 10 + (k `mod` 9 + 1)) else u64 (k + 1)) = m) as ->.
    { destruct (Z.ltb_spec e 9) as [|]; [destruct Hke as [-> Hne]|]; cycle 1.
      { rewrite wrap_small by (unfold fits; lia). lia. }
      replace (9 * (m `div` 10) + m `mod` 10 - 1) with (m `mod` 10 - 1 + m `div` 10 * 9) by lia.
      rewrite Z_mod_plus_full, Z_div_plus_full by lia.
      rewrite (Z.mod_small (m `mod` 10 - 1)), (Z.div_small (m `mod` 10 - 1)) by lia.
      rewrite wrap_small by (unfold fits; lia). lia. }
    rewrite times_ten_small by (rewrite ?Z2Nat.id by lia; lia). rewrite Z2Nat.id by lia. lia. }
  destruct (Z.ltb_spec e 9) as [Hlt|Hge].
  - destruct Hd as [?|Hd]; [lia|]. replace (1 <=? m `mod` 10) with true by lia.
    replace (m `mod` 10 <=? 9) with true by lia. cbn [andb].
    rewrite (wrap_small 64 (m `div` 10 * 9 + m `mod` 10 - 1)) by (unfold fits; lia).
    rewrite (wrap_small 64 (_ * 10)) by (unfold fits; lia). rewrite wrap_small by (unfold fits; lia).
    eexists. split; [done|]. apply (Hx _ (9 * (m `div` 10) + m `mod` 10 - 1)); lia.
  - rewrite (wrap_small 64 (m - 1)) by (unfold fits; lia).
    rewrite (wrap_small 64 (_ * 10)) by (unfold fits; lia). rewrite wrap_small by (unfold fits; lia).
    eexists. split; [done|]. apply (Hx _ (m - 1)); lia.
Qed.

(** * Scripts *)

Lemma take_drop_nth (s : list Z) k n :
  (k + n ≤ length s)%nat → take n (drop k s) = map (λ i, nth i s 0) (seq k n).
Proof.
  revert k. induction n as [|n IH]; intros k Hk; [done|]. cbn [seq map].
  destruct (lookup_lt_is_Some_2 s k ltac:(lia)) as [x Hx]. rewrite (drop_S _ _ _ Hx). cbn [take].
  by rewrite IH, (nth_lookup_Some _ _ _ _ Hx) by lia.
Qed.

(** A script of known length, cut after a header of [a] bytes and a body of [b]. *)
Lemma script_parts (s : list Z) a b c :
  length s = (a + b + c)%nat →
  s = map (λ i, nth i s 0) (seq 0 a) ++ take b (drop a s) ++ map (λ i, nth i s 0) (seq (a + b) c).
Proof.
  intros Hl. rewrite <-(take_drop a s) at 1. rewrite <-(take_drop b (drop a s)) at 1. rewrite drop_drop.
  rewrite <-(take_drop_nth s 0 a), <-(take_drop_nth s (a + b) c) by lia.
  by rewrite drop_0, (take_ge (drop (a + b) s)) by (rewrite length_drop; lia).
Qed.

Lemma pk_vch_of h b n :
  GetLen h = Z.of_nat (S n) → length b = n →
  pk_vch (CPubKey_of (h :: b)) = h :: b ++ drop (S n) (replicate 65 0).
Proof.
  intros Hh Hb. unfold CPubKey_of, pk_Set. rewrite Hh. unfold size. cbn [length]. rewrite Hb.
  replace (Z.of_nat (S n) =? 0) with false by lia. by rewrite Z.eqb_refl.
Qed.

Lemma last_nth31 (y : list Z) d : length y = 32%nat → List.last y d = nth 31 y d.
Proof.
  intros Hy. destruct (exists_last (l := y)) as (l & x & ->); [by destruct y|]. rewrite length_app in Hy. simpl in Hy.
  rewrite last_last, app_nth2 by lia. by replace (31 - length l)%nat with 0%nat by lia.
Qed.

Section scripts.
Context `{HS : Secp256k1} {HO : Secp256k1Ok}.

Lemma IsToKeyID_inv s k : IsToKeyID s = Some k →
  s = [OP_DUP; OP_HASH160; 20] ++ k ++ [OP_EQUALVERIFY; OP_CHECKSIG] ∧ length k = 20%nat.
Proof.
  unfold IsToKeyID. case_match eqn:E; [|done]. intros [= <-]. rewrite !andb_true_iff, !Z.eqb_eq in E.
  destruct E as (((((Hl & H0) & H1) & H2) & H3) & H4). unfold size in Hl.
  pose proof (script_parts s 3 20 2 ltac:(lia)) as Hp. cbn [seq map Nat.add] in Hp. rewrite H0, H1, H2, H3, H4 in Hp.
  split; [done|]. rewrite length_take, length_drop. lia.
Qed.

Lemma IsToScriptID_inv s k : IsToScriptID s = Some k →
  s = [OP_HASH160; 20] ++ k ++ [OP_EQUAL] ∧ length k = 20%nat.
Proof.
  unfold IsToScriptID. case_match eqn:E; [|done]. intros [= <-]. rewrite !andb_true_iff, !Z.eqb_eq in E.
  destruct E as (((Hl & H0) & H1) & H2). unfold size in Hl.
  pose proof (script_parts s 2 20 1 ltac:(lia)) as Hp. cbn [seq map Nat.add] in Hp. rewrite H0, H1, H2 in Hp.
  split; [done|]. rewrite length_take, length_drop. lia.
Qed.

(** The two shapes of a script to a public key. *)
Lemma IsToPubKey_inv s k : IsToPubKey s = Some k →
  (∃ h x, (h = 2 ∨ h = 3) ∧ length x = 32%nat ∧ s = [33] ++ (h :: x) ++ [OP_CHECKSIG] ∧ k = CPubKey_of (h :: x)) ∨
  (∃ x y, length x = 32%nat ∧ length y = 32%nat ∧ s = [65] ++ (4 :: x ++ y) ++ [OP_CHECKSIG] ∧
          k = CPubKey_of (4 :: x ++ y) ∧ IsFullyValid k = true).
Proof.
  unfold IsToPubKey. case_match eqn:E.
  - intros [= <-]. left. rewrite !andb_true_iff, orb_true_iff, !Z.eqb_eq in E.
    destruct E as (((Hl & H0) & H1) & H2). unfold size in Hl.
    pose proof (script_parts s 2 32 1 ltac:(lia)) as Hp. cbn [seq map Nat.add] in Hp.
    exists (nth 1 s 0), (take 32 (drop 2 s)). rewrite length_take, length_drop.
    split_and!; [done|lia| |].
    + rewrite Hp at 1. by rewrite H0, H1.
    + f_equal. rewrite Hp at 1. cbn [drop app take]. f_equal. rewrite take_app_le, take_ge; [done| |];
        rewrite length_take, length_drop; lia.
  - case_match eqn:E2; [|done]. case_match eqn:Ef; [|done]. intros [= <-]. right.
    rewrite !andb_true_iff, !Z.eqb_eq in E2.
    destruct E2 as (((Hl & H0) & H1) & H2). unfold size in Hl.
    pose proof (script_parts s 2 64 1 ltac:(lia)) as Hp. cbn [seq map Nat.add] in Hp.
    assert (take 64 (drop 2 s) = take 32 (drop 2 s) ++ take 32 (drop 34 s)) as E64.
    { rewrite <-(take_drop 32 (take 64 (drop 2 s))) at 1. rewrite take_take, skipn_firstn_comm, drop_drop. done. }
    assert (take 65 (drop 1 s) = 4 :: take 64 (drop 2 s)) as E65.
    { rewrite Hp at 1. rewrite H2. cbn [drop app take]. f_equal. rewrite take_app_le, take_ge; [done| |];
        rewrite length_take, length_drop; lia. }
    exists (take 32 (drop 2 s)), (take 32 (drop 34 s)). rewrite !length_take, !length_drop, <-E64, <-E65.
    split_and!; [lia|lia| |done|done]. rewrite Hp at 1. by rewrite H0, H1, H2, E65.
Qed.

Lemma pk_of_valid h b n :
  GetLen h = Z.of_nat (S n) → length b = n →
  nth 0 (pk_vch (CPubKey_of (h :: b))) 0 = h ∧ pk_size (CPubKey_of (h :: b)) = Z.of_nat (S n) ∧
  IsValid (CPubKey_of (h :: b)) = true ∧ Raw (CPubKey_of (h :: b)) = h :: b.
Proof.
  intros Hh Hb. pose proof (pk_vch_of h b n Hh Hb) as Hv.
  assert (pk_size (CPubKey_of (h :: b)) = Z.of_nat (S n)) as Hs by (unfold pk_size; by rewrite Hv).
  split_and!; [by rewrite Hv|done|unfold IsValid; rewrite Hs; lia|]. unfold Raw. rewrite Hs, Nat2Z.id, Hv.
  cbn [take]. by rewrite take_app_le, take_ge by lia.
Qed.

Lemma parity_header z : Z.lor 4 (Z.land z 1) = 4 + Z.land z 1 ∧ (Z.land z 1 = 0 ∨ Z.land z 1 = 1).
Proof.
  change 1 with (Z.ones 1). rewrite Z.land_ones by lia. change (2 ^ 1) with 2.
  pose proof (Z.mod_pos_bound z 2 ltac:(lia)). assert (z `mod` 2 = 0 ∨ z `mod` 2 = 1) as [->| ->] by lia; auto.
Qed.

(** The key that [Decompress] rebuilds from [x] and the parity of [y]. *)
Lemma decompress_key x y :
  length x = 32%nat → length y = 32%nat → IsFullyValid (CPubKey_of (4 :: x ++ y)) = true →
  ∃ k, pk_Decompress (CPubKey_of ((2 + Z.land (List.last y 0) 1) :: x)) = (true, k) ∧
       pk_size k = 65 ∧ take 65 (pk_vch k) = 4 :: x ++ y.
Proof.
  intros Hx Hy Hf. destruct (pk_of_valid 4 (x ++ y) 64) as (_ & _ & Hv & Hr); [done|rewrite length_app; lia|].
  unfold IsFullyValid in Hf. rewrite Hv, Hr in Hf. cbn [negb] in Hf. apply bool_decide_eq_true in Hf as [P HP].
  destruct (parse_uncompressed x y P Hx Hy HP) as [Hs Hp]. destruct (parity_header (List.last y 0)) as [_ Hpar].
  destruct (pk_of_valid (2 + Z.land (List.last y 0) 1) x 32) as (_ & _ & Hv' & Hr'); [by destruct Hpar as [-> | ->]|done|].
  unfold pk_Decompress. rewrite Hv', Hr', Hp, Hs. cbn [negb]. eexists. split; [done|].
  unfold pk_Set. change (GetLen 4) with 65. unfold size. cbn [length]. rewrite length_app, Hx, Hy.
  change (negb (65 =? 0) && (65 =? Z.of_nat (S (32 + 32)))) with true. split; [done|].
  cbn [pk_vch app take]. by rewrite take_app_le, take_ge by (rewrite length_app; lia).
Qed.

Lemma Compress_Decompress s c : Compress s = Some c →
  ∃ h d, c = h :: d ∧ 0 ≤ h < 6 ∧ Z.of_nat (length d) = GetSpecialSize h ∧ ∀ s0, Decompress s0 h d = Some (true, s).
Proof.
  unfold Compress. destruct (IsToKeyID s) as [k|] eqn:Ek.
  { intros [= <-]. apply IsToKeyID_inv in Ek as [-> Hk]. exists 0, k. split_and!; [done|lia|lia|by rewrite Hk|].
    intros s0. unfold Decompress. cbv iota. simpl (0 =? 0). cbv iota. by rewrite take_ge by lia. }
  destruct (IsToScriptID s) as [k|] eqn:Es.
  { intros [= <-]. apply IsToScriptID_inv in Es as [-> Hk]. exists 1, k. split_and!; [done|lia|lia|by rewrite Hk|].
    intros s0. unfold Decompress. by rewrite take_ge by lia. }
  destruct (IsToPubKey s) as [k|] eqn:Ep; [|done].
  apply IsToPubKey_inv in Ep as [(h & x & Hh & Hx & -> & ->)|(x & y & Hx & Hy & -> & -> & Hf)].
  - destruct (pk_of_valid h x 32) as (H0 & _); [by destruct Hh as [-> | ->]|done|].
    pose proof (pk_vch_of h x 32 ltac:(by destruct Hh as [-> | ->]) Hx) as Hv. cbv zeta. rewrite H0.
    replace ((h =? 2) || (h =? 3)) with true by lia. intros [= <-]. exists h, x.
    assert (take 32 (drop 1 (pk_vch (CPubKey_of (h :: x)))) = x) as ->.
    { rewrite Hv. cbn [drop]. by rewrite drop_0, take_app_le, take_ge by lia. }
    split_and!; [done|lia|lia|rewrite Hx; by destruct Hh as [-> | ->]|]. intros s0.
    unfold Decompress. rewrite (take_ge x 32) by lia. by destruct Hh as [-> | ->].
  - destruct (pk_of_valid 4 (x ++ y) 64) as (H0 & _); [done|rewrite length_app; lia|].
    pose proof (pk_vch_of 4 (x ++ y) 64 ltac:(done) ltac:(rewrite length_app; lia)) as Hv. cbv zeta. rewrite H0.
    simpl ((4 =? 2) || (4 =? 3)). simpl (4 =? 4). cbv iota. intros [= <-].
    assert (take 32 (drop 1 (pk_vch (CPubKey_of (4 :: x ++ y)))) = x) as ->.
    { rewrite Hv. cbn [drop]. by rewrite drop_0, <-app_assoc, take_app_le, take_ge by lia. }
    assert (nth 64 (pk_vch (CPubKey_of (4 :: x ++ y))) 0 = List.last y 0) as ->.
    { rewrite Hv. cbn [nth]. rewrite app_nth1 by (rewrite length_app; lia). rewrite app_nth2 by lia.
      rewrite Hx. change (63 - 32)%nat with 31%nat. rewrite <-(last_nth31 y 0) by done. done. }
    destruct (parity_header (List.last y 0)) as [-> Hpar]. destruct (decompress_key x y Hx Hy Hf) as (k & Hk & Hs & Ht).
    eexists _, x. split; [done|]. split; [lia|]. split; [rewrite Hx; by destruct Hpar as [-> | ->]|]. intros s0.
    unfold Decompress. rewrite (take_ge x 32) by lia.
    replace (4 + Z.land (List.last y 0) 1 - 2) with (2 + Z.land (List.last y 0) 1) by lia. rewrite Hk, Hs, Ht.
    by destruct Hpar as [-> | ->].
Qed.

Lemma ReadVarInt_byte w h s : 8 ≤ w → 0 ≤ h < 128 → ReadVarInt (uint w) (h :: s) = Some (h, s).
Proof.
  intros Hw Hh. pose proof (varint_uint_read w h s ltac:(lia)) as H.
  assert (WriteVarInt (uint w) h = [h]) as E; [|rewrite E in H; apply H; unfold fits;
    pose proof (Z.pow_le_mono_r 2 7 w); lia].
  unfold WriteVarInt. assert (∃ k, varint_len (uint w) = S k) as [k ->].
  { exists (Nat.pred (varint_len (uint w))). unfold varint_len. simpl. lia. }
  cbn [varint_digits]. replace (h <=? 0x7F) with true by lia. cbn [rev app]. f_equal.
  by rewrite Z.lor_0_r, land_7f, Z.mod_small by lia.
Qed.

Lemma script_read s0 s rest :
  size s + nSpecialScripts < 2 ^ 32 → Unserialize_script s0 (Serialize_script s ++ rest) = Some (s, rest).
Proof.
  intros Hs. unfold Unserialize_script, Serialize_script, nSpecialScripts in *. unfold mbind, decoder_bind.
  destruct (Compress s) as [c|] eqn:Ec.
  - destruct (Compress_Decompress s c Ec) as (h & d & -> & Hh & Hd & HD).
    cbn [app]. rewrite ReadVarInt_byte by lia. replace (h <? 6) with true by lia.
    rewrite <-Hd, Nat2Z.id, read_bytes_app, HD. done.
  - unfold size in *. rewrite wrap_small by (unfold fits; lia). rewrite <-app_assoc, varint_uint_read by (lia || unfold fits; lia).
    replace (_ <? 6) with false by lia. replace (Z.to_nat _) with (length s) by lia. apply read_bytes_app.
Qed.

(** An output whose compressed form is faithful. *)
Definition compressible (o : CTxOut) : Prop :=
  0 ≤ nValue o ∧ 9 * nValue o + 8 < 2 ^ 64 ∧ size (scriptPubKey o) + nSpecialScripts < 2 ^ 32.

#[export] Instance compressible_dec o : Decision (compressible o).
Proof. unfold compressible. apply _. Defined.

Lemma TxOutCompressor_read o o0 rest :
  compressible o → ∃ ser, Serialize_TxOutCompressor o = Some ser ∧
    Unserialize_TxOutCompressor o0 (ser ++ rest) = Some (TxOut (nValue o) (scriptPubKey o) (nRounds o0), rest).
Proof.
  intros (Hv & Hb & Hs). unfold Serialize_TxOutCompressor. rewrite wrap_small by (unfold fits; lia).
  destruct (amount_roundtrip _ Hv Hb) as (x & -> & Hx & Hd). eexists. split; [done|].
  unfold Unserialize_TxOutCompressor, mbind, decoder_bind. rewrite <-app_assoc, varint_uint_read by (done || lia).
  rewrite script_read by done. rewrite Hd, swrap_small by (unfold sfits; lia). done.
Qed.

End scripts.
