(* ===== verification/Coins.v ===== *)
(** coins.h, coins.cpp ([CCoins]) and undo.h: the unspent outputs of a transaction,
    spending them with undo information, and their serialized form. *)

From S2P Require Import Prelude Script PubKey Serialize Transaction Compressor.

(** * [CCoins] *)

Record CCoins := Coins {
  fCoinBase : bool;
  fCoinStake : bool;
  coins_vout : list CTxOut;
  coins_nHeight : Z;
  coins_nVersion : Z;
}.

#[export] Instance CCoins_eq_dec : EqDecision CCoins.
Proof. solve_decision. Defined.

(** [CCoins()] and [Clear] *)
Definition CCoins_empty : CCoins := Coins false false [] 0 0.

Definition with_vout (c : CCoins) (vout : list CTxOut) : CCoins :=
  Coins (fCoinBase c) (fCoinStake c) vout (coins_nHeight c) (coins_nVersion c).

(** [while (vout.size() > 0 && vout.back().IsNull()) vout.pop_back()]; the list is
    walked from its end. *)
Fixpoint pop_nulls (reversed : list CTxOut) : list CTxOut :=
  match reversed with
  | [] => []
  | o :: r => if CTxOut_IsNull o then pop_nulls r else reversed
  end.
Definition cleanup_vout (vout : list CTxOut) : list CTxOut := rev (pop_nulls (rev vout)).
Definition Cleanup (c : CCoins) : CCoins := with_vout c (cleanup_vout (coins_vout c)).

Definition ClearUnspendable (c : CCoins) : CCoins :=
  Cleanup (with_vout c (map (λ o, if IsUnspendable (scriptPubKey o) then CTxOut_null else o) (coins_vout c))).

(** [FromTx]: [None] where [IsCoinBase] is undefined. *)
Definition FromTx (tx : CMutableTransaction) (nHeightIn : Z) : option CCoins :=
  cb ← IsCoinBase tx;
  Some (ClearUnspendable (Coins cb (IsCoinStake tx) (vout tx) nHeightIn (nTransactionVersion tx))).

Definition IsPruned (c : CCoins) : bool := forallb CTxOut_IsNull (coins_vout c).
Definition IsAvailable (c : CCoins) (nPos : Z) : bool :=
  match coins_vout c !! Z.to_nat nPos with
  | Some o => negb (CTxOut_IsNull o) && negb (IsZerocoinMint (scriptPubKey o))
  | None => false
  end.

(** [operator==] *)
Definition coins_eqb (a b : CCoins) : bool :=
  if IsPruned a && IsPruned b then true
  else eqb (fCoinBase a) (fCoinBase b) && eqb (fCoinStake a) (fCoinStake b) &&
       (coins_nHeight a =? coins_nHeight b) && (coins_nVersion a =? coins_nVersion b) &&
       bool_decide (coins_vout a = coins_vout b).

(** * Undo information *)

Record CTxInUndo := TxInUndo {
  undo_txout : CTxOut;
  undo_fCoinBase : bool;
  undo_fCoinStake : bool;
  undo_nHeight : Z;
  undo_nVersion : Z;
}.

(** [Spend]: [None] is [return false]; otherwise the undo record and the coins. *)
Definition Spend (c : CCoins) (n : Z) : option (CTxInUndo * CCoins) :=
  o ← coins_vout c !! Z.to_nat n;
  if CTxOut_IsNull o then None
  else
    let c' := Cleanup (with_vout c (<[Z.to_nat n := CTxOut_null]> (coins_vout c))) in
    Some (if (length (coins_vout c') =? 0)%nat
          then TxInUndo o (fCoinBase c) (fCoinStake c) (u32 (coins_nHeight c)) (coins_nVersion c)
          else TxInUndo o false false 0 0, c').

(** * Serialization *)

(** Byte [b] of the mask: [for (i = 0; i < 8 && 2 + b * 8 + i < vout.size(); i++)]. *)
Definition mask_byte (vout : list CTxOut) (b : nat) : Z :=
  foldl (λ chAvail i,
    match vout !! (2 + b * 8 + i)%nat with
    | Some o => if negb (CTxOut_IsNull o) then Z.lor chAvail (1 ≪ Z.of_nat i) else chAvail
    | None => chAvail
    end) 0 (seq 0 8).

(** [fZero] of byte [b] in [CalcMaskSize]. *)
Definition mask_zero (vout : list CTxOut) (b : nat) : bool :=
  forallb (λ i, match vout !! (2 + b * 8 + i)%nat with Some o => CTxOut_IsNull o | None => true end) (seq 0 8).

(** [for (b = 0; 2 + b * 8 < vout.size(); b++)]; the pair is [nLastUsedByte] and
    [nNonzeroBytes]. *)
Fixpoint mask_loop (fuel : nat) (vout : list CTxOut) (b : nat) (r : nat * nat) : nat * nat :=
  match fuel with
  | O => r
  | S fuel =>
      if (2 + b * 8 <? length vout)%nat
      then mask_loop fuel vout (S b) (if mask_zero vout b then r else (S b, S r.2))
      else r
  end.
Definition CalcMaskSize (vout : list CTxOut) : nat * nat := mask_loop (length vout) vout 0 (0%nat, 0%nat).

Definition fAvail (vout : list CTxOut) (k : nat) : bool :=
  match vout !! k with Some o => negb (CTxOut_IsNull o) | None => false end.
Definition bit_of (f : bool) (v : Z) : Z := if f then v else 0.

Section serialization.
Context `{Secp256k1}.

(** The outputs that are not null, compressed. *)
Fixpoint serialize_outs (l : list CTxOut) : option (list Z) :=
  match l with
  | [] => Some []
  | o :: l =>
      if CTxOut_IsNull o then serialize_outs l
      else s ← Serialize_TxOutCompressor o; r ← serialize_outs l; Some (s ++ r)
  end.

(** [None] is the failed assertion of a pruned entry. *)
Definition Serialize_coins (c : CCoins) : option (list Z) :=
  let '(nMaskSize, nMaskCode) := CalcMaskSize (coins_vout c) in
  let fFirst := fAvail (coins_vout c) 0 in
  let fSecond := fAvail (coins_vout c) 1 in
  if fFirst || fSecond || negb (nMaskCode =? 0)%nat then
    let nCode := u32 (16 * (Z.of_nat nMaskCode - (if fFirst || fSecond then 0 else 1)) +
                      bit_of (fCoinBase c) 1 + bit_of (fCoinStake c) 2 + bit_of fFirst 4 + bit_of fSecond 8) in
    outs ← serialize_outs (coins_vout c);
    Some (WriteVarInt (sint 32) (coins_nVersion c) ++
          WriteVarInt (uint 32) nCode ++
          map (mask_byte (coins_vout c)) (seq 0 nMaskSize) ++
          outs ++
          WriteVarInt (sint 32) (coins_nHeight c))
  else None.

(** [while (nMaskCode > 0)]: every round consumes a byte, so the length of the input
    bounds the rounds. *)
Fixpoint read_mask (fuel : nat) (nMaskCode : Z) (vAvail : list bool) : decoder (list bool) :=
  if nMaskCode <=? 0 then mret vAvail
  else match fuel with
  | O => throw
  | S fuel =>
      chAvail ← Unserialize_uint 1;
      let vAvail := vAvail ++ map (λ p, negb (Z.land chAvail (1 ≪ Z.of_nat p) =? 0)) (seq 0 8) in
      read_mask fuel (if negb (chAvail =? 0) then nMaskCode - 1 else nMaskCode) vAvail
  end.

Fixpoint read_outs (vAvail : list bool) : decoder (list CTxOut) :=
  match vAvail with
  | [] => mret []
  | f :: l =>
      o ← (if (f : bool) then Unserialize_TxOutCompressor CTxOut_null else mret CTxOut_null);
      r ← read_outs l; mret (o :: r)
  end.

Definition Unserialize_coins : decoder CCoins := λ s,
  (nVersion ← ReadVarInt (sint 32);
   nCode ← ReadVarInt (uint 32);
   let vAvail := [negb (Z.land nCode 4 =? 0); negb (Z.land nCode 8 =? 0)] in
   let nMaskCode := nCode `div` 16 + (if negb (Z.land nCode 12 =? 0) then 0 else 1) in
   vAvail ← read_mask (length s) nMaskCode vAvail;
   vout ← read_outs vAvail;
   nHeight ← ReadVarInt (sint 32);
   mret (Cleanup (Coins (negb (Z.land nCode 1 =? 0)) (negb (Z.land nCode 2 =? 0)) vout nHeight nVersion))) s.

(** [CCoins::GetSerializeSize]: its [nCode] is built with a factor 8. *)
Fixpoint size_outs (l : list CTxOut) : option Z :=
  match l with
  | [] => Some 0
  | o :: l =>
      if CTxOut_IsNull o then size_outs l
      else nVal ← CompressAmount (u64 (nValue o)); r ← size_outs l;
           Some (GetSizeOfVarInt (uint 64) nVal + GetSerializeSize_script (scriptPubKey o) + r)
  end.
Definition GetSerializeSize_coins (c : CCoins) : option Z :=
  let '(nMaskSize, nMaskCode) := CalcMaskSize (coins_vout c) in
  let fFirst := fAvail (coins_vout c) 0 in
  let fSecond := fAvail (coins_vout c) 1 in
  if fFirst || fSecond || negb (nMaskCode =? 0)%nat then
    let nCode := u32 (8 * (Z.of_nat nMaskCode - (if fFirst || fSecond then 0 else 1)) +
                      bit_of (fCoinBase c) 1 + bit_of (fCoinStake c) 2 + bit_of fFirst 4 + bit_of fSecond 8) in
    outs ← size_outs (coins_vout c);
    Some (u32 (GetSizeOfVarInt (sint 32) (coins_nVersion c) + GetSizeOfVarInt (uint 32) nCode +
               Z.of_nat nMaskSize + outs + GetSizeOfVarInt (sint 32) (coins_nHeight c)))
  else None.

(** ** [CTxInUndo], [CTxUndo] *)

Definition undo_code (u : CTxInUndo) : Z :=
  u32 (u32 (undo_nHeight u * 4) + bit_of (undo_fCoinBase u) 2 + bit_of (undo_fCoinStake u) 1).
Definition Serialize_undo (u : CTxInUndo) : option (list Z) :=
  out ← Serialize_TxOutCompressor (undo_txout u);
  Some (WriteVarInt (uint 32) (undo_code u) ++
        (if 0 <? undo_nHeight u then WriteVarInt (sint 32) (undo_nVersion u) else []) ++ out).
(** Reading into a fresh [CTxInUndo()]. *)
Definition Unserialize_undo : decoder CTxInUndo :=
  nCode ← ReadVarInt (uint 32);
  let nHeight := nCode ≫ 2 in
  nVersion ← (if 0 <? nHeight then ReadVarInt (sint 32) else mret 0);
  out ← Unserialize_TxOutCompressor CTxOut_null;
  mret (TxInUndo out (negb (Z.land nCode 2 =? 0)) (negb (Z.land nCode 1 =? 0)) nHeight nVersion).

End serialization.
