(* ===== verification/CoinsFacts.v ===== *)
(** Facts about [CCoins]: cleaning up the output array, the serialized form, and
    the shape of a spent entry. *)

From S2P Require Import Prelude Script PubKey Serialize SerializeFacts Transaction TransactionFacts Compressor CompressorFacts Coins.

(** * Cleaning up *)

Abbreviation nulls := (Forall (λ o, CTxOut_IsNull o = true)).

(** No null output at the end. *)
Definition clean (l : list CTxOut) : Prop := ∀ l' o, l = l' ++ [o] → CTxOut_IsNull o = false.

Lemma pop_nulls_spec r : ∃ n, r = n ++ pop_nulls r ∧ nulls n ∧ ∀ o l, pop_nulls r = o :: l → CTxOut_IsNull o = false.
Proof.
  induction r as [|o r (n & IH & Hn & Hh)]; [by exists []|]. cbn [pop_nulls]. destruct (CTxOut_IsNull o) eqn:E.
  - exists (o :: n). split_and!; [by rewrite IH at 1|by constructor|done].
  - exists []. split_and!; [done..|]. by intros ? ? [= <- <-].
Qed.

Lemma cleanup_spec l : ∃ n, l = cleanup_vout l ++ n ∧ nulls n ∧ clean (cleanup_vout l).
Proof.
  destruct (pop_nulls_spec (rev l)) as (n & E & Hn & Hh). exists (rev n). unfold cleanup_vout. split_and!.
  - rewrite <-rev_app_distr, <-E. by rewrite rev_involutive.
  - by apply Forall_rev.
  - intros l' o E'. apply (f_equal (@rev CTxOut)) in E'. rewrite rev_involutive, rev_app_distr in E'. by apply (Hh o (rev l')).
Qed.

Lemma clean_nil : clean [].
Proof. intros l o E. by destruct l. Qed.

Lemma clean_app_nulls a b n m : clean a → clean b → nulls n → nulls m → a ++ n = b ++ m → a = b.
Proof.
  intros Ha Hb Hn Hm E.
  assert (∀ a b n m, clean b → nulls n → a ++ n = b ++ m → (length b ≤ length a)%nat) as Hle.
  { clear. intros a b n m Hb Hn E. destruct (Nat.le_gt_cases (length b) (length a)) as [|Hlt]; [done|exfalso].
    destruct (exists_last (l := b)) as (b' & o & ->); [by intros ->; simpl in Hlt; lia|].
    rewrite length_app in Hlt. simpl in Hlt.
    assert ((a ++ n) !! length b' = Some o) as Ho.
    { rewrite E, <-app_assoc, lookup_app_r, Nat.sub_diag by lia. done. }
    rewrite lookup_app_r in Ho by lia. rewrite Forall_lookup in Hn. apply Hn in Ho. by rewrite (Hb b' o) in Ho. }
  assert (length a = length b) as Hl by (apply Nat.le_antisymm; [by apply (Hle b a m n)|by apply (Hle a b n m)]).
  by apply app_inj_1 in E as [].
Qed.

Lemma cleanup_clean l n : clean l → nulls n → cleanup_vout (l ++ n) = l.
Proof.
  intros Hl Hn. destruct (cleanup_spec (l ++ n)) as (m & E & Hm & Hc). symmetry.
  by apply (clean_app_nulls l _ n m).
Qed.

Lemma cleanup_id l : clean l → cleanup_vout l = l.
Proof. intros Hl. rewrite <-(app_nil_r l) at 1. by apply cleanup_clean. Qed.

Lemma cleanup_is_clean l : clean (cleanup_vout l).
Proof. by destruct (cleanup_spec l) as (n & _ & _ & ?). Qed.

Lemma fAvail_cleanup l k : fAvail (cleanup_vout l) k = fAvail l k.
Proof.
  destruct (cleanup_spec l) as (n & E & Hn & _). rewrite E at 2. unfold fAvail.
  destruct (Nat.lt_ge_cases k (length (cleanup_vout l))) as [Hlt|Hge]; [by rewrite lookup_app_l|].
  rewrite lookup_app_r, lookup_ge_None_2 by done.
  destruct (n !! _) as [o|] eqn:En; [|done]. rewrite Forall_lookup in Hn. by rewrite (Hn _ _ En).
Qed.

Lemma IsPruned_nulls c : IsPruned c = true ↔ nulls (coins_vout c).
Proof. unfold IsPruned. rewrite forallb_forall, Forall_forall. by setoid_rewrite list_elem_of_In. Qed.

Lemma cleanup_nulls l : nulls l → cleanup_vout l = [].
Proof. intros Hl. apply (cleanup_clean [] l); [apply clean_nil|done]. Qed.

Lemma IsPruned_nil c : clean (coins_vout c) → IsPruned c = true ↔ coins_vout c = [].
Proof.
  intros Hc. rewrite IsPruned_nulls. split; [|by intros ->].
  intros Hn. by rewrite <-(cleanup_id _ Hc), cleanup_nulls.
Qed.

(** * The bit mask *)

Lemma mask_byte_pack l b : mask_byte l b = pack8 (λ i, fAvail l (2 + b * 8 + i)).
Proof.
  unfold mask_byte, pack8. generalize 0 as c. induction (seq 0 8) as [|i s IH]; intros c; [done|].
  cbn [foldl]. rewrite IH. f_equal. unfold fAvail. by repeat case_match.
Qed.

Lemma testbit_mask l b k : (k < 8)%nat → Z.testbit (mask_byte l b) (Z.of_nat k) = fAvail l (2 + b * 8 + k).
Proof. intros Hk. by rewrite mask_byte_pack, testbit_pack8. Qed.

Lemma mask_byte_fits l b : fits 8 (mask_byte l b).
Proof. rewrite mask_byte_pack. apply pack8_fits. Qed.

Lemma mask_zero_spec l b : mask_zero l b = true ↔ ∀ k, (k < 8)%nat → fAvail l (2 + b * 8 + k) = false.
Proof.
  unfold mask_zero. rewrite forallb_forall. setoid_rewrite in_seq. unfold fAvail.
  split; intros H k Hk; specialize (H k ltac:(lia)); repeat case_match; try done; by apply negb_false_iff.
Qed.

Lemma mask_byte_zero l b : (mask_byte l b =? 0) = mask_zero l b.
Proof.
  apply eq_true_iff_eq. rewrite Z.eqb_eq, mask_zero_spec. split.
  - intros E k Hk. by rewrite <-testbit_mask, E, Z.bits_0 by done.
  - intros H. apply Z.bits_inj'. intros i Hi. rewrite Z.bits_0.
    destruct (Z.lt_ge_cases i 8); [|by apply (fits_testbit 8); [lia|apply mask_byte_fits]].
    rewrite <-(Z2Nat.id i) by done. rewrite testbit_mask by lia. apply H. lia.
Qed.

(** The loop of [CalcMaskSize]: the bytes from the last used one on are zero, and
    the nonzero ones before it are counted. *)
Definition nonzero_below (l : list CTxOut) (n : nat) : nat :=
  length (List.filter (λ b, negb (mask_zero l b)) (seq 0 n)).

Definition mask_inv (l : list CTxOut) (b : nat) (r : nat * nat) : Prop :=
  (r.1 ≤ b)%nat ∧ r.2 = nonzero_below l r.1 ∧ (∀ j, (r.1 ≤ j < b)%nat → mask_zero l j = true) ∧
  (∀ k, r.1 = S k → mask_zero l k = false).

Lemma nonzero_below_S l n : nonzero_below l (S n) = (nonzero_below l n + if mask_zero l n then 0 else 1)%nat.
Proof. unfold nonzero_below. rewrite seq_S, List.filter_app, length_app. cbn [List.filter Nat.add]. by destruct (mask_zero l n). Qed.

Lemma nonzero_below_zero l n m :
  (n ≤ m)%nat → (∀ j, (n ≤ j < m)%nat → mask_zero l j = true) → nonzero_below l m = nonzero_below l n.
Proof.
  intros Hnm. induction Hnm as [|m Hnm IH]; intros H; [done|].
  rewrite nonzero_below_S, (H m) by lia. rewrite IH; [lia|]. intros j Hj. apply H. lia.
Qed.

Lemma mask_loop_spec fuel l b r :
  (length l ≤ 2 + (b + fuel) * 8)%nat → mask_inv l b r →
  ∃ B, mask_inv l B (mask_loop fuel l b r) ∧ (length l ≤ 2 + B * 8)%nat.
Proof.
  revert b r. induction fuel as [|fuel IH]; intros b r Hf Hi; cbn [mask_loop].
  { exists b. split; [done|]. lia. }
  destruct (Nat.ltb_spec (2 + b * 8) (length l)) as [Hlt|Hge]; [|by exists b].
  apply IH; [lia|]. destruct Hi as (Hle & Hc & Hz & Hn). destruct (mask_zero l b) eqn:Eb; unfold mask_inv; cbn [fst snd].
  - split_and!; [lia|done| |done]. intros j Hj. destruct (decide (j = b)) as [->|]; [done|]. apply Hz. lia.
  - split_and!; [lia| |lia|by intros k [= <-]].
    rewrite nonzero_below_S, Eb, (nonzero_below_zero l r.1 b) by done. lia.
Qed.

Lemma CalcMaskSize_spec l :
  let '(nMaskSize, nMaskCode) := CalcMaskSize l in
  nMaskCode = nonzero_below l nMaskSize ∧ (∀ j, (nMaskSize ≤ j)%nat → mask_zero l j = true) ∧
  (∀ k, nMaskSize = S k → mask_zero l k = false).
Proof.
  destruct (mask_loop_spec (length l) l 0 (0, 0)%nat) as (B & (_ & Hc & Hz & Hn) & HB); [lia| |].
  { split_and!; [done..|intros j Hj; simpl in Hj; lia|done]. }
  unfold CalcMaskSize. destruct (mask_loop _ _ _ _) as [s n]. cbn [fst snd] in *. split_and!; [done| |done].
  intros j Hj. destruct (Nat.lt_ge_cases j B); [by apply Hz|]. apply mask_zero_spec. intros k _. unfold fAvail.
  by rewrite lookup_ge_None_2 by lia.
Qed.

(** ** Reading the mask back *)

Definition mask_bits (x : Z) : list bool := map (λ p, negb (Z.land x (1 ≪ Z.of_nat p) =? 0)) (seq 0 8).

Lemma uint_1 x : fits 8 x → Serialize_uint 1 x = [x].
Proof.
  intros Hx. assert (le_val 8 [x] = x) as E by (rewrite le_val_cons by (done || lia); simpl; lia).
  rewrite <-(uint_le_val [x]), E by (by constructor). done.
Qed.

Lemma read_mask_spec m fuel acc rest :
  (length m ≤ fuel)%nat → bytes m → (∀ m' x, m = m' ++ [x] → x ≠ 0) →
  read_mask fuel (Z.of_nat (length (List.filter (λ x, negb (x =? 0)) m))) acc (m ++ rest) =
  Some (acc ++ flat_map mask_bits m, rest).
Proof.
  revert fuel acc. induction m as [|x m IH]; intros fuel acc Hf Hb Hl.
  { destruct fuel; simpl; by rewrite app_nil_r. }
  assert (0 < Z.of_nat (length (List.filter (λ x, negb (x =? 0)) (x :: m)))) as Hpos.
  { destruct (exists_last (l := x :: m)) as (m' & y & E); [done|]. pose proof (Hl _ _ E). rewrite E, List.filter_app, length_app.
    cbn [List.filter]. replace (y =? 0) with false by lia. simpl. lia. }
  destruct fuel as [|fuel]; [simpl in Hf; lia|]. inversion_clear Hb as [|? ? Hx Hb']. cbn [read_mask].
  replace (_ <=? 0) with false by lia. unfold mbind, decoder_bind.
  assert (Unserialize_uint 1 ((x :: m) ++ rest) = Some (x, m ++ rest)) as ->.
  { pose proof (proj1 (codec_uint 1) x (m ++ rest) Hx) as H. by rewrite uint_1 in H. }
  cbv zeta. cbn [flat_map List.filter]. rewrite app_assoc. rewrite <-(IH fuel); [|simpl in Hf; lia|done|].
  - fold (mask_bits x). f_equal. destruct (x =? 0); simpl; [done|lia].
  - intros m' y E. apply (Hl (x :: m') y). by rewrite E.
Qed.

Lemma mask_bits_byte l b : mask_bits (mask_byte l b) = map (fAvail l) (seq (2 + b * 8) 8).
Proof.
  unfold mask_bits. rewrite <-(Nat.add_0_r (2 + b * 8)). rewrite <-fmap_add_seq, map_map.
  apply map_ext_in. intros p [_ Hp]%in_seq. rewrite Z.shiftl_1_l, land_pow2_test by lia. apply testbit_mask. lia.
Qed.

Lemma mask_bits_all l n : flat_map mask_bits (map (mask_byte l) (seq 0 n)) = map (fAvail l) (seq 2 (n * 8)).
Proof.
  induction n as [|n IH]; [done|]. rewrite seq_S, map_app, flat_map_app, IH. cbn [map flat_map Nat.add].
  rewrite mask_bits_byte, app_nil_r, <-map_app. f_equal. rewrite <-seq_app. f_equal. lia.
Qed.

(** * Round trips *)

(** An entry the serializer keeps: not pruned and cleaned up, outputs that compress
    faithfully, and fields that are not negative. *)
Definition out_ok (o : CTxOut) : Prop :=
  if CTxOut_IsNull o then o = CTxOut_null else compressible o ∧ nRounds o = -10.
Definition coins_ok (c : CCoins) : Prop :=
  clean (coins_vout c) ∧ coins_vout c ≠ [] ∧ Forall out_ok (coins_vout c) ∧
  Z.of_nat (length (coins_vout c)) < 2 ^ 28 ∧
  0 ≤ coins_nVersion c < 2 ^ 31 ∧ 0 ≤ coins_nHeight c < 2 ^ 31.

Lemma land_low n m : 0 ≤ m < 16 → Z.land n m = Z.land (n `mod` 16) m.
Proof.
  intros Hm. change 16 with (2 ^ 4). rewrite <-Z.land_ones, <-Z.land_assoc by lia. f_equal.
  rewrite Z.land_comm, Z.land_ones, Z.mod_small by lia. done.
Qed.

Lemma bit_of_bound b v : 0 ≤ v → 0 ≤ bit_of b v ≤ v.
Proof. destruct b; simpl; lia. Qed.

(** The header code gives back its five fields. *)
Lemma code_fields q (b0 b1 b2 b3 : bool) n :
  0 ≤ q → n = 16 * q + bit_of b0 1 + bit_of b1 2 + bit_of b2 4 + bit_of b3 8 →
  negb (Z.land n 1 =? 0) = b0 ∧ negb (Z.land n 2 =? 0) = b1 ∧ negb (Z.land n 4 =? 0) = b2 ∧
  negb (Z.land n 8 =? 0) = b3 ∧ negb (Z.land n 12 =? 0) = b2 || b3 ∧ n `div` 16 = q.
Proof.
  intros Hq ->. set (c := bit_of b0 1 + bit_of b1 2 + bit_of b2 4 + bit_of b3 8).
  assert (0 ≤ c < 16) by (unfold c; destruct b0, b1, b2, b3; simpl; lia).
  replace (16 * q + _ + _ + _ + _) with (c + q * 16) by (unfold c; lia).
  rewrite !(land_low (c + q * 16)) by lia. rewrite Z_mod_plus_full, Z_div_plus_full, (Z.mod_small c), (Z.div_small c) by lia.
  unfold c. destruct b0, b1, b2, b3; split_and!; done || lia.
Qed.

Lemma fAvail_map l : map (fAvail l) (seq 0 (length l)) = map (λ o, negb (CTxOut_IsNull o)) l.
Proof.
  apply list_eq. intros i. rewrite !list_lookup_fmap. destruct (l !! i) as [o|] eqn:E.
  - rewrite lookup_seq_lt by (by eapply lookup_lt_Some). simpl. unfold fAvail. by rewrite E.
  - rewrite lookup_seq_ge; [done|]. by apply lookup_ge_None.
Qed.

(** Availability of a longer prefix of positions: the outputs, then nothing. *)
Lemma fAvail_prefix l n : (length l ≤ n)%nat →
  map (fAvail l) (seq 0 n) = map (λ o, negb (CTxOut_IsNull o)) l ++ replicate (n - length l) false.
Proof.
  intros Hn. replace n with (length l + (n - length l))%nat at 1 by lia. rewrite seq_app, map_app, fAvail_map. f_equal.
  apply list_eq. intros i. rewrite list_lookup_fmap. cbn [Nat.add]. destruct (Nat.lt_ge_cases i (n - length l)).
  - rewrite lookup_seq_lt, lookup_replicate_2 by done. simpl. unfold fAvail. by rewrite lookup_ge_None_2 by lia.
  - rewrite lookup_seq_ge, (proj2 (lookup_ge_None (replicate _ _) _)) by (rewrite ?length_replicate; lia). done.
Qed.

Section roundtrip.
Context `{HS : Secp256k1} {HO : Secp256k1Ok}.

Lemma read_outs_spec l k : Forall out_ok l →
  ∃ ser, serialize_outs l = Some ser ∧ ∀ rest,
    read_outs (map (λ o, negb (CTxOut_IsNull o)) l ++ replicate k false) (ser ++ rest) =
    Some (l ++ replicate k CTxOut_null, rest).
Proof.
  induction l as [|o l IH]; intros Hl.
  { exists []. split; [done|]. intros rest. cbn [map app]. induction k as [|k IHk]; [done|].
    cbn [replicate read_outs]. unfold mbind, decoder_bind. simpl in *. by rewrite IHk. }
  inversion_clear Hl as [|? ? Ho Hl']. destruct (IH Hl') as (ser & Hser & Hread). unfold out_ok in Ho.
  cbn [serialize_outs map]. destruct (CTxOut_IsNull o) eqn:En; cbn [negb].
  - exists ser. split; [done|]. intros rest. subst o. cbn [app read_outs]. unfold mbind, decoder_bind. simpl.
    by rewrite Hread.
  - destruct Ho as [Hc Hr]. destruct (TxOutCompressor_read o CTxOut_null [] Hc) as (s & Hs & _).
    exists (s ++ ser). rewrite Hs, Hser. split; [done|]. intros rest.
    destruct (TxOutCompressor_read o CTxOut_null (ser ++ rest) Hc) as (s' & Hs' & Hrd). simplify_eq.
    cbn [app read_outs]. unfold mbind, decoder_bind. rewrite <-app_assoc, Hrd, Hread. destruct o; simpl in *. by subst.
Qed.

(** The mask covers the whole array of a clean entry. *)
Lemma mask_covers l nMaskSize :
  clean l → (∀ j, (nMaskSize ≤ j)%nat → mask_zero l j = true) → (length l ≤ 2 + nMaskSize * 8)%nat.
Proof.
  intros Hc Hz. destruct (Nat.le_gt_cases (length l) (2 + nMaskSize * 8)) as [|Hgt]; [done|exfalso].
  destruct (exists_last (l := l)) as (l' & o & E); [by intros ->; simpl in Hgt; lia|].
  pose proof (f_equal length E) as El. rewrite length_app in El. simpl in El.
  set (b := ((length l' - 2) / 8)%nat). assert (8 * b ≤ length l' - 2 < 8 * b + 8)%nat as Hb.
  { unfold b. pose proof (Nat.div_mod (length l' - 2) 8 ltac:(lia)). pose proof (Nat.mod_upper_bound (length l' - 2) 8 ltac:(lia)). lia. }
  specialize (Hz b ltac:(lia)). rewrite mask_zero_spec in Hz. specialize (Hz (length l' - 2 - 8 * b)%nat ltac:(lia)).
  replace (2 + b * 8 + (length l' - 2 - 8 * b))%nat with (length l') in Hz by lia. unfold fAvail in Hz.
  rewrite E, lookup_app_r, Nat.sub_diag in Hz by lia. simpl in Hz. by rewrite (Hc _ _ E) in Hz.
Qed.

Lemma nonzero_below_le l n : (nonzero_below l n ≤ n)%nat.
Proof. unfold nonzero_below. rewrite <-(length_seq n 0) at 2. apply filter_length_le. Qed.

Lemma mask_size_le l nMaskSize :
  (∀ k, nMaskSize = S k → mask_zero l k = false) → (nMaskSize ≤ length l)%nat.
Proof.
  intros Hn. destruct nMaskSize as [|k]; [lia|]. specialize (Hn k eq_refl).
  destruct (Nat.le_gt_cases (S k) (length l)) as [|Hgt]; [done|].
  rewrite (proj2 (mask_zero_spec l k)) in Hn; [done|]. intros j _. unfold fAvail. by rewrite lookup_ge_None_2 by lia.
Qed.

(** The assertion of the serializer holds. *)
Lemma coins_available l nMaskSize nMaskCode :
  clean l → l ≠ [] → CalcMaskSize l = (nMaskSize, nMaskCode) →
  fAvail l 0 || fAvail l 1 || negb (nMaskCode =? 0)%nat = true.
Proof.
  intros Hc Hne E. pose proof (CalcMaskSize_spec l) as H. rewrite E in H. destruct H as (Hcode & Hz & Hn).
  destruct nMaskSize as [|k]; cycle 1.
  { rewrite nonzero_below_S, (Hn k eq_refl) in Hcode. replace (nMaskCode =? 0)%nat with false by lia. apply orb_true_r. }
  pose proof (mask_covers l 0 Hc Hz) as Hle. destruct (exists_last Hne) as (l' & o & El).
  pose proof (Hc _ _ El) as Ho. rewrite El in *. clear -Hle Ho.
  destruct l' as [|a [|b l']]; simpl in *; unfold fAvail; simpl; rewrite ?Ho; simpl; rewrite ?orb_true_r; try done. 
  rewrite length_app in Hle. simpl in Hle. lia.
Qed.

Lemma mask_bytes_spec l nMaskSize nMaskCode :
  CalcMaskSize l = (nMaskSize, nMaskCode) →
  let m := map (mask_byte l) (seq 0 nMaskSize) in
  bytes m ∧ length (List.filter (λ x, negb (x =? 0)) m) = nMaskCode ∧ (∀ m' x, m = m' ++ [x] → x ≠ 0).
Proof.
  intros E. pose proof (CalcMaskSize_spec l) as H. rewrite E in H. destruct H as (-> & _ & Hn). cbv zeta. split_and!.
  - apply Forall_map, Forall_true. intros b. apply mask_byte_fits.
  - unfold nonzero_below. induction (seq 0 nMaskSize) as [|b s IH]; [done|]. cbn [map List.filter].
    rewrite mask_byte_zero. destruct (mask_zero l b); simpl; lia.
  - intros m' x Em. destruct nMaskSize as [|k]; [by destruct m'|]. rewrite seq_S, map_app in Em. simpl in Em.
    apply app_inj_tail in Em as [_ <-]. intros H0. specialize (Hn k eq_refl). rewrite <-mask_byte_zero in Hn. lia.
Qed.

Lemma coins_roundtrip c :
  coins_ok c → ∃ ser, Serialize_coins c = Some ser ∧ ∀ rest, Unserialize_coins (ser ++ rest) = Some (c, rest).
Proof.
  intros (Hc & Hne & Ho & Hlen & Hv & Hh). unfold Serialize_coins.
  destruct (CalcMaskSize (coins_vout c)) as [nMaskSize nMaskCode] eqn:EM.
  rewrite (coins_available _ _ _ Hc Hne EM). cbv zeta.
  pose proof (CalcMaskSize_spec (coins_vout c)) as HM. rewrite EM in HM. destruct HM as (Hcode & Hz & Hn).
  pose proof (mask_covers _ _ Hc Hz) as Hcov. pose proof (mask_size_le _ _ Hn) as Hms.
  pose proof (nonzero_below_le (coins_vout c) nMaskSize) as Hmc. rewrite <-Hcode in Hmc.
  destruct (mask_bytes_spec _ _ _ EM) as (Hmb & Hcnt & Hlast).
  destruct (read_outs_spec (coins_vout c) (2 + nMaskSize * 8 - length (coins_vout c)) Ho) as (outs & -> & Hread).
  set (fF := fAvail (coins_vout c) 0) in *. set (fS := fAvail (coins_vout c) 1) in *.
  set (q := Z.of_nat nMaskCode - (if fF || fS then 0 else 1)).
  assert (0 ≤ q) as Hq.
  { pose proof (coins_available _ _ _ Hc Hne EM) as Ha. fold fF fS in Ha. unfold q. destruct (fF || fS); simpl in Ha; lia. }
  set (code := 16 * q + bit_of (fCoinBase c) 1 + bit_of (fCoinStake c) 2 + bit_of fF 4 + bit_of fS 8).
  assert (fits 32 code) as Hfit.
  { assert (q ≤ Z.of_nat nMaskCode) by (unfold q; destruct (fF || fS); lia).
    clear -Hmc Hms Hlen Hq H. pose proof (λ b v, bit_of_bound b v) as Hb.
    pose proof (Hb (fCoinBase c) 1 ltac:(lia)). pose proof (Hb (fCoinStake c) 2 ltac:(lia)).
    pose proof (Hb fF 4 ltac:(lia)). pose proof (Hb fS 8 ltac:(lia)). unfold fits, code. lia. }
  destruct (code_fields q (fCoinBase c) (fCoinStake c) fF fS code Hq eq_refl) as (E0 & E1 & E2 & E3 & E4 & E5).
  rewrite (wrap_small 32 code Hfit). eexists. split; [done|]. intros rest.
  unfold Unserialize_coins, mbind, decoder_bind. rewrite <-!app_assoc.
  rewrite varint_sint_read by (lia || (change (32 - 1) with 31; done)). rewrite varint_uint_read by (done || lia).
  rewrite E0, E1, E2, E3, E4, E5.
  replace (q + (if fF || fS then 0 else 1)) with (Z.of_nat nMaskCode) by (unfold q; lia).
  rewrite <-Hcnt, (read_mask_spec _ _ [fF; fS]) by (done || rewrite !length_app; lia).
  rewrite mask_bits_all. change ([fF; fS] ++ map (fAvail (coins_vout c)) (seq 2 (nMaskSize * 8))) with
    (map (fAvail (coins_vout c)) (seq 0 (2 + nMaskSize * 8))).
  rewrite fAvail_prefix, Hread, varint_sint_read by (done || lia || (change (32 - 1) with 31; done)).
  unfold Cleanup, with_vout. cbn [coins_vout fCoinBase fCoinStake coins_nHeight coins_nVersion].
  rewrite cleanup_clean; [by destruct c|done|]. by apply Forall_replicate.
Qed.

(** Undo records without a height carry no version. *)
Definition undo_ok (u : CTxInUndo) : Prop :=
  compressible (undo_txout u) ∧ nRounds (undo_txout u) = -10 ∧ 0 ≤ undo_nHeight u < 2 ^ 30 ∧
  0 ≤ undo_nVersion u < 2 ^ 31 ∧ (undo_nHeight u = 0 → undo_nVersion u = 0).

Lemma undo_fields h (b0 b1 : bool) n :
  0 ≤ h → n = h * 4 + bit_of b0 2 + bit_of b1 1 →
  negb (Z.land n 2 =? 0) = b0 ∧ negb (Z.land n 1 =? 0) = b1 ∧ n ≫ 2 = h.
Proof.
  intros Hh ->. set (c := bit_of b0 2 + bit_of b1 1).
  assert (0 ≤ c < 4) by (unfold c; destruct b0, b1; simpl; lia).
  replace (h * 4 + _ + _) with (c + h * 4) by (unfold c; lia).
  rewrite Z.shiftr_div_pow2 by lia. change (2 ^ 2) with 4. rewrite Z_div_plus_full, (Z.div_small c) by lia.
  assert (∀ m, 0 ≤ m < 4 → Z.land (c + h * 4) m = Z.land c m) as Hl.
  { intros m Hm. replace m with (Z.land 3 m) at 1.
    - rewrite Z.land_assoc. f_equal. change 3 with (Z.ones 2). rewrite Z.land_ones by lia. change (2 ^ 2) with 4.
      rewrite Z_mod_plus_full. by apply Z.mod_small.
    - rewrite Z.land_comm. change 3 with (Z.ones 2). rewrite Z.land_ones by lia. by apply Z.mod_small. }
  rewrite !Hl by lia. unfold c. destruct b0, b1; split_and!; done || lia.
Qed.

Lemma undo_roundtrip u :
  undo_ok u → ∃ ser, Serialize_undo u = Some ser ∧ ∀ rest, Unserialize_undo (ser ++ rest) = Some (u, rest).
Proof.
  intros (Hc & Hr & Hh & Hv & Hv0). unfold Serialize_undo.
  destruct (TxOutCompressor_read (undo_txout u) CTxOut_null [] Hc) as (s & Hs & _). rewrite Hs.
  eexists. split; [done|]. intros rest.
  destruct (TxOutCompressor_read (undo_txout u) CTxOut_null rest Hc) as (s' & Hs' & Hrd). simplify_eq.
  set (code := undo_nHeight u * 4 + bit_of (undo_fCoinBase u) 2 + bit_of (undo_fCoinStake u) 1).
  assert (undo_code u = code ∧ fits 32 code) as [Ecode Hfit].
  { pose proof (bit_of_bound (undo_fCoinBase u) 2 ltac:(lia)). pose proof (bit_of_bound (undo_fCoinStake u) 1 ltac:(lia)).
    unfold undo_code, code. rewrite (wrap_small 32 (_ * 4)) by (unfold fits; lia).
    rewrite wrap_small by (unfold fits; lia). unfold fits. lia. }
  destruct (undo_fields (undo_nHeight u) _ _ code ltac:(lia) eq_refl) as (E1 & E2 & E3).
  unfold Unserialize_undo, mbind, decoder_bind. rewrite <-!app_assoc, Ecode, varint_uint_read by (done || lia).
  rewrite E1, E2, E3. destruct (Z.ltb_spec 0 (undo_nHeight u)).
  - rewrite varint_sint_read by (lia || (change (32 - 1) with 31; done)). rewrite Hrd.
    clear -Hr. destruct u as [[] ? ? ? ?]; simpl in *. by subst.
  - assert (undo_nHeight u = 0) as E0 by lia. specialize (Hv0 E0). cbn [app]. unfold mret, decoder_ret. rewrite Hrd, E0.
    clear -Hr Hv0 E0. destruct u as [[] ? ? ? ?]; simpl in *. by subst.
Qed.

End roundtrip.

(** A one-point stand-in for the curve library, for examples. *)
Definition example_secp : Secp256k1 := {|
  curve_point := unit;
  ec_pubkey_parse _ := None;
  ec_pubkey_serialize _ _ := 4 :: replicate 64 0;
  ecdsa_verify _ _ _ := false;
|}.
Lemma example_secp_ok : @Secp256k1Ok example_secp.
Proof. split; [done|]. intros []. exists (replicate 32 0), (replicate 32 0). by split_and!; try apply words_replicate0. Qed.

(** ** Properties *)

(** The entries of the coin database and the undo records of the undo files are
    read back exactly as they were written: the flags, the positions of the unspent
    outputs (through the availability mask, whose length the reader infers from the
    number of nonzero bytes), amounts and scripts through their compression, height
    and version. *)
Theorem coins_undo_serialization `{HS : Secp256k1} {HO : Secp256k1Ok} c u :
  coins_ok c → undo_ok u →
  (∃ ser, Serialize_coins c = Some ser ∧ ∀ rest, Unserialize_coins (ser ++ rest) = Some (c, rest)) ∧
  (∃ ser, Serialize_undo u = Some ser ∧ ∀ rest, Unserialize_undo (ser ++ rest) = Some (u, rest)).
Proof. intros Hc Hu. split; [by apply coins_roundtrip|by apply undo_roundtrip]. Qed.

Definition example_coins : CCoins :=
  Coins true false (replicate 4 CTxOut_null ++ [TxOut 234925952 ([OP_DUP; OP_HASH160; 20] ++ replicate 20 9 ++ [OP_EQUALVERIFY; OP_CHECKSIG]) (-10)])
    120891 1.
Definition example_undo : CTxInUndo := TxInUndo (TxOut 60000000000 [OP_TRUE] (-10)) true false 77 1.

Lemma coins_undo_serialization_witness :
  coins_ok example_coins ∧ undo_ok example_undo ∧
  @Unserialize_coins example_secp (default [] (@Serialize_coins example_secp example_coins)) = Some (example_coins, []).
Proof.
  assert (coins_ok example_coins) as Hc.
  { unfold coins_ok. split_and!; try done; try (cbn; lia).
    - intros l o E. apply app_inj_tail in E as [_ <-]. reflexivity.
    - apply Forall_app. split; [by apply Forall_replicate|]. constructor; [|constructor].
      unfold out_ok. cbn. split; [|reflexivity]. apply (bool_decide_unpack (compressible _)). vm_compute. exact I. }
  assert (undo_ok example_undo) as Hu.
  { split_and!; try (cbn; lia). apply (bool_decide_unpack (compressible _)). vm_compute. exact I. }
  split; [exact Hc|]. split; [exact Hu|].
  destruct (@coins_undo_serialization example_secp example_secp_ok example_coins example_undo Hc Hu) as [(ser & E & H) _].
  rewrite E. simpl. rewrite <-(app_nil_r ser). apply H.
Defined.

(** [GetSerializeSize] is not the length of the serialization: its header code has
    the factor 8 where the serializer has 16, and is a byte shorter for an entry
    with eight nonzero mask bytes. *)
Lemma GetSerializeSize_wrong :
  let c := Coins false false (replicate 66 (TxOut 1 [] (-10))) 1 1 in
  ∃ ser, @Serialize_coins example_secp c = Some ser ∧ @GetSerializeSize_coins example_secp c = Some (size ser - 1).
Proof. eexists. split; vm_compute; reflexivity. Qed.
