(* ===== verification/CoinsView.v ===== *)
(** coins.h, coins.cpp, coinsviewdb.cpp: views of the set of unspent outputs.

    A [CCoinsView] is a database view or a cache over another view; an operation on
    a cache also changes the views below it, since reading fills the caches.  The
    database holds entries by transaction id (their bytes are the subject of
    Coins.v), and a write to it succeeds.  [flags] is the pair of its two bits.  A
    [CCoinsModifier] lives for one modification, so [ModifyCoins] takes the
    modification as a function and runs the destructor after it; no two modifiers
    of a cache are alive at once.  [None] is a failed assertion. *)

From S2P Require Import Prelude Script Serialize Transaction Coins.

Abbreviation uint256 := (list Z).

Record CCoinsCacheEntry := CacheEntry { entry_coins : CCoins; DIRTY : bool; FRESH : bool }.
Abbreviation CCoinsMap := (gmap uint256 CCoinsCacheEntry).

Inductive CCoinsView :=
  | CCoinsViewDB (db : gmap uint256 CCoins) (hashBestChain : uint256)
  | CCoinsViewCache (hashBlock : uint256) (cacheCoins : CCoinsMap) (base : CCoinsView).

(** ** Reading *)

(** [GetCoins] of the database; [FetchCoins] of a cache and the coins of the entry
    found.  [AccessCoins] is the same. *)
Fixpoint GetCoins (v : CCoinsView) (txid : uint256) : option CCoins * CCoinsView :=
  match v with
  | CCoinsViewDB db _ => (db !! txid, v)
  | CCoinsViewCache hashBlock cacheCoins base =>
      match cacheCoins !! txid with
      | Some it => (Some (entry_coins it), v)
      | None =>
          let '(tmp, base) := GetCoins base txid in
          match tmp with
          | None => (None, CCoinsViewCache hashBlock cacheCoins base)
          | Some coins =>
              (Some coins,
               CCoinsViewCache hashBlock (<[txid := CacheEntry coins false (IsPruned coins)]> cacheCoins) base)
          end
      end
  end.

Definition HaveCoins (v : CCoinsView) (txid : uint256) : bool * CCoinsView :=
  match v with
  | CCoinsViewDB db _ => (bool_decide (is_Some (db !! txid)), v)
  | CCoinsViewCache _ _ _ =>
      let '(r, v) := GetCoins v txid in
      (match r with Some coins => negb (length (coins_vout coins) =? 0)%nat | None => false end, v)
  end.

(** [CCoinsViewDB::GetBestBlock] is null when the key is absent. *)
Fixpoint GetBestBlock (v : CCoinsView) : uint256 * CCoinsView :=
  match v with
  | CCoinsViewDB _ hashBestChain => (hashBestChain, v)
  | CCoinsViewCache hashBlock cacheCoins base =>
      if uint256_IsNull hashBlock then
        let '(h, base) := GetBestBlock base in (h, CCoinsViewCache h cacheCoins base)
      else (hashBlock, v)
  end.

Definition SetBestBlock (v : CCoinsView) (hashBlockIn : uint256) : CCoinsView :=
  match v with
  | CCoinsViewDB db _ => v
  | CCoinsViewCache _ cacheCoins base => CCoinsViewCache hashBlockIn cacheCoins base
  end.

(** ** Modifying *)

(** [cacheCoins.insert(txid, CCoinsCacheEntry())] and what fills a new entry. *)
Definition modify_entry (cacheCoins : CCoinsMap) (base : CCoinsView) (txid : uint256) : CCoinsCacheEntry * CCoinsView :=
  match cacheCoins !! txid with
  | Some it => (it, base)
  | None =>
      let '(r, base) := GetCoins base txid in
      (match r with
       | None => CacheEntry CCoins_empty false true
       | Some coins => CacheEntry coins false (IsPruned coins)
       end, base)
  end.

(** [ModifyCoins(txid)], the modification [f] through the modifier, and
    [~CCoinsModifier].  Only caches have it. *)
Definition ModifyCoins {A} (v : CCoinsView) (txid : uint256) (f : CCoins → A * CCoins) : option (A * CCoinsView) :=
  match v with
  | CCoinsViewDB _ _ => None
  | CCoinsViewCache hashBlock cacheCoins base =>
      let '(it, base) := modify_entry cacheCoins base txid in
      let '(a, coins) := f (entry_coins it) in
      let coins := Cleanup coins in
      Some (a, CCoinsViewCache hashBlock
                 (if FRESH it && IsPruned coins then delete txid cacheCoins
                  else <[txid := CacheEntry coins true (FRESH it)]> cacheCoins) base)
  end.

(** ** Flushing *)

(** The body of the loop of [CCoinsViewCache::BatchWrite] for one entry of the child. *)
Definition batch_entry (cacheCoins : CCoinsMap) (it : uint256 * CCoinsCacheEntry) : option CCoinsMap :=
  let '(txid, e) := it in
  if DIRTY e then
    match cacheCoins !! txid with
    | None =>
        if negb (IsPruned (entry_coins e)) then
          if FRESH e then Some (<[txid := CacheEntry (entry_coins e) true true]> cacheCoins) else None
        else Some cacheCoins
    | Some itUs =>
        if FRESH itUs && IsPruned (entry_coins e) then Some (delete txid cacheCoins)
        else Some (<[txid := CacheEntry (entry_coins e) true (FRESH itUs)]> cacheCoins)
    end
  else Some cacheCoins.

Fixpoint batch_loop (cacheCoins : CCoinsMap) (l : list (uint256 * CCoinsCacheEntry)) : option CCoinsMap :=
  match l with
  | [] => Some cacheCoins
  | it :: l => c ← batch_entry cacheCoins it; batch_loop c l
  end.

(** [BatchWriteCoins] into the batch of the database. *)
Definition db_entry (db : gmap uint256 CCoins) (it : uint256 * CCoinsCacheEntry) : gmap uint256 CCoins :=
  let '(txid, e) := it in
  if DIRTY e then
    if IsPruned (entry_coins e) then delete txid db else <[txid := entry_coins e]> db
  else db.

(** The maps are walked in the order of [map_to_list]; the result does not depend on it. *)
Definition BatchWrite (v : CCoinsView) (mapCoins : CCoinsMap) (hashBlockIn : uint256) : option CCoinsView :=
  match v with
  | CCoinsViewDB db hashBestChain =>
      Some (CCoinsViewDB (foldl db_entry db (map_to_list mapCoins))
              (if uint256_IsNull hashBlockIn then hashBestChain else hashBlockIn))
  | CCoinsViewCache _ cacheCoins base =>
      c ← batch_loop cacheCoins (map_to_list mapCoins);
      Some (CCoinsViewCache hashBlockIn c base)
  end.

Definition Flush (v : CCoinsView) : option CCoinsView :=
  match v with
  | CCoinsViewDB _ _ => None
  | CCoinsViewCache hashBlock cacheCoins base =>
      base ← BatchWrite base cacheCoins hashBlock;
      Some (CCoinsViewCache hashBlock ∅ base)
  end.

Definition GetCacheSize (v : CCoinsView) : Z :=
  match v with CCoinsViewDB _ _ => 0 | CCoinsViewCache _ cacheCoins _ => u32 (Z.of_nat (map_size cacheCoins)) end.

(** ** Transactions against a view *)

(** [GetOutputFor]: the assertion is [None]. *)
Definition GetOutputFor (v : CCoinsView) (input : CTxIn) : option (CTxOut * CCoinsView) :=
  let '(coins, v) := GetCoins v (op_hash (prevout input)) in
  c ← coins;
  if IsAvailable c (op_n (prevout input))
  then o ← coins_vout c !! Z.to_nat (op_n (prevout input)); Some (o, v) else None.

Fixpoint value_in (v : CCoinsView) (nResult : Z) (l : list CTxIn) : option (Z * CCoinsView) :=
  match l with
  | [] => Some (nResult, v)
  | i :: l => '(o, v) ← GetOutputFor v i; value_in v (s64 (nResult + nValue o)) l
  end.
Definition GetValueIn (v : CCoinsView) (tx : CMutableTransaction) : option (Z * CCoinsView) :=
  cb ← IsCoinBase tx;
  if (cb : bool) then Some (0, v)
  else
    zs ← tx_IsZerocoinSpend tx;
    if (zs : bool) then z ← GetZerocoinSpent tx; Some (z, v)
    else value_in v 0 (vin tx).

Fixpoint have_inputs (v : CCoinsView) (l : list CTxIn) : bool * CCoinsView :=
  match l with
  | [] => (true, v)
  | i :: l =>
      let '(coins, v) := GetCoins v (op_hash (prevout i)) in
      match coins with
      | Some c => if IsAvailable c (op_n (prevout i)) then have_inputs v l else (false, v)
      | None => (false, v)
      end
  end.
Definition HaveInputs (v : CCoinsView) (tx : CMutableTransaction) : option (bool * CCoinsView) :=
  cb ← IsCoinBase tx;
  zs ← (if (cb : bool) then Some true else tx_IsZerocoinSpend tx);
  Some (if (zs : bool) then (true, v) else have_inputs v (vin tx)).
