(* ===== verification/CoinsViewFacts.v ===== *)
(** The caches of the coin views are invisible: a stack of views refines one map
    from transaction ids to unspent outputs, whatever was cached, and flushing moves
    the modifications down without changing it. *)

From S2P Require Import Prelude Script Serialize Transaction Coins CoinsFacts CoinsView.

(** * The abstract state *)

(** A pruned entry counts as absent. *)
Definition norm (c : CCoins) : option CCoins := if IsPruned c then None else Some c.

(** The entry the topmost view that has one holds. *)
Fixpoint coins_at (v : CCoinsView) (txid : uint256) : option CCoins :=
  match v with
  | CCoinsViewDB db _ => db !! txid
  | CCoinsViewCache _ cacheCoins base =>
      match cacheCoins !! txid with Some e => Some (entry_coins e) | None => coins_at base txid end
  end.
Definition utxo (v : CCoinsView) (txid : uint256) : option CCoins := coins_at v txid ≫= norm.

Fixpoint best_block (v : CCoinsView) : uint256 :=
  match v with
  | CCoinsViewDB _ h => h
  | CCoinsViewCache h _ base => if uint256_IsNull h then best_block base else h
  end.

(** * The invariant of the flags *)

Definition has_entry (v : CCoinsView) (txid : uint256) : Prop :=
  match v with CCoinsViewDB _ _ => True | CCoinsViewCache _ c _ => is_Some (c !! txid) end.

(** FRESH entries are absent below; entries that are not DIRTY agree with the view
    below; entries that are not FRESH were fetched through the view below, which
    therefore has an entry of its own. *)
Definition entry_ok (base : CCoinsView) (txid : uint256) (e : CCoinsCacheEntry) : Prop :=
  (FRESH e = true → utxo base txid = None) ∧
  (DIRTY e = false → norm (entry_coins e) = utxo base txid) ∧
  (FRESH e = false → has_entry base txid).

Fixpoint view_ok (v : CCoinsView) : Prop :=
  match v with
  | CCoinsViewDB db _ => map_Forall (λ _ c, IsPruned c = false) db
  | CCoinsViewCache _ c base => view_ok base ∧ map_Forall (entry_ok base) c
  end.

(** A property of all the entries stored in a stack. *)
Fixpoint all_coins (P : CCoins → Prop) (v : CCoinsView) : Prop :=
  match v with
  | CCoinsViewDB db _ => map_Forall (λ _ c, P c) db
  | CCoinsViewCache _ c base => all_coins P base ∧ map_Forall (λ _ e, P (entry_coins e)) c
  end.

(** [v'] is [v] with caches filled. *)
Record same_view (v v' : CCoinsView) : Prop := {
  same_coins t : coins_at v' t = coins_at v t;
  same_entry t : has_entry v t → has_entry v' t;
  same_ok : view_ok v → view_ok v';
  same_all P : all_coins P v → all_coins P v';
  same_best : best_block v' = best_block v;
}.

#[export] Instance same_view_preorder : PreOrder same_view.
Proof.
  split.
  - by split.
  - intros v1 v2 v3 [A1 B1 C1 D1 E1] [A2 B2 C2 D2 E2]. split; [intros t; by rewrite A2|auto..|by rewrite E2].
Qed.

Lemma same_utxo v v' t : same_view v v' → utxo v' t = utxo v t.
Proof. intros [H _ _ _ _]. unfold utxo. by rewrite H. Qed.

Lemma entry_ok_same base base' t e : same_view base base' → entry_ok base t e → entry_ok base' t e.
Proof.
  intros Hs (H1 & H2 & H3). unfold entry_ok. rewrite (same_utxo _ _ t Hs). split_and!; [done..|].
  intros H. by apply (same_entry _ _ Hs), H3.
Qed.

Lemma all_coins_at P v t c : all_coins P v → coins_at v t = Some c → P c.
Proof.
  induction v as [db h|h cache base IH]; simpl; [intros HP H; by apply (HP t)|]. intros [Hb Hc] H.
  destruct (cache !! t) as [e|] eqn:E; [|by apply IH]. simplify_eq. by apply (Hc t).
Qed.

Lemma norm_Some c c' : norm c = Some c' ↔ c' = c ∧ IsPruned c = false.
Proof. unfold norm. destruct (IsPruned c); split; try done; [by intros [? ?]|by intros [= <-]|by intros [-> _]]. Qed.

Lemma utxo_norm v t c : coins_at v t = Some c → utxo v t = norm c.
Proof. unfold utxo. by intros ->. Qed.

(** * Reading *)

Lemma GetCoins_spec v txid :
  let '(r, v') := GetCoins v txid in
  r = coins_at v txid ∧ same_view v v' ∧ (is_Some r → has_entry v' txid).
Proof.
  induction v as [db h|h cache base IH]; cbn [GetCoins coins_at]; [by split_and!|].
  destruct (cache !! txid) as [e|] eqn:E.
  { split_and!; [done..|]. intros _. simpl. by rewrite E. }
  destruct (GetCoins base txid) as [r base']. destruct IH as (Hr & Hs & He).
  destruct r as [coins|]; (split; [done|]); split; try (by intros [? [=]]).
  - split.
    + intros t. simpl. destruct (decide (t = txid)) as [->|Hne].
      * by rewrite lookup_insert_eq, E.
      * rewrite lookup_insert_ne by done. by rewrite (same_coins _ _ Hs).
    + intros t. simpl. intros [e Ht]. destruct (decide (t = txid)) as [->|Hne]; [by rewrite lookup_insert_eq|].
      by rewrite lookup_insert_ne, Ht.
    + intros [Hb Hc]. split; [by apply (same_ok _ _ Hs)|]. apply map_Forall_insert_2.
      * unfold entry_ok. cbn [FRESH DIRTY entry_coins]. rewrite (same_utxo _ _ txid Hs), (utxo_norm base txid coins) by done.
        unfold norm. split_and!; [by intros ->|done|]. intros _. by apply He.
      * intros t e Ht. apply (entry_ok_same base); [done|]. by apply Hc.
    + intros P [Hb Hc]. split; [by apply (same_all _ _ Hs)|]. apply map_Forall_insert_2; [|done]. simpl.
      by apply (all_coins_at P base txid).
    + simpl. by rewrite (same_best _ _ Hs).
  - intros _. simpl. by rewrite lookup_insert_eq.
  - split; simpl.
    + intros t. case_match; [done|]. apply (same_coins _ _ Hs).
    + done.
    + intros [Hb Hc]. split; [by apply (same_ok _ _ Hs)|]. intros t e Ht. apply (entry_ok_same base); [done|]. by apply Hc.
    + intros P [Hb Hc]. split; [by apply (same_all _ _ Hs)|done].
    + by rewrite (same_best _ _ Hs).
Qed.

Lemma GetBestBlock_spec v : let '(h, v') := GetBestBlock v in h = best_block v ∧ same_view v v'.
Proof.
  induction v as [db h|h cache base IH]; cbn [GetBestBlock best_block]; [done|].
  destruct (uint256_IsNull h) eqn:Eh; [|by split]. destruct (GetBestBlock base) as [h' base']. destruct IH as [-> Hs].
  split; [done|]. split; simpl.
  - intros t. case_match; [done|]. apply (same_coins _ _ Hs).
  - done.
  - intros [Hb Hc]. split; [by apply (same_ok _ _ Hs)|]. intros t e Ht. apply (entry_ok_same base); [done|]. by apply Hc.
  - intros P [Hb Hc]. split; [by apply (same_all _ _ Hs)|done].
  - rewrite Eh. case_match; [|done]. apply (same_best _ _ Hs).
Qed.

(** * Modifying *)

Lemma IsPruned_Cleanup c : IsPruned (Cleanup c) = IsPruned c.
Proof.
  apply eq_true_iff_eq. rewrite !IsPruned_nulls. cbn [Cleanup with_vout coins_vout].
  destruct (cleanup_spec (coins_vout c)) as (n & E & Hn & _). rewrite E at 2. rewrite Forall_app. tauto.
Qed.

Lemma modify_entry_spec h cache base txid :
  let v := CCoinsViewCache h cache base in
  view_ok v →
  let '(it, base') := modify_entry cache base txid in
  same_view base base' ∧ entry_ok base' txid it ∧ norm (entry_coins it) = utxo v txid ∧
  (entry_coins it = CCoins_empty ∨ coins_at v txid = Some (entry_coins it)).
Proof.
  intros v [Hb Hc]. unfold modify_entry, v, utxo. cbn [coins_at]. destruct (cache !! txid) as [it|] eqn:Ec.
  { split_and!; [done|by apply Hc..|done|by right]. }
  pose proof (GetCoins_spec base txid) as HG. destruct (GetCoins base txid) as [r base'].
  destruct HG as (Hr & Hs & He). rewrite <-Hr. unfold entry_ok. rewrite (same_utxo _ _ txid Hs).
  destruct r as [coins|]; cbn [FRESH DIRTY entry_coins]; (split; [done|]).
  - rewrite (utxo_norm base txid coins) by done. unfold norm. split_and!; [by intros ->|done|intros _; by apply He|done|by right].
  - unfold utxo. rewrite <-Hr. split_and!; [done..|by left].
Qed.

(** A modification replaces one entry of the abstract state. *)
Lemma ModifyCoins_spec {A} h cache base txid (f : CCoins → A * CCoins) :
  let v := CCoinsViewCache h cache base in
  view_ok v →
  ∃ c0 v', norm c0 = utxo v txid ∧ (c0 = CCoins_empty ∨ coins_at v txid = Some c0) ∧
    ModifyCoins v txid f = Some ((f c0).1, v') ∧ view_ok v' ∧
    utxo v' txid = norm (Cleanup (f c0).2) ∧ (∀ t, t ≠ txid → utxo v' t = utxo v t) ∧
    best_block v' = best_block v ∧
    (∀ P, all_coins P v → P (Cleanup (f c0).2) → all_coins P v').
Proof.
  intros v Hok. pose proof (modify_entry_spec h cache base txid Hok) as Hit. destruct Hok as [Hb Hc].
  unfold ModifyCoins. unfold v in *. destruct (modify_entry cache base txid) as [it base'].
  destruct Hit as (Hs & Hit & Hn & Hat). exists (entry_coins it). destruct (f (entry_coins it)) as [a c].
  eexists. split_and!; [done|done|reflexivity|..]; cbn [fst snd].
  - split; [by apply (same_ok _ _ Hs)|]. destruct Hit as (H1 & H2 & H3). assert (map_Forall (entry_ok base') cache) as Hc'.
    { intros t e Ht. apply (entry_ok_same base); [done|]. by apply Hc. }
    case_match; [by apply map_Forall_delete|]. apply map_Forall_insert_2; [|done]. by unfold entry_ok.
  - unfold utxo. cbn [coins_at]. destruct (FRESH it && IsPruned (Cleanup c)) eqn:Ef.
    + rewrite lookup_delete_eq. apply andb_true_iff in Ef as [Ef Ep]. unfold norm at 2. rewrite Ep.
      destruct Hit as (H1 & _). by apply H1.
    + by rewrite lookup_insert_eq.
  - intros t Ht. unfold utxo. cbn [coins_at]. rewrite (same_coins _ _ Hs).
    destruct (FRESH it && _); by rewrite ?lookup_delete_ne, ?lookup_insert_ne by congruence.
  - simpl. by rewrite (same_best _ _ Hs).
  - intros P [HPb HPc] HP. split; [by apply (same_all _ _ Hs)|].
    case_match; [by apply map_Forall_delete|by apply map_Forall_insert_2].
Qed.

(** * Flushing *)

(** What the loop of [BatchWrite] leaves at a key that the child modified. *)
Definition batch_at (e : CCoinsCacheEntry) (p : option CCoinsCacheEntry) : option CCoinsCacheEntry :=
  if DIRTY e then
    match p with
    | None => if IsPruned (entry_coins e) then None else Some (CacheEntry (entry_coins e) true true)
    | Some u => if FRESH u && IsPruned (entry_coins e) then None else Some (CacheEntry (entry_coins e) true (FRESH u))
    end
  else p.
(** The assertion that the loop makes at that key. *)
Definition batch_asserts (e : CCoinsCacheEntry) (p : option CCoinsCacheEntry) : Prop :=
  DIRTY e = true → p = None → IsPruned (entry_coins e) = false → FRESH e = true.

Lemma batch_entry_spec cache t e :
  batch_asserts e (cache !! t) →
  ∃ cache', batch_entry cache (t, e) = Some cache' ∧ cache' !! t = batch_at e (cache !! t) ∧
            ∀ t', t' ≠ t → cache' !! t' = cache !! t'.
Proof.
  intros Ha. unfold batch_entry, batch_at. destruct (DIRTY e) eqn:Ed; [|by exists cache].
  destruct (cache !! t) as [u|] eqn:Ec.
  - case_match; eexists; (split; [done|]); rewrite ?lookup_delete_eq, ?lookup_insert_eq; (split; [done|]);
      intros t' Ht; by rewrite ?lookup_delete_ne, ?lookup_insert_ne by congruence.
  - destruct (IsPruned (entry_coins e)) eqn:Ep; cbn [negb]; [by exists cache|].
    rewrite (Ha Ed eq_refl Ep). eexists. split; [done|]. rewrite lookup_insert_eq. split; [done|].
    intros t' Ht. by rewrite lookup_insert_ne by congruence.
Qed.

Lemma batch_loop_spec cache l :
  NoDup l.*1 → (∀ t e, (t, e) ∈ l → batch_asserts e (cache !! t)) →
  ∃ cache', batch_loop cache l = Some cache' ∧
    (∀ t e, (t, e) ∈ l → cache' !! t = batch_at e (cache !! t)) ∧ (∀ t, t ∉ l.*1 → cache' !! t = cache !! t).
Proof.
  revert cache. induction l as [|[t e] l IH]; intros cache Hd Ha; cbn [batch_loop].
  { exists cache. split_and!; [done|by intros ?? ?%elem_of_nil|done]. }
  apply NoDup_cons in Hd as [Hnt Hd].
  destruct (batch_entry_spec cache t e) as (c1 & -> & H1 & H2); [by apply Ha; left|]. cbn [mbind option_bind].
  assert (∀ t' e', (t', e') ∈ l → t' ≠ t) as Hne.
  { intros t' e' Hin ->. apply Hnt, list_elem_of_fmap. by exists (t, e'). }
  destruct (IH c1 Hd) as (c2 & -> & H3 & H4).
  { intros t' e' Hin. rewrite H2 by (by eapply Hne). apply Ha. by right. }
  exists c2. split_and!; [done| |].
  - intros t' e' [[= -> ->]|Hin]%elem_of_cons; [by rewrite H4, H1|].
    rewrite (H3 _ _ Hin). by rewrite H2 by (by eapply Hne).
  - intros t' [Ht Hin]%not_elem_of_cons. by rewrite H4, H2.
Qed.

(** Walking a map: the order of [map_to_list] does not matter. *)
Lemma batch_map_spec (cache m : CCoinsMap) :
  (∀ t e, m !! t = Some e → batch_asserts e (cache !! t)) →
  ∃ cache', batch_loop cache (map_to_list m) = Some cache' ∧
    ∀ t, cache' !! t = match m !! t with Some e => batch_at e (cache !! t) | None => cache !! t end.
Proof.
  intros Ha. destruct (batch_loop_spec cache (map_to_list m)) as (c & Hc & H1 & H2).
  - apply NoDup_fst_map_to_list.
  - intros t e Hin. apply Ha. by apply elem_of_map_to_list.
  - exists c. split; [done|]. intros t. destruct (m !! t) as [e|] eqn:E.
    + apply H1. by apply elem_of_map_to_list.
    + apply H2. intros [[t' e] [-> Hin]]%list_elem_of_fmap. apply elem_of_map_to_list in Hin. simpl in *. congruence.
Qed.

Lemma db_map_spec (db : gmap uint256 CCoins) (m : CCoinsMap) t :
  foldl db_entry db (map_to_list m) !! t =
  match m !! t with Some e => if DIRTY e then norm (entry_coins e) else db !! t | None => db !! t end.
Proof.
  assert (∀ l db, NoDup l.*1 →
    (∀ e, (t, e) ∈ l → foldl db_entry db l !! t = if DIRTY e then norm (entry_coins e) else db !! t) ∧
    (t ∉ l.*1 → foldl db_entry db l !! t = db !! t)) as H.
  { clear. induction l as [|[t' e'] l IH]; intros db Hd; [split; [by intros ? ?%elem_of_nil|done]|].
    apply NoDup_cons in Hd as [Hnt Hd]. destruct (IH (db_entry db (t', e')) Hd) as [H1 H2]. cbn [foldl].
    assert (t ≠ t' → db_entry db (t', e') !! t = db !! t) as Hne.
    { intros Ht. unfold db_entry. repeat case_match; by rewrite ?lookup_delete_ne, ?lookup_insert_ne by congruence. }
    split.
    - intros e [[= -> ->]|Hin]%elem_of_cons.
      + rewrite H2 by done. unfold db_entry, norm. repeat case_match; by rewrite ?lookup_delete_eq, ?lookup_insert_eq.
      + rewrite (H1 _ Hin). case_match; [done|]. apply Hne. intros ->. apply Hnt, list_elem_of_fmap. by exists (t', e).
    - intros [Ht Hin]%not_elem_of_cons. by rewrite H2, Hne. }
  destruct (H (map_to_list m) db) as [H1 H2]; [apply NoDup_fst_map_to_list|]. destruct (m !! t) as [e|] eqn:E.
  - apply H1. by apply elem_of_map_to_list.
  - apply H2. intros [[t' e] [-> Hin]]%list_elem_of_fmap. apply elem_of_map_to_list in Hin. simpl in *. congruence.
Qed.

Lemma BatchWrite_cache h h' cache cache' base :
  view_ok (CCoinsViewCache h cache (CCoinsViewCache h' cache' base)) →
  ∃ c2, batch_loop cache' (map_to_list cache) = Some c2 ∧
    view_ok (CCoinsViewCache h c2 base) ∧
    (∀ t, utxo (CCoinsViewCache h c2 base) t = utxo (CCoinsViewCache h cache (CCoinsViewCache h' cache' base)) t) ∧
    (∀ P, all_coins P (CCoinsViewCache h cache (CCoinsViewCache h' cache' base)) → all_coins P (CCoinsViewCache h c2 base)).
Proof.
  intros [[Hbb Hb] Hc]. destruct (batch_map_spec cache' cache) as (c2 & Hl & H2).
  { intros t e He Hd Hn Hp. destruct (FRESH e) eqn:Ef; [done|]. destruct (Hc t e He) as (_ & _ & H).
    destruct (H Ef) as [u Hu]. congruence. }
  exists c2. split_and!; [done|split; [done|]| |].
  - intros t e2 He2. rewrite H2 in He2. destruct (cache !! t) as [e|] eqn:He; [|by apply Hb].
    destruct (Hc t e He) as (Hf & _ & Hnf). unfold batch_at in He2. destruct (DIRTY e); [|by apply Hb].
    destruct (cache' !! t) as [u|] eqn:Hu.
    + destruct (Hb t u Hu) as (Huf & _ & Hunf). case_match; simplify_eq. by unfold entry_ok.
    + destruct (IsPruned (entry_coins e)) eqn:Ep; simplify_eq. destruct (FRESH e) eqn:Ef.
      * unfold entry_ok. cbn [FRESH DIRTY]. split_and!; [|done..]. intros _. specialize (Hf eq_refl).
        unfold utxo in Hf. cbn [coins_at] in Hf. by rewrite Hu in Hf.
      * destruct (Hnf eq_refl) as [u' Hu']. congruence.
  - intros t. unfold utxo. cbn [coins_at]. rewrite H2. destruct (cache !! t) as [e|] eqn:He; [|done].
    destruct (Hc t e He) as (Hf & Hnd & Hnf). unfold batch_at. destruct (DIRTY e); cycle 1.
    { cbn [mbind option_bind]. by rewrite Hnd. }
    cbn [mbind option_bind]. destruct (cache' !! t) as [u|] eqn:Hu.
    + destruct (Hb t u Hu) as (Huf & _). destruct (FRESH u && IsPruned (entry_coins e)) eqn:E; [|done].
      apply andb_true_iff in E as [Ef Ep]. unfold norm at 2. rewrite Ep. by apply Huf.
    + unfold norm at 2. destruct (IsPruned (entry_coins e)) eqn:Ep; [|cbn [entry_coins mbind option_bind]; unfold norm; by rewrite Ep].
      destruct (FRESH e) eqn:Ef; [|destruct (Hnf eq_refl) as [u' Hu']; congruence].
      specialize (Hf eq_refl). unfold utxo in Hf. cbn [coins_at] in Hf. by rewrite Hu in Hf.
  - intros P [[HPbb HPb] HPc]. split; [done|]. intros t e2 He2. rewrite H2 in He2.
    destruct (cache !! t) as [e|] eqn:He; [|by apply (HPb t)]. unfold batch_at in He2. pose proof (HPc t e He).
    repeat case_match; simplify_eq; try done; by apply (HPb t).
Qed.

Lemma Flush_spec h cache base :
  view_ok (CCoinsViewCache h cache base) →
  ∃ base', Flush (CCoinsViewCache h cache base) = Some (CCoinsViewCache h ∅ base') ∧ view_ok base' ∧
    (∀ t, utxo base' t = utxo (CCoinsViewCache h cache base) t) ∧
    (uint256_IsNull h = false → best_block base' = h) ∧
    (∀ P, all_coins P (CCoinsViewCache h cache base) → all_coins P base').
Proof.
  intros Hok. destruct base as [db hb|h' cache' base]; cbn [Flush BatchWrite].
  - eexists. split; [done|]. destruct Hok as [Hdb Hc]. split_and!.
    + intros t c. rewrite db_map_spec. destruct (cache !! t) as [e|]; [destruct (DIRTY e)|]; try apply Hdb.
      unfold norm. case_match; [done|]. by intros [= <-].
    + intros t. unfold utxo. cbn [coins_at]. rewrite db_map_spec. destruct (cache !! t) as [e|] eqn:He; [|done].
      destruct (Hc t e He) as (_ & Hnd & _). cbn [mbind option_bind]. destruct (DIRTY e); [|by rewrite Hnd].
      destruct (norm (entry_coins e)) as [c|] eqn:En; [|done]. apply norm_Some in En as [-> Hp]. simpl. unfold norm. by rewrite Hp.
    + intros Hh. simpl. by rewrite Hh.
    + intros P [HPb HPc]. intros t c. rewrite db_map_spec. destruct (cache !! t) as [e|] eqn:He; [|apply HPb].
      destruct (DIRTY e); [|apply HPb]. intros [-> _]%norm_Some. by apply (HPc t).
  - destruct (BatchWrite_cache h h' cache cache' base Hok) as (c2 & -> & Hok2 & Hu & HP). cbn [mbind option_bind].
    eexists. split; [done|]. split_and!; [done|done| |done]. intros Hh. simpl. by rewrite Hh.
Qed.

Lemma view_ok_new h base : view_ok base → view_ok (CCoinsViewCache h ∅ base).
Proof. intros Hb. split; [done|]. by apply map_Forall_empty. Qed.

Lemma utxo_new h base t : utxo (CCoinsViewCache h ∅ base) t = utxo base t.
Proof. unfold utxo. cbn [coins_at]. by rewrite lookup_empty. Qed.

(** ** Properties *)

(** A pruned entry has no outputs left: what [Cleanup] guarantees. *)
Definition tidy (c : CCoins) : Prop := IsPruned c = true → coins_vout c = [].

Lemma tidy_Cleanup c : tidy (Cleanup c).
Proof.
  unfold tidy. rewrite IsPruned_nulls. cbn [Cleanup with_vout coins_vout]. intros Hn.
  destruct (cleanup_vout (coins_vout c)) as [|o l] eqn:E; [done|exfalso].
  destruct (exists_last (l := o :: l)) as (l' & o' & El); [done|]. rewrite El in E, Hn.
  apply Forall_app in Hn as [_ [Ho _]%Forall_cons]. pose proof (cleanup_is_clean (coins_vout c) l' o' E). congruence.
Qed.

(** [v'] shows the same coins and the same best block as [v]. *)
Definition same_state (v v' : CCoinsView) : Prop :=
  view_ok v' ∧ (∀ t, utxo v' t = utxo v t) ∧ best_block v' = best_block v ∧ (all_coins tidy v → all_coins tidy v').

Lemma same_view_state v v' : view_ok v → same_view v v' → same_state v v'.
Proof. intros Hok Hs. split_and!; [by apply Hs|intros t; by apply same_utxo|by apply Hs|by apply Hs]. Qed.

Lemma HaveCoins_spec h cache base txid : let v := CCoinsViewCache h cache base in
  let '(r, v') := HaveCoins v txid in
  same_view v v' ∧ (r = false → utxo v txid = None) ∧ (all_coins tidy v → r = bool_decide (is_Some (utxo v txid))).
Proof.
  intros v. change (HaveCoins v txid) with
    (let '(r, v) := GetCoins v txid in (match r with Some coins => negb (length (coins_vout coins) =? 0)%nat | None => false end, v)).
  pose proof (GetCoins_spec v txid) as HG. destruct (GetCoins v txid) as [r v']. destruct HG as (Hr & Hs & _).
  split; [done|]. unfold utxo. rewrite <-Hr.
  destruct r as [c|]; [|by split]. cbn [mbind option_bind]. unfold norm. split.
  - intros Hc%negb_false_iff%Nat.eqb_eq. destruct (IsPruned c) eqn:Ep; [done|].
    apply length_zero_iff_nil in Hc. unfold IsPruned in Ep. by rewrite Hc in Ep.
  - intros Ht. pose proof (all_coins_at tidy _ txid c Ht (eq_sym Hr)) as Hc. destruct (IsPruned c) eqn:Ep.
    + rewrite (Hc Ep). done.
    + rewrite bool_decide_true by done. destruct (coins_vout c) eqn:Ev; [|done]. unfold IsPruned in Ep. by rewrite Ev in Ep.
Qed.

(** The best block of the view below after a flush: a database keeps its own when the
    cache has none, a cache takes over whatever the cache above has. *)
Definition flushed_best (h : uint256) (base : CCoinsView) : uint256 :=
  if uint256_IsNull h then match base with CCoinsViewDB _ hb => hb | CCoinsViewCache _ _ base => best_block base end else h.

Lemma Flush_best h cache base v : Flush (CCoinsViewCache h cache base) = Some v →
  ∃ base', v = CCoinsViewCache h ∅ base' ∧ best_block base' = flushed_best h base.
Proof.
  cbn [Flush]. unfold flushed_best. destruct base as [db hb|h' cache' base]; cbn [BatchWrite mbind option_bind].
  - intros [= <-]. eexists. split; [done|]. done.
  - destruct (batch_loop _ _) as [c|]; [|done]. intros [= <-]. eexists. split; [done|]. done.
Qed.

(** C5: A stack of coin caches over the database refines one map from transaction
    ids to unspent outputs together with a best block.  [GetCoins] returns the entry of
    the map and [GetBestBlock] the best block; they and [HaveCoins] change nothing
    visible although they fill the caches.  [HaveCoins] misses no entry, and is exact
    while pruned entries have no outputs, which every operation preserves.
    [SetBestBlock] changes the best block alone.  A modification applies its function
    to the entry of the map (an empty one if absent) and stores the cleaned-up result,
    or removes the entry when nothing is unspent.  A flush succeeds, in particular its
    assertion on the FRESH flag holds, and hands the map over to the view below, with
    the best block if the cache has one of its own; if not, a database below keeps its
    best block, while a cache below forgets its own and shows that of its base.  A new
    cache on top shows the same map and best block.  Every operation preserves the
    invariant of the DIRTY and FRESH flags. *)
Theorem coins_view_refinement {A} h cache base txid hashBlockIn (f : CCoins → A * CCoins) :
  let v := CCoinsViewCache h cache base in
  view_ok v →
  (let '(r, v') := GetCoins v txid in r ≫= norm = utxo v txid ∧ same_state v v') ∧
  (let '(r, v') := HaveCoins v txid in
   (r = false → utxo v txid = None) ∧ (all_coins tidy v → r = bool_decide (is_Some (utxo v txid))) ∧ same_state v v') ∧
  (let '(r, v') := GetBestBlock v in r = best_block v ∧ same_state v v') ∧
  (let v' := SetBestBlock v hashBlockIn in
   view_ok v' ∧ (∀ t, utxo v' t = utxo v t) ∧ (all_coins tidy v → all_coins tidy v') ∧
   best_block v' = if uint256_IsNull hashBlockIn then best_block base else hashBlockIn) ∧
  (∃ c0 v', norm c0 = utxo v txid ∧ ModifyCoins v txid f = Some ((f c0).1, v') ∧ view_ok v' ∧
     (∀ t, utxo v' t = if decide (t = txid) then norm (Cleanup (f c0).2) else utxo v t) ∧
     best_block v' = best_block v ∧ (all_coins tidy v → all_coins tidy v')) ∧
  (∃ base', Flush v = Some (CCoinsViewCache h ∅ base') ∧ view_ok (CCoinsViewCache h ∅ base') ∧
     (∀ t, utxo base' t = utxo v t) ∧ best_block base' = flushed_best h base ∧ (all_coins tidy v → all_coins tidy base')) ∧
  same_state v (CCoinsViewCache uint256_null ∅ v).
Proof.
  intros v Hok. split_and!.
  - pose proof (GetCoins_spec v txid) as H. destruct (GetCoins v txid) as [r v']. destruct H as (-> & Hs & _).
    split; [done|]. by apply same_view_state.
  - pose proof (HaveCoins_spec h cache base txid) as H. cbv zeta in H. change (CCoinsViewCache h cache base) with v in H. destruct (HaveCoins v txid) as [r v'].
    destruct H as (Hs & H1 & H2). split_and!; [done..|]. by apply same_view_state.
  - pose proof (GetBestBlock_spec v) as H. destruct (GetBestBlock v) as [r v']. destruct H as (-> & Hs).
    split; [done|]. by apply same_view_state.
  - split_and!; [by apply Hok|done|done|done].
  - destruct (ModifyCoins_spec h cache base txid f Hok) as (c0 & v' & Hn & _ & Hm & Hok' & Hu & Hne & Hb & HP).
    exists c0, v'. split_and!; [done..| |done|].
    + intros t. case_decide as Ht; [by subst|by apply Hne].
    + intros Ht. apply HP; [done|apply tidy_Cleanup].
  - destruct (Flush_spec h cache base Hok) as (base' & HF & Hb & Hu & _ & HP). fold v in HF.
    destruct (Flush_best h cache base _ HF) as (base2 & [= <-] & Hbest).
    exists base'. split_and!; [done|by apply view_ok_new|done..|by apply HP].
  - split_and!; [by apply view_ok_new|intros t; apply utxo_new|done|]. intros Ht. split; [done|]. by apply map_Forall_empty.
Qed.

Definition example_entry : CCoins := Coins false false [TxOut 5 [] (-10)] 10 1.
Definition example_view : CCoinsView :=
  CCoinsViewCache (replicate 32 7) ∅
    (CCoinsViewCache uint256_null ∅ (CCoinsViewDB {[ [1] := example_entry ]} uint256_null)).

Lemma coins_view_refinement_witness :
  view_ok example_view ∧
  match ModifyCoins example_view [1] (λ _, (tt, CCoins_empty)) with
  | Some (_, v') => utxo v' [1] = None ∧
      ∃ b, Flush v' = Some (CCoinsViewCache (replicate 32 7) ∅ b) ∧ utxo b [1] = None ∧ best_block b = replicate 32 7
  | None => False
  end.
Proof.
  assert (view_ok example_view) as Hok.
  { apply view_ok_new, view_ok_new. apply map_Forall_singleton. reflexivity. }
  split; [exact Hok|].
  destruct (coins_view_refinement _ _ _ [1] [] (λ _, (tt, CCoins_empty)) Hok) as (_ & _ & _ & _ & (c0 & v' & _ & E & Hok' & Hu & _) & _).
  unfold example_view. rewrite E. split; [exact (Hu [1])|].
  destruct v' as [|h c b]; [by vm_compute in E|]. assert (h = replicate 32 7) as -> by (vm_compute in E; by injection E).
  destruct (coins_view_refinement _ c b [1] [] (λ c, (tt, c)) Hok') as (_ & _ & _ & _ & _ & (b' & HF & _ & Hu' & Hb & _) & _).
  exists b'. split_and!; [exact HF|rewrite Hu'; exact (Hu [1])|exact Hb].
Defined.
