(* ===== verification/Bignum.v ===== *)
(** bignum.h, rand_bignum.cpp, libzerocoin/IntegerMod.h and ModulusType.h: the
    wrapper [CBigNum] of GMP's integers and the classes [IntegerMod<T>] of residues.
    An [mpz_t] is an integer; addition, multiplication, comparison, division and the
    shifts of GMP are those of Z.  Modular exponentiation, inversion and the
    primality test are an interface, with what the GMP manual says as laws. *)

From S2P Require Import Prelude Serialize Transaction.

Class Gmp := {
  mpz_powm : Z → Z → Z → Z;
  mpz_invert : Z → Z → Z;
  mpz_probab_prime_p : Z → Z → Z;
}.

(** The manual: [mpz_powm] sets its result to [base^exp mod m]; if the inverse exists
    the result of [mpz_invert] is the one in the range from 0 to [m - 1]. *)
Class GmpOk `{Gmp} : Prop := {
  powm_spec b e m : 0 ≤ e → 0 < m → mpz_powm b e m = b ^ e `mod` m;
  invert_spec a m : 1 < m → Z.gcd a m = 1 → 0 ≤ mpz_invert a m < m ∧ (a * mpz_invert a m) `mod` m = 1;
}.

(** * [CBigNum] *)

(** [mpz_sizeinbase(bn, 2)] is 1 for zero. *)
Definition bitSize (a : Z) : Z := if a =? 0 then 1 else bitlen (Z.abs a).

(** [mpz_export] with order -1 and words of one byte: the magnitude without leading
    zeros, nothing for zero. *)
Definition mpz_export (a : Z) : list Z := Z_to_little_endian ((bitlen (Z.abs a) + 7) `div` 8) 8 (Z.abs a).

Definition setvch (vch : list Z) : Z :=
  match vch with
  | [] => 0
  | _ =>
      let back := List.last vch 0 in
      let sign := Z.land back 0x80 in
      let vch2 := <[(length vch - 1)%nat := Z.land back 0x7f]> vch in
      let bn := le_val 8 vch2 in
      if negb (sign =? 0) then - bn else bn
  end.

Definition getvch (a : Z) : list Z :=
  if a =? 0 then []
  else
    let v := mpz_export a ++ [0] in
    if negb (Z.land (nth (length v - 2) v 0) 0x80 =? 0)
    then <[(length v - 1)%nat := if a <? 0 then 0x80 else 0]> v
    else
      let v := take (length v - 1) v in
      if a <? 0 then <[(length v - 1)%nat := Z.lor (nth (length v - 1) v 0) 0x80]> v else v.

(** [getuint256] exports into an object of 32 bytes without testing the size: a
    larger number overwrites the memory after it ([None]). *)
Definition setuint256 (n : list Z) : Z := le_val 8 n.
Definition getuint256 (a : Z) : option (list Z) :=
  let bytes := mpz_export a in
  if (length bytes <=? 32)%nat then Some (bytes ++ replicate (32 - length bytes) 0) else None.

Definition Serialize_bignum (a : Z) : list Z := Serialize_bytes (getvch a).
Definition Unserialize_bignum : decoder Z := vch ← Unserialize_bytes; mret (setvch vch).

(** [pow] takes the low 64 bits of the magnitude of the exponent ([mpz_get_ui]). *)
Definition bn_pow (a e : Z) : Z := a ^ u64 (Z.abs e).

(** [getint]: [mpz_get_ui] is the low 64 bits of the magnitude. *)
Definition getint (a : Z) : Z :=
  let n := u64 (Z.abs a) in
  if 0 <=? a then (if 2 ^ 31 - 1 <? n then 2 ^ 31 - 1 else n)
  else (if 2 ^ 31 - 1 <? n then - 2 ^ 31 else - n).

(** * rand_bignum.cpp *)

(** What [randombytes_buf] writes to: the elements of a vector, or the vector object.
    The second overwrites the pointers of the vector, and what follows is undefined. *)
Inductive destination := buffer_data | vector_object.
Definition randombytes_buf (dest : destination) (buf random : list Z) : option (list Z) :=
  match dest, random with
  | buffer_data, _ => Some (random ++ drop (length random) buf)
  | vector_object, [] => Some buf
  | vector_object, _ :: _ => None
  end.

(** [random] are the bytes of the system's generator. *)
Definition rand_size (range : Z) : nat := Z.to_nat ((bitSize range + 7) `div` 8).
Definition randBignum_to (dest : destination) (range : Z) (random : nat → Z) : option Z :=
  let size := rand_size range in
  buf ← randombytes_buf dest (replicate size 0) (map random (seq 0 size));
  let ret := setvch buf in Some (if ret <? 0 then - ret else ret).

(** [randBignum] passes [&buf], the address of the vector object. *)
Definition randBignum : Z → (nat → Z) → option Z := randBignum_to vector_object.

Section bignum.
Context `{Gmp}.

Definition mul_mod (a b m : Z) : Z := (a * b) `mod` m.
Definition pow_mod (a e m : Z) : Z := mpz_powm a e m.
Definition inverse (a m : Z) : Z := mpz_invert a m.
Definition isPrime (a checks : Z) : bool := negb (mpz_probab_prime_p a checks =? 0).

(** * [IntegerMod]: the static member [Mod] is the first argument *)

Definition im_of (Mod val : Z) : Z := val `mod` Mod.
Definition im_pow (Mod Value e : Z) : Z :=
  if e <? 0 then pow_mod (inverse Value Mod) (e * -1) Mod else pow_mod Value e Mod.
Definition im_inverse (Mod Value : Z) : Z := mpz_invert Value Mod.
Definition im_mul (Mod a b : Z) : Z := (a * b) `mod` Mod.
Definition im_div (Mod a b : Z) : Z := im_mul Mod a (im_of Mod (inverse b Mod)).
End bignum.

(** * ModulusType.h *)

Inductive ModulusType :=
  | ACCUMULATOR_MODULUS
  | COIN_COMMITMENT_MODULUS
  | SERIAL_NUMBER_SOK_COMMITMENT_MODULUS
  | SERIAL_NUMBER_SOK_COMMITMENT_GROUP
  | ACCUMULATOR_POK_COMMITMENT_MODULUS
  | ACCUMULATOR_POK_COMMITMENT_GROUP.

(** [IntegerModModulus<T>::getModulus()] *)
Definition getModulus (T : ModulusType) : Z :=
  match T with
  | ACCUMULATOR_MODULUS =>
      0xc7970ceedcc3b0754490201a7aa613cd73911081c790f5f1a8726f463550bb5b7ff0db8e1ea1189ec72f93d1650011bd721aeeacc2acde32a04107f0648c2813a31f5b0b7765ff8b44b4b6ffc93384b646eb09c7cf5e8592d40ea33c80039f35b4f14a04b51f7bfd781be4d1673164ba8eb991c2c4d730bbbe35f592bdef524af7e8daefd26c66fc02c479af89d64d373f442709439de66ceb955f3ea37d5159f6135809f85334b5cb1813addc80cd05609f10ac6a95ad65872c909525bdad32bc729592642920f24c61dc5b3c3b7923e56b16a4d9d373d8721f24a3fc0f1b3131f55615172866bccc30f95054c824e733a5eb6817f7bc16399d48c6361cc7e5
  | COIN_COMMITMENT_MODULUS =>
      0xe5f1c46cf7c4676f8e17f88373e340d6678a6054f55dc93694479a2844706f5e72ae264e793226cac0e59480a0d9037729a47201c7e67d82894bbc986b1b478341649e3d59372cec09f9e2f5dd0815e9d4e93fd4918fe1dd2ec4ee9375ac0be438f82f715c6f5f1d673785d79c962c6097f7961d37c2508d2b933024723ba241
  | SERIAL_NUMBER_SOK_COMMITMENT_MODULUS =>
      0x10f4335b88c49b20599a0472b12b6167cee253da43974a35e62ec77db80bca3616b49713092f929c32f8ed52fbdc00216931ffe7e19d1e80ffdf7587bce5a2e5cd724b2ac5f3f16fe73c4c9be0abf89d9d92b294cc3b7bc72ed2c5171f4d0f6073b34c7f7bb0b6234afc37fe45ab92859f346131677c73b068967a2cafec25968af
  | SERIAL_NUMBER_SOK_COMMITMENT_GROUP =>
      0xe5f1c46cf7c4676f8e17f88373e340d6678a6054f55dc93694479a2844706f5e72ae264e793226cac0e59480a0d9037729a47201c7e67d82894bbc986b1b478341649e3d59372cec09f9e2f5dd0815e9d4e93fd4918fe1dd2ec4ee9375ac0be438f82f715c6f5f1d673785d79c962c6097f7961d37c2508d2b933024723ba241
  | ACCUMULATOR_POK_COMMITMENT_MODULUS =>
      0xf09b3785fa945027296dbbb660809191b7aaa73581fb6af13ffdfa319a597ffda256bfd0a922a442a80d48c9809849b001999e9e8da06f12ec9807996d550f10beda5d7b871
  | ACCUMULATOR_POK_COMMITMENT_GROUP =>
      0x1723c6b5051557deef6da8dd8d3f3e48f68972cbbac1ca80d910777f72f38b25f
  end.
