(* ===== verification/BignumFacts.v ===== *)
(** Facts about Bignum.v: the byte form of a [CBigNum], and the units modulo [m] as a
    group with powers to integer exponents, which is what [IntegerMod] computes in. *)

From S2P Require Import Prelude Serialize SerializeFacts Bignum.

(** * Congruence *)

Definition eqm (m a b : Z) : Prop := (m | a - b).
Declare Scope congruence_scope.
Notation "a ≡[ m ] b" := (eqm m a b) (at level 70, m at level 200, format "a  ≡[ m ]  b") : congruence_scope.
Open Scope congruence_scope.

#[export] Instance eqm_equivalence m : Equivalence (eqm m).
Proof.
  unfold eqm. split.
  - intros a. rewrite Z.sub_diag. apply Z.divide_0_r.
  - intros a b [k Hk]. exists (- k). lia.
  - intros a b c [k Hk] [l Hl]. exists (k + l). lia.
Qed.
#[export] Instance eqm_add m : Proper (eqm m ==> eqm m ==> eqm m) Z.add.
Proof. intros a a' [k Hk] b b' [l Hl]. exists (k + l). lia. Qed.
#[export] Instance eqm_mul m : Proper (eqm m ==> eqm m ==> eqm m) Z.mul.
Proof. intros a a' [k Hk] b b' [l Hl]. exists (k * b + a' * l). nia. Qed.
#[export] Instance eqm_opp m : Proper (eqm m ==> eqm m) Z.opp.
Proof. intros a a' [k Hk]. exists (- k). lia. Qed.
#[export] Instance eqm_sub m : Proper (eqm m ==> eqm m ==> eqm m) Z.sub.
Proof. intros a a' [k Hk] b b' [l Hl]. exists (k - l). lia. Qed.

Lemma eqm_mod m a : a `mod` m ≡[m] a.
Proof.
  exists (- (a / m)). destruct (Z.eqb_spec m 0) as [->|?]; [rewrite Z.mod_0_r; lia|]. pose proof (Z.div_mod a m ltac:(done)). lia.
Qed.
Lemma eqm_mod_eq m a b : 0 < m → a ≡[m] b ↔ a `mod` m = b `mod` m.
Proof.
  intros. split.
  - intros [k Hk]. replace a with (b + k * m) by lia. by apply Z.mod_add; lia.
  - intros E. transitivity (a `mod` m); [by rewrite eqm_mod|]. by rewrite E, eqm_mod.
Qed.
Lemma eqm_eq m a b : 0 ≤ a < m → 0 ≤ b < m → a ≡[m] b → a = b.
Proof. intros Ha Hb. rewrite eqm_mod_eq by lia. by rewrite !Z.mod_small. Qed.

#[export] Instance eqm_pow m : Proper (eqm m ==> eq ==> eqm m) Z.pow.
Proof.
  intros a a' Ha n ? <-. destruct (Z.le_gt_cases 0 n) as [Hn|Hn]; [|by rewrite !Z.pow_neg_r].
  revert n Hn. apply natlike_ind; [done|]. intros n Hn IH. rewrite !Z.pow_succ_r by done. by apply eqm_mul.
Qed.

(** * Units *)

Abbreviation unit m a := (Z.coprime a m) (only parsing).

Lemma unit_eqm m a b : 0 < m → a ≡[m] b → unit m a ↔ unit m b.
Proof. intros ? E. rewrite <-(Z.coprime_mod_l_iff a), <-(Z.coprime_mod_l_iff b). by apply eqm_mod_eq in E as ->. Qed.
Lemma unit_cancel m a b c : 0 < m → unit m c → a * c ≡[m] b * c → a ≡[m] b.
Proof.
  intros Hm Hc. unfold eqm. rewrite <-Z.mul_sub_distr_r, Z.mul_comm. intros Hd.
  apply Z.gauss in Hd; [done|]. by rewrite Z.gcd_comm.
Qed.

Section gmp.
Context `{HG : GmpOk}.

Lemma inverse_unit m a : 1 < m → unit m a → 0 ≤ inverse a m < m ∧ inverse a m * a ≡[m] 1 ∧ unit m (inverse a m).
Proof.
  intros Hm Ha. destruct (invert_spec a m Hm Ha) as [Hb Hi]. fold (inverse a m) in *. split_and!; [lia..| |].
  - rewrite eqm_mod_eq by lia. by rewrite Z.mul_comm, Hi, Z.mod_1_l by lia.
  - assert (inverse a m * a ≡[m] 1) as [k Hk] by (rewrite eqm_mod_eq by lia; by rewrite Z.mul_comm, Hi, Z.mod_1_l by lia).
    apply Z.coprime_Bezout. exists a, (- k). lia.
Qed.

(** The power of a unit to an integer is determined by this equation. *)
Lemma im_pow_char m a x y :
  1 < m → unit m a → 0 ≤ x → 0 ≤ y → im_pow m a (x - y) * a ^ y ≡[m] a ^ x.
Proof.
  intros Hm Ha Hx Hy. unfold im_pow, pow_mod. destruct (Z.ltb_spec (x - y) 0).
  - rewrite powm_spec by lia. rewrite eqm_mod. destruct (inverse_unit m a Hm Ha) as (_ & Hi & _).
    replace y with (x + (x - y) * -1) at 2 by lia. rewrite Z.pow_add_r by lia.
    transitivity (a ^ x * (inverse a m * a) ^ ((x - y) * -1)).
    { rewrite Z.pow_mul_l. apply eq_subrelation; [apply _|]. ring. }
    rewrite Hi, Z.pow_1_l by lia. by rewrite Z.mul_1_r.
  - rewrite powm_spec by lia. rewrite eqm_mod, <-Z.pow_add_r by lia. by replace (x - y + y) with x by lia.
Qed.
Lemma im_pow_range m a e : 1 < m → 0 ≤ im_pow m a e < m.
Proof.
  intros Hm. unfold im_pow, pow_mod. destruct (Z.ltb_spec e 0); rewrite powm_spec by lia; apply Z.mod_pos_bound; lia.
Qed.
Lemma im_pow_unit m a e : 1 < m → unit m a → unit m (im_pow m a e).
Proof.
  intros Hm Ha. unfold im_pow, pow_mod. destruct (Z.ltb_spec e 0); rewrite powm_spec by lia;
    apply Z.coprime_mod_l_iff, Z.coprime_pow_l; try lia; [by apply inverse_unit|done].
Qed.

(** Every integer is a difference of naturals. *)
Ltac split_exponent e x y := assert (∃ x y, 0 ≤ x ∧ 0 ≤ y ∧ e = x - y) as (x & y & ? & ? & ->)
  by (exists (Z.max e 0), (Z.max e 0 - e); lia).

Lemma im_pow_congr m a b e : 1 < m → unit m a → a ≡[m] b → im_pow m a e ≡[m] im_pow m b e.
Proof.
  intros Hm Ha E. assert (unit m b) as Hb by (by apply (unit_eqm m a b); [lia|..]). split_exponent e x y.
  apply (unit_cancel m _ _ (a ^ y)); [lia|by apply Z.coprime_pow_l|].
  rewrite im_pow_char by done. rewrite E. by rewrite im_pow_char.
Qed.
Lemma im_pow_add m a e f : 1 < m → unit m a → im_pow m a (e + f) ≡[m] im_pow m a e * im_pow m a f.
Proof.
  intros Hm Ha. split_exponent e x y. split_exponent f x' y'.
  apply (unit_cancel m _ _ (a ^ (y + y'))); [lia|by apply Z.coprime_pow_l; [lia|]|].
  replace (x - y + (x' - y')) with (x + x' - (y + y')) by lia. rewrite im_pow_char by lia || done.
  rewrite !Z.pow_add_r by done.
  transitivity ((im_pow m a (x - y) * a ^ y) * (im_pow m a (x' - y') * a ^ y')); [by rewrite !im_pow_char|].
  apply eq_subrelation; [apply _|ring].
Qed.
Lemma im_pow_0 m a : 1 < m → unit m a → im_pow m a 0 ≡[m] 1.
Proof. intros Hm Ha. pose proof (im_pow_char m a 0 0 Hm Ha ltac:(lia) ltac:(lia)) as E. simpl in E. by rewrite Z.mul_1_r in E. Qed.
Lemma im_pow_1 m a : 1 < m → unit m a → im_pow m a 1 ≡[m] a.
Proof.
  intros Hm Ha. pose proof (im_pow_char m a 1 0 Hm Ha ltac:(lia) ltac:(lia)) as E. rewrite Z.pow_0_r, Z.pow_1_r, Z.mul_1_r in E. done.
Qed.
Lemma im_pow_inverse m a : 1 < m → unit m a → im_inverse m a ≡[m] im_pow m a (-1).
Proof.
  intros Hm Ha. apply (unit_cancel m _ _ a); [lia|done|]. destruct (inverse_unit m a Hm Ha) as (_ & -> & _).
  pose proof (im_pow_char m a 0 1 Hm Ha ltac:(lia) ltac:(lia)) as E. by rewrite Z.pow_0_r, Z.pow_1_r in E.
Qed.
Lemma im_mul_pow m a b e : 1 < m → unit m a → unit m b → im_pow m (a * b) e ≡[m] im_pow m a e * im_pow m b e.
Proof.
  intros Hm Ha Hb. assert (unit m (a * b)) as Hab by (by apply Z.coprime_mul_l). split_exponent e x y.
  apply (unit_cancel m _ _ ((a * b) ^ y)); [lia|by apply Z.coprime_pow_l|].
  rewrite im_pow_char by done. rewrite !Z.pow_mul_l.
  transitivity ((im_pow m a (x - y) * a ^ y) * (im_pow m b (x - y) * b ^ y)); [by rewrite !im_pow_char|].
  apply eq_subrelation; [apply _|ring].
Qed.
Lemma im_pow_nat m a e n : 1 < m → unit m a → 0 ≤ n → im_pow m a e ^ n ≡[m] im_pow m a (e * n).
Proof.
  intros Hm Ha Hn. revert n Hn. apply natlike_ind; [by rewrite Z.mul_0_r, im_pow_0|]. intros n Hn IH.
  rewrite Z.pow_succ_r by done. rewrite IH. replace (e * Z.succ n) with (e + e * n) by lia. by rewrite im_pow_add.
Qed.
Lemma im_pow_mul m a e f : 1 < m → unit m a → im_pow m (im_pow m a e) f ≡[m] im_pow m a (e * f).
Proof.
  intros Hm Ha. pose proof (im_pow_unit m a e Hm Ha) as Hu. split_exponent f x y.
  apply (unit_cancel m _ _ (im_pow m a e ^ y)); [lia|by apply Z.coprime_pow_l|].
  rewrite im_pow_char by done. rewrite !im_pow_nat by done. rewrite <-im_pow_add by done.
  by replace (e * (x - y) + e * y) with (e * x) by lia.
Qed.
Lemma im_pow_one m e : 1 < m → im_pow m 1 e ≡[m] 1.
Proof.
  intros Hm. assert (unit m 1) by apply Z.coprime_1_l. split_exponent e x y.
  pose proof (im_pow_char m 1 x y Hm ltac:(done) ltac:(done) ltac:(done)) as E. by rewrite !Z.pow_1_l, Z.mul_1_r in E.
Qed.
(** Exponents of an element whose order divides [q] count modulo [q]. *)
Lemma im_pow_order m a q e f : 1 < m → unit m a → im_pow m a q ≡[m] 1 → e ≡[q] f → im_pow m a e ≡[m] im_pow m a f.
Proof.
  intros Hm Ha Hq [k Hk]. replace e with (f + q * k) by lia. rewrite im_pow_add by done.
  rewrite <-im_pow_mul by done. rewrite (im_pow_congr m (im_pow m a q) 1) by (done || by apply im_pow_unit).
  by rewrite im_pow_one, Z.mul_1_r.
Qed.
End gmp.

(** * Bytes *)

Lemma mpz_export_spec a :
  words 8 (mpz_export a) ∧ le_val 8 (mpz_export a) = Z.abs a ∧ Z.of_nat (length (mpz_export a)) = (bitlen (Z.abs a) + 7) / 8.
Proof.
  unfold mpz_export. set (n := (bitlen (Z.abs a) + 7) `div` 8). pose proof (bitlen_nonneg (Z.abs a)).
  assert (0 ≤ n) by (apply Z.div_pos; lia). split_and!.
  - by apply Z_to_little_endian_bound.
  - rewrite little_endian_to_Z_to_little_endian by done. apply Z.mod_small. split; [lia|].
    destruct (Z.eqb_spec (Z.abs a) 0) as [->|?]; [apply Z.pow_pos_nonneg; lia|].
    eapply Z.lt_le_trans; [apply bitlen_spec; lia|]. apply Z.pow_le_mono_r; [lia|]. unfold n. pose proof (Z.mod_pos_bound (bitlen (Z.abs a) + 7) 8).
    pose proof (Z.div_mod (bitlen (Z.abs a) + 7) 8). lia.
  - rewrite length_Z_to_little_endian by done. lia.
Qed.

Lemma mpz_export_snoc a : a ≠ 0 → ∃ l t, mpz_export a = l ++ [t] ∧ words 8 l ∧ fits 8 t.
Proof.
  intros Ha. destruct (mpz_export_spec a) as (Hw & _ & Hl). destruct (exists_last (l := mpz_export a)) as (l & t & E).
  { intros E. rewrite E in Hl. simpl in Hl. pose proof (bitlen_pos (Z.abs a)). assert (1 ≤ (bitlen (Z.abs a) + 7) / 8); [|lia].
    apply Z.div_le_lower_bound; lia. }
  exists l, t. rewrite E in Hw. apply Forall_app in Hw as [? [? _]%Forall_cons]. done.
Qed.

Lemma setvch_snoc l t :
  setvch (l ++ [t]) = let bn := le_val 8 (l ++ [Z.land t 0x7f]) in if negb (Z.land t 0x80 =? 0) then - bn else bn.
Proof.
  unfold setvch. destruct (l ++ [t]) as [|x l'] eqn:E; [by destruct l|]. rewrite <-E. rewrite last_last, length_app. simpl length.
  replace (length l + 1 - 1)%nat with (length l) by lia. by rewrite insert_app_r_alt, Nat.sub_diag by lia.
Qed.

Lemma sign_bit t : fits 8 t → Z.land t 0x80 = (if t <? 128 then 0 else 0x80) ∧ (t < 128 → Z.land t 0x7f = t).
Proof.
  intros Ht. change 0x80 with (2 ^ 7). rewrite land_pow2 by lia. change 0x7f with (Z.ones 7). rewrite Z.land_ones by lia. split.
  - rewrite testbit_top by (destruct Ht; lia). change (2 ^ 7) with 128. destruct (Z.ltb_spec t 128), (Z.leb_spec 128 t); lia.
  - intros. apply Z.mod_small. destruct Ht. lia.
Qed.

(** [getvch] appends a byte for the sign when the top bit of the magnitude is set, and
    otherwise puts the sign there. *)
Lemma getvch_snoc a l t :
  a ≠ 0 → mpz_export a = l ++ [t] → fits 8 t →
  getvch a = if t <? 128 then l ++ [if a <? 0 then Z.lor t 0x80 else t] else l ++ [t; if a <? 0 then 0x80 else 0].
Proof.
  intros Ha E Ht. unfold getvch. destruct (Z.eqb_spec a 0); [done|]. rewrite E, <-app_assoc. simpl.
  rewrite length_app. simpl length. replace (length l + 2 - 2)%nat with (length l) by lia.
  replace (length l + 2 - 1)%nat with (length l + 1)%nat by lia. rewrite app_nth2, Nat.sub_diag by lia. simpl nth.
  destruct (sign_bit t Ht) as [-> _]. destruct (t <? 128); cbn [negb Z.eqb].
  - rewrite take_app_ge by lia. replace (length l + 1 - length l)%nat with 1%nat by lia. simpl take.
    destruct (a <? 0); [|done]. rewrite length_app. simpl length. replace (length l + 1 - 1)%nat with (length l) by lia.
    rewrite app_nth2, insert_app_r_alt, Nat.sub_diag by lia. done.
  - rewrite insert_app_r_alt by lia. by replace (length l + 1 - length l)%nat with 1%nat by lia.
Qed.

Lemma setvch_getvch a : setvch (getvch a) = a.
Proof.
  destruct (decide (a = 0)) as [->|Ha]; [done|].
  destruct (mpz_export_snoc a Ha) as (l & t & E & Hl & Ht). destruct (mpz_export_spec a) as (_ & Hv & _).
  rewrite (getvch_snoc a l t) by done. rewrite E in Hv. destruct (sign_bit t Ht) as [Hs Hm].
  destruct (Z.ltb_spec t 128).
  - rewrite setvch_snoc. destruct (Z.ltb_spec a 0).
    + rewrite !Z.land_lor_distr_l. rewrite Hs, Hm by done. simpl. rewrite Z.lor_0_r, Hv. lia.
    + rewrite Hs, Hm, Hv by done. simpl. lia.
  - replace (l ++ [t; if a <? 0 then 0x80 else 0]) with ((l ++ [t]) ++ [if a <? 0 then 0x80 else 0]) by (by rewrite <-app_assoc).
    rewrite setvch_snoc. destruct (Z.ltb_spec a 0); simpl; rewrite le_val_app by done; simpl; rewrite Z.shiftl_0_l, Z.lor_0_r, Hv; lia.
Qed.
Lemma getvch_inj a b : getvch a = getvch b → a = b.
Proof. intros E. by rewrite <-(setvch_getvch a), <-(setvch_getvch b), E. Qed.
Lemma getvch_bytes a : words 8 (getvch a).
Proof.
  destruct (decide (a = 0)) as [->|Ha]; [constructor|]. destruct (mpz_export_snoc a Ha) as (l & t & E & Hl & Ht).
  rewrite (getvch_snoc a l t) by done.
  destruct (t <? 128), (a <? 0); (apply Forall_app; split; [done|]); repeat first [apply Forall_nil_2 | apply Forall_cons_2]; try done; by apply fits_lor.
Qed.

Lemma getuint256_setuint256 n : words 8 n → length n = 32%nat → getuint256 (setuint256 n) = Some n.
Proof.
  intros Hn Hl. unfold getuint256, setuint256. set (a := le_val 8 n).
  pose proof (le_val_bound 8 n ltac:(lia) Hn) as Hb. fold a in Hb. rewrite Hl in Hb.
  destruct (mpz_export_spec a) as (Hw & Hv & Hlen). rewrite Z.abs_eq in Hv, Hlen by apply Hb.
  assert (bitlen a ≤ 256) as Ha by (apply bitlen_le; [lia|apply Hb]).
  assert (Z.of_nat (length (mpz_export a)) ≤ 32) by (rewrite Hlen; apply Z.lt_succ_r, Z.div_lt_upper_bound; lia).
  destruct (Nat.leb_spec (length (mpz_export a)) 32); [|lia]. f_equal. apply (le_val_inj 8); [lia|..|done|].
  - rewrite length_app, length_replicate. lia.
  - apply Forall_app. split; [done|by apply words_replicate0].
  - rewrite le_val_app, le_val_replicate0, Z.shiftl_0_l, Z.lor_0_r by lia. done.
Qed.

(** [randBignum] has no result; with the data of the buffer as the destination the number
    has at most [8 * size - 1] bits. *)
Lemma bitSize_pos a : 1 ≤ bitSize a.
Proof. unfold bitSize. destruct (Z.eqb_spec a 0); [done|]. pose proof (bitlen_pos (Z.abs a)). lia. Qed.
Lemma rand_size_pos range : (0 < rand_size range)%nat.
Proof. pose proof (bitSize_pos range). unfold rand_size. assert (1 ≤ (bitSize range + 7) / 8) by (apply Z.div_le_lower_bound; lia). lia. Qed.
Lemma randBignum_undefined range random : randBignum range random = None.
Proof. pose proof (rand_size_pos range) as Hs. unfold randBignum, randBignum_to. destruct (rand_size range); [lia|done]. Qed.

Lemma setvch_bound buf : words 8 buf → (0 < length buf)%nat → Z.abs (setvch buf) < 2 ^ (8 * Z.of_nat (length buf) - 1).
Proof.
  intros Hb Hl. destruct (exists_last (l := buf)) as (l & t & ->); [by destruct buf; simpl in *; [lia|]|].
  apply Forall_app in Hb as [Hb [Ht _]%Forall_cons]. rewrite length_app. cbn [length]. rewrite setvch_snoc.
  assert (0 ≤ le_val 8 (l ++ [Z.land t 0x7f]) < 2 ^ (8 * Z.of_nat (length l + 1) - 1)) as [? ?]; [|cbv zeta; destruct (negb _); rewrite ?Z.abs_opp, Z.abs_eq by done; done].
  rewrite le_val_app_add by done. pose proof (le_val_bound 8 l ltac:(lia) Hb) as [H1 H2].
  change 0x7f with (Z.ones 7). rewrite Z.land_ones by lia. simpl le_val. rewrite Z.shiftl_0_l, Z.lor_0_r.
  pose proof (Z.mod_pos_bound t (2 ^ 7) ltac:(lia)). replace (8 * Z.of_nat (length l + 1) - 1) with (Z.of_nat (length l) * 8 + 7) by lia.
  rewrite Z.pow_add_r by lia. nia.
Qed.
Lemma randBignum_data range random :
  (∀ i, fits 8 (random i)) → ∃ r, randBignum_to buffer_data range random = Some r ∧ 0 ≤ r < 2 ^ (8 * Z.of_nat (rand_size range) - 1).
Proof.
  intros Hr. pose proof (rand_size_pos range) as Hs. eexists. split; [reflexivity|]. rewrite drop_ge, app_nil_r by (rewrite length_map, length_seq, length_replicate; lia).
  set (buf := map random _). assert (length buf = rand_size range) as El by (subst buf; by rewrite length_map, length_seq).
  pose proof (setvch_bound buf) as Hb. rewrite El in Hb. specialize (Hb ltac:(apply Forall_map, Forall_true; intros; apply Hr) Hs). case_match; lia.
Qed.

