(* ===== verification/ZerocoinDB.v ===== *)
(** zerocoin/zerocoindb.cpp and the hashes of primitives/zerocoin.cpp: the database of
    the serial numbers that were spent, the coins that were minted and the values of
    the accumulators.  An entry is addressed by a letter and a key; the entries of
    each letter are a map.  Writes to the disk are assumed to succeed. *)

From S2P Require Import Prelude Serialize Transaction Interpreter CoinsView Bignum.

Record CZerocoinDB := ZerocoinDB {
  db_spends : gmap uint256 uint256;      (* 's': hash of the serial number to the spending transaction *)
  db_mints : gmap uint256 uint256;       (* 'm': hash of the coin to the minting transaction *)
  db_accumulators : gmap Z Z;            (* '2': checksum to the value *)
}.

Section db.
Context `{HashFunctions}.

Definition GetSerialHash (bnSerial : Z) : uint256 := Hash256 (Serialize_bignum bnSerial).
Definition GetPubCoinHash (bnValue : Z) : uint256 := Hash256 (Serialize_bignum bnValue).

Definition WriteCoinMint (db : CZerocoinDB) (value : Z) (hashTx : uint256) : CZerocoinDB :=
  ZerocoinDB (db_spends db) (<[GetPubCoinHash value := hashTx]> (db_mints db)) (db_accumulators db).
Definition WriteCoinMintBatch (db : CZerocoinDB) (mintInfo : list (Z * uint256)) : CZerocoinDB :=
  foldl (λ db '(value, hashTx), WriteCoinMint db value hashTx) db mintInfo.
Definition ReadCoinMint (db : CZerocoinDB) (bnPubcoin : Z) : option uint256 := db_mints db !! GetPubCoinHash bnPubcoin.
Definition EraseCoinMint (db : CZerocoinDB) (bnPubcoin : Z) : CZerocoinDB :=
  ZerocoinDB (db_spends db) (delete (GetPubCoinHash bnPubcoin) (db_mints db)) (db_accumulators db).

Definition WriteCoinSpend (db : CZerocoinDB) (bnSerial : Z) (txHash : uint256) : CZerocoinDB :=
  ZerocoinDB (<[GetSerialHash bnSerial := txHash]> (db_spends db)) (db_mints db) (db_accumulators db).
Definition ReadCoinSpend (db : CZerocoinDB) (bnSerial : Z) : option uint256 := db_spends db !! GetSerialHash bnSerial.
Definition EraseCoinSpend (db : CZerocoinDB) (bnSerial : Z) : CZerocoinDB :=
  ZerocoinDB (delete (GetSerialHash bnSerial) (db_spends db)) (db_mints db) (db_accumulators db).

(** [WipeCoins]: the loop collects the values of the entries (transaction ids), and
    erases the entries whose keys are these values. *)
Definition wipe (m : gmap uint256 uint256) : gmap uint256 uint256 :=
  let setDelete := map snd (map_to_list m) in foldl (λ m hash, delete hash m) m setDelete.
Definition WipeCoins (db : CZerocoinDB) (spends : bool) : CZerocoinDB :=
  if spends then ZerocoinDB (wipe (db_spends db)) (db_mints db) (db_accumulators db)
  else ZerocoinDB (db_spends db) (wipe (db_mints db)) (db_accumulators db).

Definition WriteAccumulatorValue (db : CZerocoinDB) (nChecksum bnValue : Z) : CZerocoinDB :=
  ZerocoinDB (db_spends db) (db_mints db) (<[nChecksum := bnValue]> (db_accumulators db)).
Definition ReadAccumulatorValue (db : CZerocoinDB) (nChecksum : Z) : option Z := db_accumulators db !! nChecksum.
Definition EraseAccumulatorValue (db : CZerocoinDB) (nChecksum : Z) : CZerocoinDB :=
  ZerocoinDB (db_spends db) (db_mints db) (delete nChecksum (db_accumulators db)).

(** The database with other accumulator values. *)
Definition set_accumulators (db : CZerocoinDB) (acc : gmap Z Z) : CZerocoinDB := ZerocoinDB (db_spends db) (db_mints db) acc.

(** * Lemmas *)

Lemma foldl_delete_lookup {A} (l : list uint256) (m : gmap uint256 A) k :
  foldl (λ m h, delete h m) m l !! k = if decide (k ∈ l) then None else m !! k.
Proof.
  revert m. induction l as [|h l IH]; intros m; simpl; [done|]. rewrite IH. destruct (decide (k ∈ l)) as [Hk|Hk].
  - by rewrite decide_True by (by right).
  - destruct (decide (h = k)) as [->|?]; [by rewrite lookup_delete_eq, decide_True by left|].
    rewrite lookup_delete_ne by done. by rewrite decide_False by (by intros [?|?]%elem_of_cons).
Qed.

(** [WipeCoins] does not wipe: unless the hash of a serial number is also the id of a
    transaction that spends one, the entries stay. *)
Lemma WipeCoins_keeps db : (∀ k txid, db_spends db !! k = Some txid → db_spends db !! txid = None) → WipeCoins db true = db.
Proof.
  intros Hk. destruct db as [s m a]. unfold WipeCoins. simpl in *. f_equal. unfold wipe. apply map_eq. intros k. rewrite foldl_delete_lookup.
  case_decide as Hin; [|done]. apply list_elem_of_fmap in Hin as ([k' txid] & -> & Hin%elem_of_map_to_list). symmetry. by eapply Hk.
Qed.
End db.
