(* ===== verification/Validation.v ===== *)
(** main.cpp, main_functions.cpp: the checks of a transaction on its own
    ([CheckTransaction], [IsFinalTx], the signature-operation counts), its checks
    against the unspent outputs ([CheckInputs]), and the changes a block makes to
    them ([UpdateCoins], the transaction loops of [ConnectBlock] and
    [DisconnectBlock]).

    [outcome] is what a check does with its [CValidationState]: it passes, rejects
    with a misbehaviour score and a reason, or runs into undefined behaviour, a
    failed assertion or an exception ([Undefined]).  The zerocoin proofs are the class
    [ZerocoinChecks]. *)

From stdpp Require Import strings.
From S2P Require Import Prelude ChainParams Script PubKey Interpreter Standard Serialize Transaction SigHash Coins CoinsView Bignum ZerocoinDB.

(** ** Verdicts *)

Inductive outcome (A : Type) :=
  | Undefined
  | Rejected (nDoS : Z) (reason : string)
  | Passed (a : A).
Arguments Undefined {A}.
Arguments Rejected {A} _%_Z _%_string.
Arguments Passed {A} _.

#[export] Instance outcome_ret : MRet outcome := @Passed.
#[export] Instance outcome_bind : MBind outcome := λ A B f m,
  match m with Passed a => f a | Rejected d r => Rejected d r | Undefined => Undefined end.
Definition defined {A} (o : option A) : outcome A := match o with Some a => Passed a | None => Undefined end.

(** ** Constants of coin_constants.h *)

Definition MAX_BLOCK_SIZE_CURRENT : Z := 2000000.
Definition MAX_BLOCK_SIGOPS_CURRENT : Z := MAX_BLOCK_SIZE_CURRENT `div` 50.
Definition MAX_ZEROCOIN_TX_SIZE : Z := 150000.
Definition LOCKTIME_THRESHOLD : Z := 500000000.

(** A call of [state.DoS] after a check that has called it: the levels add up. *)
Definition dos_again {A} (level : Z) (reason : string) (r : outcome A) : outcome A :=
  match r with Rejected d _ => Rejected (d + level) reason | r => r end.

(** The zerocoin checks of a transaction (zerocoin/mainzero.cpp, zerocoin/zerochain.cpp
    and zerocoin/accumulators.cpp), on the state of the zerocoin database and the chain
    before the block; ZerocoinValidation.v defines them. *)
Class ZerocoinChecks := {
  CheckZerocoinMint : CTxOut → outcome unit;
  (** with the [fVerifySignature] of [CheckTransaction] *)
  CheckZerocoinSpend : CMutableTransaction → outcome unit;
  (** the value of the coin *)
  TxOutToPublicCoin : CTxOut → outcome Z;
  ContextualCheckZerocoinMint : Z → bool;
  (** the serial number and the denomination of the spend *)
  TxInToZerocoinSpend : CTxIn → outcome (Z * Z);
  ContextualCheckZerocoinSpend : CTxIn → outcome bool;
  UpdateZKPSupply : CBlock → outcome bool;
  ValidateAccumulatorCheckpoint : CBlock → outcome bool;
  (** [DatabaseChecksums] of the accumulators that [ValidateAccumulatorCheckpoint] leaves,
      and [EraseAccumulatorValues] ([None]: it returns false), on the values in the database *)
  record_checksums : CBlock → gmap Z Z → outcome (gmap Z Z);
  erase_checksums : uint256 → uint256 → gmap Z Z → option (gmap Z Z);
  (** the height of the block *)
  IsTransactionInChain : list Z → option Z;
}.

(** [tx.GetHash()] *)
Definition tx_GetHash `{HashFunctions} (tx : CMutableTransaction) : uint256 := Hash256 (Serialize_tx tx).

(** * A transaction on its own *)

Section check.
Context (Params : CChainParams) `{HashFunctions} `{ZerocoinChecks}.
Local Open Scope Z_scope.

(** The loop over [tx.vout]: [nValueOut] and [nZCSpendCount]. *)
Fixpoint check_outputs (tx : CMutableTransaction) (fZerocoinActive : bool) (nValueOut nZCSpendCount : Z)
    (l : list CTxOut) : outcome Z :=
  match l with
  | [] => Passed nZCSpendCount
  | txout :: l =>
      empty_user ← (if CTxOut_IsEmpty txout
                    then cb ← defined (IsCoinBase tx); Passed (negb cb && negb (IsCoinStake tx))
                    else Passed false);
      if (empty_user : bool) then Rejected 100 "txout empty for user transaction"
      else if nValue txout <? 0 then Rejected 100 "bad-txns-vout-negative"
      else if nMaxMoneyOut Params <? nValue txout then Rejected 100 "bad-txns-vout-toolarge"
      else
        let nValueOut := s64 (nValueOut + nValue txout) in
        if negb (MoneyRange Params nValueOut) then Rejected 100 "bad-txns-txouttotal-toolarge"
        else
          _ ← (if fZerocoinActive && CTxOut_IsZerocoinMint txout
               then dos_again 100 "invalid zerocoin mint" (CheckZerocoinMint txout) else Passed tt);
          let nZCSpendCount :=
            if fZerocoinActive && IsZerocoinSpend (scriptPubKey txout) then nZCSpendCount + 1 else nZCSpendCount in
          check_outputs tx fZerocoinActive nValueOut nZCSpendCount l
  end.

(** The loop with [vInOutPoints]. *)
Fixpoint check_duplicates (vInOutPoints : list COutPoint) (l : list CTxIn) : outcome unit :=
  match l with
  | [] => Passed tt
  | txin :: l =>
      if bool_decide (prevout txin ∈ vInOutPoints) then Rejected 100 "bad-txns-inputs-duplicate"
      else check_duplicates
             (if negb (IsZerocoinSpend (scriptSig txin)) then prevout txin :: vInOutPoints else vInOutPoints) l
  end.

Definition CheckTransaction (tx : CMutableTransaction) (fZerocoinActive : bool) : outcome unit :=
  if (length (vin tx) =? 0)%nat then Rejected 10 "bad-txns-vin-empty"
  else if (length (vout tx) =? 0)%nat then Rejected 10 "bad-txns-vout-empty"
  else if MAX_ZEROCOIN_TX_SIZE <? u32 (size (Serialize_tx tx)) then Rejected 100 "bad-txns-oversize"
  else
    nZCSpendCount ← check_outputs tx fZerocoinActive 0 0 (vout tx);
    _ ← (if fZerocoinActive then
           if nMaxZerocoinSpendsPerTransaction Params <? nZCSpendCount then Rejected 100 "more zerocoin spends than allowed"
           else
             zs ← defined (tx_IsZerocoinSpend tx);
             if (zs : bool) then
               if negb (forallb (λ i, IsZerocoinSpend (scriptSig i)) (vin tx))
               then Rejected 100 "inputs that are not zerocoins"
               else dos_again 100 "invalid zerocoin spend" (CheckZerocoinSpend tx)
             else Passed tt
         else Passed tt);
    _ ← check_duplicates [] (vin tx);
    cb ← defined (IsCoinBase tx);
    if (cb : bool) then
      match vin tx with
      | [] => Undefined
      | i :: _ => if (size (scriptSig i) <? 2) || (150 <? size (scriptSig i)) then Rejected 100 "bad-cb-length" else Passed tt
      end
    else
      zs ← (if fZerocoinActive then defined (tx_IsZerocoinSpend tx) else Passed false);
      if (zs : bool) then
        if (Z.of_nat (length (vin tx)) <? 1) || (nMaxZerocoinSpendsPerTransaction Params <? Z.of_nat (length (vin tx)))
        then Rejected 10 "bad-zerocoinspend" else Passed tt
      else
        if existsb (λ i, COutPoint_IsNull (prevout i) && (fZerocoinActive && negb (IsZerocoinSpend (scriptSig i)))) (vin tx)
        then Rejected 10 "bad-txns-prevout-null" else Passed tt.

End check.

(** [IsFinalTx]; the height of the active chain and the adjusted time replace
    arguments that are zero. *)
Definition IsFinalTx (chainHeight adjustedTime : Z) (tx : CMutableTransaction) (nBlockHeight nBlockTime : Z) : bool :=
  if nLockTime tx =? 0 then true
  else
    let nBlockHeight := if nBlockHeight =? 0 then chainHeight else nBlockHeight in
    let nBlockTime := if nBlockTime =? 0 then adjustedTime else nBlockTime in
    if nLockTime tx <? (if nLockTime tx <? LOCKTIME_THRESHOLD then nBlockHeight else nBlockTime) then true
    else forallb IsFinal (vin tx).

(** Signature operations; [None] comes from the script model, where decoding a
    number opcode may assert. *)
Definition GetLegacySigOpCount (tx : CMutableTransaction) : option Z :=
  foldl (λ acc s, n ← acc; k ← GetSigOpCount s false; Some (u32 (n + k))) (Some 0)
    (map scriptSig (vin tx) ++ map scriptPubKey (vout tx)).

Fixpoint p2sh_sigops (v : CCoinsView) (nSigOps : Z) (l : list CTxIn) : option (Z * CCoinsView) :=
  match l with
  | [] => Some (nSigOps, v)
  | i :: l =>
      '(o, v) ← GetOutputFor v i;
      if IsPayToScriptHash (scriptPubKey o)
      then k ← GetSigOpCount_p2sh (scriptPubKey o) (scriptSig i); p2sh_sigops v (u32 (nSigOps + k)) l
      else p2sh_sigops v nSigOps l
  end.
Definition GetP2SHSigOpCount (v : CCoinsView) (tx : CMutableTransaction) : option (Z * CCoinsView) :=
  cb ← IsCoinBase tx;
  zs ← (if (cb : bool) then Some true else tx_IsZerocoinSpend tx);
  if (zs : bool) then Some (0, v) else p2sh_sigops v 0 (vin tx).

(** * Inputs *)

(** [CScriptCheck]: the script of the output that input [nIn] names by its index. *)
Record CScriptCheck := ScriptCheck { chk_scriptPubKey : CScript; chk_nIn : nat; chk_nFlags : Z }.
Definition CScriptCheck_of (txFromIn : CCoins) (txToIn : CMutableTransaction) (nInIn : nat) (nFlagsIn : Z) :
    option CScriptCheck :=
  i ← vin txToIn !! nInIn;
  o ← coins_vout txFromIn !! Z.to_nat (op_n (prevout i));
  Some (ScriptCheck (scriptPubKey o) nInIn nFlagsIn).

Section inputs.
Context (Params : CChainParams) `{HashFunctions} `{Secp256k1} `{ZerocoinChecks}.
Local Open Scope Z_scope.

(** [CScriptCheck::operator()]; the signature cache answers as the checker does. *)
Definition run_check (ptxTo : CMutableTransaction) (c : CScriptCheck) : outcome bool :=
  match vin ptxTo !! chk_nIn c with
  | None => Undefined
  | Some i =>
      match @VerifyScript _ (TransactionSignatureChecker ptxTo (chk_nIn c)) (chk_nFlags c)
              (scriptSig i) (chk_scriptPubKey c) with
      | Ok _ => Passed true
      | Err _ => Passed false
      | Abort => Undefined
      end
  end.

(** The loop over the values of the inputs; the result is [nValueIn]. *)
Fixpoint check_values (nSpendHeight : Z) (v : CCoinsView) (nValueIn : Z) (l : list CTxIn) : outcome (Z * CCoinsView) :=
  match l with
  | [] => Passed (nValueIn, v)
  | i :: l =>
      let '(coins, v) := GetCoins v (op_hash (prevout i)) in
      coins ← defined coins;
      if (fCoinBase coins || fCoinStake coins) && (nSpendHeight - coins_nHeight coins <? nMaturity Params)
      then Rejected 0 "bad-txns-premature-spend-of-coinbase"
      else
        o ← defined (coins_vout coins !! Z.to_nat (op_n (prevout i)));
        let nValueIn := s64 (nValueIn + nValue o) in
        if negb (MoneyRange Params (nValue o)) || negb (MoneyRange Params nValueIn)
        then Rejected 100 "bad-txns-inputvalues-outofrange"
        else check_values nSpendHeight v nValueIn l
  end.

(** The loop over the scripts of the inputs: [i] is incremented after the loop, so it
    is the same for all of them.  With [pvChecks] the checks are only collected. *)
Fixpoint check_scripts (tx : CMutableTransaction) (flags : Z) (pvChecks : bool) (i : nat) (v : CCoinsView)
    (l : list CTxIn) : outcome (list CScriptCheck * CCoinsView) :=
  match l with
  | [] => Passed ([], v)
  | txin :: l =>
      let '(coins, v) := GetCoins v (op_hash (prevout txin)) in
      coins ← defined coins;
      check ← defined (CScriptCheck_of coins tx i flags);
      if pvChecks then
        '(checks, v) ← check_scripts tx flags pvChecks i v l;
        Passed (check :: checks, v)
      else
        ok ← run_check tx check;
        if (ok : bool) then check_scripts tx flags pvChecks i v l
        else if has_flag flags STANDARD_NOT_MANDATORY_VERIFY_FLAGS then
          check ← defined (CScriptCheck_of coins tx i (Z.ldiff flags STANDARD_NOT_MANDATORY_VERIFY_FLAGS));
          ok ← run_check tx check;
          if (ok : bool) then Rejected 0 "non-mandatory-script-verify-flag"
          else Rejected 100 "mandatory-script-verify-flag-failed"
        else Rejected 100 "mandatory-script-verify-flag-failed"
  end.

(** [mapBlockIndex.find(h)->second->nHeight] is [heightOf h]. *)
Definition CheckInputs (heightOf : uint256 → option Z) (tx : CMutableTransaction) (inputs : CCoinsView)
    (fScriptChecks : bool) (flags : Z) (pvChecks : bool) : outcome (list CScriptCheck * CCoinsView) :=
  cb ← defined (IsCoinBase tx);
  zs ← (if (cb : bool) then Passed true else defined (tx_IsZerocoinSpend tx));
  if (zs : bool) then Passed ([], inputs)
  else
    '(have, v) ← defined (HaveInputs inputs tx);
    if negb have then Rejected 0 "inputs unavailable"
    else
      let '(best, v) := GetBestBlock v in
      nHeight ← defined (heightOf best);
      '(nValueIn, v) ← check_values (nHeight + 1) v 0 (vin tx);
      _ ← (if negb (IsCoinStake tx) then
             nValueOut ← defined (GetValueOut tx);
             if nValueIn <? nValueOut then Rejected 100 "bad-txns-in-belowout"
             else
               let nTxFee := s64 (nValueIn - nValueOut) in
               if nTxFee <? 0 then Rejected 100 "bad-txns-fee-negative"
               else if negb (MoneyRange Params nTxFee) then Rejected 100 "bad-txns-fee-outofrange"
               else Passed tt
           else Passed tt);
      if fScriptChecks then check_scripts tx flags pvChecks 0 v (vin tx) else Passed ([], v).

(** * Spending and creating outputs *)

(** [inputs.ModifyCoins(out.hash)->Spend(out, undo)]; [None] is the failed assertion. *)
Definition spend_input (v : CCoinsView) (out : COutPoint) : option (CTxInUndo * CCoinsView) :=
  '(undo, v) ← ModifyCoins v (op_hash out)
    (λ c, match Spend c (op_n out) with Some (u, c') => (Some u, c') | None => (None, c) end);
  u ← undo; Some (u, v).

Fixpoint spend_inputs (v : CCoinsView) (l : list CTxIn) : option (list CTxInUndo * CCoinsView) :=
  match l with
  | [] => Some ([], v)
  | i :: l =>
      '(u, v) ← spend_input v (prevout i);
      '(us, v) ← spend_inputs v l;
      Some (u :: us, v)
  end.

(** Transactions without inputs in the sense of the coin database. *)
Definition no_inputs (tx : CMutableTransaction) : option bool :=
  cb ← IsCoinBase tx; if (cb : bool) then Some true else tx_IsZerocoinSpend tx.

(** The result holds [txundo.vprevout]. *)
Definition UpdateCoins (tx : CMutableTransaction) (inputs : CCoinsView) (nHeight : Z) :
    option (list CTxInUndo * CCoinsView) :=
  none ← no_inputs tx;
  '(txundo, v) ← (if (none : bool) then Some ([], inputs) else spend_inputs inputs (vin tx));
  coins ← FromTx tx nHeight;
  '(_, v) ← ModifyCoins v (tx_GetHash tx) (λ _, (tt, coins));
  Some (txundo, v).

(** * The transactions of a block *)

(** The local variables of [ConnectBlock] its loop changes; [queued] is what [control]
    was given. *)
Record connect_state := ConnectState {
  cs_view : CCoinsView;
  cs_undo : list (list CTxInUndo);
  cs_nFees : Z;
  cs_nValueIn : Z;
  cs_nValueOut : Z;
  cs_nSigOps : Z;
  cs_queued : list (CMutableTransaction * CScriptCheck);
  cs_vSpends : list (Z * uint256);
  cs_vMints : list (Z * uint256);
}.

(** [vSpends] and [vMints] hold the serial numbers and the values of the coins. *)
Definition add_spend (tx : CMutableTransaction) (s : connect_state) (serial denomination : Z) : connect_state :=
  ConnectState (cs_view s) (cs_undo s) (cs_nFees s) (s64 (cs_nValueIn s + s64 (denomination * COIN)))
    (cs_nValueOut s) (cs_nSigOps s) (cs_queued s) (cs_vSpends s ++ [(serial, tx_GetHash tx)]) (cs_vMints s).
Definition add_mint (tx : CMutableTransaction) (s : connect_state) (value : Z) : connect_state :=
  ConnectState (cs_view s) (cs_undo s) (cs_nFees s) (cs_nValueIn s)
    (cs_nValueOut s) (cs_nSigOps s) (cs_queued s) (cs_vSpends s) (cs_vMints s ++ [(value, tx_GetHash tx)]).

Fixpoint connect_spends (tx : CMutableTransaction) (s : connect_state) (l : list CTxIn) : outcome connect_state :=
  match l with
  | [] => Passed s
  | i :: l =>
      if negb (IsZerocoinSpend (scriptSig i)) then connect_spends tx s l
      else
        '(serial, denomination) ← TxInToZerocoinSpend i;
        let s := add_spend tx s serial denomination in
        ok ← ContextualCheckZerocoinSpend i;
        if negb ok then Rejected 100 "invalid zerocoinspend"
        else connect_spends tx s l
  end.
Fixpoint connect_mints (tx : CMutableTransaction) (s : connect_state) (l : list CTxOut) : outcome connect_state :=
  match l with
  | [] => Passed s
  | o :: l =>
      if negb (CTxOut_IsZerocoinMint o) then connect_mints tx s l
      else
        value ← dos_again 100 "failed final check of zerocoinmint" (TxOutToPublicCoin o);
        if negb (ContextualCheckZerocoinMint value) then Rejected 100 "zerocoin mint failed contextual check"
        else connect_mints tx (add_mint tx s value) l
  end.

(** The branch of a transaction that spends coins. *)
Definition connect_inputs (heightOf : uint256 → option Z) (fScriptChecks threads : bool) (tx : CMutableTransaction)
    (s : connect_state) : outcome connect_state :=
  '(have, v) ← defined (HaveInputs (cs_view s) tx);
  if negb have then Rejected 100 "bad-txns-inputs-missingorspent"
  else
    s ← (if tx_IsZerocoinMint tx then connect_mints tx s (vout tx) else Passed s);
    '(k, v) ← defined (GetP2SHSigOpCount v tx);
    let nSigOps := u32 (cs_nSigOps s + k) in
    if MAX_BLOCK_SIGOPS_CURRENT <? nSigOps then Rejected 100 "bad-blk-sigops"
    else
      '(nFees, v) ← (if negb (IsCoinStake tx) then
                       '(i, v) ← defined (GetValueIn v tx);
                       o ← defined (GetValueOut tx);
                       Passed (s64 (cs_nFees s + s64 (i - o)), v)
                     else Passed (cs_nFees s, v));
      '(i, v) ← defined (GetValueIn v tx);
      '(vChecks, v) ← CheckInputs heightOf tx v fScriptChecks (Z.lor SCRIPT_VERIFY_P2SH SCRIPT_VERIFY_DERSIG) threads;
      Passed (ConnectState v (cs_undo s) nFees (s64 (cs_nValueIn s + i)) (cs_nValueOut s) nSigOps
                (cs_queued s ++ map (pair tx) vChecks) (cs_vSpends s) (cs_vMints s)).

(** The body of the loop; [first] is [i == 0]. *)
Definition connect_tx (heightOf : uint256 → option Z) (fVerifyingBlocks fScriptChecks threads : bool) (nHeight : Z)
    (first : bool) (tx : CMutableTransaction) (s : connect_state) : outcome connect_state :=
  k ← defined (GetLegacySigOpCount tx);
  let nSigOps := u32 (cs_nSigOps s + k) in
  if MAX_BLOCK_SIGOPS_CURRENT <? nSigOps then Rejected 100 "bad-blk-sigops"
  else
    let s := ConnectState (cs_view s) (cs_undo s) (cs_nFees s) (cs_nValueIn s) (cs_nValueOut s) nSigOps
               (cs_queued s) (cs_vSpends s) (cs_vMints s) in
    zs ← defined (tx_IsZerocoinSpend tx);
    s ← (if (zs : bool) then
           if match IsTransactionInChain (tx_GetHash tx) with
              | Some nHeightTx => negb fVerifyingBlocks || (nHeightTx <? nHeight)
              | None => false
              end
           then Rejected 100 "bad-txns-inputs-missingorspent"
           else
             s ← connect_spends tx s (vin tx);
             if tx_IsZerocoinMint tx then connect_mints tx s (vout tx) else Passed s
         else
           cb ← defined (IsCoinBase tx);
           if (cb : bool) then Passed s else connect_inputs heightOf fScriptChecks threads tx s);
    out ← defined (GetValueOut tx);
    '(txundo, v) ← defined (UpdateCoins tx (cs_view s) nHeight);
    Passed (ConnectState v (if first then cs_undo s else cs_undo s ++ [txundo]) (cs_nFees s) (cs_nValueIn s)
              (s64 (cs_nValueOut s + out)) (cs_nSigOps s) (cs_queued s) (cs_vSpends s) (cs_vMints s)).

Fixpoint connect_txs (heightOf : uint256 → option Z) (fVerifyingBlocks fScriptChecks threads : bool) (nHeight : Z)
    (first : bool) (vtx : list CMutableTransaction) (s : connect_state) : outcome connect_state :=
  match vtx with
  | [] => Passed s
  | tx :: vtx =>
      s ← connect_tx heightOf fVerifyingBlocks fScriptChecks threads nHeight first tx s;
      connect_txs heightOf fVerifyingBlocks fScriptChecks threads nHeight false vtx s
  end.

(** * Undoing a block *)

(** The comparison of the outputs of [tx] and their removal; the result is whether
    they matched. *)
Definition remove_outputs (tx : CMutableTransaction) (nHeight : Z) (v : CCoinsView) : option (bool * CCoinsView) :=
  outsBlock ← FromTx tx nHeight;
  ModifyCoins v (tx_GetHash tx) (λ outs,
    let outs := ClearUnspendable outs in
    let outs := if coins_nVersion outsBlock <? 0
                then Coins (fCoinBase outs) (fCoinStake outs) (coins_vout outs) (coins_nHeight outs) (coins_nVersion outsBlock)
                else outs in
    (coins_eqb outs outsBlock, CCoins_empty)).

(** The modification that restores output [n]; the first component is [fClean], or
    [None] for an access out of range. *)
Definition restore_coins (n : Z) (undo : CTxInUndo) (coins : CCoins) : option bool * CCoins :=
  let '(fClean, coins) :=
    if negb (undo_nHeight undo =? 0)
    then (IsPruned coins, Coins (undo_fCoinBase undo) false [] (s32 (undo_nHeight undo)) (undo_nVersion undo))
    else (negb (IsPruned coins), coins) in
  let fClean := fClean && negb (IsAvailable coins n) in
  let vout := if Z.of_nat (length (coins_vout coins)) <? u32 (n + 1)
              then coins_vout coins ++ replicate (Z.to_nat (u32 (n + 1)) - length (coins_vout coins)) CTxOut_null
              else coins_vout coins in
  if (Z.to_nat n <? length vout)%nat
  then (Some fClean, with_vout coins (<[Z.to_nat n := undo_txout undo]> vout))
  else (None, coins).

Definition restore_input (v : CCoinsView) (out : COutPoint) (undo : CTxInUndo) : option (bool * CCoinsView) :=
  '(c, v) ← ModifyCoins v (op_hash out) (restore_coins (op_n out) undo);
  c ← c; Some (c, v).

(** [for (uint32_t j = tx.vin.size(); j-- > 0;)]: the lists are reversed. *)
Fixpoint restore_inputs (v : CCoinsView) (fClean : bool) (l : list (CTxIn * CTxInUndo)) : option (bool * CCoinsView) :=
  match l with
  | [] => Some (fClean, v)
  | (i, undo) :: l =>
      '(c, v) ← restore_input v (prevout i) undo;
      restore_inputs v (fClean && c) l
  end.

(** The zerocoin entries of a transaction: the serial numbers of its spends and the
    values of its mints are erased.  (The calls into the wallet are not modelled.) *)
Fixpoint erase_spends (db : CZerocoinDB) (l : list CTxIn) : outcome CZerocoinDB :=
  match l with
  | [] => Passed db
  | i :: l =>
      if IsZerocoinSpend (scriptSig i) then
        '(serial, _) ← TxInToZerocoinSpend i;
        erase_spends (EraseCoinSpend db serial) l
      else erase_spends db l
  end.
Fixpoint erase_mints (db : CZerocoinDB) (l : list CTxOut) : outcome CZerocoinDB :=
  match l with
  | [] => Passed db
  | o :: l =>
      if negb (CTxOut_IsZerocoinMint o) then erase_mints db l
      else
        value ← TxOutToPublicCoin o;
        erase_mints (EraseCoinMint db value) l
  end.
Definition erase_zerocoins (tx : CMutableTransaction) (db : CZerocoinDB) : outcome CZerocoinDB :=
  zs ← defined (tx_IsZerocoinSpend tx);
  db ← (if (zs : bool) then erase_spends db (vin tx) else Passed db);
  if tx_IsZerocoinMint tx then erase_mints db (vout tx) else Passed db.

(** The body of the loop of [DisconnectBlock]; [txundo] is [vtxundo[i - 1]], which does
    not exist for the first transaction. *)
Definition disconnect_tx (nHeight : Z) (tx : CMutableTransaction) (txundo : option (list CTxInUndo))
    (fClean : bool) (v : CCoinsView) (db : CZerocoinDB) : outcome (bool * CCoinsView * CZerocoinDB) :=
  db ← erase_zerocoins tx db;
  '(c, v) ← defined (remove_outputs tx nHeight v);
  let fClean := fClean && c in
  none ← defined (no_inputs tx);
  if (none : bool) then Passed (fClean, v, db)
  else
    vprevout ← defined txundo;
    if negb (length vprevout =? length (vin tx))%nat then Rejected 0 "transaction and undo data inconsistent"
    else
      '(fClean, v) ← defined (restore_inputs v fClean (rev (zip (vin tx) vprevout)));
      Passed (fClean, v, db).

(** The loop, from the last transaction to the first. *)
Fixpoint disconnect_txs (nHeight : Z) (l : list (CMutableTransaction * option (list CTxInUndo)))
    (fClean : bool) (v : CCoinsView) (db : CZerocoinDB) : outcome (bool * CCoinsView * CZerocoinDB) :=
  match l with
  | [] => Passed (fClean, v, db)
  | (tx, txundo) :: l =>
      '(fClean, v, db) ← disconnect_tx nHeight tx txundo fClean v db;
      disconnect_txs nHeight l fClean v db
  end.

(** The end of [DisconnectBlock]: the accumulator values of a new checkpoint are erased. *)
Definition checkpoint_values (fVerifyingBlocks : bool) (nCheckpoint nCheckpointPrev : uint256) (acc : gmap Z Z) : outcome (gmap Z Z) :=
  if negb fVerifyingBlocks && negb (bool_decide (nCheckpoint = nCheckpointPrev)) then
    match erase_checksums nCheckpoint nCheckpointPrev acc with
    | None => Rejected 0 "DisconnectBlock(): failed to erase checkpoint"
    | Some acc => Passed acc
    end
  else Passed acc.

(** [DisconnectBlock]: [vtxundo] was read from the undo file, [hashPrev] is the hash of
    [pindex->pprev], and the checkpoints are those of [pindex] and [pindex->pprev]; the
    result is [fClean]. *)
Definition DisconnectBlock (fVerifyingBlocks : bool) (vtx : list CMutableTransaction) (vtxundo : list (list CTxInUndo))
    (blockHash hashPrev : uint256) (nHeight : Z) (nCheckpoint nCheckpointPrev : uint256) (v : CCoinsView) (db : CZerocoinDB) :
    outcome (bool * CCoinsView * CZerocoinDB) :=
  let '(best, v) := GetBestBlock v in
  if negb (bool_decide (blockHash = best)) then Undefined
  else if negb (length vtxundo + 1 =? length vtx)%nat then Rejected 0 "block and undo data inconsistent"
  else
    '(fClean, v, db) ← disconnect_txs nHeight (rev (zip vtx (None :: map Some vtxundo))) true v db;
    acc ← checkpoint_values fVerifyingBlocks nCheckpoint nCheckpointPrev (db_accumulators db);
    Passed (fClean, SetBestBlock v hashPrev, set_accumulators db acc).

End inputs.
