(* ===== verification/ValidationFacts.v ===== *)
(** What a transaction that passes [CheckTransaction] and [CheckInputs] satisfies:
    its amounts, its inputs, and which scripts were run. *)

From S2P Require Import Prelude ChainParams Script PubKey Interpreter InterpreterFacts Standard HmacFacts Serialize Transaction TransactionFacts SigHash Coins CoinsFacts CoinsView CoinsViewFacts Validation.

(** * Verdicts *)

Lemma bind_Passed {A B} (f : A → outcome B) (m : outcome A) b : m ≫= f = Passed b ↔ ∃ a, m = Passed a ∧ f a = Passed b.
Proof.
  destruct m as [| |a]; cbn [mbind outcome_bind]; split; try (by intros (? & [=] & _)); try done.
  - intros Hf. by exists a.
  - by intros (? & [= <-] & ?).
Qed.

Lemma defined_Passed {A} (o : option A) a : defined o = Passed a ↔ o = Some a.
Proof. destruct o; simpl; split; congruence. Qed.

(** Opens a monadic definition that passed. *)
Ltac passed H :=
  let a := fresh "r" in let E := fresh "E" in
  apply bind_Passed in H as (a & E & H); rewrite ?defined_Passed in E.

(** * Reading the coins *)

Lemma GetOutputFor_spec v i o v' :
  GetOutputFor v i = Some (o, v') →
  same_view v v' ∧ ∃ c, coins_at v (op_hash (prevout i)) = Some c ∧ coins_vout c !! Z.to_nat (op_n (prevout i)) = Some o.
Proof.
  unfold GetOutputFor. pose proof (GetCoins_spec v (op_hash (prevout i))) as HG.
  destruct (GetCoins v _) as [r v1]. destruct HG as (-> & Hs & _).
  destruct (coins_at v _) as [c|]; [|done]. cbn [mbind option_bind]. case_match; [|done].
  destruct (coins_vout c !! _) as [o'|] eqn:Eo; [|done]. cbn [mbind option_bind]. intros [= <- <-]. split; [done|]. by exists c.
Qed.

Lemma value_in_same v n l n' v' : value_in v n l = Some (n', v') → same_view v v'.
Proof.
  revert v n. induction l as [|i l IH]; intros v n; cbn [value_in]; [by intros [= _ <-]|].
  destruct (GetOutputFor v i) as [[o v1]|] eqn:E; [|done]. cbn [mbind option_bind]. intros Hl%IH.
  apply GetOutputFor_spec in E as [Hs _]. by etransitivity.
Qed.

Lemma GetValueIn_same v tx n v' : GetValueIn v tx = Some (n, v') → same_view v v'.
Proof.
  unfold GetValueIn. destruct (IsCoinBase tx) as [[]|]; [by intros [= _ <-]| |done]. cbn [mbind option_bind].
  destruct (tx_IsZerocoinSpend tx) as [[]|]; cbn [mbind option_bind]; [|apply value_in_same|done].
  destruct (GetZerocoinSpent tx); [by intros [= _ <-]|done].
Qed.

Lemma p2sh_sigops_same v n l n' v' : p2sh_sigops v n l = Some (n', v') → same_view v v'.
Proof.
  revert v n. induction l as [|i l IH]; intros v n; cbn [p2sh_sigops]; [by intros [= _ <-]|].
  destruct (GetOutputFor v i) as [[o v1]|] eqn:E; [|done]. cbn [mbind option_bind].
  apply GetOutputFor_spec in E as [Hs _]. case_match; [|intros Hl%IH; by etransitivity].
  destruct (GetSigOpCount_p2sh _ _); [|done]. cbn [mbind option_bind]. intros Hl%IH. by etransitivity.
Qed.

Lemma GetP2SHSigOpCount_same v tx n v' : GetP2SHSigOpCount v tx = Some (n, v') → same_view v v'.
Proof.
  unfold GetP2SHSigOpCount. destruct (IsCoinBase tx) as [cb|]; [|done]. cbn [mbind option_bind].
  destruct (if cb then _ else _) as [[]|]; [by intros [= _ <-]|apply p2sh_sigops_same|done].
Qed.

(** The output an input spends. *)
Definition output_of (m : uint256 → option CCoins) (out : COutPoint) : option CTxOut :=
  m (op_hash out) ≫= λ c, coins_vout c !! Z.to_nat (op_n out).

Definition unspent (m : uint256 → option CCoins) (out : COutPoint) : Prop :=
  ∃ c, m (op_hash out) = Some c ∧ IsAvailable c (op_n out) = true.

Lemma IsAvailable_unpruned c n : IsAvailable c n = true → IsPruned c = false.
Proof.
  intros Ha. destruct (IsPruned c) eqn:E; [|done]. apply IsPruned_nulls in E. rewrite Forall_lookup in E.
  unfold IsAvailable in Ha. case_match eqn:Eo; [|done]. by rewrite (E _ _ Eo) in Ha.
Qed.

Lemma available_utxo v t n :
  (∃ c, coins_at v t = Some c ∧ IsAvailable c n = true) ↔ (∃ c, utxo v t = Some c ∧ IsAvailable c n = true).
Proof.
  unfold utxo. split.
  - intros (c & -> & Ha). exists c. cbn [mbind option_bind]. unfold norm. by rewrite (IsAvailable_unpruned c n Ha).
  - intros (c & Hc & Ha). destruct (coins_at v t) as [c'|]; [|done]. cbn [mbind option_bind] in Hc.
    apply norm_Some in Hc as [-> _]. by exists c'.
Qed.

(** [HaveInputs] answers whether every input is unspent. *)
Lemma have_inputs_spec v l :
  let '(b, v') := have_inputs v l in
  same_view v v' ∧ (b = true ↔ Forall (λ i, unspent (utxo v) (prevout i)) l).
Proof.
  revert v. induction l as [|i l IH]; intros v; cbn [have_inputs]; [by split; [|split]|].
  pose proof (GetCoins_spec v (op_hash (prevout i))) as HG. destruct (GetCoins v _) as [r v1]. destruct HG as (-> & Hs & _).
  assert (Forall (λ i, unspent (utxo v) (prevout i)) (i :: l) ↔
          (∃ c, coins_at v (op_hash (prevout i)) = Some c ∧ IsAvailable c (op_n (prevout i)) = true) ∧
          Forall (λ i, unspent (utxo v) (prevout i)) l) as HF by (by rewrite Forall_cons, available_utxo).
  destruct (coins_at v _) as [c|] eqn:Ec.
  - destruct (IsAvailable c _) eqn:Ea.
    + specialize (IH v1). destruct (have_inputs v1 l) as [b v2]. destruct IH as [Hs2 ->].
      split; [by etransitivity|]. rewrite HF. clear HF. split; [|intros [_ HF]].
      * intros HF. split; [by exists c|]. eapply Forall_impl; [exact HF|]. intros j (c' & ? & ?). exists c'. by rewrite <-(same_utxo _ _ _ Hs).
      * eapply Forall_impl; [exact HF|]. intros j (c' & ? & ?). exists c'. by rewrite (same_utxo _ _ _ Hs).
    + split; [done|]. rewrite HF. split; [done|]. intros ((c' & [= <-] & Ha) & _). congruence.
  - split; [done|]. rewrite HF. split; [done|]. by intros ((c' & [=] & _) & _).
Qed.

(** * The checks of the inputs *)

Definition value_of (m : uint256 → option CCoins) (out : COutPoint) : Z :=
  match output_of m out with Some o => nValue o | None => 0 end.
Definition total_in (m : uint256 → option CCoins) (l : list CTxIn) : Z :=
  foldr (λ i n, value_of m (prevout i) + n) 0 l.

Lemma same_output_of v v' out : same_view v v' → output_of (coins_at v') out = output_of (coins_at v) out.
Proof. intros Hs. unfold output_of. by rewrite (same_coins _ _ Hs). Qed.

Lemma same_value_of v v' out : same_view v v' → value_of (coins_at v') out = value_of (coins_at v) out.
Proof. intros Hs. unfold value_of. by rewrite (same_output_of v). Qed.

Lemma total_in_cons m i l : total_in m (i :: l) = value_of m (prevout i) + total_in m l.
Proof. done. Qed.

Lemma same_total_in v v' l : same_view v v' → total_in (coins_at v') l = total_in (coins_at v) l.
Proof. intros Hs. induction l as [|i l IH]; [done|]. rewrite !total_in_cons. by rewrite (same_value_of v), IH. Qed.

(** What the value loop requires of an input: it exists, is in the range of money,
    and is mature if it comes from a coinbase or a coinstake. *)
Definition input_ok (Params : CChainParams) (nSpendHeight : Z) (m : uint256 → option CCoins) (out : COutPoint) : Prop :=
  ∃ c o, m (op_hash out) = Some c ∧ coins_vout c !! Z.to_nat (op_n out) = Some o ∧
    0 ≤ nValue o ≤ nMaxMoneyOut Params ∧
    (fCoinBase c || fCoinStake c = true → nMaturity Params ≤ nSpendHeight - coins_nHeight c).

Section checks.
Context (Params : CChainParams) `{HF : HashFunctions} `{HS : Secp256k1} `{HZ : ZerocoinChecks}.
Hypothesis max_money : 0 ≤ nMaxMoneyOut Params < 2 ^ 62.

Lemma MoneyRange_spec n : MoneyRange Params n = true ↔ 0 ≤ n ≤ nMaxMoneyOut Params.
Proof. unfold MoneyRange. by rewrite andb_true_iff, !Z.leb_le. Qed.

Lemma check_values_spec h v n l n' v' :
  0 ≤ n ≤ nMaxMoneyOut Params → check_values Params h v n l = Passed (n', v') →
  same_view v v' ∧ n' = n + total_in (coins_at v) l ∧ 0 ≤ n' ≤ nMaxMoneyOut Params ∧
  Forall (λ i, input_ok Params h (coins_at v) (prevout i)) l.
Proof.
  revert v n. induction l as [|i l IH]; intros v n Hn; cbn [check_values].
  { intros [= <- <-]. split_and!; [done|simpl; lia|lia..|done]. }
  pose proof (GetCoins_spec v (op_hash (prevout i))) as HG. destruct (GetCoins v _) as [r v1]. destruct HG as (-> & Hs & _).
  intros Hp. passed Hp. rename r into c, E into Ec. case_match eqn:Em; [done|]. passed Hp. rename r into o, E into Eo.
  case_match eqn:Er; [done|]. apply orb_false_iff in Er as [Er1 Er2].
  apply negb_false_iff, MoneyRange_spec in Er1. apply negb_false_iff, MoneyRange_spec in Er2.
  assert (s64 (n + nValue o) = n + nValue o) as Es by (apply swrap_small; [lia|]; unfold sfits; lia). rewrite Es in *.
  apply IH in Hp as (Hs2 & -> & Hr & Hall); [|done].
  assert (value_of (coins_at v) (prevout i) = nValue o) as Ev.
  { unfold value_of, output_of. rewrite Ec. cbn [mbind option_bind]. by rewrite Eo. }
  split_and!; [by etransitivity| |lia|lia|].
  - rewrite total_in_cons, Ev, (same_total_in v) by done. lia.
  - constructor.
    + exists c, o. split_and!; [done..|lia|lia|]. intros Hb. rewrite Hb in Em. simpl in Em. lia.
    + eapply Forall_impl; [exact Hall|]. intros j (c' & o' & ? & ?). exists c', o'. by rewrite <-(same_coins _ _ Hs).
Qed.

(** Every round of the script loop checks input [i]. *)
Lemma check_scripts_spec tx flags i v l cs v' :
  check_scripts tx flags false i v l = Passed (cs, v') →
  same_view v v' ∧ cs = [] ∧
  Forall (λ j, ∃ c chk, coins_at v (op_hash (prevout j)) = Some c ∧ CScriptCheck_of c tx i flags = Some chk ∧
                        run_check tx chk = Passed true) l.
Proof.
  revert v. induction l as [|j l IH]; intros v; cbn [check_scripts].
  { intros [= <- <-]. by split_and!. }
  pose proof (GetCoins_spec v (op_hash (prevout j))) as HG. destruct (GetCoins v _) as [r v1]. destruct HG as (-> & Hs & _).
  intros Hp. passed Hp. rename r into c, E into Ec. passed Hp. rename r into chk, E into Ek. passed Hp. destruct r.
  - apply IH in Hp as (Hs2 & -> & Hall). split_and!; [by etransitivity|done|]. constructor; [by exists c, chk|].
    eapply Forall_impl; [exact Hall|]. intros k (c' & chk' & ? & ?). exists c', chk'. by rewrite <-(same_coins _ _ Hs).
  - case_match; [|done]. passed Hp. passed Hp. by case_match.
Qed.

Lemma check_scripts_same tx flags p i v l cs v' : check_scripts tx flags p i v l = Passed (cs, v') → same_view v v'.
Proof.
  destruct p; [|by intros (? & _)%check_scripts_spec].
  revert v cs. induction l as [|j l IH]; intros v cs; cbn [check_scripts].
  { by intros [= <- <-]. }
  pose proof (GetCoins_spec v (op_hash (prevout j))) as HG. destruct (GetCoins v _) as [r v1]. destruct HG as (-> & Hs & _).
  intros Hp. passed Hp. passed Hp. passed Hp. destruct r1 as [cs' v2]. simplify_eq. apply IH in E1. by etransitivity.
Qed.

(** [CheckInputs] of a transaction that spends coins. *)
Lemma CheckInputs_spec heightOf tx v fScriptChecks flags p cs v' :
  no_inputs tx = Some false → CheckInputs Params heightOf tx v fScriptChecks flags p = Passed (cs, v') →
  same_view v v' ∧ Forall (λ i, unspent (utxo v) (prevout i)) (vin tx) ∧
  ∃ h, heightOf (best_block v) = Some h ∧
    Forall (λ i, input_ok Params (h + 1) (coins_at v) (prevout i)) (vin tx) ∧
    0 ≤ total_in (coins_at v) (vin tx) ≤ nMaxMoneyOut Params ∧
    (IsCoinStake tx = false → ∃ n, GetValueOut tx = Some n ∧ n ≤ total_in (coins_at v) (vin tx)) ∧
    (fScriptChecks = true → p = false →
     Forall (λ j, ∃ c chk, coins_at v (op_hash (prevout j)) = Some c ∧ CScriptCheck_of c tx 0 flags = Some chk ∧
                           run_check tx chk = Passed true) (vin tx)).
Proof.
  unfold no_inputs, CheckInputs, HaveInputs. destruct (IsCoinBase tx) as [[]|]; [done| |done]. cbn [mbind option_bind].
  intros ->. cbn [mbind outcome_bind option_bind defined]. pose proof (have_inputs_spec v (vin tx)) as Hh.
  destruct (have_inputs v (vin tx)) as [have v1]. destruct Hh as [Hs1 Hhave]. destruct have; cbn [negb]; [|done].
  pose proof (GetBestBlock_spec v1) as Hb. destruct (GetBestBlock v1) as [best v2]. destruct Hb as [-> Hs2].
  assert (same_view v v2) as Hs by (by etransitivity). intros Hp. passed Hp. rename r into h, E into Eh.
  rewrite (same_best _ _ Hs1) in Eh. passed Hp. destruct r as [nValueIn v3].
  apply check_values_spec in E as (Hs3 & -> & Hr & Hin); [|lia]. rewrite Z.add_0_l, (same_total_in v) in * by done.
  passed Hp. rename E into Ev. split_and!; [|by apply Hhave|exists h; split_and!; [done| |lia|lia| |]].
  - assert (same_view v v3) by (by etransitivity). destruct fScriptChecks; [|by simplify_eq].
    apply check_scripts_same in Hp. by etransitivity.
  - eapply Forall_impl; [exact Hin|]. intros j (c & o & ? & ?). exists c, o. by rewrite <-(same_coins _ _ Hs).
  - intros Hst. rewrite Hst in Ev. cbn [negb] in Ev. passed Ev. rename r0 into n. exists n. split; [done|]. destruct (_ <? n) eqn:En; [done|lia].
  - intros -> ->. apply check_scripts_spec in Hp as (_ & _ & Hall). eapply Forall_impl; [exact Hall|].
    intros j (c & chk & ? & ?). exists c, chk. rewrite <-(same_coins _ _ Hs), <-(same_coins _ _ Hs3). done.
Qed.

Lemma unspent_coins_at v out : unspent (utxo v) out → coins_at v (op_hash out) = utxo v (op_hash out).
Proof.
  intros (c & Hc & _). rewrite Hc. unfold utxo in Hc. destruct (coins_at v _); [|done]. by apply norm_Some in Hc as [-> _].
Qed.

Lemma unspent_total_in v l :
  Forall (λ i, unspent (utxo v) (prevout i)) l → total_in (coins_at v) l = total_in (utxo v) l.
Proof.
  induction 1 as [|i l Hi _ IH]; [done|]. rewrite !total_in_cons, IH. unfold value_of, output_of.
  by rewrite unspent_coins_at.
Qed.

Lemma run_check_true tx chk :
  run_check tx chk = Passed true ↔
  ∃ i, vin tx !! chk_nIn chk = Some i ∧
    @VerifyScript HF (TransactionSignatureChecker tx (chk_nIn chk)) (chk_nFlags chk) (scriptSig i) (chk_scriptPubKey chk) = Ok tt.
Proof.
  unfold run_check. destruct (vin tx !! chk_nIn chk) as [i|]; [|by split; [|intros (? & [=] & _)]].
  destruct (VerifyScript _ _ _) as [[]| |] eqn:E; split; try done.
  - intros _. by exists i.
  - intros (? & [= <-] & ?). congruence.
  - intros (? & [= <-] & ?). congruence.
Qed.

(** C4: A transaction that is neither a coinbase nor a zerocoin spend and passes
    [CheckInputs]: the view shows the same unspent outputs afterwards; every input is
    unspent, has an amount in the range of money, and, if it comes from a coinbase or a
    coinstake, is buried under the maturity of the chain; the sum of the inputs is in
    the range of money.  Unless it is a coinstake it creates no money: its outputs are
    not negative and the fee, the exact difference of the sums, is in the range of
    money.  With script checks that are not deferred the script of its first input has
    been satisfied. *)
Theorem CheckInputs_sound heightOf tx v fScriptChecks flags p cs v' :
  no_inputs tx = Some false → Forall (λ o, sfits 64 (nValue o)) (vout tx) →
  CheckInputs Params heightOf tx v fScriptChecks flags p = Passed (cs, v') →
  (∀ t, utxo v' t = utxo v t) ∧
  Forall (λ i, unspent (utxo v) (prevout i)) (vin tx) ∧
  (∃ h, heightOf (best_block v) = Some h ∧ Forall (λ i, input_ok Params (h + 1) (utxo v) (prevout i)) (vin tx)) ∧
  0 ≤ total_in (utxo v) (vin tx) ≤ nMaxMoneyOut Params ∧
  (IsCoinStake tx = false → Forall (λ o, 0 ≤ nValue o) (vout tx) ∧
     0 ≤ total_in (utxo v) (vin tx) - total (vout tx) ≤ nMaxMoneyOut Params) ∧
  (fScriptChecks = true → p = false → ∀ i, head (vin tx) = Some i →
     ∃ o, output_of (utxo v) (prevout i) = Some o ∧
       @VerifyScript HF (TransactionSignatureChecker tx 0) flags (scriptSig i) (scriptPubKey o) = Ok tt).
Proof.
  intros Hno Hval Hp. apply CheckInputs_spec in Hp as (Hs & Hun & h & Eh & Hin & Htot & Hout & Hscr); [|done].
  rewrite (unspent_total_in v) in * by done. split_and!; [intros t; by apply same_utxo|done| |lia|lia| |].
  - exists h. split; [done|]. rewrite Forall_forall in *. intros i Hi. specialize (Hin i Hi). unfold input_ok in *.
    by rewrite <-unspent_coins_at by auto.
  - intros Hst. destruct (Hout Hst) as (n & Hn & Hle). unfold GetValueOut in Hn.
    apply value_out_spec in Hn as (Hnn & _ & ->); [|done..]. pose proof (total_nonneg _ Hnn). split; [done|lia].
  - intros Hf Hd i Hi. specialize (Hscr Hf Hd). destruct (vin tx) as [|i' l] eqn:Ev; [done|]. injection Hi as ->.
    apply Forall_cons_1 in Hscr as [(c & chk & Hc & Hk & Hr) _]. apply Forall_cons_1 in Hun as [Hun _].
    rewrite unspent_coins_at in Hc by done. unfold output_of. rewrite Hc. cbn [mbind option_bind].
    unfold CScriptCheck_of in Hk. rewrite Ev in Hk. cbn in Hk. destruct (coins_vout c !! _) as [o|]; [|done].
    injection Hk as <-. exists o. split; [done|]. apply run_check_true in Hr as (i2 & Hi2 & Hr). rewrite Ev in Hi2. by injection Hi2 as <-.
Qed.

Lemma check_scripts_one_tx tx flags i v l t c chk :
  coins_at v t = Some c → CScriptCheck_of c tx i flags = Some chk → run_check tx chk = Passed true →
  Forall (λ j, op_hash (prevout j) = t) l → ∃ v', check_scripts tx flags false i v l = Passed ([], v').
Proof.
  intros Hc Hk Hr Hl. revert v Hc. induction Hl as [|j l Hj _ IH]; intros v Hc; cbn [check_scripts]; [by eexists|].
  pose proof (GetCoins_spec v (op_hash (prevout j))) as HG. destruct (GetCoins v _) as [r v1]. destruct HG as (-> & Hs & _).
  rewrite Hj, Hc. cbn [defined mbind outcome_bind]. rewrite Hk. cbn [defined mbind outcome_bind]. rewrite Hr.
  cbn [mbind outcome_bind]. apply IH. by rewrite (same_coins _ _ Hs).
Qed.

(** C28: The script loop of [CheckInputs] increments its index after the loop, so
    every round checks the first input.  Of a transaction that spends several
    outputs of one previous transaction only the script of the first output needs
    to be satisfied: if the other checks pass and that script accepts, the
    transaction passes, whatever scripts lock the other outputs. *)
Theorem CheckInputs_first_script_suffices heightOf tx v flags i l cs v' :
  no_inputs tx = Some false → vin tx = i :: l → Forall (λ j, op_hash (prevout j) = op_hash (prevout i)) l →
  CheckInputs Params heightOf tx v false flags false = Passed (cs, v') →
  (∀ o, output_of (utxo v) (prevout i) = Some o →
     @VerifyScript HF (TransactionSignatureChecker tx 0) flags (scriptSig i) (scriptPubKey o) = Ok tt) →
  ∃ v2, CheckInputs Params heightOf tx v true flags false = Passed ([], v2).
Proof.
  intros Hno Ev Hl Hp Hver. pose proof Hp as Hp'. apply CheckInputs_spec in Hp' as (Hs & Hun & h & _ & Hin & _); [|done].
  rewrite Ev in Hin, Hun. apply Forall_cons_1 in Hin as [(c & o & Hc & Ho & _) _]. apply Forall_cons_1 in Hun as [Hun _].
  assert (output_of (utxo v) (prevout i) = Some o) as Hoo.
  { unfold output_of. rewrite <-unspent_coins_at, Hc by done. done. }
  unfold CheckInputs in *. passed Hp. rewrite E. cbn [defined mbind outcome_bind]. passed Hp. rewrite E0. cbn [mbind outcome_bind].
  unfold no_inputs in Hno. rewrite E in Hno. cbn [mbind option_bind] in Hno. destruct r; [done|]. rewrite Hno in E0. injection E0 as <-.
  passed Hp. rewrite E0. cbn [defined mbind outcome_bind]. destruct r as [have v1], (negb have); [done|].
  destruct (GetBestBlock v1) as [best v2]. passed Hp. rewrite E1. cbn [defined mbind outcome_bind]. passed Hp. rewrite E2.
  cbn [mbind outcome_bind]. destruct r0 as [n v3]. passed Hp. rewrite E3. cbn [mbind outcome_bind]. injection Hp as <- <-.
  rewrite Ev. apply (check_scripts_one_tx tx flags 0 v3 (i :: l) (op_hash (prevout i)) c
                       (ScriptCheck (scriptPubKey o) 0 flags)).
  - by rewrite (same_coins _ _ Hs).
  - unfold CScriptCheck_of. rewrite Ev. cbn. by rewrite Ho.
  - apply run_check_true. exists i. cbn [chk_nIn chk_nFlags chk_scriptPubKey]. rewrite Ev. split; [done|]. by apply Hver.
  - by constructor.
Qed.
End checks.

(** * A transaction on its own *)

(** An outpoint that two inputs share: the first of them looks like a zerocoin spend. *)
Definition no_double (l : list CTxIn) : Prop :=
  ∀ j k a b, (j < k)%nat → l !! j = Some a → l !! k = Some b → prevout a = prevout b → IsZerocoinSpend (scriptSig a) = true.

Lemma no_double_NoDup l :
  no_double l → Forall (λ i, IsZerocoinSpend (scriptSig i) = false) l → NoDup (map prevout l).
Proof.
  intros Hd Hz. apply NoDup_alt. intros j k out Hj Hk. rewrite list_lookup_fmap in Hj, Hk.
  apply fmap_Some in Hj as (a & Ha & ->). apply fmap_Some in Hk as (b & Hb & E).
  rewrite Forall_lookup in Hz. destruct (lt_eq_lt_dec j k) as [[Hlt|]|Hlt]; [|done|].
  - pose proof (Hd j k a b Hlt Ha Hb E). by rewrite (Hz j a) in *.
  - pose proof (Hd k j b a Hlt Hb Ha (eq_sym E)). by rewrite (Hz k b) in *.
Qed.

Lemma check_duplicates_spec seen l :
  check_duplicates seen l = Passed tt ↔ Forall (λ i, prevout i ∉ seen) l ∧ no_double l.
Proof.
  revert seen. induction l as [|i l IH]; intros seen; cbn [check_duplicates].
  { split; [intros _; split; [done|by intros ? ? ? ? _ ?]|done]. }
  rewrite Forall_cons. case_bool_decide as Hin; [split; [done|tauto]|]. rewrite IH.
  assert (no_double (i :: l) ↔
    (IsZerocoinSpend (scriptSig i) = false → Forall (λ j, prevout j ≠ prevout i) l) ∧ no_double l) as ->.
  { split.
    - intros Hd. split; [|intros j k a b Hjk; apply (Hd (S j) (S k)); lia].
      intros Hz. apply Forall_lookup. intros k b Hk E. pose proof (Hd 0%nat (S k) i b ltac:(lia) eq_refl Hk (eq_sym E)). congruence.
    - intros [Hi Hl] [|j] [|k] a b Hjk Ha Hb E; [lia| |lia|].
      + injection Ha as <-. destruct (IsZerocoinSpend (scriptSig i)); [done|]. specialize (Hi eq_refl).
        rewrite Forall_lookup in Hi. destruct (Hi k b); [done|congruence].
      + apply (Hl j k a b); [lia|done..]. }
  destruct (IsZerocoinSpend (scriptSig i)); cbn [negb].
  - split; [intros [HA HB]; by split_and!|by intros [[_ ?] [_ ?]]].
  - setoid_rewrite not_elem_of_cons. rewrite Forall_and. split; [intros [[HA HB] HC]; by split_and!|].
    intros [[_ HA] [HB HC]]. split_and!; auto.
Qed.

Section check_transaction.
Context (Params : CChainParams) `{HF : HashFunctions} `{HZ : ZerocoinChecks}.
Hypothesis max_money : 0 ≤ nMaxMoneyOut Params < 2 ^ 62.

Lemma check_outputs_spec tx z n k l k' :
  0 ≤ n ≤ nMaxMoneyOut Params → check_outputs Params tx z n k l = Passed k' →
  Forall (λ o, 0 ≤ nValue o ≤ nMaxMoneyOut Params) l ∧ n + total l ≤ nMaxMoneyOut Params.
Proof.
  revert n k. induction l as [|o l IH]; intros n k Hn Hp; cbn [check_outputs] in Hp; [by split; [|simpl; lia]|].
  passed Hp. destruct r; [done|]. destruct (_ <? 0) eqn:E1; [done|]. destruct (_ <? nValue o) eqn:E2; [done|].
  assert (s64 (n + nValue o) = n + nValue o) as Es by (apply swrap_small; [lia|]; unfold sfits; lia). rewrite Es in Hp.
  destruct (MoneyRange Params _) eqn:E3; [|done]. cbn [negb] in Hp. apply MoneyRange_spec in E3.
  passed Hp. apply IH in Hp as [HA HB]; [|done]. split; [constructor; [lia|done]|].
  cbn [total foldr]. fold (total l). lia.
Qed.

(** A transaction that passes [CheckTransaction]: it has inputs and outputs and
    at most 150,000 bytes; every amount is in the range of money and so is their
    sum, which is exact; an outpoint occurs in two inputs only if the first of them
    looks like a zerocoin spend, in particular the inputs of a transaction without
    such scripts are distinct; a coinbase has a script of 2 to 150 bytes. *)
Theorem CheckTransaction_sound tx fZerocoinActive :
  CheckTransaction Params tx fZerocoinActive = Passed tt → Z.of_nat (length (Serialize_tx tx)) < 2 ^ 32 →
  vin tx ≠ [] ∧ vout tx ≠ [] ∧ size (Serialize_tx tx) ≤ 150000 ∧
  Forall (λ o, 0 ≤ nValue o ≤ nMaxMoneyOut Params) (vout tx) ∧ GetValueOut tx = Some (total (vout tx)) ∧
  total (vout tx) ≤ nMaxMoneyOut Params ∧
  no_double (vin tx) ∧
  (Forall (λ i, IsZerocoinSpend (scriptSig i) = false) (vin tx) → NoDup (map prevout (vin tx))) ∧
  (IsCoinBase tx = Some true → ∀ i, head (vin tx) = Some i → 2 ≤ size (scriptSig i) ≤ 150).
Proof.
  intros Hp Hsz. unfold CheckTransaction in Hp.
  destruct (length (vin tx) =? 0)%nat eqn:E1; [done|]. destruct (length (vout tx) =? 0)%nat eqn:E2; [done|].
  destruct (_ <? u32 _) eqn:E3; [done|]. passed Hp. rename E into Ho. apply check_outputs_spec in Ho as [Hr Htot]; [|lia].
  rewrite Z.add_0_l in Htot. passed Hp. clear E. passed Hp. destruct r1. apply check_duplicates_spec in E as [_ Hd].
  passed Hp. rename E into Ecb. split_and!.
  - by destruct (vin tx).
  - by destruct (vout tx).
  - rewrite wrap_small in E3; [|unfold fits, size; lia]. unfold MAX_ZEROCOIN_TX_SIZE in E3. lia.
  - done.
  - unfold GetValueOut. apply value_out_spec; [done| |].
    + eapply Forall_impl; [exact Hr|]. intros o Ho. cbv beta in Ho |- *. unfold sfits. lia.
    + split_and!; [|lia..]. eapply Forall_impl; [exact Hr|]. intros o Ho. cbv beta in Ho. lia.
  - done.
  - done.
  - by apply no_double_NoDup.
  - intros Hcb i Hi. rewrite Hcb in Ecb. injection Ecb as <-. destruct (vin tx) as [|i' l]; [done|]. injection Hi as ->.
    destruct (_ || _) eqn:E4; [done|lia].
Qed.
End check_transaction.

(** Two outputs of one transaction: anyone may spend the first, nobody the second. *)
Definition two_txid : uint256 := replicate 32 7.
Definition two_coins : CCoins := Coins false false [TxOut 5 [OP_1] (-10); TxOut 7 [OP_0] (-10)] 1 1.
Definition two_view : CCoinsView :=
  CCoinsViewCache uint256_null ∅ (CCoinsViewDB {[ two_txid := two_coins ]} two_txid).
Definition theft_tx : CMutableTransaction :=
  MTx 1 [TxIn (OutPoint two_txid 0) [] SEQUENCE_FINAL []; TxIn (OutPoint two_txid 1) [] SEQUENCE_FINAL []]
    [TxOut 12 [OP_1] (-10)] 0.

(** No script satisfies the second output. *)
Lemma OP_0_unsatisfiable `{HashFunctions} `{BaseSignatureChecker} flags scriptSig :
  VerifyScript flags scriptSig [OP_0] ≠ Ok tt.
Proof.
  unfold VerifyScript. case_match; [done|]. destruct (EvalScript _ [] scriptSig) as [st| |]; [|done..].
  cbn [mbind result_bind].
  assert (EvalScript flags st [OP_0] = Ok ([] :: st) ∨ ∃ e, EvalScript flags st [OP_0] = Err e) as [->|[e ->]]; [|done..].
  unfold EvalScript. change (10000 <? size [OP_0]) with false. cbn [length eval_loop].
  change (GetOp2 [OP_0]) with (OpResult true OP_0 [] []). cbn [op_rest].
  unfold eval_instr. cbn [op_ok op_vch op_code negb]. change (MAX_SCRIPT_ELEMENT_SIZE <? size []) with false.
  change (OP_16 <? OP_0) with false. change (is_disabled OP_0) with false.
  change (0 <=? OP_0) with true. change (OP_0 <=? OP_PUSHDATA4) with true. cbn [fExec vfExec forallb andb].
  replace (if fRequireMinimal flags then CheckMinimalPush [] OP_0 else Ok true) with (@Ok bool true) by (by destruct (fRequireMinimal flags)). cbn [negb mbind result_bind].
  case_match; cbn [mbind result_bind]; [right; by eexists|]. by left.
Qed.

Definition no_zerocoin : ZerocoinChecks := {|
  CheckZerocoinMint _ := Rejected 100 String.EmptyString; CheckZerocoinSpend _ := Rejected 100 String.EmptyString;
  TxOutToPublicCoin _ := Rejected 100 String.EmptyString; ContextualCheckZerocoinMint _ := false;
  TxInToZerocoinSpend _ := Undefined; ContextualCheckZerocoinSpend _ := Undefined;
  UpdateZKPSupply _ := Passed true; ValidateAccumulatorCheckpoint _ := Passed true; record_checksums _ acc := Passed acc;
  erase_checksums _ _ acc := Some acc; IsTransactionInChain _ := None;
|}.

Lemma CheckInputs_sound_witness :
  match @CheckInputs mainParams _ example_secp (λ _, Some 200) theft_tx two_view true 0 false with
  | Passed (_, v') => total_in (utxo two_view) (vin theft_tx) = 12 ∧
      0 ≤ total_in (utxo two_view) (vin theft_tx) - total (vout theft_tx) ≤ nMaxMoneyOut mainParams
  | _ => False
  end.
Proof.
  destruct (@CheckInputs mainParams _ example_secp (λ _, Some 200) theft_tx two_view true 0 false) as [| |[cs v']] eqn:E;
    [by vm_compute in E..|]. split; [by vm_compute|].
  refine (proj2 (proj1 (proj2 (proj2 (proj2 (proj2 (@CheckInputs_sound mainParams _ example_secp _ _ theft_tx two_view true 0 false cs v' _ _ E)))))
            _)); [vm_compute; split; congruence|by vm_compute| |done].
  repeat constructor; vm_compute; congruence.
Defined.

Lemma CheckInputs_first_script_suffices_witness :
  match @CheckInputs mainParams _ example_secp (λ _, Some 200) theft_tx two_view true 0 false with
  | Passed _ => output_of (utxo two_view) (OutPoint two_txid 1) = Some (TxOut 7 [OP_0] (-10))
  | _ => False
  end.
Proof.
  destruct (@CheckInputs mainParams _ example_secp (λ _, Some 200) theft_tx two_view false 0 false) as [| |[cs v']] eqn:E;
    [by vm_compute in E..|].
  assert (0 ≤ nMaxMoneyOut mainParams < 2 ^ 62) as Hmax by (vm_compute; split; congruence).
  destruct (@CheckInputs_first_script_suffices mainParams _ example_secp Hmax (λ _, Some 200) theft_tx two_view 0
    (TxIn (OutPoint two_txid 0) [] SEQUENCE_FINAL []) [TxIn (OutPoint two_txid 1) [] SEQUENCE_FINAL []] cs v') as [v2 ->].
  - by vm_compute.
  - reflexivity.
  - by repeat constructor.
  - exact E.
  - intros o Ho. vm_compute in Ho. injection Ho as <-. by vm_compute.
  - by vm_compute.
Defined.

Lemma CheckTransaction_sound_witness : GetValueOut theft_tx = Some 12.
Proof.
  refine (proj1 (proj2 (proj2 (proj2 (proj2 (@CheckTransaction_sound mainParams no_zerocoin _ theft_tx true _ _)))))).
  - vm_compute; split; congruence.
  - by vm_compute.
  - by vm_compute.
Defined.
