(* ===== verification/ConnectFacts.v ===== *)
(** Connecting the transactions of a block and disconnecting them again gives the
    same set of unspent outputs; only the coinstake flag of an entry that the block
    spent completely is lost. *)

From S2P Require Import Prelude ChainParams Script PubKey Interpreter HmacFacts Serialize Transaction TransactionFacts SigHash Coins CoinsFacts CoinsView CoinsViewFacts Bignum ZerocoinDB Validation ValidationFacts.

(** * Spending and restoring an output *)

Definition canonical : list CTxOut → Prop := Forall (λ o, CTxOut_IsNull o = true → o = CTxOut_null).

(** An entry of the coin database. *)
Record entry_wf (c : CCoins) : Prop := {
  wf_canonical : canonical (coins_vout c);
  wf_clean : clean (coins_vout c);
  wf_height : 0 < coins_nHeight c < 2 ^ 31;
  wf_length : Z.of_nat (length (coins_vout c)) < 2 ^ 32;
}.

Definition stakeless (c : CCoins) : CCoins := Coins (fCoinBase c) false (coins_vout c) (coins_nHeight c) (coins_nVersion c).

Lemma canonical_nulls l : canonical l → nulls l → l = replicate (length l) CTxOut_null.
Proof. induction 1 as [|o l Ho _ IH]; inversion_clear 1; simpl; [done|]. by rewrite Ho, <-IH. Qed.

Lemma clean_replicate l k : clean (l ++ replicate k CTxOut_null) → k = 0%nat.
Proof.
  intros Hc. destruct k as [|k]; [done|]. rewrite replicate_S_end, app_assoc in Hc.
  specialize (Hc _ _ eq_refl). done.
Qed.

Lemma Forall_cleanup (P : CTxOut → Prop) l : Forall P l → Forall P (cleanup_vout l).
Proof. intros H. destruct (cleanup_spec l) as (n & E & _). rewrite E in H. by apply Forall_app in H as []. Qed.

(** The array after the resize and the assignment of [DisconnectBlock]. *)
Lemma restore_vout l n o :
  canonical l → clean l → l !! n = Some o →
  let l' := cleanup_vout (<[n := CTxOut_null]> l) in
  <[n := o]> (l' ++ replicate (S n - length l') CTxOut_null) = l.
Proof.
  intros Hk Hc Hn l'. destruct (cleanup_spec (<[n := CTxOut_null]> l)) as (z & E & Hz & _). fold l' in E.
  assert (canonical (<[n := CTxOut_null]> l)) as Hk' by (apply Forall_insert; [done|by intros _]).
  assert (z = replicate (length z) CTxOut_null) as Ez.
  { apply canonical_nulls; [|done]. rewrite E in Hk'. by apply Forall_app in Hk' as []. }
  pose proof (lookup_lt_Some _ _ _ Hn) as Hlt.
  assert (length l = length l' + length z)%nat as Hl.
  { rewrite <-length_app, <-E. by rewrite length_insert. }
  assert (l = <[n := o]> (l' ++ replicate (S n - length l') CTxOut_null) ++
              replicate (length z - (S n - length l')) CTxOut_null) as El.
  { rewrite <-insert_app_l by (rewrite length_app, length_replicate; lia).
    rewrite <-app_assoc, <-replicate_add.
    replace (S n - length l' + (length z - (S n - length l')))%nat with (length z) by lia.
    rewrite <-Ez, <-E, list_insert_insert_eq. symmetry. by apply list_insert_id. }
  rewrite El in Hc. apply clean_replicate in Hc. rewrite Hc, app_nil_r in El. by symmetry.
Qed.

Lemma Spend_Some c n u c' :
  Spend c n = Some (u, c') →
  ∃ o, coins_vout c !! Z.to_nat n = Some o ∧ CTxOut_IsNull o = false ∧
    c' = Cleanup (with_vout c (<[Z.to_nat n := CTxOut_null]> (coins_vout c))) ∧
    u = if (length (coins_vout c') =? 0)%nat
        then TxInUndo o (fCoinBase c) (fCoinStake c) (u32 (coins_nHeight c)) (coins_nVersion c)
        else TxInUndo o false false 0 0.
Proof.
  unfold Spend. destruct (coins_vout c !! Z.to_nat n) as [o|] eqn:Eo; [|done]. cbn [mbind option_bind].
  destruct (CTxOut_IsNull o) eqn:En; [done|]. intros [= <- <-]. exists o. split_and!; done.
Qed.

Lemma Spend_pruned c n : IsPruned c = true → Spend c n = None.
Proof.
  rewrite IsPruned_nulls, Forall_lookup. intros H. unfold Spend.
  destruct (coins_vout c !! Z.to_nat n) as [o|] eqn:Eo; [|done]. cbn [mbind option_bind]. by rewrite (H _ _ Eo).
Qed.

Lemma Spend_wf c n u c' : entry_wf c → Spend c n = Some (u, c') → entry_wf c'.
Proof.
  intros [H1 H2 H3 H4] (o & Ho & _ & -> & _)%Spend_Some. split; cbn [Cleanup with_vout coins_vout coins_nHeight]; try done.
  - apply Forall_cleanup, Forall_insert; [done|]. by intros _.
  - apply cleanup_is_clean.
  - destruct (cleanup_spec (<[Z.to_nat n:=CTxOut_null]> (coins_vout c))) as (z & E & _).
    apply (f_equal length) in E. rewrite length_insert, length_app in E. lia.
Qed.

Lemma Spend_flags c n u c' :
  Spend c n = Some (u, c') → fCoinStake c' = fCoinStake c ∧ coins_nHeight c' = coins_nHeight c.
Proof. by intros (o & _ & _ & -> & _)%Spend_Some. Qed.

Lemma restore_array l n o l' :
  0 ≤ n → n + 1 < 2 ^ 32 →
  <[Z.to_nat n := o]> (l' ++ replicate (S (Z.to_nat n) - length l') CTxOut_null) = l →
  let vout := if Z.of_nat (length l') <? u32 (n + 1)
              then l' ++ replicate (Z.to_nat (u32 (n + 1)) - length l') CTxOut_null else l' in
  (Z.to_nat n <? length vout)%nat = true ∧ <[Z.to_nat n := o]> vout = l.
Proof.
  intros Hn Hn' Hr. assert (u32 (n + 1) = n + 1) as -> by (apply wrap_small; unfold fits; lia).
  replace (Z.to_nat (n + 1)) with (S (Z.to_nat n)) by lia. case_match eqn:E; cbn zeta.
  - split; [|done]. rewrite length_app, length_replicate. lia.
  - split; [lia|]. replace (S (Z.to_nat n) - length l')%nat with 0%nat in Hr by lia. by rewrite app_nil_r in Hr.
Qed.

(** Restoring what was just spent: the entry is back when others were left, and back
    without its coinstake flag when it had been removed. *)
Lemma restore_spend c n u c' c0 b :
  entry_wf c → 0 ≤ n → Spend c n = Some (u, c') →
  (if IsPruned c' then IsPruned c0 = true ∧ b = false
   else c0 = Coins (fCoinBase c') b (coins_vout c') (coins_nHeight c') (coins_nVersion c')) →
  restore_coins n u c0 = (Some true, Coins (fCoinBase c) b (coins_vout c) (coins_nHeight c) (coins_nVersion c)).
Proof.
  intros [H1 H2 H3 H4] Hn (o & Ho & Hnull & -> & ->)%Spend_Some H0.
  set (l' := cleanup_vout (<[Z.to_nat n := CTxOut_null]> (coins_vout c))) in *.
  pose proof (lookup_lt_Some _ _ _ Ho) as Hlt. pose proof (restore_vout _ _ _ H1 H2 Ho) as Hr. fold l' in Hr.
  apply restore_array in Hr as [Hb Hr]; [|lia..].
  assert (IsPruned (Cleanup (with_vout c (<[Z.to_nat n := CTxOut_null]> (coins_vout c)))) = (length l' =? 0)%nat) as Ep.
  { apply eq_true_iff_eq. rewrite IsPruned_nil by apply cleanup_is_clean. fold l'.
    by rewrite Nat.eqb_eq, length_zero_iff_nil. }
  assert (match l' !! Z.to_nat n with
          | Some o => negb (CTxOut_IsNull o) && negb (IsZerocoinMint (scriptPubKey o)) | None => false end = false) as Ha.
  { pose proof (fAvail_cleanup (<[Z.to_nat n := CTxOut_null]> (coins_vout c)) (Z.to_nat n)) as Hf. fold l' in Hf.
    unfold fAvail in Hf. rewrite list_lookup_insert_eq in Hf by done. case_match; [|done]. by rewrite Hf. }
  rewrite Ep in H0. change (coins_vout (Cleanup (with_vout c (<[Z.to_nat n:=CTxOut_null]> (coins_vout c))))) with l' in *.
  unfold restore_coins. destruct (length l' =? 0)%nat eqn:El.
  - destruct H0 as [H0 ->]. apply Nat.eqb_eq, length_zero_iff_nil in El as E. rewrite E in Hb, Hr.
    cbn [undo_nHeight undo_fCoinBase undo_nVersion undo_txout].
    assert (u32 (coins_nHeight c) = coins_nHeight c) as -> by (apply wrap_small; unfold fits; lia).
    assert ((coins_nHeight c =? 0) = false) as -> by lia.
    assert (s32 (coins_nHeight c) = coins_nHeight c) as -> by (apply swrap_small; [lia|]; unfold sfits; lia).
    cbn [negb IsAvailable coins_vout with_vout fCoinBase fCoinStake coins_nHeight coins_nVersion]. rewrite Hb, Hr, H0. done.
  - subst c0. unfold IsAvailable.
    cbn [undo_nHeight undo_txout negb Z.eqb coins_vout with_vout fCoinBase fCoinStake coins_nHeight coins_nVersion Cleanup].
    fold l'. rewrite Hb, Hr, Ha. cbn [negb]. rewrite andb_true_r.
    by replace (IsPruned _) with false.
Qed.

(** * The abstract state *)

Abbreviation state := (uint256 → option CCoins).
Definition upd (m : state) (t : uint256) (c : option CCoins) : state := λ t', if decide (t' = t) then c else m t'.

Definition state_wf (m : state) : Prop := ∀ t c, m t = Some c → entry_wf c ∧ IsPruned c = false.

(** [m'] is [m], or has lost the coinstake flag of entries below the height [h]. *)
Definition near (h : Z) (m m' : state) : Prop :=
  ∀ t, m' t = m t ∨ ∃ c, m t = Some c ∧ m' t = Some (stakeless c) ∧ coins_nHeight c < h.

Definition is_cache (v : CCoinsView) : bool := match v with CCoinsViewCache _ _ _ => true | _ => false end.

Lemma utxo_state_wf_upd m t c : state_wf m → (∀ c', c = Some c' → entry_wf c' ∧ IsPruned c' = false) → state_wf (upd m t c).
Proof. intros Hm Hc t' c'. unfold upd. case_decide; [apply Hc|apply Hm]. Qed.

Lemma entry_wf_Cleanup c : entry_wf c → Cleanup c = c.
Proof. intros [_ H _ _]. unfold Cleanup. rewrite cleanup_id by done. by destruct c. Qed.

(** A modification in terms of the abstract state. *)
Lemma ModifyCoins_upd {A} v txid (f : CCoins → A * CCoins) :
  view_ok v → is_cache v = true →
  ∃ c0 v', norm c0 = utxo v txid ∧ ModifyCoins v txid f = Some ((f c0).1, v') ∧ view_ok v' ∧ is_cache v' = true ∧
    best_block v' = best_block v ∧ ∀ t, utxo v' t = upd (utxo v) txid (norm (Cleanup (f c0).2)) t.
Proof.
  destruct v as [|h cache base]; [done|]. intros Hok _.
  destruct (ModifyCoins_spec h cache base txid f Hok) as (c0 & v' & Hn & _ & E & Hok' & Ht & Hne & Hb & _).
  exists c0, v'. split_and!; [done..| |done|].
  - unfold ModifyCoins in E. destruct (modify_entry _ _ _) as [it b], (f (entry_coins it)). by simplify_eq.
  - intros t. unfold upd. case_decide as Et; [by subst|by apply Hne].
Qed.

Lemma norm_None c : norm c = None ↔ IsPruned c = true.
Proof. unfold norm. by destruct (IsPruned c). Qed.

Lemma norm_unpruned c : IsPruned c = false → norm c = Some c.
Proof. unfold norm. by intros ->. Qed.

Lemma Cleanup_Cleanup c : Cleanup (Cleanup c) = Cleanup c.
Proof. unfold Cleanup, with_vout. cbn [coins_vout]. f_equal. apply cleanup_id, cleanup_is_clean. Qed.

(** [spend_input] spends the entry of the abstract state, or asserts. *)
Lemma spend_input_spec v out :
  view_ok v → is_cache v = true →
  match utxo v (op_hash out) ≫= λ c, Spend c (op_n out) with
  | Some (u, c') => ∃ v', spend_input v out = Some (u, v') ∧ view_ok v' ∧ is_cache v' = true ∧
      best_block v' = best_block v ∧ ∀ t, utxo v' t = upd (utxo v) (op_hash out) (norm c') t
  | None => spend_input v out = None
  end.
Proof.
  intros Hok Hc. unfold spend_input.
  destruct (ModifyCoins_upd v (op_hash out)
    (λ c, match Spend c (op_n out) with Some (u, c') => (Some u, c') | None => (None, c) end) Hok Hc)
    as (c0 & v' & Hn & -> & Hok' & Hc' & Hb & Hu). rewrite <-Hn. cbn [mbind option_bind].
  destruct (IsPruned c0) eqn:Ep.
  - rewrite (proj2 (norm_None c0) Ep). cbn [mbind option_bind]. by rewrite Spend_pruned.
  - rewrite (norm_unpruned c0 Ep). cbn [mbind option_bind]. destruct (Spend c0 (op_n out)) as [[u c']|] eqn:Es; [|done].
    cbn [mbind option_bind fst snd] in *. exists v'. split_and!; [done..|]. intros t. rewrite Hu.
    apply Spend_Some in Es as (o & _ & _ & -> & _). by rewrite Cleanup_Cleanup.
Qed.

(** ** One input *)

(** Restoring an input after it was spent, from a state that is near the one after
    the spend. *)
Lemma restore_input_near h (m : state) out c u c' v :
  state_wf m → 0 ≤ op_n out → m (op_hash out) = Some c → Spend c (op_n out) = Some (u, c') →
  (fCoinStake c = true → coins_nHeight c < h) →
  view_ok v → is_cache v = true → near h (upd m (op_hash out) (norm c')) (utxo v) →
  ∃ v', restore_input v out u = Some (true, v') ∧ view_ok v' ∧ is_cache v' = true ∧ best_block v' = best_block v ∧
        near h m (utxo v').
Proof.
  intros Hm Hn Hc Hs Hstake Hok Hcache Hnear. destruct (Hm _ _ Hc) as [Hwf Hnp].
  destruct (ModifyCoins_upd v (op_hash out) (restore_coins (op_n out) u) Hok Hcache)
    as (c0 & v' & H0 & E & Hok' & Hc' & Hb & Hu).
  assert (∃ b, restore_coins (op_n out) u c0 =
            (Some true, Coins (fCoinBase c) b (coins_vout c) (coins_nHeight c) (coins_nVersion c)) ∧
          (b = fCoinStake c ∨ b = false ∧ coins_nHeight c < h)) as (b & Er & Hbb).
  { destruct (Spend_flags _ _ _ _ Hs) as [F1 F2]. pose proof (Spend_wf _ _ _ _ Hwf Hs) as Hwf'.
    specialize (Hnear (op_hash out)). rewrite <-H0 in Hnear. unfold upd in Hnear. rewrite decide_True in Hnear by done.
    destruct (IsPruned c') eqn:Ep.
    - exists false. split.
      + apply (restore_spend c _ u c'); [done..|]. rewrite Ep. split; [|done]. apply norm_None.
        rewrite (proj2 (norm_None c') Ep) in Hnear. by destruct Hnear as [|(? & [=] & _)].
      + destruct (fCoinStake c) eqn:Ef; [right; auto|by left].
    - rewrite (norm_unpruned _ Ep) in Hnear. destruct Hnear as [Hx|(cx & [= <-] & Hx & Hh)].
      + apply norm_Some in Hx as [<- _]. exists (fCoinStake c). split; [|by left].
        apply (restore_spend c _ u c'); [done..|]. rewrite Ep, <-F1. by destruct c'.
      + apply norm_Some in Hx as [Hx _]. exists false. split; [|right; split; [done|lia]].
        apply (restore_spend c _ u c'); [done..|]. by rewrite Ep. }
  exists v'. unfold restore_input. rewrite E. cbn [mbind option_bind]. rewrite Er in *. cbn [fst snd mbind option_bind] in *.
  split_and!; [done..|]. intros t. rewrite Hu. unfold upd. specialize (Hnear t). unfold upd in Hnear.
  case_decide as Et; [subst t|done]. clear Hnear. rewrite Hc.
  unfold Cleanup, with_vout. cbn [coins_vout fCoinBase fCoinStake coins_nHeight coins_nVersion].
  rewrite cleanup_id by apply Hwf. rewrite norm_unpruned by exact Hnp.
  destruct Hbb as [->|[-> Hh]]; [left; by destruct c|right; by exists c].
Qed.

(** ** The inputs of a transaction *)

(** The state after spending the outpoints [l]. *)
Inductive spends : state → list COutPoint → list CTxInUndo → state → Prop :=
  | spends_nil m m' : (∀ t, m' t = m t) → spends m [] [] m'
  | spends_cons m out l c u c' us m' :
      m (op_hash out) = Some c → Spend c (op_n out) = Some (u, c') →
      spends (upd m (op_hash out) (norm c')) l us m' → spends m (out :: l) (u :: us) m'.

Lemma spends_ext m1 m2 l us m' : (∀ t, m1 t = m2 t) → spends m1 l us m' → spends m2 l us m'.
Proof.
  intros H Hs. revert m2 H. induction Hs as [m m' E|m out l c u c' us m' Hc Hs _ IH]; intros m2 H.
  - constructor. intros t. by rewrite E.
  - econstructor; [by rewrite <-H|done|]. apply IH. intros t. unfold upd. by rewrite H.
Qed.

Lemma spends_absent m l us m' t : spends m l us m' → m t = None → m' t = None.
Proof.
  induction 1 as [m m' E|m out l c u c' us m' Hc Hs _ IH]; intros H; [by rewrite E|].
  apply IH. unfold upd. case_decide; [congruence|done].
Qed.

Lemma spends_length m l us m' : spends m l us m' → length us = length l.
Proof. induction 1; simpl; congruence. Qed.

Lemma state_wf_spend m out c u c' :
  state_wf m → m (op_hash out) = Some c → Spend c (op_n out) = Some (u, c') → state_wf (upd m (op_hash out) (norm c')).
Proof.
  intros Hm Hc Hs. apply utxo_state_wf_upd; [done|]. intros c1 [-> Hp]%norm_Some. split; [|done].
  apply (Spend_wf c (op_n out) u); [|done]. by eapply Hm.
Qed.

Lemma spends_wf m l us m' : state_wf m → spends m l us m' → state_wf m'.
Proof.
  intros Hm Hs. induction Hs as [m m' E|m out l c u c' us m' Hc Hs _ IH]; [|by eapply IH, state_wf_spend].
  intros t c H. rewrite E in H. by apply (Hm t).
Qed.

Lemma spend_inputs_spec v l us v' :
  view_ok v → is_cache v = true → spend_inputs v l = Some (us, v') →
  view_ok v' ∧ is_cache v' = true ∧ best_block v' = best_block v ∧ spends (utxo v) (map prevout l) us (utxo v').
Proof.
  revert v us. induction l as [|i l IH]; intros v us Hok Hc; cbn [spend_inputs].
  { intros [= <- <-]. split_and!; [done..|by constructor]. }
  pose proof (spend_input_spec v (prevout i) Hok Hc) as Hs.
  destruct (utxo v (op_hash (prevout i))) as [c|] eqn:Ec; cbn [mbind option_bind] in Hs; [|by rewrite Hs].
  destruct (Spend c (op_n (prevout i))) as [[u c']|] eqn:Es; [|by rewrite Hs].
  destruct Hs as (v1 & -> & Hok1 & Hc1 & Hb1 & Hu). cbn [mbind option_bind].
  destruct (spend_inputs v1 l) as [[us' v2]|] eqn:El; [|done]. cbn [mbind option_bind]. intros [= <- <-].
  destruct (IH v1 us' Hok1 Hc1 El) as (Hok2 & Hc2 & Hb2 & Hsp). split_and!; [done..|by rewrite Hb2|].
  cbn [map]. econstructor; [done..|]. eapply spends_ext; [exact Hu|exact Hsp].
Qed.

(** The outpoints [l] may be spent at height [h]: coinstakes come from below. *)
Definition mature (h : Z) (m : state) (l : list COutPoint) : Prop :=
  Forall (λ out, ∀ c, m (op_hash out) = Some c → fCoinStake c = true → coins_nHeight c < h) l.

Lemma mature_upd h m out c u c' l :
  m (op_hash out) = Some c → Spend c (op_n out) = Some (u, c') → mature h m (out :: l) →
  mature h (upd m (op_hash out) (norm c')) l.
Proof.
  intros Hc Hs [Ho Hl]%Forall_cons_1. eapply Forall_impl; [exact Hl|]. intros out' H c1. unfold upd. case_decide as Et; [|apply H].
  intros [-> _]%norm_Some. destruct (Spend_flags _ _ _ _ Hs) as [-> ->]. by apply Ho.
Qed.

Lemma restore_inputs_app v b l1 l2 :
  restore_inputs v b (l1 ++ l2) = '(b', v') ← restore_inputs v b l1; restore_inputs v' b' l2.
Proof.
  revert v b. induction l1 as [|[i u] l1 IH]; intros v b; [done|]. cbn [app restore_inputs].
  destruct (restore_input v (prevout i) u) as [[c v1]|]; [|done]. cbn [mbind option_bind]. apply IH.
Qed.

(** The inputs are restored in reverse order. *)
Lemma restore_inputs_near h m l us m1 v :
  state_wf m → Forall (λ i, 0 ≤ op_n (prevout i)) l → mature h m (map prevout l) → spends m (map prevout l) us m1 →
  view_ok v → is_cache v = true → near h m1 (utxo v) →
  ∃ v', restore_inputs v true (rev (zip l us)) = Some (true, v') ∧ view_ok v' ∧ is_cache v' = true ∧
        best_block v' = best_block v ∧ near h m (utxo v').
Proof.
  revert m us. induction l as [|i l IH]; intros m us Hm Hn Hmat Hs Hok Hc Hnear; inversion Hs as [? ? E|? ? ? c u c' us' ? H1 H2 H3]; subst.
  { exists v. split_and!; try done. intros t. rewrite <-E. apply Hnear. }
  apply Forall_cons_1 in Hn as [Hi Hn]. cbn [map] in Hmat.
  destruct (IH _ us' (state_wf_spend _ _ _ _ _ Hm H1 H2) Hn (mature_upd _ _ _ _ _ _ _ H1 H2 Hmat) H3 Hok Hc Hnear)
    as (v1 & E1 & Hok1 & Hc1 & Hb1 & Hnear1).
  destruct (restore_input_near h m (prevout i) c u c' v1) as (v2 & E2 & Hok2 & Hc2 & Hb2 & Hnear2); try done.
  { apply Forall_cons_1 in Hmat as [Hmat _]. by apply Hmat. }
  exists v2. cbn [zip zip_with rev]. rewrite restore_inputs_app, E1. cbn [mbind option_bind restore_inputs]. rewrite E2.
  cbn [mbind option_bind]. split_and!; [done..|by rewrite Hb2|done].
Qed.

(** ** The outputs of a transaction *)

Definition spendable (o : CTxOut) : CTxOut := if IsUnspendable (scriptPubKey o) then CTxOut_null else o.

Lemma spendable_idem o : spendable (spendable o) = spendable o.
Proof. unfold spendable. destruct (IsUnspendable (scriptPubKey o)) eqn:E; [done|]. by rewrite E. Qed.

Lemma ClearUnspendable_idem c : ClearUnspendable (ClearUnspendable c) = ClearUnspendable c.
Proof.
  unfold ClearUnspendable at 1. assert (map spendable (coins_vout (ClearUnspendable c)) = coins_vout (ClearUnspendable c)) as E.
  { cbn [ClearUnspendable Cleanup with_vout coins_vout]. fold spendable.
    rewrite <-(map_id (cleanup_vout _)) at 2. apply map_ext_Forall, Forall_cleanup, Forall_map, Forall_true.
    intros o. apply spendable_idem. }
  fold spendable. rewrite E. unfold ClearUnspendable, Cleanup, with_vout. cbn [coins_vout fCoinBase fCoinStake coins_nHeight coins_nVersion].
  f_equal. apply cleanup_id, cleanup_is_clean.
Qed.

Lemma IsPruned_ClearUnspendable c : IsPruned c = true → IsPruned (ClearUnspendable c) = true.
Proof.
  unfold ClearUnspendable. rewrite IsPruned_Cleanup, !IsPruned_nulls. cbn [with_vout coins_vout].
  intros H. apply Forall_map. eapply Forall_impl; [exact H|]. intros o Ho. simpl. by case_match.
Qed.

(** The outputs have amounts that are not negative, as [CheckTransaction] and
    [GetValueOut] ensure. *)
Definition outputs_ok (tx : CMutableTransaction) : Prop :=
  Forall (λ o, 0 ≤ nValue o) (vout tx) ∧ Z.of_nat (length (vout tx)) < 2 ^ 32.

Lemma FromTx_wf tx h coins :
  outputs_ok tx → 0 < h < 2 ^ 31 → FromTx tx h = Some coins →
  entry_wf coins ∧ coins_nHeight coins = h ∧ ClearUnspendable coins = coins.
Proof.
  intros [Ho Hl] Hh. unfold FromTx. destruct (IsCoinBase tx) as [cb|]; [|done]. cbn [mbind option_bind]. intros [= <-].
  split_and!; [|done|apply ClearUnspendable_idem].
  split; cbn [ClearUnspendable Cleanup with_vout coins_vout coins_nHeight]; fold spendable; [|apply cleanup_is_clean|done|].
  - apply Forall_cleanup, Forall_map. eapply Forall_impl; [exact Ho|]. intros o Hv. cbv beta in Hv |- *. unfold spendable. case_match; [done|].
    unfold CTxOut_IsNull. intros Hx. exfalso. lia.
  - destruct (cleanup_spec (map spendable (vout tx))) as (n & E & _). apply (f_equal length) in E.
    rewrite length_map, length_app in E. lia.
Qed.

Lemma coins_eqb_refl c : coins_eqb c c = true.
Proof.
  unfold coins_eqb. case_match; [done|]. rewrite !eqb_reflx, !Z.eqb_refl. by rewrite bool_decide_eq_true_2.
Qed.

Lemma coins_eqb_pruned a b : IsPruned a = true → IsPruned b = true → coins_eqb a b = true.
Proof. unfold coins_eqb. by intros -> ->. Qed.

Section update.
Context `{HF : HashFunctions}.

Lemma remove_outputs_near h (m : state) tx coins v :
  outputs_ok tx → 0 < h < 2 ^ 31 → FromTx tx h = Some coins → m (tx_GetHash tx) = None →
  view_ok v → is_cache v = true → near h (upd m (tx_GetHash tx) (norm coins)) (utxo v) →
  ∃ v', remove_outputs tx h v = Some (true, v') ∧ view_ok v' ∧ is_cache v' = true ∧ best_block v' = best_block v ∧
        near h m (utxo v').
Proof.
  intros Ho Hh Ef Hm Hok Hc Hnear. destruct (FromTx_wf _ _ _ Ho Hh Ef) as (Hwf & Eh & Ecl).
  unfold remove_outputs. rewrite Ef. cbn [mbind option_bind].
  match goal with |- context [ModifyCoins v ?t ?f] => destruct (ModifyCoins_upd v t f Hok Hc) as (c0 & v' & H0 & -> & Hok' & Hc' & Hb & Hu) end.
  cbn [fst snd] in Hu |- *. exists v'. split_and!; [|done..|].
  - f_equal. f_equal. specialize (Hnear (tx_GetHash tx)). unfold upd in Hnear. rewrite decide_True, <-H0 in Hnear by done.
    assert (norm c0 = norm coins) as E.
    { destruct Hnear as [|(c & [-> _]%norm_Some & _ & Hlt)]; [done|lia]. }
    clear Hnear. destruct (IsPruned coins) eqn:Ep.
    + apply norm_None in Ep as En. rewrite En in E. apply norm_None, IsPruned_ClearUnspendable in E.
      apply coins_eqb_pruned; [by case_match|done].
    + rewrite (norm_unpruned coins) in E by done. apply norm_Some in E as [<- _]. rewrite Ecl.
      case_match; [|apply coins_eqb_refl]. destruct coins. apply coins_eqb_refl.
  - intros t. rewrite Hu. unfold upd. specialize (Hnear t). unfold upd in Hnear. case_decide as Et; [|done].
    left. rewrite Et, Hm. done.
Qed.

(** [UpdateCoins] spends the inputs and adds the outputs. *)
Lemma UpdateCoins_spec tx v h us v' :
  view_ok v → is_cache v = true → UpdateCoins tx v h = Some (us, v') →
  ∃ none m coins, no_inputs tx = Some none ∧ FromTx tx h = Some coins ∧
    (if (none : bool) then us = [] ∧ m = utxo v else spends (utxo v) (map prevout (vin tx)) us m) ∧
    view_ok v' ∧ is_cache v' = true ∧ best_block v' = best_block v ∧
    ∀ t, utxo v' t = upd m (tx_GetHash tx) (norm (Cleanup coins)) t.
Proof.
  intros Hok Hc. unfold UpdateCoins. destruct (no_inputs tx) as [none|]; [|done]. cbn [mbind option_bind].
  destruct (if none then _ else _) as [[us' v1]|] eqn:E1; [|done]. cbn [mbind option_bind].
  destruct (FromTx tx h) as [coins|]; [|done]. cbn [mbind option_bind].
  assert (view_ok v1 ∧ is_cache v1 = true ∧ best_block v1 = best_block v ∧
          if none then us' = [] ∧ v1 = v else spends (utxo v) (map prevout (vin tx)) us' (utxo v1)) as (Hok1 & Hc1 & Hb1 & Hs).
  { destruct none; [by simplify_eq|]. by apply spend_inputs_spec. }
  destruct (ModifyCoins_upd v1 (tx_GetHash tx) (λ _, (tt, coins)) Hok1 Hc1) as (c0 & v2 & _ & -> & Hok2 & Hc2 & Hb2 & Hu).
  cbn [mbind option_bind]. intros [= <- <-]. exists none, (utxo v1), coins. split_and!; [done..| |done|done|by rewrite Hb2|done].
  destruct none; [|done]. by destruct Hs as [-> ->].
Qed.

End update.

(** ** The transactions of a block *)

Section block.
Context (Params : CChainParams) `{HF : HashFunctions} `{HS : Secp256k1} `{HZ : ZerocoinChecks}.
Hypothesis max_money : 0 ≤ nMaxMoneyOut Params < 2 ^ 62.

Lemma connect_spends_view tx s l s' : connect_spends tx s l = Passed s' → cs_view s' = cs_view s ∧ cs_undo s' = cs_undo s.
Proof.
  revert s. induction l as [|i l IH]; intros s; cbn [connect_spends]; [by intros [= <-]|].
  case_match; [apply IH|]. intros Hp. passed Hp. destruct r. passed Hp. destruct (negb r); [done|]. by apply IH in Hp as [-> ->].
Qed.

Lemma connect_mints_view tx s l s' : connect_mints tx s l = Passed s' → cs_view s' = cs_view s ∧ cs_undo s' = cs_undo s.
Proof.
  revert s. induction l as [|i l IH]; intros s; cbn [connect_mints]; [by intros [= <-]|].
  case_match; [apply IH|]. intros Hp. passed Hp. case_match; [done|]. by apply IH in Hp as [-> ->].
Qed.

Lemma connect_inputs_spec heightOf fS th tx s s' :
  no_inputs tx = Some false → connect_inputs Params heightOf fS th tx s = Passed s' →
  same_view (cs_view s) (cs_view s') ∧ cs_undo s' = cs_undo s ∧
  ∃ h, heightOf (best_block (cs_view s)) = Some h ∧
       Forall (λ i, input_ok Params (h + 1) (coins_at (cs_view s)) (prevout i)) (vin tx).
Proof.
  intros Hno Hp. unfold connect_inputs in Hp. passed Hp. destruct r as [have v]. rename E into Eh.
  assert (same_view (cs_view s) v) as Hs.
  { unfold HaveInputs in Eh. destruct (IsCoinBase tx) as [cb|]; [|done]. cbn [mbind option_bind] in Eh.
    destruct (if cb then _ else _) as [[]|]; [by injection Eh as <- <-| |done]. cbn [mbind option_bind] in Eh.
    pose proof (have_inputs_spec (cs_view s) (vin tx)) as Hh. destruct (have_inputs _ _). injection Eh as <- <-. by destruct Hh. }
  destruct (negb have); [done|]. passed Hp. rename r into s1. assert (cs_undo s1 = cs_undo s) as Eu.
  { destruct (tx_IsZerocoinMint tx); [by apply connect_mints_view in E as []|by injection E as <-]. }
  clear E. passed Hp. destruct r as [k v1]. apply GetP2SHSigOpCount_same in E. destruct (_ <? u32 _); [done|].
  passed Hp. destruct r as [fees v2]. assert (same_view v1 v2) as H12.
  { destruct (negb (IsCoinStake tx)); [|by injection E0 as <- <-]. passed E0. destruct r as [n v3]. passed E0.
    injection E0 as <- <-. by apply GetValueIn_same in E1. }
  clear E0. passed Hp. destruct r as [n v3]. apply GetValueIn_same in E0. passed Hp. destruct r as [cs v4].
  apply CheckInputs_spec in E1 as (H34 & _ & h & Hh & Hin & _); [|done..]. injection Hp as <-. cbn [cs_view cs_undo].
  assert (same_view (cs_view s) v3) as H03 by (do 3 (etransitivity; [eassumption|]); done).
  split_and!; [by etransitivity|done|]. exists h. rewrite (same_best _ _ H03) in Hh. split; [done|].
  eapply Forall_impl; [exact Hin|]. intros i (c & o & ? & ?). exists c, o. by rewrite <-(same_coins _ _ H03).
Qed.

Lemma connect_tx_spec heightOf fV fS th h first tx s s' :
  connect_tx Params heightOf fV fS th h first tx s = Passed s' →
  ∃ v us, same_view (cs_view s) v ∧ UpdateCoins tx v h = Some (us, cs_view s') ∧
    cs_undo s' = (if first then cs_undo s else cs_undo s ++ [us]) ∧ is_Some (GetValueOut tx) ∧
    (no_inputs tx = Some false → ∃ hp, heightOf (best_block (cs_view s)) = Some hp ∧
       Forall (λ i, input_ok Params (hp + 1) (coins_at (cs_view s)) (prevout i)) (vin tx)).
Proof.
  unfold connect_tx. intros Hp. passed Hp. destruct (_ <? u32 _); [done|]. passed Hp. rename r0 into zs, E0 into Ez.
  passed Hp. rename r0 into s1, E0 into E1.
  passed Hp. rename r0 into out, E0 into Eo. passed Hp. destruct r0 as [us v]. rename E0 into Eu. injection Hp as <-.
  cbn [cs_view cs_undo]. exists (cs_view s1), us.
  assert (same_view (cs_view s) (cs_view s1) ∧ cs_undo s1 = cs_undo s ∧
    (no_inputs tx = Some false → ∃ hp, heightOf (best_block (cs_view s)) = Some hp ∧
       Forall (λ i, input_ok Params (hp + 1) (coins_at (cs_view s)) (prevout i)) (vin tx))) as (Hs & Hu & Hin).
  { destruct zs.
    - destruct (match _ with Some _ => _ | None => _ end); [done|]. passed E1. apply connect_spends_view in E0 as [Ev Eu'].
      assert (cs_view s1 = cs_view s ∧ cs_undo s1 = cs_undo s) as [-> ->].
      { destruct (tx_IsZerocoinMint tx); [apply connect_mints_view in E1 as [-> ->]|injection E1 as <-]; by rewrite Ev, Eu'. }
      split_and!; [done..|]. unfold no_inputs. intros Hno. destruct (IsCoinBase tx) as [[]|]; [done| |done].
      cbn [mbind option_bind] in Hno. congruence.
    - passed E1. unfold no_inputs. rewrite E0. cbn [mbind option_bind]. destruct r0; [by injection E1 as <-|].
      apply connect_inputs_spec in E1 as (Hs & Hu & Hin); [by split_and!|]. unfold no_inputs. rewrite E0. cbn [mbind option_bind]. done. }
  split_and!; [done..|by rewrite Hu|by eexists|done].
Qed.

(** What connecting [tx] does to the abstract state. *)
Record step (h : Z) (m : state) (tx : CMutableTransaction) (us : list CTxInUndo) (m' : state) : Prop := {
  step_outputs : outputs_ok tx;
  step_inputs : Forall (λ i, 0 ≤ op_n (prevout i)) (vin tx);
  step_change : ∃ none ms coins, no_inputs tx = Some none ∧ FromTx tx h = Some coins ∧
    (if (none : bool) then us = [] ∧ ms = m
     else spends m (map prevout (vin tx)) us ms ∧ mature h m (map prevout (vin tx))) ∧
    ∀ t, m' t = upd ms (tx_GetHash tx) (norm coins) t;
}.

Lemma UpdateCoins_cache tx v h r : UpdateCoins tx v h = Some r → is_cache v = true.
Proof.
  destruct v as [db b|]; [|done]. unfold UpdateCoins. destruct (no_inputs tx) as [[]|]; cbn [mbind option_bind]; [| |done].
  - by destruct (FromTx tx h).
  - destruct (vin tx); [|done]. cbn [spend_inputs mbind option_bind]. by destruct (FromTx tx h).
Qed.

Lemma tx_ok_outputs tx : tx_ok tx → is_Some (GetValueOut tx) → outputs_ok tx.
Proof.
  intros (_ & _ & [Ho Hl] & _) [n Hn]. split.
  - apply value_out_spec in Hn as (? & _); [done|lia|]. eapply Forall_impl; [exact Ho|]. by intros o [? _].
  - unfold size, MAX_SIZE in Hl. lia.
Qed.

Lemma tx_ok_inputs tx : tx_ok tx → Forall (λ i, 0 ≤ op_n (prevout i)) (vin tx).
Proof. intros (_ & [Hi _] & _). eapply Forall_impl; [exact Hi|]. intros i ([_ H] & _). unfold fits in H. cbv beta. lia. Qed.

Lemma connect_tx_step heightOf fV fS th h first tx s s' :
  tx_ok tx → 0 < h < 2 ^ 31 → 0 < nMaturity Params → heightOf (best_block (cs_view s)) = Some (h - 1) →
  view_ok (cs_view s) → connect_tx Params heightOf fV fS th h first tx s = Passed s' →
  ∃ us, step h (utxo (cs_view s)) tx us (utxo (cs_view s')) ∧
    cs_undo s' = (if first then cs_undo s else cs_undo s ++ [us]) ∧
    view_ok (cs_view s') ∧ is_cache (cs_view s') = true ∧ best_block (cs_view s') = best_block (cs_view s).
Proof.
  intros Htx Hh Hmat Hhp Hok Hp. apply connect_tx_spec in Hp as (v & us & Hs & Hu & Eu & Hval & Hin).
  pose proof (UpdateCoins_cache _ _ _ _ Hu) as Hc. pose proof (same_ok _ _ Hs Hok) as Hokv.
  destruct (UpdateCoins_spec tx v h us (cs_view s') Hokv Hc Hu) as (none & ms & coins & Hno & Hf & Hsp & Hok' & Hc' & Hb' & Hut).
  pose proof (tx_ok_outputs tx Htx Hval) as Ho. destruct (FromTx_wf tx h coins Ho Hh Hf) as (Hwf & _ & _).
  rewrite (entry_wf_Cleanup coins Hwf) in Hut.
  exists us. split_and!; [|done..|by rewrite Hb', (same_best _ _ Hs)]. split; [done|by apply tx_ok_inputs|].
  exists none, (if none then utxo (cs_view s) else ms), coins. split_and!; [done..| |].
  - destruct none; [by destruct Hsp|]. split; [eapply spends_ext, Hsp; intros t; by apply same_utxo|].
    destruct (Hin Hno) as (hp & Ehp & Hall). assert (hp = h - 1) as -> by congruence. unfold mature.
    apply Forall_map. eapply Forall_impl; [exact Hall|]. intros i (c & o & Ec & _ & _ & Hm) c' Hc1 Hst. simpl in Hc1.
    unfold utxo in Hc1. rewrite Ec in Hc1. apply norm_Some in Hc1 as [-> _]. rewrite Hst, orb_true_r in Hm. specialize (Hm eq_refl). lia.
  - intros t. rewrite Hut. unfold upd. case_decide; [done|]. destruct none; [|done]. destruct Hsp as [_ ->]. by apply same_utxo.
Qed.

Lemma step_forward h m tx us m' :
  0 < h < 2 ^ 31 → state_wf m → step h m tx us m' →
  state_wf m' ∧ ∀ t, t ≠ tx_GetHash tx → m t = None → m' t = None.
Proof.
  intros Hh Hm [Ho _ (none & ms & coins & _ & Hf & Hs & Hu)].
  destruct (FromTx_wf tx h coins Ho Hh Hf) as (Hwf & _ & _).
  assert (state_wf ms ∧ ∀ t, m t = None → ms t = None) as [Hms Hnone].
  { destruct none; [by destruct Hs as [_ ->]|]. destruct Hs as [Hs _]. split; [by eapply spends_wf|]. intros t. by eapply spends_absent. }
  split.
  - intros t c. rewrite Hu. apply (utxo_state_wf_upd ms); [done|]. by intros c' [-> ?]%norm_Some.
  - intros t Ht Hn. rewrite Hu. unfold upd. rewrite decide_False by done. auto.
Qed.

Lemma disconnect_step h m tx us m' v (first : bool) db db' :
  0 < h < 2 ^ 31 → state_wf m → m (tx_GetHash tx) = None → step h m tx us m' →
  (first = true → no_inputs tx = Some true) →
  view_ok v → is_cache v = true → near h m' (utxo v) → erase_zerocoins tx db = Passed db' →
  ∃ v', disconnect_tx h tx (if first then None else Some us) true v db = Passed (true, v', db') ∧
    view_ok v' ∧ is_cache v' = true ∧ best_block v' = best_block v ∧ near h m (utxo v').
Proof.
  intros Hh Hm Hfresh [Ho Hi (none & ms & coins & Hno & Hf & Hs & Hu)] Hfirst Hok Hc Hnear Hdb.
  destruct (remove_outputs_near h ms tx coins v) as (v1 & E1 & Hok1 & Hc1 & Hb1 & Hnear1); try done.
  { destruct none; [by destruct Hs as [_ ->]|]. destruct Hs as [Hs _]. by eapply spends_absent. }
  { intros t. rewrite <-Hu. apply Hnear. }
  unfold disconnect_tx. rewrite Hdb, E1, Hno. cbn [defined mbind outcome_bind andb]. destruct none.
  - exists v1. by destruct Hs as [_ ->].
  - destruct first; [specialize (Hfirst eq_refl); congruence|]. cbn [defined mbind outcome_bind]. destruct Hs as [Hs Hmat].
    pose proof (spends_length _ _ _ _ Hs) as Hl. rewrite length_map in Hl. rewrite Hl, Nat.eqb_refl. cbn [negb].
    destruct (restore_inputs_near h m (vin tx) us ms v1) as (v2 & -> & Hok2 & Hc2 & Hb2 & Hnear2); try done.
    exists v2. split_and!; [done..|by rewrite Hb2|done].
Qed.

Lemma zip_cons {A B} (a : A) (b : B) l k : zip (a :: l) (b :: k) = (a, b) :: zip l k.
Proof. done. Qed.

Lemma disconnect_txs_app h l1 l2 b v db :
  disconnect_txs h (l1 ++ l2) b v db = '(b', v', db') ← disconnect_txs h l1 b v db; disconnect_txs h l2 b' v' db'.
Proof.
  revert b v db. induction l1 as [|[tx u] l1 IH]; intros b v db; [done|]. cbn [app disconnect_txs].
  destruct (disconnect_tx h tx u b v db) as [| |[[b' v'] db']]; [done..|]. cbn [mbind outcome_bind]. apply IH.
Qed.

(** The zerocoin entries of a list of transactions are erased. *)
Fixpoint erase_txs (db : CZerocoinDB) (l : list CMutableTransaction) : outcome CZerocoinDB :=
  match l with [] => Passed db | tx :: l => db ← erase_zerocoins tx db; erase_txs db l end.
Lemma erase_txs_app db l1 l2 : erase_txs db (l1 ++ l2) = db1 ← erase_txs db l1; erase_txs db1 l2.
Proof.
  revert db. induction l1 as [|tx l1 IH]; intros db; cbn [app erase_txs]; [done|].
  destruct (erase_zerocoins tx db); [done..|]. apply IH.
Qed.
Lemma erase_txs_snoc db l tx db' :
  erase_txs db (l ++ [tx]) = Passed db' → ∃ db1, erase_txs db l = Passed db1 ∧ erase_zerocoins tx db1 = Passed db'.
Proof. rewrite erase_txs_app. intros Hp. passed Hp. cbn [erase_txs] in Hp. passed Hp. injection Hp as <-. by exists r. Qed.

(** The transactions have ids of their own that are not in the database. *)
Definition fresh_ids (m : state) (l : list CMutableTransaction) : Prop :=
  NoDup (map tx_GetHash l) ∧ Forall (λ tx, m (tx_GetHash tx) = None) l.

Lemma fresh_ids_step h m tx us m' l :
  0 < h < 2 ^ 31 → state_wf m → step h m tx us m' → fresh_ids m (tx :: l) → fresh_ids m' l.
Proof.
  intros Hh Hm Hs [[Hn Hd]%NoDup_cons [_ Hf]%Forall_cons]. split; [done|]. rewrite Forall_forall in *. intros tx' Hin.
  destruct (step_forward h m tx us m' Hh Hm Hs) as [_ Hnone]. apply Hnone; [|by apply Hf].
  intros E. apply Hn. rewrite <-E. by apply list_elem_of_fmap_2.
Qed.

(** The undo records of the loop and what they undo. *)
Lemma connect_disconnect heightOf fV fS th h txs s s' (first : bool) :
  0 < h < 2 ^ 31 → 0 < nMaturity Params → heightOf (best_block (cs_view s)) = Some (h - 1) →
  Forall tx_ok txs → fresh_ids (utxo (cs_view s)) txs →
  (first = true → ∀ tx, head txs = Some tx → no_inputs tx = Some true) →
  view_ok (cs_view s) → is_cache (cs_view s) = true → state_wf (utxo (cs_view s)) →
  connect_txs Params heightOf fV fS th h first txs s = Passed s' →
  view_ok (cs_view s') ∧ is_cache (cs_view s') = true ∧ best_block (cs_view s') = best_block (cs_view s) ∧
  state_wf (utxo (cs_view s')) ∧
  ∃ us, cs_undo s' = cs_undo s ++ us ∧ length us = (if first then length (tail txs) else length txs) ∧
    ∀ v db db', view_ok v → is_cache v = true → near h (utxo (cs_view s')) (utxo v) → erase_txs db (rev txs) = Passed db' →
    ∃ v', disconnect_txs h (rev (zip txs (if first then None :: map Some us else map Some us))) true v db = Passed (true, v', db') ∧
      view_ok v' ∧ is_cache v' = true ∧ best_block v' = best_block v ∧ near h (utxo (cs_view s)) (utxo v').
Proof.
  intros Hh Hmat Hhp Htx. revert s first Hhp. induction Htx as [|tx txs Htx _ IH]; intros s first Hhp Hfresh Hfirst Hok Hc Hwf;
    cbn [connect_txs].
  { intros [= <-]. split_and!; [done..|]. exists []. rewrite app_nil_r. split_and!; [done|by destruct first|].
    intros v db db' ? ? ? [= <-]. exists v. by destruct first. }
  intros Hp. passed Hp. rename r into s1, E into E1.
  destruct (connect_tx_step _ _ _ _ _ _ _ _ _ Htx Hh Hmat Hhp Hok E1) as (u & Hstep & Eu & Hok1 & Hc1 & Hb1).
  destruct (step_forward _ _ _ _ _ Hh Hwf Hstep) as [Hwf1 _].
  destruct (IH s1 false ltac:(by rewrite Hb1) (fresh_ids_step _ _ _ _ _ _ Hh Hwf Hstep Hfresh) ltac:(done) Hok1 Hc1 Hwf1 Hp)
    as (Hok' & Hc' & Hb' & Hwf' & us & Eus & Hlen & Hdis).
  split_and!; [done..|by rewrite Hb'|done|]. exists (if first then us else u :: us). split_and!.
  - rewrite Eus, Eu. destruct first; [done|]. by rewrite <-app_assoc.
  - destruct first; simpl; lia.
  - intros v db db' Hokv Hcv Hnear Hdb. cbn [rev] in Hdb. apply erase_txs_snoc in Hdb as (db1 & Hdb1 & Hdb).
    destruct (Hdis v db db1 Hokv Hcv Hnear Hdb1) as (v1 & E & Hokv1 & Hcv1 & Hbv1 & Hnear1).
    destruct (disconnect_step h _ tx u _ v1 first db1 db' Hh Hwf ltac:(by destruct Hfresh as [_ [? _]%Forall_cons]) Hstep)
      as (v2 & E2 & ? & ? & Hb2 & ?); [|done..|].
    { intros ->. by apply Hfirst. }
    exists v2. split_and!; [|done..|by rewrite Hb2|done].
    destruct first; cbn [map]; rewrite zip_cons; cbn [rev]; rewrite disconnect_txs_app, E;
      cbn [mbind outcome_bind disconnect_txs]; by rewrite E2.
Qed.

(** ** Properties *)

Lemma SetBestBlock_spec v b :
  is_cache v = true → view_ok v →
  view_ok (SetBestBlock v b) ∧ is_cache (SetBestBlock v b) = true ∧ (∀ t, utxo (SetBestBlock v b) t = utxo v t) ∧
  (uint256_IsNull b = false → best_block (SetBestBlock v b) = b).
Proof. destruct v; [done|]. intros _ Hok. split_and!; [done..|]. simpl. by intros ->. Qed.

(** Disconnecting the transactions of a block after connecting them. *)
Lemma connect_disconnect_block heightOf fV fS th h vtx v s blockHash db db' :
  0 < h < 2 ^ 31 → 0 < nMaturity Params → heightOf (best_block v) = Some (h - 1) →
  vtx ≠ [] → Forall tx_ok vtx → fresh_ids (utxo v) vtx → (∀ tx, head vtx = Some tx → no_inputs tx = Some true) →
  uint256_IsNull (best_block v) = false → uint256_IsNull blockHash = false →
  view_ok v → is_cache v = true → state_wf (utxo v) →
  connect_txs Params heightOf fV fS th h true vtx (ConnectState v [] 0 0 0 0 [] [] []) = Passed s → erase_txs db (rev vtx) = Passed db' →
  ∀ fV' cp cp' acc, checkpoint_values fV' cp cp' (db_accumulators db') = Passed acc →
  best_block (SetBestBlock (cs_view s) blockHash) = blockHash ∧
  ∃ v', DisconnectBlock fV' vtx (cs_undo s) blockHash (best_block v) h cp cp' (SetBestBlock (cs_view s) blockHash) db = Passed (true, v', set_accumulators db' acc) ∧
    view_ok v' ∧ best_block v' = best_block v ∧ near h (utxo v) (utxo v').
Proof.
  intros Hh Hmat Hhp Hne Htx Hfresh Hfirst Hn1 Hn2 Hok Hc Hwf Hp Hdb fV' cp cp' acc Hacc.
  apply connect_disconnect in Hp as (Hok1 & Hc1 & Hb1 & _ & us & Eus & Hlen & Hdis); try done.
  cbn [cs_view cs_undo app] in *. destruct (SetBestBlock_spec (cs_view s) blockHash Hc1 Hok1) as (Hok2 & Hc2 & Hu2 & Hb2).
  split; [by apply Hb2|]. unfold DisconnectBlock. pose proof (GetBestBlock_spec (SetBestBlock (cs_view s) blockHash)) as HG.
  destruct (GetBestBlock _) as [best v2] eqn:Eg. destruct HG as [-> Hs]. rewrite Hb2 by done.
  rewrite bool_decide_true by done. cbn [negb]. assert (v2 = SetBestBlock (cs_view s) blockHash) as ->.
  { destruct (cs_view s); [done|]. simpl in Eg. rewrite Hn2 in Eg. by simplify_eq. }
  assert (length (cs_undo s) + 1 = length vtx)%nat as El.
  { rewrite Eus, Hlen. destruct vtx; [done|]. simpl. lia. }
  rewrite El, Nat.eqb_refl. cbn [negb].
  destruct (Hdis _ db db' Hok2 Hc2) as (v3 & E3 & Hok3 & Hc3 & Hb3 & Hnear); [intros t; left; apply Hu2|done|].
  rewrite Eus, E3. cbn [mbind outcome_bind]. rewrite Hacc. cbn [mbind outcome_bind]. destruct (SetBestBlock_spec v3 (best_block v) Hc3 Hok3) as (Hok4 & _ & Hu4 & Hb4).
  eexists. split_and!; [done..|by apply Hb4|]. intros t. rewrite Hu4. apply Hnear.
Qed.

(** [DisconnectBlock] does not restore the coinstake flag.  When the last output
    of an entry is spent, the entry and its flags go to the undo record; restoring
    it reports success but leaves an entry that no longer counts as a coinstake,
    so that the maturity rule of [CheckInputs] no longer applies to it. *)
Theorem restore_loses_coinstake v out c u v1 :
  view_ok v → is_cache v = true → utxo v (op_hash out) = Some c → entry_wf c → 0 ≤ op_n out →
  fCoinStake c = true → spend_input v out = Some (u, v1) → utxo v1 (op_hash out) = None →
  undo_fCoinStake u = true ∧
  ∃ v2, restore_input v1 out u = Some (true, v2) ∧ utxo v2 (op_hash out) = Some (stakeless c) ∧ stakeless c ≠ c.
Proof.
  intros Hok Hc Hu Hwf Hn Hst Hsp Hnone. pose proof (spend_input_spec v out Hok Hc) as Hs. rewrite Hu in Hs.
  cbn [mbind option_bind] in Hs. destruct (Spend c (op_n out)) as [[u' c']|] eqn:Es; [|congruence].
  destruct Hs as (v1' & E & Hok1 & Hc1 & _ & Hu1). rewrite Hsp in E. injection E as <- <-.
  rewrite Hu1 in Hnone. unfold upd in Hnone. rewrite decide_True in Hnone by done. apply norm_None in Hnone.
  assert (undo_fCoinStake u = true) as Hus.
  { pose proof (Spend_wf _ _ _ _ Hwf Es) as Hwf'. apply Spend_Some in Es as (o & _ & _ & _ & ->).
    apply IsPruned_nil in Hnone; [|apply Hwf']. by rewrite Hnone. }
  split; [done|].
  destruct (ModifyCoins_upd v1 (op_hash out) (restore_coins (op_n out) u) Hok1 Hc1) as (c0 & v2 & H0 & E2 & _ & _ & _ & Hu2).
  exists v2. unfold restore_input. rewrite E2. cbn [mbind option_bind].
  rewrite Hu1 in H0. unfold upd in H0. rewrite decide_True in H0 by done. rewrite (proj2 (norm_None c') Hnone) in H0.
  pose proof (restore_spend c (op_n out) u c' c0 false Hwf Hn Es) as Er. rewrite Hnone in Er.
  rewrite Er in * by (split; [by apply norm_None|done]). clear Er.
  cbn [fst snd mbind option_bind] in *. split_and!; [done| |intros Ec; by rewrite <-Ec in Hst].
  rewrite Hu2. unfold upd. rewrite decide_True by done. rewrite entry_wf_Cleanup by (by destruct Hwf).
  apply norm_unpruned. unfold utxo in Hu. destruct (coins_at v _); [|done]. by apply norm_Some in Hu as [-> ?].
Qed.
End block.

Section assertions.
Context `{HF : HashFunctions}.

(** An output that [Spend] accepts. *)
Definition has_output (m : state) (out : COutPoint) : Prop :=
  ∃ c, m (op_hash out) = Some c ∧ fAvail (coins_vout c) (Z.to_nat (op_n out)) = true.

Lemma Spend_fAvail c n : is_Some (Spend c n) ↔ fAvail (coins_vout c) (Z.to_nat n) = true.
Proof.
  unfold Spend, fAvail. destruct (coins_vout c !! Z.to_nat n) as [o|]; cbn [mbind option_bind]; [|by rewrite is_Some_alt].
  destruct (CTxOut_IsNull o); [by rewrite is_Some_alt|]. split; [done|]. by eexists.
Qed.

Lemma has_output_spend m out c u c' out' :
  0 ≤ op_n out → 0 ≤ op_n out' → m (op_hash out) = Some c → Spend c (op_n out) = Some (u, c') →
  has_output (upd m (op_hash out) (norm c')) out' ↔ has_output m out' ∧ out' ≠ out.
Proof.
  intros Hn Hn' Hm Hs. unfold has_output, upd. case_decide as Eh.
  - rewrite Eh, Hm. assert (∀ k, fAvail (coins_vout c') k = true ↔ fAvail (coins_vout c) k = true ∧ k ≠ Z.to_nat (op_n out)) as Hf.
    { intros k. apply Spend_Some in Hs as (o & Ho & _ & -> & _). cbn [Cleanup with_vout coins_vout]. rewrite fAvail_cleanup.
      unfold fAvail. destruct (decide (k = Z.to_nat (op_n out))) as [->|Hk].
      - rewrite list_lookup_insert_eq by (by eapply lookup_lt_Some). simpl. split; [done|by intros [_ ?]].
      - rewrite list_lookup_insert_ne by done. tauto. }
    split.
    + intros (c1 & [-> _]%norm_Some & Ha). apply Hf in Ha as [Ha Hk]. split; [by exists c|]. intros ->. done.
    + intros ((c1 & [= <-] & Ha) & Hne). exists c'. assert (fAvail (coins_vout c') (Z.to_nat (op_n out')) = true) as Ha'.
      { apply Hf. split; [done|]. intros Ek. apply Hne. destruct out, out'. simpl in *. f_equal; [done|lia]. }
      split; [|done]. apply norm_unpruned. destruct (IsPruned c') eqn:Ep; [|done].
      apply Spend_fAvail in Ha' as [x Hx]. by rewrite Spend_pruned in Hx.
  - split; [|tauto]. intros H. split; [done|]. intros ->. done.
Qed.

Lemma spend_inputs_defined v l :
  view_ok v → is_cache v = true → Forall (λ i, 0 ≤ op_n (prevout i)) l →
  is_Some (spend_inputs v l) ↔ Forall (λ i, has_output (utxo v) (prevout i)) l ∧ NoDup (map prevout l).
Proof.
  intros Hok Hc Hn. revert v Hok Hc. induction Hn as [|i l Hi Hl IH]; intros v Hok Hc; cbn [spend_inputs map].
  { split; [|by eexists]. intros _. split; [done|constructor]. }
  pose proof (spend_input_spec v (prevout i) Hok Hc) as Hs. rewrite Forall_cons, NoDup_cons. unfold has_output at 1.
  destruct (utxo v (op_hash (prevout i))) as [c|] eqn:Ec; cbn [mbind option_bind] in Hs.
  2: { rewrite Hs. split; [by intros [? [=]]|]. by intros (((? & [=] & _) & _) & _). }
  destruct (Spend c (op_n (prevout i))) as [[u c']|] eqn:Es.
  2: { rewrite Hs. split; [by intros [? [=]]|]. intros (((? & [= <-] & [? Ha]%Spend_fAvail) & _) & _). congruence. }
  destruct Hs as (v1 & -> & Hok1 & Hc1 & _ & Hu). cbn [mbind option_bind].
  assert (is_Some ('(us, v) ← spend_inputs v1 l; Some (u :: us, v)) ↔ is_Some (spend_inputs v1 l)) as ->.
  { destruct (spend_inputs v1 l) as [[us v2]|]; [|done]. split; intros _; by eexists. }
  rewrite IH by done. assert (∀ out, 0 ≤ op_n out → has_output (utxo v1) out ↔ has_output (utxo v) out ∧ out ≠ prevout i) as Ho.
  { intros out Hout. rewrite <-(has_output_spend (utxo v) (prevout i) c u c' out) by done. unfold has_output. by rewrite Hu. }
  assert (Forall (λ j, has_output (utxo v1) (prevout j)) l ↔
          Forall (λ j, has_output (utxo v) (prevout j)) l ∧ prevout i ∉ map prevout l) as ->.
  { rewrite !Forall_forall in *. setoid_rewrite list_elem_of_fmap. split.
    - intros H. split; [intros j Hj; by apply Ho; auto|]. intros (j & Ej & Hj). destruct (proj1 (Ho _ (Hl j Hj)) (H j Hj)). congruence.
    - intros [H Hx] j Hj. apply Ho; [auto|]. split; [auto|]. intros Ej. apply Hx. by exists j. }
  assert (∃ c0, Some c = Some c0 ∧ fAvail (coins_vout c0) (Z.to_nat (op_n (prevout i))) = true) as Hx.
  { exists c. split; [done|]. apply Spend_fAvail. by eexists. }
  tauto.
Qed.

(** C37: [UpdateCoins] of a transaction that spends coins passes its assertions
    exactly if the outputs it spends exist and are pairwise distinct.
    [CheckTransaction] tests the second condition, but not for inputs whose script
    begins with OP_ZEROCOINSPEND. *)
Theorem UpdateCoins_defined tx v h :
  view_ok v → is_cache v = true → Forall (λ i, 0 ≤ op_n (prevout i)) (vin tx) → no_inputs tx = Some false →
  is_Some (UpdateCoins tx v h) ↔
  Forall (λ i, has_output (utxo v) (prevout i)) (vin tx) ∧ NoDup (map prevout (vin tx)).
Proof.
  intros Hok Hc Hn Hno. rewrite <-spend_inputs_defined by done. unfold UpdateCoins. rewrite Hno. cbn [mbind option_bind].
  destruct (spend_inputs v (vin tx)) as [[us v1]|] eqn:E; [|done]. split; [by eexists|intros _]. cbn [mbind option_bind].
  apply spend_inputs_spec in E as (Hok1 & Hc1 & _); [|done..].
  assert (is_Some (FromTx tx h)) as [coins ->].
  { unfold no_inputs, FromTx in *. destruct (IsCoinBase tx); [by eexists|done]. }
  cbn [mbind option_bind].
  destruct (ModifyCoins_upd v1 (tx_GetHash tx) (λ _, (tt, coins)) Hok1 Hc1) as (c0 & v2 & _ & -> & _). by eexists.
Qed.
End assertions.

(** * Examples *)

(** A coinbase, and a transaction that spends one of the two outputs. *)
Definition example_block : list CMutableTransaction :=
  [MTx 1 [TxIn (OutPoint uint256_null (2 ^ 32 - 1)) [1; 2] SEQUENCE_FINAL []] [TxOut 50 [OP_1] (-10)] 0;
   MTx 1 [TxIn (OutPoint two_txid 0) [] SEQUENCE_FINAL []] [TxOut 5 [OP_1] (-10)] 0].
Definition example_hashes : HashFunctions := {| RIPEMD160 := take 20; SHA1 := take 20; SHA256 := take 32 |}.

Lemma two_view_ok : view_ok two_view.
Proof. apply view_ok_new. apply map_Forall_singleton. reflexivity. Qed.

Lemma two_view_utxo t : utxo two_view t = if decide (t = two_txid) then Some two_coins else None.
Proof.
  unfold two_view. rewrite utxo_new. unfold utxo. cbn [coins_at]. case_decide as E.
  - by rewrite E, lookup_singleton_eq.
  - by rewrite lookup_singleton_ne by congruence.
Qed.

Lemma two_coins_wf : entry_wf two_coins.
Proof.
  split; cbn [two_coins coins_vout coins_nHeight]; [|apply (cleanup_is_clean (coins_vout two_coins))|lia|simpl; lia].
  by repeat constructor.
Qed.

Lemma two_view_wf : state_wf (utxo two_view).
Proof. intros t c. rewrite two_view_utxo. case_decide; [|done]. intros [= <-]. split; [apply two_coins_wf|done]. Qed.

Lemma example_fresh : @fresh_ids example_hashes (utxo two_view) example_block.
Proof.
  split.
  - apply (bool_decide_unpack (NoDup (map (@tx_GetHash example_hashes) example_block))). vm_compute. exact I.
  - apply Forall_forall. intros tx Htx. rewrite two_view_utxo.
    assert (bool_decide (@tx_GetHash example_hashes tx = two_txid) = false) as E; [|by apply bool_decide_eq_false in E; rewrite decide_False].
    repeat (apply elem_of_cons in Htx as [->|Htx]; [vm_compute; reflexivity|]). by apply not_elem_of_nil in Htx.
Qed.

(** A coinstake of height 150, and what spends it. *)
Definition stake_coins : CCoins := Coins false true [TxOut 5 [OP_1] (-10)] 150 1.
Definition stake_view : CCoinsView :=
  CCoinsViewCache uint256_null ∅ (CCoinsViewDB {[ two_txid := stake_coins ]} two_txid).

Lemma restore_loses_coinstake_witness :
  match spend_input stake_view (OutPoint two_txid 0) with
  | Some (u, v1) =>
      match restore_input v1 (OutPoint two_txid 0) u with
      | Some (_, v2) => utxo v2 two_txid = Some (stakeless stake_coins)
      | None => False
      end
  | None => False
  end.
Proof.
  destruct (spend_input stake_view (OutPoint two_txid 0)) as [[u v1]|] eqn:E; [|by vm_compute in E].
  destruct (restore_loses_coinstake stake_view (OutPoint two_txid 0) stake_coins u v1) as (_ & v2 & E2 & Hu & _); try done.
  - apply view_ok_new. apply map_Forall_singleton. reflexivity.
  - split; cbn [stake_coins coins_vout coins_nHeight]; [by repeat constructor|apply (cleanup_is_clean (coins_vout stake_coins))|lia|simpl; lia].
  - vm_compute in E. injection E as <- <-. by vm_compute.
  - rewrite E2. exact Hu.
Defined.

(** The same output twice, by inputs that look like zerocoin spends. *)
Definition double_tx : CMutableTransaction :=
  MTx 1 [TxIn (OutPoint two_txid 0) [OP_ZEROCOINSPEND] SEQUENCE_FINAL []; TxIn (OutPoint two_txid 0) [OP_ZEROCOINSPEND] SEQUENCE_FINAL []]
    [TxOut 10 [OP_1] (-10)] 0.

Lemma UpdateCoins_defined_witness :
  @CheckTransaction mainParams no_zerocoin double_tx true = Passed tt ∧
  match HaveInputs two_view double_tx with Some (b, _) => b = true | None => False end ∧
  UpdateCoins double_tx two_view 200 = None.
Proof.
  split_and!; [by vm_compute..|]. apply eq_None_not_Some. intros H.
  apply (UpdateCoins_defined double_tx two_view 200) in H as [_ H]; [|apply two_view_ok|done|by repeat constructor|by vm_compute].
  apply (bool_decide_pack (NoDup (map prevout (vin double_tx)))) in H. by vm_compute in H.
Defined.
