(* ===== verification/Merkle.v ===== *)
(** primitives/block.cpp (the merkle tree of a block and its branches) and
    merkleblock.h, merkleblock.cpp (partial merkle trees).

    Sizes are those of a block, far from the limits of [int]; [None] is an access
    out of range, and also a loop that ran out of its bound, which MerkleFacts.v
    excludes. *)

From S2P Require Import Prelude Interpreter Serialize Transaction CoinsView Validation.

Section merkle.
Context `{HashFunctions}.

(** [Hash(BEGIN(a), END(a), BEGIN(b), END(b))] *)
Definition Hash2 (a b : uint256) : uint256 := Hash256 (a ++ b).

(** * [CBlock] *)

(** [for (int i = 0; i < nSize; i += 2)] of [BuildMerkleTree]. *)
Fixpoint merkle_pairs (fuel j nSize i : nat) (vMerkleTree : list uint256) (mutated : bool) : option (list uint256 * bool) :=
  if (i <? nSize)%nat then
    match fuel with
    | O => None
    | S fuel =>
        let i2 := Nat.min (i + 1) (nSize - 1) in
        a ← vMerkleTree !! (j + i)%nat;
        b ← vMerkleTree !! (j + i2)%nat;
        let mutated := if (i2 =? i + 1)%nat && (i2 + 1 =? nSize)%nat && bool_decide (a = b) then true else mutated in
        merkle_pairs fuel j nSize (i + 2) (vMerkleTree ++ [Hash2 a b]) mutated
    end
  else Some (vMerkleTree, mutated).

(** [for (int nSize = vtx.size(); nSize > 1; nSize = (nSize + 1) / 2)] *)
Fixpoint merkle_levels (fuel j nSize : nat) (vMerkleTree : list uint256) (mutated : bool) : option (list uint256 * bool) :=
  if (1 <? nSize)%nat then
    match fuel with
    | O => None
    | S fuel =>
        '(vMerkleTree, mutated) ← merkle_pairs nSize j nSize 0 vMerkleTree mutated;
        merkle_levels fuel (j + nSize) ((nSize + 1) / 2) vMerkleTree mutated
    end
  else Some (vMerkleTree, mutated).

(** [BuildMerkleTree]: [vMerkleTree], the returned root and [fMutated]. *)
Definition BuildMerkleTree (vtx : list CMutableTransaction) : option (list uint256 * uint256 * bool) :=
  let leaves := map tx_GetHash vtx in
  '(vMerkleTree, mutated) ← merkle_levels (length leaves) 0 (length leaves) leaves false;
  Some (vMerkleTree, default uint256_null (last vMerkleTree), mutated).

(** The loop of [GetMerkleBranch]. *)
Fixpoint branch_loop (fuel : nat) (vMerkleTree : list uint256) (nIndex : Z) (j nSize : nat) : option (list uint256) :=
  if (1 <? nSize)%nat then
    match fuel with
    | O => None
    | S fuel =>
        let i := Z.min (Z.lxor nIndex 1) (Z.of_nat nSize - 1) in
        if i <? 0 then None
        else
          h ← vMerkleTree !! (j + Z.to_nat i)%nat;
          r ← branch_loop fuel vMerkleTree (nIndex ≫ 1) (j + nSize) ((nSize + 1) / 2);
          Some (h :: r)
    end
  else Some [].
(** [vMerkleTree] is the member, which an earlier call may have filled. *)
Definition GetMerkleBranch (vtx : list CMutableTransaction) (vMerkleTree : list uint256) (nIndex : Z) : option (list uint256) :=
  vMerkleTree ← match vMerkleTree with
                | [] => '(vMerkleTree, _, _) ← BuildMerkleTree vtx; Some vMerkleTree
                | _ => Some vMerkleTree
                end;
  branch_loop (length vtx) vMerkleTree nIndex 0 (length vtx).

Fixpoint check_branch (hash : uint256) (vMerkleBranch : list uint256) (nIndex : Z) : uint256 :=
  match vMerkleBranch with
  | [] => hash
  | it :: l => check_branch (if Z.odd nIndex then Hash2 it hash else Hash2 hash it) l (nIndex ≫ 1)
  end.
Definition CheckMerkleBranch (hash : uint256) (vMerkleBranch : list uint256) (nIndex : Z) : uint256 :=
  if nIndex =? -1 then uint256_null else check_branch hash vMerkleBranch nIndex.

(** * [CPartialMerkleTree] *)

Record CPartialMerkleTree := PartialMerkleTree {
  nTransactions : nat;
  vBits : list bool;
  vHash : list uint256;
  fBad : bool;
}.

Definition CalcTreeWidth (nTransactions height : nat) : nat := Nat.shiftr (nTransactions + Nat.shiftl 1 height - 1) height.

Fixpoint CalcHash (height pos : nat) (vTxid : list uint256) : option uint256 :=
  match height with
  | O => vTxid !! pos
  | S height =>
      hleft ← CalcHash height (pos * 2) vTxid;
      hright ← (if (pos * 2 + 1 <? CalcTreeWidth (length vTxid) height)%nat
               then CalcHash height (pos * 2 + 1) vTxid else Some hleft);
      Some (Hash2 hleft hright)
  end.

(** [for (p = pos << height; p < (pos + 1) << height && p < nTransactions; p++)
    fParentOfMatch |= vMatch[p]]; a read past the end of [vMatch] is undefined. *)
Definition ParentOfMatch (nTransactions height pos : nat) (vMatch : list bool) : option bool :=
  foldl (λ acc p, fParentOfMatch ← acc;
           if (p <? nTransactions)%nat then m ← vMatch !! p; Some (fParentOfMatch || m) else Some fParentOfMatch)
    (Some false) (seq (Nat.shiftl pos height) (Nat.shiftl 1 height)).

(** The bits and hashes that are appended. *)
Fixpoint TraverseAndBuild (height pos : nat) (vTxid : list uint256) (vMatch : list bool) : option (list bool * list uint256) :=
  fParentOfMatch ← ParentOfMatch (length vTxid) height pos vMatch;
  match height with
  | O => h ← CalcHash O pos vTxid; Some ([fParentOfMatch], [h])
  | S height' =>
      if negb fParentOfMatch then h ← CalcHash height pos vTxid; Some ([fParentOfMatch], [h])
      else
        '(b1, h1) ← TraverseAndBuild height' (pos * 2) vTxid vMatch;
        '(b2, h2) ← (if (pos * 2 + 1 <? CalcTreeWidth (length vTxid) height')%nat
                     then TraverseAndBuild height' (pos * 2 + 1) vTxid vMatch else Some ([], []));
        Some (fParentOfMatch :: b1 ++ b2, h1 ++ h2)
  end.

(** [while (CalcTreeWidth(nHeight) > 1) nHeight++] *)
Fixpoint tree_height (fuel nTransactions nHeight : nat) : nat :=
  match fuel with
  | O => nHeight
  | S fuel => if (1 <? CalcTreeWidth nTransactions nHeight)%nat then tree_height fuel nTransactions (S nHeight) else nHeight
  end.

Definition CPartialMerkleTree_of (vTxid : list uint256) (vMatch : list bool) : option CPartialMerkleTree :=
  '(bits, hashes) ← TraverseAndBuild (tree_height 32 (length vTxid) 0) 0 vTxid vMatch;
  Some (PartialMerkleTree (length vTxid) bits hashes false).

(** The variables [TraverseAndExtract] changes. *)
Record extract_state := ExtractState { nBitsUsed : nat; nHashUsed : nat; xMatch : list uint256; xBad : bool }.

Fixpoint TraverseAndExtract (t : CPartialMerkleTree) (height pos : nat) (s : extract_state) : uint256 * extract_state :=
  match vBits t !! nBitsUsed s with
  | None => (uint256_null, ExtractState (nBitsUsed s) (nHashUsed s) (xMatch s) true)
  | Some fParentOfMatch =>
      let s := ExtractState (S (nBitsUsed s)) (nHashUsed s) (xMatch s) (xBad s) in
      let stored :=
        match vHash t !! nHashUsed s with
        | None => (uint256_null, ExtractState (nBitsUsed s) (nHashUsed s) (xMatch s) true)
        | Some hash =>
            (hash, ExtractState (nBitsUsed s) (S (nHashUsed s))
                     (if (height =? 0)%nat && fParentOfMatch then xMatch s ++ [hash] else xMatch s) (xBad s))
        end in
      match height with
      | O => stored
      | S height' =>
          if negb fParentOfMatch then stored
          else
            let '(hleft, s) := TraverseAndExtract t height' (pos * 2) s in
            let '(hright, s) := if (pos * 2 + 1 <? CalcTreeWidth (nTransactions t) height')%nat
                               then TraverseAndExtract t height' (pos * 2 + 1) s else (hleft, s) in
            (Hash2 hleft hright, s)
      end
  end.

(** [ExtractMatches]: the root, null in case of failure, and [vMatch]. *)
Definition ExtractMatches (t : CPartialMerkleTree) : uint256 * list uint256 :=
  if (nTransactions t =? 0)%nat then (uint256_null, [])
  else if MAX_BLOCK_SIZE_CURRENT `div` 60 <? Z.of_nat (nTransactions t) then (uint256_null, [])
  else if (nTransactions t <? length (vHash t))%nat then (uint256_null, [])
  else if (length (vBits t) <? length (vHash t))%nat then (uint256_null, [])
  else
    let '(hashMerkleRoot, s) :=
      TraverseAndExtract t (tree_height 32 (nTransactions t) 0) 0 (ExtractState 0 0 [] (fBad t)) in
    if xBad s then (uint256_null, xMatch s)
    else if negb ((nBitsUsed s + 7) / 8 =? (length (vBits t) + 7) / 8)%nat then (uint256_null, xMatch s)
    else if negb (nHashUsed s =? length (vHash t))%nat then (uint256_null, xMatch s)
    else (hashMerkleRoot, xMatch s).

(** [SerializationOp]: the bits are packed into bytes, least significant first. *)
Definition pack_byte (bits : list bool) (b : nat) : Z :=
  foldl (λ byte i, Z.lor byte (if default false (bits !! (b * 8 + i)%nat) then 1 ≪ Z.of_nat i else 0)) 0 (seq 0 8).
Definition Serialize_partial (t : CPartialMerkleTree) : list Z :=
  Serialize_uint 4 (Z.of_nat (nTransactions t)) ++
  Serialize_vector Serialize_blob (vHash t) ++
  Serialize_bytes (map (pack_byte (vBits t)) (seq 0 ((length (vBits t) + 7) / 8))).

Definition unpack_bits (vBytes : list Z) : list bool :=
  map (λ p, negb (Z.land (nth (p / 8) vBytes 0) (1 ≪ Z.of_nat (p mod 8)) =? 0)) (seq 0 (length vBytes * 8)).
Definition Unserialize_partial : decoder CPartialMerkleTree :=
  n ← Unserialize_uint 4;
  hashes ← Unserialize_vector (Unserialize_blob 32);
  vBytes ← Unserialize_bytes;
  mret (PartialMerkleTree (Z.to_nat n) (unpack_bits vBytes) hashes false).

End merkle.
