(* ===== verification/MerkleFacts.v ===== *)
(** The merkle tree of a block against its definition by levels, the branches,
    what a root commits to, and partial merkle trees. *)

From S2P Require Import Prelude Interpreter InterpreterFacts HmacFacts Serialize SerializeFacts Transaction TransactionFacts CoinsView Validation Merkle.

(** Induction on a list two elements at a time. *)
Lemma pairs_ind {A} (P : list A → Prop) :
  P [] → (∀ a, P [a]) → (∀ a b l, P l → P (a :: b :: l)) → ∀ l, P l.
Proof.
  intros H0 H1 H2 l. assert (P l ∧ ∀ a, P (a :: l)) as []; [|done].
  induction l as [|b l [IH1 IH2]]; [by auto|]. split; auto.
Qed.

Section merkle.
Context `{HF : HashFunctions}.

(** * The tree by levels *)

Fixpoint next_level (l : list uint256) : list uint256 :=
  match l with
  | a :: b :: l => Hash2 a b :: next_level l
  | [a] => [Hash2 a a]
  | [] => []
  end.

(** Two equal hashes at the end of a level. *)
Fixpoint last_dup (l : list uint256) : bool :=
  match l with
  | [a; b] => bool_decide (a = b)
  | _ :: _ :: l => last_dup l
  | _ => false
  end.

Fixpoint levels (fuel : nat) (l : list uint256) : list (list uint256) :=
  l :: match fuel with
       | O => []
       | S fuel => if (1 <? length l)%nat then levels fuel (next_level l) else []
       end.
Definition all_levels (l : list uint256) : list (list uint256) := levels (length l) l.

Fixpoint root_of (fuel : nat) (l : list uint256) : uint256 :=
  match fuel with
  | O => default uint256_null (head l)
  | S fuel => if (1 <? length l)%nat then root_of fuel (next_level l) else default uint256_null (head l)
  end.
Definition merkle_root (l : list uint256) : uint256 := root_of (length l) l.

Lemma length_next_level l : length (next_level l) = ((length l + 1) / 2)%nat.
Proof.
  induction l as [|a|a b l IH] using pairs_ind; [done..|]. cbn [next_level length]. rewrite IH.
  replace (S (S (length l)) + 1)%nat with (length l + 1 + 1 * 2)%nat by lia. rewrite Nat.div_add by lia. lia.
Qed.

Lemma half_lt n : (1 < n)%nat → ((n + 1) / 2 < n)%nat.
Proof. intros Hn. apply Nat.Div0.div_lt_upper_bound. lia. Qed.

Lemma half_pos n : (1 < n)%nat → (0 < (n + 1) / 2)%nat.
Proof. intros Hn. apply Nat.div_str_pos. lia. Qed.

Lemma next_level_lookup l p :
  next_level l !! p =
  match l !! (p * 2)%nat, l !! (p * 2 + 1)%nat with
  | Some a, Some b => Some (Hash2 a b)
  | Some a, None => Some (Hash2 a a)
  | None, _ => None
  end.
Proof.
  revert p. induction l as [|a|a b l IH] using pairs_ind; intros p.
  - done.
  - by destruct p as [|p]; simpl; [|destruct p].
  - destruct p as [|p]; [done|]. cbn [next_level]. simpl. by rewrite IH.
Qed.

(** * [BuildMerkleTree] *)

Lemma tree_at (pre a : list uint256) x k rest : k = (length pre + length a)%nat → (pre ++ (a ++ x :: rest)) !! k = Some x.
Proof.
  intros ->. rewrite lookup_app_r by lia. rewrite lookup_app_r by lia.
  by replace (length pre + length a - length pre - length a)%nat with 0%nat by lia.
Qed.

Lemma last_dup_cons x y b : last_dup (x :: y :: b) = if (length b =? 0)%nat then bool_decide (x = y) else last_dup b.
Proof. by destruct b. Qed.

Lemma merkle_pairs_done fuel j n i t m : (n ≤ i)%nat → merkle_pairs fuel j n i t m = Some (t, m).
Proof. intros Hi. destruct fuel; cbn [merkle_pairs]; by rewrite (proj2 (Nat.ltb_ge _ _)) by lia. Qed.

(** The pairs of a level [a ++ b] from its part [b] on; [acc] is what was appended
    for [a]. *)
Lemma merkle_pairs_spec pre a b acc fuel m :
  (length b ≤ fuel)%nat →
  merkle_pairs fuel (length pre) (length a + length b) (length a) (pre ++ (a ++ b ++ acc)) m =
  Some (pre ++ (a ++ b ++ acc ++ next_level b), m || last_dup b).
Proof.
  revert a acc fuel m. induction b as [|x|x y b IH] using pairs_ind; intros a acc fuel m Hf.
  - rewrite merkle_pairs_done by (simpl; lia). by rewrite !app_nil_r, orb_false_r.
  - destruct fuel as [|fuel]; [simpl in Hf; lia|]. cbn [merkle_pairs length].
    rewrite (proj2 (Nat.ltb_lt _ _)) by lia. replace (Nat.min (length a + 1) (length a + 1 - 1)) with (length a) by lia.
    cbn [app]. rewrite tree_at by done. cbn [mbind option_bind]. rewrite (proj2 (Nat.eqb_neq _ _)) by lia. cbn [andb].
    rewrite merkle_pairs_done by lia. cbn [next_level last_dup]. by rewrite orb_false_r, <-!app_assoc.
  - destruct fuel as [|fuel]; [simpl in Hf; lia|]. cbn [merkle_pairs length].
    rewrite (proj2 (Nat.ltb_lt _ _)) by lia.
    replace (Nat.min (length a + 1) (length a + S (S (length b)) - 1)) with (length a + 1)%nat by lia.
    cbn [app]. rewrite (tree_at pre a x (length pre + length a)) by done.
    replace ((pre ++ (a ++ x :: y :: b ++ acc)) !! _) with (Some y).
    2: { replace (a ++ x :: y :: b ++ acc) with ((a ++ [x]) ++ y :: b ++ acc) by (by rewrite <-app_assoc).
         symmetry. apply tree_at. rewrite length_app. simpl. lia. }
    cbn [mbind option_bind]. rewrite Nat.eqb_refl. cbn [andb].
    specialize (IH (a ++ [x; y]) (acc ++ [Hash2 x y]) fuel). rewrite length_app in IH. cbn [length] in IH.
    rewrite <-!app_assoc in *. cbn [app] in *. rewrite <-(app_assoc b).
    replace (length a + S (S (length b)))%nat with (length a + 2 + length b)%nat by lia.
    rewrite IH by (simpl in Hf; lia). cbn [next_level]. do 2 f_equal.
    rewrite last_dup_cons. destruct b as [|z b]; cbn [length].
    + rewrite (proj2 (Nat.eqb_eq _ _)) by lia. cbn [Nat.eqb andb last_dup]. rewrite orb_false_r.
      by destruct (bool_decide _), m.
    + rewrite (proj2 (Nat.eqb_neq _ _)) by lia. done.
Qed.

Lemma merkle_levels_spec fuel pre l m :
  (length l ≤ fuel)%nat →
  merkle_levels fuel (length pre) (length l) (pre ++ l) m =
  Some (pre ++ concat (levels fuel l), m || existsb last_dup (levels fuel l)).
Proof.
  revert pre l m. induction fuel as [|fuel IH]; intros pre l m Hf.
  - destruct l; [|simpl in Hf; lia]. simpl. by rewrite orb_false_r.
  - cbn [merkle_levels levels]. case_match eqn:E.
    + apply Nat.ltb_lt in E. pose proof (merkle_pairs_spec pre [] l [] (length l) m (le_n _)) as Hp. cbn [app length] in Hp.
      rewrite app_nil_r in Hp. cbn [Nat.add] in Hp. rewrite Hp. cbn [mbind option_bind].
      rewrite app_assoc, <-length_app, <-length_next_level, IH.
      * cbn [concat existsb]. by rewrite <-!app_assoc, orb_assoc.
      * rewrite length_next_level. pose proof (half_lt (length l) E). lia.
    + simpl. rewrite app_nil_r. do 2 f_equal. apply Nat.ltb_ge in E. destruct l as [|? [|]]; simpl in *; [by rewrite orb_false_r..|lia].
Qed.

Lemma levels_last fuel l :
  (length l ≤ fuel)%nat → l ≠ [] → ∃ ls, levels fuel l = ls ++ [[root_of fuel l]].
Proof.
  revert l. induction fuel as [|fuel IH]; intros l Hf Hl; [destruct l; [done|simpl in Hf; lia]|].
  cbn [levels root_of]. case_match eqn:E.
  - apply Nat.ltb_lt in E. destruct (IH (next_level l)) as [ls ->].
    + rewrite length_next_level. pose proof (half_lt (length l) E). lia.
    + intros En. apply (f_equal length) in En. rewrite length_next_level in En. pose proof (half_pos (length l) E). cbn [length] in En. lia.
    + by exists (l :: ls).
  - exists []. destruct l as [|x [|]]; [done..|]. apply Nat.ltb_ge in E. simpl in E. lia.
Qed.

Lemma BuildMerkleTree_spec vtx :
  BuildMerkleTree vtx = Some (concat (all_levels (map tx_GetHash vtx)), merkle_root (map tx_GetHash vtx),
                              existsb last_dup (all_levels (map tx_GetHash vtx))).
Proof.
  unfold BuildMerkleTree. set (l := map tx_GetHash vtx). pose proof (merkle_levels_spec (length l) [] l false (le_n _)) as Hm.
  cbn [length app] in Hm. rewrite Hm. cbn [mbind option_bind orb]. unfold all_levels, merkle_root. do 3 f_equal.
  destruct (decide (l = [])) as [->|Hl]; [done|]. destruct (levels_last (length l) l (le_n _) Hl) as [ls ->].
  rewrite concat_app. cbn [concat]. rewrite app_nil_r. by rewrite last_snoc.
Qed.

(** * Branches *)

Lemma lxor_even n : Z.odd n = false → Z.lxor n 1 = n + 1.
Proof.
  intros E. symmetry. apply Z.add_nocarry_lxor. change 1 with (Z.ones 1). rewrite Z.land_ones by lia.
  change (2 ^ 1) with 2. rewrite Zmod_odd. by rewrite E.
Qed.

Lemma lxor_1 n : Z.lxor n 1 = if Z.odd n then n - 1 else n + 1.
Proof.
  destruct (Z.odd n) eqn:E; [|by apply lxor_even].
  replace n with (Z.lxor (n - 1) 1) at 1; [by rewrite Z.lxor_assoc, Z.lxor_nilpotent, Z.lxor_0_r|].
  rewrite lxor_even; [lia|]. rewrite Z.odd_sub, E. done.
Qed.

(** A node, its sibling and their parent. *)
Lemma sibling_parent l n x :
  0 ≤ n → (1 < length l)%nat → l !! Z.to_nat n = Some x →
  let i := Z.min (Z.lxor n 1) (Z.of_nat (length l) - 1) in
  0 ≤ i ∧ ∃ y, l !! Z.to_nat i = Some y ∧
    next_level l !! Z.to_nat (n ≫ 1) = Some (if Z.odd n then Hash2 y x else Hash2 x y).
Proof.
  intros Hn Hl Hx i. pose proof (lookup_lt_Some _ _ _ Hx) as Hlt. subst i. rewrite lxor_1, next_level_lookup.
  rewrite Z.shiftr_div_pow2 by lia. change (2 ^ 1) with 2. pose proof (Z.div2_odd n) as E. rewrite Z.div2_div in E.
  destruct (Z.odd n) eqn:Eo; cbn [Z.b2z] in E.
  - rewrite Z.min_l by lia. split; [lia|]. replace (Z.to_nat (n / 2) * 2)%nat with (Z.to_nat (n - 1)) by lia.
    replace (Z.to_nat (n - 1) + 1)%nat with (Z.to_nat n) by lia. rewrite Hx.
    destruct (l !! Z.to_nat (n - 1)) as [y|] eqn:Ey; [|apply lookup_ge_None in Ey; lia]. by exists y.
  - replace (Z.to_nat (n / 2) * 2)%nat with (Z.to_nat n) by lia. replace (Z.to_nat n + 1)%nat with (Z.to_nat (n + 1)) by lia.
    rewrite Hx. destruct (l !! Z.to_nat (n + 1)) as [y|] eqn:Ey.
    + apply lookup_lt_Some in Ey as Hlt'. rewrite Z.min_l by lia. split; [lia|]. by exists y.
    + apply lookup_ge_None in Ey. rewrite Z.min_r by lia. split; [lia|]. exists x. split; [|done].
      by replace (Z.to_nat (Z.of_nat (length l) - 1)) with (Z.to_nat n) by lia.
Qed.

Lemma branch_loop_spec fuel pre l n x :
  (length l ≤ fuel)%nat → 0 ≤ n → l !! Z.to_nat n = Some x →
  ∃ br, branch_loop fuel (pre ++ concat (levels fuel l)) n (length pre) (length l) = Some br ∧
        check_branch x br n = root_of fuel l.
Proof.
  revert pre l n x. induction fuel as [|fuel IH]; intros pre l n x Hf Hn Hx; pose proof (lookup_lt_Some _ _ _ Hx) as Hlt; [lia|].
  cbn [branch_loop levels root_of]. destruct (1 <? length l)%nat eqn:E.
  - apply Nat.ltb_lt in E. destruct (sibling_parent l n x Hn E Hx) as (Hi & y & Hy & Hp).
    rewrite (proj2 (Z.ltb_ge _ _)) by lia. pose proof (lookup_lt_Some _ _ _ Hy) as Hyl. cbn [concat].
    assert ((pre ++ l ++ concat (levels fuel (next_level l))) !!
            (length pre + Z.to_nat (Z.min (Z.lxor n 1) (Z.of_nat (length l) - 1)))%nat = Some y) as ->.
    { rewrite lookup_app_r by lia. rewrite lookup_app_l by lia. rewrite <-Hy. f_equal. lia. }
    cbn [mbind option_bind]. rewrite app_assoc, <-length_app, <-length_next_level.
    destruct (IH (pre ++ l) (next_level l) (n ≫ 1) (if Z.odd n then Hash2 y x else Hash2 x y)) as (br & -> & Hc).
    + rewrite length_next_level. pose proof (half_lt (length l) E). lia.
    + apply Z.shiftr_nonneg. lia.
    + done.
    + cbn [mbind option_bind]. exists (y :: br). split; [done|]. exact Hc.
  - exists []. split; [done|]. apply Nat.ltb_ge in E. destruct l as [|z [|]]; simpl in *; [lia| |lia].
    replace (Z.to_nat n) with 0%nat in Hx by lia. by injection Hx as ->.
Qed.

(** * What a root commits to *)

(** The pairs that are hashed for a level and for a tree. *)
Fixpoint pairs_of (l : list uint256) : list (uint256 * uint256) :=
  match l with
  | a :: b :: l => (a, b) :: pairs_of l
  | [a] => [(a, a)]
  | [] => []
  end.
Definition hashed (l : list uint256) : list (uint256 * uint256) := concat (map pairs_of (all_levels l)).

(** [Hash2] has no collision among the pairs [S]. *)
Definition collision_free (S : list (uint256 * uint256)) : Prop :=
  ∀ p q, p ∈ S → q ∈ S → Hash2 p.1 p.2 = Hash2 q.1 q.2 → p = q.

Lemma next_level_pairs l : next_level l = map (λ p, Hash2 p.1 p.2) (pairs_of l).
Proof. induction l as [|a|a b l IH] using pairs_ind; [done..|]. simpl. by rewrite IH. Qed.

Lemma pairs_of_elem l p : p ∈ pairs_of l → p.1 ∈ l ∧ p.2 ∈ l.
Proof.
  induction l as [|a|a b l IH] using pairs_ind; cbn [pairs_of].
  - by intros ?%not_elem_of_nil.
  - intros ->%list_elem_of_singleton. simpl. split; by apply list_elem_of_singleton.
  - rewrite !elem_of_cons. intros [->|[? ?]%IH]; simpl; auto.
Qed.

Lemma next_level_inj l m S :
  pairs_of l ⊆ S → pairs_of m ⊆ S → collision_free S → last_dup l = false → last_dup m = false →
  next_level l = next_level m → l = m.
Proof.
  intros Hl Hm HS. revert m Hm. induction l as [|a|a b l IH] using pairs_ind; intros m Hm Dl Dm; destruct m as [|c [|d m]]; try done.
  - cbn [next_level]. intros [= E]. cbn [pairs_of] in *. assert ((a, a) = (c, c)) as [= ->]; [apply HS; set_solver|done].
  - cbn [next_level]. intros [= E Em]. assert (m = []) as -> by (by destruct m as [|? []]).
    cbn [pairs_of] in *. assert ((a, a) = (c, d)) as [= -> ->]; [apply HS; set_solver|].
    cbn [last_dup] in Dm. by apply bool_decide_eq_false in Dm.
  - cbn [next_level]. intros [= E El]. assert (l = []) as -> by (by destruct l as [|? []]).
    cbn [pairs_of] in *. assert ((a, b) = (c, c)) as [= -> ->]; [apply HS; set_solver|].
    cbn [last_dup] in Dl. by apply bool_decide_eq_false in Dl.
  - cbn [next_level]. intros [= E El]. cbn [pairs_of] in *. assert ((a, b) = (c, d)) as [= -> ->]; [apply HS; set_solver|].
    do 2 f_equal. apply IH; [set_solver|set_solver| | |done].
    + rewrite last_dup_cons in Dl. by destruct l.
    + rewrite last_dup_cons in Dm. by destruct m.
Qed.

Lemma next_level_nonempty l : l ≠ [] → next_level l ≠ [].
Proof. by destruct l as [|? []]. Qed.

Lemma root_inj f1 f2 l m S :
  (length l ≤ f1)%nat → (length m ≤ f2)%nat → l ≠ [] → m ≠ [] → length (levels f1 l) = length (levels f2 m) →
  concat (map pairs_of (levels f1 l)) ⊆ S → concat (map pairs_of (levels f2 m)) ⊆ S → collision_free S →
  existsb last_dup (levels f1 l) = false → existsb last_dup (levels f2 m) = false →
  root_of f1 l = root_of f2 m → l = m.
Proof.
  revert f2 l m. induction f1 as [|f1 IH]; intros f2 l m Hl Hm Nl Nm Hlen Sl Sm HS Dl Dm E; [destruct l; [done|simpl in Hl; lia]|].
  destruct f2 as [|f2]; [destruct m; [done|simpl in Hm; lia]|]. cbn [levels root_of map concat existsb length] in *.
  apply orb_false_iff in Dl as [Dl Dl']. apply orb_false_iff in Dm as [Dm Dm'].
  apply list_subseteq_app_iff_l in Sl as [Sl Sl'], Sm as [Sm Sm'].
  assert (∀ f k, length (levels f k) ≠ 0%nat) as Hpos by (by intros []).
  destruct (1 <? length l)%nat eqn:El, (1 <? length m)%nat eqn:Em; cbn [length] in Hlen.
  - apply Nat.ltb_lt in El, Em. pose proof (half_lt _ El). pose proof (half_lt _ Em). pose proof (half_pos _ El). pose proof (half_pos _ Em).
    apply (next_level_inj l m S); [done..|]. apply (IH f2); try done; try (rewrite length_next_level; lia).
    + by apply next_level_nonempty.
    + by apply next_level_nonempty.
    + lia.
  - pose proof (Hpos f1 (next_level l)). lia.
  - pose proof (Hpos f2 (next_level m)). lia.
  - apply Nat.ltb_ge in El, Em. destruct l as [|x [|]], m as [|y [|]]; simpl in *; try done; try lia. congruence.
Qed.

Fixpoint branch_pairs (hash : uint256) (br : list uint256) (n : Z) : list (uint256 * uint256) :=
  match br with
  | [] => []
  | it :: br =>
      let p := if Z.odd n then (it, hash) else (hash, it) in
      p :: branch_pairs (Hash2 p.1 p.2) br (n ≫ 1)
  end.

Lemma check_branch_inv fuel l x br n S :
  (length l ≤ fuel)%nat → l ≠ [] → length (levels fuel l) = Datatypes.S (length br) →
  concat (map pairs_of (levels fuel l)) ⊆ S → branch_pairs x br n ⊆ S → collision_free S →
  check_branch x br n = root_of fuel l → x ∈ l.
Proof.
  revert l x br n. induction fuel as [|fuel IH]; intros l x br n Hf Nl Hlen Sl Sb HS E; [destruct l; [done|simpl in Hf; lia]|].
  cbn [levels root_of map concat length] in *. destruct (1 <? length l)%nat eqn:El; cbn [length map concat] in *.
  - apply Nat.ltb_lt in El. pose proof (half_lt _ El). pose proof (half_pos _ El). destruct br as [|it br]; [by destruct fuel|].
    apply list_subseteq_app_iff_l in Sl as [Sl Sl']. cbn [check_branch branch_pairs] in *. set (p := if Z.odd n then (it, x) else (x, it)) in *.
    assert (Hash2 p.1 p.2 ∈ next_level l) as Hin.
    { apply (IH _ _ br (n ≫ 1)).
      - rewrite length_next_level. lia.
      - by apply next_level_nonempty.
      - simpl in Hlen. lia.
      - done.
      - intros q Hq. apply Sb. by apply elem_of_cons; right.
      - done.
      - rewrite <-E. subst p. by destruct (Z.odd n). }
    rewrite next_level_pairs in Hin. apply list_elem_of_fmap in Hin as (q & Eq & Hq).
    assert (p = q) as Epq by (apply HS; [apply Sb; by apply elem_of_cons; left|by apply Sl|done]). rewrite <-Epq in Hq. apply pairs_of_elem in Hq as [H1 H2].
    subst p. by destruct (Z.odd n).
  - destruct br; [|done]. apply Nat.ltb_ge in El. destruct l as [|y [|]]; simpl in *; [done| |lia]. rewrite E. by apply list_elem_of_singleton.
Qed.

Lemma merkle_ids_inj vtx vtx' t t' r :
  vtx ≠ [] → vtx' ≠ [] → BuildMerkleTree vtx = Some (t, r, false) → BuildMerkleTree vtx' = Some (t', r, false) →
  let leaves := map tx_GetHash vtx in
  let leaves' := map tx_GetHash vtx' in
  length (all_levels leaves) = length (all_levels leaves') → collision_free (hashed leaves ++ hashed leaves') → leaves = leaves'.
Proof.
  intros Nv Nv' Hb Hb' leaves leaves' Hlen HS. rewrite BuildMerkleTree_spec in Hb, Hb'. injection Hb as _ Hr Hd. injection Hb' as _ Hr' Hd'.
  apply (root_inj (length leaves) (length leaves') leaves leaves' (hashed leaves ++ hashed leaves')); try done.
  - by destruct vtx.
  - by destruct vtx'.
  - by apply list_subseteq_app_l.
  - by apply list_subseteq_app_r.
  - transitivity r; [exact Hr|symmetry; exact Hr'].
Qed.

(** ** Properties *)

(** C24: [BuildMerkleTree] stores the levels of the tree one after the other, returns
    the root and reports a mutation exactly if some level ends in two equal hashes;
    for every transaction of the block [GetMerkleBranch] succeeds, whether the tree has
    to be built or is the one that was built before, and [CheckMerkleBranch] of the
    branch gives the root again. *)
Theorem merkle_tree_branches vtx n tx :
  0 ≤ n → vtx !! Z.to_nat n = Some tx →
  let leaves := map tx_GetHash vtx in
  BuildMerkleTree vtx = Some (concat (all_levels leaves), merkle_root leaves, existsb last_dup (all_levels leaves)) ∧
  ∀ vMerkleTree, vMerkleTree = [] ∨ vMerkleTree = concat (all_levels leaves) →
    ∃ br, GetMerkleBranch vtx vMerkleTree n = Some br ∧ CheckMerkleBranch (tx_GetHash tx) br n = merkle_root leaves.
Proof.
  intros Hn Htx leaves. split; [apply BuildMerkleTree_spec|]. intros cache Hcache.
  assert (GetMerkleBranch vtx cache n = branch_loop (length vtx) (concat (all_levels leaves)) n 0 (length vtx)) as ->.
  { unfold GetMerkleBranch. rewrite BuildMerkleTree_spec. fold leaves. destruct Hcache as [->|Hc]; [done|]. rewrite <-Hc. by destruct cache. }
  destruct (branch_loop_spec (length leaves) [] leaves n (tx_GetHash tx)) as (br & Hb & Hc); [done..| |].
  { unfold leaves. rewrite list_lookup_fmap, Htx. done. }
  cbn [app length] in Hb. assert (length vtx = length leaves) as -> by (unfold leaves; by rewrite length_map).
  exists br. split; [exact Hb|].
  unfold CheckMerkleBranch. by rewrite (proj2 (Z.eqb_neq _ _)) by lia.
Qed.

(** C25: A merkle root commits to the transactions.  As long as the hash has no
    collision among the pairs that are hashed: two blocks with the same root, trees
    of the same height and no mutation reported have the same transaction ids; and
    an id whose branch of the height of the tree leads to the root is the id of a
    transaction of the block. *)
Theorem merkle_root_commits vtx vtx' t t' r :
  vtx ≠ [] → vtx' ≠ [] → BuildMerkleTree vtx = Some (t, r, false) →
  let leaves := map tx_GetHash vtx in
  let leaves' := map tx_GetHash vtx' in
  (BuildMerkleTree vtx' = Some (t', r, false) → length (all_levels leaves) = length (all_levels leaves') →
   collision_free (hashed leaves ++ hashed leaves') → leaves = leaves') ∧
  (∀ id br n, 0 ≤ n → S (length br) = length (all_levels leaves) → CheckMerkleBranch id br n = r →
   collision_free (hashed leaves ++ branch_pairs id br n) → id ∈ leaves).
Proof.
  intros Nv Nv' Hb leaves leaves'. split.
  - intros Hb' Hlen HS. by apply (merkle_ids_inj vtx vtx' t t' r).
  - intros id br n Hn Hlen Hc HS. rewrite BuildMerkleTree_spec in Hb. injection Hb as _ Hr _. fold leaves in Hr.
    assert (leaves ≠ []) as Nl by (by destruct vtx). unfold CheckMerkleBranch in Hc. rewrite (proj2 (Z.eqb_neq _ _)) in Hc by lia.
    apply (check_branch_inv (length leaves) leaves id br n (hashed leaves ++ branch_pairs id br n)); try done.
    + by apply list_subseteq_app_l.
    + by apply list_subseteq_app_r.
    + by rewrite Hc, <-Hr.
Qed.

(** * Partial merkle trees *)

(** The nodes at height [h]. *)
Fixpoint nodes (h : nat) (l : list uint256) : list uint256 :=
  match h with O => l | S h => next_level (nodes h l) end.

Lemma CalcTreeWidth_eq n h : CalcTreeWidth n h = ((n + 2 ^ h - 1) / 2 ^ h)%nat.
Proof. unfold CalcTreeWidth. by rewrite Nat.shiftr_div_pow2, Nat.shiftl_1_l. Qed.

Lemma pow2_pos h : (0 < 2 ^ h)%nat.
Proof. by apply Nat.neq_0_lt_0, Nat.pow_nonzero. Qed.

Lemma CalcTreeWidth_S n h : CalcTreeWidth n (S h) = ((CalcTreeWidth n h + 1) / 2)%nat.
Proof.
  rewrite !CalcTreeWidth_eq. pose proof (pow2_pos h). rewrite <-Nat.div_add by lia. rewrite Nat.Div0.div_div.
  f_equal; cbn [Nat.pow]; lia.
Qed.

Lemma length_nodes h l : length (nodes h l) = CalcTreeWidth (length l) h.
Proof.
  induction h as [|h IH].
  - rewrite CalcTreeWidth_eq. cbn [nodes Nat.pow]. rewrite Nat.div_1_r. lia.
  - cbn [nodes]. by rewrite length_next_level, IH, CalcTreeWidth_S.
Qed.

Lemma CalcHash_spec h pos l : CalcHash h pos l = nodes h l !! pos.
Proof.
  revert pos. induction h as [|h IH]; intros pos; [done|]. cbn [CalcHash nodes]. rewrite next_level_lookup, !IH.
  destruct (nodes h l !! (pos * 2)%nat) as [a|] eqn:Ea; [|done]. cbn [mbind option_bind]. rewrite <-length_nodes.
  destruct (pos * 2 + 1 <? length (nodes h l))%nat eqn:E.
  - apply Nat.ltb_lt in E. by destruct (lookup_lt_is_Some_2 _ _ E) as [b ->].
  - apply Nat.ltb_ge in E. cbn [mbind option_bind]. by rewrite (lookup_ge_None_2 _ _ E).
Qed.

Lemma tree_height_spec fuel n h :
  (n ≤ 2 ^ (h + fuel))%nat →
  let k := tree_height fuel n h in (CalcTreeWidth n k ≤ 1)%nat ∧ ∀ j, (h ≤ j < k)%nat → (1 < CalcTreeWidth n j)%nat.
Proof.
  revert h. induction fuel as [|fuel IH]; intros h Hn; cbn [tree_height].
  - split; [|lia]. rewrite Nat.add_0_r in Hn. rewrite CalcTreeWidth_eq. pose proof (pow2_pos h).
    apply Nat.lt_succ_r, Nat.Div0.div_lt_upper_bound. lia.
  - case_match eqn:E.
    + destruct (IH (S h)) as [H1 H2]; [by rewrite Nat.add_succ_comm|]. split; [done|]. intros j Hj.
      destruct (decide (j = h)) as [->|]; [by apply Nat.ltb_lt|]. apply H2. lia.
    + split; [by apply Nat.ltb_ge|lia].
Qed.

Lemma nodes_next h l : nodes h (next_level l) = next_level (nodes h l).
Proof. induction h as [|h IH]; [done|]. cbn [nodes]. by rewrite IH. Qed.

Lemma root_nodes f k l r :
  (length l ≤ f)%nat → (∀ j, (j < k)%nat → (1 < length (nodes j l))%nat) → nodes k l = [r] → root_of f l = r.
Proof.
  revert k l. induction f as [|f IH]; intros k l Hf Hj Hk.
  - destruct l; [|simpl in Hf; lia]. assert (∀ j, nodes j [] = []) as Hn by (induction j as [|j IHj]; simpl; [done|by rewrite IHj]). by rewrite Hn in Hk.
  - cbn [root_of]. destruct k as [|k].
    + cbn [nodes] in Hk. by subst l.
    + specialize (Hj 0%nat ltac:(lia)) as H0. cbn [nodes] in H0. rewrite (proj2 (Nat.ltb_lt _ _)) by done.
      apply (IH k).
      * rewrite length_next_level. pose proof (half_lt _ H0). lia.
      * intros j Hlt. rewrite nodes_next. apply (Hj (S j)). lia.
      * by rewrite nodes_next.
Qed.

(** The matched ids among the leaves below a node. *)
Definition matched_at (l : list uint256) (vMatch : list bool) (p : nat) : option uint256 :=
  if default false (vMatch !! p) then l !! p else None.
Definition matches (l : list uint256) (vMatch : list bool) (h pos : nat) : list uint256 :=
  omap (matched_at l vMatch) (seq (pos * 2 ^ h) (2 ^ h)).

Lemma matches_S l vMatch h pos :
  matches l vMatch (S h) pos = matches l vMatch h (pos * 2) ++ matches l vMatch h (pos * 2 + 1).
Proof.
  unfold matches. replace (2 ^ S h)%nat with (2 ^ h + 2 ^ h)%nat by (simpl; lia). rewrite seq_app, omap_app.
  do 3 f_equal; simpl; lia.
Qed.

Lemma omap_step {A B} (f : A → option B) x l :
  omap f (x :: l) = match f x with Some y => y :: omap f l | None => omap f l end.
Proof. done. Qed.

Lemma omap_nil {A B} (f : A → option B) l : Forall (λ x, f x = None) l → omap f l = [].
Proof. induction 1 as [|x l Hx _ IH]; [done|]. cbn [omap list_omap]. by rewrite Hx. Qed.

Lemma matches_beyond l vMatch h pos : (CalcTreeWidth (length l) h ≤ pos)%nat → matches l vMatch h pos = [].
Proof.
  intros Hp. apply omap_nil, Forall_forall. intros p Hin%elem_of_seq. unfold matched_at. case_match; [|done].
  apply lookup_ge_None_2. rewrite CalcTreeWidth_eq in Hp. pose proof (pow2_pos h).
  assert (length l + 2 ^ h - 1 < 2 ^ h * (pos + 1))%nat as Hlt; [|nia].
  pose proof (Nat.div_mod (length l + 2 ^ h - 1) (2 ^ h) ltac:(lia)). pose proof (Nat.mod_upper_bound (length l + 2 ^ h - 1) (2 ^ h) ltac:(lia)). nia.
Qed.

(** The loop over the matches below a node. *)
Definition parent_of_match (nTransactions height pos : nat) (vMatch : list bool) : bool :=
  existsb (λ p, (p <? nTransactions)%nat && default false (vMatch !! p)) (seq (Nat.shiftl pos height) (Nat.shiftl 1 height)).
Lemma ParentOfMatch_spec n h pos vMatch : (n ≤ length vMatch)%nat → ParentOfMatch n h pos vMatch = Some (parent_of_match n h pos vMatch).
Proof.
  intros Hn. unfold ParentOfMatch, parent_of_match.
  assert (∀ l b, foldl (λ acc p, f ← acc; if (p <? n)%nat then m ← vMatch !! p; Some (f || m) else Some f) (Some b) l =
    Some (b || existsb (λ p, (p <? n)%nat && default false (vMatch !! p)) l)) as E; [|apply E].
  induction l as [|p l IH]; intros b; cbn [foldl existsb mbind option_bind]; [by rewrite orb_false_r|].
  destruct (Nat.ltb_spec p n) as [Hp|]; [|by rewrite IH].
  destruct (lookup_lt_is_Some_2 vMatch p ltac:(lia)) as [m ->]. cbn [mbind option_bind]. by rewrite IH, orb_assoc.
Qed.
(** With too few matches it reads past their end. *)
Lemma ParentOfMatch_undefined n h vMatch : (length vMatch < n ≤ 2 ^ h)%nat → ParentOfMatch n h 0 vMatch = None.
Proof.
  intros Hn. unfold ParentOfMatch. rewrite Nat.shiftl_1_l, Nat.shiftl_0_l.
  replace (2 ^ h)%nat with (length vMatch + S (2 ^ h - length vMatch - 1))%nat by lia. rewrite seq_app, foldl_app. cbn [seq foldl Nat.add].
  assert (∀ l, foldl (λ (acc : option bool) p, f ← acc; if (p <? n)%nat then m ← vMatch !! p; Some (f || m) else Some f) None l = None) as Hnone
    by (by induction l).
  destruct (foldl _ (Some false) _) as [b|]; cbn [mbind option_bind]; [|apply Hnone].
  rewrite (proj2 (Nat.ltb_lt _ _)), lookup_ge_None_2 by lia. apply Hnone.
Qed.

Lemma matches_none l vMatch h pos : parent_of_match (length l) h pos vMatch = false → matches l vMatch h pos = [].
Proof.
  unfold parent_of_match. rewrite Nat.shiftl_1_l, Nat.shiftl_mul_pow2. intros Hn. apply omap_nil, Forall_forall. intros p Hp.
  unfold matched_at. case_match eqn:E; [|done]. apply lookup_ge_None_2. apply not_true_iff_false in Hn. apply Nat.nlt_ge. intros Hlt. apply Hn.
  apply existsb_exists. exists p. split; [by apply list_elem_of_In|]. rewrite E. by rewrite (proj2 (Nat.ltb_lt _ _)).
Qed.

Lemma matches_leaf l vMatch pos x :
  l !! pos = Some x → matches l vMatch 0 pos = if parent_of_match (length l) 0 pos vMatch then [x] else [].
Proof.
  intros Hx. pose proof (lookup_lt_Some _ _ _ Hx) as Hlt. unfold matches, parent_of_match. rewrite Nat.shiftl_1_l, Nat.shiftl_0_r.
  cbn [Nat.pow seq].
  rewrite Nat.mul_1_r. cbn [omap list_omap existsb]. rewrite (proj2 (Nat.ltb_lt _ _)), orb_false_r by done. unfold matched_at. cbn [andb].
  destruct (default false (vMatch !! pos)); [by rewrite Hx|done].
Qed.

(** The leaves below a node. *)
Definition leaves_below (n h pos : nat) : nat := (Nat.min n ((pos + 1) * 2 ^ h) - pos * 2 ^ h)%nat.

Lemma leaves_below_pos n h pos : (pos < CalcTreeWidth n h)%nat → (0 < leaves_below n h pos)%nat.
Proof.
  rewrite CalcTreeWidth_eq. intros Hp. pose proof (pow2_pos h). unfold leaves_below.
  pose proof (Nat.Div0.mul_div_le (n + 2 ^ h - 1) (2 ^ h)). nia.
Qed.

Lemma leaves_below_S n h pos :
  leaves_below n (S h) pos = (leaves_below n h (pos * 2) + leaves_below n h (pos * 2 + 1))%nat.
Proof. unfold leaves_below. cbn [Nat.pow]. pose proof (pow2_pos h). nia. Qed.

(** What is built at a node, and its extraction from anything that contains it. *)
Definition extracts (l : list uint256) (vMatch : list bool) (h pos : nat) (b : list bool) (hs : list uint256) (x : uint256) : Prop :=
  ∀ t B1 B2 H1 H2 M, nTransactions t = length l → vBits t = B1 ++ b ++ B2 → vHash t = H1 ++ hs ++ H2 →
    TraverseAndExtract t h pos (ExtractState (length B1) (length H1) M false) =
    (x, ExtractState (length B1 + length b) (length H1 + length hs) (M ++ matches l vMatch h pos) false).

Lemma lookup_middle' {A} (l1 l2 : list A) x : (l1 ++ x :: l2) !! length l1 = Some x.
Proof. by apply list_lookup_middle. Qed.

Lemma extracts_stored l vMatch h pos x :
  nodes h l !! pos = Some x → (h = 0%nat ∨ parent_of_match (length l) h pos vMatch = false) →
  extracts l vMatch h pos [parent_of_match (length l) h pos vMatch] [x] x.
Proof.
  intros Hx Hh t B1 B2 H1 H2 M Hn Hb Hv.
  assert (matches l vMatch h pos = if (h =? 0)%nat && parent_of_match (length l) h pos vMatch then [x] else []) as ->.
  { destruct Hh as [->|Hh]; [by apply matches_leaf|]. rewrite Hh, andb_false_r. by apply matches_none. }
  assert (∀ (c : bool), (if c then M ++ [x] else M) = M ++ (if c then [x] else [])) as Em by (intros []; by rewrite ?app_nil_r).
  destruct h as [|h]; cbn [TraverseAndExtract nBitsUsed nHashUsed xMatch xBad]; rewrite Hb; cbn [app]; rewrite lookup_middle', Hv;
    cbn [app]; rewrite lookup_middle'; [|destruct Hh as [|Hh]; [done|rewrite Hh]; cbn [negb]];
    rewrite Em; cbn [length]; do 2 f_equal; lia.
Qed.

Lemma extracts_node l vMatch h pos b1 h1 x1 b2 h2 x2 :
  extracts l vMatch h (pos * 2) b1 h1 x1 →
  (if (pos * 2 + 1 <? CalcTreeWidth (length l) h)%nat
   then extracts l vMatch h (pos * 2 + 1) b2 h2 x2 else b2 = [] ∧ h2 = [] ∧ x2 = x1) →
  extracts l vMatch (S h) pos (true :: b1 ++ b2) (h1 ++ h2) (Hash2 x1 x2).
Proof.
  intros He1 He2 t B1 B2 H1 H2 M Hn Hb Hv. cbn [TraverseAndExtract nBitsUsed nHashUsed xMatch xBad]. rewrite Hb at 1. cbn [app].
  rewrite lookup_middle'. cbn [negb].
  pose proof (He1 t (B1 ++ [true]) (b2 ++ B2) H1 (h2 ++ H2) M Hn) as E1. rewrite length_app, Nat.add_1_r in E1.
  rewrite E1; [|by rewrite Hb, <-!app_assoc; simpl; rewrite <-app_assoc|by rewrite Hv, <-!app_assoc].
  rewrite Hn, matches_S, app_assoc. cbn [length]. rewrite !length_app. destruct (pos * 2 + 1 <? _)%nat eqn:Er.
  - pose proof (He2 t (B1 ++ true :: b1) B2 (H1 ++ h1) H2 (M ++ matches l vMatch h (pos * 2)) Hn) as E2.
    rewrite !length_app in E2. cbn [length] in E2.
    replace (S (length B1) + length b1)%nat with (length B1 + S (length b1))%nat by lia.
    rewrite E2; [|by rewrite Hb, <-!app_assoc; simpl; rewrite <-!app_assoc|by rewrite Hv, <-!app_assoc].
    do 2 f_equal; lia.
  - destruct He2 as (-> & -> & ->). apply Nat.ltb_ge in Er. rewrite (matches_beyond l vMatch h (pos * 2 + 1)), app_nil_r by done.
    do 2 f_equal; simpl; lia.
Qed.

Lemma build_extract l vMatch h pos :
  (length l ≤ length vMatch)%nat → (pos < CalcTreeWidth (length l) h)%nat →
  ∃ b hs x, TraverseAndBuild h pos l vMatch = Some (b, hs) ∧ nodes h l !! pos = Some x ∧
    (length hs ≤ length b ≤ (h + 1) * leaves_below (length l) h pos)%nat ∧ (length hs ≤ leaves_below (length l) h pos)%nat ∧
    extracts l vMatch h pos b hs x.
Proof.
  intros Hm. revert pos. induction h as [|h IH]; intros pos Hpos.
  all: destruct (lookup_lt_is_Some_2 (nodes _ l) pos ltac:(by rewrite length_nodes)) as [x Hx].
  all: pose proof (leaves_below_pos _ _ _ Hpos) as Hlp.
  - exists [parent_of_match (length l) 0 pos vMatch], [x], x. cbn [TraverseAndBuild]. rewrite ParentOfMatch_spec by done. cbn [mbind option_bind]. rewrite CalcHash_spec, Hx.
    split_and!; [done..|simpl; lia|simpl; lia|simpl; lia|]. apply extracts_stored; [done|by left].
  - cbn [TraverseAndBuild]. rewrite ParentOfMatch_spec by done. cbn [mbind option_bind]. destruct (parent_of_match (length l) (S h) pos vMatch) eqn:Ep; cbn [negb].
    2: { exists [false], [x], x. rewrite CalcHash_spec, Hx. split_and!; [done..|simpl; lia|simpl; lia|simpl; lia|]. rewrite <-Ep.
         apply extracts_stored; [done|by right]. }
    assert (pos * 2 < CalcTreeWidth (length l) h)%nat as Hl.
    { rewrite CalcTreeWidth_S in Hpos. pose proof (Nat.Div0.mul_div_le (CalcTreeWidth (length l) h + 1) 2). lia. }
    destruct (IH (pos * 2)%nat Hl) as (b1 & h1 & x1 & -> & Hx1 & Hb1 & Hc1 & He1). cbn [mbind option_bind].
    cbn [nodes]. rewrite next_level_lookup, Hx1. rewrite leaves_below_S in *.
    destruct (pos * 2 + 1 <? CalcTreeWidth (length l) h)%nat eqn:Er.
    + destruct (IH (pos * 2 + 1)%nat ltac:(by apply Nat.ltb_lt)) as (b2 & h2 & x2 & -> & Hx2 & Hb2 & Hc2 & He2).
      cbn [mbind option_bind]. rewrite Hx2. exists (true :: b1 ++ b2), (h1 ++ h2), (Hash2 x1 x2).
      split_and!; [done..|cbn [length]; rewrite !length_app; lia|cbn [length]; rewrite !length_app; lia|rewrite length_app; lia|].
      apply extracts_node; [done|by rewrite Er].
    + apply Nat.ltb_ge in Er as Er'. cbn [mbind option_bind]. rewrite (lookup_ge_None_2 (nodes h l)) by (by rewrite length_nodes).
      exists (true :: b1 ++ []), (h1 ++ []), (Hash2 x1 x1).
      rewrite !app_nil_r. split_and!; [done..|cbn [length]; lia|cbn [length]; lia|lia|]. rewrite <-(app_nil_r b1), <-(app_nil_r h1).
      apply extracts_node; [done|by rewrite Er].
Qed.

(** ** The serialized form *)

Lemma pack_byte_pack bits b : pack_byte bits b = pack8 (λ i, default false (bits !! (b * 8 + i)%nat)).
Proof.
  unfold pack_byte, pack8. assert (∀ s c,
    foldl (λ byte i, Z.lor byte (if default false (bits !! (b * 8 + i)%nat) then 1 ≪ Z.of_nat i else 0)) c s =
    foldl (λ c i, if default false (bits !! (b * 8 + i)%nat) then Z.lor c (1 ≪ Z.of_nat i) else c) c s) as E; [|apply E].
  induction s as [|i s IH]; intros c; [done|]. cbn [foldl]. rewrite IH. f_equal. case_match; [done|]. apply Z.lor_0_r.
Qed.

(** Unpacking gives the bits back, padded to a multiple of eight. *)
Lemma unpack_pack bits k :
  (length bits ≤ k * 8)%nat →
  unpack_bits (map (pack_byte bits) (seq 0 k)) = bits ++ replicate (k * 8 - length bits) false.
Proof.
  intros Hk. apply list_eq. intros p. unfold unpack_bits. rewrite length_map, length_seq.
  rewrite list_lookup_fmap. destruct (Nat.lt_ge_cases p (k * 8)) as [Hp|Hp].
  - rewrite lookup_seq_lt by done. cbn [fmap option_fmap option_map Nat.add].
    pose proof (Nat.mod_upper_bound p 8 ltac:(lia)) as Hm. pose proof (Nat.div_mod p 8 ltac:(lia)) as Ed.
    assert (nth (p / 8) (map (pack_byte bits) (seq 0 k)) 0 = pack_byte bits (p / 8)) as ->.
    { rewrite (nth_indep _ _ (pack_byte bits 0)) by (rewrite length_map, length_seq; lia). rewrite map_nth, seq_nth by lia. done. }
    rewrite Z.shiftl_1_l, land_pow2_test, pack_byte_pack, testbit_pack8 by lia.
    replace (p / 8 * 8 + p mod 8)%nat with p by lia.
    destruct (Nat.lt_ge_cases p (length bits)) as [Hb|Hb].
    + rewrite lookup_app_l by done. by destruct (lookup_lt_is_Some_2 _ _ Hb) as [x ->].
    + rewrite lookup_app_r, lookup_replicate_2, (lookup_ge_None_2 bits) by lia. done.
  - rewrite lookup_seq_ge, lookup_app_r, lookup_ge_None_2 by (rewrite ?length_replicate; lia). done.
Qed.

Lemma partial_read t rest :
  Z.of_nat (nTransactions t) < 2 ^ 32 → Forall uint256_ok (vHash t) → Z.of_nat (length (vHash t)) ≤ MAX_SIZE →
  Z.of_nat (length (vBits t)) ≤ MAX_SIZE →
  Unserialize_partial (Serialize_partial t ++ rest) =
  Some (PartialMerkleTree (nTransactions t)
          (vBits t ++ replicate ((length (vBits t) + 7) / 8 * 8 - length (vBits t)) false) (vHash t) false, rest).
Proof.
  intros Hn Hh Hl Hb. unfold Unserialize_partial, Serialize_partial. rewrite <-!app_assoc.
  rewrite (codec_step _ _ _ _ _ _ (codec_uint 4)) by (unfold fits; lia).
  rewrite (codec_step _ _ _ _ _ _ (codec_vector uint256_ok _ _ (codec_blob 32))) by done.
  set (k := ((length (vBits t) + 7) / 8)%nat).
  assert (length (vBits t) ≤ k * 8 ∧ k ≤ length (vBits t))%nat as [Hk1 Hk2].
  { unfold k. pose proof (Nat.div_mod (length (vBits t) + 7) 8 ltac:(lia)). pose proof (Nat.mod_upper_bound (length (vBits t) + 7) 8 ltac:(lia)). lia. }
  rewrite (codec_step _ _ _ _ _ _ codec_bytes).
  - cbn [mret decoder_ret]. rewrite unpack_pack by done. by rewrite Nat2Z.id.
  - split; [|rewrite length_map, length_seq; lia]. apply Forall_map, Forall_true. intros b. cbv beta. rewrite pack_byte_pack. apply pack8_fits.
Qed.
End merkle.

Section partial.
Context `{HFO : HashFunctionsOk}.

Lemma Hash2_ok a b : uint256_ok a → uint256_ok b → uint256_ok (Hash2 a b).
Proof.
  intros [Ha _] [Hb _]. unfold Hash2, Hash256. destruct (SHA256_bytes (a ++ b)) as [H1 _]; [by apply Forall_app|].
  by apply SHA256_bytes.
Qed.

Lemma nodes_ok h l : Forall uint256_ok l → Forall uint256_ok (nodes h l).
Proof.
  intros Hl. induction h as [|h IH]; [done|]. cbn [nodes]. apply Forall_lookup. intros p x. rewrite next_level_lookup.
  rewrite Forall_lookup in IH. destruct (nodes h l !! (p * 2)%nat) as [a|] eqn:Ea; [|done].
  destruct (nodes h l !! (p * 2 + 1)%nat) as [b|] eqn:Eb; intros [= <-]; apply Hash2_ok; eauto.
Qed.

Lemma build_hashes_ok l vMatch h pos b hs :
  Forall uint256_ok l → TraverseAndBuild h pos l vMatch = Some (b, hs) → Forall uint256_ok hs.
Proof.
  intros Hl. assert (∀ h pos x, CalcHash h pos l = Some x → uint256_ok x) as Hc.
  { intros h' pos' x. rewrite CalcHash_spec. pose proof (nodes_ok h' l Hl) as Hn. rewrite Forall_lookup in Hn. apply Hn. }
  revert pos b hs. induction h as [|h IH]; intros pos b hs; cbn [TraverseAndBuild].
  - destruct (ParentOfMatch _ _ _ _) as [m|]; [|done]. cbn [mbind option_bind].
    destruct (CalcHash 0 pos l) as [x|] eqn:E; [|done]. intros [= <- <-]. constructor; [by eapply Hc|done].
  - destruct (ParentOfMatch _ _ _ _) as [m|]; [|done]. cbn [mbind option_bind]. case_match.
    + destruct (CalcHash (S h) pos l) as [x|] eqn:E; [|done]. intros [= <- <-]. constructor; [by eapply Hc|done].
    + destruct (TraverseAndBuild h (pos * 2) l vMatch) as [[b1 h1]|] eqn:E1; [|done]. cbn [mbind option_bind]. case_match.
      * destruct (TraverseAndBuild h (pos * 2 + 1) l vMatch) as [[b2 h2]|] eqn:E2; [|done]. intros [= <- <-]. apply Forall_app; eauto.
      * intros [= <- <-]. rewrite app_nil_r. eauto.
Qed.

(** The ids that [vMatch] selects. *)
Fixpoint selected (l : list uint256) (vMatch : list bool) : list uint256 :=
  match l, vMatch with
  | x :: l, b :: vMatch => if b then x :: selected l vMatch else selected l vMatch
  | _, _ => []
  end.

Lemma matches_selected l vMatch n :
  (length l ≤ n)%nat → omap (matched_at l vMatch) (seq 0 n) = selected l vMatch.
Proof.
  revert vMatch n. induction l as [|x l IH]; intros vMatch n Hn.
  { apply omap_nil, Forall_true. intros p. unfold matched_at. by case_match. }
  destruct n as [|n]; [simpl in Hn; lia|]. cbn [seq]. rewrite omap_step.
  assert (omap (matched_at (x :: l) vMatch) (seq 1 n) = omap (matched_at l (tail vMatch)) (seq 0 n)) as ->.
  { rewrite <-seq_shift. induction (seq 0 n) as [|p s IHs]; [done|]. cbn [map]. rewrite !omap_step, IHs.
    unfold matched_at. by destruct vMatch. }
  rewrite IH by (simpl in Hn; lia). destruct vMatch as [|b vMatch]; [by destruct l|]. unfold matched_at. by destruct b.
Qed.

Lemma tree_height_bound fuel n h : (tree_height fuel n h ≤ h + fuel)%nat.
Proof. revert h. induction fuel as [|fuel IH]; intros h; cbn [tree_height]; [lia|]. case_match; [|lia]. specialize (IH (S h)). lia. Qed.

(** At the height of the constructor there is one node, the root. *)
Lemma root_height l :
  l ≠ [] → Z.of_nat (length l) ≤ 65536 →
  let k := tree_height 32 (length l) 0 in
  (k ≤ 32)%nat ∧ (length l ≤ 2 ^ k)%nat ∧ CalcTreeWidth (length l) k = 1%nat ∧ nodes k l = [merkle_root l].
Proof.
  intros Hne Hn k. assert (length l ≤ 2 ^ (0 + 32))%nat as Hpow.
  { transitivity (2 ^ 16)%nat; [change (2 ^ 16)%nat with (Z.to_nat 65536); lia|apply Nat.pow_le_mono_r; lia]. }
  destruct (tree_height_spec 32 (length l) 0 Hpow) as [Hw Hmin]. fold k in Hw, Hmin.
  pose proof (tree_height_bound 32 (length l) 0) as Hk. fold k in Hk. pose proof (pow2_pos k) as H2k.
  assert (0 < length l)%nat as Hpos by (destruct l; [done|simpl; lia]).
  assert (length l ≤ 2 ^ k)%nat as Hcover.
  { destruct (Nat.le_gt_cases (length l) (2 ^ k)) as [|Hgt]; [done|exfalso]. rewrite CalcTreeWidth_eq in Hw.
    assert (2 ≤ (length l + 2 ^ k - 1) / 2 ^ k)%nat; [|lia]. apply Nat.div_le_lower_bound; lia. }
  assert (0 < CalcTreeWidth (length l) k)%nat as Hw0 by (rewrite CalcTreeWidth_eq; apply Nat.div_str_pos; lia).
  split_and!; [done..|lia|]. assert (length (nodes k l) = 1)%nat as Hl1 by (rewrite length_nodes; lia).
  destruct (nodes k l) as [|y [|]] eqn:En; [done| |done]. f_equal. symmetry.
  apply (root_nodes (length l) k l y); [done| |done]. intros j Hj. rewrite length_nodes. apply Hmin. lia.
Qed.

Lemma padding_eq n : ((n + (((n + 7) / 8) * 8 - n) + 7) / 8 = (n + 7) / 8)%nat.
Proof.
  set (q := ((n + 7) / 8)%nat). pose proof (Nat.div_mod (n + 7) 8 ltac:(lia)) as Hd.
  pose proof (Nat.mod_upper_bound (n + 7) 8 ltac:(lia)). fold q in Hd.
  replace (n + (q * 8 - n) + 7)%nat with (7 + q * 8)%nat by lia. by rewrite Nat.div_add by lia.
Qed.

(** C26: A partial merkle tree survives the network: from the serialized tree built for
    a block of at most 33,333 transactions and any selection of them,
    [ExtractMatches] recovers the merkle root of the block and exactly the ids that
    were selected, in order.  A list of matches shorter than the block makes the
    constructor read past its end. *)
Theorem partial_tree_roundtrip vTxid vMatch rest :
  vTxid ≠ [] → Z.of_nat (length vTxid) ≤ 33333 → Forall uint256_ok vTxid →
  if (length vMatch <? length vTxid)%nat then CPartialMerkleTree_of vTxid vMatch = None
  else ∃ t t', CPartialMerkleTree_of vTxid vMatch = Some t ∧
    Unserialize_partial (Serialize_partial t ++ rest) = Some (t', rest) ∧
    ExtractMatches t' = (merkle_root vTxid, selected vTxid vMatch).
Proof.
  intros Hne Hn Hok. unfold CPartialMerkleTree_of.
  destruct (root_height vTxid Hne ltac:(lia)) as (Hk & Hcover & Hw & Hroot). set (k := tree_height 32 (length vTxid) 0) in *.
  destruct (Nat.ltb_spec (length vMatch) (length vTxid)) as [Hshort|Hm].
  { pose proof (ParentOfMatch_undefined (length vTxid) k vMatch ltac:(lia)) as E. destruct k; cbn [TraverseAndBuild]; by rewrite E. }
  destruct (build_extract vTxid vMatch k 0 Hm ltac:(lia)) as (b & hs & x & Hb & Hx & Hlb & Hlh & He). rewrite Hb. cbn [mbind option_bind].
  assert (leaves_below (length vTxid) k 0 = length vTxid) as El by (unfold leaves_below; lia). rewrite El in *.
  pose proof (build_hashes_ok _ _ _ _ _ _ Hok Hb) as Hhok. rewrite Hroot in Hx. injection Hx as <-.
  eexists _, _. split_and!; [done|apply partial_read; cbn [nTransactions vHash vBits]; [lia|done|unfold MAX_SIZE; lia|unfold MAX_SIZE; nia]|].
  cbn [nTransactions vHash vBits]. set (pad := replicate _ false). unfold ExtractMatches. cbn [nTransactions vHash vBits fBad].
  assert (0 < length vTxid)%nat by (destruct vTxid; [done|simpl; lia]).
  rewrite (proj2 (Nat.eqb_neq _ _)) by lia. rewrite (proj2 (Z.ltb_ge _ _)) by (change (_ `div` 60) with 33333; lia).
  rewrite !(proj2 (Nat.ltb_ge _ _)) by (rewrite ?length_app; lia). fold k.
  pose proof (He (PartialMerkleTree (length vTxid) (b ++ pad) hs false) [] pad [] [] [] eq_refl eq_refl (eq_sym (app_nil_r hs))) as Hx.
  cbn [length app Nat.add] in Hx. rewrite Hx. cbn [xBad nBitsUsed nHashUsed xMatch]. rewrite Nat.eqb_refl. cbn [negb].
  unfold pad. rewrite length_app, length_replicate, padding_eq, Nat.eqb_refl. cbn [negb]. f_equal.
  unfold matches. rewrite Nat.mul_0_l. by apply matches_selected.
Qed.
End partial.

(** * Examples *)

Definition three_txs : list CMutableTransaction := [MTx 1 [] [] 0; MTx 1 [] [] 1; MTx 1 [] [] 2].
Definition identity_hashes : HashFunctions := {| RIPEMD160 := id; SHA1 := id; SHA256 := id |}.

Lemma merkle_tree_branches_witness :
  match GetMerkleBranch three_txs [] 2 with
  | Some br => CheckMerkleBranch (tx_GetHash (MTx 1 [] [] 2)) br 2 = merkle_root (map tx_GetHash three_txs)
  | None => False
  end.
Proof.
  destruct (merkle_tree_branches three_txs 2 (MTx 1 [] [] 2)) as [_ Hb]; [lia|reflexivity|].
  destruct (Hb [] (or_introl eq_refl)) as (br & -> & Hc). exact Hc.
Defined.

Lemma collision_free_dec `{HashFunctions} S :
  Forall (λ p, Forall (λ q, Hash2 p.1 p.2 = Hash2 q.1 q.2 → p = q) S) S → collision_free S.
Proof. intros HS p q Hp Hq. rewrite !Forall_forall in HS. specialize (HS p Hp). rewrite Forall_forall in HS. by apply HS. Qed.

Lemma merkle_root_commits_witness :
  match @BuildMerkleTree identity_hashes three_txs with
  | Some (t, r, mutated) => mutated = false ∧ @tx_GetHash identity_hashes (MTx 1 [] [] 1) ∈ map (@tx_GetHash identity_hashes) three_txs
  | None => False
  end.
Proof.
  destruct (@BuildMerkleTree identity_hashes three_txs) as [[[t r] m]|] eqn:E; [|by vm_compute in E].
  assert (m = false) as -> by (vm_compute in E; by injection E).
  split; [done|].
  pose proof (@merkle_root_commits identity_hashes three_txs three_txs t t r ltac:(done) ltac:(done) E) as [_ Hbr].
  apply (Hbr (@tx_GetHash identity_hashes (MTx 1 [] [] 1))
    (default [] (@GetMerkleBranch identity_hashes three_txs [] 1)) 1); [lia|by vm_compute| |].
  - vm_compute in E. injection E as _ <-. by vm_compute.
  - apply collision_free_dec.
    apply (bool_decide_unpack (Forall (λ p, Forall (λ q, @Hash2 identity_hashes p.1 p.2 = @Hash2 identity_hashes q.1 q.2 → p = q) _) _)).
    vm_compute. exact I.
Defined.

Lemma partial_tree_roundtrip_witness :
  match CPartialMerkleTree_of [replicate 32 1; replicate 32 2; replicate 32 3] [false; true; false] with
  | Some t =>
      match Unserialize_partial (Serialize_partial t) with
      | Some (t', _) => (ExtractMatches t').2 = [replicate 32 2]
      | None => False
      end
  | None => False
  end.
Proof.
  destruct (partial_tree_roundtrip [replicate 32 1; replicate 32 2; replicate 32 3] [false; true; false] [])
    as (t & t' & -> & E & Ex); [done|simpl; lia| |].
  - repeat (apply Forall_cons; split; [split; [apply (bool_decide_unpack (words 8 _)); vm_compute; exact I|reflexivity]|]). by constructor.
  - rewrite app_nil_r in E. rewrite E, Ex. reflexivity.
Defined.
