(* ===== verification/BlockCheck.v ===== *)
(** main.cpp, checkpoints.cpp: the checks of a block ([CheckBlockHeader], [CheckBlock],
    [ContextualCheckBlockHeader], [ContextualCheckBlock]) and [ConnectBlock].

    Verdicts are those of Validation.v; where a function adds to the score that a
    callee has set, the scores are added.  Reading the clock, the arguments of the
    node and its block index are arguments. *)

From stdpp Require Import strings.
From S2P Require Import Prelude ArithUint256 ChainParams BlockIndex Pow Script PubKey Interpreter Standard Serialize Transaction SigHash Coins CoinsView ZerocoinDB Validation Merkle.

Section block.
Context (Params : CChainParams) `{HashFunctions} `{Secp256k1} `{ZerocoinChecks}.

(** [CBlockHeader::GetHash]: the bytes of the header in memory are its serialization. *)
Definition header_GetHash (h : CBlockHeader) : uint256 := Hash256 (Serialize_header h).
Definition IsProofOfWork (b : CBlock) : bool := negb (Transaction.IsProofOfStake b).

Definition CheckBlockHeader (h : CBlockHeader) (fCheckPOW : bool) : outcome unit :=
  if fCheckPOW && negb (CheckProofOfWork Params (header_GetHash h) (hdr_nBits h))
  then Rejected 50 "high-hash" else Passed tt.

(** The serials of the zerocoin spends of a transaction against those of the block. *)
Fixpoint check_serials (vBlockSerials : list Z) (l : list CTxIn) : outcome (list Z) :=
  match l with
  | [] => Passed vBlockSerials
  | i :: l =>
      if IsZerocoinSpend (scriptSig i) then
        '(serial, _) ← TxInToZerocoinSpend i;
        if bool_decide (serial ∈ vBlockSerials) then Rejected 100 "double spending of a serial in block"
        else check_serials (vBlockSerials ++ [serial]) l
      else check_serials vBlockSerials l
  end.

Fixpoint check_transactions (vBlockSerials : list Z) (l : list CMutableTransaction) : outcome unit :=
  match l with
  | [] => Passed tt
  | tx :: l =>
      _ ← CheckTransaction Params tx true;
      zs ← defined (tx_IsZerocoinSpend tx);
      vBlockSerials ← (if (zs : bool) then check_serials vBlockSerials (vin tx) else Passed vBlockSerials);
      check_transactions vBlockSerials l
  end.

(** [for (i = from; i < vtx.size(); i++) if (vtx[i].IsCoinBase()) return …] *)
Fixpoint any_coinbase (l : list CMutableTransaction) : option bool :=
  match l with
  | [] => Some false
  | tx :: l => cb ← IsCoinBase tx; if (cb : bool) then Some true else any_coinbase l
  end.

Fixpoint legacy_sigops (nSigOps : Z) (l : list CMutableTransaction) : option Z :=
  match l with
  | [] => Some nSigOps
  | tx :: l => k ← GetLegacySigOpCount tx; legacy_sigops (u32 (nSigOps + k)) l
  end.

Definition check_stake_layout (b : CBlock) : outcome unit :=
  if Transaction.IsProofOfStake b then
    match vtx b with
    | coinbase :: coinstake :: rest =>
        if negb match vout coinbase with [o] => CTxOut_IsEmpty o | _ => false end
        then Rejected 100 "coinbase output not empty for proof-of-stake block"
        else if negb (IsCoinStake coinstake) then Rejected 100 "second tx is not coinstake"
        else if existsb IsCoinStake rest then Rejected 100 "more than one coinstake"
        else Passed tt
    | _ => Undefined
    end
  else Passed tt.

Definition check_merkle (b : CBlock) : outcome unit :=
  '(_, root, mutated) ← defined (BuildMerkleTree (vtx b));
  if negb (bool_decide (hashMerkleRoot (header b) = root)) then Rejected 100 "bad-txnmrklroot"
  else if (mutated : bool) then Rejected 100 "bad-txns-duplicate" else Passed tt.

(** [fCheckPOW] and [fCheckSig] are parameters that the body does not read. *)
Definition CheckBlock (adjustedTime : Z) (b : CBlock) (fCheckPOW fCheckMerkleRoot fCheckSig : bool) : outcome unit :=
  match CheckBlockHeader (header b) (IsProofOfWork b) with
  | Undefined => Undefined
  | Rejected d _ => Rejected (d + 100) "bad-header"
  | Passed _ =>
      if adjustedTime + (if Transaction.IsProofOfStake b then 180 else 7200) <? hdr_nTime (header b)
      then Rejected 0 "time-too-new"
      else
        _ ← (if fCheckMerkleRoot then check_merkle b else Passed tt);
        if (length (vtx b) =? 0)%nat || (MAX_BLOCK_SIZE_CURRENT <? Z.of_nat (length (vtx b))) ||
           (MAX_BLOCK_SIZE_CURRENT <? u32 (size (Serialize_block b)))
        then Rejected 100 "bad-blk-length"
        else
          match vtx b with
          | [] => Undefined
          | tx :: rest =>
              cb ← defined (IsCoinBase tx);
              if negb cb then Rejected 100 "bad-cb-missing"
              else
                more ← defined (any_coinbase rest);
                if (more : bool) then Rejected 100 "bad-cb-multiple"
                else
                  _ ← check_stake_layout b;
                  _ ← check_transactions [] (vtx b);
                  nSigOps ← defined (legacy_sigops 0 (vtx b));
                  if MAX_BLOCK_SIGOPS_CURRENT <? nSigOps then Rejected 100 "bad-blk-sigops" else Passed tt
          end
  end.

(** * Checks in the context of the chain *)

(** [Checkpoints::CheckBlock] with [fMatchesCheckpoint = false], and
    [Checkpoints::GetLastCheckpoint]; the checkpoints are in increasing order of
    height. *)
Definition checkpoint_ok (fEnabled : bool) (checkpoints : list (Z * uint256)) (nHeight : Z) (hash : uint256) : bool :=
  if negb fEnabled then true
  else match List.find (λ c, c.1 =? nHeight) checkpoints with
       | Some c => bool_decide (hash = c.2)
       | None => true
       end.
Definition GetLastCheckpoint (fEnabled : bool) (checkpoints : list (Z * uint256)) (mapBlockIndex : gmap uint256 nat) : option nat :=
  if negb fEnabled then None
  else List.find (λ c, bool_decide (is_Some (mapBlockIndex !! c.2))) (rev checkpoints) ≫= λ c, mapBlockIndex !! c.2.

Definition ContextualCheckBlockHeader (idx : gmap nat CBlockIndex) (mapBlockIndex : gmap uint256 nat)
    (fEnabled : bool) (checkpoints : list (Z * uint256)) (genesis : uint256) (chainHeight nMaxReorgDepth : Z)
    (h : CBlockHeader) (pindexPrev : option nat) : outcome unit :=
  let hash := header_GetHash h in
  if bool_decide (hash = genesis) then Passed tt
  else
    p ← defined pindexPrev;
    prev ← defined (idx !! p);
    let nHeight := BlockIndex.nHeight prev + 1 in
    if nMaxReorgDepth <=? chainHeight - nHeight then Rejected 1 "forked chain older than max reorganization depth"
    else
      if hdr_nTime h <=? GetMedianTimePast idx p then Rejected 0 "time-too-old"
      else if negb (checkpoint_ok fEnabled checkpoints nHeight hash) then Rejected 100 "checkpoint mismatch"
      else
        match GetLastCheckpoint fEnabled checkpoints mapBlockIndex ≫= (idx !!.) with
        | Some pcheckpoint =>
            if nHeight <? BlockIndex.nHeight pcheckpoint then Rejected 0 "forked chain older than last checkpoint" else Passed tt
        | None => Passed tt
        end.

Definition ContextualCheckBlock (idx : gmap nat CBlockIndex) (chainHeight adjustedTime : Z) (b : CBlock)
    (pindexPrev : option nat) : outcome unit :=
  prevHeight ← (match pindexPrev with Some p => prev ← defined (idx !! p); Passed (BlockIndex.nHeight prev) | None => Passed (-1) end);
  let nHeight := prevHeight + 1 in
  if negb (forallb (λ tx, IsFinalTx chainHeight adjustedTime tx nHeight (hdr_nTime (header b))) (vtx b))
  then Rejected 10 "bad-txns-nonfinal"
  else if (1 <=? Transaction.nHeaderVersion (header b)) &&
          IsSuperMajority idx (nToCheckBlockUpgradeMajority Params) 1 pindexPrev (nEnforceBlockUpgradeMajority Params)
  then
    match vtx b with
    | tx :: _ =>
        match vin tx with
        | i :: _ =>
            let expect := push_int64 nHeight in
            if (size (scriptSig i) <? size expect) || negb (bool_decide (take (length expect) (scriptSig i) = expect))
            then Rejected 100 "bad-cb-height" else Passed tt
        | [] => Undefined
        end
    | [] => Undefined
    end
  else Passed tt.

(** * Connecting a block *)

(** [control.Wait()]: all the checks that were queued. *)
Fixpoint run_queue (l : list (CMutableTransaction * CScriptCheck)) : outcome bool :=
  match l with
  | [] => Passed true
  | (tx, chk) :: l => ok ← run_check tx chk; if (ok : bool) then run_queue l else Passed false
  end.

(** The BIP30 loop: an earlier transaction with the id of [tx] and outputs left. *)
Fixpoint check_overwrite (v : CCoinsView) (l : list CMutableTransaction) : outcome CCoinsView :=
  match l with
  | [] => Passed v
  | tx :: l =>
      let '(coins, v) := GetCoins v (tx_GetHash tx) in
      match coins with
      | Some c => if negb (IsPruned c) then Rejected 100 "bad-txns-BIP30" else check_overwrite v l
      | None => check_overwrite v l
      end
  end.

(** What [ConnectBlock] reads of [pindex]; [idx_prev] is the hash and the money supply
    of [pindex->pprev]. *)
Record block_index := BlockIdx {
  idx_phashBlock : option uint256;
  idx_nHeight : Z;
  idx_prev : option (uint256 * Z);
}.
(** What it stores: [blockundo] in the undo file, [pindex->nMoneySupply] and
    [pindex->nMint], the zerocoin database, and what [WriteTxIndex] adds to the
    transaction index. *)
Record connected := Connected {
  con_undo : list (list CTxInUndo); nMoneySupply : Z; nMint : Z; con_db : CZerocoinDB; con_txindex : list (uint256 * Z) }.

(** [vPos]: the ids and [nTxOffset], from [pos.nTxOffset] on. *)
Fixpoint tx_positions (nTxOffset : Z) (l : list CMutableTransaction) : list (uint256 * Z) :=
  match l with
  | [] => []
  | tx :: l => (tx_GetHash tx, nTxOffset) :: tx_positions (u32 (nTxOffset + size (Serialize_tx tx))) l
  end.

(** [WriteCoinSpend] for every spend, then [WriteCoinMintBatch]. *)
Definition record_zerocoins (db : CZerocoinDB) (vSpends vMints : list (Z * uint256)) : CZerocoinDB :=
  WriteCoinMintBatch (foldl (λ db '(serial, txid), WriteCoinSpend db serial txid) db vSpends) vMints.

(** The position of the undo data, the wallet and the signals are not part of the model,
    and writes to the disk succeed.  The check of the mint amount is commented out in
    the source. *)
Definition ConnectBlock (heightOf : uint256 → option Z) (adjustedTime totalBlocksEstimate : Z) (genesis : uint256)
    (fVerifyingBlocks threads fTxIndex : bool) (b : CBlock) (pindex : block_index) (v : CCoinsView) (db : CZerocoinDB)
    (fJustCheck fAlreadyChecked : bool) : outcome (CCoinsView * option connected) :=
  _ ← (if negb fAlreadyChecked then CheckBlock adjustedTime b (negb fJustCheck) (negb fJustCheck) true else Passed tt);
  let hashPrevBlock := match idx_prev pindex with Some p => p.1 | None => uint256_null end in
  let '(best, v) := GetBestBlock v in
  if negb (bool_decide (hashPrevBlock = best)) then Undefined
  else if bool_decide (header_GetHash (header b) = genesis) then
    h ← defined (idx_phashBlock pindex); Passed (SetBestBlock v h, None)
  else if (idx_nHeight pindex <=? nLastPOWBlock Params) && Transaction.IsProofOfStake b then Rejected 100 "PoS-early"
  else if (nLastPOWBlock Params <? idx_nHeight pindex) && IsProofOfWork b then Rejected 100 "PoW-ended"
  else
    let fScriptChecks := totalBlocksEstimate <=? idx_nHeight pindex in
    v ← (match idx_phashBlock pindex with None => check_overwrite v (vtx b) | Some _ => Passed v end);
    s ← connect_txs Params heightOf fVerifyingBlocks fScriptChecks threads (idx_nHeight pindex) true (vtx b)
          (ConnectState v [] 0 0 0 0 [] [] []);
    supply ← UpdateZKPSupply b;
    if negb supply then Rejected 100 "ZKP supply"
    else
      '(_, nMoneySupplyPrev) ← defined (idx_prev pindex);
      let nMoneySupply := s64 (s64 (nMoneySupplyPrev + cs_nValueOut s) - cs_nValueIn s) in
      let nMint := s64 (s64 (nMoneySupply - nMoneySupplyPrev) + cs_nFees s) in
      checkpoint ← ValidateAccumulatorCheckpoint b;
      if negb checkpoint then Rejected 100 "bad-acc-checkpoint"
      else
        ok ← run_queue (cs_queued s);
        if negb ok then Rejected 100 "script checks failed"
        else
          if fJustCheck then Passed (cs_view s, Some (Connected (cs_undo s) nMoneySupply nMint db []))
          else
            let db := record_zerocoins db (cs_vSpends s) (cs_vMints s) in
            acc ← record_checksums b (db_accumulators db);
            let db := set_accumulators db acc in
            let vPos := tx_positions (u32 (GetSizeOfCompactSize (size (vtx b)))) (vtx b) in
            h ← defined (idx_phashBlock pindex);
            Passed (SetBestBlock (cs_view s) h, Some (Connected (cs_undo s) nMoneySupply nMint db (if fTxIndex then vPos else []))).

End block.
