(* ===== verification/ConnectZerocoinFacts.v ===== *)
(** The zerocoin database when a block is connected and disconnected: the entries
    that [connect_txs] collects are the entries that [erase_zerocoins] removes, so
    that erasing them gives back the database if their keys were new. *)

From S2P Require Import Prelude ChainParams Script PubKey Interpreter Serialize Transaction SigHash Coins CoinsView Bignum ZerocoinDB Validation ValidationFacts ConnectFacts BlockCheck.

Section zerocoin.
Context (Params : CChainParams) `{HF : HashFunctions} `{HS : Secp256k1} `{HZ : ZerocoinChecks}.

(** [db'] is [db] without the serial numbers [ss] and the coins [ms]. *)
Definition erased (db db' : CZerocoinDB) (ss ms : list Z) : Prop :=
  (∀ k, db_spends db' !! k = if decide (k ∈ map GetSerialHash ss) then None else db_spends db !! k) ∧
  (∀ k, db_mints db' !! k = if decide (k ∈ map GetPubCoinHash ms) then None else db_mints db !! k) ∧
  db_accumulators db' = db_accumulators db.

(** The serial numbers [ss] and the coins [ms] of a transaction. *)
Definition tx_zerocoins (tx : CMutableTransaction) (ss ms : list Z) : Prop :=
  (∀ db, ∃ db', erase_zerocoins tx db = Passed db' ∧ erased db db' ss ms) ∧
  Forall (λ x, ∃ i d, i ∈ vin tx ∧ TxInToZerocoinSpend i = Passed (x, d)) ss ∧
  Forall (λ x, ∃ o, o ∈ vout tx ∧ TxOutToPublicCoin o = Passed x) ms.

(** The keys of the serial numbers and the coins of a block are new. *)
Definition fresh_zerocoins (db : CZerocoinDB) (vtx : list CMutableTransaction) : Prop :=
  Forall (λ tx,
    Forall (λ i, ∀ serial d, TxInToZerocoinSpend i = Passed (serial, d) → ReadCoinSpend db serial = None) (vin tx) ∧
    Forall (λ o, ∀ value, TxOutToPublicCoin o = Passed value → ReadCoinMint db value = None) (vout tx)) vtx.

(** * Erasing *)

Lemma erased_nil db : erased db db [] [].
Proof. done. Qed.

Lemma erased_lookup {A B} (f : A → B) (l1 l2 : list A) (k : B) (o : option B) `{EqDecision B} :
  (if decide (k ∈ map f l2) then None else if decide (k ∈ map f l1) then None else o) =
  (if decide (k ∈ map f (l1 ++ l2)) then None else o).
Proof.
  rewrite map_app. destruct (decide (k ∈ map f l2)) as [H2|H2]; [rewrite decide_True; [done|apply elem_of_app; by right]|].
  apply decide_ext. rewrite elem_of_app. tauto.
Qed.

Lemma erased_trans db db1 db2 s1 s2 m1 m2 : erased db db1 s1 m1 → erased db1 db2 s2 m2 → erased db db2 (s1 ++ s2) (m1 ++ m2).
Proof.
  intros (Hs1 & Hm1 & Ha1) (Hs2 & Hm2 & Ha2). split_and!; [| |by rewrite Ha2].
  - intros k. by rewrite Hs2, Hs1, erased_lookup.
  - intros k. by rewrite Hm2, Hm1, erased_lookup.
Qed.

(** Only the sets matter. *)
Lemma erased_perm db db' ss ss' ms ms' : ss ≡ₚ ss' → ms ≡ₚ ms' → erased db db' ss ms → erased db db' ss' ms'.
Proof.
  intros Ps Pm (Hs & Hm & Ha). split_and!; [| |done]; intros k; [rewrite Hs|rewrite Hm]; apply decide_ext.
  - by rewrite (Permutation_map GetSerialHash Ps).
  - by rewrite (Permutation_map GetPubCoinHash Pm).
Qed.

Lemma EraseCoinSpend_erased db x : erased db (EraseCoinSpend db x) [x] [].
Proof.
  split_and!; [|done..]. intros k. unfold EraseCoinSpend. cbn [db_spends map].
  case_decide as Hk; [apply list_elem_of_singleton in Hk as ->; apply lookup_delete_eq|].
  apply lookup_delete_ne. set_solver.
Qed.
Lemma EraseCoinMint_erased db x : erased db (EraseCoinMint db x) [] [x].
Proof.
  split_and!; [done| |done]. intros k. unfold EraseCoinMint. cbn [db_mints map].
  case_decide as Hk; [apply list_elem_of_singleton in Hk as ->; apply lookup_delete_eq|].
  apply lookup_delete_ne. set_solver.
Qed.

(** * What a transaction adds to [vSpends] and [vMints] *)

Lemma connect_spends_zerocoins tx s l s' :
  connect_spends tx s l = Passed s' →
  ∃ ss, cs_vSpends s' = cs_vSpends s ++ map (., tx_GetHash tx) ss ∧ cs_vMints s' = cs_vMints s ∧
    (∀ db, ∃ db', erase_spends db l = Passed db' ∧ erased db db' ss []) ∧
    Forall (λ x, ∃ i d, i ∈ l ∧ TxInToZerocoinSpend i = Passed (x, d)) ss.
Proof.
  revert s. induction l as [|i l IH]; intros s; cbn [connect_spends erase_spends].
  { intros [= <-]. exists []. rewrite app_nil_r. split_and!; [done..| |done]. intros db. by exists db. }
  destruct (IsZerocoinSpend (scriptSig i)); cbn [negb]; intros Hp.
  - passed Hp. destruct r as [x d]. passed Hp. destruct (negb r); [done|]. apply IH in Hp as (ss & Hs & Hm & He & Hl).
    exists (x :: ss). split_and!; [by rewrite Hs; cbn [add_spend cs_vSpends map]; rewrite <-app_assoc|done| |].
    + intros db. destruct (He (EraseCoinSpend db x)) as (db' & Ee & Her). exists db'. rewrite E. split; [done|].
      exact (erased_trans _ _ _ [x] ss [] [] (EraseCoinSpend_erased db x) Her).
    + constructor; [exists i, d; split; [by left|done]|]. eapply Forall_impl; [exact Hl|]. intros y (j & d' & ? & ?). exists j, d'. by split; [right|].
  - apply IH in Hp as (ss & Hs & Hm & He & Hl). exists ss. split_and!; [done..|].
    eapply Forall_impl; [exact Hl|]. intros y (j & d' & ? & ?). exists j, d'. by split; [right|].
Qed.

Lemma connect_mints_zerocoins tx s l s' :
  connect_mints tx s l = Passed s' →
  ∃ ms, cs_vMints s' = cs_vMints s ++ map (., tx_GetHash tx) ms ∧ cs_vSpends s' = cs_vSpends s ∧
    (∀ db, ∃ db', erase_mints db l = Passed db' ∧ erased db db' [] ms) ∧
    Forall (λ x, ∃ o, o ∈ l ∧ TxOutToPublicCoin o = Passed x) ms.
Proof.
  revert s. induction l as [|o l IH]; intros s; cbn [connect_mints erase_mints].
  { intros [= <-]. exists []. rewrite app_nil_r. split_and!; [done..| |done]. intros db. by exists db. }
  destruct (CTxOut_IsZerocoinMint o); cbn [negb]; intros Hp.
  - passed Hp. rename r into x. assert (TxOutToPublicCoin o = Passed x) as Eo by (by destruct (TxOutToPublicCoin o)). clear E.
    case_match; [done|]. apply IH in Hp as (ms & Hs & Hm & He & Hl).
    exists (x :: ms). split_and!; [by rewrite Hs; cbn [add_mint cs_vMints map]; rewrite <-app_assoc|done| |].
    + intros db. destruct (He (EraseCoinMint db x)) as (db' & Ee & Her). exists db'. rewrite Eo. split; [done|].
      exact (erased_trans _ _ _ [] [] [x] ms (EraseCoinMint_erased db x) Her).
    + constructor; [exists o; split; [by left|done]|]. eapply Forall_impl; [exact Hl|]. intros y (j & ? & ?). exists j. by split; [right|].
  - apply IH in Hp as (ms & Hs & Hm & He & Hl). exists ms. split_and!; [done..|].
    eapply Forall_impl; [exact Hl|]. intros y (j & ? & ?). exists j. by split; [right|].
Qed.

(** The two together, in the order of [erase_zerocoins]. *)
Lemma mints_zerocoins tx s s' :
  (if tx_IsZerocoinMint tx then connect_mints tx s (vout tx) else Passed s) = Passed s' →
  ∃ ms, cs_vMints s' = cs_vMints s ++ map (., tx_GetHash tx) ms ∧ cs_vSpends s' = cs_vSpends s ∧
    (∀ db, ∃ db', (if tx_IsZerocoinMint tx then erase_mints db (vout tx) else Passed db) = Passed db' ∧ erased db db' [] ms) ∧
    Forall (λ x, ∃ o, o ∈ vout tx ∧ TxOutToPublicCoin o = Passed x) ms.
Proof.
  destruct (tx_IsZerocoinMint tx); [apply connect_mints_zerocoins|]. intros [= <-]. exists [].
  rewrite app_nil_r. split_and!; [done..| |done]. intros db. by exists db.
Qed.

Lemma connect_inputs_zerocoins heightOf fS th tx s s' :
  connect_inputs Params heightOf fS th tx s = Passed s' →
  ∃ s1, (if tx_IsZerocoinMint tx then connect_mints tx s (vout tx) else Passed s) = Passed s1 ∧
        cs_vSpends s' = cs_vSpends s1 ∧ cs_vMints s' = cs_vMints s1.
Proof.
  unfold connect_inputs. intros Hp. passed Hp. destruct r. destruct (negb b); [done|]. passed Hp. exists r. split; [done|].
  passed Hp. destruct r0. destruct (_ <? _); [done|]. passed Hp. destruct r0. passed Hp. destruct r0. passed Hp. destruct r0.
  by injection Hp as <-.
Qed.

(** A coinbase has no mint. *)
Lemma coinbase_no_mint tx : IsCoinBase tx = Some true → tx_IsZerocoinMint tx = false.
Proof.
  unfold IsCoinBase, ContainsZerocoins. destruct (vin tx) as [|i []]; [done| |done]. destruct (COutPoint_IsNull _); [|done].
  destruct (tx_IsZerocoinSpend tx) as [zs|]; [|done]. cbn [mbind option_bind].
  destruct zs, (tx_IsZerocoinMint tx); done.
Qed.

Lemma other_zerocoins heightOf fS th tx (cb : bool) s s' :
  IsCoinBase tx = Some cb → (if cb then Passed s else connect_inputs Params heightOf fS th tx s) = Passed s' →
  ∃ s1, (if tx_IsZerocoinMint tx then connect_mints tx s (vout tx) else Passed s) = Passed s1 ∧
        cs_vSpends s' = cs_vSpends s1 ∧ cs_vMints s' = cs_vMints s1.
Proof.
  destruct cb; [|by intros _ ?%connect_inputs_zerocoins]. intros Hcb [= <-].
  rewrite coinbase_no_mint by done. by exists s.
Qed.

Lemma connect_tx_zerocoins heightOf fV fS th h first tx s s' :
  connect_tx Params heightOf fV fS th h first tx s = Passed s' →
  ∃ ss ms, cs_vSpends s' = cs_vSpends s ++ map (., tx_GetHash tx) ss ∧
           cs_vMints s' = cs_vMints s ++ map (., tx_GetHash tx) ms ∧ tx_zerocoins tx ss ms.
Proof.
  unfold connect_tx, tx_zerocoins. intros Hp. passed Hp. destruct (_ <? u32 _); [done|]. passed Hp. rename r0 into zs, E0 into Ezs.
  passed Hp. rename r0 into s1, E0 into Es1. passed Hp. passed Hp. destruct r1. injection Hp as <-. cbn [cs_vSpends cs_vMints].
  destruct zs.
  - destruct (match IsTransactionInChain _ with Some _ => _ | None => _ end); [done|]. passed Es1. rename E2 into Esp. apply connect_spends_zerocoins in Esp as (ss & Hs & Hm & He & Hl).
    apply mints_zerocoins in Es1 as (ms & Hm1 & Hs1 & He1 & Hl1).
    exists ss, ms. rewrite Hm1, Hs1, Hs, Hm. split_and!; [done..| |done|done].
    intros db. destruct (He db) as (db1 & E1' & Her1), (He1 db1) as (db2 & E2' & Her2). exists db2. unfold erase_zerocoins. rewrite Ezs.
    cbn [mbind outcome_bind defined]. rewrite E1'. split; [done|]. apply (erased_trans _ _ _ ss [] [] ms Her1) in Her2. by rewrite app_nil_r in Her2.
  - passed Es1. rename r1 into cb, E2 into Ecb.
    apply other_zerocoins in Es1 as (s2 & Es2 & -> & ->); [|done].
    apply mints_zerocoins in Es2 as (ms & Hm1 & Hs1 & He1 & Hl1). exists [], ms. rewrite Hm1, Hs1, app_nil_r.
    split_and!; [done..| |done|done]. intros db. destruct (He1 db) as (db1 & ? & ?). exists db1. unfold erase_zerocoins. by rewrite Ezs.
Qed.

(** * The transactions of a block *)

Lemma connect_txs_zerocoins heightOf fV fS th h first l s s' :
  connect_txs Params heightOf fV fS th h first l s = Passed s' →
  ∃ vs vm, cs_vSpends s' = cs_vSpends s ++ vs ∧ cs_vMints s' = cs_vMints s ++ vm ∧
    (∀ db, ∃ db', erase_txs db (rev l) = Passed db' ∧ erased db db' vs.*1 vm.*1) ∧
    (∀ db, fresh_zerocoins db l →
       Forall (λ x, ReadCoinSpend db x = None) vs.*1 ∧ Forall (λ x, ReadCoinMint db x = None) vm.*1).
Proof.
  revert first s. induction l as [|tx l IH]; intros first s; cbn [connect_txs].
  { intros [= <-]. exists [], []. rewrite !app_nil_r. split_and!; [done..| |done]. intros db. by exists db. }
  intros Hp. passed Hp. apply connect_tx_zerocoins in E as (ss & ms & Hs & Hm & He & Hss & Hms).
  apply IH in Hp as (vs & vm & Hs1 & Hm1 & He1 & Hf1).
  exists (map (., tx_GetHash tx) ss ++ vs), (map (., tx_GetHash tx) ms ++ vm). rewrite Hs1, Hm1, Hs, Hm.
  assert (∀ l : list Z, (map (., tx_GetHash tx) l).*1 = l) as Hfst by (intros k; induction k as [|x k IHk]; [done|cbn; by f_equal]).
  rewrite !fmap_app, !Hfst. split_and!; [by rewrite app_assoc..| |].
  - intros db. destruct (He1 db) as (db1 & E1 & Her1), (He db1) as (db2 & E2 & Her2). exists db2. split.
    + cbn [rev]. rewrite erase_txs_app, E1. cbn [mbind outcome_bind erase_txs]. by rewrite E2.
    + eapply erased_perm; [..|exact (erased_trans _ _ _ _ _ _ _ Her1 Her2)]; apply Permutation_app_comm.
  - intros db Hf. apply Forall_cons in Hf as [[Hfi Hfo] Hf]. destruct (Hf1 db Hf) as [HA HB].
    rewrite Forall_forall in Hfi; rewrite Forall_forall in Hfo. split; apply Forall_app; split; try done.
    + eapply Forall_impl; [exact Hss|]. intros x (i & d & Hi & Ei). by eapply Hfi.
    + eapply Forall_impl; [exact Hms|]. intros x (o & Ho & Eo). by eapply Hfo.
Qed.

(** Recording touches the keys only. *)
Lemma record_zerocoins_other db vs vm :
  let db' := record_zerocoins db vs vm in
  (∀ k, k ∉ map GetSerialHash vs.*1 → db_spends db' !! k = db_spends db !! k) ∧
  (∀ k, k ∉ map GetPubCoinHash vm.*1 → db_mints db' !! k = db_mints db !! k) ∧
  db_accumulators db' = db_accumulators db.
Proof.
  unfold record_zerocoins. assert (∀ db vs, let db1 := foldl (λ db '(serial, txid), WriteCoinSpend db serial txid) db vs in
    (∀ k, k ∉ map GetSerialHash vs.*1 → db_spends db1 !! k = db_spends db !! k) ∧
    db_mints db1 = db_mints db ∧ db_accumulators db1 = db_accumulators db) as HA.
  { clear. intros db vs. revert db. induction vs as [|[x t] vs IH]; intros db; [done|]. cbn.
    destruct (IH (WriteCoinSpend db x t)) as (IH1 & -> & ->). split_and!; [|done..].
    intros k [Hx Hk]%not_elem_of_cons. rewrite IH1 by done. by apply lookup_insert_ne. }
  destruct (HA db vs) as (Hs & <- & <-). clear HA. generalize dependent (foldl (λ db '(serial, txid), WriteCoinSpend db serial txid) db vs).
  intros db1 Hs. cbv zeta. assert (∀ vm db2, let db3 := WriteCoinMintBatch db2 vm in
    db_spends db3 = db_spends db2 ∧
    (∀ k, k ∉ map GetPubCoinHash vm.*1 → db_mints db3 !! k = db_mints db2 !! k) ∧ db_accumulators db3 = db_accumulators db2) as HB.
  { clear. unfold WriteCoinMintBatch. induction vm as [|[x t] vm IH]; intros db; [done|]. cbn.
    destruct (IH (WriteCoinMint db x t)) as (-> & IH1 & ->). split_and!; [done| |done].
    intros k [Hx Hk]%not_elem_of_cons. rewrite IH1 by done. by apply lookup_insert_ne. }
  destruct (HB vm db1) as (-> & Hm & ->). by split_and!.
Qed.

Lemma record_erased db vs vm db' :
  Forall (λ x, ReadCoinSpend db x = None) vs.*1 → Forall (λ x, ReadCoinMint db x = None) vm.*1 →
  erased (record_zerocoins db vs vm) db' vs.*1 vm.*1 → db' = db.
Proof.
  intros HA HB (Hs & Hm & Ha). destruct (record_zerocoins_other db vs vm) as (Os & Om & Oa). rewrite Oa in Ha.
  rewrite Forall_forall in HA; rewrite Forall_forall in HB. destruct db as [s m a], db' as [s' m' a']. simpl in *. subst. f_equal; apply map_eq; intros k.
  - rewrite Hs. case_decide as Hk; [|by apply Os]. apply list_elem_of_fmap in Hk as (x & -> & Hx). symmetry. by apply HA.
  - rewrite Hm. case_decide as Hk; [|by apply Om]. apply list_elem_of_fmap in Hk as (x & -> & Hx). symmetry. by apply HB.
Qed.

Lemma set_record_erased db vs vm acc db' :
  Forall (λ x, ReadCoinSpend db x = None) vs.*1 → Forall (λ x, ReadCoinMint db x = None) vm.*1 →
  erased (set_accumulators (record_zerocoins db vs vm) acc) db' vs.*1 vm.*1 → db' = set_accumulators db acc.
Proof.
  intros HA HB (Hs & Hm & Ha). cbn [set_accumulators db_spends db_mints db_accumulators] in *.
  assert (set_accumulators db' (db_accumulators (record_zerocoins db vs vm)) = db) as <-; [|destruct db'; cbn in *; by subst].
  by apply (record_erased db vs vm).
Qed.

End zerocoin.
