(* ===== verification/BlockCheckFacts.v ===== *)
(** A block that passes [CheckBlock], and connecting and disconnecting whole blocks. *)

From S2P Require Import Prelude ChainParams BlockIndex Pow Script PubKey Interpreter Serialize Transaction TransactionFacts SigHash Coins CoinsFacts CoinsView CoinsViewFacts Bignum ZerocoinDB Validation ValidationFacts ConnectFacts Merkle MerkleFacts BlockCheck ConnectZerocoinFacts.

Section block.
Context (Params : CChainParams) `{HF : HashFunctions} `{HS : Secp256k1} `{HZ : ZerocoinChecks}.

Lemma any_coinbase_false l : any_coinbase l = Some false → Forall (λ tx, IsCoinBase tx = Some false) l.
Proof.
  induction l as [|tx l IH]; [done|]. cbn [any_coinbase]. destruct (IsCoinBase tx) as [[]|] eqn:E; [done| |done].
  intros Hl. constructor; [done|by apply IH].
Qed.

Lemma check_transactions_all serials l :
  check_transactions Params serials l = Passed tt → Forall (λ tx, CheckTransaction Params tx true = Passed tt) l.
Proof.
  revert serials. induction l as [|tx l IH]; intros serials; [done|]. cbn [check_transactions]. intros Hp.
  passed Hp. destruct r. passed Hp. passed Hp. constructor; [done|by eapply IH].
Qed.

Lemma check_merkle_passed b :
  check_merkle b = Passed tt ↔ ∃ t, BuildMerkleTree (vtx b) = Some (t, hashMerkleRoot (header b), false).
Proof.
  unfold check_merkle. destruct (BuildMerkleTree (vtx b)) as [[[t r] m]|]; cbn [defined mbind outcome_bind]; [|by split; [|intros [? [=]]]].
  case_bool_decide as E; cbn [negb].
  - rewrite E. destruct m; split; try done; [by intros [? [=]]|intros _; by exists t].
  - split; [done|]. intros [t' [= _ -> _]]. done.
Qed.

(** What [CheckBlock] with the check of the merkle root ensures. *)
Lemma CheckBlock_spec adjustedTime b fCheckPOW fCheckSig :
  CheckBlock Params adjustedTime b fCheckPOW true fCheckSig = Passed tt →
  (Transaction.IsProofOfStake b = false → CheckProofOfWork Params (header_GetHash (header b)) (hdr_nBits (header b)) = true) ∧
  hdr_nTime (header b) ≤ adjustedTime + 7200 ∧
  (∃ t, BuildMerkleTree (vtx b) = Some (t, hashMerkleRoot (header b), false)) ∧
  (∃ tx rest, vtx b = tx :: rest ∧ IsCoinBase tx = Some true ∧ Forall (λ tx, IsCoinBase tx = Some false) rest) ∧
  Forall (λ tx, CheckTransaction Params tx true = Passed tt) (vtx b) ∧
  (∃ n, legacy_sigops 0 (vtx b) = Some n ∧ n ≤ 40000).
Proof.
  unfold CheckBlock, CheckBlockHeader, IsProofOfWork. intros Hp.
  destruct (negb (Transaction.IsProofOfStake b) && _) eqn:Ew; [done|].
  destruct (_ <? hdr_nTime (header b)) eqn:Et; [done|]. passed Hp. destruct r. rename E into Em. apply check_merkle_passed in Em.
  destruct (_ || _); [done|]. destruct (vtx b) as [|tx rest] eqn:Ev; [done|]. passed Hp. destruct r; [|done]. rename E into Ecb. cbn [negb] in Hp.
  passed Hp. destruct r; [done|]. passed Hp. passed Hp. destruct r0. passed Hp. rename r0 into n.
  destruct (MAX_BLOCK_SIGOPS_CURRENT <? n) eqn:En; [done|]. split_and!.
  - intros Hs. rewrite Hs in Ew. cbn [negb andb] in Ew. by apply negb_false_iff in Ew.
  - apply Z.ltb_ge in Et. destruct (Transaction.IsProofOfStake b); lia.
  - done.
  - exists tx, rest. split_and!; [done..|by apply any_coinbase_false].
  - by eapply check_transactions_all.
  - exists n. split; [done|]. apply Z.ltb_ge in En. exact En.
Qed.

(** C15: A block that passes [CheckBlock]: its proof of work is valid unless it is a
    proof-of-stake block; it is at most two hours ahead of the clock; the merkle
    root in its header is that of its transactions, without a mutation; the first
    transaction is a coinbase and no other one is; every transaction passes
    [CheckTransaction]; there are at most 40,000 signature operations.  The header
    determines the transactions: another block with the same header that passes as
    well has the same transaction ids, if the merkle trees have the same height and
    the hash has no collision among the pairs hashed for them. *)
Theorem CheckBlock_sound adjustedTime b fCheckPOW fCheckSig :
  CheckBlock Params adjustedTime b fCheckPOW true fCheckSig = Passed tt →
  (Transaction.IsProofOfStake b = false → CheckProofOfWork Params (header_GetHash (header b)) (hdr_nBits (header b)) = true) ∧
  hdr_nTime (header b) ≤ adjustedTime + 7200 ∧
  hashMerkleRoot (header b) = merkle_root (map tx_GetHash (vtx b)) ∧
  (∃ tx rest, vtx b = tx :: rest ∧ IsCoinBase tx = Some true ∧ Forall (λ tx, IsCoinBase tx = Some false) rest) ∧
  Forall (λ tx, CheckTransaction Params tx true = Passed tt) (vtx b) ∧
  (∃ n, legacy_sigops 0 (vtx b) = Some n ∧ n ≤ 40000) ∧
  ∀ b' t, header b' = header b → CheckBlock Params t b' fCheckPOW true fCheckSig = Passed tt →
    length (all_levels (map tx_GetHash (vtx b'))) = length (all_levels (map tx_GetHash (vtx b))) →
    collision_free (hashed (map tx_GetHash (vtx b)) ++ hashed (map tx_GetHash (vtx b'))) →
    map tx_GetHash (vtx b') = map tx_GetHash (vtx b).
Proof.
  intros Hc. destruct (CheckBlock_spec _ _ _ _ Hc) as (Hw & Ht & [t Hm] & Hcb & Htx & Hs).
  split_and!; [done..| |done|done|done|].
  - rewrite BuildMerkleTree_spec in Hm. by injection Hm.
  - intros b' t' Eh Hc' Hlen Hcol. destruct (CheckBlock_spec _ _ _ _ Hc') as (_ & _ & [t2 Hm'] & Hcb' & _). rewrite Eh in Hm'.
    destruct Hcb as (x & xs & Ex & _), Hcb' as (y & ys & Ey & _). symmetry. apply (merkle_ids_inj (vtx b) (vtx b') t t2 (hashMerkleRoot (header b))); try done.
    + by rewrite Ex.
    + by rewrite Ey.
Qed.

(** * Connecting *)

Hypothesis max_money : 0 ≤ nMaxMoneyOut Params < 2 ^ 62.

Lemma GetBestBlock_cache v : is_cache (GetBestBlock v).2 = is_cache v.
Proof. destruct v as [|h cache base]; [done|]. cbn [GetBestBlock]. case_match; [|done]. by destruct (GetBestBlock base). Qed.

Lemma ConnectBlock_spec heightOf t est genesis fV th ti b pindex v db fAlreadyChecked v' c :
  ConnectBlock Params heightOf t est genesis fV th ti b pindex v db false fAlreadyChecked = Passed (v', Some c) →
  (fAlreadyChecked = false → CheckBlock Params t b true true true = Passed tt) ∧
  (match idx_prev pindex with Some p => p.1 | None => uint256_null end) = best_block v ∧
  ∃ v0 s h, same_view v v0 ∧ is_cache v0 = is_cache v ∧ idx_phashBlock pindex = Some h ∧
    connect_txs Params heightOf fV (est <=? idx_nHeight pindex) th (idx_nHeight pindex) true (vtx b)
      (ConnectState v0 [] 0 0 0 0 [] [] []) = Passed s ∧
    v' = SetBestBlock (cs_view s) h ∧ con_undo c = cs_undo s ∧ 
    ∃ acc, con_db c = set_accumulators (record_zerocoins db (cs_vSpends s) (cs_vMints s)) acc.
Proof.
  unfold ConnectBlock. intros Hp. passed Hp. destruct r. rename E into Ec.
  pose proof (GetBestBlock_spec v) as Hb. pose proof (GetBestBlock_cache v) as Hcache.
  destruct (GetBestBlock v) as [best v0]. destruct Hb as [-> Hs]. cbn [snd] in Hcache.
  case_bool_decide as Ep; [|done]. cbn [negb] in Hp. case_bool_decide as Eg; [by passed Hp|].
  destruct (_ && Transaction.IsProofOfStake b); [done|]. destruct (_ && IsProofOfWork b); [done|].
  passed Hp. rename r into v1, E into Ev1. passed Hp. rename r into s, E into Es. passed Hp. destruct (negb r) eqn:Er; [done|]. clear E Er r.
  passed Hp. destruct r as [ph pm]. passed Hp. destruct (negb r) eqn:Er; [done|]. clear E0 Er r. passed Hp. destruct (negb r) eqn:Er; [done|]. clear E0 Er r.
  passed Hp. rename r into acc. clear E0. passed Hp. rename r into h, E0 into Eh. rewrite Eh in Ev1. injection Ev1 as <-. injection Hp as <- <-.
  split_and!; [by intros ->|done|]. exists v0, s, h. split_and!; try done. by exists acc.
Qed.

(** C1: Disconnecting a block undoes connecting it.  After [ConnectBlock] has accepted
    a block and made it the best one, [DisconnectBlock] with the undo data that was
    recorded succeeds, finds everything as it should be ([fClean]), makes the
    previous block the best one again and restores every entry of the coin
    database; the only difference is that entries of earlier blocks may have lost
    their coinstake flag ([near]).  The ids of the block must be new, which
    [ConnectBlock] itself does not check for a block of the index.  If the
    serial numbers and the coins of the block are new, they are gone from the zerocoin
    database again and nothing else of it has changed, except for the accumulator
    values, of which those are left that the erasure of a new checkpoint leaves
    ([acc]). *)
Theorem ConnectBlock_DisconnectBlock heightOf t est genesis fV th ti b pindex v db v' c cp cp' acc :
  let h := idx_nHeight pindex in
  0 < h < 2 ^ 31 → 0 < nMaturity Params → heightOf (best_block v) = Some (h - 1) →
  Forall tx_ok (vtx b) → fresh_ids (utxo v) (vtx b) → uint256_IsNull (best_block v) = false →
  (∀ hash, idx_phashBlock pindex = Some hash → uint256_IsNull hash = false) →
  view_ok v → is_cache v = true → state_wf (utxo v) →
  ConnectBlock Params heightOf t est genesis fV th ti b pindex v db false false = Passed (v', Some c) → fresh_zerocoins db (vtx b) →
  checkpoint_values fV cp cp' (db_accumulators (con_db c)) = Passed acc →
  ∃ hash v2, idx_phashBlock pindex = Some hash ∧ best_block v' = hash ∧
    DisconnectBlock fV (vtx b) (con_undo c) hash (best_block v) h cp cp' v' (con_db c) = Passed (true, v2, set_accumulators db acc) ∧
    view_ok v2 ∧ best_block v2 = best_block v ∧ near h (utxo v) (utxo v2).
Proof.
  intros h Hh Hmat Hhp Htx Hfresh Hn1 Hn2 Hok Hc Hwf Hp Hz Hacc.
  apply ConnectBlock_spec in Hp as (Hcheck & _ & v0 & s & hash & Hs & Hc0 & Eh & Hcon & -> & -> & acc1 & Edb). rewrite Edb in *.
  specialize (Hcheck eq_refl). apply CheckBlock_spec in Hcheck as (_ & _ & _ & (tx & rest & Ev & Hcb & _) & _).
  destruct (connect_txs_zerocoins _ _ _ _ _ _ _ _ _ _ Hcon) as (vs & vm & Es & Em & He & Hzf).
  cbn [cs_vSpends cs_vMints app] in Es, Em. destruct (Hzf db Hz) as [Hfs Hfm].
  rewrite Es, Em in *. destruct (He (set_accumulators (record_zerocoins db vs vm) acc1)) as (db' & Edb' & Her).
  apply set_record_erased in Her as ->; [|done..]. cbn [set_accumulators db_accumulators] in Hacc.
  rewrite <-(same_best _ _ Hs) in *. assert (∀ t, utxo v0 t = utxo v t) as Hu by (intros; by apply same_utxo).
  assert (fresh_ids (utxo v0) (vtx b)) as Hfresh0.
  { destruct Hfresh as [Hd Hf]. split; [done|]. eapply Forall_impl; [exact Hf|]. intros tx' Htx'. cbv beta in *. by rewrite Hu. }
  assert (state_wf (utxo v0)) as Hwf0 by (intros t' c'; rewrite Hu; apply Hwf).
  pose proof (same_ok _ _ Hs Hok) as Hok0. rewrite Hc in Hc0. specialize (Hn2 hash Eh).
  destruct (connect_disconnect_block Params max_money heightOf fV (est <=? idx_nHeight pindex) th h (vtx b) v0 s hash (set_accumulators (record_zerocoins db vs vm) acc1) (set_accumulators db acc1) Hh Hmat Hhp)
    with (acc := acc) (cp := cp) (cp' := cp') (fV' := fV)
    as (Hb' & v2 & E2 & Hok2 & Hb2 & Hnear); try done.
  - by rewrite Ev.
  - intros tx'. rewrite Ev. intros [= <-]. unfold no_inputs. by rewrite Hcb.
  - exists hash, v2. split_and!; try done. intros t'. rewrite <-Hu. apply Hnear.
Qed.
End block.

(** * Examples *)

(** The block of ConnectFacts.v with its header. *)
Definition full_block : CBlock :=
  Block (BlockHeader 1 two_txid (@merkle_root example_hashes (map (@tx_GetHash example_hashes) example_block)) 0 0 0 uint256_null)
    example_block [].
Definition empty_db : CZerocoinDB := ZerocoinDB ∅ ∅ ∅.
Definition full_index : block_index := BlockIdx (Some [1]) 100 (Some (two_txid, 0)).

Lemma CheckBlock_sound_witness :
  hashMerkleRoot (header full_block) = @merkle_root example_hashes (map (@tx_GetHash example_hashes) (vtx full_block)).
Proof.
  refine (proj1 (proj2 (proj2 (@CheckBlock_sound testNetParams example_hashes no_zerocoin 0 full_block true true _)))).
  vm_compute. reflexivity.
Defined.

Lemma ConnectBlock_DisconnectBlock_witness :
  match @ConnectBlock testNetParams example_hashes example_secp no_zerocoin (λ _, Some 99) 0 0 uint256_null false false false
          full_block full_index two_view empty_db false false with
  | Passed (v', Some c) =>
      match @DisconnectBlock example_hashes no_zerocoin false (vtx full_block) (con_undo c) [1] two_txid 100 uint256_null uint256_null v' (con_db c) with
      | Passed (fClean, v2, _) => fClean = true ∧ utxo v2 two_txid = Some two_coins
      | _ => False
      end
  | _ => False
  end.
Proof.
  destruct (@ConnectBlock testNetParams example_hashes example_secp no_zerocoin (λ _, Some 99) 0 0 uint256_null false false false
    full_block full_index two_view empty_db false false) as [| |[v' [c|]]] eqn:E; [by vm_compute in E..| |by vm_compute in E].
  destruct (@ConnectBlock_DisconnectBlock testNetParams example_hashes example_secp no_zerocoin ltac:(vm_compute; split; congruence)
    (λ _, Some 99) 0 0 uint256_null false false false full_block full_index two_view empty_db v' c uint256_null uint256_null ∅) as (hash & v2 & Eh & _ & E2 & _ & _ & Hnear).
  - cbn [full_index idx_nHeight]. lia.
  - by vm_compute.
  - reflexivity.
  - apply (bool_decide_unpack (Forall tx_ok example_block)). vm_compute. exact I.
  - exact example_fresh.
  - reflexivity.
  - intros hash [= <-]. reflexivity.
  - apply two_view_ok.
  - reflexivity.
  - apply two_view_wf.
  - exact E.
  - by repeat constructor.
  - clear -E. vm_compute in E. by injection E as <- <-.
  - injection Eh as <-. change (best_block two_view) with two_txid in E2. cbn [full_index idx_nHeight] in E2, Hnear. rewrite E2. split; [done|].
    destruct (Hnear two_txid) as [->|(c' & Hc & -> & _)]; [by vm_compute|]. rewrite two_view_utxo, decide_True in Hc by done.
    by injection Hc as <-.
Defined.

(** Nothing limits what a coinbase pays: twenty million coins pass. *)
Definition mint_block : list CMutableTransaction :=
  [MTx 1 [TxIn (OutPoint uint256_null (2 ^ 32 - 1)) [1; 2] SEQUENCE_FINAL []] [TxOut (20000000 * COIN) [OP_1] (-10)] 0].
Lemma coinbase_unlimited :
  let b := Block (BlockHeader 1 two_txid (@merkle_root example_hashes (map (@tx_GetHash example_hashes) mint_block)) 0 0 0 uint256_null) mint_block [] in
  match @ConnectBlock testNetParams example_hashes example_secp no_zerocoin (λ _, Some 99) 0 0 uint256_null false false false
          b full_index two_view empty_db false false with
  | Passed (_, Some c) => nMint c = 20000000 * COIN
  | _ => False
  end.
Proof. vm_compute. reflexivity. Qed.
