(* ===== verification/Zerocoin.v ===== *)
(** libzerocoin: parameters, coins, the accumulator and its witnesses, the three
    proofs of knowledge and the spend that composes them.  Random numbers are
    arguments of the constructors that use them, and [CoinSpend_new] draws them with a
    given generator; [None] is a thrown exception or an
    access out of range.  The moduli [IntegerMod<T>::Mod] are an interface; those of
    ModulusType.h are [getModulus] of Bignum.v. *)

From Stdlib Require Import String Ascii.
From S2P Require Import Prelude CryptoCommon Serialize Transaction PubKey Interpreter Bignum.

(** A [std::string] literal as bytes, serialized like a vector. *)
Definition str (s : string) : list Z := map (λ a, Z.of_nat (nat_of_ascii a)) (list_ascii_of_string s).
Definition Serialize_string (s : string) : list Z := Serialize_bytes (str s).

(** * Denominations.h, Denominations.cpp *)

Inductive CoinDenomination :=
  | ZQ_ERROR | ZQ_ONE | ZQ_FIVE | ZQ_TEN | ZQ_FIFTY | ZQ_ONE_HUNDRED | ZQ_FIVE_HUNDRED
  | ZQ_ONE_THOUSAND | ZQ_FIVE_THOUSAND.
#[export] Instance CoinDenomination_eq_dec : EqDecision CoinDenomination.
Proof. solve_decision. Defined.

Definition ZerocoinDenominationToInt (d : CoinDenomination) : Z :=
  match d with
  | ZQ_ONE => 1 | ZQ_FIVE => 5 | ZQ_TEN => 10 | ZQ_FIFTY => 50 | ZQ_ONE_HUNDRED => 100
  | ZQ_FIVE_HUNDRED => 500 | ZQ_ONE_THOUSAND => 1000 | ZQ_FIVE_THOUSAND => 5000 | ZQ_ERROR => 0
  end.
Definition IntToZerocoinDenomination (amount : Z) : CoinDenomination :=
  if amount =? 1 then ZQ_ONE else if amount =? 5 then ZQ_FIVE else if amount =? 10 then ZQ_TEN
  else if amount =? 50 then ZQ_FIFTY else if amount =? 100 then ZQ_ONE_HUNDRED
  else if amount =? 500 then ZQ_FIVE_HUNDRED else if amount =? 1000 then ZQ_ONE_THOUSAND
  else if amount =? 5000 then ZQ_FIVE_THOUSAND else ZQ_ERROR.

Definition zerocoinDenomList : list CoinDenomination :=
  [ZQ_ONE; ZQ_FIVE; ZQ_TEN; ZQ_FIFTY; ZQ_ONE_HUNDRED; ZQ_FIVE_HUNDRED; ZQ_ONE_THOUSAND; ZQ_FIVE_THOUSAND].

Definition ZerocoinDenominationToAmount (d : CoinDenomination) : Z := s64 (COIN * ZerocoinDenominationToInt d).
(** The divisions of C++ truncate. *)
Definition AmountToZerocoinDenomination (amount : Z) : CoinDenomination :=
  let residual_amount := amount - COIN * (amount `quot` COIN) in
  if residual_amount =? 0 then IntToZerocoinDenomination (amount `quot` COIN) else ZQ_ERROR.

(** The loop over [zerocoinDenomList]; [prev] is the entry before the current one. *)
Fixpoint closest_loop (nConvert : Z) (prev : option CoinDenomination) (l : list CoinDenomination) : CoinDenomination * Z :=
  match l with
  | [] => let d := default ZQ_ERROR prev in (d, nConvert - ZerocoinDenominationToInt d)
  | denomination :: l =>
      if nConvert =? ZerocoinDenominationToInt denomination then (denomination, 0)
      else match prev with
      | Some d =>
          if nConvert <? ZerocoinDenominationToInt denomination then (d, nConvert - ZerocoinDenominationToInt d)
          else closest_loop nConvert (Some denomination) l
      | None => closest_loop nConvert (Some denomination) l
      end
  end.
(** The second result is [nRemaining], left as it was when nothing is written. *)
Definition AmountToClosestDenomination (nAmount nRemaining : Z) : CoinDenomination * Z :=
  if nAmount <? 1 * COIN then (ZQ_ERROR, nRemaining)
  else closest_loop (nAmount `quot` COIN) None zerocoinDenomList.

Definition Serialize_denomination (d : CoinDenomination) : list Z := Serialize_int 4 (ZerocoinDenominationToInt d).
Definition Unserialize_denomination : decoder CoinDenomination :=
  f ← Unserialize_int 4; mret (IntToZerocoinDenomination f).

(** * Parameters *)

(** The members [g1] to [gb] are never used. *)
Record IntegerGroupParams := IntegerGroup {
  igp_initialized : bool; igp_g : Z; igp_h : Z; igp_modulus : Z; igp_groupOrder : Z }.
Record SerialNumberGroupParams := SerialNumberGroup {
  sgp_g : Z; sgp_h : Z; sgp_modulus : Z; sgp_groupOrder : Z }.
Record AccumulatorAndProofParams := AccumulatorParams {
  aap_initialized : bool;
  accumulatorModulus : Z;
  accumulatorBase : Z;
  accumulatorPoKCommitmentGroup : IntegerGroupParams;
  accumulatorQRNCommitmentGroup : IntegerGroupParams;
  minCoinValue : Z;
  maxCoinValue : Z;
  k_prime : Z;
  k_dprime : Z;
}.
Record ZerocoinParams := ZeroParams {
  zp_initialized : bool;
  accumulatorParams : AccumulatorAndProofParams;
  coinCommitmentGroup : IntegerGroupParams;
  serialNumberSoKCommitmentGroup : SerialNumberGroupParams;
  zkp_iterations : Z;
  zkp_hash_len : Z;
}.

Definition Serialize_IntegerGroup (p : IntegerGroupParams) : list Z :=
  Serialize_bool (igp_initialized p) ++ Serialize_bignum (igp_g p) ++ Serialize_bignum (igp_h p) ++
  Serialize_bignum (igp_modulus p) ++ Serialize_bignum (igp_groupOrder p).
Definition Serialize_SerialGroup (p : SerialNumberGroupParams) : list Z :=
  Serialize_bignum (sgp_g p) ++ Serialize_bignum (sgp_h p) ++
  Serialize_bignum (sgp_modulus p) ++ Serialize_bignum (sgp_groupOrder p).
Definition Serialize_AccumulatorParams (p : AccumulatorAndProofParams) : list Z :=
  Serialize_bool (aap_initialized p) ++ Serialize_bignum (accumulatorModulus p) ++ Serialize_bignum (accumulatorBase p) ++
  Serialize_IntegerGroup (accumulatorPoKCommitmentGroup p) ++ Serialize_IntegerGroup (accumulatorQRNCommitmentGroup p) ++
  Serialize_bignum (minCoinValue p) ++ Serialize_bignum (maxCoinValue p) ++
  Serialize_uint 4 (k_prime p) ++ Serialize_uint 4 (k_dprime p).
Definition Serialize_ZerocoinParams (p : ZerocoinParams) : list Z :=
  Serialize_bool (zp_initialized p) ++ Serialize_AccumulatorParams (accumulatorParams p) ++
  Serialize_IntegerGroup (coinCommitmentGroup p) ++ Serialize_SerialGroup (serialNumberSoKCommitmentGroup p) ++
  Serialize_uint 4 (zkp_iterations p) ++ Serialize_uint 4 (zkp_hash_len p).

(** The constructor [ZerocoinParams(securityLevel)]. *)
Definition ZerocoinParams_of (securityLevel : Z) : ZerocoinParams :=
  ZeroParams true
    (AccumulatorParams true (getModulus ACCUMULATOR_MODULUS) 961
      (IntegerGroup false
        0x1d5868e648ac6d41756e0409a510ff5a54bf1ebad22904ab359af54bb0d20a599324cba5ef004d7837cfa6b5904dbc221de6332101df5ef8d99992e8d5679969cc3221c0ba7
        0x408f47ff9a66729f6e6ad9796ce794e702995429c7f621294491042b63e1db4ed3cd9572e69fd82bd8cadf3e386dceb4064838be8310576460c3d4f40670b2d14b12ac23a86
        (getModulus ACCUMULATOR_POK_COMMITMENT_MODULUS) (getModulus ACCUMULATOR_POK_COMMITMENT_GROUP))
      (IntegerGroup false
        0x6324dc564e2b4afec9cabebb4d77daf9bac097fc2b72caffb0fd6db968ce1e4aff24137928fefecd636b8a987b5879e06b1ab52b1d69b2caf5a0102328680fda67440691c7d36429560ead7490a21d90d92bd216e47a04ed810d3b4a79182dfbea9ff48d9631c6a5139c805d7a1ea5e320b96b4fbc192ed8c957d5318fbc45b00bd911c58783b266ec71cad61a7b79236d2936024869d64dfb003173491932ba487dae5f6e7b089445f0579297c221f7953c1143b4c9eae022f2c171401e6f49d89369ad0ef6ccd169f4b84a1e8cfe241bb2bacf362b18e967a379775b70f176f269a96c5e51f16b9c7e902336e293fcf45f1769d58d705075966ce97377f63a
        0x61a3be57d109c4bd2560ed3d52fb1b153612af0fecd25795ea0c64ef7fa730f081d2b2fd12d4d3f52b6d524fe47e07bed9397711491d4e012b7d744ebd37b448726f38fd9252b16111a4454dbda10f0d4eb6b76b78cecfb37c1061d2cc7d75d73b5a59f508214caa29e0cc35f21968324b39d477007905d345cbb262b2574550f146c7371b4ce09fb804eba9bfeae2c68d22a585e7264402accd7863c49e1073a0358a14f70e00662591bbdc2d4dc6a4fae0390757f128ee320bd7cb51f50ed0f64721fe11b116f00234ec807f56a85ce1649a6026eb9179e97d00323cf6a2109e6a4b6d60b38a4f36744e2884442a62b48fd395dce9b6f7b5c564c6ef47d802
        0 0)
      0x800000000000000000000000000000000000000000000000000000000000000000000000000000000000000000000000000000000000000000000000000000000
      (getModulus COIN_COMMITMENT_MODULUS) 160 128)
    (IntegerGroup false
      0x9a7fd6508dfa79258e50019ab6cb59b4f91b2823dcd9250fb3ccf9fd8263b29a15b005c429915cec63e7d3eba1da337f45dd713246c41e39ac671cf2f87adfc6d45c842ae7ad21ed291e3a48b2a6e5d39381f6d4a9ab83d5aaa5031d17554df70cf5ecfe10096cf1a565d0f826b71eb4d105a3016afc445613f04ffbd0dd4162
      0xccbbdd469de23cfba19728b625ee7b197b60389eebb7383ec63184fe6ddc94acf0e6e68eb49523acff5e4d0c6fd20b744df744c1a7b554140d110e6398040425790fe3b9b32e87238f0338c4f52e3f9b84bef7bceace17f26ada12fa5e1ca0d992b79599f0ef29b66c323b88c1471d9367f991604a97414f99f748ead3d38622
      (getModulus COIN_COMMITMENT_MODULUS)
      0xa33a39fceb03fef51aa5f50322b557664a8364d7ad0ada150487fae8576af9e3)
    (SerialNumberGroup
      0x755af74f335a187e660d329f9ff1f2186b8e087797b3043ce17dd4fe734359fa17d5aa2e4190afee489b0a1fee25c9fc08836cb658bdeb7efe63fc75e67e3dc3514b2bed4685f82ed104c7ad7c19d171e8dbd589d4c8888e70eec79c5a2d72e6346c91d17e7af34482a5d446423059dba15e857d4020bcd5095429da2886990032
      0x5e257cc3861dfbbd85a95f16fdc867780188c0bc469a7744871f9fa79cfb942d3eb60642736d3e6db940f69fd05d19d57a2b1aa686ad8d2695b39fef8a4c6c92c99636a6172e5b2b9df49e113508185d15b18158f05d63fa4d6819c126f9065b01183043a17022f6c583735797f3e72c3c9c2485327127158e4cf0eb23391d739
      (getModulus SERIAL_NUMBER_SOK_COMMITMENT_MODULUS) (getModulus SERIAL_NUMBER_SOK_COMMITMENT_GROUP))
    securityLevel securityLevel.

(** * Commit.h, Commitment.h *)

(** [IntegerMod<T>::Mod] *)
Class Moduli := Mod : ModulusType → Z.

Record Commitment := Commit { randomness : Z; serial : Z; commitmentValue : Z }.

Section proofs.
Context `{HF : HashFunctions} `{HG : Gmp} `{HM : Moduli}.

(** [commit<T, G>(g1, h1, S, R)]; the overload without [R] draws it. *)
Definition commit (T : ModulusType) (g1 h1 S R : Z) : Commitment :=
  let g := im_of (Mod T) g1 in
  let h := im_of (Mod T) h1 in
  Commit R S (im_mul (Mod T) (im_pow (Mod T) g S) (im_pow (Mod T) h R)).

(** * CommitmentProofOfKnowledge.cpp *)

Definition COMMITMENT_EQUALITY_CHALLENGE_SIZE : Z := 256.
Definition COMMITMENT_EQUALITY_SECMARGIN : Z := 512.

Record CommitmentProofOfKnowledge := CommitmentPoK { S1 : Z; S2 : Z; S3 : Z; challenge : Z }.

Definition calculateChallenge (ap : SerialNumberGroupParams) (bp : IntegerGroupParams) (a b commitOne commitTwo : Z) : Z :=
  setuint256 (Hash256 (
    Serialize_string "COMMITMENT_EQUALITY_PROOF" ++ Serialize_bignum commitOne ++ Serialize_string "||" ++
    Serialize_bignum commitTwo ++ Serialize_string "||" ++ Serialize_bignum a ++ Serialize_string "||" ++
    Serialize_bignum b ++ Serialize_string "||" ++ Serialize_SerialGroup ap ++ Serialize_string "||" ++
    Serialize_IntegerGroup bp)).

(** The range of the random numbers [r1], [r2], [r3]. *)
Definition equality_maxRange (ap : SerialNumberGroupParams) (bp : IntegerGroupParams) : Z :=
  let randomSize := COMMITMENT_EQUALITY_CHALLENGE_SIZE + COMMITMENT_EQUALITY_SECMARGIN +
    Z.max (Z.max (bitSize (sgp_modulus ap)) (bitSize (igp_modulus bp)))
      (Z.max (bitSize (sgp_groupOrder ap)) (bitSize (igp_groupOrder bp))) in
  bn_pow 2 randomSize - 1.

Definition CommitmentProofOfKnowledge_of (ap : SerialNumberGroupParams) (bp : IntegerGroupParams) (a b : Commitment)
    (r1 r2 r3 : Z) : option CommitmentProofOfKnowledge :=
  if negb (serial a =? serial b) then None
  else
    let p1 := Mod SERIAL_NUMBER_SOK_COMMITMENT_MODULUS in
    let p2 := Mod ACCUMULATOR_POK_COMMITMENT_MODULUS in
    let g1 := im_of p1 (sgp_g ap) in
    let h1 := im_of p1 (sgp_h ap) in
    let g2 := im_of p2 (igp_g bp) in
    let h2 := im_of p2 (igp_h bp) in
    let T1 := im_mul p1 (im_pow p1 g1 r1) (im_pow p1 h1 r2) in
    let T2 := im_mul p2 (im_pow p2 g2 r1) (im_pow p2 h2 r3) in
    let challenge := calculateChallenge ap bp (commitmentValue a) (commitmentValue b) T1 T2 in
    Some (CommitmentPoK (r1 + serial a * challenge) (r2 + randomness a * challenge) (r3 + randomness b * challenge) challenge).

Definition equality_maxSize : Z :=
  u32 (64 * (COMMITMENT_EQUALITY_CHALLENGE_SIZE + COMMITMENT_EQUALITY_SECMARGIN +
    Z.max (Z.max (bitSize (Mod SERIAL_NUMBER_SOK_COMMITMENT_MODULUS)) (bitSize (Mod ACCUMULATOR_POK_COMMITMENT_MODULUS)))
      (Z.max (bitSize (Mod SERIAL_NUMBER_SOK_COMMITMENT_GROUP)) (bitSize (Mod ACCUMULATOR_POK_COMMITMENT_GROUP))))).

Definition CommitmentPoK_Verify (ap : SerialNumberGroupParams) (bp : IntegerGroupParams)
    (this : CommitmentProofOfKnowledge) (A B : Z) : bool :=
  let maxSize := equality_maxSize in
  if (maxSize <? u32 (bitSize (S1 this))) || (maxSize <? u32 (bitSize (S2 this))) || (maxSize <? u32 (bitSize (S3 this))) ||
     (S1 this <? 0) || (S2 this <? 0) || (S3 this <? 0) || (challenge this <? 0) ||
     (bn_pow 2 COMMITMENT_EQUALITY_CHALLENGE_SIZE - 1 <? challenge this)
  then false
  else
    let p1 := Mod SERIAL_NUMBER_SOK_COMMITMENT_MODULUS in
    let p2 := Mod ACCUMULATOR_POK_COMMITMENT_MODULUS in
    let A1 := im_of p1 A in
    let g1 := im_of p1 (sgp_g ap) in
    let h1 := im_of p1 (sgp_h ap) in
    let B2 := im_of p2 B in
    let g2 := im_of p2 (igp_g bp) in
    let h2 := im_of p2 (igp_h bp) in
    let T1 := im_div p1 (im_mul p1 (im_pow p1 g1 (S1 this)) (im_pow p1 h1 (S2 this))) (im_pow p1 A1 (challenge this)) in
    let T2 := im_div p2 (im_mul p2 (im_pow p2 g2 (S1 this)) (im_pow p2 h2 (S3 this))) (im_pow p2 B2 (challenge this)) in
    let computedChallenge := calculateChallenge ap bp A B T1 T2 in
    computedChallenge =? challenge this.

(** * PublicCoin.h, PrivateCoin.cpp *)

Record PublicCoin := PubCoin { pc_value : Z; pc_denomination : CoinDenomination }.
#[export] Instance PublicCoin_eq_dec : EqDecision PublicCoin.
Proof. solve_decision. Defined.

(** [PublicCoin(coin, d)] throws for the denomination 0. *)
Definition PublicCoin_of (coin : Z) (d : CoinDenomination) : option PublicCoin :=
  if decide (d = ZQ_ERROR) then None else Some (PubCoin coin d).
Definition PublicCoin_validate (p : AccumulatorAndProofParams) (iterations : Z) (c : PublicCoin) : bool :=
  (minCoinValue p <? pc_value c) && (pc_value c <? maxCoinValue p) && isPrime (pc_value c) iterations.

(** The key pair and the version of a [PrivateCoin] do not matter for the proofs. *)
Record PrivateCoin := PrivCoin { publicCoin : PublicCoin; coin_randomness : Z; serialNumber : Z }.
Definition PrivateCoin_of (p : ZerocoinParams) (denomination : CoinDenomination) (Serial Randomness : Z) : option PrivateCoin :=
  let c := commit COIN_COMMITMENT_MODULUS (igp_g (coinCommitmentGroup p)) (igp_h (coinCommitmentGroup p)) Serial Randomness in
  pc ← PublicCoin_of (commitmentValue c) denomination;
  Some (PrivCoin pc Randomness Serial).

(** * Accumulator.cpp, AccumulatorWitness.cpp *)

Record Accumulator := Acc { acc_value : Z; acc_denomination : CoinDenomination; acc_zkp_iterations : Z }.

Definition Accumulator_of (p : ZerocoinParams) (d : CoinDenomination) : Accumulator :=
  Acc (accumulatorBase (accumulatorParams p)) d (zkp_iterations p).
Definition Accumulator_at (p : ZerocoinParams) (bnValue : Z) (d : CoinDenomination) : Accumulator :=
  Acc (if negb (bnValue =? 0) then bnValue else accumulatorBase (accumulatorParams p)) d (zkp_iterations p).

Definition increment (p : AccumulatorAndProofParams) (a : Accumulator) (bnValue : Z) : Accumulator :=
  Acc (pow_mod (acc_value a) bnValue (accumulatorModulus p)) (acc_denomination a) (acc_zkp_iterations a).
Definition accumulate (p : AccumulatorAndProofParams) (a : Accumulator) (coin : PublicCoin) : option Accumulator :=
  if decide (acc_denomination a ≠ pc_denomination coin) then None
  else if PublicCoin_validate p (acc_zkp_iterations a) coin then Some (increment p a (pc_value coin))
  else None.

Record AccumulatorWitness := AccWitness { witness : Accumulator; element : PublicCoin }.

Definition AddElement (p : AccumulatorAndProofParams) (w : AccumulatorWitness) (c : PublicCoin) : option AccumulatorWitness :=
  if negb (pc_value (element w) =? pc_value c)
  then a ← accumulate p (witness w) c; Some (AccWitness a (element w))
  else Some w.
Definition VerifyWitness (p : AccumulatorAndProofParams) (w : AccumulatorWitness) (a : Accumulator) (publicCoin : PublicCoin) : option bool :=
  temp ← accumulate p (witness w) (element w);
  if negb (acc_value temp =? acc_value a) then Some false
  else if decide (element w ≠ publicCoin) then Some false
  else Some true.

(** * AccumulatorProofOfKnowledge.cpp *)

Record AccumulatorProofOfKnowledge := AccumulatorPoK {
  C_e : Z; C_u : Z; C_r : Z;
  st_1 : Z; st_2 : Z; st_3 : Z;
  t_1 : Z; t_2 : Z; t_3 : Z; t_4 : Z;
  s_alpha : Z; s_beta : Z; s_zeta : Z; s_sigma : Z; s_eta : Z; s_epsilon : Z;
  s_delta : Z; s_xi : Z; s_phi : Z; s_gamma : Z; s_psi : Z;
}.

(** The results of [randBignum] in the order of the calls; the fields [n_x] are those
    whose parity decides the sign of [r_x]. *)
Record accumulator_random := AccRandom {
  rnd_1 : Z; rnd_2 : Z; rnd_3 : Z;
  rnd_alpha : Z; n_alpha : Z;
  rnd_gamma : Z; rnd_phi : Z; rnd_psi : Z; rnd_sigma : Z; rnd_xi : Z;
  rnd_epsilon : Z; n_epsilon : Z; rnd_eta : Z; n_eta : Z; rnd_zeta : Z; n_zeta : Z;
  rnd_beta : Z; n_beta : Z; rnd_delta : Z; n_delta : Z;
}.
(** [if (!(n % 2)) { r = 0 - r; }] *)
Definition random_sign (n r : Z) : Z := if n `mod` 2 =? 0 then 0 - r else r.

(** The range of [r_alpha]. *)
Definition alpha_range (p : AccumulatorAndProofParams) : Z :=
  maxCoinValue p * bn_pow 2 (u32 (k_prime p + k_dprime p)).

(** The challenge: the hash over the parameters, the generators, the commitment and
    the values of the proof. *)
Definition accumulator_challenge (p : AccumulatorAndProofParams) (sg sh g_n h_n value : Z) (this : AccumulatorProofOfKnowledge) : Z :=
  setuint256 (Hash256 (
    Serialize_AccumulatorParams p ++ Serialize_bignum sg ++ Serialize_bignum sh ++ Serialize_bignum g_n ++
    Serialize_bignum h_n ++ Serialize_bignum value ++
    Serialize_bignum (C_e this) ++ Serialize_bignum (C_u this) ++ Serialize_bignum (C_r this) ++
    Serialize_bignum (st_1 this) ++ Serialize_bignum (st_2 this) ++ Serialize_bignum (st_3 this) ++
    Serialize_bignum (t_1 this) ++ Serialize_bignum (t_2 this) ++ Serialize_bignum (t_3 this) ++ Serialize_bignum (t_4 this))).

Definition AccumulatorProofOfKnowledge_of (p : AccumulatorAndProofParams) (commitmentToCoin : Commitment)
    (witnessValue : Z) (rnd : accumulator_random) : AccumulatorProofOfKnowledge :=
  let N := Mod ACCUMULATOR_MODULUS in
  let P := Mod ACCUMULATOR_POK_COMMITMENT_MODULUS in
  let q := igp_groupOrder (accumulatorPoKCommitmentGroup p) in
  let g_n := im_of N (igp_g (accumulatorQRNCommitmentGroup p)) in
  let h_n := im_of N (igp_h (accumulatorQRNCommitmentGroup p)) in
  let e := serial commitmentToCoin in
  let r := randomness commitmentToCoin in
  let r_1 := im_of N (rnd_1 rnd) in
  let r_2 := im_of N (rnd_2 rnd) in
  let r_3 := im_of N (rnd_3 rnd) in
  let C_e := im_of N (im_mul N (im_pow N g_n e) (im_pow N h_n r_1)) in
  let C_u := im_of N (im_mul N witnessValue (im_pow N h_n r_2)) in
  let C_r := im_of N (im_mul N (im_pow N g_n r_2) (im_pow N h_n r_3)) in
  let r_alpha := random_sign (n_alpha rnd) (rnd_alpha rnd) in
  let r_gamma := rnd_gamma rnd in
  let r_phi := rnd_phi rnd in
  let r_psi := rnd_psi rnd in
  let r_sigma := rnd_sigma rnd in
  let r_xi := rnd_xi rnd in
  let r_epsilon := random_sign (n_epsilon rnd) (rnd_epsilon rnd) in
  let r_eta := random_sign (n_eta rnd) (rnd_eta rnd) in
  let r_zeta := random_sign (n_zeta rnd) (rnd_zeta rnd) in
  let r_beta := random_sign (n_beta rnd) (rnd_beta rnd) in
  let r_delta := random_sign (n_delta rnd) (rnd_delta rnd) in
  let sg := im_of P (igp_g (accumulatorPoKCommitmentGroup p)) in
  let sh := im_of P (igp_h (accumulatorPoKCommitmentGroup p)) in
  let gmp5 := im_mul P (commitmentValue commitmentToCoin) (im_inverse P sg) in
  let gmp6 := im_mul P (commitmentValue commitmentToCoin) sg in
  let st_1 := im_of P (im_mul P (im_pow P sg r_alpha) (im_pow P sh r_phi)) in
  let st_2 := im_of P (im_mul P (im_pow P gmp5 r_gamma) (im_pow P sh r_psi)) in
  let st_3 := im_of P (im_mul P (im_pow P gmp6 r_sigma) (im_pow P sh r_xi)) in
  let t_1 := im_of N (im_mul N (im_pow N h_n r_zeta) (im_pow N g_n r_epsilon)) in
  let t_2 := im_of N (im_mul N (im_pow N h_n r_eta) (im_pow N g_n r_alpha)) in
  let t_3 := im_of N (im_mul N (im_pow N C_u r_alpha) (im_pow N (im_inverse N h_n) r_beta)) in
  let t_4 := im_of N (im_mul N (im_mul N (im_pow N C_r r_alpha) (im_pow N (im_inverse N h_n) r_delta))
                        (im_pow N (im_inverse N g_n) r_beta)) in
  let c := accumulator_challenge p sg sh g_n h_n (commitmentValue commitmentToCoin)
             (AccumulatorPoK C_e C_u C_r st_1 st_2 st_3 t_1 t_2 t_3 t_4 0 0 0 0 0 0 0 0 0 0 0) in
  AccumulatorPoK C_e C_u C_r st_1 st_2 st_3 t_1 t_2 t_3 t_4
    (r_alpha - c * e)
    (r_beta - c * r_2 * e)
    (r_zeta - c * r_3)
    (r_sigma - c * inverse (e + 1) q)
    (r_eta - c * r_1)
    (r_epsilon - c * r_2)
    (r_delta - c * r_3 * e)
    (r_xi + c * r * inverse (e + 1) q)
    ((r_phi - c * r) `mod` q)
    (r_gamma - c * inverse (e - 1) q)
    (r_psi + c * r * inverse (e - 1) q).

Definition AccumulatorPoK_Verify (p : AccumulatorAndProofParams) (this : AccumulatorProofOfKnowledge) (a : Accumulator)
    (valueOfCommitmentToCoin : Z) : bool :=
  let N := Mod ACCUMULATOR_MODULUS in
  let P := Mod ACCUMULATOR_POK_COMMITMENT_MODULUS in
  let g_n := im_of N (igp_g (accumulatorQRNCommitmentGroup p)) in
  let h_n := im_of N (igp_h (accumulatorQRNCommitmentGroup p)) in
  let sg := im_of P (igp_g (accumulatorPoKCommitmentGroup p)) in
  let sh := im_of P (igp_h (accumulatorPoKCommitmentGroup p)) in
  let commitment := im_of P valueOfCommitmentToCoin in
  let c := accumulator_challenge p sg sh g_n h_n valueOfCommitmentToCoin this in
  let st_1_prime := im_mul P (im_mul P (im_pow P commitment c) (im_pow P sg (s_alpha this))) (im_pow P sh (s_phi this)) in
  let st_2_prime := im_mul P (im_mul P (im_pow P sg c) (im_pow P (im_div P commitment sg) (s_gamma this))) (im_pow P sh (s_psi this)) in
  let st_3_prime := im_mul P (im_mul P (im_pow P sg c) (im_pow P (im_mul P sg commitment) (s_sigma this))) (im_pow P sh (s_xi this)) in
  let A := im_of N (acc_value a) in
  let t_1_prime := im_mul N (im_mul N (im_pow N (C_r this) c) (im_pow N h_n (s_zeta this))) (im_pow N g_n (s_epsilon this)) in
  let t_2_prime := im_mul N (im_mul N (im_pow N (C_e this) c) (im_pow N h_n (s_eta this))) (im_pow N g_n (s_alpha this)) in
  let t_3_prime := im_mul N (im_mul N (im_pow N A c) (im_pow N (C_u this) (s_alpha this))) (im_pow N (im_inverse N h_n) (s_beta this)) in
  let t_4_prime := im_mul N (im_mul N (im_pow N (C_r this) (s_alpha this)) (im_pow N (im_inverse N h_n) (s_delta this)))
                     (im_pow N (im_inverse N g_n) (s_beta this)) in
  let range_value := maxCoinValue p * bn_pow 2 (u32 (u32 (k_prime p + k_dprime p) + 1)) in
  (st_1 this =? st_1_prime) && (st_2 this =? st_2_prime) && (st_3 this =? st_3_prime) &&
  (t_1 this =? t_1_prime) && (t_2 this =? t_2_prime) && (t_3 this =? t_3_prime) && (t_4 this =? t_4_prime) &&
  ((- range_value <=? s_alpha this) && (s_alpha this <=? range_value)).

(** * SerialNumberSignatureOfKnowledge.cpp *)

Record SerialNumberSignatureOfKnowledge := SerialSoK { s_notprime : list Z; sprime : list Z; sok_hash : list Z }.

(** [CHashWriter::GetHash] on the message written so far: the hash, and the message
    that the object has absorbed afterwards, which is the inner hash with its padding
    ([CHash256::Finalize] resets the object before it hashes the inner hash). *)
Definition writer_GetHash (msg : list Z) : list Z * list Z :=
  (Hash256 msg, SHA256 msg ++ [0x80] ++ replicate 23 0 ++ WriteBE64 256).

(** The loop of [SeedTo1024], [n] rounds. *)
Fixpoint seed_loop (n : nat) (msg vResult : list Z) : list Z :=
  match n with
  | O => vResult
  | S n =>
      let '(hash, msg) := writer_GetHash msg in
      let vResult := vResult ++ getvch (setuint256 hash) in
      seed_loop n (msg ++ Serialize_bytes vResult) vResult
  end.
Definition SeedTo1024 (hashSeed : list Z) : Z := setvch (seed_loop 4 hashSeed []).

Definition challengeCalculation (p : ZerocoinParams) (a_exp b_exp h_exp : Z) : Z :=
  let Q := Mod SERIAL_NUMBER_SOK_COMMITMENT_GROUP in
  let P := Mod SERIAL_NUMBER_SOK_COMMITMENT_MODULUS in
  let a := im_of Q (igp_g (coinCommitmentGroup p)) in
  let b := im_of Q (igp_h (coinCommitmentGroup p)) in
  let exponent := im_mul Q (im_pow Q a a_exp) (im_pow Q b b_exp) in
  let g := im_of P (sgp_g (serialNumberSoKCommitmentGroup p)) in
  let h := im_of P (sgp_h (serialNumberSoKCommitmentGroup p)) in
  im_mul P (im_pow P g exponent) (im_pow P h h_exp).

(** The loop that draws a seed until its expansion is not above the order; [cands] are
    the seeds drawn, [None] is a loop that has not ended with them. *)
Fixpoint draw_seed (p : ZerocoinParams) (cands : list (list Z)) : option (Z * Z) :=
  match cands with
  | [] => None
  | hashRand :: cands =>
      let bnExpanded := SeedTo1024 hashRand in
      if sgp_groupOrder (serialNumberSoKCommitmentGroup p) <? bnExpanded then draw_seed p cands
      else Some (setuint256 hashRand, bnExpanded)
  end.

(** The seeds that the loop draws, for the calls of the generator from the [k]-th on, and
    the number of the next call; [fuel] bounds the calls. *)
Fixpoint seed_candidates (draw : Z → (nat → Z) → option Z) (random : nat → nat → Z) (p : ZerocoinParams) (fuel k : nat) : option (list (list Z) * nat) :=
  match fuel with
  | O => None
  | S fuel =>
      n ← draw (2 ^ 256 - 1) (random k);
      hashRand ← getuint256 n;
      if sgp_groupOrder (serialNumberSoKCommitmentGroup p) <? SeedTo1024 hashRand then
        '(cands, k) ← seed_candidates draw random p fuel (S k); Some (hashRand :: cands, k)
      else Some ([hashRand], S k)
  end.
Fixpoint sok_draws (draw : Z → (nat → Z) → option Z) (random : nat → nat → Z) (p : ZerocoinParams) (fuel rounds k : nat) : option (list (Z * list (list Z))) :=
  match rounds with
  | O => Some []
  | S rounds =>
      r ← draw (igp_groupOrder (coinCommitmentGroup p)) (random k);
      '(cands, k) ← seed_candidates draw random p fuel (S k);
      rnd ← sok_draws draw random p fuel rounds k;
      Some ((r, cands) :: rnd)
  end.

Definition challenge_bit (hash : list Z) (i : nat) : option bool :=
  b ← hash !! (i / 8)%nat; Some (negb (Z.land (b ≫ Z.of_nat (i mod 8)) 0x01 =? 0)).

Definition sok_header (p : ZerocoinParams) (value coinSerialNumber : Z) (msghash : list Z) : list Z :=
  Serialize_ZerocoinParams p ++ Serialize_bignum value ++ Serialize_bignum coinSerialNumber ++ msghash.

(** [s_notprime[i]] and [sprime[i]] of the constructor. *)
Definition sok_response (p : ZerocoinParams) (coin : PrivateCoin) (commitmentToCoin : Commitment) (bit : bool)
    (r v_seed v_expanded : Z) : Z * Z :=
  let Q := Mod SERIAL_NUMBER_SOK_COMMITMENT_GROUP in
  let b := im_of Q (igp_h (coinCommitmentGroup p)) in
  if bit then (r, v_seed)
  else (r - coin_randomness coin, v_expanded - randomness commitmentToCoin * im_pow Q b (r - coin_randomness coin)).

(** The constructor; [rnd] holds, for each iteration, [r[i]] and the seeds drawn. *)
Definition SerialNumberSignatureOfKnowledge_of (p : ZerocoinParams) (coin : PrivateCoin) (commitmentToCoin : Commitment)
    (msghash : list Z) (rnd : list (Z * list (list Z))) : option SerialNumberSignatureOfKnowledge :=
  if negb (Mod COIN_COMMITMENT_MODULUS =? Mod SERIAL_NUMBER_SOK_COMMITMENT_GROUP) then None
  else if negb (length rnd =? Z.to_nat (zkp_iterations p))%nat then None
  else
    draws ← mapM (λ '(r, cands), '(v_seed, v_expanded) ← draw_seed p cands; Some (r, v_seed, v_expanded)) rnd;
    let c := map (λ '(r, v_seed, v_expanded), challengeCalculation p (serialNumber coin) r v_expanded) draws in
    let hash := Hash256 (sok_header p (commitmentValue commitmentToCoin) (serialNumber coin) msghash ++
                         concat (map Serialize_bignum c)) in
    responses ← mapM (λ '(i, (r, v_seed, v_expanded)),
                  bit ← challenge_bit hash i;
                  Some (sok_response p coin commitmentToCoin bit r v_seed v_expanded)) (zip (seq 0 (length draws)) draws);
    Some (SerialSoK (map fst responses) (map snd responses) hash).

(** One round of [Verify]; the accesses of the vectors are not checked. *)
Definition sok_tprime (p : ZerocoinParams) (this : SerialNumberSignatureOfKnowledge) (coinSerialNumber value : Z) (i : nat) : option Z :=
  let Q := Mod SERIAL_NUMBER_SOK_COMMITMENT_GROUP in
  let P := Mod SERIAL_NUMBER_SOK_COMMITMENT_MODULUS in
  let b := im_of Q (igp_h (coinCommitmentGroup p)) in
  let h := im_of P (sgp_h (serialNumberSoKCommitmentGroup p)) in
  bit ← challenge_bit (sok_hash this) i;
  s ← s_notprime this !! i;
  sp ← sprime this !! i;
  if (bit : bool) then
    seed ← getuint256 sp;
    Some (challengeCalculation p coinSerialNumber s (SeedTo1024 seed))
  else
    let exp := im_pow Q b s in
    Some (im_mul P (im_pow P (im_of P value) exp) (im_pow P h sp)).

Definition SerialSoK_Verify (p : ZerocoinParams) (this : SerialNumberSignatureOfKnowledge) (coinSerialNumber value : Z)
    (msghash : list Z) : option bool :=
  tprimes ← mapM (sok_tprime p this coinSerialNumber value) (seq 0 (Z.to_nat (zkp_iterations p)));
  Some (bool_decide (Hash256 (sok_header p value coinSerialNumber msghash ++ concat (map Serialize_bignum tprimes)) = sok_hash this)).

(** * CoinSpend.cpp *)

Record CoinSpend := Spend {
  denomination : CoinDenomination;
  accChecksum : Z;
  ptxHash : list Z;
  accCommitmentToCoinValue : Z;
  serialCommitmentToCoinValue : Z;
  coinSerialNumber : Z;
  pubkey : CPubKey;
  spend_vchSig : list Z;
  accumulatorPoK : AccumulatorProofOfKnowledge;
  serialNumberSoK : SerialNumberSignatureOfKnowledge;
  commitmentPoK : CommitmentProofOfKnowledge;
  spend_version : Z;
  spendType : Z;
}.

Definition Serialize_CommitmentPoK (x : CommitmentProofOfKnowledge) : list Z :=
  Serialize_bignum (S1 x) ++ Serialize_bignum (S2 x) ++ Serialize_bignum (S3 x) ++ Serialize_bignum (challenge x).
Definition Serialize_AccumulatorPoK (x : AccumulatorProofOfKnowledge) : list Z :=
  concat (map Serialize_bignum [C_e x; C_u x; C_r x; st_1 x; st_2 x; st_3 x; t_1 x; t_2 x; t_3 x; t_4 x; s_alpha x; s_beta x;
    s_zeta x; s_sigma x; s_eta x; s_epsilon x; s_delta x; s_xi x; s_phi x; s_gamma x; s_psi x]).

Definition signatureHash (x : CoinSpend) : list Z :=
  Hash256 (Serialize_bignum (serialCommitmentToCoinValue x) ++ Serialize_bignum (accCommitmentToCoinValue x) ++
    Serialize_CommitmentPoK (commitmentPoK x) ++ Serialize_AccumulatorPoK (accumulatorPoK x) ++ ptxHash x ++
    Serialize_bignum (coinSerialNumber x) ++ Serialize_uint 4 (accChecksum x) ++ Serialize_denomination (denomination x) ++
    Serialize_uint 1 (spendType x)).

(** The random numbers of the constructor: the two commitments, the proof of equality,
    the accumulator proof and the serial number proof. *)
Record spend_random := SpendRandom {
  rnd_serial : Z; rnd_acc : Z; rnd_r1 : Z; rnd_r2 : Z; rnd_r3 : Z;
  rnd_pok : accumulator_random; rnd_sok : list (Z * list (list Z)) }.

(** The constructor, with the numbers that were drawn.  [version] and [spendType] are not
    initialised; [key] is
    [coin.getPubKey()] and [sign] is [coin.sign]. *)
Definition CoinSpend_of (p : ZerocoinParams) (coin : PrivateCoin) (a : Accumulator) (checksum : Z) (w : AccumulatorWitness)
    (ptxHash : list Z) (version0 spendType0 : Z) (key : CPubKey) (sign : list Z → option (list Z)) (rnd : spend_random) : option CoinSpend :=
  let ap := serialNumberSoKCommitmentGroup p in
  let bp := accumulatorPoKCommitmentGroup (accumulatorParams p) in
  ok ← VerifyWitness (accumulatorParams p) w a (publicCoin coin);
  if negb ok then None
  else
    let value := pc_value (publicCoin coin) in
    let underSerial := commit SERIAL_NUMBER_SOK_COMMITMENT_MODULUS (sgp_g ap) (sgp_h ap) value (rnd_serial rnd) in
    let underAcc := commit ACCUMULATOR_POK_COMMITMENT_MODULUS (igp_g bp) (igp_h bp) value (rnd_acc rnd) in
    commitmentPoK ← CommitmentProofOfKnowledge_of ap bp underSerial underAcc (rnd_r1 rnd) (rnd_r2 rnd) (rnd_r3 rnd);
    let accumulatorPoK := AccumulatorProofOfKnowledge_of (accumulatorParams p) underAcc (acc_value (witness w)) (rnd_pok rnd) in
    let spend sok sig := Spend (pc_denomination (publicCoin coin)) checksum ptxHash (commitmentValue underAcc)
      (commitmentValue underSerial) (serialNumber coin) key sig accumulatorPoK sok commitmentPoK version0 spendType0 in
    let hashSig := signatureHash (spend (SerialSoK [] [] []) []) in
    sok ← SerialNumberSignatureOfKnowledge_of p coin underSerial hashSig (rnd_sok rnd);
    sig ← sign hashSig;
    Some (spend sok sig).

(** The calls of the generator [draw] in the order of the constructor; [random k] are the
    bytes of the [k]-th call. *)
Definition draw_accumulator (draw : Z → (nat → Z) → option Z) (random : nat → nat → Z) (p : AccumulatorAndProofParams) (k : nat) : option accumulator_random :=
  let aM_4 := accumulatorModulus p ÷ 4 in
  let PoKmod := Mod ACCUMULATOR_POK_COMMITMENT_MODULUS in
  let power_value := bn_pow 2 (u32 (k_prime p + k_dprime p)) in
  let call j range := draw range (random (k + j)%nat) in
  r1 ← call 0%nat aM_4; r2 ← call 1%nat aM_4; r3 ← call 2%nat aM_4;
  alpha ← call 3%nat (alpha_range p); n_alpha ← call 4%nat 3;
  gamma ← call 5%nat PoKmod; phi ← call 6%nat PoKmod; psi ← call 7%nat PoKmod; sigma ← call 8%nat PoKmod; xi ← call 9%nat PoKmod;
  epsilon ← call 10%nat (aM_4 * power_value); n_epsilon ← call 11%nat 3;
  eta ← call 12%nat (aM_4 * power_value); n_eta ← call 13%nat 3;
  zeta ← call 14%nat (aM_4 * power_value); n_zeta ← call 15%nat 3;
  beta ← call 16%nat (aM_4 * PoKmod * power_value); n_beta ← call 17%nat 3;
  delta ← call 18%nat (aM_4 * PoKmod * power_value); n_delta ← call 19%nat 3;
  Some (AccRandom r1 r2 r3 alpha n_alpha gamma phi psi sigma xi epsilon n_epsilon eta n_eta zeta n_zeta beta n_beta delta n_delta).
Definition draw_spend (draw : Z → (nat → Z) → option Z) (random : nat → nat → Z) (p : ZerocoinParams) (fuel : nat) : option spend_random :=
  let maxRange := equality_maxRange (serialNumberSoKCommitmentGroup p) (accumulatorPoKCommitmentGroup (accumulatorParams p)) in
  serial ← draw (Mod SERIAL_NUMBER_SOK_COMMITMENT_MODULUS) (random 0%nat);
  acc ← draw (Mod ACCUMULATOR_POK_COMMITMENT_MODULUS) (random 1%nat);
  r1 ← draw maxRange (random 2%nat); r2 ← draw maxRange (random 3%nat); r3 ← draw maxRange (random 4%nat);
  pok ← draw_accumulator draw random (accumulatorParams p) 5;
  sok ← sok_draws draw random p fuel (Z.to_nat (zkp_iterations p)) 25;
  Some (SpendRandom serial acc r1 r2 r3 pok sok).
Definition CoinSpend_new (draw : Z → (nat → Z) → option Z) (random : nat → nat → Z) (fuel : nat) (p : ZerocoinParams) (coin : PrivateCoin)
    (a : Accumulator) (checksum : Z) (w : AccumulatorWitness) (ptxHash : list Z) (version0 spendType0 : Z) (key : CPubKey)
    (sign : list Z → option (list Z)) : option CoinSpend :=
  rnd ← draw_spend draw random p fuel;
  CoinSpend_of p coin a checksum w ptxHash version0 spendType0 key sign rnd.

(** [Verify]; [&&] does not evaluate the later proofs when an earlier one fails. *)
Definition CoinSpend_Verify (p : ZerocoinParams) (x : CoinSpend) (a : Accumulator) : option bool :=
  if bool_decide (acc_denomination a = denomination x) &&
     CommitmentPoK_Verify (serialNumberSoKCommitmentGroup p) (accumulatorPoKCommitmentGroup (accumulatorParams p))
       (commitmentPoK x) (serialCommitmentToCoinValue x) (accCommitmentToCoinValue x) &&
     AccumulatorPoK_Verify (accumulatorParams p) (accumulatorPoK x) a (accCommitmentToCoinValue x)
  then SerialSoK_Verify p (serialNumberSoK x) (coinSerialNumber x) (serialCommitmentToCoinValue x) (signatureHash x)
  else Some false.

Definition HasValidSerial (p : ZerocoinParams) (x : CoinSpend) : bool :=
  if coinSerialNumber x <=? 0 then false else coinSerialNumber x <? igp_groupOrder (coinCommitmentGroup p).
Definition HasValidSignature `{Secp256k1} (x : CoinSpend) : option bool :=
  let hashedPubkey := Hash256 (Raw (pubkey x)) in
  n ← getuint256 (coinSerialNumber x);
  if negb (bool_decide (hashedPubkey = n)) then Some false
  else Some (Verify (pubkey x) (signatureHash x) (spend_vchSig x)).

End proofs.
