(* ===== verification/ZerocoinFacts.v ===== *)
(** Completeness of the zerocoin proofs: a spend made for a coin in the accumulator
    verifies.  The equations the verifiers test are equations between products of
    powers of known elements, so they are reduced to equations between exponents. *)

From S2P Require Import Prelude Serialize SerializeFacts Transaction PubKey Interpreter InterpreterFacts Bignum BignumFacts Zerocoin.

(** * Representations *)

(** [v] is [u^x g^y h^z] modulo [m]. *)
Section rep.
Context `{HG : GmpOk} (m u g h : Z).
Hypotheses (Hm : 1 < m) (Hu : unit m u) (Hg : unit m g) (Hh : unit m h).

Definition Rep (v x y z : Z) : Prop := unit m v ∧ v ≡[m] im_pow m u x * im_pow m g y * im_pow m h z.

Lemma Rep_unit v x y z : v ≡[m] im_pow m u x * im_pow m g y * im_pow m h z → Rep v x y z.
Proof.
  intros E. split; [|done]. apply (unit_eqm m v (im_pow m u x * im_pow m g y * im_pow m h z)); [lia|done|].
  repeat apply Z.coprime_mul_l; by apply im_pow_unit.
Qed.
Lemma Rep_u : Rep u 1 0 0.
Proof. apply Rep_unit. rewrite im_pow_1, !im_pow_0 by done. by rewrite !Z.mul_1_r. Qed.
Lemma Rep_g : Rep g 0 1 0.
Proof. apply Rep_unit. rewrite im_pow_1, !im_pow_0 by done. by rewrite Z.mul_1_r, Z.mul_1_l. Qed.
Lemma Rep_h : Rep h 0 0 1.
Proof. apply Rep_unit. rewrite im_pow_1, !im_pow_0 by done. by rewrite !Z.mul_1_l. Qed.
Lemma Rep_of v x y z : Rep v x y z → Rep (im_of m v) x y z.
Proof. intros [_ E]. apply Rep_unit. unfold im_of. by rewrite eqm_mod. Qed.
Lemma Rep_mul v w x y z x' y' z' : Rep v x y z → Rep w x' y' z' → Rep (im_mul m v w) (x + x') (y + y') (z + z').
Proof.
  intros [_ E] [_ E']. apply Rep_unit. unfold im_mul. rewrite eqm_mod, E, E'. rewrite !im_pow_add by done.
  apply eq_subrelation; [apply _|ring].
Qed.
Lemma Rep_pow v x y z e : Rep v x y z → Rep (im_pow m v e) (x * e) (y * e) (z * e).
Proof.
  intros [Hv E]. apply Rep_unit. rewrite (im_pow_congr _ _ _ _ Hm Hv E).
  rewrite !im_mul_pow by first [done | repeat apply Z.coprime_mul_l; by apply im_pow_unit]. by rewrite !im_pow_mul.
Qed.
Lemma Rep_inverse v x y z : Rep v x y z → Rep (im_inverse m v) (x * -1) (y * -1) (z * -1).
Proof.
  intros Hv. pose proof Hv as [Hv' _]. apply (Rep_pow _ _ _ _ (-1)) in Hv as [_ E]. apply Rep_unit. by rewrite im_pow_inverse.
Qed.
Lemma Rep_div v w x y z x' y' z' :
  Rep v x y z → Rep w x' y' z' → Rep (im_div m v w) (x + x' * -1) (y + y' * -1) (z + z' * -1).
Proof. intros Hv Hw. unfold im_div. apply Rep_mul; [done|]. by apply Rep_of, Rep_inverse. Qed.

(** Equal exponents, or exponents that are equal modulo a common order, give equal
    residues. *)
Lemma Rep_eq v w x y z x' y' z' :
  0 ≤ v < m → 0 ≤ w < m → Rep v x y z → Rep w x' y' z' → x = x' → y = y' → z = z' → v = w.
Proof. intros Hv Hw [_ E] [_ E'] -> -> ->. apply (eqm_eq m); [done..|]. by rewrite E, E'. Qed.
Lemma Rep_eq_order_g q v w x y z x' y' z' :
  im_pow m g q ≡[m] 1 → 0 ≤ v < m → 0 ≤ w < m → Rep v x y z → Rep w x' y' z' → x = x' → y ≡[q] y' → z = z' → v = w.
Proof.
  intros Hgq Hv Hw [_ E] [_ E'] -> Hy ->. apply (eqm_eq m); [done..|]. rewrite E, E'. by rewrite (im_pow_order m g q y y').
Qed.
Lemma Rep_eq_order q v w x y z x' y' z' :
  im_pow m g q ≡[m] 1 → im_pow m h q ≡[m] 1 →
  0 ≤ v < m → 0 ≤ w < m → Rep v x y z → Rep w x' y' z' → x = x' → y ≡[q] y' → z ≡[q] z' → v = w.
Proof.
  intros Hgq Hhq Hv Hw [_ E] [_ E'] -> Hy Hz. apply (eqm_eq m); [done..|]. rewrite E, E'.
  rewrite (im_pow_order m g q y y'), (im_pow_order m h q z z') by done. done.
Qed.
End rep.

Lemma im_of_range m v : 1 < m → 0 ≤ im_of m v < m.
Proof. intros. apply Z.mod_pos_bound. lia. Qed.
Lemma im_mul_range m v w : 1 < m → 0 ≤ im_mul m v w < m.
Proof. intros. apply Z.mod_pos_bound. lia. Qed.
Lemma im_of_id m v : 0 ≤ v < m → im_of m v = v.
Proof. apply Z.mod_small. Qed.

Create HintDb bytes.

(** Finds the exponents of a product of powers. *)
Ltac rep :=
  lazymatch goal with
  | |- Rep _ _ _ _ (im_of _ _) _ _ _ => eapply Rep_of; [done..|rep]
  | |- Rep _ _ _ _ (im_mul _ _ _) _ _ _ => eapply Rep_mul; [done..|rep|rep]
  | |- Rep _ _ _ _ (im_div _ _ _) _ _ _ => eapply Rep_div; [done..|rep|rep]
  | |- Rep _ _ _ _ (im_pow _ _ _) _ _ _ => eapply Rep_pow; [done..|rep]
  | |- Rep _ _ _ _ (im_inverse _ _) _ _ _ => eapply Rep_inverse; [done..|rep]
  | |- Rep _ ?u _ _ ?u _ _ _ => by eapply Rep_u
  | |- Rep _ _ ?g _ ?g _ _ _ => by eapply Rep_g
  | |- Rep _ _ _ ?h ?h _ _ _ => by eapply Rep_h
  end.

(** * Serialized values are bytes *)

Lemma str_bytes s : words 8 (str s).
Proof. unfold str. apply Forall_map, Forall_forall. intros a _. pose proof (Ascii.nat_ascii_bounded a). unfold fits. lia. Qed.
Lemma Serialize_bytes_bytes l : words 8 l → words 8 (Serialize_bytes l).
Proof. intros. apply words_app; [apply CompactSize_bytes|done]. Qed.
Lemma Serialize_bignum_bytes a : words 8 (Serialize_bignum a).
Proof. apply Serialize_bytes_bytes, getvch_bytes. Qed.
Lemma Serialize_string_bytes s : words 8 (Serialize_string s).
Proof. apply Serialize_bytes_bytes, str_bytes. Qed.
Lemma Serialize_bool_bytes b : words 8 (Serialize_bool b).
Proof. apply Forall_singleton. unfold fits. destruct b; lia. Qed.
Lemma Serialize_bignums_bytes l : words 8 (concat (map Serialize_bignum l)).
Proof. induction l; [constructor|]. apply words_app; [apply Serialize_bignum_bytes|done]. Qed.

#[export] Hint Resolve words_app Serialize_bignum_bytes Serialize_string_bytes Serialize_bool_bytes uint_bytes Serialize_bignums_bytes : bytes.

Lemma SerialGroup_bytes p : words 8 (Serialize_SerialGroup p).
Proof. unfold Serialize_SerialGroup. auto 10 with bytes. Qed.
Lemma IntegerGroup_bytes p : words 8 (Serialize_IntegerGroup p).
Proof. unfold Serialize_IntegerGroup. auto 10 with bytes. Qed.
#[export] Hint Resolve SerialGroup_bytes IntegerGroup_bytes : bytes.
Lemma AccumulatorParams_bytes p : words 8 (Serialize_AccumulatorParams p).
Proof. unfold Serialize_AccumulatorParams. auto 20 with bytes. Qed.
#[export] Hint Resolve AccumulatorParams_bytes : bytes.
Lemma ZerocoinParams_bytes p : words 8 (Serialize_ZerocoinParams p).
Proof. unfold Serialize_ZerocoinParams. auto 20 with bytes. Qed.
#[export] Hint Resolve ZerocoinParams_bytes : bytes.

(** A challenge has at most 256 bits. *)
Lemma challenge_bound `{HashFunctionsOk} msg : words 8 msg → 0 ≤ setuint256 (Hash256 msg) < 2 ^ 256.
Proof.
  intros Hmsg. destruct (SHA256_bytes msg Hmsg) as [H1 _]. destruct (SHA256_bytes _ H1) as [H2 H3]. unfold setuint256, Hash256.
  pose proof (le_val_bound 8 _ ltac:(lia) H2) as Hb. by rewrite H3 in Hb.
Qed.

(** * Parameters and random numbers *)

(** What a call [randBignum(range)] returns if it fills the data of its buffer. *)
Definition random_for (range r : Z) : Prop := ∃ random, (∀ i, fits 8 (random i)) ∧ randBignum_to buffer_data range random = Some r.

Lemma bitSize_le a w : 1 ≤ w → 0 ≤ a < 2 ^ w → bitSize a ≤ w.
Proof. intros. unfold bitSize. destruct (Z.eqb_spec a 0); [done|]. apply bitlen_le; lia. Qed.
Lemma bitSize_lt a : 0 ≤ a → a < 2 ^ bitSize a.
Proof. intros. unfold bitSize. destruct (Z.eqb_spec a 0); [subst; done|]. rewrite Z.abs_eq by done. apply bitlen_spec. lia. Qed.
Lemma random_for_exact range r : random_for range r → 0 ≤ r < 2 ^ (8 * ((bitSize range + 7) / 8) - 1).
Proof.
  intros (random & Hb & Hr). destruct (randBignum_data range random Hb) as (r' & Hr' & HR). rewrite Hr in Hr'. injection Hr' as <-.
  pose proof (rand_size_pos range). unfold rand_size in *. rewrite Z2Nat.id in HR by lia. exact HR.
Qed.
Lemma random_for_bound range r : random_for range r → 0 ≤ r < 2 ^ (bitSize range + 6).
Proof.
  intros Hr%random_for_exact. pose proof (bitSize_pos range). split; [lia|]. eapply Z.lt_le_trans; [apply Hr|]. apply Z.pow_le_mono_r; [lia|].
  pose proof (Z.div_mod (bitSize range + 7) 8). pose proof (Z.mod_pos_bound (bitSize range + 7) 8). lia.
Qed.

Section zerocoin.
Context `{HFok : HashFunctionsOk} `{HGok : GmpOk} `{HM : Moduli}.

(** The groups are as the library requires: the moduli of the parameters are those of
    the classes of residues, the generators are units of the orders stated, the coin
    commitments live in the exponents of the serial number group, and the range of
    [r_alpha] fills whole bytes. *)
Record params_ok (p : ZerocoinParams) : Prop := {
  ok_N : 1 < Mod ACCUMULATOR_MODULUS;
  ok_P : 1 < Mod SERIAL_NUMBER_SOK_COMMITMENT_MODULUS;
  ok_Q : 1 < Mod SERIAL_NUMBER_SOK_COMMITMENT_GROUP;
  ok_P' : 1 < Mod ACCUMULATOR_POK_COMMITMENT_MODULUS;
  ok_Q' : 1 < Mod ACCUMULATOR_POK_COMMITMENT_GROUP;
  ok_coin : Mod COIN_COMMITMENT_MODULUS = Mod SERIAL_NUMBER_SOK_COMMITMENT_GROUP;
  ok_acc : accumulatorModulus (accumulatorParams p) = Mod ACCUMULATOR_MODULUS;
  ok_serial : sgp_modulus (serialNumberSoKCommitmentGroup p) = Mod SERIAL_NUMBER_SOK_COMMITMENT_MODULUS ∧
    sgp_groupOrder (serialNumberSoKCommitmentGroup p) = Mod SERIAL_NUMBER_SOK_COMMITMENT_GROUP;
  ok_pok : igp_modulus (accumulatorPoKCommitmentGroup (accumulatorParams p)) = Mod ACCUMULATOR_POK_COMMITMENT_MODULUS ∧
    igp_groupOrder (accumulatorPoKCommitmentGroup (accumulatorParams p)) = Mod ACCUMULATOR_POK_COMMITMENT_GROUP;
  ok_sizes : Forall (λ T, bitSize (Mod T) ≤ 2 ^ 20)
    [SERIAL_NUMBER_SOK_COMMITMENT_MODULUS; SERIAL_NUMBER_SOK_COMMITMENT_GROUP;
     ACCUMULATOR_POK_COMMITMENT_MODULUS; ACCUMULATOR_POK_COMMITMENT_GROUP];
  ok_coin_g : unit (Mod SERIAL_NUMBER_SOK_COMMITMENT_GROUP) (igp_g (coinCommitmentGroup p));
  ok_coin_h : unit (Mod SERIAL_NUMBER_SOK_COMMITMENT_GROUP) (igp_h (coinCommitmentGroup p));
  ok_serial_g : unit (Mod SERIAL_NUMBER_SOK_COMMITMENT_MODULUS) (sgp_g (serialNumberSoKCommitmentGroup p));
  ok_serial_h : unit (Mod SERIAL_NUMBER_SOK_COMMITMENT_MODULUS) (sgp_h (serialNumberSoKCommitmentGroup p));
  ok_pok_g : unit (Mod ACCUMULATOR_POK_COMMITMENT_MODULUS) (igp_g (accumulatorPoKCommitmentGroup (accumulatorParams p)));
  ok_pok_h : unit (Mod ACCUMULATOR_POK_COMMITMENT_MODULUS) (igp_h (accumulatorPoKCommitmentGroup (accumulatorParams p)));
  ok_qrn_g : unit (Mod ACCUMULATOR_MODULUS) (igp_g (accumulatorQRNCommitmentGroup (accumulatorParams p)));
  ok_qrn_h : unit (Mod ACCUMULATOR_MODULUS) (igp_h (accumulatorQRNCommitmentGroup (accumulatorParams p)));
  ok_serial_order : sgp_g (serialNumberSoKCommitmentGroup p) ^ Mod SERIAL_NUMBER_SOK_COMMITMENT_GROUP
    ≡[Mod SERIAL_NUMBER_SOK_COMMITMENT_MODULUS] 1;
  ok_pok_order_g : igp_g (accumulatorPoKCommitmentGroup (accumulatorParams p)) ^ Mod ACCUMULATOR_POK_COMMITMENT_GROUP
    ≡[Mod ACCUMULATOR_POK_COMMITMENT_MODULUS] 1;
  ok_pok_order_h : igp_h (accumulatorPoKCommitmentGroup (accumulatorParams p)) ^ Mod ACCUMULATOR_POK_COMMITMENT_GROUP
    ≡[Mod ACCUMULATOR_POK_COMMITMENT_MODULUS] 1;
  ok_k : 0 ≤ k_prime (accumulatorParams p) ∧ 0 ≤ k_dprime (accumulatorParams p) ∧
    256 ≤ k_prime (accumulatorParams p) + k_dprime (accumulatorParams p) < 2 ^ 31;
  ok_alpha : 0 < maxCoinValue (accumulatorParams p) ∧ bitSize (alpha_range (accumulatorParams p)) `mod` 8 = 0;
}.

Lemma order_im_pow m g q : 1 < m → unit m g → 0 ≤ q → g ^ q ≡[m] 1 → im_pow m (im_of m g) q ≡[m] 1.
Proof.
  intros Hm Hg Hq E. unfold im_of. rewrite (im_pow_congr m (g `mod` m) g) by (done || by apply Z.coprime_mod_l_iff || apply eqm_mod).
  pose proof (im_pow_char m g q 0 Hm Hg Hq ltac:(lia)) as E2. rewrite Z.sub_0_r, Z.pow_0_r, Z.mul_1_r in E2. by rewrite E2.
Qed.
Lemma im_of_unit m g : unit m g → unit m (im_of m g).
Proof. apply Z.coprime_mod_l_iff. Qed.

(** * The proof of equality of two commitments *)

(** The equation of one commitment: dividing by the commitment to the power of the
    challenge leaves the ephemeral commitment. *)
Lemma schnorr_equation m g h s x r1 r2 c :
  1 < m → unit m g → unit m h →
  im_div m (im_mul m (im_pow m g (r1 + s * c)) (im_pow m h (r2 + x * c)))
    (im_pow m (im_of m (im_mul m (im_pow m g s) (im_pow m h x))) c)
  = im_mul m (im_pow m g r1) (im_pow m h r2).
Proof.
  intros Hm Hg Hh. eapply (Rep_eq m g g h); [by apply im_mul_range|by apply im_mul_range|..].
  - rep.
  - rep.
  - ring.
  - ring.
  - ring.
Qed.

Definition max_bits : Z :=
  Z.max (Z.max (bitSize (Mod SERIAL_NUMBER_SOK_COMMITMENT_MODULUS)) (bitSize (Mod ACCUMULATOR_POK_COMMITMENT_MODULUS)))
    (Z.max (bitSize (Mod SERIAL_NUMBER_SOK_COMMITMENT_GROUP)) (bitSize (Mod ACCUMULATOR_POK_COMMITMENT_GROUP))).

(** The responses are within the range the verifier allows. *)
Lemma equality_range p r m c :
  params_ok p → random_for (equality_maxRange (serialNumberSoKCommitmentGroup p) (accumulatorPoKCommitmentGroup (accumulatorParams p))) r →
  0 ≤ m < 2 ^ (max_bits + 6) → 0 ≤ c < 2 ^ 256 →
  0 ≤ r + m * c ∧ u32 (bitSize (r + m * c)) ≤ equality_maxSize.
Proof.
  intros [] Hr Hm Hc. destruct ok_serial0 as [E1 E2], ok_pok0 as [E3 E4]. unfold equality_maxRange in Hr. rewrite E1, E2, E3, E4 in Hr.
  fold max_bits in Hr. assert (1 ≤ max_bits ≤ 2 ^ 20) as HB.
  { unfold max_bits. rewrite !Forall_cons in ok_sizes0. destruct ok_sizes0 as (?&?&?&?&_).
    pose proof (bitSize_pos (Mod SERIAL_NUMBER_SOK_COMMITMENT_MODULUS)). lia. }
  apply random_for_bound in Hr. unfold COMMITMENT_EQUALITY_CHALLENGE_SIZE, COMMITMENT_EQUALITY_SECMARGIN, bn_pow in Hr.
  rewrite Z.abs_eq, wrap_small in Hr by (unfold fits; lia).
  assert (0 < 2 ^ (256 + 512 + max_bits)) by (apply Z.pow_pos_nonneg; lia).
  assert (bitSize (2 ^ (256 + 512 + max_bits) - 1) ≤ 256 + 512 + max_bits) by (apply bitSize_le; lia).
  assert (r < 2 ^ (774 + max_bits)) as Hr2.
  { eapply Z.lt_le_trans; [apply Hr|]. apply Z.pow_le_mono_r; lia. }
  assert (m * c < 2 ^ (774 + max_bits)) as Hmc.
  { apply Z.lt_le_trans with (2 ^ (max_bits + 6) * 2 ^ 256); [nia|]. rewrite <-Z.pow_add_r by lia. apply Z.pow_le_mono_r; lia. }
  split; [nia|]. assert (bitSize (r + m * c) ≤ 775 + max_bits) as Hs.
  { apply bitSize_le; [lia|]. replace (775 + max_bits) with (Z.succ (774 + max_bits)) by lia. rewrite Z.pow_succ_r by lia. nia. }
  unfold equality_maxSize. fold max_bits. unfold COMMITMENT_EQUALITY_CHALLENGE_SIZE, COMMITMENT_EQUALITY_SECMARGIN.
  pose proof (bitSize_pos (r + m * c)). rewrite !wrap_small by (unfold fits; lia). lia.
Qed.

Lemma CommitmentPoK_complete p s x y r1 r2 r3 :
  let ap := serialNumberSoKCommitmentGroup p in
  let bp := accumulatorPoKCommitmentGroup (accumulatorParams p) in
  let a := commit SERIAL_NUMBER_SOK_COMMITMENT_MODULUS (sgp_g ap) (sgp_h ap) s x in
  let b := commit ACCUMULATOR_POK_COMMITMENT_MODULUS (igp_g bp) (igp_h bp) s y in
  params_ok p → Forall (random_for (equality_maxRange ap bp)) [r1; r2; r3] →
  Forall (λ n, 0 ≤ n < 2 ^ (max_bits + 6)) [s; x; y] →
  ∃ proof, CommitmentProofOfKnowledge_of ap bp a b r1 r2 r3 = Some proof ∧
    CommitmentPoK_Verify ap bp proof (commitmentValue a) (commitmentValue b) = true.
Proof.
  intros ap bp a b Hp Hr Hs. unfold CommitmentProofOfKnowledge_of. rewrite Z.eqb_refl. cbn [negb].
  eexists. split; [reflexivity|]. unfold CommitmentPoK_Verify. cbn [S1 S2 S3 challenge].
  set (c := calculateChallenge _ _ _ _ _ _). assert (0 ≤ c < 2 ^ 256) as Hc.
  { unfold c, calculateChallenge. apply challenge_bound. auto 20 with bytes. }
  rewrite !Forall_cons in Hr. destruct Hr as (Hr1 & Hr2 & Hr3 & _). rewrite !Forall_cons in Hs. destruct Hs as (Hs1 & Hs2 & Hs3 & _).
  destruct (equality_range p r1 s c Hp Hr1 Hs1 Hc) as [H1 H1'], (equality_range p r2 x c Hp Hr2 Hs2 Hc) as [H2 H2'],
    (equality_range p r3 y c Hp Hr3 Hs3 Hc) as [H3 H3'].
  assert (bn_pow 2 COMMITMENT_EQUALITY_CHALLENGE_SIZE = 2 ^ 256) as -> by reflexivity.
  change (serial a) with s. change (randomness a) with x. change (randomness b) with y.
  repeat match goal with |- context [?e <? ?f] => replace (e <? f) with false by (symmetry; apply Z.ltb_ge; assumption || lia) end.
  cbn [orb]. apply Z.eqb_eq. destruct Hp. unfold a, b, commit. cbn [commitmentValue serial randomness].
  rewrite !schnorr_equation by (done || by apply im_of_unit). reflexivity.
Qed.

(** * The proof that a committed coin is accumulated *)

Lemma eq_eqm m a b : a = b → a ≡[m] b.
Proof. by intros ->. Qed.

(** The equations over the hidden-order group: [t_1] to [t_4]. *)
Lemma accumulator_equations N u g h e r_1 r_2 r_3 r_alpha r_beta r_delta r_epsilon r_eta r_zeta c :
  1 < N → unit N u → unit N g → unit N h →
  let C_e := im_of N (im_mul N (im_pow N g e) (im_pow N h r_1)) in
  let C_u := im_of N (im_mul N u (im_pow N h r_2)) in
  let C_r := im_of N (im_mul N (im_pow N g r_2) (im_pow N h r_3)) in
  im_of N (im_mul N (im_pow N h r_zeta) (im_pow N g r_epsilon)) =
    im_mul N (im_mul N (im_pow N C_r c) (im_pow N h (r_zeta - c * r_3))) (im_pow N g (r_epsilon - c * r_2)) ∧
  im_of N (im_mul N (im_pow N h r_eta) (im_pow N g r_alpha)) =
    im_mul N (im_mul N (im_pow N C_e c) (im_pow N h (r_eta - c * r_1))) (im_pow N g (r_alpha - c * e)) ∧
  im_of N (im_mul N (im_pow N C_u r_alpha) (im_pow N (im_inverse N h) r_beta)) =
    im_mul N (im_mul N (im_pow N (im_of N (im_pow N u e)) c) (im_pow N C_u (r_alpha - c * e)))
      (im_pow N (im_inverse N h) (r_beta - c * r_2 * e)) ∧
  im_of N (im_mul N (im_mul N (im_pow N C_r r_alpha) (im_pow N (im_inverse N h) r_delta)) (im_pow N (im_inverse N g) r_beta)) =
    im_mul N (im_mul N (im_pow N C_r (r_alpha - c * e)) (im_pow N (im_inverse N h) (r_delta - c * r_3 * e)))
      (im_pow N (im_inverse N g) (r_beta - c * r_2 * e)).
Proof.
  intros HN Hu Hg Hh C_e C_u C_r.
  split_and!; (eapply (Rep_eq N u g h); [by apply im_of_range|by apply im_mul_range|subst C_e C_u C_r; rep..|ring|ring|ring]).
Qed.

(** The equations over the commitment group of order [q]: [st_1] to [st_3]. *)
Lemma commitment_equations P q g h e r r_alpha r_gamma r_phi r_psi r_sigma r_xi c :
  1 < P → 1 < q → unit P g → unit P h → im_pow P g q ≡[P] 1 → im_pow P h q ≡[P] 1 →
  unit q (e - 1) → unit q (e + 1) →
  let C := im_mul P (im_pow P g e) (im_pow P h r) in
  im_of P (im_mul P (im_pow P g r_alpha) (im_pow P h r_phi)) =
    im_mul P (im_mul P (im_pow P (im_of P C) c) (im_pow P g (r_alpha - c * e))) (im_pow P h ((r_phi - c * r) `mod` q)) ∧
  im_of P (im_mul P (im_pow P (im_mul P C (im_inverse P g)) r_gamma) (im_pow P h r_psi)) =
    im_mul P (im_mul P (im_pow P g c) (im_pow P (im_div P (im_of P C) g) (r_gamma - c * inverse (e - 1) q)))
      (im_pow P h (r_psi + c * r * inverse (e - 1) q)) ∧
  im_of P (im_mul P (im_pow P (im_mul P C g) r_sigma) (im_pow P h r_xi)) =
    im_mul P (im_mul P (im_pow P g c) (im_pow P (im_mul P g (im_of P C)) (r_sigma - c * inverse (e + 1) q)))
      (im_pow P h (r_xi + c * r * inverse (e + 1) q)).
Proof.
  intros HP Hq Hg Hh Hgq Hhq He1 He2 C. pose proof (Z.coprime_1_l P) as H1.
  destruct (inverse_unit q (e - 1) Hq He1) as (_ & Hi1 & _), (inverse_unit q (e + 1) Hq He2) as (_ & Hi2 & _).
  split_and!; (eapply (Rep_eq_order P 1 g h) with (q := q); [done|done|done|done|done|by apply im_of_range|by apply im_mul_range|subst C; rep..|ring| |]).
  - apply eq_eqm. ring.
  - rewrite eqm_mod. apply eq_eqm. ring.
  - set (i := inverse (e - 1) q) in *. transitivity ((e - 1) * r_gamma + c * (1 - i * (e - 1))); [|apply eq_eqm; ring].
    rewrite Hi1. apply eq_eqm. ring.
  - apply eq_eqm. ring.
  - set (i := inverse (e + 1) q) in *. transitivity ((e + 1) * r_sigma + c * (1 - i * (e + 1))); [|apply eq_eqm; ring].
    rewrite Hi2. apply eq_eqm. ring.
  - apply eq_eqm. ring.
Qed.

Lemma pow_mod_im_pow m a e : 0 ≤ e → pow_mod a e m = im_pow m a e.
Proof. intros. unfold im_pow. by destruct (Z.ltb_spec e 0); [lia|]. Qed.

Lemma bn_pow_small a e : fits 64 e → bn_pow a e = a ^ e.
Proof. intros He. unfold bn_pow. by rewrite Z.abs_eq, wrap_small by (done || apply He). Qed.

(** [s_alpha] is in the range that [Verify] tests. *)
Lemma alpha_in_range p n r e c :
  params_ok p → random_for (alpha_range (accumulatorParams p)) r → 0 ≤ e ≤ maxCoinValue (accumulatorParams p) → 0 ≤ c < 2 ^ 256 →
  let range := maxCoinValue (accumulatorParams p) *
    bn_pow 2 (u32 (u32 (k_prime (accumulatorParams p) + k_dprime (accumulatorParams p)) + 1)) in
  - range ≤ random_sign n r - c * e ≤ range.
Proof.
  intros [] Hr He Hc. destruct ok_k0 as (Hk1 & Hk2 & Hk). destruct ok_alpha0 as [Hmax Ha].
  set (M := maxCoinValue (accumulatorParams p)) in *. set (k := k_prime (accumulatorParams p) + k_dprime (accumulatorParams p)) in *.
  apply random_for_exact in Hr. assert (alpha_range (accumulatorParams p) = M * 2 ^ k) as Er.
  { unfold alpha_range. fold M k. rewrite wrap_small by (unfold fits; lia). by rewrite bn_pow_small by (unfold fits; lia). }
  assert (bn_pow 2 (u32 (u32 k + 1)) = 2 * 2 ^ k) as ->.
  { rewrite (wrap_small 32 k), wrap_small by (unfold fits; lia). rewrite bn_pow_small by (unfold fits; lia).
    by rewrite Z.add_1_r, Z.pow_succ_r by lia. }
  assert (r < M * 2 ^ k).
  { eapply Z.lt_le_trans; [apply Hr|]. pose proof (Z.div_mod (bitSize (alpha_range (accumulatorParams p)) + 7) 8) as Hd.
    rewrite Z.add_mod, Ha in Hd by lia. change ((0 + 7 mod 8) mod 8) with 7 in Hd.
    replace (8 * ((bitSize (alpha_range (accumulatorParams p)) + 7) / 8) - 1) with (bitSize (alpha_range (accumulatorParams p)) - 1) by lia.
    rewrite Er. unfold bitSize. assert (0 < M * 2 ^ k) by (apply Z.mul_pos_pos; [lia|apply Z.pow_pos_nonneg; lia]).
    destruct (Z.eqb_spec (M * 2 ^ k) 0); [lia|]. rewrite Z.abs_eq by lia. by apply bitlen_spec. }
  assert (2 ^ 256 ≤ 2 ^ k) by (apply Z.pow_le_mono_r; lia). unfold random_sign. set (K := 2 ^ k) in *. clearbody K.
  assert (0 ≤ c * e ≤ M * K) by nia. case_match; lia.
Qed.

Lemma AccumulatorPoK_complete p e r u a rnd :
  let bp := accumulatorPoKCommitmentGroup (accumulatorParams p) in
  let b := commit ACCUMULATOR_POK_COMMITMENT_MODULUS (igp_g bp) (igp_h bp) e r in
  params_ok p → 0 ≤ e ≤ maxCoinValue (accumulatorParams p) →
  unit (Mod ACCUMULATOR_POK_COMMITMENT_GROUP) (e - 1) → unit (Mod ACCUMULATOR_POK_COMMITMENT_GROUP) (e + 1) →
  unit (Mod ACCUMULATOR_MODULUS) u → acc_value a = pow_mod u e (Mod ACCUMULATOR_MODULUS) →
  random_for (alpha_range (accumulatorParams p)) (rnd_alpha rnd) →
  AccumulatorPoK_Verify (accumulatorParams p) (AccumulatorProofOfKnowledge_of (accumulatorParams p) b u rnd) a (commitmentValue b) = true.
Proof.
  intros bp b Hp He He1 He2 Hu Ha Hr. unfold AccumulatorPoK_Verify. set (proof := AccumulatorProofOfKnowledge_of _ _ _ _).
  set (c := accumulator_challenge _ _ _ _ _ _ _). assert (0 ≤ c < 2 ^ 256) as Hc by (apply challenge_bound; auto 40 with bytes).
  pose proof (alpha_in_range p (n_alpha rnd) (rnd_alpha rnd) e c Hp Hr He Hc) as Hrange.
  rewrite Ha, pow_mod_im_pow by lia. pose proof Hp as []. destruct ok_pok0 as [_ Eq].
  set (N := Mod ACCUMULATOR_MODULUS) in *. set (P := Mod ACCUMULATOR_POK_COMMITMENT_MODULUS) in *.
  destruct (accumulator_equations N u (im_of N (igp_g (accumulatorQRNCommitmentGroup (accumulatorParams p))))
    (im_of N (igp_h (accumulatorQRNCommitmentGroup (accumulatorParams p)))) e (im_of N (rnd_1 rnd)) (im_of N (rnd_2 rnd)) (im_of N (rnd_3 rnd))
    (random_sign (n_alpha rnd) (rnd_alpha rnd)) (random_sign (n_beta rnd) (rnd_beta rnd)) (random_sign (n_delta rnd) (rnd_delta rnd))
    (random_sign (n_epsilon rnd) (rnd_epsilon rnd)) (random_sign (n_eta rnd) (rnd_eta rnd)) (random_sign (n_zeta rnd) (rnd_zeta rnd)) c)
    as (T1 & T2 & T3 & T4); [done|done|by apply im_of_unit..|].
  destruct (commitment_equations P (igp_groupOrder bp) (im_of P (igp_g bp)) (im_of P (igp_h bp)) e r
    (random_sign (n_alpha rnd) (rnd_alpha rnd)) (rnd_gamma rnd) (rnd_phi rnd) (rnd_psi rnd) (rnd_sigma rnd) (rnd_xi rnd) c)
    as (U1 & U2 & U3); [done|unfold bp; rewrite ?Eq; (done || by apply im_of_unit || (apply order_im_pow; (done || lia)))..|].
  rewrite !andb_true_iff, !Z.eqb_eq, !Z.leb_le. split_and!; [exact U1|exact U2|exact U3|exact T1|exact T2|exact T3|exact T4|apply Hrange..].
Qed.

(** * The signature of knowledge on the serial number *)

(** One round with challenge bit 0. *)
Lemma sok_equation P Q g h a b S R x r ve :
  1 < P → 1 < Q → unit P g → unit P h → unit Q a → unit Q b → im_pow P g Q ≡[P] 1 →
  let value := im_mul Q (im_pow Q a S) (im_pow Q b R) in
  let exp := im_pow Q b (r - R) in
  im_mul P (im_pow P (im_of P (im_mul P (im_pow P g value) (im_pow P h x))) exp) (im_pow P h (ve - x * exp))
  = im_mul P (im_pow P g (im_mul Q (im_pow Q a S) (im_pow Q b r))) (im_pow P h ve).
Proof.
  intros HP HQ Hg Hh Ha Hb Hord value exp. pose proof (Z.coprime_1_l P) as H1.
  eapply (Rep_eq_order_g P 1 g h) with (q := Q); [done|done|done|by apply im_mul_range|by apply im_mul_range|rep..|ring| |ring].
  transitivity (value * exp); [apply eq_eqm; ring|]. transitivity (im_pow Q a S * im_pow Q b r).
  - unfold value, im_mul. rewrite eqm_mod. transitivity (im_pow Q a S * (im_pow Q b R * exp)); [apply eq_eqm; ring|].
    unfold exp. rewrite <-im_pow_add by done. by replace (R + (r - R)) with r by lia.
  - transitivity (im_mul Q (im_pow Q a S) (im_pow Q b r)); [|apply eq_eqm; ring]. unfold im_mul. by rewrite eqm_mod.
Qed.

Lemma draw_seed_inv p cands vs ve :
  draw_seed p cands = Some (vs, ve) → ∃ seed, seed ∈ cands ∧ vs = setuint256 seed ∧ ve = SeedTo1024 seed.
Proof.
  induction cands as [|seed cands IH]; [done|]. simpl. destruct (_ <? _); [|intros [= <- <-]; exists seed; split_and!; [left|done..]].
  intros (s & ? & ?)%IH. exists s. split; [by right|done].
Qed.

Definition seeds_ok (p : ZerocoinParams) (cands : list (list Z)) : Prop :=
  Forall (λ s, words 8 s ∧ length s = 32%nat) cands ∧ is_Some (draw_seed p cands).

Lemma challenge_bit_Some hash i : length hash = 32%nat → (i < 256)%nat → is_Some (challenge_bit hash i).
Proof.
  intros Hl Hi. unfold challenge_bit. destruct (lookup_lt_is_Some_2 hash (i / 8)%nat) as [b ->]; [|by eexists].
  rewrite Hl. apply Nat.Div0.div_lt_upper_bound. lia.
Qed.

(** The commitment to a coin in the serial number group, and one response. *)
Lemma sok_round p coin x bit r seed :
  let ap := serialNumberSoKCommitmentGroup p in
  let C := commit SERIAL_NUMBER_SOK_COMMITMENT_MODULUS (sgp_g ap) (sgp_h ap) (pc_value (publicCoin coin)) x in
  params_ok p →
  pc_value (publicCoin coin) = commitmentValue (commit COIN_COMMITMENT_MODULUS (igp_g (coinCommitmentGroup p))
    (igp_h (coinCommitmentGroup p)) (serialNumber coin) (coin_randomness coin)) →
  words 8 seed → length seed = 32%nat →
  ∀ this i, challenge_bit (sok_hash this) i = Some bit →
  s_notprime this !! i = Some (sok_response p coin C bit r (setuint256 seed) (SeedTo1024 seed)).1 →
  sprime this !! i = Some (sok_response p coin C bit r (setuint256 seed) (SeedTo1024 seed)).2 →
  sok_tprime p this (serialNumber coin) (commitmentValue C) i = Some (challengeCalculation p (serialNumber coin) r (SeedTo1024 seed)).
Proof.
  intros ap C [] Hv Hs Hl this i Eb En Es. unfold sok_tprime. rewrite Eb, En, Es. cbn [mbind option_bind]. destruct bit; cbn [sok_response fst snd].
  - by rewrite getuint256_setuint256.
  - f_equal. unfold C, challengeCalculation. cbn [commit commitmentValue randomness]. rewrite Hv. cbn [commit commitmentValue]. rewrite ok_coin0.
    apply sok_equation; try done; try by apply im_of_unit. by apply order_im_pow; [..|lia|].
Qed.

Lemma mapM_total {A B} (f : A → option B) l : Forall (λ x, is_Some (f x)) l → ∃ k, mapM f l = Some k ∧ Forall2 (λ x y, f x = Some y) l k.
Proof.
  intros Hl. assert (is_Some (mapM f l)) as [k E] by (by apply mapM_is_Some_2). exists k. split; [done|by apply mapM_Some_1].
Qed.

Lemma SerialSoK_complete p coin x msghash rnd :
  let ap := serialNumberSoKCommitmentGroup p in
  let C := commit SERIAL_NUMBER_SOK_COMMITMENT_MODULUS (sgp_g ap) (sgp_h ap) (pc_value (publicCoin coin)) x in
  params_ok p →
  pc_value (publicCoin coin) = commitmentValue (commit COIN_COMMITMENT_MODULUS (igp_g (coinCommitmentGroup p))
    (igp_h (coinCommitmentGroup p)) (serialNumber coin) (coin_randomness coin)) →
  words 8 msghash → Forall (λ d, seeds_ok p d.2) rnd → length rnd = Z.to_nat (zkp_iterations p) → (length rnd ≤ 256)%nat →
  ∃ sok, SerialNumberSignatureOfKnowledge_of p coin C msghash rnd = Some sok ∧
    SerialSoK_Verify p sok (serialNumber coin) (commitmentValue C) msghash = Some true.
Proof.
  intros ap C Hp Hv Hmsg Hrnd Hlen Hn. unfold SerialNumberSignatureOfKnowledge_of. rewrite (ok_coin p Hp), Z.eqb_refl, Hlen, Nat.eqb_refl. cbn [negb].
  set (f := λ '(r, cands), '(v_seed, v_expanded) ← draw_seed p cands; Some (r, v_seed, v_expanded)).
  destruct (mapM_total f rnd) as (draws & Ed & Hd).
  { eapply Forall_impl; [exact Hrnd|]. intros [r cands] [_ [[vs ve] E]]. unfold f. simpl in E. rewrite E. by eexists. }
  rewrite Ed. cbn [mbind option_bind]. set (c := map _ draws). set (hash := Hash256 _).
  assert (words 8 hash ∧ length hash = 32%nat) as [_ Hh].
  { apply SHA256_bytes, SHA256_bytes. unfold sok_header. auto 20 with bytes. }
  pose proof (Forall2_length _ _ _ Hd) as Hld.
  set (g := λ '(i, (r, v_seed, v_expanded)), bit ← challenge_bit hash i; Some (sok_response p coin C bit r v_seed v_expanded)).
  destruct (mapM_total g (zip (seq 0 (length draws)) draws)) as (responses & Er & Hr).
  { apply Forall_lookup. intros i [j [[r vs] ve]] (j' & d & [= <- <-] & [-> Hj]%lookup_seq & _)%lookup_zip_with_Some. unfold g.
    destruct (challenge_bit_Some hash (0 + i) Hh) as [bit ->]; [lia|]. by eexists. }
  rewrite Er. cbn [mbind option_bind]. eexists. split; [reflexivity|]. unfold SerialSoK_Verify. cbn [sok_hash s_notprime sprime].
  assert (mapM (sok_tprime p (SerialSoK (map fst responses) (map snd responses) hash) (serialNumber coin) (commitmentValue C))
    (seq 0 (Z.to_nat (zkp_iterations p))) = Some c) as ->.
  { apply mapM_Some_2, Forall2_same_length_lookup_2; [unfold c; rewrite length_seq, length_map; lia|].
    intros i j y [-> Hi]%lookup_seq Hy. unfold c in Hy. rewrite list_lookup_fmap in Hy.
    destruct (draws !! i) as [[[r vs] ve]|] eqn:Edr; [|done]. injection Hy as <-.
    destruct (Forall2_lookup_r _ _ _ _ _ Hd Edr) as ([r' cands] & Ern & Ef). unfold f in Ef.
    destruct (Forall_lookup_1 _ _ _ _ Hrnd Ern) as [Hc _]. cbn [snd] in Hc.
    destruct (draw_seed p cands) as [[vs' ve']|] eqn:Eds; [|done]. injection Ef as <- <- <-.
    apply draw_seed_inv in Eds as (seed & Hin & -> & ->). destruct (proj1 (Forall_forall _ _) Hc seed Hin) as [Hw Hl].
    assert (zip (seq 0 (length draws)) draws !! i = Some (i, (r', setuint256 seed, SeedTo1024 seed))) as Ez.
    { apply lookup_zip_with_Some. eexists _, _. split_and!; [reflexivity| |done]. apply lookup_seq. split; [done|]. by eapply lookup_lt_Some. }
    destruct (Forall2_lookup_l _ _ _ _ _ Hr Ez) as (y & Ey & Eg). unfold g in Eg. destruct (challenge_bit hash i) as [bit|] eqn:Eb; [|done].
    injection Eg as <-. simpl. eapply sok_round; [done|done|done|done|done|..]; cbn [s_notprime sprime].
    - change (map fst responses) with (fst <$> responses). by rewrite list_lookup_fmap, Ey.
    - change (map snd responses) with (snd <$> responses). by rewrite list_lookup_fmap, Ey. }
  cbn [mbind option_bind]. by rewrite bool_decide_true.
Qed.

(** * The accumulator and its witnesses *)

Fixpoint accumulate_all (p : AccumulatorAndProofParams) (a : Accumulator) (coins : list PublicCoin) : option Accumulator :=
  match coins with [] => Some a | c :: coins => a ← accumulate p a c; accumulate_all p a coins end.
Fixpoint add_all (p : AccumulatorAndProofParams) (w : AccumulatorWitness) (coins : list PublicCoin) : option AccumulatorWitness :=
  match coins with [] => Some w | c :: coins => w ← AddElement p w c; add_all p w coins end.

Lemma accumulate_Some p a c a' :
  accumulate p a c = Some a' ↔ acc_denomination a = pc_denomination c ∧ PublicCoin_validate p (acc_zkp_iterations a) c = true ∧
    a' = increment p a (pc_value c).
Proof.
  unfold accumulate. case_decide as Hd; [split; [done|by intros [? _]]|].
  destruct (PublicCoin_validate _ _ _); split; [intros [= <-]|intros (_ & _ & ->)|done|by intros (_ & ? & _)]; done.
Qed.
Lemma validate_pos p k c : 0 ≤ minCoinValue p → PublicCoin_validate p k c = true → 0 < pc_value c < maxCoinValue p.
Proof. unfold PublicCoin_validate. rewrite !andb_true_iff, !Z.ltb_lt. lia. Qed.

Lemma pow_mod_swap N b x y : 0 < N → 0 ≤ x → 0 ≤ y → pow_mod (pow_mod b x N) y N = pow_mod (pow_mod b y N) x N.
Proof.
  intros. unfold pow_mod. rewrite !powm_spec by done. apply eqm_mod_eq; [done|]. rewrite !eqm_mod. rewrite <-!Z.pow_mul_r by done.
  by rewrite Z.mul_comm.
Qed.

Lemma PublicCoin_eq (c d : PublicCoin) : pc_value c = pc_value d → pc_denomination c = pc_denomination d → c = d.
Proof. destruct c, d. by intros [= ->] [= ->]. Qed.

(** Coins other than the element act on the witness as on the accumulator. *)
Lemma add_all_other p b w A coins :
  0 < accumulatorModulus p → 0 ≤ minCoinValue p → 0 ≤ pc_value (element w) →
  acc_denomination (witness w) = acc_denomination b → acc_zkp_iterations (witness w) = acc_zkp_iterations b →
  acc_value b = pow_mod (acc_value (witness w)) (pc_value (element w)) (accumulatorModulus p) →
  Forall (λ c, pc_value c ≠ pc_value (element w)) coins →
  accumulate_all p b coins = Some A →
  ∃ w', add_all p w coins = Some w' ∧ element w' = element w ∧
    acc_denomination (witness w') = acc_denomination A ∧ acc_zkp_iterations (witness w') = acc_zkp_iterations A ∧
    acc_denomination A = acc_denomination b ∧ acc_zkp_iterations A = acc_zkp_iterations b ∧
    acc_value A = pow_mod (acc_value (witness w')) (pc_value (element w)) (accumulatorModulus p).
Proof.
  intros HN Hmin He Hd Hk Hv Hc. revert b w He Hd Hk Hv Hc. induction coins as [|c coins IH]; intros b w He Hd Hk Hv Hc; cbn [accumulate_all add_all].
  { intros [= <-]. by exists w. }
  apply Forall_cons in Hc as [Hc Hcs]. destruct (accumulate p b c) as [b'|] eqn:E; [|done]. cbn [mbind option_bind]. intros HA.
  apply accumulate_Some in E as (Hdc & Hval & ->). unfold AddElement. destruct (Z.eqb_spec (pc_value (element w)) (pc_value c)); [congruence|].
  cbn [negb]. assert (accumulate p (witness w) c = Some (increment p (witness w) (pc_value c))) as ->
    by (apply accumulate_Some; rewrite Hd, Hk; done).
  cbn [mbind option_bind]. destruct (validate_pos _ _ _ Hmin Hval) as [? _].
  destruct (IH (increment p b (pc_value c)) (AccWitness (increment p (witness w) (pc_value c)) (element w))) as (w' & ? & ? & ? & ? & ? & ? & ?);
    cbn [witness element increment acc_value acc_denomination acc_zkp_iterations]; try done.
  - rewrite Hv. apply pow_mod_swap; lia.
  - by exists w'.
Qed.

Lemma add_all_before p w coins b :
  Forall (λ c, pc_value c ≠ pc_value (element w)) coins → accumulate_all p (witness w) coins = Some b →
  add_all p w coins = Some (AccWitness b (element w)).
Proof.
  intros Hc. revert w Hc. induction coins as [|c coins IH]; intros w Hc; cbn [accumulate_all add_all].
  { intros [= <-]. by destruct w. }
  apply Forall_cons in Hc as [Hc Hcs]. destruct (accumulate p (witness w) c) as [b'|] eqn:E; [|done]. cbn [mbind option_bind]. intros HA.
  unfold AddElement. destruct (Z.eqb_spec (pc_value (element w)) (pc_value c)); [congruence|]. cbn [negb]. rewrite E. cbn [mbind option_bind].
  by rewrite (IH (AccWitness b' (element w))).
Qed.
Lemma add_all_app p w l1 l2 : add_all p w (l1 ++ l2) = w' ← add_all p w l1; add_all p w' l2.
Proof. revert w. induction l1 as [|c l1 IH]; intros w; [done|]. simpl. destruct (AddElement p w c); [apply IH|done]. Qed.
Lemma accumulate_all_app p a l1 l2 : accumulate_all p a (l1 ++ l2) = a' ← accumulate_all p a l1; accumulate_all p a' l2.
Proof. revert a. induction l1 as [|c l1 IH]; intros a; [done|]. simpl. destruct (accumulate p a c); [apply IH|done]. Qed.

(** The witness of a coin, kept up to date with the coins that are accumulated, is
    valid for the accumulator: from a common checkpoint on, accumulating a list of
    coins in which the value of the coin occurs exactly once, and adding the same
    list to the witness, makes [VerifyWitness] succeed. *)
Lemma witness_complete p a A c l1 l2 :
  0 < accumulatorModulus p → 0 ≤ minCoinValue p →
  Forall (λ d, pc_value d ≠ pc_value c) (l1 ++ l2) →
  accumulate_all p a (l1 ++ c :: l2) = Some A →
  ∃ w, add_all p (AccWitness a c) (l1 ++ c :: l2) = Some w ∧ element w = c ∧ VerifyWitness p w A c = Some true.
Proof.
  intros HN Hmin [H1 H2]%Forall_app HA. rewrite accumulate_all_app in HA. destruct (accumulate_all p a l1) as [b|] eqn:Eb; [|done].
  cbn [mbind option_bind accumulate_all] in HA. destruct (accumulate p b c) as [b'|] eqn:Ec; [|done]. cbn [mbind option_bind] in HA.
  rewrite add_all_app, (add_all_before p (AccWitness a c) l1 b) by done. cbn [mbind option_bind add_all element].
  unfold AddElement at 1. cbn [element]. rewrite Z.eqb_refl. cbn [negb mbind option_bind].
  apply accumulate_Some in Ec as (Hd & Hval & ->). destruct (validate_pos _ _ _ Hmin Hval) as [Hpos _].
  destruct (add_all_other p (increment p b (pc_value c)) (AccWitness b c) A l2) as (w & -> & Ew & Hd' & Hk & Hd2 & Hk2 & Hv); try done.
  { cbn [element]. lia. }
  exists w. cbn [element] in *. cbn [increment acc_denomination acc_zkp_iterations] in *. split_and!; [done..|]. unfold VerifyWitness. rewrite Ew.
  assert (accumulate p (witness w) c = Some (increment p (witness w) (pc_value c))) as ->.
  { apply accumulate_Some. rewrite Hd', Hk, Hd2, Hk2. done. }
  cbn [mbind option_bind increment acc_value]. rewrite Hv, Z.eqb_refl. cbn [negb]. by rewrite decide_False by (by intros ?).
Qed.
End zerocoin.
