(* ===== verification/ZerocoinProps.v ===== *)
(** The composition of the zerocoin proofs: a spend of an accumulated coin verifies;
    with a small instance of the parameters. *)

From Stdlib Require Import Zpow_facts.
From S2P Require Import Prelude Serialize SerializeFacts Transaction PubKey Interpreter InterpreterFacts Bignum BignumFacts Zerocoin ZerocoinFacts.

Section spend.
Context `{HFok : HashFunctionsOk} `{HGok : GmpOk} `{HM : Moduli}.

(** The random numbers of a spend are results of [randBignum] (with the data of the buffer
    as its destination) for the ranges in the source, and every loop that draws a seed ends. *)
Record randoms_ok (p : ZerocoinParams) (rnd : spend_random) : Prop := {
  rok_serial : random_for (Mod SERIAL_NUMBER_SOK_COMMITMENT_MODULUS) (rnd_serial rnd);
  rok_acc : random_for (Mod ACCUMULATOR_POK_COMMITMENT_MODULUS) (rnd_acc rnd);
  rok_equality : Forall (random_for (equality_maxRange (serialNumberSoKCommitmentGroup p)
    (accumulatorPoKCommitmentGroup (accumulatorParams p)))) [rnd_r1 rnd; rnd_r2 rnd; rnd_r3 rnd];
  rok_alpha : random_for (alpha_range (accumulatorParams p)) (rnd_alpha (rnd_pok rnd));
  rok_sok : Forall (λ d, seeds_ok p d.2) (rnd_sok rnd);
  rok_rounds : length (rnd_sok rnd) = Z.to_nat (zkp_iterations p) ∧ (length (rnd_sok rnd) ≤ 256)%nat;
}.

Lemma PrivateCoin_of_spec p d Serial Randomness coin :
  PrivateCoin_of p d Serial Randomness = Some coin →
  serialNumber coin = Serial ∧ coin_randomness coin = Randomness ∧ pc_denomination (publicCoin coin) = d ∧
  pc_value (publicCoin coin) = commitmentValue (commit COIN_COMMITMENT_MODULUS (igp_g (coinCommitmentGroup p))
    (igp_h (coinCommitmentGroup p)) Serial Randomness).
Proof. unfold PrivateCoin_of, PublicCoin_of. case_decide; [done|]. by intros [= <-]. Qed.

Lemma VerifyWitness_spec p w a c :
  VerifyWitness p w a c = Some true →
  element w = c ∧ PublicCoin_validate p (acc_zkp_iterations (witness w)) c = true ∧
  acc_value a = pow_mod (acc_value (witness w)) (pc_value c) (accumulatorModulus p).
Proof.
  unfold VerifyWitness. destruct (accumulate p (witness w) (element w)) as [t|] eqn:E; [|done]. cbn [mbind option_bind].
  apply accumulate_Some in E as (_ & Hv & ->). destruct (Z.eqb_spec (acc_value (increment p (witness w) (pc_value (element w)))) (acc_value a)) as [Ea|];
    [|done]. cbn [negb]. case_decide as Hd; [done|]. intros _. subst c. by rewrite <-Ea.
Qed.

Lemma bits_bound n T : 0 ≤ n < 2 ^ (bitSize (Mod T) + 6) → bitSize (Mod T) ≤ max_bits → 0 ≤ n < 2 ^ (max_bits + 6).
Proof. intros Hn Hb. split; [lia|]. eapply Z.lt_le_trans; [apply Hn|]. apply Z.pow_le_mono_r; lia. Qed.

Lemma residue_bits n T : 0 ≤ n < Mod T → 0 ≤ n < 2 ^ (bitSize (Mod T) + 6).
Proof.
  intros Hn. pose proof (bitSize_lt (Mod T) ltac:(lia)). pose proof (bitSize_pos (Mod T)). split; [lia|].
  assert (2 ^ bitSize (Mod T) ≤ 2 ^ (bitSize (Mod T) + 6)) by (apply Z.pow_le_mono_r; lia). lia.
Qed.
Lemma commit_range T g h S R : 1 < Mod T → 0 ≤ commitmentValue (commit T g h S R) < Mod T.
Proof. apply im_mul_range. Qed.

Lemma max_bits_ge :
  Forall (λ T, bitSize (Mod T) ≤ max_bits) [SERIAL_NUMBER_SOK_COMMITMENT_MODULUS; SERIAL_NUMBER_SOK_COMMITMENT_GROUP;
     ACCUMULATOR_POK_COMMITMENT_MODULUS; ACCUMULATOR_POK_COMMITMENT_GROUP].
Proof. unfold max_bits. repeat apply Forall_cons_2; [lia..|constructor]. Qed.

Lemma denomination_bytes c : words 8 (Serialize_denomination c).
Proof. apply uint_bytes. Qed.
Lemma hash256_digest msg : words 8 msg → words 8 (Hash256 msg) ∧ length (Hash256 msg) = 32%nat.
Proof. intros Hm. by apply SHA256_bytes, SHA256_bytes. Qed.

(** A spend made with numbers of the generator's ranges verifies. *)
Lemma CoinSpend_of_complete `{HS : Secp256k1} p d Serial Randomness coin w a checksum txHash version0 type0 key sign rnd :
  params_ok p → 0 ≤ minCoinValue (accumulatorParams p) →
  PrivateCoin_of p d Serial Randomness = Some coin →
  VerifyWitness (accumulatorParams p) w a (publicCoin coin) = Some true → acc_denomination a = d →
  Z.coprime (acc_value (witness w)) (Mod ACCUMULATOR_MODULUS) →
  Z.coprime (pc_value (publicCoin coin) - 1) (Mod ACCUMULATOR_POK_COMMITMENT_GROUP) →
  Z.coprime (pc_value (publicCoin coin) + 1) (Mod ACCUMULATOR_POK_COMMITMENT_GROUP) →
  randoms_ok p rnd → words 8 txHash → (∀ h, is_Some (sign h)) →
  ∃ spend, CoinSpend_of p coin a checksum w txHash version0 type0 key sign rnd = Some spend ∧
    CoinSpend_Verify p spend a = Some true ∧
    (Serial = setuint256 (Hash256 (Raw key)) → words 8 (Raw key) → (∀ h sig, sign h = Some sig → Verify key h sig = true) →
     HasValidSignature spend = Some true).
Proof.
  intros Hp Hmin Hcoin Hw Hd Hu Hu1 Hu2 Hrnd Htx Hsign. apply PrivateCoin_of_spec in Hcoin as (Es & Er & Ed & Ev).
  pose proof (VerifyWitness_spec _ _ _ _ Hw) as (_ & Hval & Ha). pose proof (validate_pos _ _ _ Hmin Hval) as He.
  set (value := pc_value (publicCoin coin)) in *. pose proof max_bits_ge as HB. rewrite !Forall_cons in HB. destruct HB as (B1 & B2 & B3 & _ & _).
  destruct Hrnd. destruct rok_rounds0 as [Hn1 Hn2]. unfold CoinSpend_of. rewrite Hw. cbn [mbind option_bind negb]. fold value.
  destruct (CommitmentPoK_complete p value (rnd_serial rnd) (rnd_acc rnd) (rnd_r1 rnd) (rnd_r2 rnd) (rnd_r3 rnd)) as (cpok & -> & Hv1); [done|done|..].
  { repeat apply Forall_cons_2; [|by eapply bits_bound; [apply random_for_bound|]..|constructor].
    apply (bits_bound _ SERIAL_NUMBER_SOK_COMMITMENT_GROUP); [|done]. apply residue_bits. rewrite Ev.
    rewrite <-(ok_coin p Hp). apply commit_range. rewrite (ok_coin p Hp). apply Hp. }
  cbn [mbind option_bind]. set (hashSig := signatureHash _).
  assert (words 8 hashSig) as Hsig.
  { apply hash256_digest. cbn [serialCommitmentToCoinValue accCommitmentToCoinValue commitmentPoK accumulatorPoK ptxHash coinSerialNumber accChecksum].
    unfold Serialize_CommitmentPoK, Serialize_AccumulatorPoK. pose proof (denomination_bytes (pc_denomination (publicCoin coin))). auto 20 with bytes. }
  destruct (SerialSoK_complete p coin (rnd_serial rnd) hashSig (rnd_sok rnd)) as (sok & Esok & Hv3); [done|by rewrite Es, Er|done..|].
  fold value in Esok, Hv3. rewrite Esok.
  cbn [mbind option_bind]. destruct (Hsign hashSig) as [sig Esig]. rewrite Esig. cbn [mbind option_bind]. eexists. split; [reflexivity|].
  change (signatureHash _) with hashSig. split.
  - unfold CoinSpend_Verify. cbn [denomination commitmentPoK accumulatorPoK serialNumberSoK coinSerialNumber serialCommitmentToCoinValue accCommitmentToCoinValue].
    rewrite bool_decide_true by congruence. rewrite Hv1. rewrite (AccumulatorPoK_complete p value (rnd_acc rnd)); [cbn [andb]; exact Hv3|done|lia|done|done|done| |done].
    by rewrite <-(ok_acc p Hp).
  - intros Ek Hk Hsok. unfold HasValidSignature. cbn [pubkey coinSerialNumber spend_vchSig].
    assert (getuint256 (serialNumber coin) = Some (Hash256 (Raw key))) as -> by (rewrite Es, Ek; by apply getuint256_setuint256; apply hash256_digest).
    cbn [mbind option_bind]. rewrite bool_decide_true by done. cbn [negb]. f_equal. exact (Hsok hashSig sig Esig).
Qed.

(** ** The calls of the generator *)

Section draws.
Context (random : nat → nat → Z) (Hrandom : ∀ k i, fits 8 (random k i)).
Local Abbreviation data := (randBignum_to buffer_data).

Lemma draw_data range k : ∃ r, data range (random k) = Some r ∧ random_for range r.
Proof. destruct (randBignum_data range (random k) (Hrandom k)) as (r & E & _). exists r. split; [done|]. by exists (random k). Qed.

Ltac drawn k r := match goal with |- context [data ?range (random k)] => let E := fresh in destruct (draw_data range k) as (r & E & ?); rewrite E; clear E; cbn [mbind option_bind] end.

Lemma draw_accumulator_data p k : ∃ rnd, draw_accumulator data random p k = Some rnd ∧ random_for (alpha_range p) (rnd_alpha rnd).
Proof.
  unfold draw_accumulator. cbv zeta. repeat match goal with |- context [data ?range (random ?j) ≫= _] => drawn j ltac:(fresh) end.
  eexists. split; [reflexivity|]. done.
Qed.

(** The seed of the [k]-th call. *)
Definition drawn_seed (k : nat) : option (list Z) := data (2 ^ 256 - 1) (random k) ≫= getuint256.
Lemma drawn_seed_bytes k : ∃ seed, drawn_seed k = Some seed ∧ words 8 seed ∧ length seed = 32%nat.
Proof.
  unfold drawn_seed. destruct (draw_data (2 ^ 256 - 1) k) as (r & -> & Hr%random_for_exact). cbn [mbind option_bind].
  destruct (mpz_export_spec r) as (Hw & _ & Hlen). unfold getuint256.
  assert (bitlen (Z.abs r) ≤ 256) as Hb by (rewrite Z.abs_eq by lia; apply bitlen_le; [lia|]; change (8 * _ - 1) with 255 in Hr; lia).
  assert (Z.of_nat (length (mpz_export r)) ≤ 32) by (rewrite Hlen; apply Z.lt_succ_r, Z.div_lt_upper_bound; lia).
  destruct (Nat.leb_spec (length (mpz_export r)) 32); [|lia]. eexists. split; [done|].
  split; [apply words_app; [done|by apply words_replicate0]|rewrite length_app, length_replicate; lia].
Qed.

Definition seed_fits (p : ZerocoinParams) (k : nat) : Prop :=
  ∃ seed, drawn_seed k = Some seed ∧ SeedTo1024 seed ≤ sgp_groupOrder (serialNumberSoKCommitmentGroup p).

Lemma seed_candidates_data p fuel k :
  (∃ j, (j < fuel)%nat ∧ seed_fits p (k + j)) → ∃ cands k', seed_candidates data random p fuel k = Some (cands, k') ∧ seeds_ok p cands.
Proof.
  revert k. induction fuel as [|fuel IH]; intros k (j & Hj & Hfit); [lia|]. cbn [seed_candidates].
  destruct (drawn_seed_bytes k) as (seed & Es & Hs). pose proof Es as Es'. unfold drawn_seed in Es'.
  destruct (data (2 ^ 256 - 1) (random k)) as [n|]; [|done]. cbn [mbind option_bind] in *. rewrite Es'. cbn [mbind option_bind].
  destruct (Z.ltb_spec (sgp_groupOrder (serialNumberSoKCommitmentGroup p)) (SeedTo1024 seed)) as [Hlt|Hle].
  - destruct j as [|j].
    { destruct Hfit as (seed' & E & Hle). rewrite Nat.add_0_r in E. assert (seed' = seed) as -> by congruence. lia. }
    destruct (IH (S k)) as (cands & k' & -> & Hc & Hd); [exists j; split; [lia|]; by replace (S k + j)%nat with (k + S j)%nat by lia|].
    do 2 eexists. split; [reflexivity|]. split; [by constructor|]. cbn [draw_seed].
    by rewrite (proj2 (Z.ltb_lt _ _) Hlt).
  - do 2 eexists. split; [reflexivity|]. split; [by apply Forall_singleton|]. cbn [draw_seed].
    rewrite (proj2 (Z.ltb_ge _ _) Hle). by eexists.
Qed.

Lemma sok_draws_data p fuel rounds k :
  (∀ k, ∃ j, (j < fuel)%nat ∧ seed_fits p (k + j)) →
  ∃ rnd, sok_draws data random p fuel rounds k = Some rnd ∧ Forall (λ d, seeds_ok p d.2) rnd ∧ length rnd = rounds.
Proof.
  intros Hfit. revert k. induction rounds as [|rounds IH]; intros k; [by exists []|]. cbn [sok_draws]. drawn k r.
  destruct (seed_candidates_data p fuel (S k) (Hfit _)) as (cands & k' & -> & Hc). cbn [mbind option_bind].
  destruct (IH k') as (rnd & -> & Hr & Hl). eexists. split; [reflexivity|]. split; [by constructor|simpl; lia].
Qed.

Lemma draw_spend_data p fuel :
  zkp_iterations p ≤ 256 → (∀ k, ∃ j, (j < fuel)%nat ∧ seed_fits p (k + j)) → ∃ rnd, draw_spend data random p fuel = Some rnd ∧ randoms_ok p rnd.
Proof.
  intros Hn Hfit. unfold draw_spend. cbv zeta. drawn 0%nat r0. drawn 1%nat r1. drawn 2%nat r2. drawn 3%nat r3. drawn 4%nat r4.
  destruct (draw_accumulator_data (accumulatorParams p) 5) as (pok & -> & Hpok). cbn [mbind option_bind].
  destruct (sok_draws_data p fuel (Z.to_nat (zkp_iterations p)) 25 Hfit) as (sok & -> & Hsok & Hl). eexists. split; [reflexivity|].
  split; cbn [rnd_serial rnd_acc rnd_r1 rnd_r2 rnd_r3 rnd_pok rnd_sok]; [done|done|by repeat constructor|done|done|lia].
Qed.
End draws.

Lemma draw_spend_undefined random p fuel : draw_spend randBignum random p fuel = None.
Proof. unfold draw_spend. rewrite (randBignum_undefined (Mod SERIAL_NUMBER_SOK_COMMITMENT_MODULUS)). reflexivity. Qed.

(** C11: The proofs of a zerocoin spend are complete, provided that the random numbers are
    drawn into the data of their buffers.  Let the parameters be well formed
    ([params_ok], at most 256 rounds), the coin be one that [PrivateCoin] commits to, the
    witness one that [VerifyWitness] accepts for the accumulator, its value and the
    coin's value -1 and +1 invertible for the moduli, and the key able to sign.  Then
    for all bytes of the system's generator, if every loop that draws seeds ends
    within [fuel] calls, the constructor of [CoinSpend] returns a spend, and [Verify]
    accepts it for that accumulator: the proof that the two commitments hide the same
    coin, the proof that the coin is accumulated and the signature of knowledge on the
    serial number all verify.  If the key is the one the serial number was made from
    and its signatures are valid, [HasValidSignature] holds.  With [randBignum] as it
    is written, which overwrites the vector object, the constructor has no defined
    result. *)
Theorem CoinSpend_complete `{HS : Secp256k1} p d Serial Randomness coin w a checksum txHash version0 type0 key sign random fuel :
  params_ok p → 0 ≤ minCoinValue (accumulatorParams p) →
  PrivateCoin_of p d Serial Randomness = Some coin →
  VerifyWitness (accumulatorParams p) w a (publicCoin coin) = Some true → acc_denomination a = d →
  Z.coprime (acc_value (witness w)) (Mod ACCUMULATOR_MODULUS) →
  Z.coprime (pc_value (publicCoin coin) - 1) (Mod ACCUMULATOR_POK_COMMITMENT_GROUP) →
  Z.coprime (pc_value (publicCoin coin) + 1) (Mod ACCUMULATOR_POK_COMMITMENT_GROUP) →
  zkp_iterations p ≤ 256 → (∀ k i, fits 8 (random k i)) → (∀ k, ∃ j, (j < fuel)%nat ∧ seed_fits random p (k + j)) →
  words 8 txHash → (∀ h, is_Some (sign h)) →
  (∃ spend, CoinSpend_new (randBignum_to buffer_data) random fuel p coin a checksum w txHash version0 type0 key sign = Some spend ∧
    CoinSpend_Verify p spend a = Some true ∧
    (Serial = setuint256 (Hash256 (Raw key)) → words 8 (Raw key) → (∀ h sig, sign h = Some sig → Verify key h sig = true) →
     HasValidSignature spend = Some true)) ∧
  CoinSpend_new randBignum random fuel p coin a checksum w txHash version0 type0 key sign = None.
Proof.
  intros Hp Hmin Hcoin Hw Hd Hu Hu1 Hu2 Hn Hr Hfit Htx Hsign. unfold CoinSpend_new. rewrite draw_spend_undefined. split; [|done].
  destruct (draw_spend_data random Hr p fuel Hn Hfit) as (rnd & -> & Hrnd). cbn [mbind option_bind]. by eapply CoinSpend_of_complete.
Qed.

(** * Memory safety of the verification of a serial number proof *)

Lemma getuint256_defined a : is_Some (getuint256 a) ↔ Z.abs a < 2 ^ 256.
Proof.
  unfold getuint256. destruct (mpz_export_spec a) as (_ & _ & Hl). pose proof (bitlen_nonneg (Z.abs a)) as Hb.
  assert (Z.of_nat (length (mpz_export a)) ≤ 32 ↔ bitlen (Z.abs a) ≤ 256) as Hiff.
  { rewrite Hl. split; intros Hle.
    - pose proof (Z.div_mod (bitlen (Z.abs a) + 7) 8). pose proof (Z.mod_pos_bound (bitlen (Z.abs a) + 7) 8). lia.
    - apply Z.lt_succ_r, Z.div_lt_upper_bound; lia. }
  assert (bitlen (Z.abs a) ≤ 256 ↔ Z.abs a < 2 ^ 256) as Hiff2.
  { split; [|intros; apply bitlen_le; lia]. intros Hle. destruct (Z.eqb_spec (Z.abs a) 0) as [->|?]; [done|].
    eapply Z.lt_le_trans; [apply bitlen_spec; lia|]. apply Z.pow_le_mono_r; lia. }
  destruct (Nat.leb_spec (length (mpz_export a)) 32); split; intros Hs; [apply Hiff2, Hiff; lia|by eexists|by destruct Hs|].
  apply Hiff2, Hiff in Hs. lia.
Qed.

(** C39: [SerialNumberSignatureOfKnowledge::Verify] does not validate the vectors it has
    read from the network.  It returns a result exactly when both have an entry for
    every iteration and the entries used as seeds are below 2^256; otherwise it reads
    past the end of a vector, or [getuint256] writes past the end of a [uint256]. *)
Theorem SerialSoK_Verify_defined p this coinSerialNumber value msghash :
  length (sok_hash this) = 32%nat → (Z.to_nat (zkp_iterations p) ≤ 256)%nat →
  is_Some (SerialSoK_Verify p this coinSerialNumber value msghash) ↔
  ∀ i, (i < Z.to_nat (zkp_iterations p))%nat →
    ∃ s sp, s_notprime this !! i = Some s ∧ sprime this !! i = Some sp ∧
      (challenge_bit (sok_hash this) i = Some true → Z.abs sp < 2 ^ 256).
Proof.
  intros Hl Hn. assert (is_Some (SerialSoK_Verify p this coinSerialNumber value msghash) ↔
    Forall (λ i, is_Some (sok_tprime p this coinSerialNumber value i)) (seq 0 (Z.to_nat (zkp_iterations p)))) as ->.
  { unfold SerialSoK_Verify. etransitivity; [|apply (mapM_is_Some (sok_tprime p this coinSerialNumber value))].
    destruct (mapM _ _); split; try (by intros [? [=]]); by eexists. }
  rewrite Forall_seq. split; intros Hall i Hi.
  - specialize (Hall i ltac:(lia)). unfold sok_tprime in Hall. destruct (challenge_bit_Some (sok_hash this) i Hl) as [bit Eb]; [lia|].
    rewrite Eb in *. cbn [mbind option_bind] in Hall. destruct (s_notprime this !! i) as [s|]; [|by destruct Hall].
    destruct (sprime this !! i) as [sp|]; [|by destruct Hall]. exists s, sp. split_and!; [done..|]. intros [= ->].
    apply getuint256_defined. cbn [mbind option_bind] in Hall. destruct (getuint256 sp); [by eexists|by destruct Hall].
  - destruct (Hall i) as (s & sp & E1 & E2 & Hsp); [lia|]. unfold sok_tprime.
    destruct (challenge_bit_Some (sok_hash this) i Hl) as [bit Eb]; [lia|]. rewrite Eb, E1, E2 in *. cbn [mbind option_bind].
    destruct bit; [|by eexists]. specialize (Hsp eq_refl). apply getuint256_defined in Hsp as [seed ->]. by eexists.
Qed.
End spend.

(** * A small instance *)

#[local] Instance small_gmp : Gmp := {|
  mpz_powm b e m := if m =? 1 then 0 else Zpow_mod b e m;
  mpz_invert a m := Z.invmod a m;
  mpz_probab_prime_p a _ := if forallb (λ d, negb (a `mod` Z.of_nat d =? 0)) (seq 2 (Z.to_nat a - 2)) then 1 else 0;
|}.
#[local] Instance small_gmp_ok : GmpOk.
Proof.
  split.
  - intros b e m He Hm. simpl. destruct (Z.eqb_spec m 1) as [->|?]; [by rewrite Z.mod_1_r|]. apply Zpow_mod_correct; lia.
  - intros a m Hm Ha. simpl. split; [|rewrite Z.mul_comm; apply Z.invmod_coprime; [lia|done]].
    unfold Z.invmod. apply Z.mod_pos_bound. lia.
Qed.
#[local] Instance small_hashes : HashFunctions := {|
  RIPEMD160 b := take 20 (b ++ replicate 20 0); SHA1 b := take 20 (b ++ replicate 20 0); SHA256 b := take 32 (b ++ replicate 32 0);
|}.
#[local] Instance small_hashes_ok : HashFunctionsOk.
Proof.
  split; intros b Hb; (split; [apply Forall_take, words_app; [done|by apply words_replicate0]|]);
    (cbn [RIPEMD160 SHA1 SHA256 small_hashes]; rewrite length_take, length_app, length_replicate; lia).
Qed.
#[local] Instance small_moduli : Moduli := λ T,
  match T with
  | ACCUMULATOR_MODULUS => 77
  | COIN_COMMITMENT_MODULUS | SERIAL_NUMBER_SOK_COMMITMENT_GROUP => 11
  | SERIAL_NUMBER_SOK_COMMITMENT_MODULUS => 23
  | ACCUMULATOR_POK_COMMITMENT_MODULUS => 227
  | ACCUMULATOR_POK_COMMITMENT_GROUP => 113
  end.
Definition small_params : ZerocoinParams :=
  ZeroParams true (AccumulatorParams true 77 4 (IntegerGroup true 4 9 227 113) (IntegerGroup true 16 25 0 0) 2 200 160 128)
    (IntegerGroup true 2 3 11 10) (SerialNumberGroup 4 9 23 11) 2 2.
Lemma small_params_ok : params_ok small_params.
Proof.
  split; lazymatch goal with
  | |- Forall _ _ => repeat apply Forall_cons_2; [by apply Z.leb_le; vm_compute..|constructor]
  | |- _ ≡[_] _ => apply eqm_mod_eq; by vm_compute
  | |- _ => vm_compute; repeat split; congruence
  end.
Qed.

Definition small_coin : PrivateCoin := PrivCoin (PubCoin 7 ZQ_FIVE) 5 7.
Definition small_witness : AccumulatorWitness := AccWitness (Acc 4 ZQ_FIVE 2) (PubCoin 7 ZQ_FIVE).
Definition small_accumulator : Accumulator := Acc (4 ^ 7 `mod` 77) ZQ_FIVE 2.
(** The bytes of the calls with an even number are 0, those of the others the number 1. *)
Definition small_bytes (k i : nat) : Z := if Nat.even k || negb (i =? 0)%nat then 0 else 1.
Lemma small_seed k : Nat.even k = true → drawn_seed small_bytes k = Some (replicate 32 0).
Proof.
  intros Hk. unfold drawn_seed, randBignum_to. change (rand_size (2 ^ 256 - 1)) with 32%nat.
  assert (∀ i, small_bytes k i = 0) as Hz by (intros i; unfold small_bytes; by rewrite Hk).
  cbn [seq map]. rewrite !Hz. vm_compute. reflexivity.
Qed.
Lemma small_seeds k : ∃ j, (j < 2)%nat ∧ seed_fits small_bytes small_params (k + j).
Proof.
  assert (∃ j, (j < 2)%nat ∧ Nat.even (k + j) = true) as (j & Hj & He).
  { destruct (Nat.even k) eqn:E; [exists 0%nat; rewrite Nat.add_0_r; split; [lia|done]|exists 1%nat; split; [lia|]].
    by rewrite Nat.add_1_r, Nat.even_succ, <-Nat.negb_even, E. }
  exists j. split; [done|]. exists (replicate 32 0). split; [by apply small_seed|]. by vm_compute.
Qed.

Definition small_secp : Secp256k1 := {|
  curve_point := (); ec_pubkey_parse _ := None; ec_pubkey_serialize _ _ := []; ecdsa_verify _ _ _ := false;
|}.

Lemma CoinSpend_complete_witness :
  match CoinSpend_new (randBignum_to buffer_data) small_bytes 2 small_params small_coin small_accumulator 1 small_witness (replicate 32 9) 0 0 (MkPubKey []) (λ _, Some []) with
  | Some spend => CoinSpend_Verify small_params spend small_accumulator = Some true
  | None => False
  end.
Proof.
  destruct (@CoinSpend_complete _ small_hashes_ok _ small_gmp_ok small_moduli small_secp small_params ZQ_FIVE 7 5 small_coin small_witness
    small_accumulator 1 (replicate 32 9) 0 0 (MkPubKey []) (λ _, Some []) small_bytes 2) as [(spend & E & Hv & _) _].
  - apply small_params_ok.
  - by vm_compute.
  - by vm_compute.
  - by vm_compute.
  - reflexivity.
  - by vm_compute.
  - by vm_compute.
  - by vm_compute.
  - by vm_compute.
  - intros k i. unfold small_bytes. by destruct (_ || _).
  - exact small_seeds.
  - apply Forall_replicate. by vm_compute.
  - intros h. by eexists.
  - rewrite E. exact Hv.
Defined.

(** A proof that makes the verification write past the end of a [uint256]. *)
Lemma SerialSoK_Verify_defined_witness :
  SerialSoK_Verify small_params (SerialSoK [1; 1] [2 ^ 256; 0] (replicate 32 1)) 7 3 (replicate 32 0) = None.
Proof.
  destruct (@SerialSoK_Verify_defined small_hashes small_gmp small_moduli small_params (SerialSoK [1; 1] [2 ^ 256; 0] (replicate 32 1)) 7 3
    (replicate 32 0) eq_refl) as [Hd _]; [simpl; lia|].
  destruct (SerialSoK_Verify _ _ _ _ _) as [r|] eqn:E; [|done]. exfalso.
  destruct (Hd ltac:(by eexists) 0%nat) as (s & sp & _ & [= <-] & Hsp); [simpl; lia|]. specialize (Hsp eq_refl). by apply Z.lt_irrefl in Hsp.
Defined.
