(* ===== verification/ZerocoinChain.v ===== *)
(** zerocoin/zerochain.cpp, zerocoin/mainzero.cpp and [UpdateZKPSupply] of main.cpp:
    reading coins and spends out of transactions, the checks of mints and spends that
    [CheckTransaction] and [ConnectBlock] call, and the supply of each denomination
    that the block index tracks; with the serialization of a spend
    (libzerocoin/CoinSpend.h).

    The transaction index is an argument: [inChain] gives the height of the block of
    the active chain that contains a transaction. *)

From stdpp Require Import strings.
From S2P Require Import Prelude Serialize ChainParams Script PubKey Interpreter Transaction CoinsView Bignum ZerocoinDB Validation Zerocoin.
Local Open Scope Z_scope.

#[export] Instance CoinDenomination_countable : Countable CoinDenomination.
Proof. apply (inj_countable' ZerocoinDenominationToInt IntToZerocoinDenomination). by intros []. Defined.

(** * Serialization of a spend *)

Definition Unserialize_CommitmentPoK : decoder CommitmentProofOfKnowledge :=
  S1 ← Unserialize_bignum; S2 ← Unserialize_bignum; S3 ← Unserialize_bignum; challenge ← Unserialize_bignum;
  mret (CommitmentPoK S1 S2 S3 challenge).

Definition Unserialize_AccumulatorPoK : decoder AccumulatorProofOfKnowledge :=
  C_e ← Unserialize_bignum; C_u ← Unserialize_bignum; C_r ← Unserialize_bignum;
  st_1 ← Unserialize_bignum; st_2 ← Unserialize_bignum; st_3 ← Unserialize_bignum;
  t_1 ← Unserialize_bignum; t_2 ← Unserialize_bignum; t_3 ← Unserialize_bignum; t_4 ← Unserialize_bignum;
  s_alpha ← Unserialize_bignum; s_beta ← Unserialize_bignum; s_zeta ← Unserialize_bignum; s_sigma ← Unserialize_bignum;
  s_eta ← Unserialize_bignum; s_epsilon ← Unserialize_bignum; s_delta ← Unserialize_bignum; s_xi ← Unserialize_bignum;
  s_phi ← Unserialize_bignum; s_gamma ← Unserialize_bignum; s_psi ← Unserialize_bignum;
  mret (AccumulatorPoK C_e C_u C_r st_1 st_2 st_3 t_1 t_2 t_3 t_4 s_alpha s_beta s_zeta s_sigma s_eta s_epsilon s_delta
          s_xi s_phi s_gamma s_psi).

Definition Serialize_SerialSoK (x : SerialNumberSignatureOfKnowledge) : list Z :=
  Serialize_vector Serialize_bignum (s_notprime x) ++ Serialize_vector Serialize_bignum (sprime x) ++ Serialize_blob (sok_hash x).
Definition Unserialize_SerialSoK : decoder SerialNumberSignatureOfKnowledge :=
  s_notprime ← Unserialize_vector Unserialize_bignum;
  sprime ← Unserialize_vector Unserialize_bignum;
  hash ← Unserialize_blob 32;
  mret (SerialSoK s_notprime sprime hash).

Definition Serialize_CoinSpend (x : CoinSpend) : list Z :=
  Serialize_denomination (denomination x) ++ Serialize_blob (ptxHash x) ++ Serialize_uint 4 (accChecksum x) ++
  Serialize_bignum (accCommitmentToCoinValue x) ++ Serialize_bignum (serialCommitmentToCoinValue x) ++
  Serialize_bignum (coinSerialNumber x) ++ Serialize_AccumulatorPoK (accumulatorPoK x) ++
  Serialize_SerialSoK (serialNumberSoK x) ++ Serialize_CommitmentPoK (commitmentPoK x) ++
  Serialize_uint 1 (spend_version x) ++ pk_Serialize (pubkey x) ++ Serialize_bytes (spend_vchSig x) ++
  Serialize_uint 1 (spendType x).
(** [CPubKey()]; the bytes after the first are not initialised and taken as zero. *)
Definition CPubKey_default : CPubKey := Invalidate (MkPubKey (replicate 65 0)).
Definition Unserialize_CoinSpend : decoder CoinSpend :=
  denomination ← Unserialize_denomination;
  ptxHash ← Unserialize_blob 32;
  accChecksum ← Unserialize_uint 4;
  accCommitmentToCoinValue ← Unserialize_bignum;
  serialCommitmentToCoinValue ← Unserialize_bignum;
  coinSerialNumber ← Unserialize_bignum;
  accumulatorPoK ← Unserialize_AccumulatorPoK;
  serialNumberSoK ← Unserialize_SerialSoK;
  commitmentPoK ← Unserialize_CommitmentPoK;
  version ← Unserialize_uint 1;
  pubkey ← pk_Unserialize CPubKey_default;
  vchSig ← Unserialize_bytes;
  spendType ← Unserialize_uint 1;
  mret (Spend denomination accChecksum ptxHash accCommitmentToCoinValue serialCommitmentToCoinValue coinSerialNumber pubkey
          vchSig accumulatorPoK serialNumberSoK commitmentPoK version spendType).

(** * zerochain.cpp *)

Definition SCRIPT_OFFSET : nat := 6.
Definition BIGNUM_SIZE : nat := 4.

(** A script shorter than the offset makes the range of iterators run backwards; an
    exception of the stream is not caught. *)
Definition TxInToZerocoinSpend (txin : CTxIn) : outcome CoinSpend :=
  if (length (scriptSig txin) <? BIGNUM_SIZE)%nat then Undefined
  else defined (fst <$> Unserialize_CoinSpend (drop BIGNUM_SIZE (scriptSig txin))).

Definition TxOutToPublicCoin (txout : CTxOut) : outcome PublicCoin :=
  if (length (scriptPubKey txout) <? SCRIPT_OFFSET)%nat then Undefined
  else
    let publicZerocoin := setvch (drop SCRIPT_OFFSET (scriptPubKey txout)) in
    let denomination := AmountToZerocoinDenomination (nValue txout) in
    if decide (denomination = ZQ_ERROR) then Rejected 100 "txout.nValue is not correct"
    else defined (PublicCoin_of publicZerocoin denomination).

(** The outputs that the loops over the transactions of a block visit, with the
    transaction. *)
Definition mint_outputs (b : CBlock) : list (CMutableTransaction * CTxOut) :=
  flat_map (λ tx, if tx_IsZerocoinMint tx
                  then map (pair tx) (List.filter (λ o, IsZerocoinMint (scriptPubKey o)) (vout tx)) else []) (vtx b).

(** [Rejected] is the result [false]. *)
Fixpoint pubcoins (l : list (CMutableTransaction * CTxOut)) : outcome (list PublicCoin) :=
  match l with
  | [] => Passed []
  | (_, o) :: l => c ← TxOutToPublicCoin o; rest ← pubcoins l; Passed (c :: rest)
  end.
Definition BlockToPubcoinList (b : CBlock) : outcome (list PublicCoin) := pubcoins (mint_outputs b).
Definition BlockToMintValueVector (b : CBlock) (denom : CoinDenomination) : outcome (list Z) :=
  l ← BlockToPubcoinList b;
  Passed (map pc_value (filter (λ c, pc_denomination c = denom) l)).

(** The list holds the coins before the one that fails. *)
Fixpoint mint_list `{HashFunctions} (l : list (CMutableTransaction * CTxOut)) : outcome (bool * list (PublicCoin * uint256)) :=
  match l with
  | [] => Passed (true, [])
  | (tx, o) :: l =>
      match TxOutToPublicCoin o with
      | Undefined => Undefined
      | Rejected _ _ => Passed (false, [])
      | Passed c => '(ok, rest) ← mint_list l; Passed (ok, (c, tx_GetHash tx) :: rest)
      end
  end.
Definition BlockToZerocoinMintList `{HashFunctions} (b : CBlock) : outcome (bool * list (PublicCoin * uint256)) := mint_list (mint_outputs b).

Fixpoint spend_list (l : list CMutableTransaction) : outcome (list CoinDenomination) :=
  match l with
  | [] => Passed []
  | tx :: l =>
      zs ← defined (tx_IsZerocoinSpend tx);
      rest ← spend_list l;
      Passed ((if (zs : bool) then map (λ i, IntToZerocoinDenomination (nSequence i)) (List.filter (λ i, IsZerocoinSpend (scriptSig i)) (vin tx))
               else []) ++ rest)
  end.
Definition ZerocoinSpendListFromBlock (b : CBlock) : outcome (list CoinDenomination) := spend_list (vtx b).

Section chain.
Context `{HashFunctions} (inChain : uint256 → option Z).

(** [IsSerialInBlockchain], with the height of the block. *)
Definition IsSerialInBlockchain (db : CZerocoinDB) (bnSerial : Z) : option Z := txHash ← ReadCoinSpend db bnSerial; inChain txHash.
Definition IsSerialKnown (db : CZerocoinDB) (bnSerial : Z) : bool := bool_decide (is_Some (ReadCoinSpend db bnSerial)).

(** [ReindexZerocoinDB] on the blocks from the start height on. *)
Definition reindex_spends (db : CZerocoinDB) (tx : CMutableTransaction) : outcome CZerocoinDB :=
  foldl (λ acc i, db ← acc;
           if negb (IsZerocoinSpend (scriptSig i)) then Passed db
           else spend ← TxInToZerocoinSpend i; Passed (WriteCoinSpend db (coinSerialNumber spend) (tx_GetHash tx))) (Passed db) (vin tx).
(** The result of [TxOutToPublicCoin] is ignored; after a failure the coin is the
    default one, with the value 0. *)
Definition reindex_mints (db : CZerocoinDB) (tx : CMutableTransaction) : outcome CZerocoinDB :=
  foldl (λ acc o, db ← acc;
           if negb (CTxOut_IsZerocoinMint o) then Passed db
           else match TxOutToPublicCoin o with
                | Undefined => Undefined
                | Rejected _ _ => Passed (WriteCoinMint db 0 (tx_GetHash tx))
                | Passed coin => Passed (WriteCoinMint db (pc_value coin) (tx_GetHash tx))
                end) (Passed db) (vout tx).
(** The body runs once for every input of the transaction. *)
Definition reindex_tx (db : CZerocoinDB) (tx : CMutableTransaction) : outcome CZerocoinDB :=
  foldl (λ acc _, db ← acc;
           cb ← defined (IsCoinBase tx);
           if (cb : bool) then Passed db
           else
             zs ← defined (tx_IsZerocoinSpend tx);
             db ← (if (zs : bool) then reindex_spends db tx else Passed db);
             if tx_IsZerocoinMint tx then reindex_mints db tx else Passed db) (Passed db) (vin tx).
Definition ReindexZerocoinDB (db : CZerocoinDB) (blocks : list CBlock) : outcome CZerocoinDB :=
  foldl (λ acc b, db ← acc; foldl (λ acc tx, db ← acc; reindex_tx db tx) (Passed db) (vtx b))
    (Passed (WipeCoins (WipeCoins db true) false)) blocks.

End chain.

(** * mainzero.cpp *)

Section checks.
Context (Params : CChainParams) (p : ZerocoinParams) `{HashFunctions} `{Gmp} `{Moduli} `{Secp256k1} (inChain : uint256 → option Z).

(** [pubCoin.validate()] *)
Definition PublicCoin_validate_global (c : PublicCoin) : bool :=
  (minCoinValue (accumulatorParams p) <? pc_value c) && (pc_value c <=? maxCoinValue (accumulatorParams p)) &&
  isPrime (pc_value c) (zkp_iterations p).

Definition CheckZerocoinMint (txout : CTxOut) : outcome unit :=
  pubCoin ← dos_again 100 "TxOutToPublicCoin() failed" (TxOutToPublicCoin txout);
  if negb (PublicCoin_validate_global pubCoin) then Rejected 100 "PubCoin does not validate" else Passed tt.

(** [testnet] is [Params().NetworkID() == TESTNET]. *)
Definition ContextualCheckZerocoinMint (db : CZerocoinDB) (testnet : bool) (height value : Z) : bool :=
  if (nZerocoinStartHeight Params <=? height) && negb testnet
  then match ReadCoinMint db value ≫= inChain with Some _ => false | None => true end
  else true.

Definition ContextualCheckZerocoinSpend (db : CZerocoinDB) (height : Z) (spend : CoinSpend) : outcome bool :=
  ok ← (if nZerocoinStartHeight Params <=? height then defined (HasValidSignature spend) else Passed true);
  if negb ok then Passed false
  else Passed (match IsSerialInBlockchain inChain db (coinSerialNumber spend) with Some _ => false | None => true end).

(** The hash of a transaction with the outputs only. *)
Definition hashTxOut_of (tx : CMutableTransaction) : uint256 := tx_GetHash (MTx 1 [] (vout tx) 0).

(** The body of the loop for a spend that was read. *)
Definition check_spend (db : CZerocoinDB) (fVerifySignature : bool) (hashTxOut : uint256) (txin : CTxIn) (newSpend : CoinSpend)
    (serials : list Z) : outcome unit :=
  if decide (denomination newSpend = ZQ_ERROR) then Rejected 100 "Zerocoinspend does not have the correct denomination"
  else if negb (ZerocoinDenominationToInt (denomination newSpend) =? nSequence txin)
  then Rejected 100 "Zerocoinspend nSequence denomination does not match CoinSpend"
  else if negb (bool_decide (ptxHash newSpend = hashTxOut))
  then Rejected 100 "Zerocoinspend does not use the same txout that was used in the SoK"
  else
    _ ← (if fVerifySignature then
           match ReadAccumulatorValue db (accChecksum newSpend) with
           | None => Rejected 100 "Zerocoinspend could not find accumulator associated with checksum"
           | Some bnAccumulatorValue =>
               ok ← defined (CoinSpend_Verify p newSpend (Accumulator_at p bnAccumulatorValue (denomination newSpend)));
               if negb ok then Rejected 100 "zerocoin spend did not verify" else Passed tt
           end
         else Passed tt);
    if bool_decide (coinSerialNumber newSpend ∈ serials) then Rejected 100 "Zerocoinspend serial is used twice in the same tx"
    else Passed tt.

(** The loop over [tx.vin]: [serials], [nTotalRedeemed] and [fValidated]. *)
Fixpoint check_spends (db : CZerocoinDB) (fVerifySignature : bool) (hashTxOut : uint256) (serials : list Z) (nTotalRedeemed : Z)
    (fValidated : bool) (l : list CTxIn) : outcome (Z * bool) :=
  match l with
  | [] => Passed (nTotalRedeemed, fValidated)
  | txin :: l =>
      if negb (IsZerocoinSpend (scriptSig txin)) then check_spends db fVerifySignature hashTxOut serials nTotalRedeemed fValidated l
      else
        newSpend ← TxInToZerocoinSpend txin;
        _ ← check_spend db fVerifySignature hashTxOut txin newSpend serials;
        check_spends db fVerifySignature hashTxOut (coinSerialNumber newSpend :: serials)
          (s64 (nTotalRedeemed + ZerocoinDenominationToAmount (denomination newSpend))) true l
  end.

(** [return fValidated] leaves the state as it is. *)
Definition CheckZerocoinSpend (db : CZerocoinDB) (fVerifySignature : bool) (tx : CMutableTransaction) : outcome unit :=
  let outs := length (List.filter (λ o, negb (CTxOut_IsZerocoinMint o)) (vout tx)) in
  if (2 <? length (vout tx))%nat && ((2 <? outs)%nat && negb (IsCoinStake tx))
  then Rejected 100 "over two non-mint outputs in a zerocoinspend transaction"
  else
    '(nTotalRedeemed, fValidated) ← check_spends db fVerifySignature (hashTxOut_of tx) [] 0 false (vin tx);
    over ← (if negb (IsCoinStake tx) then out ← defined (GetValueOut tx); Passed (nTotalRedeemed <? out) else Passed false);
    if (over : bool) then Rejected 100 "Transaction spend more than was redeemed in zerocoins"
    else if (fValidated : bool) then Passed tt else Rejected 0 "no reason given".

Definition ValidatePublicCoin (value : Z) : bool :=
  (minCoinValue (accumulatorParams p) <? value) && (value <=? maxCoinValue (accumulatorParams p)) && isPrime value (zkp_iterations p).

(** * [UpdateZKPSupply] of main.cpp *)

(** [.at(denom)] throws for a denomination that is not in the map. *)
Definition supply_add (supply : gmap CoinDenomination Z) (d : CoinDenomination) (n : Z) : outcome (gmap CoinDenomination Z) :=
  k ← defined (supply !! d); Passed (<[d := s64 (k + n)]> supply).
Fixpoint supply_mints (supply : gmap CoinDenomination Z) (l : list CoinDenomination) : outcome (gmap CoinDenomination Z) :=
  match l with
  | [] => Passed supply
  | d :: l => supply ← supply_add supply d 1; supply_mints supply l
  end.
Fixpoint supply_spends (supply : gmap CoinDenomination Z) (l : list CoinDenomination) : outcome (bool * gmap CoinDenomination Z) :=
  match l with
  | [] => Passed (true, supply)
  | d :: l =>
      supply ← supply_add supply d (-1);
      k ← defined (supply !! d);
      if k <? 0 then Passed (false, supply) else supply_spends supply l
  end.
(** The fields of the new index entry before the call are [supply]; [prev] is the
    header version and the supply of [pprev].  The result has [mapZerocoinSupply] and
    [vMintDenominationsInBlock]; the wallet is not part of the model. *)
Definition UpdateZKPSupply (prev : option (Z * gmap CoinDenomination Z)) (supply : gmap CoinDenomination Z) (b : CBlock) :
    outcome (bool * gmap CoinDenomination Z * list CoinDenomination) :=
  '(_, mints) ← BlockToZerocoinMintList b;
  spends ← ZerocoinSpendListFromBlock b;
  let listMints := map (λ m, pc_denomination m.1) mints in
  match prev with
  | None => Passed (true, supply, [])
  | Some (version, prevSupply) =>
      supply ← (if 1 <? version
                then foldl (λ acc d, supply ← acc; k ← defined (prevSupply !! d); _ ← defined (supply !! d); Passed (<[d := k]> supply))
                       (Passed supply) zerocoinDenomList
                else Passed supply);
      supply ← supply_mints supply listMints;
      '(ok, supply) ← supply_spends supply spends;
      Passed (ok, supply, listMints)
  end.

End checks.
