(* ===== verification/Accumulators.v ===== *)
(** zerocoin/accumulatormap.cpp, zerocoin/accumulatorcheckpoints.cpp and
    zerocoin/accumulators.cpp: one accumulator per denomination, the checkpoint in the
    header of every tenth block that commits to them, and the witnesses of coins.

    The active chain is the list of its entries, by height.  A shutdown while a
    checkpoint is calculated and the attempts to get the lock are not modelled.
    [Rejected] is a result [false] with the text of [error]; [Undefined] is the
    dereference of a null pointer or an exception. *)

From stdpp Require Import strings.
From S2P Require Import Prelude Serialize ArithUint256 ChainParams Script PubKey Interpreter Transaction CoinsView Bignum ZerocoinDB Validation Zerocoin ZerocoinChain.
Import BaseUint Arith256.
Local Open Scope Z_scope.

Definition ACC_BLOCK_INTERVAL : Z := 10.

(** The fields of the block index that matter here; [ce_block] is [ReadBlockFromDisk]. *)
Record chain_entry := ChainEntry {
  ce_checkpoint : uint256;
  ce_mints : list CoinDenomination;
  ce_block : option CBlock;
}.
Abbreviation acc_chain := (list chain_entry).
(** [chainActive[nHeight]] and [chainActive.Height()] *)
Definition at_height (c : acc_chain) (nHeight : Z) : option chain_entry :=
  if nHeight <? 0 then None else c !! Z.to_nat nHeight.
Definition chain_height (c : acc_chain) : Z := Z.of_nat (length c) - 1.

(** [GetLow32] *)
Definition GetLow32 (u : uint256) : Z := le_val 8 (take 4 u).

(** The position in [zerocoinDenomList], its length if the denomination is not there. *)
Fixpoint denom_pos (d : CoinDenomination) (l : list CoinDenomination) : nat :=
  match l with
  | [] => O
  | x :: l => if decide (x = d) then O else S (denom_pos d l)
  end.

Definition ParseChecksum (nChecksum : uint256) (d : CoinDenomination) : Z :=
  let pos := Z.of_nat (denom_pos d zerocoinDenomList) in
  GetLow32 (Arith256.ArithToUint256 (BaseUint.op_shr W256 (Arith256.UintToArith256 nChecksum)
    (u32 (32 * (Z.of_nat (length zerocoinDenomList) - 1 - pos))))).

Definition GetChecksum `{HashFunctions} (bnValue : Z) : Z := GetLow32 (Hash256 (Serialize_bignum bnValue)).

(** * accumulatormap.cpp *)

Abbreviation AccumulatorMap := (gmap CoinDenomination Accumulator).

(** The constructor and [Reset]. *)
Definition AccumulatorMap_of (p : ZerocoinParams) : AccumulatorMap :=
  list_to_map (map (λ d, (d, Accumulator_of p d)) zerocoinDenomList).

Definition setValue (a : Accumulator) (bnValue : Z) : Accumulator := Acc bnValue (acc_denomination a) (acc_zkp_iterations a).

(** [mapAccumValues.at(denom)->setValue(value)] *)
Definition map_setValue (m : AccumulatorMap) (d : CoinDenomination) (bnValue : Z) : outcome AccumulatorMap :=
  a ← defined (m !! d); Passed (<[d := setValue a bnValue]> m).

(** [Load(uint256)] over the denominations in [l]. *)
Fixpoint map_load (db : CZerocoinDB) (nCheckpoint : uint256) (m : AccumulatorMap) (l : list CoinDenomination) : outcome AccumulatorMap :=
  match l with
  | [] => Passed m
  | d :: l =>
      match ReadAccumulatorValue db (ParseChecksum nCheckpoint d) with
      | None => Rejected 0 "cannot find checksum"
      | Some bnValue => m ← map_setValue m d bnValue; map_load db nCheckpoint m l
      end
  end.
Definition map_Load (db : CZerocoinDB) (nCheckpoint : uint256) (m : AccumulatorMap) : outcome AccumulatorMap :=
  map_load db nCheckpoint m zerocoinDenomList.
(** [Load(checkpoint)] *)
Definition map_Load_checkpoint (m : AccumulatorMap) (checkpoint : gmap CoinDenomination Z) : outcome AccumulatorMap :=
  foldl (λ acc '(d, bnValue), m ← acc; map_setValue m d bnValue) (Passed m) (map_to_list checkpoint).

Definition map_Accumulate `{Gmp} (p : ZerocoinParams) (m : AccumulatorMap) (pubCoin : PublicCoin) (fSkipValidation : bool) : outcome AccumulatorMap :=
  let denom := pc_denomination pubCoin in
  if decide (denom = ZQ_ERROR) then Rejected 0 "failed to add pubcoin"
  else
    a ← defined (m !! denom);
    a ← (if fSkipValidation then Passed (increment (accumulatorParams p) a (pc_value pubCoin))
         else defined (accumulate (accumulatorParams p) a pubCoin));
    Passed (<[denom := a]> m).

Definition map_GetValue (m : AccumulatorMap) (d : CoinDenomination) : outcome Z :=
  if decide (d = ZQ_ERROR) then Passed 0 else a ← defined (m !! d); Passed (acc_value a).

Definition push_checksum (nCheckpoint : list Z) (nCheckSum : Z) : list Z :=
  BaseUint.op_or (BaseUint.op_shl W256 nCheckpoint 32) (BaseUint.of_u64 W256 nCheckSum).
Fixpoint checkpoint_loop `{HashFunctions} (m : AccumulatorMap) (nCheckpoint : list Z) (l : list CoinDenomination) : outcome (list Z) :=
  match l with
  | [] => Passed nCheckpoint
  | d :: l =>
      a ← defined (m !! d);
      checkpoint_loop m (push_checksum nCheckpoint (GetChecksum (acc_value a))) l
  end.
Definition GetCheckpoint `{HashFunctions} (m : AccumulatorMap) : outcome uint256 :=
  nCheckpoint ← checkpoint_loop m (BaseUint.zero W256) zerocoinDenomList;
  Passed (Arith256.ArithToUint256 nCheckpoint).

(** * accumulatorcheckpoints.cpp *)

Abbreviation Checkpoint := (gmap CoinDenomination Z).
(** [mapAccCheckpoints] after [LoadCheckpoints], in the order of the heights. *)
Definition LoadCheckpoints (p : ZerocoinParams) : list (Z * Checkpoint) :=
  [(0, list_to_map (map (λ d, (d, accumulatorBase (accumulatorParams p))) zerocoinDenomList))].

Definition closest_height (nHeight : Z) (l : list (Z * Checkpoint)) : Z :=
  foldl (λ nHeightCheckpoint it,
           if it.1 <? nHeight then
             let nHeightCheckpoint := if nHeightCheckpoint =? -1 then it.1 else nHeightCheckpoint in
             if nHeight - it.1 <? nHeightCheckpoint then it.1 else nHeightCheckpoint
           else nHeightCheckpoint) (-1) l.
Definition GetClosestCheckpoint (mapAccCheckpoints : list (Z * Checkpoint)) (nHeight : Z) : Checkpoint * Z :=
  let nHeightCheckpoint := closest_height nHeight mapAccCheckpoints in
  if negb (nHeightCheckpoint =? -1)
  then (default ∅ (snd <$> List.find (λ it, it.1 =? nHeightCheckpoint) mapAccCheckpoints), nHeightCheckpoint)
  else (∅, nHeightCheckpoint).

(** * accumulators.cpp *)

(** The global variables; [acc_db] is [gpZerocoinDB]. *)
Record accumulator_state := AccState {
  mapAccumulatorValues : gmap Z Z;
  listAccCheckpointsNoDB : list uint256;
  acc_db : CZerocoinDB;
}.

(** [std::map::insert] keeps an entry that is there. *)
Definition map_insert (m : gmap Z Z) (k v : Z) : gmap Z Z := match m !! k with Some _ => m | None => <[k := v]> m end.

Definition GetAccumulatorValueFromChecksum (st : accumulator_state) (nChecksum : Z) (fMemoryOnly : bool) : option Z :=
  match mapAccumulatorValues st !! nChecksum with
  | Some v => Some v
  | None => if fMemoryOnly then None else Some (default 0 (ReadAccumulatorValue (acc_db st) nChecksum))
  end.
Definition GetAccumulatorValueFromDB (st : accumulator_state) (nCheckpoint : uint256) (denom : CoinDenomination) : option Z :=
  GetAccumulatorValueFromChecksum st (ParseChecksum nCheckpoint denom) false.

Definition AddAccumulatorChecksum (st : accumulator_state) (nChecksum bnValue : Z) : accumulator_state :=
  AccState (map_insert (mapAccumulatorValues st) nChecksum bnValue) (listAccCheckpointsNoDB st)
    (WriteAccumulatorValue (acc_db st) nChecksum bnValue).
Definition EraseChecksum (st : accumulator_state) (nChecksum : Z) : accumulator_state :=
  AccState (delete nChecksum (mapAccumulatorValues st)) (listAccCheckpointsNoDB st) (EraseAccumulatorValue (acc_db st) nChecksum).

Fixpoint database_loop `{HashFunctions} (st : accumulator_state) (m : AccumulatorMap) (l : list CoinDenomination) : outcome accumulator_state :=
  match l with
  | [] => Passed st
  | d :: l => bnValue ← map_GetValue m d; database_loop (AddAccumulatorChecksum st (GetChecksum bnValue) bnValue) m l
  end.
Definition DatabaseChecksums `{HashFunctions} (st : accumulator_state) (m : AccumulatorMap) : outcome accumulator_state :=
  database_loop st m zerocoinDenomList.

Definition EraseAccumulatorValues (st : accumulator_state) (nCheckpointErase nCheckpointPrevious : uint256) : accumulator_state :=
  foldl (λ st d, if ParseChecksum nCheckpointErase d =? ParseChecksum nCheckpointPrevious d then st
                 else EraseChecksum st (ParseChecksum nCheckpointErase d)) st zerocoinDenomList.

(** The flag is the result. *)
Fixpoint load_values (st : accumulator_state) (nCheckpoint : uint256) (l : list CoinDenomination) : bool * accumulator_state :=
  match l with
  | [] => (true, st)
  | d :: l =>
      let nChecksum := ParseChecksum nCheckpoint d in
      match ReadAccumulatorValue (acc_db st) nChecksum with
      | None => (false, AccState (mapAccumulatorValues st)
                          (if bool_decide (nCheckpoint ∈ listAccCheckpointsNoDB st) then listAccCheckpointsNoDB st
                           else listAccCheckpointsNoDB st ++ [nCheckpoint]) (acc_db st))
      | Some bnValue => load_values (AccState (map_insert (mapAccumulatorValues st) nChecksum bnValue) (listAccCheckpointsNoDB st) (acc_db st)) nCheckpoint l
      end
  end.
Definition LoadAccumulatorValuesFromDB (st : accumulator_state) (nCheckpoint : uint256) : bool * accumulator_state :=
  load_values st nCheckpoint zerocoinDenomList.

(** The body of the loop of [EraseCheckpoints]: a denomination is skipped if the whole
    checkpoint, taken as a number, is one of the previous checksums. *)
Definition erase_checkpoint (st : accumulator_state) (listCheckpointsPrev : list Z) (nCheckpointDelete : uint256) : accumulator_state :=
  foldl (λ st d, if existsb (BaseUint.EqualTo (Arith256.UintToArith256 nCheckpointDelete)) listCheckpointsPrev then st
                 else EraseChecksum st (ParseChecksum nCheckpointDelete d)) st zerocoinDenomList.
Fixpoint erase_loop (c : acc_chain) (st : accumulator_state) (listCheckpointsPrev : list Z) (fuel : nat) (nHeight nEndHeight : Z) : outcome accumulator_state :=
  e ← defined (at_height c nHeight);
  let st := erase_checkpoint st listCheckpointsPrev (ce_checkpoint e) in
  if nHeight + 1 <=? nEndHeight
  then match fuel with O => Undefined | S fuel => erase_loop c st listCheckpointsPrev fuel (nHeight + 1) nEndHeight end
  else Passed st.
Definition EraseCheckpoints (c : acc_chain) (st : accumulator_state) (nStartHeight nEndHeight : Z) : outcome accumulator_state :=
  if chain_height c <? nStartHeight then Rejected 0 "no reason given"
  else
    let nEndHeight := Z.min (chain_height c) nEndHeight in
    prev ← defined (at_height c (nStartHeight - 1));
    let listCheckpointsPrev := map (ParseChecksum (ce_checkpoint prev)) zerocoinDenomList in
    erase_loop c st listCheckpointsPrev (Z.to_nat (nEndHeight - nStartHeight)) nStartHeight nEndHeight.

Section accumulators.
Context (Params : CChainParams) (p : ZerocoinParams) `{HashFunctions} `{Gmp}.
Local Abbreviation Zerocoin_StartHeight := (nZerocoinStartHeight Params).

(** The map and [nHeightCheckpoint]. *)
Definition InitializeAccumulators (c : acc_chain) (db : CZerocoinDB) (nHeight : Z) (m : AccumulatorMap) : outcome (AccumulatorMap * Z) :=
  if nHeight <? Zerocoin_StartHeight then Rejected 0 "height is below zerocoin activated"
  else if nHeight <=? Zerocoin_StartHeight + 2 * ACC_BLOCK_INTERVAL then
    let '(checkpoint, nHeightCheckpoint) := GetClosestCheckpoint (LoadCheckpoints p) nHeight in
    if nHeightCheckpoint <? 0 then Rejected 0 "failed to load hard-checkpoint"
    else m ← map_Load_checkpoint m checkpoint; Passed (m, nHeightCheckpoint)
  else
    prev ← defined (at_height c (nHeight - 1));
    m ← (if uint256_IsNull (ce_checkpoint prev) then Passed (AccumulatorMap_of p) else map_Load db (ce_checkpoint prev) m);
    Passed (m, nHeight).

Fixpoint accumulate_list (m : AccumulatorMap) (l : list PublicCoin) : outcome AccumulatorMap :=
  match l with
  | [] => Passed m
  | c :: l => m ← map_Accumulate p m c true; accumulate_list m l
  end.

(** The loop over the blocks below [stop]; the second result is [nTotalMintsFound]. *)
Fixpoint accumulate_blocks (c : acc_chain) (fuel : nat) (height stop : Z) (m : AccumulatorMap) (nTotalMintsFound : Z) : outcome (AccumulatorMap * Z) :=
  e ← defined (at_height c height);
  if height <? stop then
    match fuel with
    | O => Undefined
    | S fuel =>
        if height <? Zerocoin_StartHeight then accumulate_blocks c fuel (height + 1) stop m nTotalMintsFound
        else match ce_block e with
        | None => Rejected 0 "failed to read block from disk"
        | Some block =>
            listPubcoins ← BlockToPubcoinList block;
            m ← accumulate_list m listPubcoins;
            accumulate_blocks c fuel (height + 1) stop m (nTotalMintsFound + Z.of_nat (length listPubcoins))
        end
    end
  else Passed (m, nTotalMintsFound).

(** [nCheckpoint] is the value of the argument before the call. *)
Definition CalculateAccumulatorCheckpoint (c : acc_chain) (db : CZerocoinDB) (nHeight : Z) (nCheckpoint : uint256) (m : AccumulatorMap) :
    outcome (uint256 * AccumulatorMap) :=
  if nHeight <? Zerocoin_StartHeight then Passed (uint256_null, m)
  else if negb (nHeight `rem` ACC_BLOCK_INTERVAL =? 0) then prev ← defined (at_height c (nHeight - 1)); Passed (ce_checkpoint prev, m)
  else
    '(m, nHeightCheckpoint) ← InitializeAccumulators c db nHeight (AccumulatorMap_of p);
    let start := nHeightCheckpoint - 2 * ACC_BLOCK_INTERVAL in
    match at_height c start with
    | None => Passed (nCheckpoint, m)
    | Some _ =>
        '(m, nTotalMintsFound) ← accumulate_blocks c (Z.to_nat (nHeight - ACC_BLOCK_INTERVAL - start)) start (nHeight - ACC_BLOCK_INTERVAL) m 0;
        if nTotalMintsFound =? 0 then prev ← defined (at_height c (nHeight - 1)); Passed (ce_checkpoint prev, m)
        else nCheckpoint ← GetCheckpoint m; Passed (nCheckpoint, m)
    end.

(** [pindex] is the block that follows the chain [c]. *)
Definition ValidateAccumulatorCheckpoint (c : acc_chain) (db : CZerocoinDB) (fVerifyingBlocks : bool) (b : CBlock) (m : AccumulatorMap) : outcome AccumulatorMap :=
  let nHeight := Z.of_nat (length c) in
  if (nHeight <? Zerocoin_StartHeight) || fVerifyingBlocks then Passed m
  else if nHeight `rem` ACC_BLOCK_INTERVAL =? 0 then
    '(nCheckpointCalculated, m) ← CalculateAccumulatorCheckpoint c db nHeight uint256_null m;
    if bool_decide (nCheckpointCalculated = nAccumulatorCheckpoint (header b)) then Passed m
    else Rejected 0 "accumulator does not match calculated value"
  else
    prev ← defined (at_height c (nHeight - 1));
    if bool_decide (nAccumulatorCheckpoint (header b) = ce_checkpoint prev) then Passed m
    else Rejected 0 "new accumulator checkpoint generated on a block that is not multiple of ACC_BLOCK_INTERVAL".

(** The loop over the chain; [None] when the chain ends. *)
Fixpoint checksum_height (c : acc_chain) (nChecksum : Z) (d : CoinDenomination) (fuel : nat) (nHeight : Z) : Z :=
  match at_height c nHeight with
  | None => 0
  | Some e =>
      if ParseChecksum (ce_checkpoint e) d =? nChecksum then nHeight
      else match fuel with
      | O => 0
      | S fuel =>
          if nHeight `rem` ACC_BLOCK_INTERVAL =? 0 then
            if chain_height c <? nHeight + ACC_BLOCK_INTERVAL then 0
            else checksum_height c nChecksum d fuel (nHeight + ACC_BLOCK_INTERVAL)
          else checksum_height c nChecksum d fuel (nHeight + 1)
      end
  end.
Definition GetChecksumHeight (c : acc_chain) (nChecksum : Z) (d : CoinDenomination) : Z :=
  checksum_height c nChecksum d (length c) Zerocoin_StartHeight.

(** [draw] is [randBignum]. *)
Definition RandomizeSecurityLevel (draw : Z → option Z) (nSecurityLevel : Z) : option Z :=
  if nSecurityLevel <? 100 then
    random ← draw ACC_BLOCK_INTERVAL;
    let nSecurityLevel := s32 (nSecurityLevel + getint random) in
    Some (if 100 <=? nSecurityLevel then 99 else nSecurityLevel)
  else Some nSecurityLevel.

Definition count_denom (d : CoinDenomination) (l : list CoinDenomination) : Z := Z.of_nat (length (filter (λ x, x = d) l)).

Fixpoint accumulated_coins (c : acc_chain) (fuel : nat) (height nHeightEnd : Z) (d : CoinDenomination) (n : Z) : outcome Z :=
  e ← defined (at_height c height);
  if height <? nHeightEnd
  then match fuel with O => Undefined | S fuel => accumulated_coins c fuel (height + 1) nHeightEnd d (n + count_denom d (ce_mints e)) end
  else Passed n.
Definition ComputeAccumulatedCoins (c : acc_chain) (nHeightEnd : Z) (d : CoinDenomination) : outcome Z :=
  accumulated_coins c (Z.to_nat (nHeightEnd - Zerocoin_StartHeight)) Zerocoin_StartHeight nHeightEnd d 0.

Fixpoint add_mints (coin : PublicCoin) (skip : bool) (a : Accumulator) (nMintsAdded : Z) (l : list PublicCoin) : Accumulator * Z :=
  match l with
  | [] => (a, nMintsAdded)
  | pubcoin :: l =>
      if decide (pc_denomination pubcoin ≠ pc_denomination coin) then add_mints coin skip a nMintsAdded l
      else if skip && (pc_value pubcoin =? pc_value coin) then add_mints coin skip a nMintsAdded l
      else add_mints coin skip (increment (accumulatorParams p) a (pc_value pubcoin)) (nMintsAdded + 1) l
  end.
(** An error is the result 0. *)
Definition AddBlockMintsToAccumulator (coin : PublicCoin) (nHeightMintAdded height : Z) (e : chain_entry) (a : Accumulator) (isWitness : bool) :
    outcome (Accumulator * Z) :=
  if bool_decide (pc_denomination coin ∈ ce_mints e) then
    match ce_block e with
    | None => Passed (a, 0)
    | Some block =>
        match BlockToPubcoinList block with
        | Undefined => Undefined
        | Rejected _ _ => Passed (a, 0)
        | Passed l => Passed (add_mints coin (isWitness && (height =? nHeightMintAdded)) a 0 l)
        end
    end
  else Passed (a, 0).

(** The height and the value, [Rejected] if the result is [false]. *)
Definition GetAccumulatorValue (c : acc_chain) (st : accumulator_state) (nHeight : Z) (denom : CoinDenomination) : outcome (Z * Z) :=
  if chain_height c <? nHeight then Rejected 0 "height is more than active chain height"
  else
    e ← defined (at_height c nHeight);
    if Zerocoin_StartHeight + 2 * ACC_BLOCK_INTERVAL <? nHeight then
      match GetAccumulatorValueFromDB st (ce_checkpoint e) denom with
      | Some v => Passed (nHeight, v)
      | None => Rejected 0 "no reason given"
      end
    else
      let '(checkpoint, nHeightCheckpoint) := GetClosestCheckpoint (LoadCheckpoints p) nHeight in
      if nHeightCheckpoint <? 0 then Passed (Zerocoin_StartHeight + ACC_BLOCK_INTERVAL, acc_value (Accumulator_of p denom))
      else v ← defined (checkpoint !! denom); Passed (nHeightCheckpoint, v).

(** The loop over the chain: the accumulator of the spend ([None] if the chain ends
    before it is set), that of the witness, and [nMintsAdded]. *)
Fixpoint witness_loop (c : acc_chain) (st : accumulator_state) (coin : PublicCoin) (nHeightMintAdded nAccStartHeight nHeightStop nSecurityLevel : Z)
    (fuel : nat) (height nCheckpointsAdded : Z) (witnessAccumulator : Accumulator) (nMintsAdded : Z) : outcome (option Z * Accumulator * Z) :=
  match at_height c height with
  | None => Passed (None, witnessAccumulator, nMintsAdded)
  | Some e =>
      changed ← (if height =? nAccStartHeight then Passed false
                 else prev ← defined (at_height c (height - 1)); Passed (negb (bool_decide (ce_checkpoint prev = ce_checkpoint e))));
      let nCheckpointsAdded := if (changed : bool) then nCheckpointsAdded + 1 else nCheckpointsAdded in
      let fSecurityLevelSatisfied := negb (nSecurityLevel =? 100) && (nSecurityLevel <=? nCheckpointsAdded) in
      if (nHeightStop <=? height) || fSecurityLevelSatisfied then
        spend ← defined (at_height c (height + ACC_BLOCK_INTERVAL));
        match GetAccumulatorValueFromDB st (ce_checkpoint spend) (pc_denomination coin) with
        | None => Rejected 0 "failed to find checksum in database for accumulator"
        | Some bnAccValue =>
            if bnAccValue =? 0 then Rejected 0 "failed to find checksum in database for accumulator"
            else Passed (Some bnAccValue, witnessAccumulator, nMintsAdded)
        end
      else match fuel with
      | O => Undefined
      | S fuel =>
          '(witnessAccumulator, k) ← AddBlockMintsToAccumulator coin nHeightMintAdded height e witnessAccumulator true;
          witness_loop c st coin nHeightMintAdded nAccStartHeight nHeightStop nSecurityLevel fuel (height + 1) nCheckpointsAdded
            witnessAccumulator (nMintsAdded + k)
      end
  end.

(** [mainnet] is [Params().NetworkID() == MAIN]; [heightCheckpoint] is the height of
    [pindexCheckpoint]. *)
Definition GenerateAccumulatorWitness (inChain : uint256 → option Z) (c : acc_chain) (st : accumulator_state) (mainnet : bool) (draw : Z → option Z)
    (coin : PublicCoin) (a : Accumulator) (w : AccumulatorWitness) (nSecurityLevel : Z) (heightCheckpoint : option Z) :
    outcome (Accumulator * AccumulatorWitness * Z) :=
  match ReadCoinMint (acc_db st) (pc_value coin) ≫= inChain with
  | None => Rejected 0 "failed to read mint from db"
  | Some nHeightMintAdded =>
      let nHeightCheckpoint := nHeightMintAdded + (ACC_BLOCK_INTERVAL - nHeightMintAdded `rem` ACC_BLOCK_INTERVAL) in
      let nAccStartHeight := nHeightMintAdded - nHeightMintAdded `rem` ACC_BLOCK_INTERVAL in
      '(nHeightCheckpoint, a) ←
        match GetAccumulatorValue c st nHeightCheckpoint (pc_denomination coin) with
        | Undefined => Undefined
        | Rejected _ _ => Passed (nHeightCheckpoint, a)
        | Passed (h, v) => Passed (h, setValue a v)
        end;
      let nHeightStop := chain_height c - chain_height c `rem` ACC_BLOCK_INTERVAL - 2 * ACC_BLOCK_INTERVAL in
      let nHeightStop := match heightCheckpoint with Some h => h - ACC_BLOCK_INTERVAL | None => nHeightStop end in
      nSecurityLevel ← defined (if mainnet then RandomizeSecurityLevel draw nSecurityLevel else Some nSecurityLevel);
      '(v, witnessAccumulator, nMintsAdded) ←
        witness_loop c st coin nHeightMintAdded nAccStartHeight nHeightStop nSecurityLevel (length c) (nHeightCheckpoint - ACC_BLOCK_INTERVAL) 0 a 0;
      let a := match v with Some v => setValue a v | None => a end in
      let w := AccWitness (setValue (witness w) (acc_value witnessAccumulator)) coin in
      ok ← defined (VerifyWitness (accumulatorParams p) w a coin);
      if negb ok then Rejected 0 "failed to verify witness"
      else if nMintsAdded <? nRequiredAccumulation Params then Rejected 0 "Less mints added than required, unable to create spend"
      else
        k ← ComputeAccumulatedCoins c nAccStartHeight (pc_denomination coin);
        Passed (a, w, nMintsAdded + k)
  end.

(** The body of the loop of [GetMintMaturityHeight]: the map, one entry for each
    denomination, and [isFinished]. *)
Definition maturity_step (nMinimumMaturityHeight nHeight : Z) (e : chain_entry) (m : list (CoinDenomination * (Z * Z))) :
    list (CoinDenomination * (Z * Z)) * bool :=
  (map (λ '(d, (n, h)),
          if n <? nRequiredAccumulation Params then
            let n := n + count_denom d (ce_mints e) in
            (d, (n, if nRequiredAccumulation Params <=? n then Z.min nHeight nMinimumMaturityHeight else h))
          else (d, (n, h))) m,
   forallb (λ '(_, (n, _)), negb (n <? nRequiredAccumulation Params)) m).
Fixpoint maturity_loop (c : acc_chain) (nMinimumMaturityHeight : Z) (fuel : nat) (nHeight : Z) (m : list (CoinDenomination * (Z * Z))) :
    list (CoinDenomination * (Z * Z)) :=
  match at_height c nHeight with
  | None => m
  | Some e =>
      if Zerocoin_StartHeight <? nHeight then
        let '(m, isFinished) := maturity_step nMinimumMaturityHeight nHeight e m in
        if (isFinished : bool) then m
        else match fuel with O => m | S fuel => maturity_loop c nMinimumMaturityHeight fuel (nHeight - 1) m end
      else m
  end.
Definition GetMintMaturityHeight (c : acc_chain) : gmap CoinDenomination Z :=
  let nConfirmedHeight := chain_height c - nMintRequiredConfirmations Params in
  let nMinimumMaturityHeight := nConfirmedHeight - nConfirmedHeight `rem` ACC_BLOCK_INTERVAL in
  list_to_map (map (λ '(d, (_, h)), (d, h))
    (maturity_loop c nMinimumMaturityHeight (length c) nConfirmedHeight (map (λ d, (d, (0, 0))) zerocoinDenomList))).

(** [ReindexAccumulators] of main.cpp: the checkpoints that are left and the state. *)
Fixpoint reindex_loop (c : acc_chain) (fuel : nat) (nHeight : Z) (missing : list uint256) (st : accumulator_state) :
    outcome (list uint256 * accumulator_state) :=
  match at_height c nHeight, fuel with
  | None, _ | _, O => Passed (missing, st)
  | Some e, S fuel =>
      prev ← defined (at_height c (nHeight - 1));
      if bool_decide (ce_checkpoint e ≠ ce_checkpoint prev) && bool_decide (ce_checkpoint e ∈ missing) then
        '(calculated, m) ← CalculateAccumulatorCheckpoint c (acc_db st) nHeight uint256_null (AccumulatorMap_of p);
        if negb (bool_decide (calculated = ce_checkpoint e))
        then Rejected 0 "Calculated accumulator checkpoint is not what is recorded by block index"
        else
          st ← DatabaseChecksums st m;
          reindex_loop c fuel (nHeight + 1)
            (match list_find (λ u, u = ce_checkpoint e) missing with Some (i, _) => take i missing ++ drop (i + 1) missing | None => missing end) st
      else reindex_loop c fuel (nHeight + 1) missing st
  end.
Definition ReindexAccumulators (c : acc_chain) (missing : list uint256) (st : accumulator_state) : outcome (list uint256 * accumulator_state) :=
  if negb (length missing =? 0)%nat && (Zerocoin_StartHeight <=? chain_height c)
  then reindex_loop c (length c) Zerocoin_StartHeight missing st else Passed (missing, st).

End accumulators.
