(* ===== verification/AccumulatorFacts.v ===== *)
(** The checkpoint of the accumulators is a lossless encoding of eight checksums, and a
    chain whose checkpoints were validated determines the accumulators: each of them
    is the product of the coins of its denomination. *)

From S2P Require Import Prelude Serialize SerializeFacts CryptoCommon ArithUint256 ArithFacts CompactFacts ChainParams Script PubKey Interpreter InterpreterFacts Transaction CoinsView Bignum BignumFacts ZerocoinDB Validation ValidationFacts Zerocoin ZerocoinFacts ZerocoinChain Accumulators.
Import BaseUint Arith256.
Local Open Scope Z_scope.

(** * Checkpoints *)

Lemma push_checksum_limbs a c : wf256 a → fits 32 c → push_checksum a c = c :: take 7 a ∧ wf256 (c :: take 7 a).
Proof.
  intros Ha Hc. destruct (op_shl_spec 8 a 32 Ha) as [Hw Hv]; [lia|]. unfold push_checksum.
  assert (∀ x, fits 32 x → wf256 (x :: take 7 a)) as Hwf.
  { intros x Hx. destruct Ha as [La Ha]. split; [cbn; rewrite length_take; lia|]. apply Forall_cons_2; [done|]. by apply Forall_take. }
  assert (op_shl 8 a 32 = 0 :: take 7 a) as ->.
  { apply (val_wrap_inj 8); [done|by apply Hwf|]. rewrite Hv, le_val_cons by (lia || done).
    destruct Ha as [La Ha]. pose proof (le_val_bound 32 (take 7 a) ltac:(lia) (Forall_take _ _ _ Ha)) as Hb. rewrite length_take, La in Hb.
    rewrite <-(take_drop 7 a) at 1. rewrite le_val_app_add by (lia || by apply Forall_take || by apply Forall_drop). rewrite length_take, La.
    change (2 ^ BITS 8) with (2 ^ 224 * 2 ^ 32). change (2 ^ (Z.of_nat (7 `min` 8) * 32)) with (2 ^ 224). rewrite Z.mul_mod_distr_r by lia.
    rewrite Z.mod_add by lia. rewrite Z.mod_small by exact Hb. lia. }
  split; [|by apply Hwf]. assert (of_u64 8 c = c :: replicate 7 0) as ->.
  { unfold of_u64. unfold u32, wrap. rewrite Z.mod_small by done. rewrite Z.shiftr_div_pow2, Z.div_small by (done || lia). done. }
  unfold op_or. cbn [zip_with]. rewrite Z.lor_0_l. f_equal. destruct Ha as [La _].
  do 9 (destruct a as [|? a]; try done). cbn. by rewrite !Z.lor_0_r.
Qed.

Lemma op_shr_limbs a k : wf256 a → (k ≤ 8)%nat → op_shr 8 a (32 * Z.of_nat k) = drop k a ++ replicate k 0.
Proof.
  intros Ha Hk. destruct (op_shr_spec 8 a (32 * Z.of_nat k) Ha) as [Hw Hv]; [lia|]. pose proof Ha as [La Hwa].
  apply (val_wrap_inj 8); [done| |].
  - split; [rewrite length_app, length_drop, length_replicate; lia|]. apply words_app; [by apply Forall_drop|apply words_replicate0; lia].
  - rewrite Hv, le_val_app_add by (lia || (by apply Forall_drop) || by apply words_replicate0). rewrite le_val_replicate0, Z.mul_0_l, Z.add_0_r.
    rewrite <-(take_drop k a) at 1. rewrite le_val_app_add by (lia || by apply Forall_take || by apply Forall_drop).
    pose proof (le_val_bound 32 (take k a) ltac:(lia) (Forall_take _ _ _ Hwa)) as Hb. rewrite length_take_le in * by lia.
    replace (Z.of_nat k * 32) with (32 * Z.of_nat k) in * by lia. rewrite Z.div_add by (apply Z.pow_nonzero; lia). rewrite Z.div_small by exact Hb. lia.
Qed.

Lemma GetLow32_limbs x l : fits 32 x → GetLow32 (ArithToUint256 (x :: l)) = x.
Proof. intros Hx. unfold GetLow32, ArithToUint256. cbn [flat_map]. apply (ReadLE32_WriteLE32 x). done. Qed.

Lemma denom_pos_lt d : d ≠ ZQ_ERROR → (denom_pos d zerocoinDenomList < 8)%nat ∧ zerocoinDenomList !! denom_pos d zerocoinDenomList = Some d.
Proof. destruct d; intros ?; (done || (split; [vm_compute; lia|vm_compute; reflexivity])). Qed.

(** The checksum of a denomination is a limb of the checkpoint. *)
Lemma ParseChecksum_limbs a d : wf256 a → d ≠ ZQ_ERROR →
  ParseChecksum (ArithToUint256 a) d = nth (7 - denom_pos d zerocoinDenomList) a 0.
Proof.
  intros Ha Hd. destruct (denom_pos_lt d Hd) as [Hp _]. unfold ParseChecksum. rewrite UintToArith256_ArithToUint256 by done.
  change (Z.of_nat (length zerocoinDenomList)) with 8. set (i := denom_pos d zerocoinDenomList) in *.
  unfold u32, wrap. rewrite Z.mod_small by lia. replace (32 * (8 - 1 - Z.of_nat i)) with (32 * Z.of_nat (7 - i)) by lia.
  rewrite op_shr_limbs by (done || lia). pose proof Ha as [La Hwa].
  destruct (drop (7 - i) a) as [|x l] eqn:E; [apply (f_equal length) in E; rewrite length_drop in E; cbn in E; lia|].
  assert (nth (7 - i) a 0 = x) as ->.
  { rewrite nth_lookup. replace (7 - i)%nat with (7 - i + 0)%nat by lia. rewrite <-lookup_drop, E. done. }
  cbn [app]. apply GetLow32_limbs. assert (words 32 (drop (7 - i) a)) as Hw by (by apply Forall_drop). rewrite E in Hw. by apply Forall_cons in Hw as [? _].
Qed.

(** ** The checkpoint of eight checksums *)

Definition checkpoint_of (f : CoinDenomination → Z) : uint256 := ArithToUint256 (rev (map f zerocoinDenomList)).

Lemma words_rev w l : words w l → words w (rev l).
Proof. intros Hl. apply Forall_rev. done. Qed.

Lemma ParseChecksum_checkpoint f d : (∀ d, fits 32 (f d)) → d ≠ ZQ_ERROR → ParseChecksum (checkpoint_of f) d = f d.
Proof.
  intros Hf Hd. unfold checkpoint_of. rewrite ParseChecksum_limbs; [|split; [by rewrite length_rev|]|done].
  - by destruct d.
  - apply words_rev, Forall_fmap, Forall_true. intros x. apply Hf.
Qed.

Lemma checkpoint_of_ext f g : (∀ d, d ≠ ZQ_ERROR → f d = g d) → checkpoint_of f = checkpoint_of g.
Proof. intros E. unfold checkpoint_of. cbn [map zerocoinDenomList]. by rewrite !E by done. Qed.

Lemma checkpoint_null f d : (∀ d, fits 32 (f d)) → d ≠ ZQ_ERROR → uint256_IsNull (checkpoint_of f) = true → f d = 0.
Proof.
  intros Hf Hd Hn. rewrite <-(ParseChecksum_checkpoint f d Hf Hd). unfold checkpoint_of in *. set (a := rev _) in *.
  assert (wf256 a) as Ha by (split; [done|]; apply words_rev, Forall_fmap, Forall_true; intros x; apply Hf).
  assert (a = zero 8) as ->; [|by destruct d].
  apply (val_wrap_inj 8); [done|apply zero_wf|]. rewrite val_zero, <-le_val_flat_WriteLE32 by apply Ha.
  assert (flat_map WriteLE32 a = replicate (length (flat_map WriteLE32 a)) 0) as ->; [|apply le_val_replicate0].
  symmetry. apply replicate_as_elem_of. split; [done|]. intros x Hx. unfold uint256_IsNull in Hn. rewrite forallb_forall in Hn.
  specialize (Hn x). rewrite <-list_elem_of_In in Hn. specialize (Hn Hx). lia.
Qed.

(** [GetCheckpoint] of a map with an accumulator for each denomination. *)
Definition complete (m : AccumulatorMap) (f : CoinDenomination → Z) : Prop :=
  ∀ d, d ≠ ZQ_ERROR → ∃ a, m !! d = Some a ∧ acc_value a = f d.

Section checkpoint.
Context `{HF : HashFunctions}.
Hypothesis Hsum : ∀ v, fits 32 (GetChecksum v).

Lemma checkpoint_loop_limbs m f l a : complete m f → wf256 a → ZQ_ERROR ∉ l →
  ∃ a', checkpoint_loop m a l = Passed a' ∧ a' = take 8 (rev (map (λ d, GetChecksum (f d)) l) ++ a) ∧ wf256 a'.
Proof.
  intros Hm. revert a. induction l as [|d l IH]; intros a Ha Hl; cbn [checkpoint_loop map rev].
  { exists a. destruct Ha as [La ?]. split_and!; [done| |done]. cbn [app]. by rewrite take_ge by lia. }
  apply not_elem_of_cons in Hl as [Hd Hl]. destruct (Hm d) as (x & -> & Ex); [done|]. cbn [defined mbind outcome_bind]. rewrite Ex.
  destruct (push_checksum_limbs a (GetChecksum (f d)) Ha (Hsum _)) as [-> Hw].
  destruct (IH _ Hw Hl) as (a' & -> & -> & Hw'). eexists. split_and!; [done| |done].
  rewrite <-app_assoc. cbn [app]. rewrite !take_app, length_rev, length_map. f_equal. destruct (8 - length l)%nat as [|k] eqn:E; [done|].
  cbn [take]. f_equal. by rewrite take_take, Nat.min_l by lia.
Qed.

Lemma GetCheckpoint_spec m f : complete m f → GetCheckpoint m = Passed (checkpoint_of (λ d, GetChecksum (f d))).
Proof.
  intros Hm. unfold GetCheckpoint. destruct (checkpoint_loop_limbs m f zerocoinDenomList (zero 8) Hm) as (a' & -> & -> & _).
  - apply zero_wf.
  - vm_compute. intros Hin. repeat (apply elem_of_cons in Hin as [?|Hin]; [done|]). by apply elem_of_nil in Hin.
  - cbn [mbind outcome_bind]. unfold checkpoint_of. do 2 f_equal.
Qed.
End checkpoint.

(** * The accumulators of a chain *)

(** The coins of a block, of the blocks from [lo] up to [hi], and the value of an
    accumulator after the coins of its denomination. *)
Definition entry_coins (e : chain_entry) : list PublicCoin :=
  match ce_block e with
  | Some b => match BlockToPubcoinList b with Passed l => l | _ => [] end
  | None => []
  end.
Definition coins_between (c : acc_chain) (lo hi : Z) : list PublicCoin :=
  flat_map entry_coins (take (Z.to_nat (hi - lo)) (drop (Z.to_nat lo) c)).
Definition acc_after `{Gmp} (p : ZerocoinParams) (d : CoinDenomination) (l : list PublicCoin) (v : Z) : Z :=
  foldl (λ v x, pow_mod v (pc_value x) (accumulatorModulus (accumulatorParams p))) v (filter (λ x, pc_denomination x = d) l).

(** What the checkpoint at height [h], a multiple of ten, should commit to: the coins
    from the tenth block after the start on, up to ten blocks before [h]. *)
Definition first_accumulated (Params : CChainParams) : Z := nZerocoinStartHeight Params + ACC_BLOCK_INTERVAL.
Definition accumulated (Params : CChainParams) (c : acc_chain) (h : Z) : list PublicCoin :=
  coins_between c (first_accumulated Params) (h - ACC_BLOCK_INTERVAL).
Definition spec_value `{Gmp} (Params : CChainParams) (p : ZerocoinParams) (c : acc_chain) (d : CoinDenomination) (h : Z) : Z :=
  acc_after p d (accumulated Params c h) (accumulatorBase (accumulatorParams p)).
Definition spec_checkpoint `{HashFunctions} `{Gmp} (Params : CChainParams) (p : ZerocoinParams) (c : acc_chain) (h : Z) : uint256 :=
  match accumulated Params c h with
  | [] => uint256_null
  | _ => checkpoint_of (λ d, GetChecksum (spec_value Params p c d h))
  end.

(** What [ConnectBlock] does with the accumulators, and the chain with the new entry;
    the mints of the entry are set by [UpdateZKPSupply]. *)
Definition connect_accumulators `{HashFunctions} `{Gmp} (Params : CChainParams) (p : ZerocoinParams) (c : acc_chain) (st : accumulator_state) (b : CBlock) :
    outcome (acc_chain * accumulator_state) :=
  '(_, l) ← BlockToZerocoinMintList b;
  m ← ValidateAccumulatorCheckpoint Params p c (acc_db st) false b (AccumulatorMap_of p);
  st ← DatabaseChecksums st m;
  Passed (c ++ [ChainEntry (nAccumulatorCheckpoint (header b)) (map (λ x, pc_denomination x.1) l) (Some b)], st).

(** The states a node reaches from a chain up to the start height; the other parts of
    the database change as well. *)
Inductive acc_reach `{HashFunctions} `{Gmp} (Params : CChainParams) (p : ZerocoinParams) : acc_chain → accumulator_state → Prop :=
  | ar_init c s m : Z.of_nat (length c) = nZerocoinStartHeight Params → acc_reach Params p c (AccState ∅ [] (ZerocoinDB s m ∅))
  | ar_connect c st b c' st' : acc_reach Params p c st → connect_accumulators Params p c st b = Passed (c', st') → acc_reach Params p c' st'
  | ar_coins c st s m : acc_reach Params p c st →
      acc_reach Params p c (AccState (mapAccumulatorValues st) (listAccCheckpointsNoDB st) (ZerocoinDB s m (db_accumulators (acc_db st)))).

(** No two different values of the chain have the same checksum, and none has the
    checksum 0. *)
Definition checksums_ok `{HashFunctions} `{Gmp} (Params : CChainParams) (p : ZerocoinParams) (c : acc_chain) : Prop :=
  ∀ d h, 0 ≤ h ≤ Z.of_nat (length c) → d ≠ ZQ_ERROR →
    GetChecksum (spec_value Params p c d h) ≠ 0 ∧
    ∀ d' h', 0 ≤ h' ≤ Z.of_nat (length c) → d' ≠ ZQ_ERROR →
      GetChecksum (spec_value Params p c d h) = GetChecksum (spec_value Params p c d' h') → spec_value Params p c d h = spec_value Params p c d' h'.

Lemma coins_between_app c lo mid hi : 0 ≤ lo ≤ mid → mid ≤ hi → coins_between c lo hi = coins_between c lo mid ++ coins_between c mid hi.
Proof.
  intros H1 H2. unfold coins_between. rewrite <-flat_map_app. f_equal.
  replace (Z.to_nat (hi - lo)) with (Z.to_nat (mid - lo) + Z.to_nat (hi - mid))%nat by lia.
  replace (Z.to_nat mid) with (Z.to_nat lo + Z.to_nat (mid - lo))%nat by lia. rewrite <-drop_drop.
  by rewrite take_take_drop.
Qed.

Lemma coins_between_prefix c c' lo hi : 0 ≤ lo → hi ≤ Z.of_nat (length c) → coins_between (c ++ c') lo hi = coins_between c lo hi.
Proof.
  intros H0 H1. unfold coins_between. f_equal. destruct (decide (hi ≤ lo)).
  { replace (Z.to_nat (hi - lo)) with 0%nat by lia. by rewrite !take_0. }
  rewrite drop_app_le by lia. rewrite take_app_le; [done|]. rewrite length_drop. lia.
Qed.

Lemma coins_between_step c lo hi e : 0 ≤ lo < hi → at_height c lo = Some e → coins_between c lo hi = entry_coins e ++ coins_between c (lo + 1) hi.
Proof.
  intros Hlo He. rewrite (coins_between_app c lo (lo + 1) hi) by lia. f_equal. unfold at_height in He. destruct (Z.ltb_spec lo 0); [lia|].
  unfold coins_between. replace (Z.to_nat (lo + 1 - lo)) with 1%nat by lia. rewrite (drop_S _ _ _ He). cbn. by rewrite app_nil_r.
Qed.
Lemma coins_between_empty c lo hi : hi ≤ lo → coins_between c lo hi = [].
Proof. intros H. unfold coins_between. replace (Z.to_nat (hi - lo)) with 0%nat by lia. by rewrite take_0. Qed.

Lemma at_height_Some c h e : at_height c h = Some e → 0 ≤ h < Z.of_nat (length c) ∧ c !! Z.to_nat h = Some e.
Proof. unfold at_height. destruct (Z.ltb_spec h 0); [done|]. intros E. split; [|done]. apply lookup_lt_Some in E. lia. Qed.
Lemma at_height_is_Some c h : 0 ≤ h < Z.of_nat (length c) → ∃ e, at_height c h = Some e.
Proof. intros H. unfold at_height. destruct (Z.ltb_spec h 0); [lia|]. apply lookup_lt_is_Some. lia. Qed.
Lemma at_height_app c c' h : h < Z.of_nat (length c) → at_height (c ++ c') h = at_height c h.
Proof. intros H. unfold at_height. destruct (Z.ltb_spec h 0); [done|]. rewrite lookup_app_l; [done|lia]. Qed.
Lemma at_height_snoc c e : at_height (c ++ [e]) (Z.of_nat (length c)) = Some e.
Proof. unfold at_height. destruct (Z.ltb_spec (Z.of_nat (length c)) 0); [lia|]. rewrite Nat2Z.id, lookup_app_r, Nat.sub_diag by lia. done. Qed.

(** The coins read out of a block have a denomination. *)
Lemma TxOutToPublicCoin_denom o x : TxOutToPublicCoin o = Passed x → pc_denomination x ≠ ZQ_ERROR.
Proof.
  unfold TxOutToPublicCoin, PublicCoin_of. destruct (_ <? _)%nat; [done|]. case_decide as Hd; [done|]. intros [= <-]. done.
Qed.
Lemma pubcoins_denom l r : pubcoins l = Passed r → Forall (λ x, pc_denomination x ≠ ZQ_ERROR) r.
Proof.
  revert r. induction l as [|[tx o] l IH]; intros r; cbn [pubcoins]; [by intros [= <-]|]. intros Hp. passed Hp. passed Hp. injection Hp as <-.
  apply Forall_cons_2; [by eapply TxOutToPublicCoin_denom|by apply IH].
Qed.

(** The two ways to read the mints of a block agree. *)
Lemma mint_list_pubcoins `{HashFunctions} l r ok ml : pubcoins l = Passed r → mint_list l = Passed (ok, ml) → map fst ml = r.
Proof.
  revert r ok ml. induction l as [|[tx o] l IH]; intros r ok ml; cbn [pubcoins mint_list]; [by intros [= <-] [= _ <-]|].
  intros Hp. passed Hp. rename E into Eo. passed Hp. injection Hp as <-. rewrite Eo. intros Hm. passed Hm. destruct r as [ok' rest]. injection Hm as <- <-.
  cbn. f_equal. by eapply IH.
Qed.

(** * Accumulating the coins of blocks *)

Section accumulate.
Context (Params : CChainParams) (p : ZerocoinParams) `{HFok : HashFunctionsOk} `{HG : Gmp}.
Abbreviation S := (nZerocoinStartHeight Params).
Abbreviation base := (accumulatorBase (accumulatorParams p)).

Lemma acc_after_app d l1 l2 v : acc_after p d (l1 ++ l2) v = acc_after p d l2 (acc_after p d l1 v).
Proof. unfold acc_after. by rewrite filter_app, foldl_app. Qed.
Lemma acc_after_cons d x l v : acc_after p d (x :: l) v =
  acc_after p d l (if decide (pc_denomination x = d) then pow_mod v (pc_value x) (accumulatorModulus (accumulatorParams p)) else v).
Proof. unfold acc_after. rewrite filter_cons. by case_decide. Qed.

Lemma complete_of : complete (AccumulatorMap_of p) (λ _, base).
Proof. intros d Hd. exists (Accumulator_of p d). split; [|done]. by destruct d. Qed.

Lemma accumulate_list_spec m f l : complete m f → Forall (λ x, pc_denomination x ≠ ZQ_ERROR) l →
  ∃ m', accumulate_list p m l = Passed m' ∧ complete m' (λ d, acc_after p d l (f d)).
Proof.
  revert m f. induction l as [|x l IH]; intros m f Hm Hl; cbn [accumulate_list]; [by exists m|].
  apply Forall_cons in Hl as [Hx Hl]. unfold map_Accumulate. rewrite decide_False by done. destruct (Hm _ Hx) as (a & Ea & Ev). rewrite Ea.
  cbn [defined mbind outcome_bind]. set (a' := increment _ a _).
  destruct (IH (<[pc_denomination x := a']> m) (λ d, if decide (pc_denomination x = d) then acc_value a' else f d)) as (m' & -> & Hm'); [|done|].
  { intros d Hd. destruct (decide (pc_denomination x = d)) as [<-|Hne]; [exists a'; by rewrite lookup_insert_eq|].
    rewrite lookup_insert_ne by done. by apply Hm. }
  exists m'. split; [done|]. intros d Hd. destruct (Hm' d Hd) as (b & Eb & Evb). exists b. split; [done|]. rewrite Evb, acc_after_cons. f_equal.
  case_decide; [|done]. subst d. unfold a', increment. cbn. by rewrite Ev.
Qed.

Lemma accumulate_blocks_spec c fuel : ∀ lo stop m n f m' n', S ≤ lo → 0 ≤ lo ≤ stop → complete m f →
  accumulate_blocks Params p c fuel lo stop m n = Passed (m', n') →
  complete m' (λ d, acc_after p d (coins_between c lo stop) (f d)) ∧ n' = n + Z.of_nat (length (coins_between c lo stop)).
Proof.
  induction fuel as [|fuel IH]; intros lo stop m n f m' n' HS Hlo Hm; cbn [accumulate_blocks]; intros Hp; passed Hp; rename r into e.
  all: destruct (Z.ltb_spec lo stop) as [Hlt|Hge]; [|injection Hp as <- <-; rewrite coins_between_empty by lia; split; [done|cbn; lia]].
  1: done.
  destruct (Z.ltb_spec lo S); [lia|]. destruct (ce_block e) as [b|] eqn:Eb; [|done]. passed Hp. rename r into l. destruct (at_height c lo) as [e'|] eqn:Ee; [|done].
  injection E as ->. pose proof (pubcoins_denom _ _ E0) as Hd. destruct (accumulate_list_spec m f l Hm Hd) as (m1 & E1 & Hm1). rewrite E1 in Hp. cbn [mbind outcome_bind] in Hp.
  apply (IH _ _ _ _ (λ d, acc_after p d l (f d))) in Hp as [Hm2 ->]; [|lia|lia|done].
  rewrite (coins_between_step c lo stop e) by (done || lia). assert (entry_coins e = l) as -> by (unfold entry_coins; by rewrite Eb, E0). split.
  - intros d Hd'. destruct (Hm2 d Hd') as (a & ? & Ea). exists a. split; [done|]. by rewrite acc_after_app.
  - rewrite length_app. lia.
Qed.

Lemma map_load_spec db u f l : ∀ m, complete m (λ d, default 0 (acc_value <$> m !! d)) → ZQ_ERROR ∉ l →
  (∀ d, d ∈ l → ReadAccumulatorValue db (ParseChecksum u d) = Some (f d)) →
  ∃ m', map_load db u m l = Passed m' ∧ ∀ d, d ≠ ZQ_ERROR → ∃ a, m' !! d = Some a ∧ (d ∈ l → acc_value a = f d) ∧ (d ∉ l → m !! d = Some a).
Proof.
  induction l as [|x l IH]; intros m Hm Hl Hf; cbn [map_load].
  { exists m. split; [done|]. intros d Hd. destruct (Hm d Hd) as (a & ? & _). exists a. split_and!; [done|by intros ?%elem_of_nil|done]. }
  apply not_elem_of_cons in Hl as [Hx Hl]. rewrite (Hf x) by left. unfold map_setValue. destruct (Hm x) as (ax & Eax & _); [done|]. rewrite Eax.
  cbn [defined mbind outcome_bind]. destruct (IH (<[x := setValue ax (f x)]> m)) as (m' & -> & Hm'); [|done|intros d Hd; apply Hf; by right|].
  { intros d Hd. destruct (decide (x = d)) as [<-|?]; [eexists; by rewrite lookup_insert_eq|]. rewrite lookup_insert_ne by done. by apply Hm. }
  exists m'. split; [done|]. intros d Hd. destruct (Hm' d Hd) as (a & Ea & H1 & H2). exists a. split; [done|]. split.
  - intros [->|Hin]%elem_of_cons; [|by apply H1]. destruct (decide (x ∈ l)) as [Hin|Hin]; [by apply H1|].
    specialize (H2 Hin). rewrite lookup_insert_eq in H2. by injection H2 as <-.
  - intros [Hne Hin]%not_elem_of_cons. specialize (H2 Hin). by rewrite lookup_insert_ne in H2.
Qed.
End accumulate.
