(* ===== verification/AccumulatorChainFacts.v ===== *)
(** Along a chain whose blocks were connected, the checkpoints and the database hold
    the accumulators that [spec_value] describes. *)

From S2P Require Import Prelude Serialize SerializeFacts ArithUint256 CompactFacts ChainParams Script PubKey Interpreter InterpreterFacts Transaction CoinsView Bignum BignumFacts ZerocoinDB Validation ValidationFacts Zerocoin ZerocoinFacts ZerocoinChain Accumulators AccumulatorFacts.
Local Open Scope Z_scope.

Definition floor10 (h : Z) : Z := h - h `rem` ACC_BLOCK_INTERVAL.
Lemma rem10 h : 0 ≤ h → 0 ≤ h `rem` ACC_BLOCK_INTERVAL < 10 ∧ ∃ k, h = 10 * k + h `rem` ACC_BLOCK_INTERVAL.
Proof.
  intros Hh. unfold ACC_BLOCK_INTERVAL. rewrite Z.rem_mod_nonneg by lia. pose proof (Z.mod_pos_bound h 10). split; [lia|].
  exists (h / 10). apply Z.div_mod. lia.
Qed.
Lemma rem10_unique h k r : h = 10 * k + r → 0 ≤ r < 10 → 0 ≤ h → h `rem` ACC_BLOCK_INTERVAL = r.
Proof. intros -> Hr Hh. destruct (rem10 (10 * k + r) Hh) as (H1 & k' & H2). lia. Qed.
(** The facts about [h] and its predecessor modulo ten. *)
Ltac rem10 h := let H := fresh in let k := fresh "k" in destruct (rem10 h ltac:(lia)) as (H & k & ?).

Lemma floor10_pred h : 0 < h → h `rem` ACC_BLOCK_INTERVAL = 0 → floor10 (h - 1) = h - 10.
Proof. intros Hh Hr. unfold floor10. destruct (rem10 h) as (_ & k & E); [lia|]. rewrite (rem10_unique (h - 1) (k - 1) 9) by lia. lia. Qed.
Lemma floor10_self h : h `rem` ACC_BLOCK_INTERVAL = 0 → floor10 h = h.
Proof. unfold floor10. lia. Qed.
Lemma floor10_same h : 0 < h → h `rem` ACC_BLOCK_INTERVAL ≠ 0 → floor10 (h - 1) = floor10 h.
Proof.
  intros Hh Hr. unfold floor10. destruct (rem10 h) as (H1 & k & E); [lia|]. rewrite (rem10_unique (h - 1) k (h `rem` ACC_BLOCK_INTERVAL - 1)); lia.
Qed.

Section chain.
Context (Params : CChainParams) (p : ZerocoinParams) `{HFok : HashFunctionsOk} `{HG : Gmp}.
Abbreviation S := (nZerocoinStartHeight Params).
Abbreviation base := (accumulatorBase (accumulatorParams p)).
Abbreviation spec := (spec_value Params p).

Lemma checksum_fits v : fits 32 (GetChecksum v).
Proof.
  destruct (Hash256_bytes (Serialize_bignum v) (Serialize_bignum_bytes v)) as [Hw Hl]. unfold GetChecksum, GetLow32.
  pose proof (le_val_bound 8 (take 4 (Hash256 (Serialize_bignum v))) ltac:(lia) (Forall_take _ _ _ Hw)) as Hb. by rewrite length_take, Hl in Hb.
Qed.

Context (cF : acc_chain).
Hypothesis HS0 : 0 ≤ S.
Hypothesis HSr : S `rem` ACC_BLOCK_INTERVAL = 0.
Hypothesis Hsums : checksums_ok Params p cF.

(** An entry of the database or the memory: a value of the chain under its checksum. *)
Definition entries_ok (n : nat) (m : gmap Z Z) : Prop :=
  ∀ k v, m !! k = Some v → k = GetChecksum v ∧ ∃ d h, d ≠ ZQ_ERROR ∧ 0 ≤ h ≤ Z.of_nat n ∧ v = spec cF d h.

Record acc_inv (c : acc_chain) (st : accumulator_state) : Prop := {
  ai_prefix : c `prefix_of` cF;
  ai_length : S ≤ Z.of_nat (length c);
  ai_entry h e : S ≤ h → at_height c h = Some e →
    ce_checkpoint e = spec_checkpoint Params p cF (floor10 h) ∧
    ∃ b ok l, ce_block e = Some b ∧ BlockToZerocoinMintList b = Passed (ok, l) ∧ ce_mints e = map (λ x, pc_denomination x.1) l;
  ai_db : entries_ok (length c) (db_accumulators (acc_db st));
  ai_memory : entries_ok (length c) (mapAccumulatorValues st);
  ai_stored h d : S ≤ h < Z.of_nat (length c) → h `rem` ACC_BLOCK_INTERVAL = 0 → accumulated Params cF h ≠ [] → d ≠ ZQ_ERROR →
    is_Some (db_accumulators (acc_db st) !! GetChecksum (spec cF d h));
  ai_parsed h : S + 10 ≤ h → h `rem` ACC_BLOCK_INTERVAL = 0 → h + 20 < Z.of_nat (length c) → ∀ i e b, h ≤ i < h + 10 →
    at_height c i = Some e → ce_block e = Some b → ∃ l, BlockToPubcoinList b = Passed l;
}.

(** Reading a checksum returns the value. *)
Lemma entries_read n m d h v : entries_ok n m → (n ≤ length cF)%nat → 0 ≤ h ≤ Z.of_nat (length cF) → d ≠ ZQ_ERROR →
  m !! GetChecksum (spec cF d h) = Some v → v = spec cF d h.
Proof.
  intros Hm Hn Hh Hd Hv. destruct (Hm _ _ Hv) as (E & d' & h' & Hd' & Hh' & ->). destruct (Hsums d h Hh Hd) as [_ Hinj]. symmetry. apply Hinj; [lia|done|done].
Qed.

Lemma spec_checkpoint_parse h d : accumulated Params cF h ≠ [] → d ≠ ZQ_ERROR →
  ParseChecksum (spec_checkpoint Params p cF h) d = GetChecksum (spec cF d h).
Proof.
  intros Ha Hd. unfold spec_checkpoint. destruct (accumulated Params cF h); [done|]. apply (ParseChecksum_checkpoint (λ d, GetChecksum (spec cF d h))); [|done].
  intros. apply checksum_fits.
Qed.
Lemma spec_checkpoint_null h : 0 ≤ h ≤ Z.of_nat (length cF) → uint256_IsNull (spec_checkpoint Params p cF h) = true ↔ accumulated Params cF h = [].
Proof.
  intros Hh. unfold spec_checkpoint. destruct (accumulated Params cF h) eqn:E; [done|]. split; [|done]. intros Hn.
  apply (checkpoint_null _ ZQ_ONE) in Hn; [|intros; apply checksum_fits|done]. destruct (Hsums ZQ_ONE h Hh) as [H0 _]; done.
Qed.

Lemma prefix_coins c lo hi : c `prefix_of` cF → 0 ≤ lo → hi ≤ Z.of_nat (length c) → coins_between c lo hi = coins_between cF lo hi.
Proof. intros [k ->] ? ?. symmetry. by apply coins_between_prefix. Qed.

Lemma accumulated_split h : S + 20 ≤ h → accumulated Params cF (h + 10) = accumulated Params cF h ++ coins_between cF (h - 10) h.
Proof.
  intros Hh. unfold accumulated, first_accumulated, ACC_BLOCK_INTERVAL in *. replace (h + 10 - 10) with h by lia. apply coins_between_app; lia.
Qed.
Lemma spec_split h d : S + 20 ≤ h → spec cF d (h + 10) = acc_after p d (coins_between cF (h - 10) h) (spec cF d h).
Proof. intros Hh. unfold spec_value. by rewrite accumulated_split, acc_after_app by done. Qed.
Lemma spec_base h d : h ≤ S + 20 → spec cF d h = base.
Proof. intros Hh. unfold spec_value, accumulated. rewrite coins_between_empty; [done|]. unfold first_accumulated, ACC_BLOCK_INTERVAL. lia. Qed.
Lemma accumulated_early h : h ≤ S + 20 → accumulated Params cF h = [].
Proof. intros Hh. apply coins_between_empty. unfold first_accumulated, ACC_BLOCK_INTERVAL. lia. Qed.

(** ** The calculated checkpoint *)

Lemma GetClosestCheckpoint_base h :
  GetClosestCheckpoint (LoadCheckpoints p) h = if 0 <? h then (snd (hd (0, ∅) (LoadCheckpoints p)), 0) else (∅, -1).
Proof.
  unfold GetClosestCheckpoint, closest_height, LoadCheckpoints. cbn [foldl fst]. destruct (Z.ltb_spec 0 h); [|done].
  cbn [Z.eqb Pos.eqb]. by replace (h - 0 <? 0) with false by lia.
Qed.

Lemma load_base m : complete m (λ _, base) → ∃ m', map_Load_checkpoint m (snd (hd (0, ∅) (LoadCheckpoints p))) = Passed m' ∧ complete m' (λ _, base).
Proof.
  cbn [LoadCheckpoints hd snd]. set (cp := list_to_map _ : gmap CoinDenomination Z). intros Hm. unfold map_Load_checkpoint.
  assert (∀ d v, (d, v) ∈ map_to_list cp → d ≠ ZQ_ERROR ∧ v = base) as Hcp.
  { intros d v Hin%elem_of_map_to_list. unfold cp in Hin. apply elem_of_list_to_map_2 in Hin. apply list_elem_of_fmap in Hin as (x & [= -> ->] & Hx). split; [|done].
    intros ->. vm_compute in Hx. repeat (apply elem_of_cons in Hx as [?|Hx]; [done|]). by apply elem_of_nil in Hx. }
  revert m Hm Hcp. induction (map_to_list cp) as [|[d v] l IH]; intros m Hm Hl; [by exists m|]. cbn [foldl].
  destruct (Hl d v) as [Hd ->]; [by left|]. destruct (Hm d Hd) as (a & Ea & Ev). cbn [mbind outcome_bind]. unfold map_setValue at 2. rewrite Ea. cbn [defined mbind outcome_bind].
  apply IH; [|intros d' v' Hin; apply Hl; by right]. intros d' Hd'. destruct (decide (d = d')) as [<-|?]; [eexists; by rewrite lookup_insert_eq|].
  rewrite lookup_insert_ne by done. by apply Hm.
Qed.

Lemma accumulate_blocks_parsed c fuel : ∀ lo stop m n r, S ≤ lo → accumulate_blocks Params p c fuel lo stop m n = Passed r →
  ∀ i e b, lo ≤ i < stop → at_height c i = Some e → ce_block e = Some b → ∃ l, BlockToPubcoinList b = Passed l.
Proof.
  induction fuel as [|fuel IH]; intros lo stop m n r HSl; cbn [accumulate_blocks]; intros Hp; passed Hp; intros i e b Hi He Hb.
  all: destruct (Z.ltb_spec lo stop) as [Hlt|Hge]; [|lia].
  1: done.
  destruct (Z.ltb_spec lo S); [lia|]. destruct (ce_block r0) as [b'|] eqn:Eb; [|done]. passed Hp. passed Hp. rename r1 into l.
  destruct (decide (i = lo)) as [->|Hne]; [|apply (IH (lo + 1) stop _ _ r ltac:(lia) Hp i e b); [lia|done..]].
  rewrite He in E. injection E as <-. exists l. congruence.
Qed.

(** The values from which the accumulation starts. *)
Lemma initial_values c st h m nHeightCheckpoint : acc_inv c st → h = Z.of_nat (length c) → h `rem` ACC_BLOCK_INTERVAL = 0 → S + 20 < h →
  InitializeAccumulators Params p c (acc_db st) h (AccumulatorMap_of p) = Passed (m, nHeightCheckpoint) →
  nHeightCheckpoint = h ∧ complete m (λ d, spec cF d (h - 10)).
Proof.
  intros Hi Hh Hr HSh. pose proof (prefix_length _ _ (ai_prefix _ _ Hi)) as Hlen. unfold InitializeAccumulators. destruct (Z.ltb_spec h S); [lia|]. destruct (Z.leb_spec h (S + 2 * ACC_BLOCK_INTERVAL)) as [?|_];
    [unfold ACC_BLOCK_INTERVAL in *; lia|].
  destruct (at_height_is_Some c (h - 1)) as [e Ee]; [lia|]. rewrite Ee. cbn [defined mbind outcome_bind].
  destruct (ai_entry _ _ Hi (h - 1) e) as [Eck _]; [lia|done|]. assert (floor10 (h - 1) = h - 10) as Ef.
  { apply floor10_pred; [lia|done]. }
  rewrite Ef in Eck. rewrite Eck. pose proof (spec_checkpoint_null (h - 10)) as Hnull. destruct (uint256_IsNull _) eqn:En; intros Hp; passed Hp; injection Hp as <- <-.
  - split; [done|]. injection E as <-. pose proof (proj1 (Hnull ltac:(lia)) eq_refl) as Ea. intros d Hd. destruct (complete_of p d Hd) as (a & ? & Ev). exists a. split; [done|].
    rewrite Ev. unfold spec_value. by rewrite Ea.
  - split; [done|]. assert (accumulated Params cF (h - 10) ≠ []) as Hne by (intros Ea; apply (Hnull ltac:(lia)) in Ea; done).
    destruct (map_load_spec (acc_db st) (spec_checkpoint Params p cF (h - 10)) (λ d, spec cF d (h - 10)) zerocoinDenomList (AccumulatorMap_of p)) as (m' & E' & Hm').
    + intros d Hd. destruct (complete_of p d Hd) as (a & -> & _). by exists a.
    + vm_compute. intros Hin. repeat (apply elem_of_cons in Hin as [?|Hin]; [done|]). by apply elem_of_nil in Hin.
    + intros d Hd. assert (d ≠ ZQ_ERROR) as Hd'. { intros ->. vm_compute in Hd. repeat (apply elem_of_cons in Hd as [?|Hd]; [done|]). by apply elem_of_nil in Hd. }
      rewrite spec_checkpoint_parse by done. unfold ReadAccumulatorValue. destruct (ai_stored _ _ Hi (h - 10) d) as [v Hv]; [lia|rem10 h; apply (rem10_unique (h - 10) (k - 1)); lia|done..|].
      rewrite Hv. f_equal. eapply entries_read; [apply Hi| | |done|done]; lia.
    + unfold map_Load in E. rewrite E' in E. injection E as <-. intros d Hd. destruct (Hm' d Hd) as (a & ? & H1 & _). exists a. split; [done|]. apply H1.
      destruct d; try done; vm_compute; repeat constructor.
Qed.

(** Early heights: the chain has no block at the height where the accumulation should
    start, so the checkpoint stays null. *)
Lemma calculate_early c db h u m : h ≤ S + 20 → S ≤ h → h `rem` ACC_BLOCK_INTERVAL = 0 →
  CalculateAccumulatorCheckpoint Params p c db h uint256_null (AccumulatorMap_of p) = Passed (u, m) → u = uint256_null ∧ complete m (λ _, base).
Proof.
  intros H1 H2 Hr. unfold CalculateAccumulatorCheckpoint. destruct (Z.ltb_spec h S); [lia|]. rewrite Hr. cbn [Z.eqb negb].
  unfold InitializeAccumulators. destruct (Z.ltb_spec h S); [lia|]. destruct (Z.leb_spec h (S + 2 * ACC_BLOCK_INTERVAL)) as [_|?]; [|unfold ACC_BLOCK_INTERVAL in *; lia].
  rewrite GetClosestCheckpoint_base. destruct (Z.ltb_spec 0 h) as [Hpos|Hneg]; [|done]. cbn [Z.ltb Z.compare].
  destruct (load_base (AccumulatorMap_of p) (complete_of p)) as (m' & E & Hm'). rewrite E. cbn [mbind outcome_bind].
  change (at_height c (0 - 2 * ACC_BLOCK_INTERVAL)) with (@None chain_entry). intros [= <- <-]. done.
Qed.

Lemma calculate_spec c st h u m : acc_inv c st → h = Z.of_nat (length c) → h `rem` ACC_BLOCK_INTERVAL = 0 →
  CalculateAccumulatorCheckpoint Params p c (acc_db st) h uint256_null (AccumulatorMap_of p) = Passed (u, m) →
  u = spec_checkpoint Params p cF h ∧ complete m (λ d, spec cF d h) ∧
  (S + 20 < h → ∀ i e b, h - 20 ≤ i < h - 10 → at_height c i = Some e → ce_block e = Some b → ∃ l, BlockToPubcoinList b = Passed l).
Proof.
  intros Hi Hh Hr. pose proof (ai_length _ _ Hi) as HSh. pose proof (prefix_length _ _ (ai_prefix _ _ Hi)) as Hlen. destruct (decide (h ≤ S + 20)) as [He|Hl].
  { intros Hp. apply calculate_early in Hp as [-> Hm]; [|lia..|done]. split_and!; [|intros d Hd; destruct (Hm d Hd) as (a & ? & Ev); exists a; by rewrite spec_base|lia].
    unfold spec_checkpoint. by rewrite accumulated_early. }
  assert (S + 30 ≤ h) as H30.
  { destruct (rem10 h ltac:(lia)) as (_ & k1 & E1), (rem10 S HS0) as (_ & k2 & E2). rewrite Hr in E1. rewrite HSr in E2. clear -Hl E1 E2. lia. }
  unfold CalculateAccumulatorCheckpoint. destruct (Z.ltb_spec h S); [lia|]. rewrite Hr. cbn [Z.eqb negb].
  intros Hp. passed Hp. destruct r as [m0 nHC]. apply (initial_values c st) in E as [-> Hm0]; [|done..|lia].
  change (2 * ACC_BLOCK_INTERVAL) with 20 in Hp. destruct (at_height_is_Some c (h - 20)) as [e0 Ee0]; [lia|]. rewrite Ee0 in Hp. passed Hp. destruct r as [m1 n].
  change ACC_BLOCK_INTERVAL with 10 in *. pose proof (accumulate_blocks_parsed _ _ (h - 20) (h - 10) _ _ _ ltac:(lia) E) as Hparsed.
  apply (accumulate_blocks_spec Params p c _ _ _ _ _ (λ d, spec cF d (h - 10))) in E as [Hm1 En]; [|lia|lia|done].
  assert (complete m1 (λ d, spec cF d h)) as Hm.
  { intros d Hd. destruct (Hm1 d Hd) as (a & ? & Ev). exists a. split; [done|]. rewrite Ev. pose proof (spec_split (h - 10) d ltac:(lia)) as Es. replace (h - 10 + 10) with h in Es by lia.
    replace (h - 10 - 10) with (h - 20) in Es by lia. rewrite Es. by rewrite (prefix_coins c) by (apply Hi || lia). }
  pose proof (accumulated_split (h - 10) ltac:(lia)) as Hacc. replace (h - 10 + 10) with h in Hacc by lia. replace (h - 10 - 10) with (h - 20) in Hacc by lia.
  rewrite (prefix_coins c) in En by (apply Hi || lia). destruct (Z.eqb_spec n 0) as [En0|En0].
  - passed Hp. rename r into e. injection Hp as <- <-. split_and!; [|done|by intros _]. destruct (at_height c (h - 1)) as [e'|] eqn:Ee; [|done]. injection E as ->.
    destruct (ai_entry _ _ Hi (h - 1) e) as [-> _]; [lia|done|]. assert (floor10 (h - 1) = h - 10) as ->.
    { apply floor10_pred; [lia|exact Hr]. }
    assert (coins_between cF (h - 20) (h - 10) = []) as Ec by (apply length_zero_iff_nil; lia). rewrite Ec, app_nil_r in Hacc. unfold spec_checkpoint, spec_value. by rewrite Hacc.
  - rewrite (GetCheckpoint_spec checksum_fits m1 (λ d, spec cF d h) Hm) in Hp. injection Hp as <- <-. split_and!; [|done|by intros _]. unfold spec_checkpoint.
    rewrite Hacc. destruct (coins_between cF (h - 20) (h - 10)) as [|x l]; [cbn in En; lia|]. by destruct (accumulated Params cF (h - 10)).
Qed.

(** ** Recording the checksums *)

Lemma entries_ok_insert n m v d h : entries_ok n m → d ≠ ZQ_ERROR → 0 ≤ h ≤ Z.of_nat n → v = spec cF d h → entries_ok n (<[GetChecksum v := v]> m).
Proof.
  intros Hm Hd Hh Hv k x. destruct (decide (GetChecksum v = k)) as [<-|Hne]; [rewrite lookup_insert_eq; intros [= <-]|rewrite lookup_insert_ne by done; apply Hm].
  split; [done|]. by exists d, h.
Qed.
Lemma entries_ok_mono n n' m : (n ≤ n')%nat → entries_ok n m → entries_ok n' m.
Proof. intros Hn Hm k v Hv. destruct (Hm k v Hv) as (E & d & h & ? & ? & ?). split; [done|]. exists d, h. split_and!; [done|lia|lia|done]. Qed.

Lemma database_loop_spec n m f l : complete m f → (∀ d, d ≠ ZQ_ERROR → ∃ d' h, d' ≠ ZQ_ERROR ∧ 0 ≤ h ≤ Z.of_nat n ∧ f d = spec cF d' h) → ZQ_ERROR ∉ l →
  ∀ st, entries_ok n (db_accumulators (acc_db st)) → entries_ok n (mapAccumulatorValues st) →
  ∃ st', database_loop st m l = Passed st' ∧ entries_ok n (db_accumulators (acc_db st')) ∧ entries_ok n (mapAccumulatorValues st') ∧
    (∀ k, is_Some (db_accumulators (acc_db st) !! k) → is_Some (db_accumulators (acc_db st') !! k)) ∧
    ∀ d, d ∈ l → is_Some (db_accumulators (acc_db st') !! GetChecksum (f d)).
Proof.
  intros Hm Hf. induction l as [|x l IH]; intros Hl st Hdb Hmem; cbn [database_loop].
  { exists st. split_and!; [done..|]. by intros d ?%elem_of_nil. }
  apply not_elem_of_cons in Hl as [Hx Hl]. destruct (Hm x) as (a & Ea & Ev); [done|]. unfold map_GetValue. rewrite decide_False, Ea by done. cbn [defined mbind outcome_bind].
  rewrite Ev. destruct (Hf x) as (d' & h & Hd' & Hh & Es); [done|]. set (st1 := AddAccumulatorChecksum st _ _).
  destruct (IH Hl st1) as (st' & -> & H1 & H2 & H3 & H4).
  - cbn. by eapply entries_ok_insert.
  - cbn. unfold map_insert. case_match; [done|]. by eapply entries_ok_insert.
  - exists st'. split_and!; [done..| |].
    + intros k Hk. apply H3. cbn. destruct (decide (GetChecksum (f x) = k)) as [<-|?]; [by rewrite lookup_insert_eq|by rewrite lookup_insert_ne].
    + intros d [->|Hd]%elem_of_cons; [|by apply H4]. apply H3. cbn. by rewrite lookup_insert_eq.
Qed.

Lemma zerocoinDenomList_spec d : d ∈ zerocoinDenomList ↔ d ≠ ZQ_ERROR.
Proof.
  split.
  - intros Hin ->. vm_compute in Hin. repeat (apply elem_of_cons in Hin as [?|Hin]; [done|]). by apply elem_of_nil in Hin.
  - intros Hd. destruct d; try done; vm_compute; repeat constructor.
Qed.

(** What validation tells about the new block. *)
Lemma validate_spec c st b m : acc_inv c st →
  ValidateAccumulatorCheckpoint Params p c (acc_db st) false b (AccumulatorMap_of p) = Passed m →
  let h := Z.of_nat (length c) in
  nAccumulatorCheckpoint (header b) = spec_checkpoint Params p cF (floor10 h) ∧
  (∃ k, 0 ≤ k ≤ h ∧ complete m (λ d, spec cF d k) ∧ (h `rem` ACC_BLOCK_INTERVAL = 0 → k = h)) ∧
  (h `rem` ACC_BLOCK_INTERVAL = 0 → S + 20 < h → ∀ i e b, h - 20 ≤ i < h - 10 → at_height c i = Some e → ce_block e = Some b → ∃ l, BlockToPubcoinList b = Passed l).
Proof.
  intros Hi Hv h. pose proof (ai_length _ _ Hi) as HSh. unfold ValidateAccumulatorCheckpoint in Hv. fold h in Hv, HSh. destruct (Z.ltb_spec h S); [lia|]. cbn [orb] in Hv.
  destruct (Z.eqb_spec (h `rem` ACC_BLOCK_INTERVAL) 0) as [Hr|Hr].
  - passed Hv. destruct r as [u m']. case_bool_decide as Hu; [|done]. injection Hv as <-. apply (calculate_spec c st) in E as (Eu & Hm & Hpar); [|done..].
    rewrite floor10_self by done. split_and!; [congruence| |done]. exists h. split_and!; [lia|lia|done|done].
  - assert (0 < h) as Hpos. { destruct (decide (h = 0)) as [E|?]; [rewrite E in Hr; done|lia]. }
    passed Hv. rename r into e. case_bool_decide as Hu; [|done]. injection Hv as <-. destruct (at_height c (h - 1)) as [e'|] eqn:Ee; [|done]. injection E as ->.
    assert (S ≤ h - 1) as HS1. { destruct (decide (h = S)) as [E|?]; [rewrite E in Hr; done|lia]. }
    destruct (ai_entry _ _ Hi (h - 1) e HS1 Ee) as [Eck _]. rewrite floor10_same in Eck by done. split_and!; [congruence| |done].
    exists 0. split_and!; [lia|lia| |done]. intros d Hd. destruct (complete_of p d Hd) as (a & ? & Ev). exists a. split; [done|]. rewrite spec_base by lia. done.
Qed.

Lemma connect_inv c st b c' st' : acc_inv c st → c' `prefix_of` cF → connect_accumulators Params p c st b = Passed (c', st') → acc_inv c' st'.
Proof.
  intros Hi Hpre Hc. unfold connect_accumulators in Hc. passed Hc. destruct r as [ok l]. rename E into El. passed Hc. rename r into m. passed Hc. rename r into st1.
  injection Hc as <- <-. destruct (validate_spec c st b m Hi E) as (Hck & (k & Hk & Hm & Hkr) & Hpar). set (h := Z.of_nat (length c)) in *.
  set (e := ChainEntry _ _ _). assert (Z.of_nat (length (c ++ [e])) = h + 1) as Hlen by (rewrite length_app; cbn; lia). pose proof (ai_length _ _ Hi) as HSh. fold h in HSh.
  destruct (database_loop_spec (length (c ++ [e])) m (λ d, spec cF d k) zerocoinDenomList Hm) with (st := st) as (st'' & E' & H1 & H2 & H3 & H4).
  - intros d Hd. exists d, k. split_and!; [done|lia|lia|done].
  - rewrite zerocoinDenomList_spec. intros Hn. by apply Hn.
  - eapply entries_ok_mono; [|apply Hi]. rewrite length_app. lia.
  - eapply entries_ok_mono; [|apply Hi]. rewrite length_app. lia.
  - unfold DatabaseChecksums in E0. rewrite E' in E0. injection E0 as <-. split; [done|lia| |done|done| |].
    + intros i ei HSi Hei. destruct (decide (i = h)) as [->|Hne].
      * unfold h in Hei. rewrite at_height_snoc in Hei. injection Hei as <-. split; [done|]. by exists b, ok, l.
      * pose proof (at_height_Some _ _ _ Hei) as [Hb _]. rewrite at_height_app in Hei by lia. by apply (ai_entry _ _ Hi).
    + intros i d Hr Hi10 Hacc Hd. destruct (decide (i = h)) as [->|Hne].
      * specialize (Hkr Hi10). subst k. by apply (H4 d), zerocoinDenomList_spec.
      * apply H3. assert (i < h) by (clear -Hr Hne Hlen; lia). apply (ai_stored _ _ Hi i d); [split; [apply Hr|done]|done..].
    + intros i HSi Hi10 Hil j ej bj Hj Hej Hbj. assert (j < h) by (clear -Hil Hj Hlen; lia). rewrite at_height_app in Hej by done.
      destruct (decide (i + 20 = h)) as [Eh|Hne].
      * assert (0 ≤ i) as Hi0 by (clear -HSi HS0; lia). assert (h `rem` ACC_BLOCK_INTERVAL = 0) as Hh10.
        { destruct (rem10 i Hi0) as (_ & q & Eq). rewrite Hi10 in Eq. apply (rem10_unique h (q + 2)); clear -Eq Eh Hi0; lia. }
        apply (Hpar Hh10) with (i := j) (e := ej); [clear -HSi Eh; lia|clear -Hj Eh; lia|done|done].
      * apply (ai_parsed _ _ Hi i) with (i := j) (e := ej); [done..|fold h; clear -Hil Hne Hlen; lia|done|done|done].
Qed.

Lemma reach_inv c st : acc_reach Params p c st → c `prefix_of` cF → acc_inv c st.
Proof.
  induction 1 as [c s m Hc|c st b c' st' _ IH Hc|c st s m _ IH]; intros Hpre.
  - split; [done|lia| | | | |].
    + intros h e Hh He. apply at_height_Some in He. lia.
    + intros k v. cbn. by rewrite lookup_empty.
    + intros k v. cbn. by rewrite lookup_empty.
    + intros. lia.
    + intros. lia.
  - eapply connect_inv; [apply IH|done|done]. etransitivity; [|done]. unfold connect_accumulators in Hc. passed Hc. destruct r. passed Hc. passed Hc. injection Hc as <- _. by eexists.
  - destruct (IH Hpre). by split.
Qed.

(** The value that the state holds for a checkpoint. *)
Lemma inv_read c st h d e : acc_inv c st → S ≤ h → h `rem` ACC_BLOCK_INTERVAL = 0 → at_height c h = Some e → accumulated Params cF h ≠ [] → d ≠ ZQ_ERROR →
  GetAccumulatorValueFromDB st (ce_checkpoint e) d = Some (spec cF d h).
Proof.
  intros Hi HSh Hr He Hacc Hd. pose proof (at_height_Some _ _ _ He) as [Hb _]. pose proof (prefix_length _ _ (ai_prefix _ _ Hi)) as Hlen.
  destruct (ai_entry _ _ Hi h e HSh He) as [-> _]. rewrite floor10_self by done. unfold GetAccumulatorValueFromDB, GetAccumulatorValueFromChecksum.
  rewrite spec_checkpoint_parse by done. destruct (mapAccumulatorValues st !! _) as [v|] eqn:Ev.
  - f_equal. eapply entries_read; [apply (ai_memory _ _ Hi)| | |done|done]; lia.
  - unfold ReadAccumulatorValue. destruct (ai_stored _ _ Hi h d) as [v Hv]; [lia|done..|]. rewrite Hv. cbn. f_equal.
    eapply entries_read; [apply (ai_db _ _ Hi)| | |done|done]; lia.
Qed.

End chain.
