(* ===== verification/AccumulatorWitnessFacts.v ===== *)
(** [GenerateAccumulatorWitness] on a chain that the node has connected: the loop adds
    to the witness every coin but one, so the witness verifies. *)

From S2P Require Import Prelude Serialize SerializeFacts ArithUint256 CompactFacts ChainParams Script PubKey Interpreter InterpreterFacts Transaction CoinsView Bignum BignumFacts ZerocoinDB Validation ValidationFacts Zerocoin ZerocoinFacts ZerocoinChain Accumulators AccumulatorFacts AccumulatorChainFacts.
Local Open Scope Z_scope.

(** The coins of the block at height [h] that are added to the witness of [coin], which
    was minted at height [m], and those of [n] blocks. *)
Definition kept_coins (coin : PublicCoin) (m h : Z) (e : chain_entry) : list PublicCoin :=
  if h =? m then filter (λ x, pc_value x ≠ pc_value coin) (entry_coins e) else entry_coins e.
Fixpoint witness_coins (c : acc_chain) (coin : PublicCoin) (m h : Z) (n : nat) : list PublicCoin :=
  match n with
  | O => []
  | S n => match at_height c h with Some e => kept_coins coin m h e | None => [] end ++ witness_coins c coin m (h + 1) n
  end.
Definition count_coins (d : CoinDenomination) (l : list PublicCoin) : Z := Z.of_nat (length (filter (λ x, pc_denomination x = d) l)).

Lemma count_coins_app d l k : count_coins d (l ++ k) = count_coins d l + count_coins d k.
Proof. unfold count_coins. rewrite filter_app, length_app. lia. Qed.
Lemma count_coins_cons_True d x l : pc_denomination x = d → count_coins d (x :: l) = 1 + count_coins d l.
Proof. intros E. unfold count_coins. rewrite filter_cons_True by done. cbn. lia. Qed.
Lemma count_coins_cons_False d x l : pc_denomination x ≠ d → count_coins d (x :: l) = count_coins d l.
Proof. intros E. unfold count_coins. by rewrite filter_cons_False. Qed.
Lemma count_coins_perm d l k : l ≡ₚ k → count_coins d l = count_coins d k.
Proof. intros E. unfold count_coins. by rewrite E. Qed.
Lemma witness_coins_app c coin m h n k :
  witness_coins c coin m h (n + k) = witness_coins c coin m h n ++ witness_coins c coin m (h + Z.of_nat n) k.
Proof.
  revert h. induction n as [|n IH]; intros h; cbn [witness_coins Nat.add]; [by rewrite Z.add_0_r|].
  rewrite IH, <-app_assoc. do 3 f_equal. lia.
Qed.

(** Without the block of the coin, all the coins are kept. *)
Lemma witness_coins_all c coin m n : ∀ h, 0 ≤ h → h + Z.of_nat n ≤ Z.of_nat (length c) → (m < h ∨ h + Z.of_nat n ≤ m) →
  witness_coins c coin m h n = coins_between c h (h + Z.of_nat n).
Proof.
  induction n as [|n IH]; intros h Hh Hl Hm; cbn [witness_coins]; [by rewrite coins_between_empty by lia|].
  destruct (at_height_is_Some c h) as [e He]; [lia|]. rewrite He, (coins_between_step c h _ e) by (done || lia).
  unfold kept_coins. destruct (Z.eqb_spec h m); [lia|]. rewrite IH by lia. do 2 f_equal. lia.
Qed.
(** With it, all but the coin. *)
Lemma witness_coins_perm c coin m em h n : 0 ≤ h → h ≤ m < h + Z.of_nat n → h + Z.of_nat n ≤ Z.of_nat (length c) →
  at_height c m = Some em → filter (λ x, pc_value x = pc_value coin) (entry_coins em) = [coin] →
  coins_between c h (h + Z.of_nat n) ≡ₚ coin :: witness_coins c coin m h n.
Proof.
  intros Hh Hm Hl Hem Hone. replace n with (Z.to_nat (m - h) + Datatypes.S (Z.to_nat (h + Z.of_nat n - m - 1)))%nat at 2 by lia.
  rewrite witness_coins_app. cbn [witness_coins]. replace (h + Z.of_nat (Z.to_nat (m - h))) with m by lia. rewrite Hem.
  rewrite (witness_coins_all c coin m (Z.to_nat (m - h))), (witness_coins_all c coin m (Z.to_nat _) (m + 1)) by lia.
  replace (h + Z.of_nat (Z.to_nat (m - h))) with m by lia.
  replace (m + 1 + Z.of_nat (Z.to_nat (h + Z.of_nat n - m - 1))) with (h + Z.of_nat n) by lia.
  rewrite (coins_between_app c h m), (coins_between_step c m _ em) by (done || lia).
  unfold kept_coins. rewrite Z.eqb_refl, Permutation_middle. f_equiv.
  rewrite app_comm_cons. f_equiv. rewrite <-(filter_app_complement (λ x, pc_value x = pc_value coin) (entry_coins em)) at 1. by rewrite Hone.
Qed.

Lemma floor10_spec h : 0 ≤ h → 0 ≤ floor10 h ≤ h ∧ h < floor10 h + 10 ∧ floor10 h `rem` ACC_BLOCK_INTERVAL = 0.
Proof.
  intros Hh. destruct (rem10 h Hh) as (Hr & k & Ek). unfold floor10. set (r := h `rem` _) in *. split_and!; [lia..|]. apply (rem10_unique (h - r) k 0); lia.
Qed.
Lemma floor10_ge k h : k `rem` ACC_BLOCK_INTERVAL = 0 → 0 ≤ k ≤ h → k ≤ floor10 h.
Proof.
  intros Hk Hkh. destruct (rem10 k) as (_ & q & Eq); [lia|]. rewrite Hk in Eq. destruct (rem10 h) as (Hr & q' & Eq'); [lia|]. unfold floor10.
  set (r := h `rem` _) in *. clear Hk. lia.
Qed.
Lemma rem10_lt h k : 0 ≤ h → h < k → k `rem` ACC_BLOCK_INTERVAL = 0 → floor10 h + 10 ≤ k.
Proof.
  intros Hh Hk Hr. destruct (rem10 k) as (_ & q & Eq); [lia|]. rewrite Hr in Eq. clear Hr. destruct (rem10 h Hh) as (Hr & q' & Eq'). unfold floor10.
  set (r := h `rem` _) in *. lia.
Qed.
Lemma rem10_add h k : 0 ≤ h → 0 ≤ k → h `rem` ACC_BLOCK_INTERVAL = 0 → (h + 10 * k) `rem` ACC_BLOCK_INTERVAL = 0.
Proof.
  intros Hh Hk Hr. destruct (rem10 h Hh) as (_ & q & Eq). rewrite Hr in Eq. clear Hr. apply (rem10_unique _ (q + k) 0); lia.
Qed.

Section witness.
Context (Params : CChainParams) (p : ZerocoinParams) `{HFok : HashFunctionsOk} `{HGok : GmpOk}.
Abbreviation S := (nZerocoinStartHeight Params).
Abbreviation N := (accumulatorModulus (accumulatorParams p)).
Abbreviation spec := (spec_value Params p).
Hypothesis HN : 1 < N.

Lemma acc_after_perm d l k v : Forall (λ x, 0 ≤ pc_value x) l → l ≡ₚ k → acc_after p d l v = acc_after p d k v.
Proof.
  intros Hl Hp. revert v Hl. induction Hp as [|x l k _ IH|x y l|l k k' Hp1 IH1 Hp2 IH2]; intros v Hl; [done|..].
  - apply Forall_cons in Hl as [_ Hl]. by rewrite !acc_after_cons, IH.
  - apply Forall_cons in Hl as [Hx Hl]. apply Forall_cons in Hl as [Hy Hl]. rewrite !acc_after_cons. f_equal.
    repeat case_decide; try done. apply pow_mod_swap; lia.
  - rewrite IH1 by done. apply IH2. by rewrite <-Hp1.
Qed.
(** The accumulator is the witness with the coin. *)
Lemma acc_after_witness l k coin v : Forall (λ x, 0 ≤ pc_value x) l → l ≡ₚ coin :: k →
  acc_after p (pc_denomination coin) l v = pow_mod (acc_after p (pc_denomination coin) k v) (pc_value coin) N.
Proof.
  intros Hl Hp. assert (l ≡ₚ k ++ [coin]) as Hp' by (rewrite Hp; apply Permutation_cons_append).
  rewrite (acc_after_perm _ _ _ v Hl Hp'), acc_after_app. unfold acc_after at 1. rewrite filter_cons_True by done. done.
Qed.

Lemma acc_after_unit d l v : Forall (λ x, 0 ≤ pc_value x) l → Z.gcd v N = 1 → Z.gcd (acc_after p d l v) N = 1.
Proof.
  intros Hl. revert v. induction Hl as [|x l Hx Hl IH]; intros v Hv; [done|]. rewrite acc_after_cons. apply IH. case_decide; [|done].
  unfold pow_mod. rewrite powm_spec by lia. apply Z.coprime_mod_l_iff. by apply Z.coprime_pow_l.
Qed.

(** ** The loop *)

Lemma add_mints_spec coin skip l : ∀ a n,
  let k := if skip : bool then filter (λ x, pc_value x ≠ pc_value coin) l else l in
  add_mints p coin skip a n l =
    (Acc (acc_after p (pc_denomination coin) k (acc_value a)) (acc_denomination a) (acc_zkp_iterations a), n + count_coins (pc_denomination coin) k).
Proof.
  induction l as [|x l IH]; intros a n k; subst k; cbn [add_mints].
  { rewrite filter_nil. destruct a, skip; unfold acc_after, count_coins; cbn; by rewrite Z.add_0_r. }
  assert (∀ k, pc_denomination x ≠ pc_denomination coin → acc_after p (pc_denomination coin) (x :: k) (acc_value a) = acc_after p (pc_denomination coin) k (acc_value a)) as Ha
    by (intros k Hd; by rewrite acc_after_cons, decide_False).
  destruct (decide (pc_denomination x = pc_denomination coin)) as [Hd|Hd].
  - destruct (skip && (pc_value x =? pc_value coin)) eqn:Es.
    + apply andb_true_iff in Es as [-> Ev%Z.eqb_eq]. rewrite filter_cons_False by (intros []; done). destruct (decide _) as [?|_]; [done|]. by rewrite IH.
    + destruct (decide _) as [?|_]; [done|]. rewrite IH. cbn [increment acc_value acc_denomination acc_zkp_iterations].
      assert ((if skip then filter (λ x, pc_value x ≠ pc_value coin) (x :: l) else x :: l) = x :: (if skip then filter (λ x, pc_value x ≠ pc_value coin) l else l)) as ->.
      { destruct skip; [|done]. apply filter_cons_True. intros Ev. by rewrite Ev, Z.eqb_refl in Es. }
      rewrite acc_after_cons, decide_True, count_coins_cons_True by done. f_equal. lia.
  - destruct (decide _) as [_|?]; [|done]. rewrite IH.
    destruct skip; [rewrite filter_cons; case_decide; [|done]|]; by rewrite Ha, count_coins_cons_False.
Qed.

Context (c : acc_chain) (st : accumulator_state).
Hypothesis HS0 : 0 ≤ S.
Hypothesis HSr : S `rem` ACC_BLOCK_INTERVAL = 0.
Hypothesis Hsums : checksums_ok Params p c.
Hypothesis Hinv : acc_inv Params p c c st.
Abbreviation len := (Z.of_nat (length c)).

(** The mints of an entry are the coins of its block. *)
Lemma entry_mints h e : S + 10 ≤ h → floor10 h + 20 < len → at_height c h = Some e →
  ∃ b, ce_block e = Some b ∧ BlockToPubcoinList b = Passed (entry_coins e) ∧ ce_mints e = map pc_denomination (entry_coins e) ∧
    Forall (λ x, pc_denomination x ≠ ZQ_ERROR) (entry_coins e).
Proof.
  intros Hh Hl He. destruct (ai_entry _ _ _ _ _ Hinv h e) as (_ & b & ok & l & Eb & El & Em); [lia|done|].
  destruct (floor10_spec h) as (Hf1 & Hf2 & Hf3); [lia|]. pose proof (rem10_add S 1 HS0 ltac:(lia) HSr) as Hr. pose proof (floor10_ge _ h Hr ltac:(lia)) as Hge.
  destruct (ai_parsed _ _ _ _ _ Hinv (floor10 h)) with (i := h) (e := e) (b := b) as [r Er]; [clear -Hge; lia|done|exact Hl|clear -Hf1 Hf2; lia|done..|].
  exists b. unfold entry_coins. rewrite Eb, Er. split_and!; [done..| |by eapply pubcoins_denom].
  rewrite Em. apply (mint_list_pubcoins _ _ _ _ Er) in El. rewrite <-El, map_map. done.
Qed.

Lemma AddBlockMints_spec coin m h e a : S + 10 ≤ h → floor10 h + 20 < len → at_height c h = Some e →
  AddBlockMintsToAccumulator p coin m h e a true =
    Passed (Acc (acc_after p (pc_denomination coin) (kept_coins coin m h e) (acc_value a)) (acc_denomination a) (acc_zkp_iterations a),
            count_coins (pc_denomination coin) (kept_coins coin m h e)).
Proof.
  intros Hh Hl He. destruct (entry_mints h e Hh Hl He) as (b & Eb & El & Em & _). unfold AddBlockMintsToAccumulator. rewrite Em, Eb, El.
  case_bool_decide as Hin.
  - rewrite add_mints_spec. unfold kept_coins. cbn [andb]. by destruct (h =? m).
  - assert (filter (λ x, pc_denomination x = pc_denomination coin) (kept_coins coin m h e) = []) as Ek.
    { destruct (filter _ _) as [|x r] eqn:Ef; [done|]. exfalso. assert (x ∈ filter (λ x, pc_denomination x = pc_denomination coin) (kept_coins coin m h e)) as Hx by (rewrite Ef; left).
      apply list_elem_of_filter in Hx as [Hd Hx]. apply Hin. rewrite <-Hd. apply list_elem_of_fmap. exists x. split; [done|].
      unfold kept_coins in Hx. destruct (h =? m); [by apply list_elem_of_filter in Hx as [_ ?]|done]. }
    unfold acc_after, count_coins. rewrite Ek. by destruct a.
Qed.

Context (coin : PublicCoin) (m lo stop sec : Z).
Hypothesis Hlo : S + 20 ≤ lo.
Hypothesis Hlo10 : lo `rem` ACC_BLOCK_INTERVAL = 0.
Hypothesis Hstop : lo < stop ∧ stop + 10 < len.
Hypothesis Hstop10 : stop `rem` ACC_BLOCK_INTERVAL = 0.
Hypothesis Hsec : 0 < sec.
Hypothesis Hacc : accumulated Params c (lo + 10) ≠ [].
Hypothesis Hdenom : pc_denomination coin ≠ ZQ_ERROR.
Hypothesis Hpos : Forall (λ x, 0 ≤ pc_value x) (accumulated Params c len).
Hypothesis Hbase : Z.gcd (accumulatorBase (accumulatorParams p)) N = 1.

(** A checkpoint differs from the one before only at a multiple of ten. *)
Lemma checkpoint_change h e prev : S < h → at_height c h = Some e → at_height c (h - 1) = Some prev → ce_checkpoint prev ≠ ce_checkpoint e →
  h `rem` ACC_BLOCK_INTERVAL = 0.
Proof.
  intros Hh He Hp Hne. destruct (decide (h `rem` ACC_BLOCK_INTERVAL = 0)) as [|Hr]; [done|]. exfalso. apply Hne.
  destruct (ai_entry _ _ _ _ _ Hinv h e) as [-> _]; [clear -Hh; lia|done|]. destruct (ai_entry _ _ _ _ _ Hinv (h - 1) prev) as [-> _]; [clear -Hh; lia|done|].
  by rewrite floor10_same by (done || (clear -Hh HS0; lia)).
Qed.

(** The value at which the loop stops. *)
Lemma spend_value h : lo ≤ h ≤ stop → h `rem` ACC_BLOCK_INTERVAL = 0 →
  ∃ e, at_height c (h + ACC_BLOCK_INTERVAL) = Some e ∧
    GetAccumulatorValueFromDB st (ce_checkpoint e) (pc_denomination coin) = Some (spec c (pc_denomination coin) (h + 10)) ∧
    spec c (pc_denomination coin) (h + 10) ≠ 0.
Proof.
  intros Hh Hr. change ACC_BLOCK_INTERVAL with 10 at 1. destruct (at_height_is_Some c (h + 10)) as [e He]; [clear -Hh Hstop Hlo HS0; lia|]. exists e.
  assert (accumulated Params c (h + 10) = accumulated Params c (lo + 10) ++ coins_between c lo h) as Esplit.
  { unfold accumulated, first_accumulated, ACC_BLOCK_INTERVAL. rewrite (coins_between_app c _ lo) by (clear -Hlo Hh HS0; lia). f_equal; f_equal; clear; lia. }
  split_and!; [done| |].
  - apply (inv_read Params p c HS0 HSr Hsums c); [done|clear -Hlo Hh; lia| |done| |done].
    + apply (rem10_add h 1); [clear -Hlo Hh HS0; lia|clear; lia|done].
    + rewrite Esplit. destruct (accumulated Params c (lo + 10)); done.
  - intros E0. assert (Z.gcd (spec c (pc_denomination coin) (h + 10)) N = 1) as Hu.
    { apply acc_after_unit; [|done]. unfold accumulated in *. rewrite (coins_between_app c _ (h + 10 - ACC_BLOCK_INTERVAL)) in Hpos
        by (unfold first_accumulated, ACC_BLOCK_INTERVAL; clear -Hlo Hh HS0 Hstop; lia). by apply Forall_app in Hpos as [? _]. }
    rewrite E0, Z.gcd_0_l in Hu. clear -Hu HN. lia.
Qed.

(** One turn of the loop stops only after the first block, at a multiple of ten. *)
Lemma loop_step h e k : lo ≤ h ≤ stop → at_height c h = Some e → (sec ≠ 100 → k < sec) →
  ∃ changed : bool, (if h =? lo then Passed false
     else prev ← defined (at_height c (h - 1)); Passed (negb (bool_decide (ce_checkpoint prev = ce_checkpoint e)))) = Passed changed ∧
   ((stop <=? h) || (negb (sec =? 100) && (sec <=? (if changed then k + 1 else k))) = true → lo < h ∧ h `rem` ACC_BLOCK_INTERVAL = 0).
Proof.
  intros Hh He Hk. destruct (Z.eqb_spec h lo) as [->|Hne].
  { exists false. split; [done|]. clear -Hstop Hk. intros Hor%orb_true_iff. exfalso. destruct Hor as [?|[H100 ?]%andb_true_iff]; [lia|].
    destruct (Z.eqb_spec sec 100); [done|]. lia. }
  destruct (at_height_is_Some c (h - 1)) as [prev Hp]; [clear -Hh Hlo HS0 Hstop; lia|]. rewrite Hp. cbn [defined mbind outcome_bind]. eexists. split; [done|].
  intros Hor. split; [clear -Hh Hne; lia|]. apply orb_true_iff in Hor as [Hs|[H100 Hs]%andb_true_iff].
  - assert (h = stop) as -> by (clear -Hs Hh; lia). done.
  - case_bool_decide as Hc; cbn [negb] in *.
    + exfalso. destruct (Z.eqb_spec sec 100); [done|]. clear -Hk Hs n. specialize (Hk n). lia.
    + apply (checkpoint_change h e prev); [clear -Hh Hlo; lia|done..].
Qed.

Lemma witness_loop_spec fuel : ∀ h k a n, lo ≤ h ≤ stop → stop - h ≤ Z.of_nat fuel → (sec ≠ 100 → k < sec) →
  ∃ hs, h ≤ hs ≤ stop ∧ lo < hs ∧ hs `rem` ACC_BLOCK_INTERVAL = 0 ∧
    witness_loop p c st coin m lo stop sec fuel h k a n =
      Passed (Some (spec c (pc_denomination coin) (hs + 10)),
              Acc (acc_after p (pc_denomination coin) (witness_coins c coin m h (Z.to_nat (hs - h))) (acc_value a)) (acc_denomination a) (acc_zkp_iterations a),
              n + count_coins (pc_denomination coin) (witness_coins c coin m h (Z.to_nat (hs - h)))).
Proof.
  induction fuel as [|fuel IH]; intros h k a n Hh Hf Hk; cbn [witness_loop]; (destruct (at_height_is_Some c h) as [e He]; [clear -Hh Hstop Hlo HS0; lia|]); rewrite He.
  all: destruct (loop_step h e k Hh He Hk) as (changed & -> & Hch); cbn [mbind outcome_bind]; set (k' := if changed then k + 1 else k) in *.
  all: destruct ((stop <=? h) || (negb (sec =? 100) && (sec <=? k'))) eqn:Estop.
  1, 3: destruct (Hch eq_refl) as [Hgt Hr]; destruct (spend_value h Hh Hr) as (es & -> & Ev & Hne); cbn [defined mbind outcome_bind]; rewrite Ev;
    (destruct (Z.eqb_spec (spec c (pc_denomination coin) (h + 10)) 0); [done|]); exists h; rewrite Z.sub_diag; cbn [Z.to_nat witness_coins];
    (split_and!; [clear; lia|clear -Hh; lia|done|done|]); unfold count_coins; cbn; rewrite Z.add_0_r; by destruct a.
  all: apply orb_false_iff in Estop as [Hlt%Z.leb_gt Hs].
  { clear -Hlt Hf. lia. }
  assert (floor10 h + 20 < len) as Hfl.
  { destruct (floor10_spec h) as (Hf1 & Hf2 & Hf3); [clear -Hh Hlo HS0; lia|]. pose proof (rem10_lt h stop) as Hlt'. clear -Hlt' Hlt Hstop Hstop10 Hh Hlo HS0. specialize (Hlt' ltac:(lia) Hlt Hstop10). lia. }
  rewrite (AddBlockMints_spec coin m h e a) by (done || (clear -Hh Hlo; lia)). cbn [mbind outcome_bind]. set (a' := Acc _ _ _).
  destruct (IH (h + 1) k' a' (n + count_coins (pc_denomination coin) (kept_coins coin m h e))) as (hs & Hhs & Hgt & Hr & ->); [clear -Hlt Hh; lia|clear -Hf; lia| |].
  { clear -Hs. intros H100. apply Z.eqb_neq in H100. rewrite H100 in Hs. cbn [negb andb] in Hs. lia. }
  exists hs. replace (Z.to_nat (hs - h)) with (Datatypes.S (Z.to_nat (hs - (h + 1)))) by (clear -Hhs; lia). subst a'. cbn [witness_coins acc_value acc_denomination acc_zkp_iterations]. rewrite He.
  split_and!; [clear -Hhs; lia|clear -Hhs; lia|done|done|]. rewrite acc_after_app, count_coins_app. do 2 f_equal. clear. lia.
Qed.

Context (em : chain_entry).
Hypothesis Hm : lo ≤ m < lo + 10.
Hypothesis Hem : at_height c m = Some em.
Hypothesis Hone : filter (λ x, pc_value x = pc_value coin) (entry_coins em) = [coin].

Lemma GetAccumulatorValue_spec : GetAccumulatorValue Params p c st (lo + 10) (pc_denomination coin) = Passed (lo + 10, spec c (pc_denomination coin) (lo + 10)).
Proof.
  destruct (spend_value lo) as (e & He & Ev & _); [clear -Hstop; lia|done|]. change (lo + ACC_BLOCK_INTERVAL) with (lo + 10) in He. unfold GetAccumulatorValue, chain_height.
  destruct (Z.ltb_spec (len - 1) (lo + 10)) as [Hl|_]; [clear -Hl Hstop; lia|]. rewrite He. cbn [defined mbind outcome_bind].
  destruct (Z.ltb_spec (S + 2 * ACC_BLOCK_INTERVAL) (lo + 10)) as [_|Hl]; [by rewrite Ev|]. unfold ACC_BLOCK_INTERVAL in Hl. clear -Hl Hlo. lia.
Qed.

(** The witness with the coin is the value of the checkpoint. *)
Lemma witness_value hs : lo < hs ≤ stop → hs `rem` ACC_BLOCK_INTERVAL = 0 →
  pow_mod (acc_after p (pc_denomination coin) (witness_coins c coin m lo (Z.to_nat (hs - lo))) (spec c (pc_denomination coin) (lo + 10))) (pc_value coin) N =
  spec c (pc_denomination coin) (hs + 10).
Proof.
  intros Hhs Hr. pose proof (rem10_lt m hs) as Hmh. assert (m < hs) as Hmhs.
  { pose proof (rem10_lt lo hs) as Hlt. rewrite floor10_self in Hlt by done. clear -Hlt Hhs Hr Hm Hlo HS0. specialize (Hlt ltac:(lia) ltac:(lia) Hr). lia. }
  assert (coins_between c lo hs ≡ₚ coin :: witness_coins c coin m lo (Z.to_nat (hs - lo))) as Hp.
  { replace hs with (lo + Z.of_nat (Z.to_nat (hs - lo))) at 1 by (clear -Hhs; lia).
    eapply witness_coins_perm; [clear -Hlo HS0; lia|clear -Hmhs Hm; lia|clear -Hhs Hstop; lia|done..]. }
  assert (accumulated Params c len = accumulated Params c (lo + 10) ++ coins_between c lo hs ++ coins_between c hs (len - ACC_BLOCK_INTERVAL)) as Ea.
  { unfold accumulated, first_accumulated, ACC_BLOCK_INTERVAL. rewrite (coins_between_app c _ lo), (coins_between_app c lo hs) by (clear -Hlo HS0 Hhs Hstop; lia). do 2 f_equal. clear. lia. }
  rewrite Ea in Hpos. apply Forall_app in Hpos as [_ Hpos']. apply Forall_app in Hpos' as [Hpos' _].
  rewrite <-(acc_after_witness (coins_between c lo hs)) by done. unfold spec_value. rewrite <-acc_after_app. f_equal.
  unfold accumulated, first_accumulated, ACC_BLOCK_INTERVAL. rewrite (coins_between_app c _ lo (hs + 10 - 10)) by (clear -Hlo HS0 Hhs; lia). f_equal; f_equal; clear; lia.
Qed.

Lemma witness_count hs : lo < hs ≤ stop → hs `rem` ACC_BLOCK_INTERVAL = 0 →
  count_coins (pc_denomination coin) (coins_between c lo (lo + 10)) ≤ 1 + count_coins (pc_denomination coin) (witness_coins c coin m lo (Z.to_nat (hs - lo))).
Proof.
  intros Hhs Hr. assert (lo + 10 ≤ hs) as Hle.
  { pose proof (rem10_lt lo hs) as Hlt. rewrite floor10_self in Hlt by done. clear -Hlt Hhs Hr Hlo HS0. apply Hlt; [lia|lia|done]. }
  assert (coins_between c lo (lo + 10) ≡ₚ coin :: witness_coins c coin m lo 10) as Hp
    by (eapply (witness_coins_perm c coin m em lo 10); [clear -Hlo HS0; lia|clear -Hm; lia|clear -Hhs Hstop Hle; lia|done..]).
  rewrite (count_coins_perm _ _ _ Hp), count_coins_cons_True by done.
  replace (Z.to_nat (hs - lo)) with (10 + Z.to_nat (hs - lo - 10))%nat by (clear -Hle; lia). rewrite witness_coins_app, count_coins_app.
  clear. unfold count_coins. lia.
Qed.
End witness.

Lemma accumulated_coins_defined c fuel hEnd d : ∀ h n, 0 ≤ h ≤ hEnd → hEnd < Z.of_nat (length c) → hEnd - h ≤ Z.of_nat fuel → ∃ k, accumulated_coins c fuel h hEnd d n = Passed k.
Proof.
  induction fuel as [|fuel IH]; intros h n Hh Hl Hf; cbn [accumulated_coins]; (destruct (at_height_is_Some c h) as [e ->]; [lia|]); cbn [defined mbind outcome_bind].
  all: destruct (Z.ltb_spec h hEnd); [|by eexists].
  - lia.
  - apply IH; lia.
Qed.

(** The level stays positive if the random number is drawn into the data of the buffer. *)
Lemma RandomizeSecurityLevel_pos random n :
  (∀ i, fits 8 (random i)) → 0 < n → ∃ n', RandomizeSecurityLevel (λ range, randBignum_to buffer_data range random) n = Some n' ∧ 0 < n'.
Proof.
  intros Hb Hn. unfold RandomizeSecurityLevel. destruct (Z.ltb_spec n 100); [|by exists n].
  destruct (randBignum_data ACC_BLOCK_INTERVAL random Hb) as (r & -> & Hr). change (2 ^ _) with 128 in Hr. cbn [mbind option_bind].
  assert (getint r = r) as ->. { unfold getint. rewrite Z.abs_eq, wrap_small by (done || (unfold fits; lia)). destruct (Z.leb_spec 0 r); [|lia]. destruct (Z.ltb_spec (2 ^ 31 - 1) r); lia. }
  rewrite swrap_small by (done || (unfold sfits; lia)). eexists. split; [reflexivity|]. destruct (100 <=? _); lia.
Qed.

(** Where the loop of [GenerateAccumulatorWitness] stops at the latest. *)
Definition witness_stop (c : acc_chain) (heightCheckpoint : option Z) : Z :=
  match heightCheckpoint with Some h => h - ACC_BLOCK_INTERVAL | None => floor10 (chain_height c) - 2 * ACC_BLOCK_INTERVAL end.
