(* ===== verification/AccumulatorProps.v ===== *)
(** The properties of the accumulators of a chain, with a small chain as the witness. *)

From stdpp Require Import strings.
From S2P Require Import Prelude Serialize SerializeFacts ArithUint256 ChainParams Script PubKey Interpreter InterpreterFacts Transaction CoinsView Bignum BignumFacts ZerocoinDB Validation ValidationFacts Zerocoin ZerocoinFacts ZerocoinProps ZerocoinChain Accumulators AccumulatorFacts AccumulatorChainFacts AccumulatorWitnessFacts.
Local Open Scope Z_scope.

(** C6: The accumulators of a chain are exact.  However the chain grew, by connecting blocks
    from a start height that is a multiple of ten, if its values have different
    checksums, the checkpoint of every tenth block is null when no coin
    has been accumulated, and otherwise the node finds, for every denomination, the
    accumulator that contains exactly the coins of that denomination which were minted
    from the tenth block after the start height on, up to ten blocks before the
    checkpoint.  (Coins of the first ten blocks are in no accumulator.) *)
Theorem accumulator_checkpoints_exact (Params : CChainParams) (p : ZerocoinParams) `{HFok : HashFunctionsOk} `{HG : Gmp} c st h e :
  0 ≤ nZerocoinStartHeight Params → nZerocoinStartHeight Params `rem` ACC_BLOCK_INTERVAL = 0 →
  acc_reach Params p c st → checksums_ok Params p c →
  nZerocoinStartHeight Params ≤ h → h `rem` ACC_BLOCK_INTERVAL = 0 → at_height c h = Some e →
  match accumulated Params c h with
  | [] => ce_checkpoint e = uint256_null
  | _ => ∀ d, d ≠ ZQ_ERROR → GetAccumulatorValueFromDB st (ce_checkpoint e) d =
           Some (acc_after p d (coins_between c (first_accumulated Params) (h - ACC_BLOCK_INTERVAL)) (accumulatorBase (accumulatorParams p)))
  end.
Proof.
  intros H0 Hr0 Hreach Hsums HSh Hr He. pose proof (reach_inv Params p c H0 Hr0 Hsums c st Hreach ltac:(done)) as Hi.
  destruct (accumulated Params c h) as [|x l] eqn:Ea.
  - destruct (ai_entry _ _ _ _ _ Hi h e HSh He) as [-> _]. rewrite floor10_self by done. unfold spec_checkpoint. by rewrite Ea.
  - intros d Hd. eapply (inv_read Params p c); try done. by rewrite Ea.
Qed.

(** The function from the drawn security level on. *)
Lemma witness_generated (Params : CChainParams) (p : ZerocoinParams) `{HFok : HashFunctionsOk} `{HGok : GmpOk}
    inChain c st mainnet draw coin a w nSecurityLevel heightCheckpoint txHash m em sec :
  let d := pc_denomination coin in
  0 ≤ nZerocoinStartHeight Params → nZerocoinStartHeight Params `rem` ACC_BLOCK_INTERVAL = 0 →
  1 < accumulatorModulus (accumulatorParams p) → Z.gcd (accumulatorBase (accumulatorParams p)) (accumulatorModulus (accumulatorParams p)) = 1 →
  acc_reach Params p c st → checksums_ok Params p c → Forall (λ x, 0 ≤ pc_value x) (accumulated Params c (Z.of_nat (length c))) →
  ReadCoinMint (acc_db st) (pc_value coin) = Some txHash → inChain txHash = Some m →
  nZerocoinStartHeight Params + 20 ≤ m → at_height c m = Some em → filter (λ x, pc_value x = pc_value coin) (entry_coins em) = [coin] →
  accumulated Params c (floor10 m + 10) ≠ [] →
  nRequiredAccumulation Params < count_coins d (coins_between c (floor10 m) (floor10 m + 10)) →
  floor10 m < witness_stop c heightCheckpoint ≤ chain_height c - 10 → witness_stop c heightCheckpoint `rem` ACC_BLOCK_INTERVAL = 0 →
  (if (mainnet : bool) then RandomizeSecurityLevel draw nSecurityLevel else Some nSecurityLevel) = Some sec → 0 < sec →
  acc_denomination (witness w) = d → PublicCoin_validate (accumulatorParams p) (acc_zkp_iterations (witness w)) coin = true →
  ∃ a' w' n h e, GenerateAccumulatorWitness Params p inChain c st mainnet draw coin a w nSecurityLevel heightCheckpoint = Passed (a', w', n) ∧
    VerifyWitness (accumulatorParams p) w' a' coin = Some true ∧
    m < h ∧ at_height c h = Some e ∧ GetAccumulatorValueFromDB st (ce_checkpoint e) d = Some (acc_value a').
Proof.
  intros d HS0 Hr0 HN Hb Hreach Hsums Hpos Hread Hin HSm Hem Hone Hacc Hreq Hstop Hstop10 Esec Hsec' Hwd Hval.
  pose proof (reach_inv Params p c HS0 Hr0 Hsums c st Hreach ltac:(done)) as Hinv.
  destruct (floor10_spec m) as (Hf1 & Hf2 & Hf3); [clear -HS0 HSm; lia|]. set (lo := floor10 m) in *. set (stop := witness_stop c heightCheckpoint) in *.
  assert (nZerocoinStartHeight Params + 20 ≤ lo) as Hlo by (apply floor10_ge; [apply (rem10_add _ 2); [done|clear; lia|done]|clear -HS0 HSm; lia]).
  assert (lo < stop ∧ stop + 10 < Z.of_nat (length c)) as Hst by (unfold chain_height in Hstop; clear -Hstop; lia).
  assert (pc_denomination coin ≠ ZQ_ERROR) as Hd.
  { destruct (entry_mints Params p c st HS0 Hr0 Hinv m em) as (_ & _ & _ & _ & Hall); [clear -HSm; lia|fold lo; clear -Hst Hstop10 Hf1 Hf2 Hf3; pose proof (rem10_lt lo stop); rewrite floor10_self in * by done; lia|done|].
    rewrite Forall_forall in Hall. apply Hall. assert (coin ∈ filter (λ x, pc_value x = pc_value coin) (entry_coins em)) as Hx by (rewrite Hone; left).
    by apply list_elem_of_filter in Hx as [_ ?]. }
  unfold GenerateAccumulatorWitness. rewrite Hread. cbn [mbind option_bind]. rewrite Hin.
  replace (m + (ACC_BLOCK_INTERVAL - m `rem` ACC_BLOCK_INTERVAL)) with (lo + 10) by (unfold lo, floor10, ACC_BLOCK_INTERVAL; clear; lia).
  rewrite (GetAccumulatorValue_spec Params p HN c st HS0 Hr0 Hsums Hinv coin lo stop) by done. cbn [mbind outcome_bind].
  change (lo + 10 - ACC_BLOCK_INTERVAL) with (lo + 10 - 10). replace (lo + 10 - 10) with lo by (clear; lia). change (m - m `rem` ACC_BLOCK_INTERVAL) with lo.
  change (match heightCheckpoint with Some h => _ | None => _ end) with stop. 
  rewrite Esec. cbn [defined mbind outcome_bind].
  destruct (witness_loop_spec Params p HN c st HS0 Hr0 Hsums Hinv coin m lo stop sec) with (fuel := length c) (h := lo) (k := 0) (a := setValue a (spec_value Params p c (pc_denomination coin) (lo + 10))) (n := 0)
    as (hs & Hhs & Hgt & Hr & ->); try done; [clear -Hst; lia|clear -Hst Hlo HS0; lia|].
  cbn [mbind outcome_bind setValue acc_value acc_denomination acc_zkp_iterations].
  assert (lo < hs ≤ stop) as Hhs' by (clear -Hhs Hgt; lia). assert (lo ≤ m < lo + 10) as Hm by (clear -Hf1 Hf2; lia).
  pose proof (witness_value Params p HN c HS0 coin m lo stop Hlo Hf3 Hst Hpos em Hm Hem Hone hs Hhs' Hr) as Hv.
  pose proof (witness_count Params c HS0 coin m lo stop Hlo Hf3 Hst em Hm Hem Hone hs Hhs' Hr) as Hc.
  destruct (spend_value Params p HN c st HS0 Hr0 Hsums Hinv coin lo stop) with (h := hs) as (es & Hes & Ees & _); try done.
  set (a' := setValue (setValue a _) _). set (w' := AccWitness _ coin).
  assert (VerifyWitness (accumulatorParams p) w' a' coin = Some true) as Hver.
  { unfold VerifyWitness, accumulate. rewrite !decide_False by (intros Hne; by destruct Hne).
    change (acc_zkp_iterations (witness w')) with (acc_zkp_iterations (witness w)). change (element w') with coin. rewrite Hval. cbn [mbind option_bind].
    change (acc_value (increment _ (witness w') (pc_value coin))) with
      (pow_mod (acc_after p (pc_denomination coin) (witness_coins c coin m lo (Z.to_nat (hs - lo))) (spec_value Params p c (pc_denomination coin) (lo + 10))) (pc_value coin)
         (accumulatorModulus (accumulatorParams p))).
    rewrite Hv. change (acc_value a') with (spec_value Params p c (pc_denomination coin) (hs + 10)). by rewrite Z.eqb_refl. }
  rewrite Hver. cbn [defined mbind outcome_bind negb]. destruct (Z.ltb_spec (0 + count_coins (pc_denomination coin) (witness_coins c coin m lo (Z.to_nat (hs - lo)))) (nRequiredAccumulation Params)) as [Hlt|_].
  { exfalso. clear -Hlt Hc Hreq. subst d. lia. }
  destruct (accumulated_coins_defined c (Z.to_nat (lo - nZerocoinStartHeight Params)) lo (pc_denomination coin) (nZerocoinStartHeight Params) 0) as [k Ek]; [clear -Hlo HS0; lia|clear -Hst; lia|clear -Hlo; lia|].
  unfold ComputeAccumulatedCoins. rewrite Ek. cbn [mbind outcome_bind]. do 3 eexists. exists (hs + ACC_BLOCK_INTERVAL), es. split_and!; [done|done| |done|done].
  unfold ACC_BLOCK_INTERVAL. pose proof (rem10_lt lo hs) as Hlt. rewrite floor10_self in Hlt by done. clear -Hlt Hhs' Hr Hm Hlo HS0. specialize (Hlt ltac:(lia) ltac:(lia) Hr). lia.
Qed.

(** Up to the draw of the random number nothing is undefined. *)
Lemma witness_undrawn (Params : CChainParams) (p : ZerocoinParams) `{HFok : HashFunctionsOk} `{HGok : GmpOk}
    inChain c st draw coin a w nSecurityLevel heightCheckpoint txHash m :
  ReadCoinMint (acc_db st) (pc_value coin) = Some txHash → inChain txHash = Some m →
  RandomizeSecurityLevel draw nSecurityLevel = None →
  GenerateAccumulatorWitness Params p inChain c st true draw coin a w nSecurityLevel heightCheckpoint = Undefined.
Proof.
  intros Hread Hin Hn. unfold GenerateAccumulatorWitness. rewrite Hread. cbn [mbind option_bind]. rewrite Hin, Hn.
  destruct (GetAccumulatorValue _ _ _ _) as [| |[h v]]; done.
Qed.

(** C10: A witness is generated for a coin that is old enough, and it verifies.  The chain
    is one that the node has connected from a multiple of ten as the start height, with
    no two accumulator values of the same checksum.  [coin] is valid and was minted
    once, in the block of height [m], twenty blocks or more after the start; some coin
    was accumulated before its group of ten blocks, and more than the required number
    of coins of its denomination were minted in that group; the height at which the
    search stops is a multiple of ten above the group and at least ten blocks below
    the tip.  Then for every positive security level the function returns a
    witness, the accumulator is the value of a checkpoint of the chain above the coin,
    and the witness proves that it contains the coin.  The exception is the main network
    with a level below 100, where the function calls [randBignum]: the witness is
    generated if that function fills the data of its buffer, and as it is written
    the call has no defined result. *)
Theorem GenerateAccumulatorWitness_complete (Params : CChainParams) (p : ZerocoinParams) `{HFok : HashFunctionsOk} `{HGok : GmpOk}
    inChain c st mainnet dest random coin a w nSecurityLevel heightCheckpoint txHash m em :
  let d := pc_denomination coin in
  0 ≤ nZerocoinStartHeight Params → nZerocoinStartHeight Params `rem` ACC_BLOCK_INTERVAL = 0 →
  1 < accumulatorModulus (accumulatorParams p) → Z.gcd (accumulatorBase (accumulatorParams p)) (accumulatorModulus (accumulatorParams p)) = 1 →
  acc_reach Params p c st → checksums_ok Params p c → Forall (λ x, 0 ≤ pc_value x) (accumulated Params c (Z.of_nat (length c))) →
  ReadCoinMint (acc_db st) (pc_value coin) = Some txHash → inChain txHash = Some m →
  nZerocoinStartHeight Params + 20 ≤ m → at_height c m = Some em → filter (λ x, pc_value x = pc_value coin) (entry_coins em) = [coin] →
  accumulated Params c (floor10 m + 10) ≠ [] →
  nRequiredAccumulation Params < count_coins d (coins_between c (floor10 m) (floor10 m + 10)) →
  floor10 m < witness_stop c heightCheckpoint ≤ chain_height c - 10 → witness_stop c heightCheckpoint `rem` ACC_BLOCK_INTERVAL = 0 →
  0 < nSecurityLevel → (∀ i, fits 8 (random i)) →
  acc_denomination (witness w) = d → PublicCoin_validate (accumulatorParams p) (acc_zkp_iterations (witness w)) coin = true →
  let r := GenerateAccumulatorWitness Params p inChain c st mainnet (λ range, randBignum_to dest range random) coin a w nSecurityLevel heightCheckpoint in
  match mainnet && (nSecurityLevel <? 100), dest with
  | true, vector_object => r = Undefined
  | _, _ =>
      ∃ a' w' n h e, r = Passed (a', w', n) ∧ VerifyWitness (accumulatorParams p) w' a' coin = Some true ∧
        m < h ∧ at_height c h = Some e ∧ GetAccumulatorValueFromDB st (ce_checkpoint e) d = Some (acc_value a')
  end.
Proof.
  intros d HS0 Hr0 HN Hb Hreach Hsums Hpos Hread Hin HSm Hem Hone Hacc Hreq Hstop Hstop10 Hsec Hrnd Hwd Hval r.
  assert (∀ sec, (if mainnet then RandomizeSecurityLevel (λ range, randBignum_to dest range random) nSecurityLevel else Some nSecurityLevel) = Some sec → 0 < sec →
    ∃ a' w' n h e, r = Passed (a', w', n) ∧ VerifyWitness (accumulatorParams p) w' a' coin = Some true ∧
        m < h ∧ at_height c h = Some e ∧ GetAccumulatorValueFromDB st (ce_checkpoint e) d = Some (acc_value a')) as Hgen
    by (intros sec Esec Hsec'; by eapply witness_generated).
  destruct mainnet; cbn [andb]; [|by apply (Hgen nSecurityLevel)]. destruct (Z.ltb_spec nSecurityLevel 100) as [Hlt|Hge].
  - destruct dest.
    + destruct (RandomizeSecurityLevel_pos random nSecurityLevel Hrnd Hsec) as (sec & Esec & Hsec'). by apply (Hgen sec).
    + eapply witness_undrawn; [done..|]. unfold RandomizeSecurityLevel. destruct (Z.ltb_spec nSecurityLevel 100); [|lia].
      pose proof (randBignum_undefined ACC_BLOCK_INTERVAL random) as Hu; unfold randBignum in Hu; by rewrite Hu.
  - apply (Hgen nSecurityLevel); [|done]. unfold RandomizeSecurityLevel. by destruct (Z.ltb_spec nSecurityLevel 100); [lia|].
Qed.

(** C29: A coin that was minted in the first twenty blocks after the start can never be
    spent: whatever the chain and the databases hold, no witness is generated for it.
    The height that [GetAccumulatorValue] returns is that of the hard-coded checkpoint,
    0, and the loop over the blocks starts ten blocks before it. *)
Theorem GenerateAccumulatorWitness_early (Params : CChainParams) (p : ZerocoinParams) `{HashFunctions} `{Gmp}
    inChain c st mainnet draw coin a w nSecurityLevel heightCheckpoint txHash m r :
  0 ≤ nZerocoinStartHeight Params → nZerocoinStartHeight Params `rem` ACC_BLOCK_INTERVAL = 0 → 0 < nRequiredAccumulation Params →
  ReadCoinMint (acc_db st) (pc_value coin) = Some txHash → inChain txHash = Some m →
  nZerocoinStartHeight Params ≤ m < nZerocoinStartHeight Params + 20 → m + 10 ≤ chain_height c →
  GenerateAccumulatorWitness Params p inChain c st mainnet draw coin a w nSecurityLevel heightCheckpoint ≠ Passed r.
Proof.
  intros HS0 HSr Hreq Hread Hin Hm Hch. destruct (floor10_spec m) as (Hf1 & Hf2 & Hf3); [clear -HS0 Hm; lia|].
  assert (floor10 m + 10 ≤ nZerocoinStartHeight Params + 20) as Hle by (apply rem10_lt; [clear -HS0 Hm; lia|clear -Hm; lia|by apply (rem10_add _ 2); [|clear; lia|]]).
  unfold GenerateAccumulatorWitness. rewrite Hread. cbn [mbind option_bind]. rewrite Hin.
  replace (m + (ACC_BLOCK_INTERVAL - m `rem` ACC_BLOCK_INTERVAL)) with (floor10 m + 10) by (unfold floor10, ACC_BLOCK_INTERVAL; clear; lia).
  unfold GetAccumulatorValue. destruct (Z.ltb_spec (chain_height c) (floor10 m + 10)) as [Hlt|_]; [clear -Hlt Hch Hf1; lia|].
  destruct (at_height_is_Some c (floor10 m + 10)) as [e He]; [unfold chain_height in Hch; clear -Hch Hf1; lia|]. rewrite He. cbn [defined mbind outcome_bind].
  destruct (Z.ltb_spec (nZerocoinStartHeight Params + 2 * ACC_BLOCK_INTERVAL) (floor10 m + 10)) as [Hlt|_]; [unfold ACC_BLOCK_INTERVAL in Hlt; clear -Hlt Hle; lia|].
  rewrite (GetClosestCheckpoint_base Params p) by done. destruct (Z.ltb_spec 0 (floor10 m + 10)) as [_|Hlt]; [|clear -Hlt Hf1; lia]. cbn [Z.ltb Z.compare].
  destruct (_ !! pc_denomination coin) as [v|]; cbn [defined mbind outcome_bind]; [|done].
  destruct (if mainnet then _ else _) as [sec|]; cbn [defined mbind outcome_bind]; [|done].
  assert (∀ l1 l2 l3 f k x n, witness_loop p c st coin l1 l2 l3 f (length c) (0 - ACC_BLOCK_INTERVAL) k x n = Passed (None, x, n)) as -> by (intros; by destruct (length c)).
  cbn [mbind outcome_bind]. destruct (VerifyWitness _ _ _ _) as [[]|]; cbn [defined mbind outcome_bind negb]; [|done..].
  destruct (Z.ltb_spec 0 (nRequiredAccumulation Params)) as [_|Hlt]; [done|clear -Hlt Hreq; lia].
Qed.

(** * A small chain *)

#[local] Existing Instance small_gmp.
#[local] Existing Instance small_gmp_ok.
#[local] Existing Instance small_hashes.
#[local] Existing Instance small_hashes_ok.
#[local] Existing Instance small_moduli.

(** A transaction that mints a coin of five. *)
Definition mint_tx (value : Z) : CMutableTransaction := MTx 1 [] [TxOut (5 * COIN) (OP_ZEROCOINMINT :: replicate 5 0 ++ [value]) 0] 0.
(** The next block of a chain, as a miner makes it. *)
Definition next_block (Params : CChainParams) (p : ZerocoinParams) (c : acc_chain) (st : accumulator_state) (mints : list Z) : outcome CBlock :=
  '(u, _) ← CalculateAccumulatorCheckpoint Params p c (acc_db st) (Z.of_nat (length c)) uint256_null (AccumulatorMap_of p);
  Passed (Block (BlockHeader 1 uint256_null uint256_null 0 0 0 u) (map mint_tx mints) []).
Fixpoint grow (Params : CChainParams) (p : ZerocoinParams) (c : acc_chain) (st : accumulator_state) (l : list (list Z)) : outcome (acc_chain * accumulator_state) :=
  match l with
  | [] => Passed (c, st)
  | mints :: l => b ← next_block Params p c st mints; '(c, st) ← connect_accumulators Params p c st b; grow Params p c st l
  end.
Lemma grow_reach Params p c st l c' st' : acc_reach Params p c st → grow Params p c st l = Passed (c', st') → acc_reach Params p c' st'.
Proof.
  revert c st. induction l as [|mints l IH]; intros c st Hr; cbn [grow]; [by intros [= <- <-]|]. intros Hg. passed Hg. passed Hg. destruct r0 as [c1 st1].
  eapply IH; [|done]. by eapply ar_connect.
Qed.

(** Coins at the heights 212, 225 and 226 of a chain of 256 blocks. *)
Definition small_mints : list (list Z) :=
  replicate 12 [] ++ [[3]] ++ replicate 12 [] ++ [[7]; [11]] ++ replicate 29 [].
Definition small_start : acc_chain := replicate 200 (ChainEntry uint256_null [] None).
Definition small_chain : acc_chain * accumulator_state :=
  match grow regTestParams small_params small_start (AccState ∅ [] (ZerocoinDB ∅ ∅ ∅)) small_mints with
  | Passed r => r
  | _ => (small_start, AccState ∅ [] (ZerocoinDB ∅ ∅ ∅))
  end.
Lemma small_chain_reach : acc_reach regTestParams small_params small_chain.1 small_chain.2.
Proof.
  assert (acc_reach regTestParams small_params small_start (AccState ∅ [] (ZerocoinDB ∅ ∅ ∅))) as Hs by (apply ar_init; by vm_compute).
  unfold small_chain. destruct (grow _ _ _ _ _) as [| |[c st]] eqn:E; [exact Hs|exact Hs|]. exact (grow_reach _ _ _ _ _ _ _ Hs E).
Qed.

(** [checksums_ok] by computation. *)
Definition chain_values Params p (c : acc_chain) : list Z :=
  remove_dups (flat_map (λ h, map (λ d, spec_value Params p c d h) zerocoinDenomList) (seqZ 0 (Z.of_nat (length c) + 1))).
Lemma checksums_ok_values Params p c :
  bool_decide (NoDup (map GetChecksum (chain_values Params p c))) && forallb (λ v, negb (GetChecksum v =? 0)) (chain_values Params p c) = true →
  checksums_ok Params p c.
Proof.
  rewrite andb_true_iff, bool_decide_eq_true, forallb_forall. intros [Hnd Hall].
  assert (∀ d h, 0 ≤ h ≤ Z.of_nat (length c) → d ≠ ZQ_ERROR → spec_value Params p c d h ∈ chain_values Params p c) as Hin.
  { intros d h Hh Hd. apply elem_of_remove_dups, list_elem_of_In, in_flat_map. exists h. split; [apply list_elem_of_In, elem_of_seqZ; lia|].
    apply (in_map (λ d, spec_value Params p c d h)), list_elem_of_In, zerocoinDenomList_spec. done. }
  intros d h Hh Hd. split.
  - specialize (Hall (spec_value Params p c d h)). rewrite <-list_elem_of_In in Hall. specialize (Hall (Hin d h Hh Hd)). lia.
  - intros d' h' Hh' Hd' E. pose proof (Hin d h Hh Hd) as Hi. apply list_elem_of_lookup in Hi as [i Hi].
    pose proof (Hin d' h' Hh' Hd') as Hj. apply list_elem_of_lookup in Hj as [j Hj].
    assert (i = j) as <-; [|congruence]. apply (NoDup_lookup _ i j (GetChecksum (spec_value Params p c d h)) Hnd).
    + by rewrite list_lookup_fmap, Hi.
    + rewrite list_lookup_fmap, Hj, E. done.
Qed.
Lemma small_chain_checksums : checksums_ok regTestParams small_params small_chain.1.
Proof. apply checksums_ok_values. vm_compute. reflexivity. Qed.

Lemma accumulator_checkpoints_exact_witness :
  match at_height small_chain.1 250 with
  | Some e => GetAccumulatorValueFromDB small_chain.2 (ce_checkpoint e) ZQ_FIVE = Some ((4 ^ 3) ^ (7 * 11) `mod` 77)
  | None => False
  end.
Proof.
  pose proof (accumulator_checkpoints_exact regTestParams small_params small_chain.1 small_chain.2 250) as Hx.
  assert (accumulated regTestParams small_chain.1 250 = map (λ v, PubCoin v ZQ_FIVE) [3; 7; 11]) as Ea by (vm_compute; reflexivity).
  assert (0 ≤ nZerocoinStartHeight regTestParams ≤ 250) as HS by (vm_compute; split; discriminate).
  destruct (at_height small_chain.1 250) as [e|] eqn:E; [|vm_compute in E; discriminate E].
  specialize (Hx e (proj1 HS) eq_refl small_chain_reach small_chain_checksums (proj2 HS) eq_refl eq_refl).
  rewrite Ea in Hx. cbn [map] in Hx. rewrite (Hx ZQ_FIVE) by (clear; discriminate). vm_compute. reflexivity.
Defined.

(** The state with the entry of the coin 7, and the witness that is generated for it. *)
Definition small_tx : uint256 := tx_GetHash (mint_tx 7).
Definition small_state : accumulator_state :=
  let st := small_chain.2 in
  AccState (mapAccumulatorValues st) (listAccCheckpointsNoDB st) (WriteCoinMint (acc_db st) 7 small_tx).
Definition small_height (m : Z) (txHash : uint256) : option Z := if bool_decide (txHash = small_tx) then Some m else None.
Definition small_result : outcome (Accumulator * AccumulatorWitness * Z) :=
  GenerateAccumulatorWitness regTestParams small_params (small_height 225) small_chain.1 small_state false (λ range, randBignum_to vector_object range (λ _, 0)) (PubCoin 7 ZQ_FIVE)
    (Accumulator_of small_params ZQ_FIVE) (AccWitness (Accumulator_of small_params ZQ_FIVE) (PubCoin 7 ZQ_FIVE)) 100 None.

Lemma GenerateAccumulatorWitness_complete_witness :
  match small_result with
  | Passed (a, w, _) => VerifyWitness (accumulatorParams small_params) w a (PubCoin 7 ZQ_FIVE) = Some true
  | _ => False
  end.
Proof.
  assert (∃ em, at_height small_chain.1 225 = Some em ∧ filter (λ x, pc_value x = 7) (entry_coins em) = [PubCoin 7 ZQ_FIVE]) as (em & Hem & Hone).
  { eexists. split; [vm_compute; reflexivity|vm_compute; reflexivity]. }
  destruct (GenerateAccumulatorWitness_complete regTestParams small_params (small_height 225) small_chain.1 small_state false vector_object (λ _, 0) (PubCoin 7 ZQ_FIVE)
    (Accumulator_of small_params ZQ_FIVE) (AccWitness (Accumulator_of small_params ZQ_FIVE) (PubCoin 7 ZQ_FIVE)) 100 None small_tx 225 em)
    as (a & w & n & h & e & E & Hv & _).
  - apply Z.leb_le. vm_compute. reflexivity.
  - vm_compute. reflexivity.
  - vm_compute. reflexivity.
  - vm_compute. reflexivity.
  - apply (ar_coins regTestParams small_params small_chain.1 small_chain.2), small_chain_reach.
  - apply small_chain_checksums.
  - apply (bool_decide_unpack _). vm_compute. exact I.
  - vm_compute. reflexivity.
  - vm_compute. reflexivity.
  - apply Z.leb_le. vm_compute. reflexivity.
  - exact Hem.
  - exact Hone.
  - vm_compute. discriminate.
  - vm_compute. reflexivity.
  - split; [vm_compute; reflexivity|apply Z.leb_le; vm_compute; reflexivity].
  - vm_compute. reflexivity.
  - vm_compute. reflexivity.
  - intros i. split; [apply Z.leb_le; vm_compute; reflexivity|vm_compute; reflexivity].
  - reflexivity.
  - vm_compute. reflexivity.
  - unfold small_result. rewrite E. exact Hv.
Defined.

(** The same coin at height 212. *)
Lemma GenerateAccumulatorWitness_early_witness :
  match GenerateAccumulatorWitness regTestParams small_params (small_height 212) small_chain.1 small_state false (λ range, randBignum_to vector_object range (λ _, 0)) (PubCoin 7 ZQ_FIVE)
    (Accumulator_of small_params ZQ_FIVE) (AccWitness (Accumulator_of small_params ZQ_FIVE) (PubCoin 7 ZQ_FIVE)) 100 None with
  | Passed _ => False
  | _ => True
  end.
Proof.
  pose proof (GenerateAccumulatorWitness_early regTestParams small_params (small_height 212) small_chain.1 small_state false (λ range, randBignum_to vector_object range (λ _, 0)) (PubCoin 7 ZQ_FIVE)
    (Accumulator_of small_params ZQ_FIVE) (AccWitness (Accumulator_of small_params ZQ_FIVE) (PubCoin 7 ZQ_FIVE)) 100 None small_tx 212) as Hx.
  destruct (GenerateAccumulatorWitness _ _ _ _ _ _ _ _ _ _ _ _) as [| |r]; [exact I|exact I|].
  apply (Hx r); [apply Z.leb_le|..]; try (vm_compute; reflexivity).
  - split; [apply Z.leb_le|]; vm_compute; reflexivity.
  - apply Z.leb_le. vm_compute. reflexivity.
Defined.
