(* ===== verification/ZerocoinValidation.v ===== *)
(** The interface [ZerocoinChecks] of Validation.v, which [CheckTransaction],
    [ConnectBlock] and [CheckBlock] use, implemented by the functions of
    zerocoin/mainzero.cpp, zerocoin/zerochain.cpp and zerocoin/accumulators.cpp. *)

From stdpp Require Import strings.
From S2P Require Import Prelude Serialize ChainParams Script PubKey Interpreter Transaction CoinsView Bignum ZerocoinDB Validation ValidationFacts Zerocoin ZerocoinProps ZerocoinChain Accumulators AccumulatorChainFacts.
Local Open Scope Z_scope.

(** The global state that the checks read: the databases, the active chain below the
    block, the index entry of the block, and the clock through [zc_verify], the
    condition in [CheckTransaction] under which signatures are verified. *)
Record zerocoin_context := ZerocoinContext {
  zc_db : CZerocoinDB;
  zc_chain : acc_chain;
  zc_inChain : uint256 → option Z;
  zc_height : Z;
  zc_testnet : bool;
  zc_verify : bool;
  zc_verifying_blocks : bool;
  zc_prev : option (Z * gmap CoinDenomination Z);
  zc_supply : gmap CoinDenomination Z;
}.

Section checks.
Context (Params : CChainParams) (p : ZerocoinParams) `{HashFunctions} `{Gmp} `{Moduli} `{Secp256k1} (g : zerocoin_context).

(** A result [false] of the last two is a value: [ConnectBlock] sets the state after it. *)
Definition zerocoin_checks : ZerocoinChecks := {|
  Validation.CheckZerocoinMint o := CheckZerocoinMint p o;
  Validation.CheckZerocoinSpend tx := CheckZerocoinSpend p (zc_db g) (zc_verify g) tx;
  Validation.TxOutToPublicCoin o := c ← TxOutToPublicCoin o; Passed (pc_value c);
  Validation.ContextualCheckZerocoinMint value := ContextualCheckZerocoinMint Params (zc_inChain g) (zc_db g) (zc_testnet g) (zc_height g) value;
  Validation.TxInToZerocoinSpend i :=
    spend ← TxInToZerocoinSpend i; Passed (coinSerialNumber spend, ZerocoinDenominationToInt (denomination spend));
  Validation.ContextualCheckZerocoinSpend i :=
    spend ← TxInToZerocoinSpend i; ContextualCheckZerocoinSpend Params (zc_inChain g) (zc_db g) (zc_height g) spend;
  Validation.UpdateZKPSupply b := '(ok, _, _) ← UpdateZKPSupply (zc_prev g) (zc_supply g) b; Passed ok;
  Validation.ValidateAccumulatorCheckpoint b :=
    match ValidateAccumulatorCheckpoint Params p (zc_chain g) (zc_db g) (zc_verifying_blocks g) b (AccumulatorMap_of p) with
    | Undefined => Undefined
    | Rejected _ _ => Passed false
    | Passed _ => Passed true
    end;
  Validation.record_checksums b acc :=
    m ← ValidateAccumulatorCheckpoint Params p (zc_chain g) (zc_db g) (zc_verifying_blocks g) b (AccumulatorMap_of p);
    st ← DatabaseChecksums (AccState ∅ [] (ZerocoinDB ∅ ∅ acc)) m;
    Passed (db_accumulators (acc_db st));
  Validation.erase_checksums nCheckpointErase nCheckpointPrevious acc :=
    Some (db_accumulators (acc_db (EraseAccumulatorValues (AccState ∅ [] (ZerocoinDB ∅ ∅ acc)) nCheckpointErase nCheckpointPrevious)));
  Validation.IsTransactionInChain := zc_inChain g;
|}.
End checks.

(** * The check of a spending transaction *)

Section spend.
Context (p : ZerocoinParams) `{HashFunctions} `{Gmp} `{Moduli} `{Secp256k1} (db : CZerocoinDB).

(** What a spend must satisfy, if signatures are verified. *)
Record valid_spend (fVerifySignature : bool) (tx : CMutableTransaction) (txin : CTxIn) (spend : CoinSpend) : Prop := {
  vs_read : TxInToZerocoinSpend txin = Passed spend;
  vs_denomination : denomination spend ≠ ZQ_ERROR;
  vs_sequence : nSequence txin = ZerocoinDenominationToInt (denomination spend);
  vs_outputs : ptxHash spend = hashTxOut_of tx;
  vs_verified : fVerifySignature = true → ∃ v, ReadAccumulatorValue db (accChecksum spend) = Some v ∧
    CoinSpend_Verify p spend (Accumulator_at p v (denomination spend)) = Some true;
}.
Definition amount_of (spend : CoinSpend) : Z := ZerocoinDenominationToAmount (denomination spend).
Definition sum_amounts (l : list CoinSpend) : Z := foldr (λ s n, amount_of s + n) 0 l.

Lemma check_spend_passed fVerifySignature tx txin spend serials : TxInToZerocoinSpend txin = Passed spend →
  check_spend p db fVerifySignature (hashTxOut_of tx) txin spend serials = Passed tt ↔
  valid_spend fVerifySignature tx txin spend ∧ coinSerialNumber spend ∉ serials.
Proof.
  intros Hr. unfold check_spend. split.
  - case_decide as Hd; [done|]. destruct (Z.eqb_spec (ZerocoinDenominationToInt (denomination spend)) (nSequence txin)) as [Hs|?]; [|done].
    case_bool_decide as Ho; [|done]. cbn [negb]. intros Hc. passed Hc. case_bool_decide as Hin; [done|]. split; [|done]. split; [done..|].
    intros ->. destruct (ReadAccumulatorValue db (accChecksum spend)) as [v|]; [|done]. exists v. split; [done|].
    destruct (CoinSpend_Verify _ _ _) as [[]|]; done.
  - intros [[_ Hd Hs Ho Hv] Hin]. rewrite decide_False by done. rewrite Hs, Z.eqb_refl, bool_decide_true by done. cbn [negb].
    rewrite bool_decide_false by done. destruct fVerifySignature; [|done]. destruct Hv as (v & -> & ->); done.
Qed.

Definition zerocoin_inputs (l : list CTxIn) : list CTxIn := List.filter (λ i, IsZerocoinSpend (scriptSig i)) l.

Lemma check_spends_passed fVerifySignature tx l : ∀ serials total validated r,
  check_spends p db fVerifySignature (hashTxOut_of tx) serials total validated l = Passed r ↔
  ∃ spends, Forall2 (valid_spend fVerifySignature tx) (zerocoin_inputs l) spends ∧
    NoDup (map coinSerialNumber spends) ∧ (∀ s, s ∈ spends → coinSerialNumber s ∉ serials) ∧
    r = (foldl (λ n s, s64 (n + amount_of s)) total spends, match spends with [] => validated | _ => true end).
Proof.
  induction l as [|i l IH]; intros serials total validated r; cbn [check_spends zerocoin_inputs List.filter].
  { split; [intros [= <-]; exists []; split_and!; [done..|constructor|by intros ? ?%elem_of_nil|done]|].
    intros (spends & Hf%Forall2_nil_inv_l & _ & _ & ->). by subst spends. }
  destruct (IsZerocoinSpend (scriptSig i)); cbn [negb]; [|apply IH]. fold (zerocoin_inputs l). split.
  - intros Hc. passed Hc. rename r0 into s. passed Hc. destruct r0. apply check_spend_passed in E0 as [Hv Hin]; [|done].
    apply IH in Hc as (spends & Hf & Hnd & Hs & ->). exists (s :: spends). split_and!.
    + by constructor.
    + cbn. constructor; [|done]. intros (s' & Es & Hs')%list_elem_of_fmap. apply (Hs s' Hs'). rewrite <-Es. left.
    + intros s' [->|Hs']%elem_of_cons; [done|]. intros Hx. apply (Hs s' Hs'). by right.
    + cbn [foldl]. by destruct spends.
  - intros (spends & Hf & Hnd & Hs & ->). destruct spends as [|s spends]; [by inversion Hf|]. apply Forall2_cons in Hf as [Hv Hf].
    rewrite (vs_read _ _ _ _ Hv). cbn [mbind outcome_bind]. apply NoDup_cons in Hnd as [Hn Hnd].
    assert (check_spend p db fVerifySignature (hashTxOut_of tx) i s serials = Passed tt) as ->
      by (apply check_spend_passed; [apply Hv|]; split; [done|]; apply Hs; left).
    cbn [mbind outcome_bind]. apply IH. exists spends. split_and!; [done..| |].
    + intros s' Hs' [E|Hx]%elem_of_cons; [|by apply (Hs s'); [right|]]. apply Hn, list_elem_of_fmap. by exists s'.
    + cbn [foldl]. by destruct spends.
Qed.

Lemma amount_bounds spend : 0 ≤ amount_of spend ≤ 5000 * COIN.
Proof. unfold amount_of. by destruct (denomination spend); vm_compute. Qed.
Lemma sum_amounts_fold l : ∀ n, 0 ≤ n → n + 5000 * COIN * Z.of_nat (length l) < 2 ^ 63 → foldl (λ n s, s64 (n + amount_of s)) n l = n + sum_amounts l.
Proof.
  induction l as [|s l IH]; intros n Hn Hb; cbn [foldl sum_amounts foldr]; [lia|]. cbn [length] in Hb. pose proof (amount_bounds s) as Ha.
  change COIN with 100000000 in *. rewrite swrap_small by (done || (unfold sfits; lia)). rewrite IH by lia. unfold sum_amounts. lia.
Qed.

Definition plain_outputs (tx : CMutableTransaction) : nat := length (List.filter (λ o, negb (CTxOut_IsZerocoinMint o)) (vout tx)).
Lemma plain_outputs_le tx : (plain_outputs tx ≤ length (vout tx))%nat.
Proof. apply filter_length_le. Qed.

End spend.

(** C9: Of the transactions with at most a million inputs, [CheckZerocoinSpend] passes
    exactly those that redeem coins properly: every zerocoin input holds a spend of the denomination its [nSequence] names, made
    for the outputs of this transaction, which verifies against an accumulator the
    database knows (if signatures are checked); the serial numbers are distinct; there is
    a spend; and unless the transaction is a coinstake, it has at most two outputs that
    mint nothing and pays out at most what the spends redeem. *)
Theorem CheckZerocoinSpend_exact (p : ZerocoinParams) `{HashFunctions} `{Gmp} `{Moduli} `{Secp256k1} db fVerifySignature tx :
  Z.of_nat (length (vin tx)) ≤ 1000000 →
  CheckZerocoinSpend p db fVerifySignature tx = Passed tt ↔
  (IsCoinStake tx = false → (plain_outputs tx ≤ 2)%nat) ∧
  ∃ spends, spends ≠ [] ∧ Forall2 (valid_spend p db fVerifySignature tx) (zerocoin_inputs (vin tx)) spends ∧
    NoDup (map coinSerialNumber spends) ∧
    (IsCoinStake tx = false → ∃ out, GetValueOut tx = Some out ∧ out ≤ sum_amounts spends).
Proof.
  intros Hlen. unfold CheckZerocoinSpend. fold (plain_outputs tx). pose proof (plain_outputs_le tx) as Hpl.
  assert (∀ spends, Forall2 (valid_spend p db fVerifySignature tx) (zerocoin_inputs (vin tx)) spends →
    foldl (λ n s, s64 (n + amount_of s)) 0 spends = sum_amounts spends) as Hsum.
  { intros spends Hf%Forall2_length. assert (length (zerocoin_inputs (vin tx)) ≤ length (vin tx))%nat as Hle by apply filter_length_le.
    rewrite sum_amounts_fold; [done|done|]. change COIN with 100000000. lia. }
  split.
  - destruct (_ && _) eqn:Ho; [done|]. intros Hc. passed Hc. destruct r as [total validated].
    apply check_spends_passed in E as (spends & Hf & Hnd & _ & [= -> ->]). rewrite (Hsum _ Hf) in Hc. passed Hc. destruct r; [done|].
    split; [intros Hs; rewrite Hs in Ho; cbn [negb] in Ho; lia|]. exists spends. split_and!; [|done..|].
    + intros ->. done.
    + intros Hs. rewrite Hs in E. cbn [negb] in E. passed E. destruct (GetValueOut tx) as [out|]; [|done]. exists out. split; [done|].
      injection E0 as <-. injection E as E. lia.
  - intros (Hout & spends & Hne & Hf & Hnd & Hval).
    replace ((2 <? length (vout tx))%nat && ((2 <? plain_outputs tx)%nat && negb (IsCoinStake tx))) with false
      by (destruct (IsCoinStake tx); [by rewrite andb_false_r, andb_false_r|specialize (Hout eq_refl); lia]).
    assert (check_spends p db fVerifySignature (hashTxOut_of tx) [] 0 false (vin tx) = Passed (sum_amounts spends, true)) as ->.
    { apply check_spends_passed. exists spends. split_and!; [done..|by intros s _ ?%elem_of_nil|]. rewrite (Hsum _ Hf). by destruct spends. }
    cbn [mbind outcome_bind]. destruct (IsCoinStake tx); cbn [negb]; [done|]. destruct Hval as (out & -> & Hle); [done|].
    cbn [defined mbind outcome_bind]. destruct (Z.ltb_spec (sum_amounts spends) out); [lia|done].
Qed.

(** * The supply of the denominations *)

Definition full (m : gmap CoinDenomination Z) (f : CoinDenomination → Z) : Prop := ∀ d, d ≠ ZQ_ERROR → m !! d = Some (f d).
Definition enough (f : CoinDenomination → Z) (spends : list CoinDenomination) : bool :=
  forallb (λ d, count_denom d spends <=? f d) zerocoinDenomList.

Lemma enough_spec f l : ZQ_ERROR ∉ l → enough f l = true ↔ ∀ d, d ≠ ZQ_ERROR → count_denom d l ≤ f d.
Proof.
  intros Hl. unfold enough. rewrite forallb_forall. split.
  - intros Hall d Hd. specialize (Hall d). rewrite <-list_elem_of_In in Hall. by apply Z.leb_le, Hall, zerocoinDenomList_spec.
  - intros Hall d Hin%list_elem_of_In. by apply Z.leb_le, Hall, zerocoinDenomList_spec.
Qed.
Lemma count_denom_cons d x l : count_denom d (x :: l) = (if decide (x = d) then 1 else 0) + count_denom d l.
Proof. unfold count_denom. rewrite filter_cons. case_decide; cbn; lia. Qed.
Lemma count_denom_nonneg d l : 0 ≤ count_denom d l.
Proof. unfold count_denom. lia. Qed.

Lemma supply_add_spec m f d n : full m f → d ≠ ZQ_ERROR → sfits 64 (f d + n) →
  ∃ m', supply_add m d n = Passed m' ∧ full m' (λ x, if decide (d = x) then f x + n else f x).
Proof.
  intros Hm Hd Hs. unfold supply_add. rewrite (Hm d Hd). cbn [defined mbind outcome_bind]. eexists. split; [done|]. intros x Hx.
  case_decide as Hdx; [subst x; by rewrite lookup_insert_eq, swrap_small|]. rewrite lookup_insert_ne by done. by apply Hm.
Qed.

Lemma supply_mints_spec l : ∀ m f, full m f → ZQ_ERROR ∉ l → (∀ d, 0 ≤ f d ∧ f d + Z.of_nat (length l) < 2 ^ 63) →
  ∃ m', supply_mints m l = Passed m' ∧ full m' (λ d, f d + count_denom d l).
Proof.
  induction l as [|x l IH]; intros m f Hm Hl Hf; cbn [supply_mints].
  { exists m. split; [done|]. intros d Hd. rewrite (Hm d Hd). f_equal. unfold count_denom. cbn. lia. }
  apply not_elem_of_cons in Hl as [Hx Hl]. destruct (supply_add_spec m f x 1 Hm) as (m1 & -> & Hm1); [done|unfold sfits; specialize (Hf x); cbn [length] in Hf; lia|].
  cbn [mbind outcome_bind]. destruct (IH m1 _ Hm1 Hl) as (m' & -> & Hm'); [intros d; specialize (Hf d); cbn [length] in Hf; case_decide; lia|].
  exists m'. split; [done|]. intros d Hd. rewrite (Hm' d Hd), count_denom_cons. f_equal. repeat case_decide; lia.
Qed.

Lemma supply_spends_spec l : ∀ m f, full m f → ZQ_ERROR ∉ l → (∀ d, 0 ≤ f d < 2 ^ 63) →
  ∃ m', supply_spends m l = Passed (enough f l, m') ∧ (enough f l = true → full m' (λ d, f d - count_denom d l)).
Proof.
  induction l as [|x l IH]; intros m f Hm Hl Hf; cbn [supply_spends].
  { assert (enough f [] = true) as -> by (apply enough_spec; [by intros ?%elem_of_nil|]; intros d _; apply Hf). exists m. split; [done|]. intros _ d Hd. rewrite (Hm d Hd). f_equal. unfold count_denom. cbn. lia. }
  pose proof Hl as Hl0. apply not_elem_of_cons in Hl as [Hx Hl]. destruct (supply_add_spec m f x (-1) Hm) as (m1 & -> & Hm1); [done|unfold sfits; specialize (Hf x); lia|].
  cbn [mbind outcome_bind]. rewrite (Hm1 x) by done. rewrite decide_True by done. cbn [defined mbind outcome_bind]. destruct (Z.ltb_spec (f x + -1) 0) as [Hlt|Hge].
  - assert (enough f (x :: l) = false) as ->; [|by exists m1]. destruct (enough f (x :: l)) eqn:E; [|done]. exfalso. rewrite enough_spec in E by done.
    specialize (E x ltac:(done)). rewrite count_denom_cons, decide_True in E by done. pose proof (count_denom_nonneg x l). lia.
  - destruct (IH m1 _ Hm1 Hl) as (m' & -> & Hm'); [intros d; specialize (Hf d); case_decide as Hxd; [subst d|]; lia|].
    set (f1 := λ d, if decide (x = d) then f d + -1 else f d) in *.
    assert (enough f1 l = enough f (x :: l)) as Ee.
    { apply eq_true_iff_eq. rewrite !enough_spec by done. unfold f1. split; intros Ha d Hd; specialize (Ha d Hd); rewrite count_denom_cons in *; case_decide; lia. }
    rewrite Ee in *. exists m'. split; [done|]. intros E d Hd. rewrite (Hm' E d Hd), count_denom_cons. f_equal. case_decide; lia.
Qed.

(** The supply that a block starts from. *)
Definition supply_before (version : Z) (prevSupply own : CoinDenomination → Z) : CoinDenomination → Z := if 1 <? version then prevSupply else own.

Lemma copy_supply_spec m prev f g : full m f → full prev g →
  ∃ m', foldl (λ acc d, supply ← acc; k ← defined (prev !! d); _ ← defined (supply !! d); Passed (<[d := k]> supply)) (Passed m) zerocoinDenomList = Passed m' ∧ full m' g.
Proof.
  intros Hm Hp. assert (∀ l m f, full m f → ZQ_ERROR ∉ l →
    ∃ m', foldl (λ acc d, supply ← acc; k ← defined (prev !! d); _ ← defined (supply !! d); Passed (<[d := k]> supply)) (Passed m) l = Passed m' ∧
          full m' (λ d, if decide (d ∈ l) then g d else f d)) as Hloop.
  { clear m f Hm. induction l as [|x l IH]; intros m f Hm Hl; cbn [foldl].
    { exists m. split; [done|]. intros d Hd. rewrite decide_False by (by intros ?%elem_of_nil). by apply Hm. }
    apply not_elem_of_cons in Hl as [Hx Hl]. cbn [mbind outcome_bind]. rewrite (Hp x), (Hm x) by done. cbn [defined mbind outcome_bind].
    destruct (IH (<[x := g x]> m) (λ d, if decide (x = d) then g d else f d)) as (m' & -> & Hm'); [|done|].
    { intros d Hd. case_decide as Hxd; [subst d; by rewrite lookup_insert_eq|]. rewrite lookup_insert_ne by done. by apply Hm. }
    exists m'. split; [done|]. intros d Hd. rewrite (Hm' d Hd). f_equal. destruct (decide (d ∈ l)) as [Hin|Hin]; [by rewrite decide_True by (by right)|].
    destruct (decide (x = d)) as [->|Hxd]; [by rewrite decide_True by left|]. by rewrite decide_False by (by intros [?|?]%elem_of_cons). }
  destruct (Hloop zerocoinDenomList m f Hm) as (m' & -> & Hm').
  { intros Hin%zerocoinDenomList_spec. by apply Hin. }
  exists m'. split; [done|]. intros d Hd. rewrite (Hm' d Hd). by rewrite decide_True by (by apply zerocoinDenomList_spec).
Qed.

(** C20: The supply that the block index tracks is exact.  Starting from the supply of the
    previous block if the header version of that block is above 1, and otherwise from
    the fields of the new entry, [UpdateZKPSupply] adds one for each coin that the block
    mints and takes one for each it spends, and it accepts the block exactly if no
    denomination is spent more often than there are coins.  Blocks are made with version
    1 and the fields of a new entry are zero, so such a block can only spend as many
    coins of a denomination as it mints itself. *)
Theorem UpdateZKPSupply_exact `{HashFunctions} version prevSupply supply prevf own b okm mints spends :
  let start := supply_before version prevf own in
  full prevSupply prevf → full supply own → (∀ d, 0 ≤ start d ∧ start d + Z.of_nat (length mints) < 2 ^ 63) →
  BlockToZerocoinMintList b = Passed (okm, mints) → ZerocoinSpendListFromBlock b = Passed spends →
  ZQ_ERROR ∉ spends → ZQ_ERROR ∉ map (λ m, pc_denomination m.1) mints →
  let total d := start d + count_denom d (map (λ m, pc_denomination m.1) mints) in
  ∃ supply', UpdateZKPSupply (Some (version, prevSupply)) supply b = Passed (enough total spends, supply', map (λ m, pc_denomination m.1) mints) ∧
    (enough total spends = true → full supply' (λ d, total d - count_denom d spends)).
Proof.
  intros start Hp Hs Hb Em Es Hsp Hmi total. unfold UpdateZKPSupply. rewrite Em, Es. cbn [mbind outcome_bind].
  assert (∃ m0, (if 1 <? version
                 then foldl (λ acc d, supply ← acc; k ← defined (prevSupply !! d); _ ← defined (supply !! d); Passed (<[d := k]> supply)) (Passed supply) zerocoinDenomList
                 else Passed supply) = Passed m0 ∧ full m0 start) as (m0 & -> & Hm0).
  { unfold start, supply_before. destruct (1 <? version); [by eapply copy_supply_spec|by exists supply]. }
  cbn [mbind outcome_bind]. destruct (supply_mints_spec (map (λ m, pc_denomination m.1) mints) m0 start Hm0 Hmi) as (m1 & -> & Hm1).
  { intros d. rewrite length_map. apply Hb. }
  cbn [mbind outcome_bind]. destruct (supply_spends_spec spends m1 total Hm1 Hsp) as (m2 & -> & Hm2).
  { intros d. specialize (Hb d). unfold total, count_denom. pose proof (length_filter (λ x, x = d) (map (λ m, pc_denomination m.1) mints)) as Hle. rewrite length_map in Hle. lia. }
  exists m2. done.
Qed.

(** * Examples *)

#[local] Existing Instance small_gmp.
#[local] Existing Instance small_hashes.
#[local] Existing Instance small_moduli.
#[local] Existing Instance small_secp.

Definition zeros : gmap CoinDenomination Z := list_to_map (map (λ d, (d, 0)) zerocoinDenomList).
Definition tens : gmap CoinDenomination Z := list_to_map (map (λ d, (d, 10)) zerocoinDenomList).
Definition spend_block : CBlock :=
  Block (BlockHeader 1 uint256_null uint256_null 0 0 0 uint256_null) [MTx 1 [TxIn (OutPoint uint256_null 0) [OP_ZEROCOINSPEND] 5 []] [] 0] [].

(** The previous block counts ten coins; a block that spends one is rejected. *)
Lemma UpdateZKPSupply_exact_witness : ∃ supply', UpdateZKPSupply (Some (1, tens)) zeros spend_block = Passed (false, supply', []).
Proof.
  destruct (UpdateZKPSupply_exact 1 tens zeros (λ _, 10) (λ _, 0) spend_block true [] [ZQ_FIVE]) as (supply' & E & _).
  - intros []; done.
  - intros []; done.
  - intros d. vm_compute. split; [discriminate|reflexivity].
  - vm_compute. reflexivity.
  - vm_compute. reflexivity.
  - intros Hin%list_elem_of_singleton. discriminate Hin.
  - by intros ?%elem_of_nil.
  - exists supply'. exact E.
Defined.

(** A transaction that redeems a coin of five. *)
Definition redeem_outputs : list CTxOut := [TxOut (5 * COIN) [OP_RETURN] 0].
Definition redeem_spend : list Z :=
  match CoinSpend_new (randBignum_to buffer_data) small_bytes 2 small_params small_coin small_accumulator 1 small_witness (hashTxOut_of (MTx 1 [] redeem_outputs 0)) 0 0 (MkPubKey []) (λ _, Some []) with
  | Some spend => Serialize_CoinSpend spend
  | None => []
  end.
Definition redeem_tx : CMutableTransaction :=
  MTx 1 [TxIn (OutPoint uint256_null 0) (OP_ZEROCOINSPEND :: replicate 3 0 ++ redeem_spend) 5 []] redeem_outputs 0.
Lemma CheckZerocoinSpend_exact_witness :
  let db := ZerocoinDB ∅ ∅ {[1 := acc_value small_accumulator]} in
  CheckZerocoinSpend small_params db true redeem_tx = Passed tt ∧ ∃ spends, Forall2 (valid_spend small_params db true redeem_tx) (vin redeem_tx) spends ∧ 5 * COIN ≤ sum_amounts spends.
Proof.
  intros db. assert (CheckZerocoinSpend small_params db true redeem_tx = Passed tt) as Hc by (vm_compute; reflexivity). split; [exact Hc|].
  apply (CheckZerocoinSpend_exact small_params db true redeem_tx) in Hc as (_ & spends & _ & Hf & _ & Hout); [|vm_compute; discriminate].
  exists spends. split; [exact Hf|]. destruct Hout as (out & [= <-] & Hle); [reflexivity|exact Hle].
Defined.
