(* ===== verification/MemPool.v ===== *)
(** txmempool.h, txmempool.cpp: the memory pool.

    A [CInPoint] points to the transaction inside an entry of [mapTx]; the pointer is
    the key of that entry, and reading through it when the entry is gone is undefined
    ([None]).  Priorities are doubles: they are a parameter with its operations, and
    the fee estimator, which nothing reads but the estimates, is not modelled. *)

From stdpp Require Import sorting.
From S2P Require Import Prelude ChainParams Script Serialize Interpreter Transaction Coins CoinsView Validation.
Local Open Scope Z_scope.

#[export] Instance COutPoint_countable : Countable COutPoint.
Proof. apply (inj_countable' (λ o, (op_hash o, op_n o)) (λ '(h, n), OutPoint h n)). by intros []. Defined.

(** The operations on [double] that the pool uses. *)
Class Doubles := {
  double : Type;
  d_zero : double;
  d_add : double → double → double;
  d_positive : double → bool;
}.

Definition MEMPOOL_HEIGHT : Z := 0x7FFFFFFF.

Record CTxMemPoolEntry := PoolEntry {
  pool_tx : CMutableTransaction;
  nFee : Z;
  nTxSize : Z;
  nModSize : Z;
  pool_nTime : Z;
  pool_nHeight : Z;
}.
(** [CTxMemPoolEntry(tx, nFee, nTime, dPriority, nHeight)] *)
Definition PoolEntry_of (tx : CMutableTransaction) (nFee nTime nHeight : Z) : CTxMemPoolEntry :=
  let nTxSize := size (Serialize_tx tx) in
  PoolEntry tx nFee nTxSize (CalculateModifiedSize tx nTxSize) nTime nHeight.

Record CInPoint := InPoint { ptx : uint256; in_n : Z }.

Record CTxMemPool `{Doubles} := MemPool {
  nTransactionsUpdated : Z;
  totalTxSize : Z;
  mapTx : gmap uint256 CTxMemPoolEntry;
  mapNextTx : gmap COutPoint CInPoint;
  mapDeltas : gmap uint256 (double * Z);
}.

Section pool.
Context `{HashFunctions} `{Doubles}.

(** The global pool before its first transaction. *)
Definition MemPool_empty : CTxMemPool := MemPool _ 0 0 ∅ ∅ ∅.

Definition AddTransactionsUpdated (pool : CTxMemPool) (n : Z) : CTxMemPool :=
  MemPool _ (u32 (nTransactionsUpdated pool + n)) (totalTxSize pool) (mapTx pool) (mapNextTx pool) (mapDeltas pool).

(** [for (i...) mapNextTx[tx.vin[i].prevout] = CInPoint(&tx, i)] *)
Fixpoint mark_inputs (m : gmap COutPoint CInPoint) (hash : uint256) (i : Z) (l : list CTxIn) : gmap COutPoint CInPoint :=
  match l with
  | [] => m
  | txin :: l => mark_inputs (<[prevout txin := InPoint hash i]> m) hash (u32 (i + 1)) l
  end.
Definition addUnchecked (pool : CTxMemPool) (hash : uint256) (entry : CTxMemPoolEntry) : option CTxMemPool :=
  zs ← tx_IsZerocoinSpend (pool_tx entry);
  Some (MemPool _ (u32 (nTransactionsUpdated pool + 1)) (u64 (totalTxSize pool + nTxSize entry))
          (<[hash := entry]> (mapTx pool))
          (if (zs : bool) then mapNextTx pool else mark_inputs (mapNextTx pool) hash 0 (vin (pool_tx entry)))
          (mapDeltas pool)).

(** The transactions that spend outputs [i], … of [hash], [n] of them: what the loops of
    [remove] push to the queue. *)
Fixpoint spenders (pool : CTxMemPool) (hash : uint256) (i : Z) (n : nat) : option (list uint256) :=
  match n with
  | O => Some []
  | S n =>
      rest ← spenders pool hash (u32 (i + 1)) n;
      match mapNextTx pool !! OutPoint hash i with
      | None => Some rest
      | Some it => e ← mapTx pool !! ptx it; Some (tx_GetHash (pool_tx e) :: rest)
      end
  end.

(** The removal of one entry. *)
Definition erase_entry (pool : CTxMemPool) (hash : uint256) (e : CTxMemPoolEntry) : CTxMemPool :=
  MemPool _ (u32 (nTransactionsUpdated pool + 1)) (u64 (totalTxSize pool - nTxSize e)) (delete hash (mapTx pool))
    (foldl (λ m txin, delete (prevout txin) m) (mapNextTx pool) (vin (pool_tx e))) (mapDeltas pool).

(** The loop over [txToRemove]; the second result is [removed]. *)
Fixpoint remove_loop (fuel : nat) (fRecursive : bool) (pool : CTxMemPool) (txToRemove : list uint256) (removed : list CMutableTransaction) :
    option (CTxMemPool * list CMutableTransaction) :=
  match txToRemove with
  | [] => Some (pool, removed)
  | hash :: txToRemove =>
      match fuel with
      | O => None
      | S fuel =>
          match mapTx pool !! hash with
          | None => remove_loop fuel fRecursive pool txToRemove removed
          | Some e =>
              children ← (if fRecursive then spenders pool hash 0 (length (vout (pool_tx e))) else Some []);
              remove_loop fuel fRecursive (erase_entry pool hash e) (txToRemove ++ children) (removed ++ [pool_tx e])
          end
      end
  end.
(** Every turn of the loop removes an element of the queue, or an entry that pushes at
    most one element for each of its outputs. *)
Definition entry_weight (e : CTxMemPoolEntry) : nat := S (length (vout (pool_tx e))).
Definition pool_weight (m : gmap uint256 CTxMemPoolEntry) : nat := map_fold (λ _ e n, (entry_weight e + n)%nat) 0%nat m.

Definition remove (pool : CTxMemPool) (origTx : CMutableTransaction) (removed : list CMutableTransaction) (fRecursive : bool) :
    option (CTxMemPool * list CMutableTransaction) :=
  let hash := tx_GetHash origTx in
  children ← (if fRecursive && negb (bool_decide (is_Some (mapTx pool !! hash)))
              then spenders pool hash 0 (length (vout origTx)) else Some []);
  let txToRemove := hash :: children in
  remove_loop (length txToRemove + pool_weight (mapTx pool)) fRecursive pool txToRemove removed.

(** The entries in the order of the map. *)
Definition pool_entries (m : gmap uint256 CTxMemPoolEntry) : list (uint256 * CTxMemPoolEntry) :=
  merge_sort (λ x y, Is_true (byte_le x.1 y.1)) (map_to_list m).

(** Whether an input spends a generated coin that is not mature, or a coin that is not
    there; [pcoins] fills its cache.  [Params().COINBASE_MATURITY()] is [nMaturity]. *)
Fixpoint immature_inputs (Params : CChainParams) (fSanityCheck : bool) (pool : CTxMemPool) (nMemPoolHeight : Z) (pcoins : CCoinsView)
    (l : list CTxIn) : option (bool * CCoinsView) :=
  match l with
  | [] => Some (false, pcoins)
  | txin :: l =>
      match mapTx pool !! op_hash (prevout txin) with
      | Some _ => immature_inputs Params fSanityCheck pool nMemPoolHeight pcoins l
      | None =>
          let '(coins, pcoins) := GetCoins pcoins (op_hash (prevout txin)) in
          match coins with
          | None => if fSanityCheck then None else Some (true, pcoins)
          | Some c =>
              if (fCoinBase c || fCoinStake c) && (u32 (nMemPoolHeight - coins_nHeight c) <? nMaturity Params)
              then Some (true, pcoins)
              else immature_inputs Params fSanityCheck pool nMemPoolHeight pcoins l
          end
      end
  end.
Fixpoint collect_immature (Params : CChainParams) (fSanityCheck : bool) (pool : CTxMemPool) (nMemPoolHeight : Z) (pcoins : CCoinsView)
    (l : list (uint256 * CTxMemPoolEntry)) : option (list CMutableTransaction * CCoinsView) :=
  match l with
  | [] => Some ([], pcoins)
  | (_, e) :: l =>
      '(immature, pcoins) ← immature_inputs Params fSanityCheck pool nMemPoolHeight pcoins (vin (pool_tx e));
      '(rest, pcoins) ← collect_immature Params fSanityCheck pool nMemPoolHeight pcoins l;
      Some (if (immature : bool) then pool_tx e :: rest else rest, pcoins)
  end.
Fixpoint remove_all (pool : CTxMemPool) (l : list CMutableTransaction) : option CTxMemPool :=
  match l with
  | [] => Some pool
  | tx :: l => '(pool, _) ← remove pool tx [] true; remove_all pool l
  end.
Definition removeCoinbaseSpends (Params : CChainParams) (fSanityCheck : bool) (pool : CTxMemPool) (pcoins : CCoinsView) (nMemPoolHeight : Z) :
    option (CTxMemPool * CCoinsView) :=
  '(transactionsToRemove, pcoins) ← collect_immature Params fSanityCheck pool nMemPoolHeight pcoins (pool_entries (mapTx pool));
  pool ← remove_all pool transactionsToRemove;
  Some (pool, pcoins).

(** The loop of [removeConflicts] over the inputs. *)
Fixpoint remove_conflicts (pool : CTxMemPool) (tx : CMutableTransaction) (removed : list CMutableTransaction) (l : list CTxIn) :
    option (CTxMemPool * list CMutableTransaction) :=
  match l with
  | [] => Some (pool, removed)
  | txin :: l =>
      match mapNextTx pool !! prevout txin with
      | None => remove_conflicts pool tx removed l
      | Some it =>
          e ← mapTx pool !! ptx it;
          if bool_decide (tx_GetHash (pool_tx e) = tx_GetHash tx) then remove_conflicts pool tx removed l
          else '(pool, removed) ← remove pool (pool_tx e) removed true; remove_conflicts pool tx removed l
      end
  end.
Definition removeConflicts (pool : CTxMemPool) (tx : CMutableTransaction) (removed : list CMutableTransaction) :
    option (CTxMemPool * list CMutableTransaction) := remove_conflicts pool tx removed (vin tx).

Definition ClearPrioritisation (pool : CTxMemPool) (hash : uint256) : CTxMemPool :=
  MemPool _ (nTransactionsUpdated pool) (totalTxSize pool) (mapTx pool) (mapNextTx pool) (delete hash (mapDeltas pool)).

Fixpoint removeForBlock (pool : CTxMemPool) (conflicts : list CMutableTransaction) (vtx : list CMutableTransaction) :
    option (CTxMemPool * list CMutableTransaction) :=
  match vtx with
  | [] => Some (pool, conflicts)
  | tx :: vtx =>
      '(pool, _) ← remove pool tx [] false;
      '(pool, conflicts) ← removeConflicts pool tx conflicts;
      removeForBlock (ClearPrioritisation pool (tx_GetHash tx)) conflicts vtx
  end.

Definition clear (pool : CTxMemPool) : CTxMemPool :=
  MemPool _ (u32 (nTransactionsUpdated pool + 1)) 0 ∅ ∅ (mapDeltas pool).

(** [pruneSpent]: the outputs of the transaction that the pool spends, in ascending order. *)
Definition pruneSpent (pool : CTxMemPool) (hashTx : uint256) (coins : CCoins) : CCoins :=
  foldl (λ c n, match Spend c n with Some (_, c) => c | None => c end) coins
    (merge_sort Z.le (map op_n (filter (λ o, op_hash o = hashTx) (map fst (map_to_list (mapNextTx pool)))))).

Definition queryHashes (pool : CTxMemPool) : list uint256 := map fst (pool_entries (mapTx pool)).
Definition pool_lookup (pool : CTxMemPool) (hash : uint256) : option CMutableTransaction := pool_tx <$> mapTx pool !! hash.

(** [PrioritiseTransaction]: [mapDeltas[hash]] starts from zero. *)
Definition PrioritiseTransaction (pool : CTxMemPool) (hash : uint256) (dPriorityDelta : double) (nFeeDelta : Z) : CTxMemPool :=
  let '(d, f) := default (d_zero, 0) (mapDeltas pool !! hash) in
  MemPool _ (nTransactionsUpdated pool) (totalTxSize pool) (mapTx pool) (mapNextTx pool)
    (<[hash := (d_add d dPriorityDelta, s64 (f + nFeeDelta))]> (mapDeltas pool)).
Definition ApplyDeltas (pool : CTxMemPool) (hash : uint256) (dPriorityDelta : double) (nFeeDelta : Z) : double * Z :=
  match mapDeltas pool !! hash with
  | None => (dPriorityDelta, nFeeDelta)
  | Some (d, f) => (d_add dPriorityDelta d, s64 (nFeeDelta + f))
  end.

(** [CCoinsViewMemPool::GetCoins] and [HaveCoins]. *)
Definition CCoinsViewMemPool_GetCoins (pool : CTxMemPool) (base : CCoinsView) (txid : uint256) : option (option CCoins * CCoinsView) :=
  match pool_lookup pool txid with
  | Some tx => coins ← FromTx tx MEMPOOL_HEIGHT; Some (Some coins, base)
  | None =>
      let '(coins, base) := GetCoins base txid in
      Some (match coins with Some c => if IsPruned c then None else Some c | None => None end, base)
  end.
Definition CCoinsViewMemPool_HaveCoins (pool : CTxMemPool) (base : CCoinsView) (txid : uint256) : bool * CCoinsView :=
  if bool_decide (is_Some (mapTx pool !! txid)) then (true, base) else HaveCoins base txid.

End pool.
