(* ===== verification/MemPoolFacts.v ===== *)
(** The invariant of the memory pool and what its operations do to it. *)

From S2P Require Import Prelude CryptoCommon ChainParams Script Serialize Interpreter Transaction Coins CoinsView Validation MemPool.
Local Open Scope Z_scope.

Section pool.
Context `{HF : HashFunctions} `{HD : Doubles}.
Implicit Types pool : CTxMemPool.

Definition pool_size (m : gmap uint256 CTxMemPoolEntry) : Z := map_fold (λ _ e n, nTxSize e + n) 0 m.

(** [mapNextTx] holds exactly the inputs of the transactions that are not zerocoin spends,
    and the inputs of zerocoin spends name no transaction. *)
Record pool_ok pool : Prop := {
  po_key h e : mapTx pool !! h = Some e → tx_GetHash (pool_tx e) = h;
  po_kind h e : mapTx pool !! h = Some e → is_Some (tx_IsZerocoinSpend (pool_tx e));
  po_next o ip : mapNextTx pool !! o = Some ip →
    ∃ e k i, mapTx pool !! ptx ip = Some e ∧ tx_IsZerocoinSpend (pool_tx e) = Some false ∧ vin (pool_tx e) !! k = Some i ∧ prevout i = o ∧ in_n ip = u32 (Z.of_nat k);
  po_mark h e k i : mapTx pool !! h = Some e → tx_IsZerocoinSpend (pool_tx e) = Some false → vin (pool_tx e) !! k = Some i →
    mapNextTx pool !! prevout i = Some (InPoint h (u32 (Z.of_nat k)));
  po_null h e i : mapTx pool !! h = Some e → tx_IsZerocoinSpend (pool_tx e) = Some true → i ∈ vin (pool_tx e) → op_hash (prevout i) = uint256_null;
  po_nonnull h e i : mapTx pool !! h = Some e → tx_IsZerocoinSpend (pool_tx e) = Some false → i ∈ vin (pool_tx e) → op_hash (prevout i) ≠ uint256_null;
  po_total : totalTxSize pool = u64 (pool_size (mapTx pool));
}.

(** No two transactions spend the same output. *)
Lemma pool_ok_spender pool h h' e e' i i' : pool_ok pool → mapTx pool !! h = Some e → mapTx pool !! h' = Some e' →
  tx_IsZerocoinSpend (pool_tx e) = Some false → i ∈ vin (pool_tx e) → i' ∈ vin (pool_tx e') → prevout i = prevout i' → h = h'.
Proof.
  intros Hok He He' Hz [k Hk]%list_elem_of_lookup Hi' E. pose proof (po_mark _ Hok _ _ _ _ He Hz Hk) as Hm.
  destruct (po_kind _ Hok _ _ He') as [[] Hz'].
  - exfalso. apply (po_nonnull _ Hok _ _ _ He Hz (list_elem_of_lookup_2 _ _ _ Hk)). rewrite E. by eapply po_null.
  - apply list_elem_of_lookup in Hi' as [k' Hk']. pose proof (po_mark _ Hok _ _ _ _ He' Hz' Hk') as Hm'. rewrite <-E in Hm'. congruence.
Qed.

(** ** Sums over a map *)

Lemma pool_size_delete m h e : m !! h = Some e → pool_size m = nTxSize e + pool_size (delete h m).
Proof. intros He. unfold pool_size. rewrite (map_fold_delete_L _ _ h e m); [done|intros; lia|done]. Qed.
Lemma pool_size_insert m h e : m !! h = None → pool_size (<[h := e]> m) = nTxSize e + pool_size m.
Proof. intros He. unfold pool_size. rewrite map_fold_insert_L; [done|intros; lia|done]. Qed.
Lemma pool_weight_delete m h e : m !! h = Some e → pool_weight m = (entry_weight e + pool_weight (delete h m))%nat.
Proof. intros He. unfold pool_weight. rewrite (map_fold_delete_L _ _ h e m); [done|intros; lia|done]. Qed.

(** ** Marks *)

Lemma delete_inputs_lookup l : ∀ (m : gmap COutPoint CInPoint) o,
  foldl (λ m txin, delete (prevout txin) m) m l !! o = if decide (o ∈ map prevout l) then None else m !! o.
Proof.
  induction l as [|i l IH]; intros m o; cbn [foldl map]; [done|]. rewrite IH. destruct (decide (o ∈ map prevout l)) as [Hin|Hin].
  - by rewrite decide_True by (by right).
  - destruct (decide (o = prevout i)) as [->|Hne]; [by rewrite lookup_delete_eq, decide_True by left|].
    rewrite lookup_delete_ne by done. by rewrite decide_False by (by intros [?|?]%elem_of_cons).
Qed.

Lemma mark_inputs_lookup l : ∀ (m : gmap COutPoint CInPoint) h j o, NoDup (map prevout l) →
  mark_inputs m h (u32 (Z.of_nat j)) l !! o =
    match list_find (λ i, prevout i = o) l with Some (k, _) => Some (InPoint h (u32 (Z.of_nat (j + k)))) | None => m !! o end.
Proof.
  induction l as [|i l IH]; intros m h j o Hnd; cbn [mark_inputs map] in *; [done|]. apply NoDup_cons in Hnd as [Hn Hnd].
  replace (u32 (u32 (Z.of_nat j) + 1)) with (u32 (Z.of_nat (S j))) by (rewrite wrap_add_l; f_equal; lia). rewrite IH by done. cbn [list_find].
  destruct (decide (prevout i = o)) as [Ho|Hne].
  - replace (list_find (λ i0, prevout i0 = o) l) with (@None (nat * CTxIn)).
    + rewrite Ho, lookup_insert_eq. do 3 f_equal. lia.
    + symmetry. apply list_find_None, Forall_forall. intros x Hx E. apply Hn, list_elem_of_fmap. exists x. split; [congruence|done].
  - destruct (list_find _ l) as [[k x]|] eqn:E; cbn; [do 3 f_equal; lia|]. by rewrite lookup_insert_ne.
Qed.

(** ** Adding *)

(** What [AcceptToMemoryPool] has established before the call. *)
Record can_add pool (hash : uint256) (e : CTxMemPoolEntry) : Prop := {
  ca_hash : hash = tx_GetHash (pool_tx e);
  ca_fresh : mapTx pool !! hash = None;
  ca_kind : is_Some (tx_IsZerocoinSpend (pool_tx e));
  ca_null i : tx_IsZerocoinSpend (pool_tx e) = Some true → i ∈ vin (pool_tx e) → op_hash (prevout i) = uint256_null;
  ca_inputs i : tx_IsZerocoinSpend (pool_tx e) = Some false → i ∈ vin (pool_tx e) → op_hash (prevout i) ≠ uint256_null ∧ mapNextTx pool !! prevout i = None;
  ca_distinct : tx_IsZerocoinSpend (pool_tx e) = Some false → NoDup (map prevout (vin (pool_tx e)));
}.

Lemma mark_own m h l k i : NoDup (map prevout l) → l !! k = Some i → mark_inputs m h 0 l !! prevout i = Some (InPoint h (u32 (Z.of_nat k))).
Proof.
  intros Hnd Hk. change 0 with (u32 (Z.of_nat 0)). rewrite mark_inputs_lookup by done.
  destruct (list_find _ l) as [[k' i']|] eqn:E; [|exfalso; apply list_find_None in E; rewrite Forall_forall in E; by eapply E; [by eapply list_elem_of_lookup_2|]].
  apply list_find_Some in E as (Hk' & Ei & _). assert (k' = k) as ->; [|done].
  apply (NoDup_lookup (map prevout l) k' k (prevout i)); [done|by rewrite list_lookup_fmap, Hk', <-Ei|by rewrite list_lookup_fmap, Hk].
Qed.
Lemma mark_other m h l o : NoDup (map prevout l) → o ∉ map prevout l → mark_inputs m h 0 l !! o = m !! o.
Proof.
  intros Hnd Ho. change 0 with (u32 (Z.of_nat 0)). rewrite mark_inputs_lookup by done.
  destruct (list_find _ l) as [[k' i']|] eqn:E; [|done]. apply list_find_Some in E as (Hk' & Ei & _). exfalso. apply Ho, list_elem_of_fmap.
  exists i'. split; [done|by eapply list_elem_of_lookup_2].
Qed.

Lemma addUnchecked_ok pool hash e : pool_ok pool → can_add pool hash e → ∃ pool', addUnchecked pool hash e = Some pool' ∧ pool_ok pool' ∧ mapTx pool' = <[hash := e]> (mapTx pool).
Proof.
  intros Hok Hadd. pose proof (ca_fresh _ _ _ Hadd) as Hf. unfold addUnchecked. destruct (ca_kind _ _ _ Hadd) as [zs Hz]. rewrite Hz. cbn [mbind option_bind].
  eexists. split; [done|]. split; [|done].
  assert (∀ h x, <[hash := e]> (mapTx pool) !! h = Some x → (h = hash ∧ x = e) ∨ (h ≠ hash ∧ mapTx pool !! h = Some x)) as Hsplit.
  { intros h x. destruct (decide (h = hash)) as [->|Hne]; [rewrite lookup_insert_eq; intros [= <-]; by left|]. rewrite lookup_insert_ne by done. by right. }
  assert (∀ o, mapNextTx pool !! o ≠ None → (if zs then mapNextTx pool else mark_inputs (mapNextTx pool) hash 0 (vin (pool_tx e))) !! o = mapNextTx pool !! o) as Hkeep.
  { intros o Ho. destruct zs; [done|]. apply mark_other; [by apply (ca_distinct _ _ _ Hadd)|]. intros (i & -> & Hi)%list_elem_of_fmap.
    by apply Ho, (ca_inputs _ _ _ Hadd). }
  split; cbn [mapTx mapNextTx totalTxSize].
  - intros h x [[-> ->]|[_ Hx]]%Hsplit; [symmetry; apply Hadd|by apply (po_key _ Hok)].
  - intros h x [[-> ->]|[_ Hx]]%Hsplit; [by rewrite Hz|by apply (po_kind _ Hok h)].
  - intros o ip Hip. assert (mapNextTx pool !! o = Some ip ∨ (zs = false ∧ ∃ k i, vin (pool_tx e) !! k = Some i ∧ prevout i = o ∧ ip = InPoint hash (u32 (Z.of_nat k)))) as [Ho|(-> & k & i & Hk & Ei & ->)].
    { destruct zs; [by left|]. destruct (decide (o ∈ map prevout (vin (pool_tx e)))) as [(i & -> & [k Hk]%list_elem_of_lookup)%list_elem_of_fmap|Ho].
      - rewrite (mark_own _ _ _ k i) in Hip by (done || by apply (ca_distinct _ _ _ Hadd)). injection Hip as <-. right. split; [done|]. by exists k, i.
      - rewrite mark_other in Hip by (done || by apply (ca_distinct _ _ _ Hadd)). by left. }
    + destruct (po_next _ Hok o ip Ho) as (x & k & i & Hx & ?). exists x, k, i. split; [|done]. rewrite lookup_insert_ne; [done|]. intros ->. congruence.
    + exists e, k, i. cbn [ptx in_n]. by rewrite lookup_insert_eq.
  - intros h x k i [[-> ->]|[Hne Hx]]%Hsplit Hzx Hk.
    + assert (zs = false) as -> by congruence. apply mark_own; [by apply (ca_distinct _ _ _ Hadd)|done].
    + pose proof (po_mark _ Hok _ _ _ _ Hx Hzx Hk) as Hm. rewrite Hkeep; congruence.
  - intros h x i [[-> ->]|[_ Hx]]%Hsplit; [apply (ca_null _ _ _ Hadd)|by apply (po_null _ Hok h)].
  - intros h x i [[-> ->]|[_ Hx]]%Hsplit Hzx Hi; [by apply (ca_inputs _ _ _ Hadd)|by apply (po_nonnull _ Hok h x)].
  - rewrite pool_size_insert, (po_total _ Hok) by done. rewrite wrap_add_l. f_equal. lia.
Qed.

(** ** Erasing *)

Lemma erase_next pool h e o ip : pool_ok pool → mapTx pool !! h = Some e →
  mapNextTx (erase_entry pool h e) !! o = Some ip ↔ mapNextTx pool !! o = Some ip ∧ ptx ip ≠ h.
Proof.
  intros Hok He. cbn [erase_entry mapNextTx]. rewrite delete_inputs_lookup. case_decide as Hin.
  - split; [done|]. intros [Ho Hne]. exfalso. apply list_elem_of_fmap in Hin as (i & -> & Hi).
    destruct (po_next _ Hok _ _ Ho) as (x & k & j & Hx & Hz & Hk & Ej & _). apply Hne.
    exact (pool_ok_spender _ _ _ _ _ j i Hok Hx He Hz (list_elem_of_lookup_2 _ _ _ Hk) Hi Ej).
  - split; [|by intros [? _]]. intros Ho. split; [done|]. intros <-. destruct (po_next _ Hok _ _ Ho) as (x & k & j & Hx & Hz & Hk & Ej & _).
    apply Hin, list_elem_of_fmap. exists j. split; [done|]. assert (x = e) as -> by congruence. by eapply list_elem_of_lookup_2.
Qed.

Lemma erase_entry_ok pool h e : pool_ok pool → mapTx pool !! h = Some e → pool_ok (erase_entry pool h e).
Proof.
  intros Hok He. assert (∀ h' x, mapTx (erase_entry pool h e) !! h' = Some x → h' ≠ h ∧ mapTx pool !! h' = Some x) as Hin.
  { intros h' x. cbn [erase_entry mapTx]. rewrite lookup_delete_Some. intros [? ?]. split; [congruence|done]. }
  split.
  - intros h' x [_ Hx]%Hin. by apply (po_key _ Hok).
  - intros h' x [_ Hx]%Hin. by apply (po_kind _ Hok h').
  - intros o ip [Ho Hne]%erase_next; [|done..]. destruct (po_next _ Hok _ _ Ho) as (x & k & i & Hx & ?). exists x, k, i. split; [|done].
    cbn [erase_entry mapTx]. by rewrite lookup_delete_ne.
  - intros h' x k i [Hne Hx]%Hin Hz Hk. apply erase_next; [done..|]. split; [by apply (po_mark _ Hok _ x)|done].
  - intros h' x i [_ Hx]%Hin. by apply (po_null _ Hok h').
  - intros h' x i [_ Hx]%Hin. by apply (po_nonnull _ Hok h').
  - cbn [erase_entry mapTx totalTxSize]. rewrite (po_total _ Hok), (pool_size_delete _ h e) by done. unfold Z.sub. rewrite wrap_add_l. f_equal. lia.
Qed.

(** ** Removing *)

(** [h'] spends an output of [h], a transaction of the pool. *)
Definition child pool (h h' : uint256) : Prop :=
  ∃ e j ip, mapTx pool !! h = Some e ∧ (j < length (vout (pool_tx e)))%nat ∧ mapNextTx pool !! OutPoint h (u32 (Z.of_nat j)) = Some ip ∧ ptx ip = h'.
Definition step pool (fRecursive : bool) (h h' : uint256) : Prop := fRecursive = true ∧ child pool h h'.
(** What a queue of hashes removes. *)
Definition doomed pool (fRecursive : bool) (q : list uint256) (h : uint256) : Prop :=
  is_Some (mapTx pool !! h) ∧ ∃ x, x ∈ q ∧ rtc (step pool fRecursive) x h.

Lemma spenders_spec pool h n : ∀ j, pool_ok pool →
  ∃ l, spenders pool h (u32 (Z.of_nat j)) n = Some l ∧ (length l ≤ n)%nat ∧
    ∀ x, x ∈ l ↔ ∃ k ip, (j ≤ k < j + n)%nat ∧ mapNextTx pool !! OutPoint h (u32 (Z.of_nat k)) = Some ip ∧ ptx ip = x.
Proof.
  induction n as [|n IH]; intros j Hok; cbn [spenders].
  { exists []. split_and!; [done..|]. intros x. split; [by intros ?%elem_of_nil|]. intros (k & ip & Hk & _). lia. }
  replace (u32 (u32 (Z.of_nat j) + 1)) with (u32 (Z.of_nat (S j))) by (rewrite wrap_add_l; f_equal; lia).
  destruct (IH (S j) Hok) as (l & -> & Hl & Hin). cbn [mbind option_bind]. destruct (mapNextTx pool !! _) as [ip|] eqn:E.
  - destruct (po_next _ Hok _ _ E) as (e & _ & _ & He & _). rewrite He. cbn [mbind option_bind]. eexists. split; [done|]. split; [cbn; lia|].
    intros x. rewrite elem_of_cons, Hin. rewrite (po_key _ Hok _ _ He). split.
    + intros [->|(k & ip' & Hk & ?)]; [exists j, ip; split_and!; [lia..|done|done]|exists k, ip'; split; [lia|done]].
    + intros (k & ip' & Hk & E' & <-). destruct (decide (k = j)) as [->|?]; [left; congruence|right; exists k, ip'; split; [lia|done]].
  - exists l. split_and!; [done|lia|]. intros x. rewrite Hin. split; intros (k & ip & Hk & E' & <-); exists k, ip; split_and!; try lia; try done.
    destruct (decide (k = j)) as [->|?]; [congruence|lia].
Qed.
Lemma spenders_children pool h e : pool_ok pool → mapTx pool !! h = Some e →
  ∃ l, spenders pool h 0 (length (vout (pool_tx e))) = Some l ∧ (length l ≤ length (vout (pool_tx e)))%nat ∧ ∀ x, x ∈ l ↔ child pool h x.
Proof.
  intros Hok He. destruct (spenders_spec pool h (length (vout (pool_tx e))) 0 Hok) as (l & El & Hl & Hin). exists l. split_and!; [done..|].
  intros x. rewrite Hin. unfold child. split.
  - intros (k & ip & Hk & ?). exists e, k, ip. split_and!; [done|lia|naive_solver..].
  - intros (e' & k & ip & He' & Hk & ?). assert (e' = e) as -> by congruence. exists k, ip. split; [lia|done].
Qed.

(** In a path, what comes after the last visit of [x]. *)
Lemma rtc_avoid {A} (R R' : A → A → Prop) (x z h : A) :
  (∀ a b, R a b → a ≠ x → b ≠ x → R' a b) → (∀ a b : A, Decision (a = b)) →
  rtc R z h → h = x ∨ (h ≠ x ∧ ((z ≠ x ∧ rtc R' z h) ∨ ∃ k, R x k ∧ k ≠ x ∧ rtc R' k h)).
Proof.
  intros HR Hdec Hzh. pattern h. revert h Hzh. apply rtc_ind_r.
  { destruct (Hdec z x) as [->|?]; [by left|]. right. split; [done|]. left. split; [done|constructor]. }
  intros y h Hzy Hyh IH. destruct (Hdec h x) as [->|Hne]; [by left|]. right. split; [done|]. destruct IH as [->|[Hy [[Hz Hp]|(k & Hk & Hkx & Hp)]]].
  - right. exists h. split_and!; [done..|constructor].
  - left. split; [done|]. eapply rtc_r; [done|]. by apply HR.
  - right. exists k. split_and!; [done..|]. eapply rtc_r; [done|]. by apply HR.
Qed.

Lemma step_erase pool r x e a b : pool_ok pool → mapTx pool !! x = Some e →
  step (erase_entry pool x e) r a b ↔ step pool r a b ∧ a ≠ x ∧ b ≠ x.
Proof.
  intros Hok He. unfold step, child. split.
  - intros (-> & ea & j & ip & Ha & Hj & Hm & <-). cbn [erase_entry mapTx] in Ha. apply lookup_delete_Some in Ha as [Hax Ha].
    apply erase_next in Hm as [Hm Hne]; [|done..]. split_and!; [done| |congruence|done]. by exists ea, j, ip.
  - intros ((-> & ea & j & ip & Ha & Hj & Hm & <-) & Hax & Hne). split; [done|]. exists ea, j, ip. split_and!; [|done| |done].
    + cbn [erase_entry mapTx]. by rewrite lookup_delete_ne.
    + by apply erase_next.
Qed.

Lemma doomed_skip pool r x q h : mapTx pool !! x = None → doomed pool r (x :: q) h ↔ doomed pool r q h.
Proof.
  intros Hx. unfold doomed. split; intros [Hh (y & Hy & Hp)]; (split; [done|]).
  - apply elem_of_cons in Hy as [->|Hy]; [|by exists y]. exfalso. inversion Hp as [|? z ? [_ (e & _ & _ & He & _)] _]; subst; [by rewrite Hx in Hh; destruct Hh|congruence].
  - exists y. split; [by right|done].
Qed.

Lemma doomed_step pool r x e q kids h : pool_ok pool → mapTx pool !! x = Some e →
  (∀ k, k ∈ kids ↔ step pool r x k) →
  doomed pool r (x :: q) h ↔ h = x ∨ doomed (erase_entry pool x e) r (q ++ kids) h.
Proof.
  intros Hok He Hkids. unfold doomed. split.
  - intros [Hh (y & Hy & Hp)]. destruct (rtc_avoid (step pool r) (step (erase_entry pool x e) r) x y h) as [->|[Hne Hcase]]; [|apply _|done|by left|].
    { intros a b Hab Ha Hb. by apply step_erase. }
    right. split; [cbn [erase_entry mapTx]; by rewrite lookup_delete_ne|]. destruct Hcase as [[Hyx Hp']|(k & Hk & _ & Hp')].
    + exists y. split; [|done]. apply elem_of_cons in Hy as [?|?]; [done|]. apply elem_of_app. by left.
    + exists k. split; [|done]. apply elem_of_app. right. by apply Hkids.
  - intros [->|[Hh (y & Hy & Hp)]].
    { split; [by rewrite He|]. exists x. split; [left|constructor]. }
    split; [cbn [erase_entry mapTx] in Hh; destruct Hh as [z [_ Hz]%lookup_delete_Some]; by rewrite Hz|].
    assert (rtc (step pool r) y h) as Hp' by (eapply rtc_subrel; [|exact Hp]; intros a b Hab; apply step_erase in Hab; [apply Hab|done..]).
    apply elem_of_app in Hy as [Hy|Hy]; [exists y; split; [by right|done]|]. exists x. split; [left|]. eapply rtc_l; [by apply Hkids|done].
Qed.

Lemma remove_loop_spec fuel r : ∀ pool q removed, pool_ok pool → (length q + pool_weight (mapTx pool) ≤ fuel)%nat →
  ∃ pool' l, remove_loop fuel r pool q removed = Some (pool', removed ++ l) ∧ pool_ok pool' ∧
    (∀ h e, mapTx pool' !! h = Some e ↔ mapTx pool !! h = Some e ∧ ¬ doomed pool r q h) ∧
    (∀ o ip, mapNextTx pool' !! o = Some ip ↔ mapNextTx pool !! o = Some ip ∧ ¬ doomed pool r q (ptx ip)) ∧
    (∀ tx, tx ∈ l ↔ ∃ h e, mapTx pool !! h = Some e ∧ tx = pool_tx e ∧ doomed pool r q h) ∧ mapDeltas pool' = mapDeltas pool.
Proof.
  induction fuel as [|fuel IH]; intros pool q removed Hok Hf; (destruct q as [|x q]; cbn [remove_loop];
    [exists pool, []; rewrite app_nil_r; assert (∀ h, ¬ doomed pool r [] h) as Hn by (intros h [_ (y & Hy%elem_of_nil & _)]; done);
     split_and!; [done|done|naive_solver|naive_solver| |done]; intros tx; split; [by intros ?%elem_of_nil|naive_solver]|]).
  { cbn in Hf. lia. }
  destruct (mapTx pool !! x) as [e|] eqn:He.
  - assert (∃ kids, (if r then spenders pool x 0 (length (vout (pool_tx e))) else Some []) = Some kids ∧ (length kids ≤ length (vout (pool_tx e)))%nat ∧ ∀ k, k ∈ kids ↔ step pool r x k) as (kids & -> & Hkl & Hk).
    { unfold step. destruct r; [destruct (spenders_children pool x e Hok He) as (l & ? & ? & Hin); exists l; naive_solver|].
      exists []. split_and!; [done|cbn; lia|]. intros k. split; [by intros ?%elem_of_nil|by intros [? _]]. }
    cbn [mbind option_bind]. pose proof (pool_weight_delete _ _ _ He) as Hw. unfold entry_weight in Hw.
    destruct (IH (erase_entry pool x e) (q ++ kids) (removed ++ [pool_tx e])) as (pool' & l & -> & Hok' & Ht & Hn & Hl & Hd);
      [by apply erase_entry_ok|rewrite length_app; cbn [erase_entry mapTx length] in *; lia|].
    pose proof (λ h, doomed_step pool r x e q kids h Hok He Hk) as Hdoom.
    exists pool', (pool_tx e :: l). split_and!; [by rewrite <-app_assoc|done| | | |done].
    + intros h e'. rewrite Ht, Hdoom. cbn [erase_entry mapTx]. rewrite lookup_delete_Some. naive_solver.
    + intros o ip. rewrite Hn, Hdoom, erase_next by done. naive_solver.
    + intros tx. rewrite elem_of_cons, Hl. split.
      * intros [->|(h & e' & He' & -> & Hdm)]; [exists x, e; rewrite Hdoom; naive_solver|]. cbn [erase_entry mapTx] in He'. apply lookup_delete_Some in He' as [? ?].
        exists h, e'. rewrite Hdoom. naive_solver.
      * intros (h & e' & He' & -> & Hdm). apply Hdoom in Hdm as [->|Hdm]; [left; congruence|]. right. exists h, e'. split_and!; [|done..].
        destruct Hdm as [[z Hz] _]. cbn [erase_entry mapTx] in *. apply lookup_delete_Some in Hz as [Hne _]. by rewrite lookup_delete_ne.
  - destruct (IH pool q removed Hok) as (pool' & l & -> & Hok' & Ht & Hn & Hl & Hd); [cbn in Hf; lia|].
    pose proof (λ h, doomed_skip pool r x q h He) as Hdoom. exists pool', l. split_and!; [done|done| | | |done].
    + intros h e'. by rewrite Ht, Hdoom.
    + intros o ip. by rewrite Hn, Hdoom.
    + intros tx. rewrite Hl. split; intros (h & e' & ?); exists h, e'; by rewrite Hdoom in *.
Qed.

(** What [remove] takes out: the transaction, and recursively the transactions that
    spend its outputs, also if it is not in the pool itself. *)
Definition removed_by pool (tx : CMutableTransaction) (fRecursive : bool) (h : uint256) : Prop :=
  is_Some (mapTx pool !! h) ∧
  (rtc (step pool fRecursive) (tx_GetHash tx) h ∨
   (fRecursive = true ∧ mapTx pool !! tx_GetHash tx = None ∧
    ∃ j ip, (j < length (vout tx))%nat ∧ mapNextTx pool !! OutPoint (tx_GetHash tx) (u32 (Z.of_nat j)) = Some ip ∧ rtc (step pool fRecursive) (ptx ip) h)).

Record remove_result pool (D : uint256 → Prop) (l : list CMutableTransaction) pool' : Prop := {
  rr_ok : pool_ok pool';
  rr_tx h e : mapTx pool' !! h = Some e ↔ mapTx pool !! h = Some e ∧ ¬ D h;
  rr_next o ip : mapNextTx pool' !! o = Some ip ↔ mapNextTx pool !! o = Some ip ∧ ¬ D (ptx ip);
  rr_removed tx : tx ∈ l ↔ ∃ h e, mapTx pool !! h = Some e ∧ tx = pool_tx e ∧ D h;
  rr_deltas : mapDeltas pool' = mapDeltas pool;
}.

Lemma remove_spec pool tx removed r : pool_ok pool →
  ∃ pool' l, remove pool tx removed r = Some (pool', removed ++ l) ∧ remove_result pool (removed_by pool tx r) l pool'.
Proof.
  intros Hok. unfold remove.
  assert (∃ kids, (if r && negb (bool_decide (is_Some (mapTx pool !! tx_GetHash tx))) then spenders pool (tx_GetHash tx) 0 (length (vout tx)) else Some []) = Some kids ∧
    ∀ h, doomed pool r (tx_GetHash tx :: kids) h ↔ removed_by pool tx r h) as (kids & -> & Hd).
  { destruct (spenders_spec pool (tx_GetHash tx) (length (vout tx)) 0 Hok) as (l & El & _ & Hin). change (u32 (Z.of_nat 0)) with 0 in El.
    destruct r; cbn [andb]; [case_bool_decide as Hs; cbn [negb]|].
    - exists []. split; [done|]. intros h. unfold doomed, removed_by. split.
      + intros (Hh & y & ->%list_elem_of_singleton & Hp). split; [done|by left].
      + intros (Hh & [Hp|(_ & Hno & _)]); [|rewrite Hno in Hs; by destruct Hs]. split; [done|]. exists (tx_GetHash tx). split; [left|done].
    - exists l. split; [done|]. intros h. unfold doomed, removed_by. split.
      + intros (Hh & y & [->|Hy]%elem_of_cons & Hp); (split; [done|]); [by left|]. right. apply Hin in Hy as (k & ip & Hk & Hm & <-).
        split_and!; [done|by apply eq_None_not_Some|]. exists k, ip. split_and!; [lia|done..].
      + intros (Hh & [Hp|(_ & _ & k & ip & Hk & Hm & Hp)]); (split; [done|]); [exists (tx_GetHash tx); split; [left|done]|].
        exists (ptx ip). split; [right; apply Hin; exists k, ip; split_and!; [lia..|done|done]|done].
    - exists []. split; [done|]. intros h. unfold doomed, removed_by. split.
      + intros (Hh & y & ->%list_elem_of_singleton & Hp). split; [done|by left].
      + intros (Hh & [Hp|(? & _)]); [|done]. split; [done|]. exists (tx_GetHash tx). split; [left|done]. }
  cbn [mbind option_bind]. destruct (remove_loop_spec (length (tx_GetHash tx :: kids) + pool_weight (mapTx pool)) r pool (tx_GetHash tx :: kids) removed Hok) as
    (pool' & l & E & Hok' & Ht & Hn & Hl & Hdel); [done|]. exists pool', l. split; [done|]. split; [done| | | |done].
  - intros h e. by rewrite Ht, Hd.
  - intros o ip. by rewrite Hn, Hd.
  - intros t. rewrite Hl. split; intros (h & e & ?); exists h, e; by rewrite Hd in *.
Qed.

(** ** Conflicts with a block *)

Record sub_pool pool' pool : Prop := {
  sp_tx h e : mapTx pool' !! h = Some e → mapTx pool !! h = Some e;
  sp_next o ip : mapNextTx pool' !! o = Some ip → mapNextTx pool !! o = Some ip;
}.
#[global] Instance sub_pool_preorder : PreOrder sub_pool.
Proof. split; [by split|]. intros p q r [] []. split; eauto. Qed.
Lemma remove_result_sub pool D l pool' : remove_result pool D l pool' → sub_pool pool' pool.
Proof. intros H. split; [intros h e He; by apply (rr_tx _ _ _ _ H)|intros o ip Ho; by apply (rr_next _ _ _ _ H)]. Qed.
Lemma child_sub pool' pool h h' : sub_pool pool' pool → child pool' h h' → child pool h h'.
Proof. intros Hs (e & j & ip & He & Hj & Hm & E). exists e, j, ip. split_and!; [by apply Hs|done|by apply Hs|done]. Qed.
Lemma step_child pool r h h' : rtc (step pool r) h h' → rtc (child pool) h h'.
Proof. apply rtc_subrel. by intros a b [_ ?]. Qed.

(** A transaction of the pool that spends what another transaction [tx] spends. *)
Definition conflicts_with pool (tx : CMutableTransaction) (h : uint256) : Prop :=
  h ≠ tx_GetHash tx ∧ ∃ i ip, i ∈ vin tx ∧ mapNextTx pool !! prevout i = Some ip ∧ ptx ip = h.
Lemma conflicts_sub pool' pool tx h : sub_pool pool' pool → conflicts_with pool' tx h → conflicts_with pool tx h.
Proof. intros Hs (? & i & ip & ? & Hm & ?). split; [done|]. exists i, ip. split_and!; [done|by apply Hs|done]. Qed.

(** Nothing but the descendants of conflicting transactions goes. *)
Definition keeps pool (C : uint256 → Prop) pool' : Prop :=
  ∀ h e, mapTx pool !! h = Some e → (∀ z, rtc (child pool) z h → ¬ C z) → mapTx pool' !! h = Some e.

Lemma remove_conflicts_spec tx l : ∀ pool removed, pool_ok pool → (∀ i, i ∈ l → i ∈ vin tx) →
  ∃ pool' removed', remove_conflicts pool tx removed l = Some (pool', removed') ∧ pool_ok pool' ∧ sub_pool pool' pool ∧
    (∀ i ip, i ∈ l → mapNextTx pool' !! prevout i = Some ip → ptx ip = tx_GetHash tx) ∧ keeps pool (conflicts_with pool tx) pool'.
Proof.
  induction l as [|i l IH]; intros pool removed Hok Hl; cbn [remove_conflicts].
  { exists pool, removed. split_and!; [done..|by intros ? ? ?%elem_of_nil|by intros h e He _]. }
  assert (∀ i, i ∈ l → i ∈ vin tx) as Hl' by (intros; apply Hl; by right).
  destruct (mapNextTx pool !! prevout i) as [it|] eqn:Em.
  - destruct (po_next _ Hok _ _ Em) as (e & _ & _ & He & _). rewrite He. cbn [mbind option_bind]. rewrite (po_key _ Hok _ _ He). case_bool_decide as Hsame.
    + destruct (IH pool removed Hok Hl') as (pool' & rem' & -> & Hok' & Hs & Hc & Hk). exists pool', rem'. split_and!; [done..| |done].
      intros j ip [->|Hj]%elem_of_cons Hm; [|by eapply Hc]. apply Hs in Hm. congruence.
    + destruct (remove_spec pool (pool_tx e) removed true Hok) as (pool1 & l1 & -> & Hr). cbn [mbind option_bind].
      destruct (IH pool1 (removed ++ l1) (rr_ok _ _ _ _ Hr) Hl') as (pool' & rem' & -> & Hok' & Hs & Hc & Hk). pose proof (remove_result_sub _ _ _ _ Hr) as Hs1.
      exists pool', rem'. split_and!; [done|done|by etransitivity| |].
      * intros j ip [->|Hj]%elem_of_cons Hm; [|by eapply Hc]. apply Hs in Hm. apply (rr_next _ _ _ _ Hr) in Hm as [Hm Hnd]. exfalso. apply Hnd.
        assert (ip = it) as -> by congruence. split; [by rewrite He|]. left. rewrite (po_key _ Hok _ _ He). constructor.
      * intros h x Hx Hz. apply Hk.
        -- apply (rr_tx _ _ _ _ Hr). split; [done|]. intros [_ [Hp|(_ & Hno & _)]]; rewrite (po_key _ Hok _ _ He) in *; [|congruence].
           apply (Hz (ptx it)); [by eapply step_child|]. split; [done|]. exists i, it. split_and!; [apply Hl; left|done..].
        -- intros z Hp Hcz. apply (Hz z); [eapply rtc_subrel; [|exact Hp]; intros a b; by apply child_sub|by eapply conflicts_sub].
  - destruct (IH pool removed Hok Hl') as (pool' & rem' & -> & Hok' & Hs & Hc & Hk). exists pool', rem'. split_and!; [done..| |done].
    intros j ip [->|Hj]%elem_of_cons Hm; [|by eapply Hc]. apply Hs in Hm. congruence.
Qed.

Lemma removeForBlock_spec vtx : ∀ pool conflicts, pool_ok pool →
  ∃ pool' conflicts', removeForBlock pool conflicts vtx = Some (pool', conflicts') ∧ pool_ok pool' ∧ sub_pool pool' pool ∧
    (∀ tx, tx ∈ vtx → mapTx pool' !! tx_GetHash tx = None ∧ ∀ i, i ∈ vin tx → mapNextTx pool' !! prevout i = None) ∧
    (∀ h e, mapTx pool !! h = Some e → h ∉ map tx_GetHash vtx → (∀ z tx, rtc (child pool) z h → tx ∈ vtx → ¬ conflicts_with pool tx z) → mapTx pool' !! h = Some e).
Proof.
  induction vtx as [|tx vtx IH]; intros pool conflicts Hok; cbn [removeForBlock].
  { exists pool, conflicts. split_and!; [done..|by intros ? ?%elem_of_nil|by intros]. }
  destruct (remove_spec pool tx [] false Hok) as (pool1 & l1 & -> & Hr). cbn [mbind option_bind]. pose proof (remove_result_sub _ _ _ _ Hr) as Hs1.
  assert (mapTx pool1 !! tx_GetHash tx = None) as Hgone.
  { destruct (mapTx pool1 !! tx_GetHash tx) as [e|] eqn:E; [|done]. apply (rr_tx _ _ _ _ Hr) in E as [E Hn]. exfalso. apply Hn. split; [by rewrite E|]. left. constructor. }
  destruct (remove_conflicts_spec tx (vin tx) pool1 conflicts (rr_ok _ _ _ _ Hr)) as (pool2 & c2 & E2 & Hok2 & Hs2 & Hc2 & Hk2); [done|].
  unfold removeConflicts. rewrite E2. cbn [mbind option_bind].
  assert (pool_ok (ClearPrioritisation pool2 (tx_GetHash tx))) as Hok3 by (destruct Hok2; by split).
  assert (sub_pool (ClearPrioritisation pool2 (tx_GetHash tx)) pool2) as Hs3 by done.
  destruct (IH _ c2 Hok3) as (pool' & c' & -> & Hok' & Hs & Hb & Hk). exists pool', c'.
  assert (sub_pool pool' pool2) as Hs' by (by etransitivity). split_and!; [done|done|by etransitivity; [|etransitivity]| |].
  - intros t [->|Ht]%elem_of_cons; [|by apply Hb]. split.
    + destruct (mapTx pool' !! tx_GetHash tx) as [e|] eqn:E; [|done]. apply Hs', Hs2 in E. congruence.
    + intros i Hi. destruct (mapNextTx pool' !! prevout i) as [ip|] eqn:E; [|done]. apply Hs' in E. pose proof (Hc2 i ip Hi E) as Ep.
      destruct (po_next _ Hok2 _ _ E) as (e & _ & _ & He & _). apply Hs2 in He. congruence.
  - intros h e He Hni Hz. apply not_elem_of_cons in Hni as [Hne Hni]. apply (Hk h e).
    + apply (Hk2 h e).
      * apply (rr_tx _ _ _ _ Hr). split; [done|]. intros [_ [Hp|(? & _)]]; [|done]. apply Hne. inversion Hp as [|? ? ? [? _] _]; [done|done].
      * intros z Hp Hcz. apply (Hz z tx); [eapply rtc_subrel; [|exact Hp]; intros a b; by apply child_sub|left|by eapply conflicts_sub].
    + done.
    + intros z t Hp Ht Hcz. apply (Hz z t); [eapply rtc_subrel; [|exact Hp]; intros a b Hab; eapply child_sub; [|exact Hab]; by etransitivity; [exact Hs3|etransitivity]|by right|].
      eapply conflicts_sub; [|exact Hcz]. by etransitivity; [exact Hs3|etransitivity].
Qed.

Lemma remove_all_ok l : ∀ pool, pool_ok pool → ∃ pool', remove_all pool l = Some pool' ∧ pool_ok pool' ∧ sub_pool pool' pool.
Proof.
  induction l as [|tx l IH]; intros pool Hok; cbn [remove_all]; [by exists pool|].
  destruct (remove_spec pool tx [] true Hok) as (pool1 & l1 & -> & Hr). cbn [mbind option_bind].
  destruct (IH pool1 (rr_ok _ _ _ _ Hr)) as (pool' & -> & Hok' & Hs). exists pool'. split_and!; [done..|]. etransitivity; [done|by eapply remove_result_sub].
Qed.

Lemma empty_ok : pool_ok MemPool_empty.
Proof. split; by intros; rewrite ?lookup_empty in *. Qed.
Lemma clear_ok pool : pool_ok (clear pool).
Proof. split; by intros; cbn in *; rewrite ?lookup_empty in *. Qed.
End pool.
