(* ===== verification/MemPoolAccept.v ===== *)
(** The acceptance of transactions into the memory pool (main.cpp): the policy on what is
    standard, the view of the coins that includes the pool, and [AcceptToMemoryPool].

    What depends on the clock, the command line and doubles is in [policy]: whether the
    priority of a transaction allows it to be free, and whether the rate limiter rejects
    it.  Returning [false] with the state as it was is [Rejected 0]. *)

From stdpp Require Import strings.
From S2P Require Import Prelude ChainParams Script PubKey Serialize Interpreter Standard Transaction SigHash Coins CoinsView Validation MemPool.
Local Open Scope Z_scope.

Definition MAX_STANDARD_TX_SIZE : Z := 100000.
Definition MAX_P2SH_SIGOPS : Z := 15.
Definition MAX_TX_SIGOPS_CURRENT : Z := MAX_BLOCK_SIGOPS_CURRENT `div` 5.
Definition minRelayTxFee : Z := 1000000.

Record policy := Policy {
  datacarrier : bool;                     (* -datacarrier *)
  nMaxDatacarrierBytes : Z;
  fIsBareMultisigStd : bool;              (* -permitbaremultisig *)
  relaypriority : bool;                   (* -relaypriority *)
  allow_free : CMutableTransaction → CCoinsView → Z → bool;     (* AllowFree(view.GetPriority(tx, height)) *)
  rate_limited : Z → bool;                (* dFreeCount is above the limit *)
  adjusted_time : Z;                      (* GetAdjustedTime() *)
  entry_time : Z;                         (* GetTime() *)
}.

Section policy.
Context (p : policy) (chainHeight : Z) `{HashFunctions}.

(** [IsStandardTx]: the reason, if there is one; [None] is an exception of [Solver] or a
    read past the end of a script. *)
Fixpoint standard_inputs (l : list CTxIn) : option string :=
  match l with
  | [] => None
  | txin :: l =>
      if IsZerocoinSpend (scriptSig txin) then standard_inputs l
      else if 1650 <? size (scriptSig txin) then Some "scriptsig-size"%string
      else if negb (IsPushOnly (scriptSig txin)) then Some "scriptsig-not-pushonly"%string
      else standard_inputs l
  end.
Fixpoint standard_outputs (nDataOut : Z) (l : list CTxOut) : option (option string) :=
  match l with
  | [] => Some (if 1 <? nDataOut then Some "multi-op-return"%string else None)
  | txout :: l =>
      '(ok, whichType) ← IsStandard (datacarrier p) (nMaxDatacarrierBytes p) (scriptPubKey txout);
      if negb (ok : bool) then Some (Some "scriptpubkey"%string)
      else if decide (whichType = TX_NULL_DATA) then standard_outputs (u32 (nDataOut + 1)) l
      else if bool_decide (whichType = TX_MULTISIG) && negb (fIsBareMultisigStd p) then Some (Some "bare-multisig"%string)
      else if IsDust txout minRelayTxFee then Some (Some "dust"%string)
      else standard_outputs nDataOut l
  end.
Definition IsStandardTx (tx : CMutableTransaction) : option (option string) :=
  if (1 <? nTransactionVersion tx) || (nTransactionVersion tx <? 1) then Some (Some "version"%string)
  else if negb (IsFinalTx chainHeight (adjusted_time p) tx (chainHeight + 1) 0) then Some (Some "non-final"%string)
  else
    zc ← ContainsZerocoins tx;
    if (if (zc : bool) then MAX_ZEROCOIN_TX_SIZE else MAX_STANDARD_TX_SIZE) <=? u32 (size (Serialize_tx tx)) then Some (Some "tx-size"%string)
    else match standard_inputs (vin tx) with
    | Some reason => Some (Some reason)
    | None => standard_outputs 0 (vout tx)
    end.

(** [BaseSignatureChecker()] accepts no signature. *)
Definition no_checker : BaseSignatureChecker := {| CheckSig _ _ _ := false |}.

(** The loop of [AreInputsStandard]; with a script that [Solver] does not know, the result
    for the whole transaction is that of this input. *)
Fixpoint inputs_standard (v : CCoinsView) (l : list CTxIn) : option (bool * CCoinsView) :=
  match l with
  | [] => Some (true, v)
  | txin :: l =>
      '(prev, v) ← GetOutputFor v txin;
      '(ok, whichType, vSolutions) ← Solver (scriptPubKey prev);
      let nArgsExpected := ScriptSigArgsExpected whichType vSolutions in
      if negb (ok : bool) || (nArgsExpected <? 0) then Some (false, v)
      else match @EvalScript _ no_checker 0 [] (scriptSig txin) with
      | Abort => None
      | Err _ => Some (false, v)
      | Ok st =>
          if decide (whichType = TX_SCRIPTHASH) then
            match st with
            | [] => Some (false, v)
            | subscript :: _ =>
                '(ok2, whichType2, vSolutions2) ← Solver subscript;
                if (ok2 : bool) then
                  let tmpExpected := ScriptSigArgsExpected whichType2 vSolutions2 in
                  if tmpExpected <? 0 then Some (false, v)
                  else if negb (size st =? nArgsExpected + tmpExpected) then Some (false, v)
                  else inputs_standard v l
                else sigops ← GetSigOpCount subscript true; Some (sigops <=? MAX_P2SH_SIGOPS, v)
            end
          else if negb (size st =? nArgsExpected) then Some (false, v)
          else inputs_standard v l
      end
  end.
Definition AreInputsStandard (tx : CMutableTransaction) (v : CCoinsView) : option (bool * CCoinsView) :=
  cb ← IsCoinBase tx;
  zs ← (if (cb : bool) then Some true else tx_IsZerocoinSpend tx);
  if (zs : bool) then Some (true, v) else inputs_standard v (vin tx).

(** ** The view of the pool *)

Context `{Doubles}.

(** [FetchCoins] of a cache over a [CCoinsViewMemPool]. *)
Definition pool_fetch (pool : CTxMemPool) (cacheCoins : CCoinsMap) (base : CCoinsView) (txid : uint256) : option (option CCoins * CCoinsMap * CCoinsView) :=
  match cacheCoins !! txid with
  | Some it => Some (Some (entry_coins it), cacheCoins, base)
  | None =>
      '(tmp, base) ← CCoinsViewMemPool_GetCoins pool base txid;
      match tmp with
      | None => Some (None, cacheCoins, base)
      | Some coins => Some (Some coins, <[txid := CacheEntry coins false (IsPruned coins)]> cacheCoins, base)
      end
  end.
(** [view.HaveCoins(txid)] *)
Definition pool_HaveCoins (pool : CTxMemPool) (cacheCoins : CCoinsMap) (base : CCoinsView) (txid : uint256) : option (bool * CCoinsMap * CCoinsView) :=
  '(r, cacheCoins, base) ← pool_fetch pool cacheCoins base txid;
  Some (match r with Some coins => negb (length (coins_vout coins) =? 0)%nat | None => false end, cacheCoins, base).
(** The loop over the inputs: [false] if one of them is missing. *)
Fixpoint have_all (pool : CTxMemPool) (cacheCoins : CCoinsMap) (base : CCoinsView) (l : list CTxIn) : option (bool * CCoinsMap * CCoinsView) :=
  match l with
  | [] => Some (true, cacheCoins, base)
  | txin :: l =>
      '(have, cacheCoins, base) ← pool_HaveCoins pool cacheCoins base (op_hash (prevout txin));
      if (have : bool) then have_all pool cacheCoins base l else Some (false, cacheCoins, base)
  end.

Definition GetMinRelayFee (Params : CChainParams) (pool : CTxMemPool) (tx : CMutableTransaction) : Z :=
  let '(dPriorityDelta, nFeeDelta) := ApplyDeltas pool (tx_GetHash tx) d_zero 0 in
  if d_positive dPriorityDelta || (0 <? nFeeDelta) then 0
  else if negb (MoneyRange Params minRelayTxFee) then nMaxMoneyOut Params else minRelayTxFee.
End policy.

Section accept.
Context (Params : CChainParams) (p : policy) (chainHeight : Z) (heightOf : uint256 → option Z) `{HashFunctions} `{Secp256k1} `{ZerocoinChecks} `{Doubles}.

(** The checks of a zerocoin spend; the result is [nValueIn]. *)
Fixpoint accept_serials (l : list CTxIn) : outcome unit :=
  match l with
  | [] => Passed tt
  | txin :: l =>
      if negb (IsZerocoinSpend (scriptSig txin)) then accept_serials l
      else
        ok ← ContextualCheckZerocoinSpend txin;
        if (ok : bool) then accept_serials l else Rejected 0 "bad-txns-invalid-zkp"
  end.
Definition accept_spend (tx : CMutableTransaction) : outcome Z :=
  nValueIn ← defined (GetZerocoinSpent tx);
  match IsTransactionInChain (tx_GetHash tx) with
  | Some _ => Rejected 0 "bad-txns-inputs-spent"
  | None => _ ← accept_serials (vin tx); Passed nValueIn
  end.

Fixpoint accept_mints (l : list CTxOut) : outcome unit :=
  match l with
  | [] => Passed tt
  | out :: l =>
      if negb (CTxOut_IsZerocoinMint out) then accept_mints l
      else
        value ← TxOutToPublicCoin out;
        if ContextualCheckZerocoinMint value then accept_mints l else Rejected 0 "zerocoin mint failed contextual check"
  end.

(** The checks of the inputs of another transaction: [nValueIn] and the view.  When
    [view.HaveInputs] and [view.GetValueIn] run, every coin they read is in the cache,
    so the view is already over [dummy]; its best block is that of [base]. *)
Definition accept_coins (pool : CTxMemPool) (base : CCoinsView) (tx : CMutableTransaction) : outcome (Z * CCoinsView) :=
  '(have, cache, base) ← defined (pool_HaveCoins pool ∅ base (tx_GetHash tx));
  if (have : bool) then Rejected 0 "already known"
  else
    '(all, cache, base) ← defined (have_all pool cache base (vin tx));
    if negb (all : bool) then Rejected 0 "missing inputs"
    else
      _ ← (if tx_IsZerocoinMint tx then accept_mints (vout tx) else Passed tt);
      let '(best, base) := GetBestBlock base in
      let view := CCoinsViewCache best cache (CCoinsViewDB ∅ uint256_null) in
      '(ok, view) ← defined (HaveInputs view tx);
      if negb (ok : bool) then Rejected 0 "bad-txns-inputs-spent"
      else defined (GetValueIn view tx).

(** The part on fees. *)
Definition accept_fees (pool : CTxMemPool) (fLimitFree : bool) (tx : CMutableTransaction) (zs : bool) (view : CCoinsView) (nFees nSize : Z) : outcome unit :=
  if fLimitFree && (nFees <? GetMinRelayFee Params pool tx) && negb zs then Rejected 0 "insufficient fee"
  else
    _ ← (if tx_IsZerocoinMint tx then
           if nFees <? s64 (nMinZerocoinMintFee Params * GetZerocoinMintCount tx) then Rejected 0 "insufficient fee for zerocoinmint" else Passed tt
         else if negb zs && relaypriority p && (nFees <? minRelayTxFee) && negb (allow_free p tx view (chainHeight + 1))
         then Rejected 0 "insufficient priority" else Passed tt);
    if fLimitFree && (nFees <? minRelayTxFee) && negb zs && rate_limited p nSize then Rejected 0 "rate limited free transaction" else Passed tt.

(** [AcceptToMemoryPool]; the view that collects no script checks runs them. *)
Definition AcceptToMemoryPool (pool : CTxMemPool) (base : CCoinsView) (tx : CMutableTransaction) (fLimitFree fRejectInsaneFee ignoreFees : bool) : outcome CTxMemPool :=
  _ ← dos_again 100 "bad-tx" (CheckTransaction Params tx (nZerocoinStartHeight Params <=? chainHeight));
  cb ← defined (IsCoinBase tx);
  if (cb : bool) then Rejected 100 "coinbase"
  else if IsCoinStake tx then Rejected 100 "coinstake"
  else
    reason ← (if fRequireStandard Params then defined (IsStandardTx p chainHeight tx) else Passed None);
    match reason with
    | Some reason => Rejected 0 reason
    | None =>
        let hash := tx_GetHash tx in
        if bool_decide (is_Some (mapTx pool !! hash)) then Rejected 0 "tx already in mempool"
        else
          zs ← defined (tx_IsZerocoinSpend tx);
          if negb zs && existsb (λ i, bool_decide (is_Some (mapNextTx pool !! prevout i))) (vin tx) then Rejected 0 "conflict in mempool"
          else
            '(nValueIn, view) ← (if (zs : bool) then v ← accept_spend tx; Passed (v, CCoinsViewCache uint256_null ∅ (CCoinsViewDB ∅ uint256_null))
                                 else accept_coins pool base tx);
            '(std, view) ← (if fRequireStandard Params then defined (AreInputsStandard tx view) else Passed (true, view));
            if negb std then Rejected 0 "nonstandard transaction input"
            else
              '(many, view) ← (if (zs : bool) then Passed (false, view)
                               else
                                 k ← defined (GetLegacySigOpCount tx);
                                 '(k', view) ← defined (GetP2SHSigOpCount view tx);
                                 Passed (MAX_TX_SIGOPS_CURRENT <? u32 (k + k'), view));
              if (many : bool) then Rejected 0 "bad-txns-too-many-sigops"
              else
                nValueOut ← defined (GetValueOut tx);
                let nFees := s64 (nValueIn - nValueOut) in
                let entry := PoolEntry_of tx nFees (entry_time p) (u32 chainHeight) in
                _ ← (if ignoreFees then Passed tt else accept_fees pool fLimitFree tx zs view nFees (u32 (nTxSize entry)));
                if fRejectInsaneFee && (s64 (minRelayTxFee * 10000) <? nFees) then Rejected 0 "insane fees"
                else
                  '(_, view) ← CheckInputs Params heightOf tx view true STANDARD_SCRIPT_VERIFY_FLAGS false;
                  '(_, view) ← CheckInputs Params heightOf tx view true MANDATORY_SCRIPT_VERIFY_FLAGS false;
                  defined (addUnchecked pool hash entry)
    end.
End accept.
