(* ===== verification/MemPoolCheck.v ===== *)
(** [CTxMemPool::check], the self check that runs with -checkmempool and on the
    regression-test network.  [None] is a failed assertion. *)

From stdpp Require Import strings.
From S2P Require Import Prelude ChainParams Script PubKey Serialize Interpreter Transaction SigHash Coins CoinsView Validation MemPool MemPoolFacts.
Local Open Scope Z_scope.

Section check.
Context (Params : CChainParams) (heightOf : uint256 → option Z) `{HashFunctions} `{Secp256k1} `{ZerocoinChecks} `{Doubles}.

(** [pcoins->AccessCoins], where the view is [mempoolDuplicate] over [pcoins]. *)
Definition base_access (v : CCoinsView) (txid : uint256) : option CCoins * CCoinsView :=
  match v with
  | CCoinsViewCache hashBlock cacheCoins base => let '(r, base) := GetCoins base txid in (r, CCoinsViewCache hashBlock cacheCoins base)
  | CCoinsViewDB _ _ => GetCoins v txid
  end.

(** The loop over the inputs of the transaction at [hash]; the result is [fDependsWait]. *)
Fixpoint check_inputs (pool : CTxMemPool) (hash : uint256) (v : CCoinsView) (i : Z) (fDependsWait : bool) (l : list CTxIn) : option (bool * CCoinsView) :=
  match l with
  | [] => Some (fDependsWait, v)
  | txin :: l =>
      let out := prevout txin in
      '(wait, v) ←
        match mapTx pool !! op_hash out with
        | Some e2 =>
            o ← vout (pool_tx e2) !! Z.to_nat (op_n out);
            if CTxOut_IsNull o then None else Some (true, v)
        | None =>
            let '(coins, v) := base_access v (op_hash out) in
            c ← coins; if IsAvailable c (op_n out) then Some (fDependsWait, v) else None
        end;
      it3 ← mapNextTx pool !! out;
      if bool_decide (ptx it3 = hash) && (in_n it3 =? i) then check_inputs pool hash v (u32 (i + 1)) wait l else None
  end.

(** [assert(CheckInputs(tx, …)); UpdateCoins(tx, …)] *)
Definition check_apply (tx : CMutableTransaction) (v : CCoinsView) : option CCoinsView :=
  match CheckInputs Params heightOf tx v false 0 false with
  | Passed (_, v) => '(_, v) ← UpdateCoins tx v 1000000; Some v
  | _ => None
  end.

(** The loop over [mapTx]: [checkTotal], [mempoolDuplicate], [waitingOnDependants]. *)
Fixpoint check_entries (pool : CTxMemPool) (checkTotal : Z) (v : CCoinsView) (waiting : list CTxMemPoolEntry) (l : list (uint256 * CTxMemPoolEntry)) :
    option (Z * CCoinsView * list CTxMemPoolEntry) :=
  match l with
  | [] => Some (checkTotal, v, waiting)
  | (hash, e) :: l =>
      '(fDependsWait, v) ← check_inputs pool hash v 0 false (vin (pool_tx e));
      let checkTotal := u64 (checkTotal + nTxSize e) in
      if (fDependsWait : bool) then check_entries pool checkTotal v (waiting ++ [e]) l
      else v ← check_apply (pool_tx e) v; check_entries pool checkTotal v waiting l
  end.

(** The loop over [waitingOnDependants].  A round that applies nothing fails an assertion,
    so there are at most as many turns as the fuel. *)
Fixpoint check_waiting (fuel : nat) (v : CCoinsView) (stepsSinceLastRemove : Z) (waiting : list CTxMemPoolEntry) : option unit :=
  match waiting with
  | [] => Some tt
  | e :: waiting =>
      match fuel with
      | O => None
      | S fuel =>
          '(have, v) ← HaveInputs v (pool_tx e);
          if (have : bool) then v ← check_apply (pool_tx e) v; check_waiting fuel v 0 waiting
          else
            let waiting := waiting ++ [e] in
            let steps := u32 (stepsSinceLastRemove + 1) in
            if steps <? size waiting then check_waiting fuel v steps waiting else None
      end
  end.

(** The loop over [mapNextTx]. *)
Definition check_next (pool : CTxMemPool) (it : COutPoint * CInPoint) : bool :=
  match mapTx pool !! ptx it.2 with
  | None => false
  | Some e =>
      bool_decide (tx_GetHash (pool_tx e) = ptx it.2) &&
      match vin (pool_tx e) !! Z.to_nat (in_n it.2) with Some i => bool_decide (it.1 = prevout i) | None => false end
  end.

Definition pool_check (fSanityCheck : bool) (pool : CTxMemPool) (pcoins : CCoinsView) : option unit :=
  if negb fSanityCheck then Some tt
  else
    '(checkTotal, v, waiting) ← check_entries pool 0 (CCoinsViewCache uint256_null ∅ pcoins) [] (pool_entries (mapTx pool));
    _ ← check_waiting (length waiting * S (length waiting)) v 0 waiting;
    if forallb (check_next pool) (map_to_list (mapNextTx pool)) && (totalTxSize pool =? checkTotal) then Some tt else None.

(** * Lemmas *)

Lemma check_entries_fails pool hash e l : (∀ v, check_inputs pool hash v 0 false (vin (pool_tx e)) = None) → (hash, e) ∈ l →
  ∀ checkTotal v waiting, check_entries pool checkTotal v waiting l = None.
Proof.
  intros Hf. induction l as [|[h x] l IH]; intros Hin checkTotal v waiting; [by apply elem_of_nil in Hin|]. cbn [check_entries].
  apply elem_of_cons in Hin as [[= <- <-]|Hin]; [by rewrite Hf|]. destruct (check_inputs pool h v 0 false _) as [[wait v']|]; [|done]. cbn [mbind option_bind].
  destruct wait; [by apply IH|]. destruct (check_apply _ v'); [by apply IH|done].
Qed.

Lemma check_inputs_unmarked pool hash v i wait txin l : mapNextTx pool !! prevout txin = None → check_inputs pool hash v i wait (txin :: l) = None.
Proof.
  intros Hn. cbn [check_inputs]. rewrite Hn. destruct (mapTx pool !! _) as [e2|].
  - destruct (vout _ !! _) as [o|]; [|done]. cbn [mbind option_bind]. by destruct (CTxOut_IsNull o).
  - destruct (base_access v _) as [[c|] v']; [|done]. cbn [mbind option_bind]. by destruct (IsAvailable c _).
Qed.

Lemma pool_entries_in (m : gmap uint256 CTxMemPoolEntry) h e : m !! h = Some e → (h, e) ∈ pool_entries m.
Proof. intros He. unfold pool_entries. rewrite sorting.merge_sort_Permutation. by apply elem_of_map_to_list. Qed.
End check.

(** The self check cannot run while a zerocoin spend is in the pool.  The inputs of a
    spend are not entered into [mapNextTx], and [check] asserts that the inputs of every
    transaction are: with -checkmempool the node stops. *)
Theorem check_aborts_on_spend (Params : CChainParams) heightOf `{HashFunctions} `{Secp256k1} `{ZerocoinChecks} `{Doubles} pool pcoins h e :
  pool_ok pool → mapTx pool !! h = Some e → tx_IsZerocoinSpend (pool_tx e) = Some true →
  pool_check Params heightOf true pool pcoins = None.
Proof.
  intros Hok He Hz. unfold pool_check. cbn [negb]. rewrite (check_entries_fails Params heightOf pool h e); [done| |by apply pool_entries_in].
  intros v. unfold tx_IsZerocoinSpend in Hz. destruct (vin (pool_tx e)) as [|i l] eqn:Ev; [done|]. apply check_inputs_unmarked.
  destruct (mapNextTx pool !! prevout i) as [ip|] eqn:Em; [|done]. exfalso. destruct (po_next _ Hok _ _ Em) as (e' & k & j & He' & Hz' & Hk & Ej & _).
  apply (po_nonnull _ Hok _ _ j He' Hz' (list_elem_of_lookup_2 _ _ _ Hk)). rewrite Ej. apply (po_null _ Hok _ _ i He); [|rewrite Ev; left].
  unfold tx_IsZerocoinSpend. by rewrite Ev.
Qed.
