(* ===== verification/MemPoolProps.v ===== *)
(** The memory pool along its operations: what it holds is consistent, what leaves it is
    what should, and what a transaction with unusual inputs does to it. *)

From stdpp Require Import strings.
From S2P Require Import Prelude ChainParams Script PubKey Serialize Interpreter Standard Transaction SigHash Coins CoinsView Validation ValidationFacts ZerocoinProps MemPool MemPoolFacts MemPoolAccept MemPoolCheck.
Local Open Scope Z_scope.

(** The inputs of a zerocoin spend name no transaction, those of another transaction
    name one and do not look like zerocoin inputs. *)
Definition proper_tx (tx : CMutableTransaction) : Prop :=
  (tx_IsZerocoinSpend tx = Some true → ∀ i, i ∈ vin tx → op_hash (prevout i) = uint256_null) ∧
  (tx_IsZerocoinSpend tx = Some false → ∀ i, i ∈ vin tx → op_hash (prevout i) ≠ uint256_null ∧ IsZerocoinSpend (scriptSig i) = false).

Lemma check_duplicates_distinct l : ∀ seen, check_duplicates seen l = Passed tt → (∀ i, i ∈ l → IsZerocoinSpend (scriptSig i) = false) →
  NoDup (map prevout l) ∧ ∀ i, i ∈ l → prevout i ∉ seen.
Proof.
  induction l as [|x l IH]; intros seen Hc Hl; cbn [check_duplicates map] in *; [split; [constructor|by intros ? ?%elem_of_nil]|].
  case_bool_decide as Hs; [done|]. rewrite (Hl x) in Hc by left. cbn [negb] in Hc. destruct (IH _ Hc) as [Hnd Hseen]; [intros; apply Hl; by right|]. split.
  - constructor; [|done]. intros (i & E & Hi)%list_elem_of_fmap. apply (Hseen i Hi). rewrite <-E. left.
  - intros i [->|Hi]%elem_of_cons; [done|]. intros Hin. apply (Hseen i Hi). by right.
Qed.

Section accept.
Context (Params : CChainParams) `{HF : HashFunctions} `{HS : Secp256k1} `{HD : Doubles}.

Lemma CheckTransaction_duplicates `{HZ : ZerocoinChecks} tx active : CheckTransaction Params tx active = Passed tt → check_duplicates [] (vin tx) = Passed tt.
Proof.
  unfold CheckTransaction. destruct (_ =? _)%nat; [done|]. destruct (_ =? _)%nat; [done|]. destruct (_ <? _); [done|]. intros Hc.
  passed Hc. passed Hc. passed Hc. by destruct r1.
Qed.

Lemma accept_can_add `{HZ : ZerocoinChecks} p chainHeight heightOf pool base tx fLimitFree fRejectInsaneFee ignoreFees pool' : proper_tx tx →
  AcceptToMemoryPool Params p chainHeight heightOf pool base tx fLimitFree fRejectInsaneFee ignoreFees = Passed pool' →
  ∃ nFees, let e := PoolEntry_of tx nFees (entry_time p) (u32 chainHeight) in
    can_add pool (tx_GetHash tx) e ∧ addUnchecked pool (tx_GetHash tx) e = Some pool'.
Proof.
  intros [Hp1 Hp2] Ha. unfold AcceptToMemoryPool in Ha. passed Ha. rename E into Ec. passed Ha. destruct r0; [done|]. destruct (IsCoinStake tx); [done|].
  passed Ha. destruct r0; [done|]. case_bool_decide as Hfresh; [done|]. passed Ha. rename r0 into zs. destruct (tx_IsZerocoinSpend tx) as [zs'|] eqn:Hz; [|done]. injection E1 as ->.
  destruct (negb zs && _) eqn:Hconf; [done|]. passed Ha. destruct r0 as [nValueIn view]. passed Ha. destruct r0 as [std view1]. destruct std; [|done]. cbn [negb] in Ha.
  passed Ha. destruct r0 as [many view2]. destruct many; [done|]. passed Ha. rename r0 into nValueOut. passed Ha. destruct (fRejectInsaneFee && _); [done|].
  passed Ha. destruct r1 as [? view3]. passed Ha. destruct r1 as [? view4]. exists (s64 (nValueIn - nValueOut)). intros e.
  split; [|unfold e; destruct (addUnchecked _ _ _); [by injection Ha as ->|done]].
  assert (check_duplicates [] (vin tx) = Passed tt) as Hdup.
  { apply (CheckTransaction_duplicates tx (nZerocoinStartHeight Params <=? chainHeight)). destruct (CheckTransaction _ _ _) as [| |[]]; done. }
  split; cbn [e PoolEntry_of pool_tx].
  - done.
  - by apply eq_None_not_Some.
  - by rewrite Hz.
  - intros i Hs Hi. apply Hp1; [congruence|done].
  - intros i Hs Hi. split; [apply Hp2; [congruence|done]|]. assert (zs = false) as -> by congruence. cbn [negb andb] in Hconf.
    destruct (mapNextTx pool !! prevout i) as [ip|] eqn:Em; [|done]. exfalso. assert (existsb (λ i, bool_decide (is_Some (mapNextTx pool !! prevout i))) (vin tx) = true) as Hx; [|congruence].
    apply existsb_exists. exists i. split; [by apply list_elem_of_In|]. apply bool_decide_eq_true. by rewrite Em.
  - intros Hs. apply (check_duplicates_distinct _ _ Hdup). intros i Hi. apply Hp2; [congruence|done].
Qed.

(** ** Runs *)

(** An acceptance sees the zerocoin database, the policy with its clock, the height of
    the chain, the block index and the coins of its time. *)
Inductive pool_event :=
  | ev_accept (zc : ZerocoinChecks) (p : policy) (chainHeight : Z) (heightOf : uint256 → option Z) (base : CCoinsView) (tx : CMutableTransaction) (fLimitFree fRejectInsaneFee ignoreFees : bool)
  | ev_remove (tx : CMutableTransaction) (fRecursive : bool)
  | ev_block (vtx : list CMutableTransaction)
  | ev_coinbase (fSanityCheck : bool) (pcoins : CCoinsView) (nMemPoolHeight : Z)
  | ev_prioritise (hash : uint256) (dPriorityDelta : double) (nFeeDelta : Z)
  | ev_clear.
Definition run_event (pool : CTxMemPool) (ev : pool_event) : option CTxMemPool :=
  match ev with
  | ev_accept zc p chainHeight heightOf base tx f1 f2 f3 =>
      match AcceptToMemoryPool Params (H1 := zc) p chainHeight heightOf pool base tx f1 f2 f3 with
      | Passed pool' => Some pool'
      | Rejected _ _ => Some pool
      | Undefined => None
      end
  | ev_remove tx r => fst <$> remove pool tx [] r
  | ev_block vtx => fst <$> removeForBlock pool [] vtx
  | ev_coinbase f pcoins h => fst <$> removeCoinbaseSpends Params f pool pcoins h
  | ev_prioritise hash d f => Some (PrioritiseTransaction pool hash d f)
  | ev_clear => Some (clear pool)
  end.
Definition proper_event (ev : pool_event) : Prop := match ev with ev_accept _ _ _ _ _ tx _ _ _ => proper_tx tx | _ => True end.
Fixpoint run_events (pool : CTxMemPool) (l : list pool_event) : option CTxMemPool :=
  match l with [] => Some pool | ev :: l => pool ← run_event pool ev; run_events pool l end.

Lemma run_event_ok pool ev pool' : pool_ok pool → proper_event ev → run_event pool ev = Some pool' → pool_ok pool'.
Proof.
  intros Hok Hp. destruct ev as [zc p chainHeight heightOf base tx f1 f2 f3|tx r|vtx|f pcoins h|hash d f|]; cbn [run_event].
  - destruct (AcceptToMemoryPool _ _ _ _ _ _ _ _ _ _) as [| |pool1] eqn:E; [done|by intros [= <-]|]. intros [= <-].
    apply accept_can_add in E as (nFees & Hadd & E); [|done]. destruct (addUnchecked_ok _ _ _ Hok Hadd) as (pool2 & E2 & Hok2 & _). congruence.
  - destruct (remove_spec pool tx [] r Hok) as (pool1 & l & -> & Hr). intros [= <-]. apply Hr.
  - destruct (removeForBlock_spec vtx pool [] Hok) as (pool1 & l & -> & Hok1 & _). by intros [= <-].
  - unfold removeCoinbaseSpends. destruct (collect_immature _ _ _ _ _ _) as [[l v]|]; [|done]. cbn [mbind option_bind].
    destruct (remove_all_ok l pool Hok) as (pool1 & -> & Hok1 & _). by intros [= <-].
  - intros [= <-]. unfold PrioritiseTransaction. destruct (default _ _). destruct Hok. by split.
  - intros [= <-]. apply clear_ok.
Qed.
Lemma run_events_ok l : ∀ pool pool', pool_ok pool → Forall proper_event l → run_events pool l = Some pool' → pool_ok pool'.
Proof.
  induction l as [|ev l IH]; intros pool pool' Hok Hl; cbn [run_events]; [by intros [= <-]|]. apply Forall_cons in Hl as [Hev Hl].
  destruct (run_event pool ev) as [pool1|] eqn:E; [|done]. cbn [mbind option_bind]. apply IH; [by eapply run_event_ok|done].
Qed.
End accept.

(** * Properties *)

(** C7: The memory pool stays consistent.  After any sequence of acceptances, removals,
    connected blocks, reorganisations and priority changes, in which the transactions that
    arrive are proper (the inputs of a zerocoin spend name no transaction, those of another
    transaction name one and do not look like zerocoin inputs), and whatever height, policy,
    coins and zerocoin database each acceptance sees, [mapNextTx] names
    for an output exactly the transaction of the pool that spends it, no output is spent
    twice, the keys are the transaction ids, and [totalTxSize] is the sum of the sizes. *)
Theorem mempool_consistent (Params : CChainParams) `{HashFunctions} `{Secp256k1} `{Doubles} l pool :
  Forall proper_event l → run_events Params MemPool_empty l = Some pool →
  (∀ o h, (∃ n, mapNextTx pool !! o = Some (InPoint h n)) ↔
     ∃ e, mapTx pool !! h = Some e ∧ tx_IsZerocoinSpend (pool_tx e) = Some false ∧ o ∈ map prevout (vin (pool_tx e))) ∧
  (∀ h e h' e' o, mapTx pool !! h = Some e → mapTx pool !! h' = Some e' → tx_IsZerocoinSpend (pool_tx e) = Some false →
     o ∈ map prevout (vin (pool_tx e)) → o ∈ map prevout (vin (pool_tx e')) → h = h') ∧
  (∀ h e, mapTx pool !! h = Some e → tx_GetHash (pool_tx e) = h) ∧
  totalTxSize pool = u64 (pool_size (mapTx pool)).
Proof.
  intros Hl Hr. pose proof (run_events_ok Params l _ _ empty_ok Hl Hr) as Hok. split_and!.
  - intros o h. split.
    + intros [n Ho]. destruct (po_next _ Hok _ _ Ho) as (e & k & i & He & Hz & Hk & <- & _). exists e. split_and!; [done..|].
      apply list_elem_of_fmap. exists i. split; [done|by eapply list_elem_of_lookup_2].
    + intros (e & He & Hz & (i & -> & [k Hk]%list_elem_of_lookup)%list_elem_of_fmap). eexists. by apply (po_mark _ Hok h e k).
  - intros h e h' e' o He He' Hz (i & -> & Hi)%list_elem_of_fmap (i' & E & Hi')%list_elem_of_fmap. by eapply (pool_ok_spender pool h h' e e' i i').
  - apply (po_key _ Hok).
  - apply (po_total _ Hok).
Qed.

(** C16: [remove] with [fRecursive] always ends, and it takes out exactly the transaction
    and the transactions that descend from it through spent outputs: they are the ones in
    [removed], and everything else stays, with its marks. *)
Theorem mempool_remove_exact `{HashFunctions} `{Doubles} pool tx : pool_ok pool →
  ∃ pool' l, remove pool tx [] true = Some (pool', l) ∧ pool_ok pool' ∧
    (∀ h e, mapTx pool' !! h = Some e ↔ mapTx pool !! h = Some e ∧ ¬ removed_by pool tx true h) ∧
    (∀ o ip, mapNextTx pool' !! o = Some ip ↔ mapNextTx pool !! o = Some ip ∧ ¬ removed_by pool tx true (ptx ip)) ∧
    (∀ t, t ∈ l ↔ ∃ h e, mapTx pool !! h = Some e ∧ t = pool_tx e ∧ removed_by pool tx true h).
Proof. intros Hok. destruct (remove_spec pool tx [] true Hok) as (pool' & l & E & [? ? ? ? _]). by exists pool', l. Qed.

(** C17: When a block is connected, [removeForBlock] leaves no transaction of the block in
    the pool and none that spends an output a transaction of the block spends; and a
    transaction goes only if it is in the block or if it, or a transaction of the pool that
    it descends from, conflicts with one. *)
Theorem removeForBlock_exact `{HashFunctions} `{Doubles} pool vtx : pool_ok pool →
  ∃ pool' conflicts, removeForBlock pool [] vtx = Some (pool', conflicts) ∧ pool_ok pool' ∧
    (∀ tx, tx ∈ vtx → mapTx pool' !! tx_GetHash tx = None ∧ ∀ i, i ∈ vin tx → mapNextTx pool' !! prevout i = None) ∧
    (∀ h e, mapTx pool' !! h = Some e → mapTx pool !! h = Some e) ∧
    (∀ h e, mapTx pool !! h = Some e → mapTx pool' !! h = None → h ∉ map tx_GetHash vtx →
       ¬ ∀ z tx, rtc (child pool) z h → tx ∈ vtx → ¬ conflicts_with pool tx z).
Proof.
  intros Hok. destruct (removeForBlock_spec vtx pool [] Hok) as (pool' & c & E & Hok' & Hs & Hb & Hk). exists pool', c. split_and!; [done..|apply Hs|].
  intros h e He Hn Hni Hz. rewrite (Hk h e He Hni Hz) in Hn. done.
Qed.

(** C38: An input of a zerocoin spend after the first may name any output.  When such a
    spend leaves the pool, the mark of that output goes with it, although the transaction
    that spends it is still in the pool; the next transaction that spends the output is no
    longer seen as a conflict. *)
Theorem spend_removal_unmarks `{HashFunctions} `{Doubles} pool hA eA z ez o :
  mapTx pool !! hA = Some eA → mapTx pool !! tx_GetHash z = Some ez → pool_tx ez = z → hA ≠ tx_GetHash z →
  o ∈ map prevout (vin (pool_tx eA)) → o ∈ map prevout (vin z) →
  ∃ pool' l, remove pool z [] false = Some (pool', l) ∧ mapTx pool' !! hA = Some eA ∧ mapNextTx pool' !! o = None.
Proof.
  intros HA Hz Ez Hne HoA Hoz. unfold remove. cbn [andb mbind option_bind length Nat.add remove_loop]. rewrite Hz. cbn [mbind option_bind app].
  exists (erase_entry pool (tx_GetHash z) ez), [pool_tx ez]. split; [|split].
  - rewrite (pool_weight_delete _ _ _ Hz). done.
  - cbn [erase_entry mapTx]. by rewrite lookup_delete_ne.
  - cbn [erase_entry mapNextTx]. rewrite delete_inputs_lookup, decide_True; [done|by rewrite Ez].
Qed.

(** * A small pool *)

#[local] Existing Instance small_hashes.
#[local] Existing Instance small_secp.
#[local] Instance small_doubles : Doubles := {| double := Z; d_zero := 0; d_add := Z.add; d_positive d := 0 <? d |}.
(** Zerocoin checks that accept everything. *)
#[local] Instance small_checks : ZerocoinChecks := {|
  CheckZerocoinMint _ := Passed tt; CheckZerocoinSpend _ := Passed tt; TxOutToPublicCoin _ := Passed 0; ContextualCheckZerocoinMint _ := true;
  TxInToZerocoinSpend _ := Passed (0, 0); ContextualCheckZerocoinSpend _ := Passed true; UpdateZKPSupply _ := Passed true;
  ValidateAccumulatorCheckpoint _ := Passed true; record_checksums _ acc := Passed acc; erase_checksums _ _ acc := Some acc; IsTransactionInChain _ := None;
|}.
Definition small_policy : policy := Policy true 83 true true (λ _ _ _, true) (λ _, false) 0 0.
Definition coin_hash : uint256 := replicate 32 9.
Definition small_base : CCoinsView := CCoinsViewDB {[coin_hash := Coins false false [TxOut 1000 [OP_1] 0] 5 1]} (replicate 32 7).
(** A transaction that spends the coin, one that spends an output of it, another one that
    spends the coin, and a zerocoin spend that names it. *)
Definition tx_a : CMutableTransaction := MTx 1 [TxIn (OutPoint coin_hash 0) [] 0 []] [TxOut 500 [OP_1] 0] 0.
Definition tx_child : CMutableTransaction := MTx 1 [TxIn (OutPoint (tx_GetHash tx_a) 0) [] 0 []] [TxOut 300 [OP_1] 0] 0.
Definition tx_b : CMutableTransaction := MTx 2 [TxIn (OutPoint coin_hash 0) [] 0 []] [TxOut 400 [OP_1] 0] 0.
Definition tx_z : CMutableTransaction :=
  MTx 1 [TxIn (OutPoint uint256_null 0) [OP_ZEROCOINSPEND] 5 []; TxIn (OutPoint coin_hash 0) [OP_ZEROCOINSPEND] 5 []] [TxOut 500 [OP_1] 0] 0.
Definition small_accept (tx : CMutableTransaction) : pool_event := ev_accept small_checks small_policy 300 (λ _, Some 300) small_base tx false false true.
Definition small_run (l : list pool_event) : option CTxMemPool := run_events regTestParams MemPool_empty l.
Definition small_pool : CTxMemPool := default MemPool_empty (small_run [small_accept tx_a; small_accept tx_child]).

Lemma proper_coin_tx v h n outs : h ≠ uint256_null → uint256_IsNull h = false → proper_tx (MTx v [TxIn (OutPoint h n) [] 0 []] outs 0).
Proof.
  intros Hn Hf. unfold proper_tx. cbn [tx_IsZerocoinSpend vin prevout op_hash]. rewrite Hf. split; [done|]. intros _ i ->%list_elem_of_singleton. split; [exact Hn|reflexivity].
Qed.
Lemma small_events_proper : Forall proper_event [small_accept tx_a; small_accept tx_child].
Proof. repeat (apply Forall_cons_2; [apply proper_coin_tx; [vm_compute; discriminate|vm_compute; reflexivity]|]). constructor. Qed.
Lemma small_run_pool : small_run [small_accept tx_a; small_accept tx_child] = Some small_pool.
Proof. unfold small_pool. destruct (small_run _) as [pool|] eqn:E; [reflexivity|vm_compute in E; discriminate E]. Qed.
Lemma small_pool_ok : pool_ok small_pool.
Proof. exact (run_events_ok regTestParams _ _ _ empty_ok small_events_proper small_run_pool). Qed.

Lemma mempool_consistent_witness : mapNextTx small_pool !! OutPoint coin_hash 0 = Some (InPoint (tx_GetHash tx_a) 0) ∧ tx_GetHash tx_a ≠ tx_GetHash tx_child ∧
  ∀ h e, mapTx small_pool !! h = Some e → OutPoint coin_hash 0 ∈ map prevout (vin (pool_tx e)) → tx_GetHash tx_a = h.
Proof.
  destruct (mempool_consistent regTestParams _ _ small_events_proper small_run_pool) as (_ & Huniq & _).
  split; [vm_compute; reflexivity|]. split; [vm_compute; discriminate|]. intros h e He Ho.
  apply (Huniq (tx_GetHash tx_a) (PoolEntry_of tx_a 500 0 300) h e (OutPoint coin_hash 0)); [vm_compute; reflexivity|exact He|vm_compute; reflexivity|left|exact Ho].
Defined.

Lemma mempool_remove_exact_witness : ∃ pool' l, remove small_pool tx_a [] true = Some (pool', l) ∧ tx_child ∈ l.
Proof.
  destruct (mempool_remove_exact small_pool tx_a small_pool_ok) as (pool' & l & E & _ & _ & _ & Hl). exists pool', l. split; [exact E|].
  apply Hl. exists (tx_GetHash tx_child), (PoolEntry_of tx_child 200 0 300). split_and!; [vm_compute; reflexivity|reflexivity|]. split; [eexists; vm_compute; reflexivity|].
  left. apply rtc_once. split; [reflexivity|]. exists (PoolEntry_of tx_a 500 0 300), 0%nat, (InPoint (tx_GetHash tx_child) 0).
  split_and!; [vm_compute; reflexivity|apply Nat.ltb_lt; reflexivity|vm_compute; reflexivity|reflexivity].
Defined.

(** A block with [tx_b] removes both. *)
Lemma removeForBlock_exact_witness : ∃ pool' c, removeForBlock small_pool [] [tx_b] = Some (pool', c) ∧ mapNextTx pool' !! OutPoint coin_hash 0 = None.
Proof.
  destruct (removeForBlock_exact small_pool [tx_b] small_pool_ok) as (pool' & c & E & _ & Hb & _). exists pool', c. split; [exact E|].
  destruct (Hb tx_b) as [_ Hm]; [left|]. apply (Hm (TxIn (OutPoint coin_hash 0) [] 0 [])). left.
Defined.

(** After the removal of the zerocoin spend the pool accepts a double spend. *)
Lemma spend_removal_unmarks_witness :
  let pool := default MemPool_empty (small_run [small_accept tx_a; small_accept tx_z]) in
  (∃ pool' l, remove pool tx_z [] false = Some (pool', l) ∧ mapNextTx pool' !! OutPoint coin_hash 0 = None) ∧
  match small_run [small_accept tx_a; small_accept tx_z; ev_remove tx_z false; small_accept tx_b] with
  | Some pool' => is_Some (mapTx pool' !! tx_GetHash tx_a) ∧ is_Some (mapTx pool' !! tx_GetHash tx_b)
  | None => False
  end.
Proof.
  intros pool. split.
  - destruct (spend_removal_unmarks pool (tx_GetHash tx_a) (PoolEntry_of tx_a 500 0 300) tx_z (PoolEntry_of tx_z 999999500 0 300) (OutPoint coin_hash 0))
      as (pool' & l & E & _ & Hn); [vm_compute; reflexivity|vm_compute; reflexivity|reflexivity|vm_compute; discriminate|left|right; left|].
    exists pool', l. split; [exact E|exact Hn].
  - vm_compute. split; eexists; reflexivity.
Defined.

(** The self check of a pool with an ordinary zerocoin spend. *)
Definition tx_spend : CMutableTransaction := MTx 1 [TxIn (OutPoint uint256_null 0) [OP_ZEROCOINSPEND] 5 []] [TxOut 500 [OP_1] 0] 0.
Definition spend_pool : CTxMemPool := default MemPool_empty (small_run [small_accept tx_spend]).
Lemma check_aborts_on_spend_witness : pool_check regTestParams (λ _, Some 300) true spend_pool small_base = None.
Proof.
  assert (small_run [small_accept tx_spend] = Some spend_pool) as Hr
    by (unfold spend_pool; destruct (small_run _) as [pool|] eqn:E; [reflexivity|vm_compute in E; discriminate E]).
  apply (check_aborts_on_spend regTestParams (λ _, Some 300) spend_pool small_base (tx_GetHash tx_spend) (PoolEntry_of tx_spend 499999500 0 300)); [|vm_compute; reflexivity|vm_compute; reflexivity].
  refine (run_events_ok regTestParams _ _ _ empty_ok _ Hr). apply Forall_cons_2; [|constructor]. split.
  - intros _ i ->%list_elem_of_singleton. reflexivity.
  - intros Hz. vm_compute in Hz. discriminate Hz.
Defined.
