(* ===== verification/Kernel.v ===== *)
(** kernel.cpp, stake.h / stake.cpp, and the parts of chain.h, block.cpp and main.cpp
    they use: the modifier and the hash test of the kernel of a coinstake, the search of a
    staker and the check of a proof-of-stake block.  The results are as in
    StakeModifier.v. *)

From stdpp Require Import sorting.
From S2P Require Import Prelude CryptoCommon ArithUint256 ChainParams BlockIndex Pow StakeModifier ChainState Script PubKey Interpreter Standard Transaction SigHash Coins Validation BlockCheck MemPool.
Import BaseUint Arith256 BlockIndex.
Local Open Scope Z_scope.

Abbreviation chain := (list (option ptr)) (only parsing).

Section kernel_modifier.
Context (Params : CChainParams).

(** ** The modifier of a kernel *)

(** [while (nStakeModifierTime < pindexFrom->GetBlockTime() + nStakeModifierSelectionInterval)];
    the result also has [nStakeModifierHeight] and [nStakeModifierTime]. *)
Fixpoint kernel_loop (ks : kernel_state) (chainActive : chain) (fuel : nat) (stopTime : Z) (pindex : ptr) (pindexNext : option ptr)
    (nStakeModifierHeight nStakeModifierTime : Z) : option (bool * Z * Z * Z) :=
  if nStakeModifierTime <? stopTime then
    match fuel with
    | O => None
    | S fuel =>
        match pindexNext with
        | None => Some (false, 0, nStakeModifierHeight, nStakeModifierTime)
        | Some next =>
            b ← ks_index ks !! next;
            match chain_at chainActive (nHeight b + 1) with
            | None => Some (true, 0, nStakeModifierHeight, nStakeModifierTime)
            | Some pindexNext =>
                if GeneratedStakeModifier b
                then kernel_loop ks chainActive fuel stopTime next (Some pindexNext) (nHeight b) (nTime b)
                else kernel_loop ks chainActive fuel stopTime next (Some pindexNext) nStakeModifierHeight nStakeModifierTime
            end
        end
    end
  else f ← ks_fields ks !! pindex; Some (true, nStakeModifier f, nStakeModifierHeight, nStakeModifierTime).
Definition GetKernelStakeModifier (ks : kernel_state) (chainActive : chain) (hashBlockFrom : uint256) : option (bool * Z * Z * Z) :=
  match find_block (ks_index ks) hashBlockFrom with
  | None => Some (false, 0, 0, 0)
  | Some pindexFrom =>
      b ← ks_index ks !! pindexFrom;
      nStakeModifierSelectionInterval ← GetStakeModifierSelectionInterval Params;
      kernel_loop ks chainActive (length chainActive + 1) (nTime b + nStakeModifierSelectionInterval) pindexFrom
        (chain_at chainActive (nHeight b + 1)) (nHeight b) (nTime b)
  end.
End kernel_modifier.

(** ** The kernel hash test *)

Section stake.
Context (Params : CChainParams) `{HashFunctions} `{Secp256k1}.

(** The product is a 256-bit one. *)
Definition stakeTargetHit (hashProofOfStake : uint256) (nValueIn : Z) (bnTargetPerCoinDay : list Z) : option bool :=
  bnCoinDayWeight ← op_div W256 (of_u64 W256 (u64 nValueIn)) (of_u64 W256 100);
  Some (op_lt (UintToArith256 hashProofOfStake) (op_mul W256 bnCoinDayWeight bnTargetPerCoinDay)).

(** The hash that a stake with identifier [ssUniqueID] must bring under its target. *)
Definition kernel_hash (ssUniqueID : list Z) (nStakeModifier nTimeBlockFrom nTimeTx : Z) : uint256 :=
  Hash256 (WriteLE64 nStakeModifier ++ WriteLE32 nTimeBlockFrom ++ ssUniqueID ++ WriteLE32 nTimeTx).
(** The second component is [hashProofOfStake]. *)
Definition CheckStake (ssUniqueID : list Z) (nValueIn nStakeModifier : Z) (bnTarget : list Z) (nTimeBlockFrom nTimeTx : Z) : option (bool * uint256) :=
  let hashProofOfStake := kernel_hash ssUniqueID nStakeModifier nTimeBlockFrom nTimeTx in
  hit ← stakeTargetHit hashProofOfStake nValueIn bnTarget; Some (hit, hashProofOfStake).

(** ** Where a stake comes from *)

(** What [GetTransaction] and [ReadBlockFromDisk] read: the memory pool, the transaction
    index (the inner [None] is a file error), the coins of the tip and the block stored
    at the position of a node. *)
Record tx_sources := TxSources {
  ts_mempool : uint256 → option CMutableTransaction;
  ts_fTxIndex : bool;
  ts_ReadTxIndex : uint256 → option (option (CBlockHeader * CMutableTransaction));
  ts_AccessCoins : uint256 → option CCoins;
  ts_block_file : ptr → option CBlock;
}.
Context (ks : kernel_state) (chainActive : chain) (src : tx_sources).

(** [ReadBlockFromDisk] of a position, and of a node *)
Definition ReadBlockFromDisk_pos (pindex : ptr) : option CBlock :=
  block ← ts_block_file src pindex;
  if Transaction.IsProofOfStake block || CheckProofOfWork Params (header_GetHash (header block)) (hdr_nBits (header block))
  then Some block else None.
Definition ReadBlockFromDisk (pindex : ptr) : option CBlock :=
  block ← ReadBlockFromDisk_pos pindex;
  b ← ks_index ks !! pindex;
  if bool_decide (header_GetHash (header block) = phashBlock b) then Some block else None.

(** [GetTransaction]: the transaction and [hashBlock], which stays null for a transaction
    of the memory pool; [None] is [false]. *)
Definition GetTransaction (hash : uint256) (fAllowSlow : bool) : option (CMutableTransaction * uint256) :=
  match ts_mempool src hash with
  | Some tx => Some (tx, uint256_null)
  | None =>
      if ts_fTxIndex src then
        '(header, tx) ← mjoin (ts_ReadTxIndex src hash);
        if bool_decide (tx_GetHash tx = hash) then Some (tx, header_GetHash header) else None
      else
        let nHeight := match ts_AccessCoins src hash with Some coins => coins_nHeight coins | None => -1 end in
        if fAllowSlow && (0 <? nHeight) then
          pindexSlow ← chain_at chainActive nHeight;
          block ← ReadBlockFromDisk pindexSlow;
          tx ← head (filter (λ tx, tx_GetHash tx = hash) (vtx block));
          b ← ks_index ks !! pindexSlow;
          Some (tx, phashBlock b)
        else None
  end.

Record CStake := MkStake { pindexFrom : option ptr; txFrom : CMutableTransaction; nPosition : Z }.

Definition GetIndexFrom (s : CStake) : CStake :=
  match GetTransaction (tx_GetHash (txFrom s)) true with
  | Some (_, hashBlock) =>
      match find_block (ks_index ks) hashBlock with
      | Some pindex => if Contains (ks_index ks) chainActive pindex then MkStake (Some pindex) (txFrom s) (nPosition s) else s
      | None => s
      end
  | None => s
  end.
Definition GetValue (s : CStake) : option Z := nValue <$> vout (txFrom s) !! Z.to_nat (nPosition s).
Definition GetUniqueness (s : CStake) : list Z := WriteLE32 (nPosition s) ++ tx_GetHash (txFrom s).
(** The returned value, [nStakeModifier] and the stake, whose [pindexFrom] may change. *)
Definition GetModifier (s : CStake) : option (bool * Z * CStake) :=
  let s := GetIndexFrom s in
  match pindexFrom s with
  | None => Some (false, 0, s)
  | Some p =>
      b ← ks_index ks !! p;
      '(ok, modifier, _, _) ← GetKernelStakeModifier Params ks chainActive (phashBlock b);
      Some (ok, modifier, s)
  end.

(** ** Staking and checking a stake *)

(** The loop of [Stake]; [heights] are the heights of the chain that its iterations see.
    The result is the time found with its hash, or the last hash tried. *)
Definition nHashDrift : Z := 30.
Fixpoint stake_loop (ssUniqueID : list Z) (nValueIn modifier : Z) (bnTarget : list Z) (nTimeBlockFrom nTimeTx nHeightStart : Z)
    (heights : list Z) (i : Z) (hashProofOfStake : uint256) : option (option Z * uint256) :=
  match heights with
  | [] => Some (None, hashProofOfStake)
  | height :: heights =>
      if negb (height =? nHeightStart) then Some (None, hashProofOfStake)
      else
        let nTryTime := u32 (nTimeTx + nHashDrift - i) in
        '(ok, hash) ← CheckStake ssUniqueID nValueIn modifier bnTarget nTimeBlockFrom nTryTime;
        if (ok : bool) then Some (Some nTryTime, hash)
        else stake_loop ssUniqueID nValueIn modifier bnTarget nTimeBlockFrom nTimeTx nHeightStart heights (i + 1) hash
  end.
(** The returned value, [nTimeTx], [hashProofOfStake] and [mapHashedBlocks]; the clock
    shows [now] and [heights] has the height at each of the [nHashDrift] iterations. *)
Definition Stake (s : CStake) (bits nTimeBlockFrom nTimeTx : Z) (hashProofOfStake : uint256) (mapHashedBlocks : gmap Z Z)
    (heights : list Z) (now : Z) : option (bool * Z * uint256 * gmap Z Z) :=
  if nTimeTx <? nTimeBlockFrom then Some (false, nTimeTx, hashProofOfStake, mapHashedBlocks)
  else if nTimeTx <? u32 (nTimeBlockFrom + nStakeMinAge Params) then Some (false, nTimeTx, hashProofOfStake, mapHashedBlocks)
  else
    let bnTargetPerCoinDay := cr_value (SetCompact bits) in
    '(ok, modifier, s) ← GetModifier s;
    if negb (ok : bool) then Some (false, nTimeTx, hashProofOfStake, mapHashedBlocks)
    else
      nValueIn ← GetValue s;
      '(found, hash) ← stake_loop (GetUniqueness s) nValueIn modifier bnTargetPerCoinDay nTimeBlockFrom nTimeTx (Height chainActive) heights 0 hashProofOfStake;
      tip ← Tip chainActive ≫= (ks_index ks !!.);
      let hashed := {[nHeight tip := u32 now]} in
      Some match found with
      | Some nTryTime => (true, nTryTime, hash, hashed)
      | None => (false, nTimeTx, hash, hashed)
      end.

(** The returned value, [hashProofOfStake] and [stake], which are null at the call. *)
Definition CheckProofOfStake (block : CBlock) : option (bool * uint256 * option CStake) :=
  tx ← vtx block !! 1%nat;
  if negb (IsCoinStake tx) then Some (false, uint256_null, None)
  else
    txin ← vin tx !! 0%nat;
    spend ← tx_IsZerocoinSpend tx;
    if (spend : bool) then Some (true, uint256_null, None)
    else match GetTransaction (op_hash (prevout txin)) true with
    | None => Some (false, uint256_null, None)
    | Some (txPrev, _) =>
        out ← vout txPrev !! Z.to_nat (op_n (prevout txin));
        match @VerifyScript _ (TransactionSignatureChecker tx 0) STANDARD_SCRIPT_VERIFY_FLAGS (scriptSig txin) (scriptPubKey out) with
        | Abort => None
        | Err _ => Some (false, uint256_null, None)
        | Ok _ =>
            let stake := GetIndexFrom (MkStake None txPrev (op_n (prevout txin))) in
            match pindexFrom stake with
            | None => Some (false, uint256_null, Some stake)
            | Some pindex =>
                match ReadBlockFromDisk_pos pindex with
                | None => Some (false, uint256_null, Some stake)
                | Some blockprev =>
                    let bnTargetPerCoinDay := cr_value (SetCompact (hdr_nBits (header block))) in
                    '(ok, modifier, stake) ← GetModifier stake;
                    if negb (ok : bool) then Some (false, uint256_null, Some stake)
                    else
                      value ← GetValue stake;
                      '(ok, hash) ← CheckStake (GetUniqueness stake) value modifier bnTargetPerCoinDay
                                      (hdr_nTime (header blockprev)) (hdr_nTime (header block));
                      Some (ok, hash, Some stake)
                end
            end
        end
    end.
End stake.

Definition CheckCoinStakeTimestamp (nTimeBlock nTimeTx : Z) : bool := nTimeBlock =? nTimeTx.
(** [GetWeight] *)
Definition GetWeight (Params : CChainParams) (nIntervalBeginning nIntervalEnd : Z) : Z :=
  s64 (nIntervalEnd - nIntervalBeginning - nStakeMinAge Params).
