(* ===== verification/KernelProps.v ===== *)
(** The proof-of-stake kernel: stake modifiers are defined on a network with modifier
    intervals and undefined on the main network, what selects the bits of a modifier,
    the modifier of a kernel, and what makes a proof of stake valid. *)

From stdpp Require Import sorting.
From S2P Require Import Prelude CryptoCommon HmacFacts ArithUint256 ArithFacts CompactFacts ChainParams BlockIndex BlockIndexFacts Pow PowFacts StakeModifier StakeModifierFacts ChainState ChainReachFacts Script PubKey Interpreter InterpreterFacts Standard Serialize SerializeFacts Transaction TransactionFacts SigHash Coins Validation BlockCheck MemPool Kernel.
Import BaseUint Arith256 BlockIndex.
Local Open Scope Z_scope.

(** The index grows by headers and [mapProofOfStake] by accepted proofs; no header is its
    own parent. *)
Inductive kernel_reach (Params : CChainParams) `{HashFunctions} (literal : Z) (genesis : uint256) {C : Type} : main_state C → Prop :=
  | reach_empty st : mapBlockIndex st = ∅ → kernel_reach Params literal genesis st
  | reach_proof st hash proof : kernel_reach Params literal genesis st → kernel_reach Params literal genesis (record_proof st hash proof)
  | reach_block st p hash prevHash flags version time bits q st' :
      kernel_reach Params literal genesis st → mapBlockIndex st !! p = None → words 8 hash → fits 32 time → fits 32 bits → hash ≠ prevHash →
      AddToBlockIndex Params literal genesis st p hash prevHash flags version time bits = Some (q, st') →
      kernel_reach Params literal genesis st'.

(** The active chain: the vector has a node of the right height at every index. *)
Definition active_ok (h : store) (c : list (option ptr)) : Prop :=
  ∀ k, 0 ≤ k ≤ Height c → ∃ p b, chain_at c k = Some p ∧ h !! p = Some b ∧ nHeight b = k.
(** Its nodes at the [n] heights from [k] on. *)
Fixpoint active_nodes (c : list (option ptr)) (k : Z) (n : nat) : list ptr :=
  match n with
  | O => []
  | S n => match chain_at c k with Some p => p :: active_nodes c (k + 1) n | None => active_nodes c (k + 1) n end
  end.
(** A block that generated its modifier, not before [stop]. *)
Definition matures (h : store) (stop : Z) (p : ptr) : bool :=
  match h !! p with Some b => GeneratedStakeModifier b && (stop <=? nTime b) | None => false end.
(** The first of them, below the tip, after the block at height [k - 1]. *)
Definition later_modifier (ks : kernel_state) (c : list (option ptr)) (stop k : Z) : option ptr :=
  head (filter (λ p, matures (ks_index ks) stop p = true) (active_nodes c k (Z.to_nat (Height c - k)))).
Definition modifier_of (ks : kernel_state) (p : ptr) : Z := match ks_fields ks !! p with Some f => nStakeModifier f | None => 0 end.
Definition ok_modifier (r : bool * Z * Z * Z) : bool * Z := let '(ok, m, _, _) := r in (ok, m).

Section facts.
Context (Params : CChainParams) `{HF : HashFunctions} `{HO : !HashFunctionsOk} (literal : Z) (genesis : uint256).

Lemma AddToBlockIndex_ok {C} (st : main_state C) p hash prevHash flags version time bits :
  intervals_ok Params → fits 64 literal → kernel_inv (kernel_of st) → mapBlockIndex st !! p = None → words 8 hash → fits 32 time → fits 32 bits → hash ≠ prevHash →
  ∃ q st', AddToBlockIndex Params literal genesis st p hash prevHash flags version time bits = Some (q, st') ∧ kernel_inv (kernel_of st') ∧
    is_Some (mapBlockIndex st' !! q) ∧ mapBlockIndex st ⊆ mapBlockIndex st'.
Proof.
  intros Hiv Hlit Hi Hfresh Hw Ht Hbits Hne. destruct (find_block (mapBlockIndex st) hash) as [q|] eqn:Eq.
  { exists q, st. unfold AddToBlockIndex. rewrite Eq. destruct (find_block_spec _ _ _ Eq) as (b & Hb & _). by split_and!. }
  destruct (find_block (mapBlockIndex st) prevHash) as [prev|] eqn:Ep.
  - destruct (find_block_spec _ _ _ Ep) as (c & Hc & _).
    destruct (AddToBlockIndex_child Params literal genesis Hiv Hlit st p hash prevHash flags version time bits prev c) as (s & b & m & f & proofs & best & _ & -> & _ & _ & _ & Hk); [done..|].
    eexists _, _. split_and!; [done|exact Hk|cbn; by rewrite lookup_insert_eq|cbn; by apply insert_subseteq].
  - unfold AddToBlockIndex. rewrite Eq. set (b0 := MkBlockIndex hash None None 0 flags version time bits).
    assert (kernel_inv (KernelState (<[p := b0]> (mapBlockIndex st)) (<[p := KernelFields_null]> (stake_fields (headers st))) (mapProofOfStake (headers st)))) as Hk
      by (by apply (kernel_inv_insert (kernel_of st))).
    destruct (find_block (<[p := b0]> (mapBlockIndex st)) prevHash) as [q|] eqn:Eq2.
    { exfalso. destruct (find_block_spec _ _ _ Eq2) as (b & [[<- <-]|[_ Hb]]%lookup_insert_Some & Hh); [done|].
      pose proof (find_block_complete (kernel_of st) q b Hi Hb) as E. rewrite Hh in E. unfold kernel_of in E. cbn [ks_index] in E. congruence. }
    cbn [mbind option_bind ks_index]. rewrite lookup_insert_eq. cbn [mbind option_bind].
    destruct (GetBlockProof_spec b0) as (w & -> & _); [done|]. cbn [mbind option_bind ks_index ks_fields ks_proofs].
    eexists _, _. split_and!; [reflexivity|exact Hk|cbn; by rewrite lookup_insert_eq|cbn; by apply insert_subseteq].
Qed.

Lemma reach_kernel_inv {C} (st : main_state C) : intervals_ok Params → fits 64 literal → kernel_reach Params literal genesis st → kernel_inv (kernel_of st).
Proof.
  intros Hiv Hlit. induction 1 as [st E|st hash proof _ IH|st p hash prevHash flags version time bits q st' _ IH Hp Hw Ht Hb Hne E].
  - unfold kernel_of. rewrite E. by split; cbn; intros.
  - destruct IH. by split; cbn.
  - destruct (AddToBlockIndex_ok st p hash prevHash flags version time bits) as (q' & st'' & E' & Hi & _); [done..|]. congruence.
Qed.

Lemma chain_at_tip (c : list (option ptr)) k : Height c < k → chain_at c k = None.
Proof. intros Hk. unfold chain_at, Height in *. by replace (Z.of_nat (length c) <=? k) with true by lia; rewrite orb_true_r. Qed.

Lemma kernel_loop_spec ks c fuel : ∀ k stop pindex height time,
  kernel_inv ks → active_ok (ks_index ks) c → 0 ≤ k → time < stop → (Z.to_nat (Height c + 1 - k) < fuel)%nat →
  ok_modifier <$> kernel_loop ks c fuel stop pindex (chain_at c k) height time =
  Some (if Height c <? k then (false, 0)
        else match later_modifier ks c stop k with Some q => (true, modifier_of ks q) | None => (true, 0) end).
Proof.
  induction fuel as [|fuel IH]; intros k stop pindex height time Hi Ha H0 Ht Hf; [lia|].
  cbn [kernel_loop]. replace (time <? stop) with true by lia.
  destruct (Z.ltb_spec (Height c) k) as [Hk|Hk]; [by rewrite chain_at_tip|].
  destruct (Ha k ltac:(lia)) as (p & b & Ek & Hp & Hb). rewrite Ek, Hp. cbn [mbind option_bind]. rewrite Hb.
  unfold later_modifier. destruct (decide (k = Height c)) as [->|Hne].
  { rewrite chain_at_tip by lia. by rewrite Z.sub_diag. }
  destruct (Ha (k + 1) ltac:(lia)) as (p' & b' & Ek' & _ & _).
  replace (Z.to_nat (Height c - k)) with (S (Z.to_nat (Height c - (k + 1)))) by lia. cbn [active_nodes]. rewrite Ek.
  assert (∀ height time, time < stop → ok_modifier <$> kernel_loop ks c fuel stop p (Some p') height time =
    Some match later_modifier ks c stop (k + 1) with Some q => (true, modifier_of ks q) | None => (true, 0) end) as Hnext.
  { intros height' time' Ht'. rewrite <-Ek', IH by (done || lia). by replace (Height c <? k + 1) with false by lia. }
  rewrite Ek', filter_cons.
  assert (matures (ks_index ks) stop p = GeneratedStakeModifier b && (stop <=? nTime b)) as Hm by (unfold matures; by rewrite Hp).
  destruct (GeneratedStakeModifier b), (Z.leb_spec stop (nTime b)) as [Hs|Hs]; cbn [andb] in Hm.
  2,3,4: rewrite decide_False by (by rewrite Hm); by apply Hnext.
  rewrite decide_True by done. cbn [head]. destruct (ki_fields ks Hi p b Hp) as (f & Hfp & _). unfold modifier_of. rewrite Hfp.
  destruct fuel as [|fuel]; cbn [kernel_loop]; replace (nTime b <? stop) with false by lia; by rewrite Hfp.
Qed.

Lemma selection_interval_pos : intervals_ok Params → ∃ i, GetStakeModifierSelectionInterval Params = Some i ∧ 0 < i.
Proof.
  intros Hiv. destruct (interval_loop_spec Params Hiv 63 ltac:(lia)) as (a & Ea & Ha). pose proof Hiv as (I0 & I1 & _).
  unfold GetStakeModifierSelectionInterval.
  change (interval_loop Params 64) with (n ← interval_loop Params 63; a ← GetStakeModifierSelectionIntervalSection Params 63; Some (s64 (n + a))).
  rewrite Ea. cbn [mbind option_bind].
  unfold GetStakeModifierSelectionIntervalSection, as_int, MODIFIER_INTERVAL_RATIO. change ((0 <=? 63) && (63 <? 64)) with true. cbn iota.
  replace ((- 2 ^ 31 <=? nModifierInterval Params * 63) && (nModifierInterval Params * 63 <? 2 ^ 31)) with true by lia.
  cbn [mbind option_bind]. eexists. split; [done|]. change (63 + (63 - 63) * (3 - 1)) with 63. rewrite Z.quot_mul by lia. rewrite swrap_small by (done || unfold sfits; lia). lia.
Qed.
End facts.

Section stake.
Context (Params : CChainParams) `{HF : HashFunctions} `{HO : !HashFunctionsOk} `{HS : Secp256k1}.

(** The bound that a kernel hash must stay below, modulo 2^256. *)
Definition kernel_bound (nValueIn bits : Z) : Z := (u64 nValueIn / 100 * target_of bits) `mod` 2 ^ 256.

Lemma stakeTargetHit_spec hash value bits :
  length hash = 32%nat → words 8 hash → fits 32 bits →
  stakeTargetHit hash value (cr_value (SetCompact bits)) = Some (le_val 8 hash <? kernel_bound value bits).
Proof.
  intros Hl Hh Hb. pose proof (SetCompact_wf bits Hb) as Wt.
  destruct (small_spec (u64 value)) as [Wv Vv]; [by apply wrap_fits|]. destruct (small_spec 100) as [W100 V100]; [by unfold fits|].
  destruct (div_some (of_u64 8 (u64 value)) (of_u64 8 100) Wv W100 ltac:(lia)) as (q & Eq & Wq & Vq).
  destruct (UintToArith256_spec hash Hl Hh) as [Wh Vh]. destruct (op_mul_spec 8 q _ Wq Wt) as [Wm Vm].
  unfold stakeTargetHit. change W256 with 8%nat. rewrite Eq. cbn [mbind option_bind]. rewrite (op_lt_spec 8) by done.
  rewrite Vh, Vm, Vq, Vv, V100. done.
Qed.

Lemma kernel_hash_wf u m t t' : words 8 u → words 8 (kernel_hash u m t t') ∧ length (kernel_hash u m t t') = 32%nat.
Proof.
  intros Hu. apply Hash256_wf. repeat (apply Forall_app; split); try done; first [apply WriteLE64_bytes | by apply (Z_to_little_endian_bound 8 4) | by apply Z_to_little_endian_bound].
Qed.

Lemma CheckStake_spec u value m bits t t' :
  words 8 u → fits 32 bits →
  CheckStake u value m (cr_value (SetCompact bits)) t t' =
  Some (le_val 8 (kernel_hash u m t t') <? kernel_bound value bits, kernel_hash u m t t').
Proof.
  intros Hu Hb. destruct (kernel_hash_wf u m t t' Hu). unfold CheckStake. by rewrite stakeTargetHit_spec.
Qed.

(** The search tries the times from the latest down. *)
Lemma stake_loop_spec u value m bits tfrom ttx start n : ∀ i hash,
  words 8 u → fits 32 bits →
  ∃ r h, stake_loop u value m (cr_value (SetCompact bits)) tfrom ttx start (replicate n start) i hash = Some (r, h) ∧
  match r with
  | Some t => ∃ j, i ≤ j < i + Z.of_nat n ∧ t = u32 (ttx + nHashDrift - j) ∧ h = kernel_hash u m tfrom t ∧
      le_val 8 h < kernel_bound value bits ∧
      ∀ k, i ≤ k < j → kernel_bound value bits ≤ le_val 8 (kernel_hash u m tfrom (u32 (ttx + nHashDrift - k)))
  | None => ∀ k, i ≤ k < i + Z.of_nat n → kernel_bound value bits ≤ le_val 8 (kernel_hash u m tfrom (u32 (ttx + nHashDrift - k)))
  end.
Proof.
  induction n as [|n IH]; intros i hash Hu Hb; [exists None, hash; split; [done|]; intros k Hk; lia|].
  cbn [replicate stake_loop]. rewrite Z.eqb_refl. cbn [negb]. rewrite CheckStake_spec by done. cbn [mbind option_bind].
  destruct (Z.ltb_spec (le_val 8 (kernel_hash u m tfrom (u32 (ttx + nHashDrift - i)))) (kernel_bound value bits)) as [Hlt|Hge].
  { eexists _, _. split; [done|]. exists i. split_and!; [lia|lia|done..|]. intros k Hk. lia. }
  destruct (IH (i + 1) (kernel_hash u m tfrom (u32 (ttx + nHashDrift - i))) Hu Hb) as (r & h & E & Hr). exists r, h. split; [exact E|].
  destruct r as [t|].
  - destruct Hr as (j & Hj & Et & Eh & Hlt & Hk). exists j. split_and!; [lia|lia|done..|]. intros k Hk'.
    destruct (decide (k = i)) as [->|]; [done|]. apply Hk. lia.
  - intros k Hk'. destruct (decide (k = i)) as [->|]; [done|]. apply Hr. lia.
Qed.

Context (ks : kernel_state) (chainActive : list (option ptr)) (src : tx_sources).

Lemma GetIndexFrom_keeps s :
  txFrom (GetIndexFrom Params ks chainActive src s) = txFrom s ∧ nPosition (GetIndexFrom Params ks chainActive src s) = nPosition s.
Proof. unfold GetIndexFrom. destruct (GetTransaction _ _ _ _ _ _) as [[? ?]|]; [|done]. destruct (find_block _ _); [|done]. by destruct (Contains _ _ _). Qed.

(** Looking for the block again finds the same one. *)
Lemma GetIndexFrom_again s :
  GetIndexFrom Params ks chainActive src (GetIndexFrom Params ks chainActive src s) = GetIndexFrom Params ks chainActive src s.
Proof.
  destruct (GetIndexFrom_keeps s) as [Et _]. unfold GetIndexFrom at 1. rewrite Et. unfold GetIndexFrom.
  destruct (GetTransaction _ _ _ _ _ _) as [[t hb]|]; [|done]. destruct (find_block _ hb) as [p|]; [|done].
  by destruct (Contains _ _ p).
Qed.

Lemma GetUniqueness_bytes s : tx_ok (txFrom s) → words 8 (GetUniqueness s).
Proof.
  intros Hs. apply Forall_app. split; [by apply Z_to_little_endian_bound|]. apply Hash256_wf. by apply (codec_enc _ _ _ _ codec_tx).
Qed.

(** What [GetModifier] reads for a stake found in the block at [p]. *)
Lemma GetModifier_spec s p b :
  pindexFrom (GetIndexFrom Params ks chainActive src s) = Some p → ks_index ks !! p = Some b →
  GetModifier Params ks chainActive src s =
  r ← GetKernelStakeModifier Params ks chainActive (phashBlock b);
  Some (ok_modifier r, GetIndexFrom Params ks chainActive src s).
Proof.
  intros Hp Hb. unfold GetModifier. rewrite Hp, Hb. cbn [mbind option_bind].
  by destruct (GetKernelStakeModifier _ _ _ _) as [[[[ok m] h] t]|].
Qed.

Lemma GetIndexFrom_indexed s p :
  pindexFrom s = None → pindexFrom (GetIndexFrom Params ks chainActive src s) = Some p → ∃ b, ks_index ks !! p = Some b.
Proof.
  intros Hn. unfold GetIndexFrom. destruct (GetTransaction _ _ _ _ _ _) as [[t hb]|]; [|congruence].
  destruct (find_block _ hb) as [q|] eqn:E; [|congruence]. destruct (find_block_spec _ _ _ E) as (b & Hb & _).
  destruct (Contains _ _ q); [|congruence]. intros [= <-]. by exists b.
Qed.

(** The stake of a coinstake and the conditions on it: its transaction is known, its
    script runs, its block is in the active chain and on disk, and its kernel hash
    with the modifier and the two times is below the bound. *)
Definition staked (block : CBlock) (tx : CMutableTransaction) (txin : CTxIn) (hash : uint256) : Prop :=
  ∃ txPrev hashBlock out p b blockprev m h t,
    GetTransaction Params ks chainActive src (op_hash (prevout txin)) true = Some (txPrev, hashBlock) ∧
    vout txPrev !! Z.to_nat (op_n (prevout txin)) = Some out ∧
    @VerifyScript _ (TransactionSignatureChecker tx 0) STANDARD_SCRIPT_VERIFY_FLAGS (scriptSig txin) (scriptPubKey out) = Ok tt ∧
    pindexFrom (GetIndexFrom Params ks chainActive src (MkStake None txPrev (op_n (prevout txin)))) = Some p ∧ ks_index ks !! p = Some b ∧
    ReadBlockFromDisk_pos Params src p = Some blockprev ∧
    GetKernelStakeModifier Params ks chainActive (phashBlock b) = Some (true, m, h, t) ∧
    hash = kernel_hash (GetUniqueness (MkStake None txPrev (op_n (prevout txin)))) m (hdr_nTime (header blockprev)) (hdr_nTime (header block)) ∧
    le_val 8 hash < kernel_bound (nValue out) (hdr_nBits (header block)).

Lemma CheckProofOfStake_staked block tx txin hash :
  (∀ h t hb, GetTransaction Params ks chainActive src h true = Some (t, hb) → tx_ok t) →
  vtx block !! 1%nat = Some tx → IsCoinStake tx = true → vin tx !! 0%nat = Some txin → tx_IsZerocoinSpend tx = Some false → fits 32 (hdr_nBits (header block)) →
  (∃ s, CheckProofOfStake Params ks chainActive src block = Some (true, hash, s)) ↔ staked block tx txin hash.
Proof.
  intros Hok Htx Hcs Hin Hzc Hbits. unfold CheckProofOfStake, staked. rewrite Htx. cbn [mbind option_bind]. rewrite Hcs. cbn [negb].
  rewrite Hin. cbn [mbind option_bind]. rewrite Hzc. cbn [mbind option_bind].
  destruct (GetTransaction Params ks chainActive src (op_hash (prevout txin)) true) as [[txPrev hb]|] eqn:Eg.
  2: { split; [by intros [s ?]|by intros (? & ? & ? & ? & ? & ? & ? & ? & ? & ? & _)]. }
  set (s0 := MkStake None txPrev (op_n (prevout txin))). pose proof (GetIndexFrom_indexed s0) as Hidx.
  pose proof (GetIndexFrom_again s0) as Hagain. destruct (GetIndexFrom_keeps s0) as [K1 K2].
  destruct (vout txPrev !! Z.to_nat (op_n (prevout txin))) as [out|] eqn:Eo; cbn [mbind option_bind].
  2: { split; [by intros [s ?]|]. intros (? & ? & ? & ? & ? & ? & ? & ? & ? & [= <- <-] & ? & _). congruence. }
  destruct (VerifyScript _ _ _) as [[]|e|] eqn:Ev.
  2,3: split; [by intros [s ?]|]; intros (? & ? & ? & ? & ? & ? & ? & ? & ? & [= <- <-] & ? & ? & _); congruence.
  destruct (pindexFrom (GetIndexFrom Params ks chainActive src s0)) as [p|] eqn:Ep.
  2: { split; [by intros [s ?]|]. intros (? & ? & ? & ? & ? & ? & ? & ? & ? & [= <- <-] & ? & ? & ? & _). unfold s0 in Ep. congruence. }
  destruct (Hidx p eq_refl eq_refl) as [b Hb].
  destruct (ReadBlockFromDisk_pos Params src p) as [blockprev|] eqn:Er.
  2: { split; [by intros [s ?]|]. intros (? & ? & ? & q & ? & ? & ? & ? & ? & [= <- <-] & ? & ? & Hq & ? & ? & _). fold s0 in Hq. congruence. }
  rewrite (GetModifier_spec _ p b) by (by rewrite ?Hagain). rewrite Hagain.
  assert (GetValue (GetIndexFrom Params ks chainActive src s0) = Some (nValue out)) as Hval.
  { unfold GetValue. rewrite K1, K2. unfold s0. cbn [txFrom nPosition]. by rewrite Eo. }
  assert (GetUniqueness (GetIndexFrom Params ks chainActive src s0) = GetUniqueness s0) as Hu by (unfold GetUniqueness; by rewrite K1, K2).
  destruct (GetKernelStakeModifier Params ks chainActive (phashBlock b)) as [[[[ok m] h] t]|] eqn:Ek; cbn [mbind option_bind ok_modifier].
  2: { split; [by intros [s ?]|]. intros (? & ? & ? & q & c & ? & ? & ? & ? & [= <- <-] & ? & ? & Hq & Hc & ? & ? & _). fold s0 in Hq. congruence. }
  destruct ok; cbn [negb].
  2: { split; [by intros [s ?]|]. intros (? & ? & ? & q & c & ? & ? & ? & ? & [= <- <-] & ? & ? & Hq & Hc & ? & ? & _). fold s0 in Hq. congruence. }
  rewrite Hval, Hu. cbn [mbind option_bind]. rewrite CheckStake_spec by (done || apply GetUniqueness_bytes; by eapply Hok). cbn [mbind option_bind].
  split.
  - intros [s [= Hlt <- _]]. exists txPrev, hb, out, p, b, blockprev, m, h, t. split_and!; try done. lia.
  - intros (? & ? & ? & q & c & ? & ? & ? & ? & [= <- <-] & Ho & _ & Hq & Hc & Hr & Hk & -> & Hlt). fold s0 in Hq, Hlt |- *.
    rewrite Eo in Ho. injection Ho as <-.
    assert (p = q) as <- by congruence. assert (b = c) as <- by congruence. rewrite Er in Hr. injection Hr as <-. rewrite Ek in Hk. injection Hk as <- <- <-.
    eexists. by replace (_ <? _) with true by lia.
Qed.
End stake.

Section theorems.
Context (Params : CChainParams) `{HF : HashFunctions} `{HO : !HashFunctionsOk} `{HS : Secp256k1}.

(** C12: On a network with positive modifier intervals the stake modifier is always
    defined, and this is its value.  In every index built header by header,
    [ComputeNextStakeModifier] succeeds after any block with a 64-bit value.  After the
    genesis block it is the address of the literal; later the last modifier stays until
    its interval is over, and then a new one is generated: the candidates are all the
    ancestors back to the start of the selection window; as many rounds as there are
    candidates, up to 64, pick different ones, each the candidate with the least selection
    hash among those the round may choose from; and the bits of the new modifier are
    exactly the entropy bits of the picks in the order of the rounds, zero above.  Any
    further header can be indexed. *)
Theorem stake_modifiers_defined {C} literal genesis (st : main_state C) :
  intervals_ok Params → fits 64 literal → kernel_reach Params literal genesis st →
  (∀ p b, mapBlockIndex st !! p = Some b →
     ∃ m g, ComputeNextStakeModifier Params literal (kernel_of st) (Some p) = Some (true, m, g) ∧ fits 64 m ∧
       (nHeight b = 0 → m = literal ∧ g = true) ∧
       (1 ≤ nHeight b → ∃ prev t, GetLastStakeModifier (kernel_of st) (Some p) = Some (Some (prev, t)) ∧ g = modifier_due Params b t ∧
          if g then new_modifier Params (mapBlockIndex st) p b prev m else m = prev)) ∧
  (∀ p hash prevHash flags version time bits, mapBlockIndex st !! p = None → words 8 hash → fits 32 time → fits 32 bits → hash ≠ prevHash →
     ∃ q st', AddToBlockIndex Params literal genesis st p hash prevHash flags version time bits = Some (q, st') ∧
       is_Some (mapBlockIndex st' !! q)).
Proof.
  intros Hiv Hlit Hr. pose proof (reach_kernel_inv Params literal genesis st Hiv Hlit Hr) as Hi. split.
  - intros p b Hp. by apply (ComputeNextStakeModifier_ok Params literal Hiv (kernel_of st) p b).
  - intros p hash prevHash flags version time bits Hp Hw Ht Hb Hne.
    destruct (AddToBlockIndex_ok Params literal genesis st p hash prevHash flags version time bits) as (q & st' & E & _ & Hq & _); [done..|].
    by exists q, st'.
Qed.

(** C27: On the main network, whose parameters have no modifier interval, no block can be
    indexed on top of a block above the genesis block: the computation of its stake
    modifier divides by zero. *)
Theorem mainnet_index_undefined {C} literal genesis (st : main_state C) prev c p hash flags version time bits :
  kernel_inv (kernel_of st) → mapBlockIndex st !! prev = Some c → 1 ≤ nHeight c →
  mapBlockIndex st !! p = None → find_block (mapBlockIndex st) hash = None → words 8 hash → fits 32 time →
  AddToBlockIndex mainParams literal genesis st p hash (phashBlock c) flags version time bits = None.
Proof.
  intros Hi Hc H1 Hp Hnew Hw Ht. unfold AddToBlockIndex. rewrite Hnew.
  assert (find_block (<[p := MkBlockIndex hash None None 0 flags version time bits]> (mapBlockIndex st)) (phashBlock c) = Some prev) as ->.
  { apply (find_block_insert (kernel_of st) p _ KernelFields_null); try done. by apply (find_block_complete (kernel_of st)). }
  cbn [mbind option_bind]. rewrite lookup_insert_ne, Hc by congruence. cbn [mbind option_bind]. rewrite insert_insert_eq.
  destruct (BuildSkip_new (mapBlockIndex st) p (MkBlockIndex hash (Some prev) None (nHeight c + 1) flags version time bits) prev eq_refl) as [s ->].
  cbn [phashBlock nHeight nFlags nHeaderVersion nTime nBits]. set (b0 := MkBlockIndex hash (Some prev) s (nHeight c + 1) flags version time bits).
  unfold index_stake. cbn [ks_index ks_fields ks_proofs]. rewrite !lookup_insert_eq. cbn [mbind option_bind]. change (pprev b0) with (Some prev). cbn [mbind option_bind].
  destruct (<[p := KernelFields_null]> (stake_fields (headers st)) !! prev) as [g|]; [|done]. cbn [mbind option_bind]. destruct (GetBlockTrust b0) as [w|]; [|done]. cbn [mbind option_bind].
  pose proof (SetStakeEntropyBit_keeps b0 (GetStakeEntropyBit b0)) as HE. destruct (SetStakeEntropyBit b0 (GetStakeEntropyBit b0)) as [b1 ok].
  cbn [fst] in HE. destruct HE as (B1 & B2 & _ & B4 & B5 & _). rewrite !insert_insert_eq, B2. change (pprev b0) with (Some prev).
  match goal with |- context [ComputeNextStakeModifier _ _ ?k _] => set (ks' := k) end.
  assert (kernel_inv ks') as Hi'.
  { apply (kernel_inv_insert (kernel_of st)); rewrite ?B1, ?B2, ?B4, ?B5; try done; [by exists c|cbn; lia]. }
  assert (ks_index ks' !! prev = Some c) as Hc' by (cbn; rewrite lookup_insert_ne by congruence; done).
  destruct (GetLastStakeModifier_ok ks' prev c Hi' Hc' H1) as (m & t & E & _).
  unfold ComputeNextStakeModifier. rewrite Hc'. cbn [mbind option_bind]. replace (nHeight c =? 0) with false by lia. by rewrite E.
Qed.

(** A round of the selection picks, among the candidates it may choose from (those
    not selected yet and no later than the end of the interval or, if there are none,
    the earliest one not selected), one with the least selection hash; it fails only
    when every candidate is selected. *)
Theorem SelectBlockFromCandidates_minimal h l sel stop prev :
  Forall (candidate_ok h) l → StronglySorted (λ x y, x.1 ≤ y.1) l →
  match SelectBlockFromCandidates h l sel stop prev with
  | Some p => ∃ b it, h !! p = Some b ∧ it ∈ eligible sel stop l ∧ phashBlock b = it.2 ∧
      ∀ it' q c, it' ∈ eligible sel stop l → find_block h it'.2 = Some q → h !! q = Some c →
        val (selection_hash prev b) ≤ val (selection_hash prev c)
  | None => unselected sel l = []
  end.
Proof.
  intros Hc Hs. destruct (select_loop_none h sel stop prev l Hc Hs) as (r & Er & Hr).
  unfold SelectBlockFromCandidates. rewrite Er. cbn [mbind option_bind]. destruct r as [[hash p]|]; cbn in *.
  - destruct Hr as (b & it & Hin & Hp & Hh & _ & _ & _ & Hmin). by exists b, it.
  - unfold eligible in Hr. destruct (filter _ (unselected sel l)); [|done]. by destruct (unselected sel l).
Qed.

(** C19: The modifier of a kernel is that of the first block of the active chain after the
    block of the coin and before the tip that generated one no earlier than a selection
    interval later.  If there is none the call still succeeds, with the modifier zero;
    it fails only for a coin of the tip. *)
Theorem GetKernelStakeModifier_exact ks c p b :
  intervals_ok Params → kernel_inv ks → active_ok (ks_index ks) c → ks_index ks !! p = Some b →
  ∃ interval, GetStakeModifierSelectionInterval Params = Some interval ∧ 0 < interval ∧
    ok_modifier <$> GetKernelStakeModifier Params ks c (phashBlock b) =
    Some (if Height c <? nHeight b + 1 then (false, 0)
          else match later_modifier ks c (nTime b + interval) (nHeight b + 1) with
               | Some q => (true, modifier_of ks q)
               | None => (true, 0)
               end).
Proof.
  intros Hiv Hi Ha Hp. destruct (selection_interval_pos Params Hiv) as (interval & Ei & H0). exists interval. split_and!; [done..|].
  unfold GetKernelStakeModifier. rewrite (find_block_complete ks p b), Hp, Ei by done. cbn [mbind option_bind].
  destruct (ki_linked ks Hi p b Hp) as [Hh _]. apply kernel_loop_spec; [done..|lia|lia|]. unfold Height. lia.
Qed.

(** C8: What makes the proof of stake of a block valid.  A coinstake that spends a
    zerocoin is accepted as it is, without a kernel.  Any other one is accepted exactly
    if its input names an output of a known transaction in the active chain, the script
    of the input runs, and the kernel hash is below the value-weighted target reduced
    modulo 2^256: the age of the coin is not among the conditions.  An input that
    names an output the transaction does not have is read past the end. *)
Theorem CheckProofOfStake_exact ks c src block tx txin :
  (∀ h t hb, GetTransaction Params ks c src h true = Some (t, hb) → tx_ok t) →
  vtx block !! 1%nat = Some tx → IsCoinStake tx = true → vin tx !! 0%nat = Some txin → fits 32 (hdr_nBits (header block)) →
  (tx_IsZerocoinSpend tx = Some true → CheckProofOfStake Params ks c src block = Some (true, uint256_null, None)) ∧
  (tx_IsZerocoinSpend tx = Some false → ∀ hash,
     (∃ s, CheckProofOfStake Params ks c src block = Some (true, hash, s)) ↔ staked Params ks c src block tx txin hash) ∧
  (tx_IsZerocoinSpend tx = Some false → ∀ txPrev hashBlock,
     GetTransaction Params ks c src (op_hash (prevout txin)) true = Some (txPrev, hashBlock) →
     vout txPrev !! Z.to_nat (op_n (prevout txin)) = None → CheckProofOfStake Params ks c src block = None).
Proof.
  intros Hok Htx Hcs Hin Hbits. split_and!.
  - intros Hz. unfold CheckProofOfStake. rewrite Htx. cbn [mbind option_bind]. rewrite Hcs, Hin. cbn. by rewrite Hz.
  - intros Hz hash. by apply CheckProofOfStake_staked.
  - intros Hz txPrev hb Hg Ho. unfold CheckProofOfStake. rewrite Htx. cbn [mbind option_bind]. rewrite Hcs, Hin. cbn [negb mbind option_bind].
    rewrite Hz. cbn [mbind option_bind]. by rewrite Hg, Ho.
Qed.

(** C18: Staking is sound and complete, and agrees with the check.  While the tip does not
    change, [Stake] on a coin of sufficient age finds the latest of the thirty times
    after [nTimeTx] at which the kernel hash is below the bound, and fails only if there
    is none; a block with this time, the target of the search and a coinstake spending
    the coin passes [CheckProofOfStake]. *)
Theorem Stake_passes_check ks c src txPrev n bits tfrom ttx hash0 hashed now out p b m h t tip :
  let s := MkStake None txPrev n in
  tx_ok txPrev → fits 32 bits → fits 32 ttx → tfrom ≤ ttx → u32 (tfrom + nStakeMinAge Params) ≤ ttx →
  vout txPrev !! Z.to_nat n = Some out → pindexFrom (GetIndexFrom Params ks c src s) = Some p → ks_index ks !! p = Some b →
  GetKernelStakeModifier Params ks c (phashBlock b) = Some (true, m, h, t) →
  Tip c ≫= (ks_index ks !!.) = Some tip →
  let hit time := le_val 8 (kernel_hash (GetUniqueness s) m tfrom time) < kernel_bound (nValue out) bits in
  ∃ ok t' hash, Stake Params ks c src s bits tfrom ttx hash0 hashed (replicate 30 (Height c)) now = Some (ok, t', hash, {[nHeight tip := u32 now]}) ∧
    (if ok : bool then ∃ j, 0 ≤ j < 30 ∧ t' = u32 (ttx + 30 - j) ∧ hit t' ∧ ∀ k, 0 ≤ k < j → ¬ hit (u32 (ttx + 30 - k))
     else ∀ k, 0 ≤ k < 30 → ¬ hit (u32 (ttx + 30 - k))) ∧
    (ok = true → ∀ block blockprev tx txin hb,
       (∀ h t hb, GetTransaction Params ks c src h true = Some (t, hb) → tx_ok t) →
       vtx block !! 1%nat = Some tx → IsCoinStake tx = true → vin tx !! 0%nat = Some txin → tx_IsZerocoinSpend tx = Some false →
       hdr_nBits (header block) = bits → hdr_nTime (header block) = t' →
       op_n (prevout txin) = n → GetTransaction Params ks c src (op_hash (prevout txin)) true = Some (txPrev, hb) →
       @VerifyScript _ (TransactionSignatureChecker tx 0) STANDARD_SCRIPT_VERIFY_FLAGS (scriptSig txin) (scriptPubKey out) = Ok tt →
       ReadBlockFromDisk_pos Params src p = Some blockprev → hdr_nTime (header blockprev) = tfrom →
       ∃ s', CheckProofOfStake Params ks c src block = Some (true, hash, s')).
Proof.
  intros s Htx Hbits Htt Hle Hage Ho Hp Hb Hk Htip hit. destruct (GetIndexFrom_keeps Params ks c src s) as [K1 K2].
  assert (words 8 (GetUniqueness s)) as Hu by by apply GetUniqueness_bytes.
  assert (GetUniqueness (GetIndexFrom Params ks c src s) = GetUniqueness s) as Eu by (unfold GetUniqueness; by rewrite K1, K2).
  assert (GetValue (GetIndexFrom Params ks c src s) = Some (nValue out)) as Ev by (unfold GetValue; rewrite K1, K2; cbn; by rewrite Ho).
  destruct (stake_loop_spec (GetUniqueness s) (nValue out) m bits tfrom ttx (Height c) 30 0 hash0 Hu Hbits) as (r & hash & El & Hr).
  assert (Stake Params ks c src s bits tfrom ttx hash0 hashed (replicate 30 (Height c)) now =
    Some match r with Some t' => (true, t', hash, {[nHeight tip := u32 now]}) | None => (false, ttx, hash, {[nHeight tip := u32 now]}) end) as Es.
  { unfold Stake. replace (ttx <? tfrom) with false by lia. replace (ttx <? u32 (tfrom + nStakeMinAge Params)) with false by lia.
    rewrite (GetModifier_spec Params ks c src s p b Hp Hb), Hk. cbn [mbind option_bind ok_modifier negb]. rewrite Ev, Eu. cbn [mbind option_bind].
    rewrite El. cbn [mbind option_bind]. change (Tip c ≫= λ x, ks_index ks !! x) with (Tip c ≫= (ks_index ks !!.)). by rewrite Htip. }
  rewrite Es. destruct r as [t'|].
  - destruct Hr as (j & Hj & Et & Eh & Hlt & Hmiss). exists true, t', hash. split_and!; [done| |].
    + exists j. split_and!; [lia|lia|done|unfold hit; by rewrite <-Eh|]. intros k Hkj. unfold hit. specialize (Hmiss k Hkj). cbn in Hmiss |- *. unfold nHashDrift in Hmiss. lia.
    + intros _ block blockprev tx txin hb Hok Hv Hcs Hin Hz Eb Etm En Hg Hs Hread Etf.
      apply (CheckProofOfStake_staked Params ks c src block tx txin hash Hok Hv Hcs Hin Hz); [by rewrite Eb|].
      exists txPrev, hb, out, p, b, blockprev, m, h, t. rewrite En, Eb, Etm, Etf. split_and!; try done.
  - exists false, ttx, hash. split_and!; [done| |done]. intros k Hk'. specialize (Hr k ltac:(lia)). unfold hit, nHashDrift in *. lia.
Qed.
End theorems.

(** ** A small index *)

Definition stake_header : CBlockHeader := BlockHeader 1 (replicate 32 0) (replicate 32 0) 1000 0x207fffff 0 (replicate 32 0).
Definition small_literal : Z := 0x400000.
Definition small_genesis : uint256 := header_GetHash stake_header.
(** [st] with one more block, whose parent has the hash [prevHash]. *)
Definition grow_index (Params : CChainParams) (st : main_state ()) (p : ptr) (hash prevHash : uint256) (flags time : Z) : main_state () :=
  match AddToBlockIndex Params small_literal small_genesis st p hash prevHash flags 1 time 0x207fffff with Some (_, st') => st' | None => st end.
Definition small_state0 : main_state () := MainState ∅ ∅ [] ∅ [] None 1 () (HeaderState ∅ ∅ None).
Definition small_state1 (Params : CChainParams) : main_state () :=
  grow_index Params (grow_index Params small_state0 0 small_genesis (replicate 32 0) 0 1000) 1 (replicate 32 1) small_genesis 0 1030.
Definition small_state : main_state () := grow_index testNetParams (small_state1 testNetParams) 2 (replicate 32 2) (replicate 32 1) 1 1091.
Definition small_index1 (Params : CChainParams) : kernel_state := kernel_of (small_state1 Params).
Definition small_index : kernel_state := kernel_of small_state.
Definition small_active : list (option ptr) := [Some 0; Some 1; Some 2]%nat.

Lemma small_literal_fits : fits 64 small_literal.
Proof. by vm_compute. Qed.
Lemma grow_index_reach Params st p hash prevHash flags time :
  kernel_reach Params small_literal small_genesis st → mapBlockIndex st !! p = None → words 8 hash → fits 32 time → hash ≠ prevHash →
  kernel_reach Params small_literal small_genesis (grow_index Params st p hash prevHash flags time).
Proof.
  intros Hr Hp Hw Ht Hne. unfold grow_index. destruct (AddToBlockIndex _ _ _ _ _ _ _ _ _ _ _) as [[q st']|] eqn:E; [|done].
  eapply reach_block; [exact Hr|exact Hp|exact Hw|exact Ht| |exact Hne|exact E]. by vm_compute.
Qed.

Lemma small_genesis_bytes : words 8 small_genesis.
Proof. apply Hash256_wf. apply (bool_decide_unpack _). vm_compute. exact I. Qed.
Lemma bytes_replicate n x : fits 8 x → words 8 (replicate n x).
Proof. intros Hx. by apply Forall_replicate. Qed.
Lemma small_state1_reach : kernel_reach testNetParams small_literal small_genesis (small_state1 testNetParams).
Proof.
  unfold small_state1. apply grow_index_reach.
  - apply grow_index_reach; [by constructor|reflexivity|apply small_genesis_bytes|by vm_compute|vm_compute; discriminate].
  - vm_compute. reflexivity.
  - by apply bytes_replicate.
  - by vm_compute.
  - vm_compute. discriminate.
Qed.
Lemma small_state_reach : kernel_reach testNetParams small_literal small_genesis small_state.
Proof. unfold small_state. apply grow_index_reach; [apply small_state1_reach|vm_compute; reflexivity|by apply bytes_replicate|by vm_compute|discriminate]. Qed.
Lemma small_index_inv : kernel_inv small_index.
Proof. apply (reach_kernel_inv testNetParams small_literal small_genesis _ testNet_intervals small_literal_fits small_state_reach). Qed.

Definition small_node (ks : kernel_state) (p : ptr) : CBlockIndex := default (MkBlockIndex [] None None 0 0 0 0 0) (ks_index ks !! p).
Lemma small_node_at ks p : bool_decide (is_Some (ks_index ks !! p)) = true → ks_index ks !! p = Some (small_node ks p).
Proof. intros [b Hb]%bool_decide_eq_true. unfold small_node. by rewrite Hb. Qed.

(** After the third block a new modifier is due. *)
Lemma stake_modifiers_defined_witness :
  ∃ m prev, ComputeNextStakeModifier testNetParams small_literal small_index (Some 2%nat) = Some (true, m, true) ∧
    new_modifier testNetParams (ks_index small_index) 2 (small_node small_index 2) prev m.
Proof.
  destruct (stake_modifiers_defined testNetParams small_literal small_genesis small_state testNet_intervals small_literal_fits small_state_reach) as [Hm _].
  destruct (Hm 2%nat (small_node small_index 2) (small_node_at small_index 2 ltac:(vm_compute; reflexivity))) as (m & g & E & Hf & _ & Hl).
  destruct Hl as (prev & t & El & Hg & Hn); [vm_compute; discriminate|]. exists m, prev.
  assert (Some t = Some 1030) as Et.
  { transitivity (match GetLastStakeModifier small_index (Some 2%nat) with Some (Some (_, t)) => Some t | _ => None end); [|vm_compute; reflexivity].
    unfold small_index. rewrite El. reflexivity. }
  injection Et as ->. assert (g = true) as -> by (rewrite Hg; vm_compute; reflexivity). split; [exact E|exact Hn].
Defined.

(** The main network indexes the same first two blocks, but no third one. *)
Lemma mainnet_index_undefined_witness :
  small_state1 mainParams = small_state1 testNetParams ∧
  AddToBlockIndex mainParams small_literal small_genesis (small_state1 testNetParams) 2 (replicate 32 2) (phashBlock (small_node (small_index1 testNetParams) 1)) 1 1 1061 0x207fffff = None.
Proof.
  split; [vm_compute; reflexivity|].
  apply (mainnet_index_undefined small_literal small_genesis (small_state1 testNetParams) 1%nat).
  - exact (reach_kernel_inv testNetParams small_literal small_genesis _ testNet_intervals small_literal_fits small_state1_reach).
  - apply (small_node_at (small_index1 testNetParams)). vm_compute. reflexivity.
  - vm_compute. discriminate.
  - vm_compute. reflexivity.
  - vm_compute. reflexivity.
  - by apply bytes_replicate.
  - by vm_compute.
Defined.

Definition small_candidates : list (Z * uint256) := (λ p, (nTime (small_node small_index p), phashBlock (small_node small_index p))) <$> [0; 1; 2]%nat.
Lemma small_candidates_ok : Forall (candidate_ok (ks_index small_index)) small_candidates.
Proof.
  unfold small_candidates. repeat (apply Forall_cons_2); [..|constructor];
    (apply (candidate_ok_of small_index); [apply small_index_inv|]).
  - exists 0%nat, (small_node small_index 0). split; [apply small_node_at; vm_compute; reflexivity|reflexivity].
  - exists 1%nat, (small_node small_index 1). split; [apply small_node_at; vm_compute; reflexivity|reflexivity].
  - exists 2%nat, (small_node small_index 2). split; [apply small_node_at; vm_compute; reflexivity|reflexivity].
Qed.
Lemma small_candidates_sorted : StronglySorted (λ x y, x.1 ≤ y.1) small_candidates.
Proof. vm_compute. repeat constructor; discriminate. Qed.

(** Of the first two blocks one is chosen, with the lesser hash. *)
Lemma SelectBlockFromCandidates_minimal_witness :
  match SelectBlockFromCandidates (ks_index small_index) small_candidates ∅ 1040 small_literal with
  | Some p => ∃ b it, ks_index small_index !! p = Some b ∧ it ∈ eligible ∅ 1040 small_candidates ∧ phashBlock b = it.2
  | None => False
  end.
Proof.
  pose proof (SelectBlockFromCandidates_minimal (ks_index small_index) small_candidates ∅ 1040 small_literal small_candidates_ok small_candidates_sorted) as Hm.
  destruct (SelectBlockFromCandidates _ _ _ _ _) as [p|].
  - destruct Hm as (b & it & Hb & Hin & Hh & _). exists b, it. split; [exact Hb|]. split; [exact Hin|exact Hh].
  - vm_compute in Hm. discriminate Hm.
Defined.

Lemma small_active_ok : active_ok (ks_index small_index) small_active.
Proof.
  intros k Hk. change (Height small_active) with 2 in Hk. assert (k = 0 ∨ k = 1 ∨ k = 2) as [->|[->| ->]] by lia.
  - exists 0%nat, (small_node small_index 0). split; [reflexivity|]. split; [apply small_node_at|]; vm_compute; reflexivity.
  - exists 1%nat, (small_node small_index 1). split; [reflexivity|]. split; [apply small_node_at|]; vm_compute; reflexivity.
  - exists 2%nat, (small_node small_index 2). split; [reflexivity|]. split; [apply small_node_at|]; vm_compute; reflexivity.
Qed.

(** The kernel of a young coin is hashed with the modifier zero. *)
Lemma GetKernelStakeModifier_exact_witness :
  ok_modifier <$> GetKernelStakeModifier testNetParams small_index small_active (phashBlock (small_node small_index 0)) = Some (true, 0).
Proof.
  destruct (GetKernelStakeModifier_exact testNetParams small_index small_active 0%nat (small_node small_index 0) testNet_intervals small_index_inv
    small_active_ok (small_node_at small_index 0 ltac:(vm_compute; reflexivity))) as (interval & Ei & _ & E).
  assert (Some interval = Some 2087) as [= ->] by (rewrite <-Ei; vm_compute; reflexivity). rewrite E. vm_compute. reflexivity.
Defined.

(** ** A small stake *)

Definition no_curve : Secp256k1 := {|
  curve_point := (); ec_pubkey_parse _ := None; ec_pubkey_serialize _ _ := []; ecdsa_verify _ _ _ := false;
|}.
#[local] Existing Instance no_curve.

(** A coin of 1000 that anyone can spend, in the first block, and its coinstake. *)
Definition stake_coin : CMutableTransaction := MTx 1 [TxIn COutPoint_null [1] 0 []] [TxOut 1000 [OP_1] (-10)] 0.
Definition coinstake : CMutableTransaction := MTx 1 [TxIn (OutPoint (tx_GetHash stake_coin) 0) [] 0 []] [TxOut 0 [] (-10); TxOut 1000 [OP_1] (-10)] 0.
Definition zerocoin_coinstake : CMutableTransaction := MTx 1 [TxIn (OutPoint uint256_null 0) [OP_ZEROCOINSPEND] 0 []] [TxOut 0 [] (-10); TxOut 1000 [OP_1] (-10)] 0.
Definition stake_block (tx : CMutableTransaction) (time : Z) : CBlock :=
  Block (BlockHeader 1 (replicate 32 2) (replicate 32 0) time 0x207fffff 0 (replicate 32 0)) [stake_coin; tx] [].
Definition small_sources : tx_sources := TxSources (λ _, None) true (λ _, Some (Some (stake_header, stake_coin))) (λ _, None) (λ _, Some (Block stake_header [stake_coin] [])).

Lemma small_sources_ok h t hb : GetTransaction testNetParams small_index small_active small_sources h true = Some (t, hb) → tx_ok t.
Proof.
  unfold GetTransaction. cbn [ts_mempool ts_fTxIndex ts_ReadTxIndex small_sources mjoin option_join mbind option_bind].
  destruct (bool_decide _); [|discriminate]. intros E.
  assert (stake_coin = t) as <- by exact (f_equal (λ o, match o with Some x => x.1 | None => stake_coin end) E). apply (bool_decide_unpack _). vm_compute. exact I.
Qed.

Lemma CheckProofOfStake_exact_witness :
  CheckProofOfStake testNetParams small_index small_active small_sources (stake_block zerocoin_coinstake 1100) = Some (true, uint256_null, None).
Proof.
  apply (CheckProofOfStake_exact testNetParams small_index small_active small_sources (stake_block zerocoin_coinstake 1100) zerocoin_coinstake
    (TxIn (OutPoint uint256_null 0) [OP_ZEROCOINSPEND] 0 []) small_sources_ok); try (vm_compute; reflexivity). by vm_compute.
Defined.

Lemma small_stake_found :
  match Stake testNetParams small_index small_active small_sources (MkStake None stake_coin 0) 0x207fffff 1000 1100 [] ∅ (replicate 30 2) 7 with
  | Some (ok, _, _, _) => ok
  | None => false
  end = true.
Proof. vm_compute. reflexivity. Qed.

(** The coin is staked at the latest time tried, and the block is accepted. *)
Lemma Stake_passes_check_witness :
  match Stake testNetParams small_index small_active small_sources (MkStake None stake_coin 0) 0x207fffff 1000 1100 [] ∅ (replicate 30 2) 7 with
  | Some (true, time, hash, _) => ∃ s, CheckProofOfStake testNetParams small_index small_active small_sources (stake_block coinstake time) = Some (true, hash, s)
  | _ => False
  end.
Proof.
  destruct (Stake_passes_check testNetParams small_index small_active small_sources stake_coin 0 0x207fffff 1000 1100 [] ∅ 7 (TxOut 1000 [OP_1] (-10))
    0%nat (small_node small_index 0) 0 1 1030 (small_node small_index 2)) as (ok & time & hash & E & _ & Hcheck).
  - apply (bool_decide_unpack _). vm_compute. exact I.
  - by vm_compute.
  - by vm_compute.
  - lia.
  - by vm_compute.
  - reflexivity.
  - vm_compute. reflexivity.
  - apply small_node_at. vm_compute. reflexivity.
  - vm_compute. reflexivity.
  - apply small_node_at. vm_compute. reflexivity.
  - change (Height small_active) with 2 in E. pose proof small_stake_found as Hok. rewrite E in Hok |- *. subst ok.
    apply (Hcheck eq_refl (stake_block coinstake time) (Block stake_header [stake_coin] []) coinstake (TxIn (OutPoint (tx_GetHash stake_coin) 0) [] 0 [])
      (header_GetHash stake_header) small_sources_ok); vm_compute; reflexivity.
Defined.
