(* ===== verification/Orphans.v ===== *)
(** The orphan transactions of main.cpp: transactions whose parents are unknown, with the
    index of the orphans by the transactions they spend from.

    [mapOrphanTransactionsByPrev] always indexes exactly the stored orphans, an orphan has
    at most 5000 bytes, and the limit is enforced in one eviction per excess orphan. *)

From stdpp Require Import sorting.
From S2P Require Import Prelude Script Serialize Interpreter Transaction Coins Validation MemPool HmacFacts.
Local Open Scope Z_scope.

Abbreviation uint256 := (list Z) (only parsing).

Record COrphanTx := OrphanTx { orphan_tx : CMutableTransaction; fromPeer : Z }.
Record orphans := Orphans {
  mapOrphanTransactions : gmap uint256 COrphanTx;
  mapOrphanTransactionsByPrev : gmap uint256 (gset uint256);
}.
Definition no_orphans : orphans := Orphans ∅ ∅.

(** [mapOrphanTransactionsByPrev[prev].insert(hash)] for the inputs *)
Fixpoint index_inputs (m : gmap uint256 (gset uint256)) (hash : uint256) (l : list CTxIn) : gmap uint256 (gset uint256) :=
  match l with
  | [] => m
  | txin :: l =>
      let prev := op_hash (prevout txin) in
      index_inputs (<[prev := {[hash]} ∪ default ∅ (m !! prev)]> m) hash l
  end.
(** The loop of [EraseOrphanTx]; an empty set leaves the map. *)
Fixpoint unindex_inputs (m : gmap uint256 (gset uint256)) (hash : uint256) (l : list CTxIn) : gmap uint256 (gset uint256) :=
  match l with
  | [] => m
  | txin :: l =>
      let prev := op_hash (prevout txin) in
      match m !! prev with
      | None => unindex_inputs m hash l
      | Some s =>
          let s := s ∖ {[hash]} in
          unindex_inputs (if decide (s = ∅) then delete prev m else <[prev := s]> m) hash l
      end
  end.
Definition by_key {A} (m : gmap uint256 A) : list (uint256 * A) := merge_sort (λ x y, Is_true (byte_le x.1 y.1)) (map_to_list m).

Section orphans.
Context `{HashFunctions}.

Definition AddOrphanTx (o : orphans) (tx : CMutableTransaction) (peer : Z) : bool * orphans :=
  let hash := tx_GetHash tx in
  if bool_decide (is_Some (mapOrphanTransactions o !! hash)) then (false, o)
  else if 5000 <? u32 (Z.of_nat (length (Serialize_tx tx))) then (false, o)
  else (true, Orphans (<[hash := OrphanTx tx peer]> (mapOrphanTransactions o))
                (index_inputs (mapOrphanTransactionsByPrev o) hash (vin tx))).

Definition EraseOrphanTx (o : orphans) (hash : uint256) : orphans :=
  match mapOrphanTransactions o !! hash with
  | None => o
  | Some it => Orphans (delete hash (mapOrphanTransactions o)) (unindex_inputs (mapOrphanTransactionsByPrev o) hash (vin (orphan_tx it)))
  end.

(** The loop visits the entries in the order of the keys; erasing one keeps the others. *)
Fixpoint erase_for (peer : Z) (o : orphans) (l : list (uint256 * COrphanTx)) : orphans :=
  match l with
  | [] => o
  | it :: l => erase_for peer (if fromPeer it.2 =? peer then EraseOrphanTx o (tx_GetHash (orphan_tx it.2)) else o) l
  end.
Definition EraseOrphansFor (o : orphans) (peer : Z) : orphans := erase_for peer o (by_key (mapOrphanTransactions o)).

(** [lower_bound(randomhash)], or the first entry past the end *)
Definition pick_orphan (m : gmap uint256 COrphanTx) (randomhash : uint256) : option uint256 :=
  match filter (λ x, Is_true (byte_le randomhash x.1)) (by_key m) with
  | it :: _ => Some it.1
  | [] => fst <$> head (by_key m)
  end.
(** The loop of [LimitOrphanTxSize]: [GetRandHash] returns the hashes [rand i], [rand (i + 1)], ...
    The result is [nEvicted]; the size bounds the number of iterations. *)
Fixpoint limit_loop (fuel : nat) (rand : nat → uint256) (i : nat) (nMaxOrphans : Z) (o : orphans) (nEvicted : Z) : option (Z * orphans) :=
  if nMaxOrphans <? Z.of_nat (base.size (mapOrphanTransactions o)) then
    match fuel with
    | O => None
    | S fuel =>
        hash ← pick_orphan (mapOrphanTransactions o) (rand i);
        limit_loop fuel rand (S i) nMaxOrphans (EraseOrphanTx o hash) (u32 (nEvicted + 1))
    end
  else Some (nEvicted, o).
Definition LimitOrphanTxSize (rand : nat → uint256) (o : orphans) (nMaxOrphans : Z) : option (Z * orphans) :=
  limit_loop (base.size (mapOrphanTransactions o)) rand 0 nMaxOrphans o 0.
End orphans.

(** ** The index *)

(** [tx] spends an output of [prev]. *)
Definition spends_from (tx : CMutableTransaction) (prev : uint256) : Prop := prev ∈ (op_hash ∘ prevout <$> vin tx).

(** [s] has [hash] among the orphans recorded for [prev]. *)
Definition recorded (m : gmap uint256 (gset uint256)) (prev hash : uint256) : Prop := ∃ s, m !! prev = Some s ∧ hash ∈ s.
Definition no_empty (m : gmap uint256 (gset uint256)) : Prop := ∀ prev s, m !! prev = Some s → s ≠ ∅.

Lemma index_inputs_spec hash l : ∀ m, no_empty m →
  no_empty (index_inputs m hash l) ∧
  ∀ prev h, recorded (index_inputs m hash l) prev h ↔ recorded m prev h ∨ (h = hash ∧ prev ∈ (op_hash ∘ prevout <$> l)).
Proof.
  induction l as [|txin l IH]; intros m Hm; [split; [done|]; set_solver|]. cbn [index_inputs fmap list_fmap].
  set (p := op_hash (prevout txin)). edestruct (IH (<[p := {[hash]} ∪ default ∅ (m !! p)]> m)) as [Hn Hr].
  { intros prev s [[_ <-]|[_ Hs]]%lookup_insert_Some; [set_solver|by apply (Hm prev)]. }
  split; [done|]. intros prev h. rewrite Hr, elem_of_cons. change ((op_hash ∘ prevout) txin) with p.
  assert (recorded (<[p := {[hash]} ∪ default ∅ (m !! p)]> m) prev h ↔ recorded m prev h ∨ h = hash ∧ prev = p) as ->; [|tauto].
  unfold recorded. destruct (decide (prev = p)) as [->|Hne].
  - rewrite lookup_insert_eq. split.
    + intros (s & [= <-] & [->%elem_of_singleton|Hin]%elem_of_union); [by right|]. left. destruct (m !! p) as [s|]; [by exists s|set_solver].
    + intros [(s & Hs & Hin)|[-> _]]; (eexists; split; [done|]); [rewrite Hs; by apply elem_of_union_r|by apply elem_of_union_l, elem_of_singleton].
  - rewrite lookup_insert_ne by done. tauto.
Qed.

Lemma unindex_inputs_spec hash l : ∀ m, no_empty m →
  no_empty (unindex_inputs m hash l) ∧
  ∀ prev h, recorded (unindex_inputs m hash l) prev h ↔ recorded m prev h ∧ ¬ (h = hash ∧ prev ∈ (op_hash ∘ prevout <$> l)).
Proof.
  induction l as [|txin l IH]; intros m Hm; [split; [done|]; set_solver|]. cbn [unindex_inputs fmap list_fmap].
  set (p := op_hash (prevout txin)). change ((op_hash ∘ prevout) txin) with p. destruct (m !! p) as [s|] eqn:E.
  - set (m' := if decide (s ∖ {[hash]} = ∅) then _ else _).
    assert (no_empty m') as Hm'.
    { unfold m'. destruct (decide _); intros prev t; [intros [_ Ht]%lookup_delete_Some|intros [[_ <-]|[_ Ht]]%lookup_insert_Some]; [by apply (Hm prev)|done|by apply (Hm prev)]. }
    assert (∀ prev h, recorded m' prev h ↔ recorded m prev h ∧ ¬ (h = hash ∧ prev = p)) as Hr'.
    { intros prev h. unfold recorded, m'. destruct (decide (prev = p)) as [->|Hne].
      - rewrite E. assert (h ∈ s ∖ {[hash]} ↔ h ∈ s ∧ ¬ (h = hash ∧ p = p)) as Hd by (rewrite elem_of_difference, elem_of_singleton; tauto).
        destruct (decide _) as [He|He]; [rewrite lookup_delete_eq|rewrite lookup_insert_eq]; split.
        + by intros (? & ? & _).
        + intros [(t & [= <-] & Ht) Hno]. exfalso. apply (not_elem_of_empty (C := gset uint256) h). rewrite <-He. by apply Hd.
        + intros (t & [= <-] & Ht). apply Hd in Ht as [Ht Hno]. split; [by exists s|done].
        + intros [(t & [= <-] & Ht) Hno]. eexists. split; [done|]. by apply Hd.
      - destruct (decide _); [rewrite lookup_delete_ne by done|rewrite lookup_insert_ne by done]; tauto. }
    destruct (IH m' Hm') as [Hn Hr]. split; [done|]. intros prev h. rewrite Hr, Hr', elem_of_cons. tauto.
  - destruct (IH m Hm) as [Hn Hr]. split; [done|]. intros prev h. rewrite Hr, elem_of_cons.
    assert (recorded m prev h → prev ≠ p) by (intros (t & Ht & _) ->; congruence). tauto.
Qed.

(** ** Consistency *)

Section facts.
Context `{HF : HashFunctions}.

Record orphans_ok (o : orphans) : Prop := {
  oo_entry h it : mapOrphanTransactions o !! h = Some it →
    h = tx_GetHash (orphan_tx it) ∧ u32 (Z.of_nat (length (Serialize_tx (orphan_tx it)))) ≤ 5000;
  oo_index prev h : recorded (mapOrphanTransactionsByPrev o) prev h ↔
    ∃ it, mapOrphanTransactions o !! h = Some it ∧ spends_from (orphan_tx it) prev;
  oo_no_empty : no_empty (mapOrphanTransactionsByPrev o);
}.

Lemma no_orphans_ok : orphans_ok no_orphans.
Proof. split; cbn; [done| |done]. intros prev h. split; [by intros (s & ? & _)|by intros (it & ? & _)]. Qed.

Lemma AddOrphanTx_ok o tx peer : orphans_ok o → orphans_ok (AddOrphanTx o tx peer).2.
Proof.
  intros Ho. unfold AddOrphanTx. destruct (bool_decide_reflect (is_Some (mapOrphanTransactions o !! tx_GetHash tx))) as [|Hnew]; [done|].
  destruct (Z.ltb_spec 5000 (u32 (Z.of_nat (length (Serialize_tx tx))))) as [|Hsz]; [done|].
  apply eq_None_not_Some in Hnew. destruct (index_inputs_spec (tx_GetHash tx) (vin tx) _ (oo_no_empty o Ho)) as [Hn Hr].
  split; cbn [snd mapOrphanTransactions mapOrphanTransactionsByPrev]; [| |done].
  - intros h it [[<- <-]|[_ Hh]]%lookup_insert_Some; [done|by apply (oo_entry o Ho)].
  - intros prev h. rewrite Hr, (oo_index o Ho). destruct (decide (h = tx_GetHash tx)) as [->|Hne].
    + rewrite lookup_insert_eq, Hnew. split; [intros [(it & ? & _)|[_ Hp]]; [done|by eexists]|]. intros (it & [= <-] & Hp). by right.
    + rewrite lookup_insert_ne by done. naive_solver.
Qed.

Lemma EraseOrphanTx_ok o hash :
  orphans_ok o → orphans_ok (EraseOrphanTx o hash) ∧ mapOrphanTransactions (EraseOrphanTx o hash) = delete hash (mapOrphanTransactions o).
Proof.
  intros Ho. unfold EraseOrphanTx. destruct (mapOrphanTransactions o !! hash) as [it|] eqn:E; [|by rewrite delete_id].
  split; [|done]. destruct (unindex_inputs_spec hash (vin (orphan_tx it)) _ (oo_no_empty o Ho)) as [Hn Hr].
  split; cbn [mapOrphanTransactions mapOrphanTransactionsByPrev]; [| |done].
  - intros h it' [_ Hh]%lookup_delete_Some. by apply (oo_entry o Ho).
  - intros prev h. rewrite Hr, (oo_index o Ho). destruct (decide (h = hash)) as [->|Hne].
    + rewrite lookup_delete_eq, E. split; [|by intros (? & ? & _)]. intros [(it' & [= <-] & Hp) []]. done.
    + rewrite lookup_delete_ne by done. naive_solver.
Qed.

Lemma by_key_elem {A} (m : gmap uint256 A) h x : (h, x) ∈ by_key m ↔ m !! h = Some x.
Proof. unfold by_key. rewrite merge_sort_Permutation. apply elem_of_map_to_list. Qed.

Lemma erase_for_ok peer l : ∀ o,
  orphans_ok o → Forall (λ it, it.1 = tx_GetHash (orphan_tx it.2)) l →
  orphans_ok (erase_for peer o l) ∧
  ∀ h it, mapOrphanTransactions (erase_for peer o l) !! h = Some it ↔
    mapOrphanTransactions o !! h = Some it ∧ ¬ ∃ it', (h, it') ∈ l ∧ fromPeer it' = peer.
Proof.
  induction l as [|[k v] l IH]; intros o Ho Hl; [split; [done|]; set_solver|]. inversion_clear Hl as [|? ? Hk Hl']. cbn [erase_for fst snd] in *.
  destruct (Z.eqb_spec (fromPeer v) peer) as [Hv|Hv].
  - destruct (EraseOrphanTx_ok o (tx_GetHash (orphan_tx v)) Ho) as [Ho' Em]. destruct (IH _ Ho' Hl') as [H1 H2]. split; [done|].
    intros h it. rewrite H2, Em, lookup_delete_Some, <-Hk. split.
    + intros [[Hne Hh] Hno]. split; [done|]. intros (it' & [[= -> ->]|Hin]%elem_of_cons & Hp); [done|]. apply Hno. by exists it'.
    + intros [Hh Hno]. split_and!; [|done|].
      * intros <-. apply Hno. exists v. split; [left|done].
      * intros (it' & Hin & Hp). apply Hno. exists it'. split; [by right|done].
  - destruct (IH o Ho Hl') as [H1 H2]. split; [done|]. intros h it. rewrite H2. f_equiv. split; intros Hno (it' & Hin & Hp); apply Hno.
    + apply elem_of_cons in Hin as [[= -> ->]|Hin]; [done|by exists it'].
    + exists it'. split; [by right|done].
Qed.

Lemma EraseOrphansFor_ok o peer :
  orphans_ok o → orphans_ok (EraseOrphansFor o peer) ∧
  ∀ h it, mapOrphanTransactions (EraseOrphansFor o peer) !! h = Some it ↔ mapOrphanTransactions o !! h = Some it ∧ fromPeer it ≠ peer.
Proof.
  intros Ho. destruct (erase_for_ok peer (by_key (mapOrphanTransactions o)) o Ho) as [H1 H2].
  { apply Forall_forall. intros [h it] Hin%by_key_elem. by apply (oo_entry o Ho). }
  split; [done|]. intros h it. unfold EraseOrphansFor. rewrite H2. split; intros [Hh Hp]; (split; [done|]).
  - intros E. apply Hp. exists it. split; [by apply by_key_elem|done].
  - intros (it' & Hin%by_key_elem & E). congruence.
Qed.

Lemma pick_orphan_some m r : m ≠ ∅ → ∃ h, pick_orphan m r = Some h ∧ is_Some (m !! h).
Proof.
  intros Hm. unfold pick_orphan. destruct (filter _ (by_key m)) as [|[h x] l] eqn:E.
  - destruct (map_choose m Hm) as (h & x & Hx). apply by_key_elem in Hx.
    destruct (by_key m) as [|[k y] l] eqn:F; [set_solver|]. exists k. split; [done|]. exists y. apply by_key_elem. rewrite F. left.
  - exists h. split; [done|]. exists x. apply by_key_elem.
    assert ((h, x) ∈ (h, x) :: l) as Hin by left. rewrite <-E in Hin. by apply list_elem_of_filter in Hin as [_ ?].
Qed.

Lemma limit_loop_ok n rand fuel : ∀ i o e,
  orphans_ok o → 0 ≤ n → (base.size (mapOrphanTransactions o) ≤ fuel)%nat → 0 ≤ e → e + Z.of_nat (base.size (mapOrphanTransactions o)) < 2 ^ 32 →
  ∃ o', limit_loop fuel rand i n o e = Some (e + (Z.of_nat (base.size (mapOrphanTransactions o)) - n) `max` 0, o') ∧ orphans_ok o' ∧
    mapOrphanTransactions o' ⊆ mapOrphanTransactions o ∧
    Z.of_nat (base.size (mapOrphanTransactions o')) = Z.of_nat (base.size (mapOrphanTransactions o)) `min` n.
Proof.
  induction fuel as [|fuel IH]; intros i o e Ho Hn Hf He Hmax; cbn [limit_loop];
    (destruct (Z.ltb_spec n (Z.of_nat (base.size (mapOrphanTransactions o)))) as [Hlt|Hge];
     [|exists o; split_and!; [do 2 f_equal; lia|done|done|lia]]); [lia|].
  destruct (pick_orphan_some (mapOrphanTransactions o) (rand i)) as (h & Eh & Hh); [intros E; rewrite E, map_size_empty in Hlt; lia|].
  rewrite Eh. cbn [mbind option_bind]. destruct (EraseOrphanTx_ok o h Ho) as [Ho' Em].
  assert (base.size (mapOrphanTransactions (EraseOrphanTx o h)) = base.size (mapOrphanTransactions o) - 1)%nat as Es.
  { rewrite Em, map_size_delete_Some by done. lia. }
  assert (u32 (e + 1) = e + 1) as -> by (apply wrap_small; unfold fits; lia).
  destruct (IH (S i) (EraseOrphanTx o h) (e + 1) Ho' Hn ltac:(lia) ltac:(lia) ltac:(lia)) as (o' & E' & Hok & Hsub & Hsz).
  exists o'. rewrite E', Es in *. split_and!; [do 2 f_equal; lia|done| |lia].
  etrans; [exact Hsub|]. rewrite Em. apply delete_subseteq.
Qed.
End facts.

(** What the node does with its orphans. *)
Inductive orphan_event :=
  | ev_add (tx : CMutableTransaction) (peer : Z)
  | ev_erase (hash : uint256)
  | ev_disconnect (peer : Z).

Section theorem.
Context `{HF : HashFunctions}.

Definition run_orphan (o : orphans) (e : orphan_event) : orphans :=
  match e with
  | ev_add tx peer => (AddOrphanTx o tx peer).2
  | ev_erase hash => EraseOrphanTx o hash
  | ev_disconnect peer => EraseOrphansFor o peer
  end.

Lemma run_orphans_ok l o : orphans_ok o → orphans_ok (foldl run_orphan o l).
Proof.
  revert o. induction l as [|e l IH]; intros o Ho; [done|]. cbn. apply IH.
  destruct e; cbn; [by apply AddOrphanTx_ok|by apply EraseOrphanTx_ok|by apply EraseOrphansFor_ok].
Qed.

(** C36: After any sequence of additions, removals and disconnections the orphan map and
    its index agree: an orphan is stored under its hash and has at most 5000 bytes, the
    index lists it under exactly the transactions it spends from, without empty sets.  A
    disconnected peer has no orphans left, and those of the others stay.  Enforcing a
    limit terminates, whatever the random hashes are, and evicts exactly the excess. *)
Theorem orphans_consistent (l : list orphan_event) (peer n : Z) (rand : nat → uint256) :
  let o := foldl run_orphan no_orphans l in
  orphans_ok o ∧
  (∀ h it, mapOrphanTransactions (EraseOrphansFor o peer) !! h = Some it ↔ mapOrphanTransactions o !! h = Some it ∧ fromPeer it ≠ peer) ∧
  (0 ≤ n → Z.of_nat (base.size (mapOrphanTransactions o)) < 2 ^ 32 →
   ∃ o', LimitOrphanTxSize rand o n = Some ((Z.of_nat (base.size (mapOrphanTransactions o)) - n) `max` 0, o') ∧ orphans_ok o' ∧
     mapOrphanTransactions o' ⊆ mapOrphanTransactions o ∧
     Z.of_nat (base.size (mapOrphanTransactions o')) = Z.of_nat (base.size (mapOrphanTransactions o)) `min` n).
Proof.
  intros o. assert (orphans_ok o) as Ho by apply run_orphans_ok, no_orphans_ok.
  split_and!; [done|by apply EraseOrphansFor_ok|]. intros Hn Hsz. by apply (limit_loop_ok n rand _ 0 o 0).
Qed.
End theorem.

Definition orphan_of (k : Z) : CMutableTransaction := MTx 1 [TxIn (OutPoint (replicate 32 k) 0) [] 0 []] [] 0.

Definition three_orphans : list orphan_event := [ev_add (orphan_of 1) 7; ev_add (orphan_of 2) 7; ev_add (orphan_of 3) 8].
Lemma three_orphans_size : Z.of_nat (base.size (mapOrphanTransactions (foldl run_orphan no_orphans three_orphans))) = 3.
Proof. vm_compute. reflexivity. Qed.

(** Three orphans, cut down to one. *)
Lemma orphans_consistent_witness :
  ∃ o', LimitOrphanTxSize (λ i, replicate 32 (Z.of_nat i)) (foldl run_orphan no_orphans three_orphans) 1 = Some (2, o') ∧ orphans_ok o'.
Proof.
  destruct (orphans_consistent three_orphans 7 1 (λ i, replicate 32 (Z.of_nat i))) as (_ & _ & Hl).
  rewrite three_orphans_size in Hl. destruct Hl as (o' & E & Ho & _); [lia|lia|]. exists o'. split; [exact E|exact Ho].
Defined.
